(* ===== verification/_CoqProject ===== *)
-Q . S2P
Prelude.v
Buffers.v
FileHandle.v
Crc.v
Codec.v
Float64.v
Opus.v
OpusProfile.v
Ogg.v
IsoBmff.v
Pdf.v
Zip.v
Amr.v
Aac.v
Mpeg.v
Png.v
Jpeg.v
Json.v
Digest.v
Numbers.v
JsonText.v
Io.v
Signature.v
Prisma.v
Domain.v
Frame.v
RateLimiter.v
Queue.v
Dispatcher.v
Lease.v
LeaseQueue.v
Outbox.v
WebhookStatus.v
Contacts.v
Conversations.v
AuditTrail.v
Tables.v
Senders.v
Inbound.v
Payload.v
Secrets.v
MediaPolicy.v
Scanner.v
S3Signature.v
Graph.v
MediaStorage.v
Templates.v
WebhookProcessor.v
Messages.v
MediaUploads.v
MediaRetention.v
MediaHistory.v
Segments.v
Personalization.v
Pages.v
Auth.v
ApiKeys.v
KeyHistory.v
KeyExamples.v
CannedResponses.v
CannedHistory.v
Realtime.v
EventStreams.v
StreamHistory.v
InboxAgents.v
InboxTeams.v
InboxSkills.v
InboxAdmission.v
Inbox.v
InboxAssignment.v
InboxCapacity.v
InboxTenancy.v
InboxExamples.v
Campaigns.v
CampaignDrafts.v
CampaignProcessor.v
Listings.v
