(* ===== verification/Prelude.v ===== *)
(** * Verification of the WhatsApp Business Platform API

    The program ([src/src/], TypeScript on NestJS, PostgreSQL through Prisma, RabbitMQ and Redis)
    sends WhatsApp messages for its tenants and takes in what Meta reports.  A send request becomes
    a message row and an outbox event in one transaction; the outbox publisher hands the message to
    the queue of its traffic class; a worker waits for a slot of the rate limiter, claims the message
    under a lease, sends it to Meta and records the outcome.  Webhooks are stored first and worked
    off by a processor: customers' messages, template statuses, delivery statuses.  Campaigns turn a
    set of contacts into one message each, through the message API.

    ** How the code is modelled

    - [Io]: an [async] function is a state transformer with exceptions, [io W A]; what it did before
      it throws stays done.  [wp] is its program logic, one rule per kind of statement.
    - [Prisma]: the database client is third-party code and an interface, a type class: tables are
      finite maps, the operations have the laws the code relies on, unique constraints included.
      [gmap_prisma] shows that the laws can hold; the theorems are about every implementation.
    - [Domain]: the rows of [prisma/schema.prisma], the world, and its effects.  [Environment] gives
      the time each effect sees and whether each database call fails, before or after it took
      effect; both are arbitrary.  A transaction is undone by any exception in it; it is one step,
      so what isolation excludes is not seen.  The races that the code handles itself are modelled
      by steps: competing workers in [Lease], lost races as refused unique constraints.
    - [Frame]: what an operation leaves alone, that it comes back, and that each of its steps keeps
      a preorder on worlds.  Invariants of long operations are proved by these rules.
    - [Json], [JsonText], [Numbers], [Float64]: JavaScript's values, their text (ASCII), numbers (binary64) and dates.
    - HTTP, the file system, the URL parser, the malware scanner, Redis and RabbitMQ answer arbitrarily or by
      documented behaviour, through classes ([Outside], [Publisher], [Host], [GraphApi], [UrlParser],
      [ScannerNetwork], [MediaDisk], [ObjectStore], [MetaMedia], [UploadHost]) or hypotheses.

    Definitions are named as in the code and executable; the examples and witnesses run them.

    ** The parts

    - Media content ([media/]): [Buffers] and [FileHandle] (short reads), [Crc], [Codec] (files as sequences of
      records), then a file per format: [Png], [Jpeg] ([media-image-structure.ts]), [Amr], [Aac], [Mpeg],
      [Opus] and [Ogg] ([media-audio-structure.ts]) with [OpusProfile] ([media-ogg-opus-profile.ts]), [IsoBmff]
      ([media-isobmff-structure.ts]), [Pdf] ([media-pdf-structure.ts]), [Zip].  Each walk accepts exactly the files
      of its format.  [Signature] ([media-content-signature.ts]) puts them together.
    - Media uploads: [MediaPolicy] ([media-upload.policy.ts], [media-storage-capacity.ts]), [Scanner]
      ([media-malware-scanner.service.ts]), [S3Signature] ([media-s3-signature.ts]), [MediaStorage]
      ([media-s3-storage.service.ts], [media-binary-storage.service.ts]: places of binaries), [MediaUploads]
      ([media.service.ts], [meta/meta-media.client.ts]: an upload registers one asset that passed every check and
      is handed to Meta at most once), [MediaRetention] ([media-asset-retention.service.ts]: what the maintenance
      gives up and removes), [MediaHistory] (no binary is kept without its asset, a finished asset lasts until
      it expires).
    - Sending: [Payload] ([messages/media-payload.util.ts], [messages/traffic-class.util.ts],
      [meta/meta-message.mapper.ts]), [Messages] ([messages/messages.service.ts],
      [messages/outbound-policy.service.ts]): a request stores nothing or one permitted message with its event.
      [Outbox] ([outbox/outbox-publisher.service.ts]), [Queue] ([queue/messaging-queue.service.ts]):
      nothing is marked published or acknowledged before it was handed on; retries and their topology.
      [RateLimiter] ([worker/distributed-rate-limiter.service.ts]): no window exceeds its limits.
      [Dispatcher] and [Lease] ([worker/message-dispatcher.service.ts]): what one dispatch does, and how
      often a message is sent when workers compete.
    - Meta: [Graph] (the clients of [meta/]), [Secrets] ([meta/secret-reference.service.ts]: a reference
      gives nothing from outside its roots), [Senders] ([phone-numbers/phone-numbers.service.ts]: one
      default sender), [Templates] ([templates/templates.service.ts], [webhooks/template-status-webhook.service.ts]).
    - Receiving: [LeaseQueue] (claiming rows of a table), [Inbound] ([webhooks/inbound-message.service.ts]: each
      message is stored once and opens the service window), [WebhookStatus]
      ([webhooks/webhook-status.service.ts]: a refinement of the abstract status machine, which order and
      redelivery do not disturb), [WebhookProcessor] ([webhooks/webhook-event-processor.service.ts]).
    - Contacts: [Contacts] ([contacts/]: consent follows the latest decision), [Conversations]
      ([inbox/conversation-activity.service.ts], [inbox/inbox-response-sla-escalation.service.ts]), [AuditTrail]
      ([audit/audit-write.util.ts]), [Segments] ([segments/]: what is stored reads back).
    - Inbox ([inbox/]): [Tables] (rows by tenant and key), [InboxAgents], [InboxTeams], [InboxSkills],
      [InboxAdmission] (capacity and skills), [Inbox] (claims, routing, changes, releases, notes).  On top of them
      [InboxAssignment] (what one operation does), [InboxCapacity] and [InboxTenancy] (invariants of histories),
      [InboxExamples].  [CannedResponses] with [CannedHistory]: updates guarded by a revision.
    - Lists: [Pages] and [Listings]: following the cursors of a list gives every row once.
    - Realtime events ([inbox-events/]): [Realtime] (cleaning and publishing), [EventStreams] (the streams of
      clients as a state machine), [StreamHistory] (its invariants, and that what is published is delivered).
    - Access ([auth/], [api-keys/]): [Digest] (SHA-256, HMAC), [Auth] (the guards), [ApiKeys], [KeyHistory] (no key
      gains rights, revocation is final), [KeyExamples].
    - Campaigns: [Personalization] ([campaigns/campaign-personalization.util.ts]), [CampaignDrafts] and [Campaigns]
      ([campaigns/campaigns.service.ts]: drafts, the snapshot a launch takes, the life of a campaign),
      [CampaignProcessor] ([campaigns/campaign-processor.service.ts]: claims, and histories of everything that
      touches campaigns).

    ** Fuel and bounds

    Recursion is structural wherever the data allows it.  Where a loop of the code has another
    measure the definition takes fuel, running out of it is the result [OutOfFuel], and each such
    theorem says that it does not come out: a walk over a file gets its size (every turn consumes a
    byte), the batches of a launch get the number of contacts,
    and printing a number needs at most 17 digits and 400 steps for its magnitude.  The wait loop of the rate limiter has no bound in the code;
    its theorem is about one turn.

    ** Not modelled

    Modules, metrics, traces and health checks (framework glue); controllers, but for those of keys, canned
    responses and streams, whose checks are their own; campaign analytics (aggregate queries); release scripts
    (processes and reports); timers, whose only effect is to start the operations that are modelled.  The list of
    templates is ordered by the time of the last change, which its cursor does not follow: no completeness
    holds, and it is left out.  Related rows in the answers of lists are left out.
    Text beyond ASCII is not represented, except where the bytes of a
    file or of the scanner are decoded: [toLowerCase] and [trim] are those of ASCII. *)
From stdpp Require Import prelude list gmap strings.
From Stdlib Require Import ZArith Lia.
#[local] Open Scope Z_scope.

(** Keep integer expressions as the source writes them under [cbn]. *)
#[global] Arguments Z.add : simpl never.
#[global] Arguments Z.sub : simpl never.
#[global] Arguments Z.mul : simpl never.
#[global] Arguments Z.pow : simpl never.
#[global] Arguments Z.div : simpl never.
#[global] Arguments Z.modulo : simpl never.
#[global] Arguments Z.land : simpl never.
#[global] Arguments Z.lxor : simpl never.
#[global] Arguments Z.shiftl : simpl never.
#[global] Arguments Z.shiftr : simpl never.
#[global] Arguments Z.to_nat : simpl never.

(** ** Execution: results, exceptions and bounded loops

    [exec E A] is the outcome of running a piece of the source: it returns a
    value, throws an exception of type [E], or has run out of the fuel the
    model gives its loops (which the termination theorems rule out). *)
Inductive exec (E A : Type) : Type :=
| Ok (a : A)
| Throws (e : E)
| OutOfFuel.
Arguments Ok {E A} a.
Arguments Throws {E A} e.
Arguments OutOfFuel {E A}.

#[export] Instance exec_ret E : MRet (exec E) := fun A a => Ok a.
#[export] Instance exec_bind E : MBind (exec E) := fun A B f m =>
  match m with
  | Ok a => f a
  | Throws e => Throws e
  | OutOfFuel => OutOfFuel
  end.

(** [Continue s]: the statement falls through in state [s].
    [Return r]: the enclosing function returned [r]. *)
Inductive flow (S R : Type) : Type :=
| Continue (s : S)
| Return (r : R).
Arguments Continue {S R} s.
Arguments Return {S R} r.

(** [while fuel cond body s] is [while (cond) { body }], run at most [fuel] times. *)
Fixpoint while {E S R : Type} (fuel : nat) (cond : S -> bool)
    (body : S -> exec E (flow S R)) (s : S) : exec E (flow S R) :=
  if cond s then
    match fuel with
    | O => OutOfFuel
    | Datatypes.S fuel' =>
        out ← body s;
        match out with
        | Continue s' => while fuel' cond body s'
        | Return r => Ok (Return r)
        end
    end
  else Ok (Continue s).

(** Run [k] on the state a loop ended in, unless the function already returned. *)
Definition afterwards {E S R : Type} (out : flow S R) (k : S -> exec E R) : exec E R :=
  match out with
  | Continue s => k s
  | Return r => Ok r
  end.

(** [const x = await m; if (!x) { d }; k x], for an [m] that may deliver [null]. *)
Definition or_else {E A B : Type} (m : exec E (option A)) (d : exec E B) (k : A -> exec E B)
    : exec E B :=
  o ← m; match o with Some a => k a | None => d end.
Notation "'let?' x := m 'else' d 'in' k" := (or_else m d (fun x => k))
  (at level 10, x binder, m at level 100, d at level 100, k at level 200,
   format "'[v' 'let?'  x  :=  m  'else'  d  'in' '/' k ']'").

Section exec_laws.
Context {E A B C : Type}.

Lemma exec_bind_ok (a : A) (f : A -> exec E B) : Ok a ≫= f = f a.
Proof. reflexivity. Qed.

Lemma exec_bind_assoc (m : exec E A) (f : A -> exec E B) (g : B -> exec E C) :
  (m ≫= f) ≫= g = m ≫= (fun a => f a ≫= g).
Proof. by destruct m. Qed.

Lemma exec_bind_inv (m : exec E A) (f : A -> exec E B) b :
  m ≫= f = Ok b -> exists a, m = Ok a /\ f a = Ok b.
Proof. destruct m; cbn; naive_solver. Qed.
End exec_laws.

(** Close [exists out, Ok o = Ok out /\ ...] once [o] is known. *)
Ltac exec_done := eexists; split; [reflexivity | cbn; eauto].

(** The function returned [false]: what remains is that the property fails. *)
Ltac rejects := exists false; split; [reflexivity|]; split; [discriminate|].

(** The total-correctness rule for [while]: if the body keeps the invariant [I]
    and decreases the measure [m], and establishes [Q] whenever it returns, then
    with enough fuel the loop neither throws nor runs out of fuel. *)
Section while_rule.
Context {E S R : Type} (cond : S -> bool) (body : S -> exec E (flow S R)).
Context (I : S -> Prop) (m : S -> nat) (Q : R -> Prop).

Lemma while_total :
  (forall s, I s -> cond s = true ->
     exists out, body s = Ok out /\
       match out with
       | Continue s' => I s' /\ (m s' < m s)%nat
       | Return r => Q r
       end) ->
  forall fuel s, I s -> (m s < fuel)%nat ->
  exists out, while fuel cond body s = Ok out /\
    match out with
    | Continue s' => I s' /\ cond s' = false
    | Return r => Q r
    end.
Proof.
  intros Hbody fuel. induction fuel as [|fuel IH]; intros s HI Hm; [lia|].
  cbn. destruct (cond s) eqn:Hc; [|by exec_done].
  destruct (Hbody s HI Hc) as ([s'|r] & -> & Hout); cbn; [|by exec_done].
  destruct Hout as [HI' Hlt]. apply IH; [done | lia].
Qed.
End while_rule.

(** Tests that agree on the elements of a list. *)
Lemma forallb_ext_elem {A} (f g : A -> bool) (l : list A) : (forall x, x ∈ l -> f x = g x) -> forallb f l = forallb g l.
Proof.
  induction l as [|x l IH]; intros Hf; cbn; [done|]. rewrite (Hf x), IH; [done| |by left].
  intros y Hy. apply Hf. by right.
Qed.
Lemma filter_ext_elem {A} (f g : A -> bool) (l : list A) :
  (forall x, x ∈ l -> f x = g x) -> filter (fun x => f x = true) l = filter (fun x => g x = true) l.
Proof.
  induction l as [|x l IH]; intros Hf; [done|]. rewrite !filter_cons, (Hf x), IH; [done| |by left].
  intros y Hy. apply Hf. by right.
Qed.
Lemma filter_id_elem {A} (f : A -> bool) (l : list A) : (forall x, x ∈ l -> f x = true) -> filter (fun x => f x = true) l = l.
Proof.
  induction l as [|x l IH]; intros Hf; [done|]. rewrite filter_cons_True, IH; [done| |apply Hf; by left].
  intros y Hy. apply Hf. by right.
Qed.

(** Decide a property of a small integer range by computation. *)
Lemma forallb_seqZ (P : Z -> bool) (n : Z) :
  forallb P (seqZ 0 n) = true -> forall x, 0 <= x < n -> P x = true.
Proof.
  intros H x Hx. eapply forallb_forall in H; [done|].
  apply list_elem_of_In, elem_of_seqZ. lia.
Qed.

(** ** Updating a field of a record: [r <| f := v |>]
    A record type gives its fields once, as the expansion of a value; the update of each
    field is derived from it. *)
Class Settable (R : Type) := expand : R -> R.
Class Setter {R T : Type} (proj : R -> T) := set : (T -> T) -> R -> R.
Arguments set {R T} proj {_} f r.
#[export] Hint Extern 1 (@Setter ?R ?T ?proj) =>
  let e := eval hnf in (@expand R _) in
  match eval pattern proj in e with
  | ?s _ => let b := eval cbv beta in (fun (f : T -> T) => s (fun r => f (proj r))) in exact b
  end : typeclass_instances.
Declare Scope record_scope.
#[warnings="-postfix-notation-not-level-1"]
Notation "r <| f := v |>" := (set f (fun _ => v) r)
  (at level 12, left associativity, format "r  <|  f  :=  v  |>") : record_scope.
#[warnings="-postfix-notation-not-level-1"]
Notation "r <| f ::= g |>" := (set f g r)
  (at level 12, left associativity, format "r  <|  f  ::=  g  |>") : record_scope.
#[global] Open Scope record_scope.

(** ** JavaScript's 32-bit integer operators *)
Module Js.
(** ToUint32 and ToInt32 of ECMAScript, on integers. *)
Definition toUint32 (z : Z) : Z := z mod 2 ^ 32.
Definition toInt32 (z : Z) : Z :=
  let m := toUint32 z in if m <? 2 ^ 31 then m else m - 2 ^ 32.

Definition and32 (a b : Z) : Z := Z.land (toInt32 a) (toInt32 b).
Definition xor32 (a b : Z) : Z := Z.lxor (toInt32 a) (toInt32 b).
Definition or32 (a b : Z) : Z := Z.lor (toInt32 a) (toInt32 b).
(** [a << n], [a >> n] and [a >>> n] for a constant [0 <= n < 32]. *)
Definition shl (a n : Z) : Z := toInt32 (Z.shiftl (toInt32 a) n).
Definition sar (a n : Z) : Z := Z.shiftr (toInt32 a) n.
Definition shr (a n : Z) : Z := Z.shiftr (toUint32 a) n.

Definition is_uint32 (z : Z) : Prop := 0 <= z < 2 ^ 32.

Lemma toUint32_range z : is_uint32 (toUint32 z).
Proof. apply Z.mod_pos_bound; lia. Qed.

Lemma toUint32_id z : is_uint32 z -> toUint32 z = z.
Proof. intros H. by apply Z.mod_small. Qed.

Lemma toInt32_small z : 0 <= z < 2 ^ 31 -> toInt32 z = z.
Proof.
  intros H. unfold toInt32. rewrite toUint32_id by (unfold is_uint32; lia).
  by rewrite (proj2 (Z.ltb_lt _ _)) by lia.
Qed.

(** Reading a signed 32-bit integer back as unsigned loses nothing. *)
Lemma toUint32_toInt32 z : toUint32 (toInt32 z) = toUint32 z.
Proof.
  unfold toInt32. case_match; [apply Z.mod_mod; lia|].
  unfold toUint32. rewrite Zminus_mod, Z_mod_same_full, Z.sub_0_r. by rewrite !Z.mod_mod.
Qed.

Lemma toUint32_testbit z i :
  0 <= i -> Z.testbit (toUint32 z) i = (i <? 32) && Z.testbit z i.
Proof.
  intros Hi. unfold toUint32. destruct (Z.ltb_spec i 32).
  - by rewrite Z.mod_pow2_bits_low by lia.
  - by rewrite Z.mod_pow2_bits_high by lia.
Qed.

Lemma toInt32_testbit_low z i :
  0 <= i < 32 -> Z.testbit (toInt32 z) i = Z.testbit z i.
Proof.
  intros Hi. pose proof (toUint32_testbit (toInt32 z) i) as H1.
  pose proof (toUint32_testbit z i) as H2.
  rewrite toUint32_toInt32 in H1. rewrite (proj2 (Z.ltb_lt i 32)) in H1, H2 by lia.
  simpl in *. rewrite H1 in H2 by lia. apply H2; lia.
Qed.

(** Xor commutes with the conversion to unsigned. *)
Lemma toUint32_xor32 a b : toUint32 (xor32 a b) = Z.lxor (toUint32 a) (toUint32 b).
Proof.
  apply Z.bits_inj'. intros i Hi. unfold xor32.
  rewrite toUint32_testbit, !Z.lxor_spec by done.
  rewrite !toUint32_testbit by done.
  destruct (Z.ltb_spec i 32); simpl; [|done].
  by rewrite !toInt32_testbit_low by lia.
Qed.

Lemma and32_small a b : 0 <= a < 2 ^ 31 -> 0 <= b < 2 ^ 31 -> and32 a b = Z.land a b.
Proof. intros Ha Hb. unfold and32. by rewrite !toInt32_small. Qed.

(** Masking with a small constant only sees the low bits, whatever the sign. *)
Lemma and32_mask a n :
  0 <= n < 31 -> and32 a (Z.ones n) = a mod 2 ^ n.
Proof.
  intros Hn. unfold and32.
  assert (0 <= Z.ones n < 2 ^ 31).
  { rewrite Z.ones_equiv. pose proof (Z.pow_lt_mono_r 2 n 31). lia. }
  rewrite (toInt32_small (Z.ones n)) by done.
  rewrite <- Z.land_ones by lia. apply Z.bits_inj'. intros i Hi.
  rewrite !Z.land_spec. rewrite Z.testbit_ones_nonneg by lia.
  destruct (Z.ltb_spec i n); [|by rewrite !andb_false_r].
  by rewrite toInt32_testbit_low by lia.
Qed.
End Js.
