(* ===== verification/Buffers.v ===== *)
(** Byte buffers as Node's [Buffer] gives them to the media checks: a buffer is a
    list of bytes, offsets and lengths are integers.  Indexing, [subarray] and the
    fixed-width big- and little-endian readers, with the lemmas on slices that
    every parser uses. *)
From stdpp Require Import prelude list strings.
From Stdlib Require Import ZArith Lia.
From S2P Require Import Prelude.
#[local] Open Scope Z_scope.

(** A [Buffer] accessor called outside the buffer throws this. *)
Inductive range_error := RangeError.
Abbreviation parser := (exec range_error).

Definition is_byte (b : Z) : Prop := 0 <= b < 256.
Definition len (l : list Z) : Z := Z.of_nat (length l).

(** [l[i]]: [None] stands for [undefined].  [at0] is the value a bitwise operator or
    [?? 0] sees: [undefined] converts to 0. *)
Definition idx (l : list Z) (i : Z) : option Z :=
  if i <? 0 then None else l !! Z.to_nat i.
Definition at0 (l : list Z) (i : Z) : Z := default 0 (idx l i).

(** [l.subarray(a, b)] for [0 <= a]; the end is clipped to the buffer. *)
Definition subarray (l : list Z) (a b : Z) : list Z :=
  take (Z.to_nat (b - a)) (drop (Z.to_nat a) l).

Definition uintLE (l : list Z) : Z := foldr (fun b acc => b + 256 * acc) 0 l.
Definition uintBE (l : list Z) : Z := foldl (fun acc b => 256 * acc + b) 0 l.

Definition read_fixed (dec : list Z -> Z) (n : Z) (l : list Z) (off : Z) : parser Z :=
  if (0 <=? off) && (off + n <=? len l) then Ok (dec (subarray l off (off + n)))
  else Throws RangeError.
Definition readUInt16LE := read_fixed uintLE 2.
Definition readUInt32LE := read_fixed uintLE 4.
Definition readUInt16BE := read_fixed uintBE 2.
Definition readUInt32BE := read_fixed uintBE 4.
Definition readBigUInt64BE := read_fixed uintBE 8.
Definition readBigInt64LE : list Z -> Z -> parser Z :=
  read_fixed (fun l => let u := uintLE l in if u <? 2 ^ 63 then u else u - 2 ^ 64) 8.

(** [buf.equals(other)] *)
Definition equals (a b : list Z) : bool := bool_decide (a = b).
(** [buf.includes(byte)] *)
Definition includes (l : list Z) (b : Z) : bool := existsb (Z.eqb b) l.

(** ASCII text as bytes. *)
Definition ascii_bytes (s : string) : list Z :=
  (fun c => Z.of_nat (Ascii.nat_of_ascii c)) <$> String.list_ascii_of_string s.

Arguments ascii_bytes s%_string_scope.

(** ** Slices *)
Section slices.
Implicit Types l : list Z.

Lemma len_nonneg l : 0 <= len l.
Proof. unfold len. lia. Qed.

Lemma len_app l1 l2 : len (l1 ++ l2) = len l1 + len l2.
Proof. unfold len. rewrite length_app. lia. Qed.

Lemma len_cons b l : len (b :: l) = 1 + len l.
Proof. unfold len. simpl. lia. Qed.

Lemma len_drop l n : 0 <= n <= len l -> len (drop (Z.to_nat n) l) = len l - n.
Proof. unfold len. rewrite length_drop. lia. Qed.

Lemma len_subarray l a b : 0 <= a <= b -> b <= len l -> len (subarray l a b) = b - a.
Proof. unfold len, subarray. rewrite length_take, length_drop. lia. Qed.

Lemma subarray_nil l a : subarray l a a = [].
Proof. unfold subarray. by rewrite Z.sub_diag. Qed.

Lemma subarray_all l : subarray l 0 (len l) = l.
Proof. unfold subarray, len. rewrite drop_0, Z.sub_0_r, take_ge; [done|lia]. Qed.

Lemma subarray_to_end l a : 0 <= a <= len l -> subarray l a (len l) = drop (Z.to_nat a) l.
Proof.
  unfold subarray, len. intros H. rewrite take_ge; [done|]. rewrite length_drop. lia.
Qed.

Lemma subarray_split l a b c :
  0 <= a <= b -> b <= c -> c <= len l -> subarray l a c = subarray l a b ++ subarray l b c.
Proof.
  unfold subarray, len. intros H1 H2 H3.
  replace (drop (Z.to_nat b) l) with (drop (Z.to_nat (b - a)) (drop (Z.to_nat a) l))
    by (rewrite drop_drop; f_equal; lia).
  replace (Z.to_nat (c - a)) with (Z.to_nat (b - a) + Z.to_nat (c - b))%nat by lia.
  rewrite <- (take_drop (Z.to_nat (b - a)) (take (_ + _) _)) at 1.
  rewrite take_take, skipn_firstn_comm. f_equal; f_equal; lia.
Qed.

Lemma subarray_subarray l a b c d :
  0 <= a -> 0 <= c <= d -> a + d <= b ->
  subarray (subarray l a b) c d = subarray l (a + c) (a + d).
Proof.
  unfold subarray. intros.
  rewrite skipn_firstn_comm, take_take, drop_drop. f_equal; [lia|]. f_equal. lia.
Qed.

Lemma take_subarray l a b n :
  0 <= n <= b - a -> take (Z.to_nat n) (subarray l a b) = subarray l a (a + n).
Proof. unfold subarray. intros. rewrite take_take. f_equal. lia. Qed.

Lemma drop_subarray l a b n :
  0 <= a -> 0 <= n -> a + n <= b -> drop (Z.to_nat n) (subarray l a b) = subarray l (a + n) b.
Proof. unfold subarray. intros. rewrite skipn_firstn_comm, drop_drop. f_equal; [lia|f_equal; lia]. Qed.

Lemma idx_subarray l a b i :
  0 <= a -> 0 <= i < b - a -> idx (subarray l a b) i = idx l (a + i).
Proof.
  unfold idx, subarray. intros.
  rewrite !(proj2 (Z.ltb_ge _ _)) by lia.
  rewrite lookup_take_lt by lia. rewrite lookup_drop. f_equal. lia.
Qed.

Lemma idx_in l i : 0 <= i < len l -> is_Some (idx l i).
Proof.
  unfold idx, len. intros. rewrite (proj2 (Z.ltb_ge _ _)) by lia.
  apply lookup_lt_is_Some. lia.
Qed.

Lemma subarray_1 l a : 0 <= a < len l -> subarray l a (a + 1) = [at0 l a].
Proof.
  intros H. destruct (idx_in l a H) as [b Hb]. unfold at0. rewrite Hb. simpl.
  unfold idx in Hb. rewrite (proj2 (Z.ltb_ge _ _)) in Hb by lia.
  unfold subarray. rewrite (drop_S _ _ _ Hb). by replace (Z.to_nat (a + 1 - a)) with 1%nat by lia.
Qed.

Lemma subarray_app_l l1 l2 a b :
  0 <= a <= b -> b <= len l1 -> subarray (l1 ++ l2) a b = subarray l1 a b.
Proof.
  unfold subarray, len. intros. rewrite drop_app_le, take_app_le; [done|..].
  - rewrite length_drop. lia.
  - lia.
Qed.

Lemma subarray_app_mid l1 l2 l3 : subarray (l1 ++ l2 ++ l3) (len l1) (len l1 + len l2) = l2.
Proof.
  unfold subarray, len. rewrite Nat2Z.id, drop_app_length.
  replace (Z.to_nat _) with (length l2) by lia. apply take_app_length.
Qed.

Lemma subarray_app_r l1 l2 : subarray (l1 ++ l2) (len l1) (len (l1 ++ l2)) = l2.
Proof.
  rewrite len_app. rewrite <- (app_nil_r l2) at 1. apply subarray_app_mid.
Qed.

Lemma idx_app_l l1 l2 i : i < len l1 -> idx (l1 ++ l2) i = idx l1 i.
Proof.
  unfold idx, len. intros. destruct (Z.ltb_spec i 0); [done|].
  rewrite lookup_app_l by lia. done.
Qed.

Lemma at0_app_l l1 l2 i : i < len l1 -> at0 (l1 ++ l2) i = at0 l1 i.
Proof. intros. unfold at0. by rewrite idx_app_l. Qed.

Lemma at0_subarray l a b i :
  0 <= a -> 0 <= i < b - a -> at0 (subarray l a b) i = at0 l (a + i).
Proof. intros. unfold at0. by rewrite idx_subarray. Qed.

Lemma equals_true l1 l2 : equals l1 l2 = true <-> l1 = l2.
Proof. unfold equals. by rewrite bool_decide_eq_true. Qed.

Lemma read_fixed_ok dec n l off :
  0 <= off -> off + n <= len l -> read_fixed dec n l off = Ok (dec (subarray l off (off + n))).
Proof.
  intros. unfold read_fixed. by rewrite (proj2 (Z.leb_le _ _)), (proj2 (Z.leb_le _ _)) by lia.
Qed.

Lemma is_byte_at0 l i : Forall is_byte l -> is_byte (at0 l i).
Proof.
  intros Hl. unfold at0, idx. case_match; [done|].
  destruct (l !! Z.to_nat i) eqn:E; simpl; [|done].
  by eapply Forall_lookup_1 in E.
Qed.

Lemma Forall_subarray P l a b : Forall P l -> Forall P (subarray l a b).
Proof. intros. unfold subarray. by apply Forall_take, Forall_drop. Qed.
End slices.

(** ** Values of the integer readers *)
(** The [n]-byte big- and little-endian encodings of [z]. *)
Fixpoint bytesLE (n : nat) (z : Z) : list Z :=
  match n with O => [] | S n' => z mod 256 :: bytesLE n' (z / 256) end.
Definition bytesBE (n : nat) (z : Z) : list Z := reverse (bytesLE n z).

Section values.
Lemma uintLE_cons b l : uintLE (b :: l) = b + 256 * uintLE l.
Proof. reflexivity. Qed.

Lemma uintBE_snoc l b : uintBE (l ++ [b]) = 256 * uintBE l + b.
Proof. unfold uintBE. by rewrite foldl_app. Qed.

Lemma uintBE_reverse l : uintBE (reverse l) = uintLE l.
Proof.
  induction l as [|b l IH]; [done|].
  rewrite reverse_cons, uintBE_snoc, IH, uintLE_cons. lia.
Qed.

Lemma uintLE_app l1 l2 : uintLE (l1 ++ l2) = uintLE l1 + 256 ^ len l1 * uintLE l2.
Proof.
  induction l1 as [|b l1 IH].
  - change (256 ^ len []) with 1. change (uintLE []) with 0. rewrite app_nil_l. lia.
  - cbn [app]. rewrite !uintLE_cons, IH, len_cons, Z.pow_add_r by (done || apply len_nonneg). lia.
Qed.

Lemma uintBE_cons b l : uintBE (b :: l) = b * 256 ^ len l + uintBE l.
Proof.
  rewrite <- (reverse_involutive (b :: l)), <- (reverse_involutive l) at 1.
  rewrite uintBE_reverse, reverse_cons, reverse_involutive, uintLE_app.
  rewrite <- (uintBE_reverse (reverse l)), reverse_involutive.
  replace (len (reverse l)) with (len l) by (unfold len; by rewrite length_reverse).
  rewrite uintLE_cons. change (uintLE []) with 0. lia.
Qed.

Lemma uintLE_range l : Forall is_byte l -> 0 <= uintLE l < 256 ^ len l.
Proof.
  induction 1 as [|b l Hb Hl IH]; [done|].
  rewrite len_cons, Z.pow_add_r, uintLE_cons by (pose proof (len_nonneg l); lia).
  unfold is_byte in Hb. lia.
Qed.

Lemma len_reverse l : len (reverse l) = len l.
Proof. unfold len. by rewrite length_reverse. Qed.

Lemma uintBE_range l : Forall is_byte l -> 0 <= uintBE l < 256 ^ len l.
Proof.
  intros Hl. rewrite <- (reverse_involutive l), uintBE_reverse, len_reverse.
  apply uintLE_range. by apply Forall_reverse.
Qed.

(** Byte [i] of a big-endian integer. *)
Lemma at0_uintBE l i :
  Forall is_byte l -> 0 <= i < len l -> at0 l i = uintBE l / 256 ^ (len l - 1 - i) mod 256.
Proof.
  intros Hl. revert i. induction Hl as [|b l Hb Hl IH]; intros i Hi.
  - change (len []) with 0 in Hi. lia.
  - rewrite len_cons in *. unfold is_byte in Hb. pose proof (uintBE_range l Hl) as Hr.
    rewrite uintBE_cons. destruct (Z.eq_dec i 0) as [->|Hne].
    + replace (1 + len l - 1 - 0) with (len l) by lia. change (at0 (b :: l) 0) with b.
      rewrite Z.div_add_l, (Z.div_small (uintBE l)), Z.add_0_r, Z.mod_small by lia. done.
    + replace (at0 (b :: l) i) with (at0 l (i - 1)).
      2: { unfold at0, idx. rewrite !(proj2 (Z.ltb_ge _ _)) by lia.
           replace (Z.to_nat i) with (S (Z.to_nat (i - 1))) by lia. done. }
      rewrite IH by lia. replace (1 + len l - 1 - i) with (len l - 1 - (i - 1)) by lia.
      set (k := len l - 1 - (i - 1)).
      replace (len l) with (1 + (i - 1) + k) by lia.
      rewrite !Z.pow_add_r, (Z.mul_comm _ (256 ^ k)) by lia.
      rewrite Z.mul_assoc, (Z.mul_comm b), <- Z.mul_assoc, Z.mul_comm.
      rewrite Z.div_add_l by (apply Z.pow_nonzero; lia).
      change (256 ^ 1) with 256.
      replace (b * (256 * 256 ^ (i - 1))) with ((b * 256 ^ (i - 1)) * 256) by lia.
      by rewrite Z.add_comm, Z.mod_add.
Qed.

Lemma len_bytesLE n z : len (bytesLE n z) = Z.of_nat n.
Proof. revert z. induction n as [|n IH]; intros z; [done|]. cbn [bytesLE]. rewrite len_cons, IH. lia. Qed.

Lemma len_bytesBE n z : len (bytesBE n z) = Z.of_nat n.
Proof. unfold bytesBE. by rewrite len_reverse, len_bytesLE. Qed.

Lemma bytesLE_bytes n z : Forall is_byte (bytesLE n z).
Proof.
  revert z. induction n as [|n IH]; intros z; constructor; [|done].
  apply Z.mod_pos_bound. lia.
Qed.

Lemma bytesBE_bytes n z : Forall is_byte (bytesBE n z).
Proof. apply Forall_reverse, bytesLE_bytes. Qed.

(** Encoding and reading back are inverse to each other. *)
Lemma uintLE_bytesLE n z : 0 <= z < 256 ^ Z.of_nat n -> uintLE (bytesLE n z) = z.
Proof.
  revert z. induction n as [|n IH]; intros z Hz; [cbn in *; lia|].
  cbn [bytesLE]. rewrite uintLE_cons, IH.
  - pose proof (Z.div_mod z 256). lia.
  - rewrite Nat2Z.inj_succ, Z.pow_succ_r in Hz by lia.
    split; [apply Z.div_pos; lia|apply Z.div_lt_upper_bound; lia].
Qed.

Lemma bytesLE_uintLE l : Forall is_byte l -> bytesLE (length l) (uintLE l) = l.
Proof.
  induction 1 as [|b l Hb Hl IH]; [done|]. unfold is_byte in Hb.
  cbn [bytesLE length]. rewrite uintLE_cons.
  rewrite (Z.mul_comm 256), Z.mod_add, Z.div_add, Z.mod_small, Z.div_small, Z.add_0_l by lia.
  by rewrite IH.
Qed.

Lemma uintBE_bytesBE n z : 0 <= z < 256 ^ Z.of_nat n -> uintBE (bytesBE n z) = z.
Proof. intros. unfold bytesBE. rewrite uintBE_reverse. by apply uintLE_bytesLE. Qed.

Lemma bytesBE_uintBE l : Forall is_byte l -> bytesBE (length l) (uintBE l) = l.
Proof.
  intros Hl. apply Forall_reverse in Hl. pose proof (bytesLE_uintLE _ Hl) as E.
  rewrite length_reverse, <- uintBE_reverse, reverse_involutive in E.
  unfold bytesBE. by rewrite E, reverse_involutive.
Qed.
End values.

(** ** The rest of a buffer *)
Section rests.
Context (p : list Z).

(** [l] is what follows [offset]. *)
Definition rest_at (offset : Z) (l : list Z) : Prop :=
  0 <= offset /\ offset + len l = len p /\ drop (Z.to_nat offset) p = l.

Lemma rest_cons (Hp : Forall is_byte p) offset b l : rest_at offset (b :: l) -> at0 p offset = b /\ is_byte b /\ rest_at (offset + 1) l.
Proof.
  intros (Ho & Hl & Hd). rewrite len_cons in Hl.
  assert (p !! Z.to_nat offset = Some b) as Hb.
  { rewrite <- (Nat.add_0_r (Z.to_nat offset)), <- lookup_drop, Hd. done. }
  split; [|split; [by eapply Forall_lookup_1|split; [lia|split; [lia|]]]].
  - unfold at0, idx. rewrite (proj2 (Z.ltb_ge _ _)) by lia. by rewrite Hb.
  - replace (Z.to_nat (offset + 1)) with (S (Z.to_nat offset)) by lia.
    rewrite (drop_S _ _ _ Hb) in Hd. by injection Hd.
Qed.

Lemma rest_nil offset : rest_at offset [] -> offset = len p.
Proof. intros (_ & Hl & _). change (len []) with 0 in Hl. lia. Qed.

Lemma rest_range offset l : rest_at offset l -> 0 <= offset <= len p.
Proof. intros (Ho & Hl & _). pose proof (len_nonneg l). lia. Qed.

Lemma rest_start offset : 0 <= offset <= len p -> rest_at offset (drop (Z.to_nat offset) p).
Proof. intros Ho. split; [lia|]. split; [|done]. rewrite len_drop by lia. lia. Qed.

Lemma rest_drop offset l n : rest_at offset l -> 0 <= n <= len l -> rest_at (offset + n) (drop (Z.to_nat n) l).
Proof.
  intros (Ho & Hl & Hd) Hn. split; [lia|]. split; [rewrite len_drop; lia|].
  rewrite <- Hd, drop_drop. f_equal. lia.
Qed.

Lemma rest_take offset l n : rest_at offset l -> 0 <= n -> subarray p offset (offset + n) = take (Z.to_nat n) l.
Proof. intros (Ho & _ & <-) Hn. unfold subarray. f_equal. lia. Qed.

Lemma rest_sub offset l a b : rest_at offset l -> 0 <= a -> 0 <= b -> subarray p (offset + a) (offset + b) = subarray l a b.
Proof.
  intros (Ho & _ & <-) Ha Hb. unfold subarray. rewrite drop_drop. f_equal; [lia|]. f_equal. lia.
Qed.

Lemma rest_bytes offset l : Forall is_byte p -> rest_at offset l -> Forall is_byte l.
Proof. intros Hp (_ & _ & <-). by apply Forall_drop. Qed.
End rests.

Lemma rest_at_0 l : rest_at l 0 l.
Proof. split; [done|]. split; [lia|done]. Qed.

#[export] Hint Resolve len_nonneg : core.
Create HintDb bufs discriminated.
Create Rewrite HintDb bufs.
#[export] Hint Rewrite len_app len_cons subarray_all equals_true : bufs.
#[export] Hint Resolve Forall_subarray is_byte_at0 : bufs.
