(* ===== verification/FileHandle.v ===== *)
(** Open files and [readExactly].

    A [FileHandle] is the [fs/promises] handle of a file that nobody writes while it
    is checked: its bytes, whether it is a regular file, and how many bytes each
    [read] delivers.  POSIX allows short reads, so the count is arbitrary between 1
    and what is available, and 0 only at the end of the file: [bytesRead_law].
    The theorems therefore hold for every way the kernel may slice the reads. *)
From stdpp Require Import prelude list.
From Stdlib Require Import ZArith Lia.
From S2P Require Import Prelude Buffers.
#[local] Open Scope Z_scope.

Record FileHandle := {
  contents : list Z;
  isFile : bool;
  bytesRead : Z -> Z -> Z;       (** requested length, position *)
  contents_bytes : Forall is_byte contents;
  bytesRead_law : forall length position,
    0 < length -> 0 <= position ->
    let available := Z.min length (len contents - position) in
    (available <= 0 -> bytesRead length position = 0) /\
    (0 < available -> 1 <= bytesRead length position <= available)
}.

(** [fileStat.size] *)
Definition size (h : FileHandle) : Z := len (contents h).

(** [handle.read(buffer, offset, length, position)]: the bytes it delivers. *)
Definition handle_read (h : FileHandle) (length position : Z) : list Z :=
  subarray (contents h) position (position + bytesRead h length position).

(** The loop state of [readExactly] is the filled part of [buffer]; [offset] is its length. *)
Definition readExactly_body (h : FileHandle) (length position : Z) (buffer : list Z)
    : parser (flow (list Z) (option (list Z))) :=
  let offset := len buffer in
  let chunk := handle_read h (length - offset) (position + offset) in
  if len chunk =? 0 then Ok (Return None)
  else Ok (Continue (buffer ++ chunk)).

Definition readExactly (h : FileHandle) (length position : Z) : parser (option (list Z)) :=
  out ← while (S (Z.to_nat length)) (fun buffer => len buffer <? length)
          (readExactly_body h length position) [];
  afterwards out (fun buffer => Ok (Some buffer)).

(** What [readExactly] promises to its callers. *)
Definition read_at (c : list Z) (length position : Z) : option (list Z) :=
  if (length =? 0) || (position + length <=? len c)
  then Some (subarray c position (position + length)) else None.

Section read_exactly.
Context (h : FileHandle) (length position : Z).
Hypothesis Hlength : 0 <= length.
Hypothesis Hposition : 0 <= position.

Definition filled (buffer : list Z) : Prop :=
  len buffer <= length /\
  (len buffer = 0 \/ position + len buffer <= size h) /\
  buffer = subarray (contents h) position (position + len buffer).

Lemma readExactly_body_spec buffer :
  filled buffer -> (len buffer <? length) = true ->
  exists out, readExactly_body h length position buffer = Ok out /\
    match out with
    | Continue buffer' => filled buffer' /\
        (Z.to_nat (length - len buffer') < Z.to_nat (length - len buffer))%nat
    | Return r => r = read_at (contents h) length position
    end.
Proof.
  intros (Hle & Hin & Heq) Hlt%Z.ltb_lt. pose proof (len_nonneg buffer).
  unfold readExactly_body, handle_read.
  destruct (bytesRead_law h (length - len buffer) (position + len buffer)) as [Hend Hmore];
    [lia..|].
  set (n := bytesRead h _ _) in *. fold (size h) in Hend, Hmore.
  destruct (Z.le_gt_cases (Z.min (length - len buffer) (size h - (position + len buffer))) 0) as [Hz|Hp].
  - rewrite (Hend Hz), Z.add_0_r, subarray_nil. cbn. eexists; split; [done|].
    cbn. unfold read_at. fold (size h).
    by rewrite (proj2 (Z.eqb_neq _ _)), (proj2 (Z.leb_gt _ _)) by lia.
  - specialize (Hmore Hp).
    assert (Hc : len (subarray (contents h) (position + len buffer) (position + len buffer + n)) = n).
    { rewrite len_subarray; unfold size in *; lia. }
    rewrite Hc, (proj2 (Z.eqb_neq _ _)) by lia. eexists; split; [done|]. cbn.
    assert (Hl : len (buffer ++ subarray (contents h) (position + len buffer)
              (position + len buffer + n)) = len buffer + n) by (rewrite len_app; lia).
    unfold filled. rewrite !Hl. split; [|lia]. split; [lia|]. split; [unfold size in *; lia|].
    rewrite Heq at 1. rewrite Z.add_assoc.
    rewrite <- subarray_split; [done|unfold size in *; lia..].
Qed.

(** However the kernel slices the reads, the bytes asked for are returned, or
    [None] when the file ends before. *)
Lemma readExactly_spec :
  readExactly h length position = Ok (read_at (contents h) length position).
Proof.
  destruct (while_total (fun buffer => len buffer <? length)
    (readExactly_body h length position) filled
    (fun buffer => Z.to_nat (length - len buffer))
    (fun r => r = read_at (contents h) length position)
    readExactly_body_spec (S (Z.to_nat length)) []) as (out & Hw & Hout).
  - unfold filled. rewrite Z.add_0_r, subarray_nil. cbn. auto with lia.
  - change (len []) with 0. lia.
  - unfold readExactly. rewrite Hw. cbn. destruct out as [buffer|r]; cbn; [|by rewrite Hout].
    destruct Hout as [(Hle & Hin & Heq) Hlt%Z.ltb_ge].
    assert (Hn : len buffer = length) by lia. rewrite Hn in *. rewrite Heq.
    unfold read_at. destruct (Z.eqb_spec length 0); [done|].
    destruct Hin; [lia|]. by rewrite (proj2 (Z.leb_le _ _)) by done.
Qed.
End read_exactly.

(** A regular file whose reads never deliver more than [k] bytes. *)
Lemma bounded_read_law k c length position :
  0 < k -> 0 < length -> 0 <= position ->
  let available := Z.min length (len c - position) in
  let n := Z.max 0 (Z.min k available) in
  (available <= 0 -> n = 0) /\ (0 < available -> 1 <= n <= available).
Proof. cbv zeta. lia. Qed.

Definition throttled_file (k : positive) (c : list Z) (Hc : Forall is_byte c) : FileHandle :=
  {| contents := c; isFile := true;
     bytesRead := fun n p => Z.max 0 (Z.min (Zpos k) (Z.min n (len c - p)));
     contents_bytes := Hc;
     bytesRead_law := fun n p => bounded_read_law (Zpos k) c n p (Pos2Z.is_pos k) |}.

#[export] Instance is_byte_dec b : Decision (is_byte b).
Proof. unfold is_byte. apply _. Defined.

(** A literal file for examples: the byte condition is decided. *)
Definition literal_file (c : list Z) : option FileHandle :=
  match decide (Forall is_byte c) with
  | left H => Some (throttled_file 7 c H)
  | right _ => None
  end.

Section read_at_lemmas.
Context (c : list Z).

Lemma read_at_some n p : 0 <= n -> p + n <= len c -> read_at c n p = Some (subarray c p (p + n)).
Proof. intros. unfold read_at. rewrite (proj2 (Z.leb_le _ _)) by lia. by rewrite orb_true_r. Qed.

Lemma read_at_none n p : 0 < n -> len c < p + n -> read_at c n p = None.
Proof.
  intros. unfold read_at.
  by rewrite (proj2 (Z.leb_gt _ _)), (proj2 (Z.eqb_neq _ _)) by lia.
Qed.

Lemma read_at_inv n p b :
  0 <= n -> 0 <= p -> read_at c n p = Some b -> len b = n /\ b = subarray c p (p + n).
Proof.
  intros Hn Hp. unfold read_at. destruct (Z.eqb_spec n 0) as [->|Hne]; simpl.
  - intros [= <-]. by rewrite Z.add_0_r, subarray_nil.
  - case_match eqn:E; [|done]. apply Z.leb_le in E. intros [= <-]. split; [|done].
    rewrite len_subarray; lia.
Qed.
End read_at_lemmas.

(** ** Reading in the source's style: [const x = await readExactly(...); if (!x) ...] *)
Section or_else_read.
Context {B : Type} (h : FileHandle) (n p : Z) (d : parser B) (k : list Z -> parser B).

Lemma or_else_read :
  0 <= n -> 0 <= p ->
  or_else (readExactly h n p) d k =
    match read_at (contents h) n p with Some b => k b | None => d end.
Proof. intros. unfold or_else. by rewrite readExactly_spec. Qed.

Lemma or_else_read_ok :
  0 <= n -> 0 <= p -> p + n <= size h ->
  or_else (readExactly h n p) d k = k (subarray (contents h) p (p + n)).
Proof. intros. rewrite or_else_read by done. by rewrite read_at_some by (unfold size in *; lia). Qed.

Lemma or_else_read_short :
  0 < n -> 0 <= p -> size h < p + n -> or_else (readExactly h n p) d k = d.
Proof. intros. rewrite or_else_read by lia. by rewrite read_at_none by (unfold size in *; lia). Qed.
End or_else_read.

Lemma size_nonneg h : 0 <= size h.
Proof. apply len_nonneg. Qed.
#[export] Hint Resolve size_nonneg : core.

(** The rest of the file from [offset] on. *)
Lemma len_rest h offset :
  0 <= offset <= size h -> len (subarray (contents h) offset (size h)) = size h - offset.
Proof. intros. apply len_subarray; unfold size in *; lia. Qed.

Lemma at0_neg l i : i < 0 -> at0 l i = 0.
Proof. intros. unfold at0, idx. by rewrite (proj2 (Z.ltb_lt _ _)). Qed.

(** A header read at [offset] and the rest of the file agree on the header's bytes. *)
Lemma at0_header h offset n i :
  0 <= offset -> offset + n <= size h -> i < n ->
  at0 (subarray (contents h) offset (offset + n)) i = at0 (subarray (contents h) offset (size h)) i.
Proof.
  intros. destruct (Z.ltb_spec i 0); [by rewrite !at0_neg|]. by rewrite !at0_subarray by lia.
Qed.
