(* ===== verification/Crc.v ===== *)
(** The two table-driven CRC-32 routines of the media checks: the reflected one
    of PNG chunks ([media-image-structure.ts]) and the most-significant-bit-first one of
    Ogg pages ([media-audio-structure.ts]).

    [SerialCrc] is the interface: a CRC as a bit-serial shift register.  Both
    routines are proved equal to an instance of it, and the error-detection
    theorem is proved once against the interface. *)
From stdpp Require Import prelude list.
From Stdlib Require Import ZArith Lia.
From S2P Require Import Prelude Buffers.
#[local] Open Scope Z_scope.
Import Js.

(** ** The bit-serial register *)
Class SerialCrc := {
  sc_bit : Z -> Z;          (** one shift of the 32-bit register *)
  sc_feed : Z -> Z;         (** where a byte enters the register *)
  sc_bit_range : forall a, is_uint32 a -> is_uint32 (sc_bit a);
  sc_bit_linear : forall a b, sc_bit (Z.lxor a b) = Z.lxor (sc_bit a) (sc_bit b);
  sc_bit_kernel : forall a, is_uint32 a -> sc_bit a = 0 -> a = 0;
  sc_feed_range : forall b, is_byte b -> is_uint32 (sc_feed b);
  sc_feed_inj : forall a b, sc_feed a = sc_feed b -> a = b
}.

Definition serial_byte `{SerialCrc} (crc b : Z) : Z := Nat.iter 8 sc_bit (Z.lxor crc (sc_feed b)).
Definition serial_crc `{SerialCrc} (crc : Z) (bytes : list Z) : Z := foldl serial_byte crc bytes.

Lemma lxor_uint32 a b : is_uint32 a -> is_uint32 b -> is_uint32 (Z.lxor a b).
Proof.
  intros Ha Hb. rewrite <- (toUint32_id a), <- (toUint32_id b) by done.
  rewrite <- toUint32_xor32. apply toUint32_range.
Qed.

Section serial.
Context `{SerialCrc}.

Lemma sc_iter_linear n a b :
  Nat.iter n sc_bit (Z.lxor a b) = Z.lxor (Nat.iter n sc_bit a) (Nat.iter n sc_bit b).
Proof. induction n as [|n IH]; [done|]. rewrite !Nat.iter_succ, IH. apply sc_bit_linear. Qed.

Lemma sc_iter_range n a : is_uint32 a -> is_uint32 (Nat.iter n sc_bit a).
Proof. intros Ha. induction n; [done|]. rewrite Nat.iter_succ. by apply sc_bit_range. Qed.

Lemma sc_iter_inj n a b :
  is_uint32 a -> is_uint32 b -> Nat.iter n sc_bit a = Nat.iter n sc_bit b -> a = b.
Proof.
  intros Ha Hb Heq. apply Z.lxor_eq. pose proof (lxor_uint32 a b Ha Hb) as Hd.
  assert (Hz : Nat.iter n sc_bit (Z.lxor a b) = 0)
    by (rewrite sc_iter_linear, Heq; apply Z.lxor_nilpotent).
  revert Hd Hz. clear Heq. generalize (Z.lxor a b).
  induction n as [|n IH]; [by intros z _ Hz|].
  intros z Hz Hn. rewrite Nat.iter_succ in Hn. apply sc_bit_kernel in Hn; [by apply IH|].
  by apply sc_iter_range.
Qed.

Lemma serial_byte_range crc b : is_uint32 crc -> is_byte b -> is_uint32 (serial_byte crc b).
Proof. intros. apply sc_iter_range, lxor_uint32; [done|]. by apply sc_feed_range. Qed.

Lemma serial_crc_range crc bytes :
  is_uint32 crc -> Forall is_byte bytes -> is_uint32 (serial_crc crc bytes).
Proof.
  intros Hc Hb. revert crc Hc. induction Hb as [|b l Hb Hl IH]; intros crc Hc; [done|].
  cbn. apply IH. by apply serial_byte_range.
Qed.

Lemma lxor_cancel_l a b c : Z.lxor a b = Z.lxor a c -> b = c.
Proof.
  intros E. apply (f_equal (Z.lxor a)) in E.
  by rewrite <- !Z.lxor_assoc, Z.lxor_nilpotent, !Z.lxor_0_l in E.
Qed.

Lemma serial_byte_inj_byte crc a b :
  is_uint32 crc -> is_byte a -> is_byte b -> serial_byte crc a = serial_byte crc b -> a = b.
Proof.
  intros Hc Ha Hb E. apply sc_iter_inj in E; [|by apply lxor_uint32, sc_feed_range..].
  by apply lxor_cancel_l, sc_feed_inj in E.
Qed.

Lemma serial_byte_inj_crc c d b :
  is_uint32 c -> is_uint32 d -> is_byte b -> serial_byte c b = serial_byte d b -> c = d.
Proof.
  intros Hc Hd Hb E.
  apply sc_iter_inj in E; [|by apply lxor_uint32; [|apply sc_feed_range]..].
  rewrite !(Z.lxor_comm _ (sc_feed b)) in E. by apply lxor_cancel_l in E.
Qed.

Lemma serial_crc_inj c d bytes :
  is_uint32 c -> is_uint32 d -> Forall is_byte bytes ->
  serial_crc c bytes = serial_crc d bytes -> c = d.
Proof.
  intros Hc Hd Hb. revert c d Hc Hd. induction Hb as [|b l Hb Hl IH]; intros c d Hc Hd E; [done|].
  cbn in E. apply IH in E; [|by apply serial_byte_range..].
  by apply serial_byte_inj_crc in E.
Qed.

(** A change confined to one byte always changes the checksum. *)
Lemma serial_crc_detects crc pre a b post :
  is_uint32 crc -> Forall is_byte (pre ++ a :: post) -> is_byte b ->
  serial_crc crc (pre ++ a :: post) = serial_crc crc (pre ++ b :: post) -> a = b.
Proof.
  intros Hc [Hpre [Ha Hpost]%Forall_cons_1]%Forall_app Hb E.
  unfold serial_crc in E. rewrite !foldl_app in E. cbn in E.
  pose proof (serial_crc_range crc pre Hc Hpre) as Hr.
  apply serial_crc_inj in E; [|by apply serial_byte_range..|done].
  by apply serial_byte_inj_byte in E.
Qed.
End serial.

(** Split a register at bit [n]. *)
Lemma lxor_split x n : 0 <= n -> x = Z.lxor (Z.shiftl (Z.shiftr x n) n) (x mod 2 ^ n).
Proof.
  intros Hn. apply Z.bits_inj'. intros i Hi. rewrite Z.lxor_spec, Z.shiftl_spec by done.
  destruct (Z.ltb_spec i n).
  - rewrite (Z.testbit_neg_r _ (i - n)), Z.mod_pow2_bits_low by lia. by rewrite xorb_false_l.
  - rewrite Z.shiftr_spec, Z.mod_pow2_bits_high by lia. rewrite xorb_false_r. f_equal. lia.
Qed.

(** A byte below 256 is one of 256 values: decide a property of a table entry. *)
Lemma byte_forall (P : Z -> bool) :
  forallb P (seqZ 0 256) = true -> forall b, is_byte b -> P b = true.
Proof. intros H b Hb. by apply (forallb_seqZ P 256). Qed.

(** ** PNG: [buildCrc32Table] and [updateCrc32] *)
Module PngCrc.
Definition table_bit (value : Z) : Z :=
  if negb (and32 value 1 =? 0) then xor32 0xedb88320 (shr value 1) else shr value 1.
Definition buildCrc32Table : list Z :=
  (fun index => toUint32 (Nat.iter 8 table_bit index)) <$> seqZ 0 256.
Definition CRC32_TABLE : list Z := Eval vm_compute in buildCrc32Table.

Definition updateCrc32 (initial : Z) (bytes : list Z) : Z :=
  foldl (fun crc value =>
    toUint32 (xor32 (at0 CRC32_TABLE (and32 (xor32 crc value) 0xff)) (shr crc 8)))
    (toUint32 initial) bytes.

(** The bit-serial register of the PNG specification (reflected, polynomial 0xedb88320). *)
Definition bit (c : Z) : Z :=
  Z.lxor (Z.shiftr c 1) (if Z.testbit c 0 then 0xedb88320 else 0).

Lemma bit_range a : is_uint32 a -> is_uint32 (bit a).
Proof.
  intros Ha. unfold bit. apply lxor_uint32; [|by case_match].
  unfold is_uint32 in *. rewrite Z.shiftr_div_pow2 by done.
  split; [apply Z.div_pos; lia|apply Z.div_lt_upper_bound; lia].
Qed.

Lemma bit_linear a b : bit (Z.lxor a b) = Z.lxor (bit a) (bit b).
Proof.
  unfold bit. rewrite Z.shiftr_lxor, Z.lxor_spec.
  apply Z.bits_inj'. intros i _. rewrite !Z.lxor_spec.
  destruct (Z.testbit a 0), (Z.testbit b 0); cbn [xorb]; rewrite ?Z.bits_0;
    by destruct (Z.testbit (Z.shiftr a 1) i), (Z.testbit (Z.shiftr b 1) i), (Z.testbit 0xedb88320 i).
Qed.

Lemma bit_kernel a : is_uint32 a -> bit a = 0 -> a = 0.
Proof.
  unfold bit, is_uint32. intros Ha E%Z.lxor_eq. rewrite Z.shiftr_div_pow2 in E by done.
  pose proof (Z.div_mod a 2) as Hd. pose proof (Z.bit0_mod a) as Hb. rewrite <- Hb in Hd.
  change (2 ^ 1) with 2 in E. destruct (Z.testbit a 0); cbn in *; lia.
Qed.

#[export] Program Instance png_crc : SerialCrc :=
  {| sc_bit := bit; sc_feed := fun b => b; sc_bit_range := bit_range;
     sc_bit_linear := bit_linear; sc_bit_kernel := bit_kernel |}.
Next Obligation. unfold is_byte, is_uint32. lia. Qed.
Next Obligation. done. Qed.

(** Eight shifts of a register whose low byte is clear just move it down. *)
Lemma iter_bit_shift n y : Nat.iter n bit (Z.shiftl y (Z.of_nat n)) = y.
Proof.
  induction n as [|n IH]; [apply Z.shiftl_0_r|].
  rewrite Nat.iter_succ_r. rewrite <- IH at 2. f_equal.
  unfold bit. rewrite Z.shiftl_spec_low by lia. rewrite Z.lxor_0_r.
  rewrite Z.shiftr_shiftl_l by lia. f_equal. lia.
Qed.

Lemma table_correct b : is_byte b -> at0 CRC32_TABLE b = Nat.iter 8 bit b.
Proof.
  intros Hb. apply Z.eqb_eq. revert b Hb.
  apply (byte_forall (fun b => at0 CRC32_TABLE b =? Nat.iter 8 bit b)). by vm_compute.
Qed.

Lemma shiftr_8_byte crc b : is_byte b -> Z.shiftr (Z.lxor crc b) 8 = Z.shiftr crc 8.
Proof.
  intros Hb. rewrite Z.shiftr_lxor. replace (Z.shiftr b 8) with 0; [apply Z.lxor_0_r|].
  rewrite Z.shiftr_div_pow2 by done. unfold is_byte in Hb. by rewrite Z.div_small by lia.
Qed.

Lemma serial_byte_table crc b :
  is_byte b ->
  serial_byte crc b = Z.lxor (Nat.iter 8 bit (Z.lxor crc b mod 2 ^ 8)) (Z.shiftr crc 8).
Proof.
  intros Hb. unfold serial_byte. cbn [sc_feed sc_bit png_crc].
  rewrite (lxor_split (Z.lxor crc b) 8) at 1 by done.
  rewrite (sc_iter_linear (H := png_crc) 8). cbn [sc_bit png_crc].
  rewrite (iter_bit_shift 8), shiftr_8_byte by done. apply Z.lxor_comm.
Qed.

Lemma index_correct crc b :
  is_uint32 crc -> is_byte b -> and32 (xor32 crc b) 0xff = Z.lxor crc b mod 2 ^ 8.
Proof.
  intros Hc Hb. change 0xff with (Z.ones 8). rewrite and32_mask by done.
  unfold xor32. apply Z.bits_inj'. intros i Hi. destruct (Z.ltb_spec i 8).
  - rewrite !Z.mod_pow2_bits_low, !Z.lxor_spec by lia. by rewrite !toInt32_testbit_low by lia.
  - by rewrite !Z.mod_pow2_bits_high by lia.
Qed.

Lemma updateCrc32_step crc b :
  is_uint32 crc -> is_byte b ->
  toUint32 (xor32 (at0 CRC32_TABLE (and32 (xor32 crc b) 0xff)) (shr crc 8)) = serial_byte crc b.
Proof.
  intros Hc Hb. rewrite toUint32_xor32, index_correct, serial_byte_table by done.
  rewrite table_correct by (apply Z.mod_pos_bound; lia).
  unfold shr. rewrite (toUint32_id crc) by done. rewrite !toUint32_id; [done|..].
  - unfold is_uint32 in *. rewrite Z.shiftr_div_pow2 by done.
    split; [apply Z.div_pos; lia|apply Z.div_lt_upper_bound; lia].
  - apply (sc_iter_range (H := png_crc)). unfold is_uint32.
    pose proof (Z.mod_pos_bound (Z.lxor crc b) (2 ^ 8)). lia.
Qed.

Lemma updateCrc32_serial initial bytes :
  is_uint32 initial -> Forall is_byte bytes -> updateCrc32 initial bytes = serial_crc initial bytes.
Proof.
  intros Hi Hb. unfold updateCrc32. rewrite toUint32_id by done. revert initial Hi.
  induction Hb as [|b l Hb Hl IH]; intros crc Hc; [done|]. cbn [foldl serial_crc].
  rewrite updateCrc32_step by done. apply IH. by apply serial_byte_range.
Qed.
End PngCrc.

(** ** Ogg: [buildOggCrcTable] and [hasValidOggCrc] *)
Module OggCrc.
Definition table_bit (value : Z) : Z :=
  if negb (and32 value 0x80000000 =? 0)
  then toUint32 (xor32 (shr (shl value 1) 0) 0x04c11db7)
  else shr (shl value 1) 0.
Definition buildOggCrcTable : list Z :=
  (fun index => toUint32 (Nat.iter 8 table_bit (shr (shl index 24) 0))) <$> seqZ 0 256.
Definition OGG_CRC_TABLE : list Z := Eval vm_compute in buildOggCrcTable.

Definition crc_step (crc byte : Z) : Z :=
  let tableIndex := and32 (xor32 (shr crc 24) byte) 0xff in
  toUint32 (xor32 (shr (shl crc 8) 0) (at0 OGG_CRC_TABLE tableIndex)).

(** The checksum field of the page header, bytes 22 to 25, counts as zero. *)
Definition crc_input (page : list Z) : list Z :=
  imap (fun index byte =>
    if (22 <=? Z.of_nat index) && (Z.of_nat index <=? 25) then 0 else byte) page.

Definition hasValidOggCrc (page : list Z) : parser bool :=
  if len page <? 27 then Ok false else
  expected ← readUInt32LE page 22;
  Ok (foldl crc_step 0 (crc_input page) =? expected).

(** The bit-serial register of the Ogg specification (polynomial 0x04c11db7). *)
Definition bit (c : Z) : Z :=
  Z.lxor (toUint32 (Z.shiftl c 1)) (if Z.testbit c 31 then 0x04c11db7 else 0).

Lemma ogg_bit_range a : is_uint32 a -> is_uint32 (bit a).
Proof. intros Ha. apply lxor_uint32; [apply toUint32_range|by case_match]. Qed.

Lemma toUint32_lxor a b : toUint32 (Z.lxor a b) = Z.lxor (toUint32 a) (toUint32 b).
Proof.
  apply Z.bits_inj'. intros i Hi. rewrite Z.lxor_spec, !toUint32_testbit, Z.lxor_spec by done.
  by destruct (i <? 32).
Qed.

Lemma ogg_bit_linear a b : bit (Z.lxor a b) = Z.lxor (bit a) (bit b).
Proof.
  unfold bit. rewrite Z.shiftl_lxor, toUint32_lxor, Z.lxor_spec.
  apply Z.bits_inj'. intros i _. rewrite !Z.lxor_spec.
  destruct (Z.testbit a 31), (Z.testbit b 31); cbn [xorb]; rewrite ?Z.bits_0;
    by destruct (Z.testbit (toUint32 (Z.shiftl a 1)) i), (Z.testbit (toUint32 (Z.shiftl b 1)) i),
      (Z.testbit 0x04c11db7 i).
Qed.

Lemma ogg_bit_kernel a : is_uint32 a -> bit a = 0 -> a = 0.
Proof.
  intros Ha. unfold bit. intros E%Z.lxor_eq.
  destruct (Z.testbit a 31) eqn:T.
  - exfalso. apply (f_equal (fun z => Z.testbit z 0)) in E.
    rewrite toUint32_testbit, Z.shiftl_spec_low in E by done. done.
  - apply Z.bits_inj'. intros i Hi. rewrite Z.bits_0.
    destruct (Z.ltb_spec i 31).
    + apply (f_equal (fun z => Z.testbit z (i + 1))) in E.
      rewrite toUint32_testbit, (proj2 (Z.ltb_lt _ _)), Z.shiftl_spec, Z.bits_0 in E by lia.
      by rewrite Z.add_simpl_r in E.
    + destruct (Z.eqb_spec i 31); [by subst|].
      rewrite <- (toUint32_id a), toUint32_testbit, (proj2 (Z.ltb_ge _ _)) by (done || lia). done.
Qed.

#[export] Program Instance ogg_crc : SerialCrc :=
  {| sc_bit := bit; sc_feed := fun b => Z.shiftl b 24; sc_bit_range := ogg_bit_range;
     sc_bit_linear := ogg_bit_linear; sc_bit_kernel := ogg_bit_kernel |}.
Next Obligation.
  intros b Hb. unfold is_byte, is_uint32 in *. rewrite Z.shiftl_mul_pow2 by done. lia.
Qed.
Next Obligation. intros a b E. cbv beta in E. rewrite !Z.shiftl_mul_pow2 in E by done. lia. Qed.

(** A register whose top [n] bits are clear just moves up. *)
Lemma ogg_iter_bit_shift n y :
  (n <= 32)%nat -> 0 <= y < 2 ^ (32 - Z.of_nat n) ->
  Nat.iter n bit y = Z.shiftl y (Z.of_nat n).
Proof.
  induction n as [|n IH]; intros Hn Hy; [by rewrite Z.shiftl_0_r|].
  assert (Hp : 2 ^ (32 - Z.of_nat n) = 2 * 2 ^ (32 - Z.of_nat (S n))).
  { rewrite <- (Z.pow_succ_r 2) by lia. f_equal. lia. }
  rewrite Nat.iter_succ, IH by lia. unfold bit.
  assert (Hs : is_uint32 (Z.shiftl y (Z.of_nat (S n)))).
  { unfold is_uint32. rewrite Z.shiftl_mul_pow2 by lia.
    assert (2 ^ 32 = 2 ^ (32 - Z.of_nat (S n)) * 2 ^ Z.of_nat (S n)) as ->
      by (rewrite <- Z.pow_add_r by lia; f_equal; lia).
    pose proof (Z.pow_pos_nonneg 2 (Z.of_nat (S n))). nia. }
  assert (Ht : Z.testbit (Z.shiftl y (Z.of_nat n)) 31 = false).
  { rewrite Z.shiftl_spec by done. rewrite <- (Z.mod_small y (2 ^ (32 - Z.of_nat (S n)))) by lia.
    apply Z.mod_pow2_bits_high. lia. }
  rewrite Ht, Z.lxor_0_r, Z.shiftl_shiftl by lia.
  replace (Z.of_nat n + 1) with (Z.of_nat (S n)) by lia. by apply toUint32_id.
Qed.

Lemma ogg_table_correct b : is_byte b -> at0 OGG_CRC_TABLE b = Nat.iter 8 bit (Z.shiftl b 24).
Proof.
  intros Hb. apply Z.eqb_eq. revert b Hb.
  apply (byte_forall (fun b => at0 OGG_CRC_TABLE b =? Nat.iter 8 bit (Z.shiftl b 24))).
  by vm_compute.
Qed.

Lemma shr_shl_0 a n : shr (shl a n) 0 = toUint32 (Z.shiftl (toInt32 a) n).
Proof. unfold shr, shl. by rewrite Z.shiftr_0_r, toUint32_toInt32. Qed.

Lemma shl8_bits crc : is_uint32 crc -> toUint32 (Z.shiftl (toInt32 crc) 8) = Z.shiftl (crc mod 2 ^ 24) 8.
Proof.
  intros Hc. apply Z.bits_inj'. intros i Hi.
  rewrite toUint32_testbit, !Z.shiftl_spec by done.
  destruct (Z.ltb_spec i 32); simpl.
  - destruct (Z.ltb_spec i 8); [by rewrite !Z.testbit_neg_r by lia|].
    by rewrite toInt32_testbit_low, Z.mod_pow2_bits_low by lia.
  - by rewrite Z.mod_pow2_bits_high by lia.
Qed.

Lemma ogg_index_correct crc b :
  is_uint32 crc -> is_byte b ->
  and32 (xor32 (shr crc 24) b) 0xff = Z.lxor (Z.shiftr crc 24) b.
Proof.
  intros Hc Hb. change 0xff with (Z.ones 8). rewrite and32_mask by done.
  assert (Ht : is_byte (Z.shiftr crc 24)).
  { unfold is_byte, is_uint32 in *. rewrite Z.shiftr_div_pow2 by done.
    split; [apply Z.div_pos; lia|apply Z.div_lt_upper_bound; lia]. }
  unfold shr, xor32. rewrite toUint32_id by done. unfold is_byte in *.
  rewrite !toInt32_small by lia. apply Z.bits_inj'. intros i Hi.
  destruct (Z.ltb_spec i 8); [by rewrite Z.mod_pow2_bits_low by lia|].
  rewrite Z.mod_pow2_bits_high, Z.lxor_spec by lia.
  rewrite <- (Z.mod_small (Z.shiftr crc 24) (2 ^ 8)), <- (Z.mod_small b (2 ^ 8)) by lia.
  by rewrite !Z.mod_pow2_bits_high by lia.
Qed.

Lemma crc_step_serial crc b : is_uint32 crc -> is_byte b -> crc_step crc b = serial_byte crc b.
Proof.
  intros Hc Hb. unfold crc_step. cbv zeta.
  rewrite toUint32_xor32, shr_shl_0, ogg_index_correct, shl8_bits by done.
  assert (Hx : is_byte (Z.lxor (Z.shiftr crc 24) b)).
  { rewrite <- ogg_index_correct by done. change 0xff with (Z.ones 8). rewrite and32_mask by done.
    apply Z.mod_pos_bound. lia. }
  rewrite ogg_table_correct by done.
  assert (Hl : 0 <= crc mod 2 ^ 24 < 2 ^ 24) by (apply Z.mod_pos_bound; lia).
  assert (Hs : is_uint32 (Z.shiftl (crc mod 2 ^ 24) 8)).
  { unfold is_uint32. rewrite Z.shiftl_mul_pow2 by done. lia. }
  rewrite (toUint32_id (Nat.iter _ _ _)), toUint32_id; [|done|].
  - unfold serial_byte. cbn [sc_bit sc_feed ogg_crc].
    rewrite (lxor_split crc 24) at 3 by done.
    rewrite (Z.lxor_comm (Z.shiftl _ 24)), Z.lxor_assoc, <- Z.shiftl_lxor.
    rewrite (sc_iter_linear (H := ogg_crc) 8). cbn [sc_bit ogg_crc].
    by rewrite (ogg_iter_bit_shift 8 (crc mod 2 ^ 24)) by (lia || done).
  - apply (sc_iter_range (H := ogg_crc)), (sc_feed_range (SerialCrc := ogg_crc)). done.
Qed.

Lemma crc_fold_serial crc bytes :
  is_uint32 crc -> Forall is_byte bytes -> foldl crc_step crc bytes = serial_crc crc bytes.
Proof.
  intros Hc Hb. revert crc Hc. induction Hb as [|b l Hb Hl IH]; intros crc Hc; [done|].
  cbn [foldl serial_crc]. rewrite crc_step_serial by done. apply IH. by apply serial_byte_range.
Qed.
End OggCrc.
