(* ===== verification/Codec.v ===== *)
(** Files as sequences of records.

    The media formats are all a sequence of self-delimiting records (PNG chunks, audio
    frames, Ogg pages).  [Codec] is what a component states about its records: an
    encoder, a decoder for the record at the head of the remaining bytes, and that the
    two are inverse.  From it follow, once for all formats, that a byte string splits
    into records in at most one way and how a loop that peels off one record at a
    time relates to the sequence of records of the whole file. *)
From stdpp Require Import prelude list.
From Stdlib Require Import ZArith Lia.
From S2P Require Import Prelude Buffers FileHandle.
#[local] Open Scope Z_scope.

Lemma concat_bytes (fs : list (list Z)) : Forall is_byte (concat fs) -> Forall (Forall is_byte) fs.
Proof. induction fs as [|f fs IH]; [done|]. cbn. intros [? ?]%Forall_app. constructor; auto. Qed.

Class Codec (C : Type) := {
  encode : C -> list Z;
  decode : list Z -> option (C * list Z);
  wf_record : C -> Prop;
  decode_sound : forall l c r,
    Forall is_byte l -> decode l = Some (c, r) -> l = encode c ++ r /\ wf_record c;
  decode_complete : forall c r, wf_record c -> decode (encode c ++ r) = Some (c, r);
  encode_nonempty : forall c, wf_record c -> encode c <> []
}.
Arguments encode {C} {_} c : simpl never.
Arguments decode {C} {_} l : simpl never.

(** [l] is exactly the encoding of the well-formed records [cs]. *)
Definition records `{Codec C} (l : list Z) (cs : list C) : Prop :=
  l = concat (encode <$> cs) /\ Forall wf_record cs.

Section records.
Context `{Codec C}.
Implicit Types (l r : list Z) (c : C) (cs : list C).

Lemma records_nil cs : records [] cs <-> cs = [].
Proof.
  split; [|by intros ->]. intros [Hl Hwf]. destruct cs as [|c cs]; [done|].
  symmetry in Hl. cbn in Hl. apply app_eq_nil in Hl as [Hc _].
  apply Forall_cons_1 in Hwf as [Hwf _]. by apply encode_nonempty in Hwf.
Qed.

Lemma records_cons l r c cs :
  Forall is_byte l -> decode l = Some (c, r) ->
  records l cs <-> exists cs', cs = c :: cs' /\ records r cs'.
Proof.
  intros Hb Hd. destruct (decode_sound l c r Hb Hd) as [-> Hc]. split.
  - intros [Hl Hwf]. destruct cs as [|d cs].
    + cbn in Hl. apply app_eq_nil in Hl as [He _]. by apply encode_nonempty in He.
    + apply Forall_cons_1 in Hwf as [Hd' Hwf]. cbn in Hl. rewrite Hl in Hd.
      rewrite decode_complete in Hd by done. injection Hd as -> Hr.
      exists cs. split; [done|]. split; [by rewrite <- Hr|done].
  - intros (cs' & -> & [-> Hwf]). split; [done|]. by constructor.
Qed.

Lemma records_undecodable l cs :
  decode l = None -> l <> [] -> records l cs -> False.
Proof.
  intros Hd Hl [-> Hwf]. destruct cs as [|c cs]; [done|].
  apply Forall_cons_1 in Hwf as [Hwf _]. cbn in Hd. by rewrite decode_complete in Hd.
Qed.

(** A file splits into records in at most one way. *)
Lemma records_unique l cs cs' : Forall is_byte l -> records l cs -> records l cs' -> cs = cs'.
Proof.
  revert l cs'. induction cs as [|c cs IH]; intros l cs' Hb Hl Hl'.
  - destruct Hl as [-> _]. by apply records_nil in Hl'.
  - pose proof Hl as [Heq Hwf]. apply Forall_cons_1 in Hwf as [Hwf _]. cbn in Heq.
    assert (Hd : decode l = Some (c, concat (encode <$> cs)))
      by (rewrite Heq; by apply decode_complete).
    apply (records_cons _ _ _ _ Hb Hd) in Hl as (cs1 & [= <-] & Hr).
    apply (records_cons _ _ _ _ Hb Hd) in Hl' as (cs2 & -> & Hr').
    f_equal. eapply IH; [|done|done]. rewrite Heq in Hb. by apply Forall_app in Hb as [_ Hb].
Qed.

Lemma decode_shorter l c r :
  Forall is_byte l -> decode l = Some (c, r) -> (length r < length l)%nat /\ Forall is_byte r.
Proof.
  intros Hb Hd. destruct (decode_sound l c r Hb Hd) as [-> Hc].
  apply Forall_app in Hb as [_ Hr]. split; [|done].
  apply encode_nonempty in Hc. rewrite length_app.
  destruct (encode c); [done|]. cbn. lia.
Qed.
End records.

(** ** Frames: records whose length the head of the remaining bytes announces *)
Class FrameFormat := {
  frame_len : list Z -> option Z;
  frame_len_bounds : forall l n, frame_len l = Some n -> 0 < n <= len l;
  frame_len_take : forall l n, frame_len l = Some n -> frame_len (take (Z.to_nat n) l) = Some n;
  frame_len_app : forall l r n, frame_len l = Some n -> frame_len (l ++ r) = Some n
}.

(** One frame, and nothing after it. *)
Definition is_frame `{FrameFormat} (f : list Z) : Prop := frame_len f = Some (len f).

#[export] Program Instance frame_codec `{FrameFormat} : Codec (list Z) := {|
  encode := fun f => f;
  decode := fun l => n ← frame_len l; Some (take (Z.to_nat n) l, drop (Z.to_nat n) l);
  wf_record := is_frame
|}.
Next Obligation.
  intros HF l c r _ Hd. apply bind_Some in Hd as (n & Hn & [= <- <-]).
  pose proof (frame_len_bounds l n Hn) as Hb. split; [by rewrite take_drop|].
  unfold is_frame. rewrite (frame_len_take l n Hn). f_equal. unfold len in *.
  rewrite length_take. lia.
Qed.
Next Obligation.
  intros HF c r Hc. unfold is_frame in Hc. cbv beta. rewrite (frame_len_app _ _ _ Hc). cbn.
  unfold len. rewrite Nat2Z.id, take_app_length, drop_app_length. done.
Qed.
Next Obligation.
  intros HF c Hc ->. unfold is_frame in Hc. apply frame_len_bounds in Hc.
  change (len []) with 0 in Hc. lia.
Qed.

(** A sequence of frames, in terms of the format's own description [P] of a frame. *)
Lemma frame_records `{FrameFormat} (P : list Z -> Prop) l fs :
  (forall f, is_frame f <-> P f) -> records l fs <-> l = concat fs /\ Forall P fs.
Proof.
  intros HP. unfold records. change (encode <$> fs) with (id <$> fs). rewrite list_fmap_id.
  split; intros [Hl Hf]; (split; [done|]); apply (Forall_impl _ _ _ Hf); intros f Hff; by apply HP.
Qed.

(** The frame-scanning loops of the audio checks: [while (offset < end && frames < MAX)],
    then [offset === end && frames > 0 && frames < MAX]. *)
Section frame_loop.
Context `{FrameFormat} (h : FileHandle) (stop max : Z).
Context (body : Z * Z -> parser (flow (Z * Z) bool)).
Hypothesis Hstop : 0 <= stop <= size h.
Hypothesis body_spec : forall offset frames,
  0 <= offset < stop ->
  body (offset, frames) = Ok (match frame_len (subarray (contents h) offset stop) with
                             | Some n => Continue (offset + n, frames + 1)
                             | None => Return false
                             end).

Definition frame_cond (s : Z * Z) : bool := (s.1 <? stop) && (s.2 <? max).
Definition frame_verdict (s : Z * Z) : bool := (s.1 =? stop) && (0 <? s.2) && (s.2 <? max).

(** What is left to accept after [frames] frames, at [offset]. *)
Definition tail_ok (s : Z * Z) : Prop :=
  exists fs, records (subarray (contents h) s.1 stop) fs /\
    0 < s.2 + Z.of_nat (length fs) < max.

Lemma frame_body_step s :
  0 <= s.1 < stop ->
  match frame_len (subarray (contents h) s.1 stop) with
  | Some n => 0 < n <= stop - s.1 /\ (tail_ok s <-> tail_ok (s.1 + n, s.2 + 1))
  | None => ~ tail_ok s
  end.
Proof.
  destruct s as [offset frames]. unfold tail_ok. cbn [fst snd]. intros Ho.
  set (l := subarray (contents h) offset stop).
  assert (Hb : Forall is_byte l) by apply Forall_subarray, contents_bytes.
  assert (Hl : len l = stop - offset) by (apply len_subarray; unfold size in *; lia).
  destruct (frame_len l) as [n|] eqn:Hn.
  - pose proof (frame_len_bounds l n Hn) as Hbd. split; [lia|].
    assert (Hd : decode (C := list Z) l = Some (take (Z.to_nat n) l, drop (Z.to_nat n) l))
      by (unfold decode; cbn; by rewrite Hn).
    replace (subarray (contents h) (offset + n) stop) with (drop (Z.to_nat n) l)
      by (unfold l; apply drop_subarray; lia).
    split.
    + intros (fs & Hr & Hc). apply (records_cons _ _ _ _ Hb Hd) in Hr as (fs' & -> & Hr).
      exists fs'. cbn in Hc. split; [done|lia].
    + intros (fs & Hr & Hc). exists (take (Z.to_nat n) l :: fs). split; [|cbn; lia].
      apply (records_cons _ _ _ _ Hb Hd). eauto.
  - intros (fs & Hr & _). eapply records_undecodable in Hr; [done| |].
    + unfold decode; cbn. by rewrite Hn.
    + intros E. rewrite E in Hl. change (len []) with 0 in Hl. lia.
Qed.

(** The loop accepts exactly the byte ranges made of 1 to [max - 1] whole frames. *)
Lemma frame_loop_spec start fuel :
  0 <= start <= stop -> (Z.to_nat (stop - start) < fuel)%nat ->
  exists b, (out ← while fuel frame_cond body (start, 0);
             afterwards out (fun s => Ok (frame_verdict s))) = Ok b /\
    (b = true <-> tail_ok (start, 0)).
Proof.
  intros Hs Hf.
  destruct (while_total frame_cond body
    (fun s => 0 <= s.1 <= stop /\ 0 <= s.2 /\ (tail_ok (start, 0) <-> tail_ok s))
    (fun s => Z.to_nat (stop - s.1))
    (fun b => b = true <-> tail_ok (start, 0))) with (fuel := fuel) (s := (start, 0))
    as (out & -> & Hout); [|cbn; split; [lia|done]|done|].
  - intros [offset frames] (Ho & Hp & Hiff) Hc. cbn [fst snd] in *.
    unfold frame_cond in Hc. apply andb_true_iff in Hc as [Hlt%Z.ltb_lt _]. cbn in Hlt.
    rewrite body_spec by lia. pose proof (frame_body_step (offset, frames)) as Hstep.
    cbn [fst snd] in Hstep. eexists. split; [done|].
    destruct (frame_len _) as [n|]; cbn [fst snd].
    + destruct Hstep as [Hn Hst]; [lia|]. rewrite <- Hst. split; [split; [lia|split;[lia|done]]|lia].
    + rewrite Hiff. split; [done|]. intros Ht. by apply Hstep in Ht; [|lia].
  - cbn. destruct out as [s|b]; cbn; [|eauto]. eexists. split; [done|].
    destruct Hout as ((Ho & Hp & Hiff) & Hc). rewrite Hiff.
    unfold frame_verdict, frame_cond in *. rewrite !andb_true_iff, Z.eqb_eq, !Z.ltb_lt.
    destruct s as [offset frames]. cbn [fst snd] in *. unfold tail_ok. cbn [fst snd].
    apply andb_false_iff in Hc. rewrite !Z.ltb_ge in Hc. split.
    + intros [[-> Hpos] Hmax]. exists []. rewrite subarray_nil. split; [by apply records_nil|].
      cbn. lia.
    + intros (fs & Hr & Hcount). destruct Hc as [Hc|Hc]; [|lia].
      assert (offset = stop) as -> by lia. rewrite subarray_nil in Hr.
      apply records_nil in Hr as ->. cbn in Hcount. lia.
Qed.
End frame_loop.

(** ** Loops that carry a state from piece to piece
    [head] finds the length of the piece at the head of what is left, which may depend on all
    that is left; [splits] is the sequence of pieces it cuts. *)
Section pieces.
Context (head : list Z -> option Z).
Inductive splits : list Z -> list (list Z) -> Prop :=
| splits_nil : splits [] []
| splits_cons l n fs :
    head l = Some n -> splits (drop (Z.to_nat n) l) fs -> splits l (take (Z.to_nat n) l :: fs).

Hypothesis head_bounds : forall l n, head l = Some n -> 0 < n <= len l.

Lemma splits_concat l fs : splits l fs -> l = concat fs.
Proof. induction 1 as [|l n fs Hn Hs IH]; [done|]. cbn. by rewrite <- IH, take_drop. Qed.

Lemma splits_head l fs : splits l fs -> l <> [] ->
  exists n fs', head l = Some n /\ fs = take (Z.to_nat n) l :: fs' /\ splits (drop (Z.to_nat n) l) fs'.
Proof. destruct 1; [done|eauto]. Qed.

Lemma splits_empty fs : splits [] fs -> fs = [].
Proof.
  intros H. remember [] as l eqn:El. destruct H as [|l n fs Hn]; [done|]. subst l.
  apply head_bounds in Hn. change (len []) with 0 in Hn. lia.
Qed.
End pieces.

(** For a frame format these are its records. *)
Lemma splits_records `{FrameFormat} l fs : Forall is_byte l -> splits frame_len l fs <-> records l fs.
Proof.
  intros Hb. split.
  - induction 1 as [|l n fs Hn Hs IH]; [by apply records_nil|].
    assert (Hd : decode (C := list Z) l = Some (take (Z.to_nat n) l, drop (Z.to_nat n) l)) by (unfold decode; cbn; by rewrite Hn).
    apply (records_cons _ _ _ _ Hb Hd). eexists. split; [done|]. apply IH. by apply Forall_drop.
  - revert l Hb. induction fs as [|f fs IH]; intros l Hb Hr.
    + destruct Hr as [-> _]. constructor.
    + pose proof Hr as [Hl Hwf]. apply Forall_cons_1 in Hwf as [Hf _]. cbn in Hl.
      assert (Hn : frame_len l = Some (len f)) by (rewrite Hl; by apply frame_len_app).
      assert (Hd : decode (C := list Z) l = Some (take (Z.to_nat (len f)) l, drop (Z.to_nat (len f)) l))
        by (unfold decode; cbn; by rewrite Hn).
      apply (records_cons _ _ _ _ Hb Hd) in Hr as (fs' & [= Hf' <-] & Hr). rewrite Hf' at 1.
      constructor; [done|]. apply IH; [by apply Forall_drop|done].
Qed.

Section stateful_loop.
Context {St : Type} (h : FileHandle) (stop max : Z) (head : list Z -> option Z).
Context (step : St -> list Z -> option St) (final : Z -> St -> bool) (I : St -> Prop).
Context (body : Z * Z * St -> parser (flow (Z * Z * St) bool)).

Fixpoint steps (s : St) (fs : list (list Z)) : option St :=
  match fs with
  | [] => Some s
  | f :: fs => s ← step s f; steps s fs
  end.

Hypothesis head_bounds : forall l n, head l = Some n -> 0 < n <= len l.
Hypothesis Hstop : 0 <= stop <= size h.
Hypothesis step_keeps : forall s l n s', I s -> Forall is_byte l -> head l = Some n ->
  step s (take (Z.to_nat n) l) = Some s' -> I s'.
Hypothesis body_spec : forall offset frames s,
  0 <= offset < stop -> I s ->
  body (offset, frames, s) = Ok
    (match head (subarray (contents h) offset stop) with
     | Some n => match step s (subarray (contents h) offset (offset + n)) with
                 | Some s' => Continue (offset + n, frames + 1, s')
                 | None => Return false
                 end
     | None => Return false
     end).

(** What is left to accept. *)
Definition tail_steps (x : Z * Z * St) : Prop :=
  exists fs s', splits head (subarray (contents h) x.1.1 stop) fs /\ x.1.2 + Z.of_nat (length fs) <= max /\
    steps x.2 fs = Some s' /\ final (x.1.2 + Z.of_nat (length fs)) s' = true.

Lemma stateful_step offset frames s : 0 <= offset < stop ->
  match head (subarray (contents h) offset stop) with
  | Some n => 0 < n <= stop - offset /\
      (tail_steps (offset, frames, s) <->
        exists s', step s (subarray (contents h) offset (offset + n)) = Some s' /\ tail_steps (offset + n, frames + 1, s'))
  | None => ~ tail_steps (offset, frames, s)
  end.
Proof.
  intros Ho. unfold tail_steps. cbn [fst snd]. set (l := subarray (contents h) offset stop).
  assert (Hl : len l = stop - offset) by (apply len_subarray; unfold size in *; lia).
  assert (Hne : l <> []) by (intros E; rewrite E in Hl; change (len []) with 0 in Hl; lia).
  destruct (head l) as [n|] eqn:Hn.
  - pose proof (head_bounds l n Hn) as Hbd. split; [lia|].
    assert (Htake : take (Z.to_nat n) l = subarray (contents h) offset (offset + n)) by (unfold l; apply take_subarray; lia).
    assert (Hdrop : drop (Z.to_nat n) l = subarray (contents h) (offset + n) stop) by (unfold l; apply drop_subarray; lia).
    rewrite <- Htake, <- Hdrop. split.
    + intros (fs & s' & Hr & Hm & Hst & Hf). apply splits_head in Hr as (n' & fs' & Hn' & -> & Hr); [|done].
      rewrite Hn in Hn'. injection Hn' as <-. cbn [steps length] in *. apply bind_Some in Hst as (s1 & H1 & Hst).
      exists s1. split; [done|]. exists fs', s'.
      replace (frames + 1 + Z.of_nat (length fs')) with (frames + Z.of_nat (S (length fs'))) by lia. done.
    + intros (s1 & H1 & fs & s' & Hr & Hm & Hst & Hf). exists (take (Z.to_nat n) l :: fs), s'.
      cbn [steps length]. rewrite H1. replace (frames + Z.of_nat (S (length fs))) with (frames + 1 + Z.of_nat (length fs)) by lia.
      split; [by constructor|done].
  - intros (fs & s' & Hr & _). apply splits_head in Hr as (n & fs' & Hn' & _); [|done]. congruence.
Qed.

(** The loop accepts exactly the byte ranges made of at most [max] pieces along which the state
    runs to a final one. *)
Lemma stateful_loop_spec start s0 fuel :
  0 <= start <= stop -> I s0 -> 0 <= max -> (Z.to_nat (stop - start) < fuel)%nat ->
  exists b, (out ← while fuel (fun x => (x.1.1 <? stop) && (x.1.2 <? max)) body (start, 0, s0);
             afterwards out (fun x => Ok ((x.1.1 =? stop) && final x.1.2 x.2))) = Ok b /\
    (b = true <-> tail_steps (start, 0, s0)).
Proof.
  intros Hs HI Hmax Hf.
  destruct (while_total (fun x => (x.1.1 <? stop) && (x.1.2 <? max)) body
    (fun x => 0 <= x.1.1 <= stop /\ 0 <= x.1.2 <= max /\ I x.2 /\ (tail_steps (start, 0, s0) <-> tail_steps x))
    (fun x => Z.to_nat (stop - x.1.1))
    (fun b => b = true <-> tail_steps (start, 0, s0))) with (fuel := fuel) (s := (start, 0, s0))
    as (out & -> & Hout); [|cbn; split; [lia|split; [lia|done]]|done|].
  - intros [[offset frames] s] (Ho & Hp & HIs & Hiff) Hc. cbn [fst snd] in *.
    apply andb_true_iff in Hc as [Hlt%Z.ltb_lt Hm%Z.ltb_lt].
    rewrite body_spec by (done || lia). pose proof (stateful_step offset frames s) as Hstep.
    eexists. split; [done|].
    destruct (head (subarray (contents h) offset stop)) as [n|] eqn:Hn; cbn [fst snd].
    2: { rewrite Hiff. split; [done|]. intros Ht. by apply Hstep in Ht; [|lia]. }
    destruct Hstep as (Hbd & Hst); [lia|].
    destruct (step s _) as [s'|] eqn:Es; cbn [fst snd].
    + split; [|lia]. split; [lia|]. split; [lia|]. split.
      { rewrite <- (take_subarray _ _ stop) in Es by lia.
        apply (step_keeps _ _ _ _ HIs (Forall_subarray _ _ _ _ (contents_bytes h)) Hn Es). }
      rewrite Hiff, Hst. split; [by intros (s1 & [= <-] & ?)|eauto].
    + rewrite Hiff. split; [done|]. intros Ht. by apply Hst in Ht as (s1 & ? & _).
  - cbn. destruct out as [x|b]; cbn; [|eauto]. eexists. split; [done|].
    destruct Hout as ((Ho & Hp & _ & Hiff) & Hc). rewrite Hiff.
    destruct x as [[offset frames] s]. cbn [fst snd] in *. unfold tail_steps. cbn [fst snd].
    apply andb_false_iff in Hc. rewrite !Z.ltb_ge in Hc. rewrite andb_true_iff, Z.eqb_eq. split.
    + intros [-> Hfin]. exists [], s. rewrite subarray_nil. cbn [length steps]. rewrite Z.add_0_r.
      split; [constructor|]. split; [lia|done].
    + intros (fs & s' & Hr & Hcount & Hst & Hfin).
      destruct (Z.eq_dec offset stop) as [->|Hne].
      * rewrite subarray_nil in Hr. apply splits_empty in Hr as ->; [|done]. injection Hst as <-.
        cbn [length] in Hfin. rewrite Z.add_0_r in Hfin. done.
      * exfalso. apply splits_head in Hr as (n & fs' & _ & -> & _); [cbn in Hcount; lia|].
        intros E. pose proof (len_subarray (contents h) offset stop ltac:(lia) ltac:(unfold size in *; lia)) as Hlen.
        rewrite E in Hlen. change (len []) with 0 in Hlen. lia.
Qed.
End stateful_loop.
