(* ===== verification/Float64.v ===== *)
(** IEEE 754 binary64 arithmetic, JavaScript's [number], on top of the Standard Library's
    executable [SpecFloat].  Only what the source uses: conversion of integers, the four
    operations and [Math.floor]. *)
From stdpp Require Import prelude.
From Stdlib Require Import ZArith Lia SpecFloat.
#[local] Open Scope Z_scope.

Abbreviation f64 := spec_float.
Definition f64_of_Z (z : Z) : f64 := binary_normalize 53 1024 z 0 false.
Definition f64_add : f64 -> f64 -> f64 := SFadd 53 1024.
Definition f64_mul : f64 -> f64 -> f64 := SFmul 53 1024.
Definition f64_div : f64 -> f64 -> f64 := SFdiv 53 1024.

(** [Math.floor], as an integer; [None] for [NaN] and the infinities. *)
Definition f64_floor (x : f64) : option Z :=
  match x with
  | S754_zero _ => Some 0
  | S754_finite s m e =>
      let v := if s then Zneg m else Zpos m in
      Some (if 0 <=? e then v * 2 ^ e else v / 2 ^ (- e))
  | S754_infinity _ | S754_nan => None
  end.

(** [Math.floor] of a finite number. *)
Definition floor64 (x : f64) : Z := default 0 (f64_floor x).
(** [Number.isFinite(x) && x > 0] *)
Definition finite_positive (x : f64) : bool :=
  match x with S754_finite false _ _ => true | _ => false end.

(** ** Order and value *)
Definition f64_valid (x : f64) : bool := valid_binary 53 1024 x.

Lemma digits2_pos_bound m : Zpos m < 2 ^ Zpos (digits2_pos m).
Proof.
  induction m as [m IH|m IH|]; cbn [digits2_pos]; [..|done].
  - rewrite Pos2Z.inj_succ, Z.pow_succ_r by lia. lia.
  - rewrite Pos2Z.inj_succ, Z.pow_succ_r by lia. lia.
Qed.

(** The mantissa of a valid number has at most 53 bits. *)
Lemma f64_valid_mantissa s m e : f64_valid (S754_finite s m e) = true -> Zpos m < 2 ^ 53.
Proof.
  unfold f64_valid, valid_binary, bounded, canonical_mantissa. intros [Hc _]%andb_true_iff.
  apply Z.eqb_eq in Hc. unfold fexp in Hc. pose proof (digits2_pos_bound m).
  assert (Zpos (digits2_pos m) <= 53) by lia.
  eapply Z.lt_le_trans; [done|]. apply Z.pow_le_mono_r; lia.
Qed.

(** A valid number between 0 and [n] in the order of binary64 has its floor between 0 and
    [n]. *)
Lemma f64_floor_range x s m e n :
  f64_valid x = true -> SFleb (f64_of_Z 0) x = true -> SFleb x (S754_finite false m e) = true ->
  s = false -> e <= 0 -> n = Zpos m / 2 ^ (- e) -> 2 ^ 52 <= Zpos m ->
  exists z, f64_floor x = Some z /\ 0 <= z <= n.
Proof.
  intros Hv H0 Hn -> He -> Hm. assert (Hnn : 0 <= Zpos m / 2 ^ (- e)) by (apply Z.div_pos; lia).
  destruct x as [b|[]| |[] m' e']; try done; [by exists 0|]. eexists. split; [done|].
  apply f64_valid_mantissa in Hv. unfold SFleb, SFcompare in Hn.
  assert (Hle : e' < e \/ e' = e /\ Zpos m' <= Zpos m).
  { destruct (Z.compare_spec e' e) as [->|?|?]; [|by left|done]. right. split; [done|].
    change (PosDef.Pos.compare_cont Eq m' m) with (Pos.compare m' m) in Hn.
    destruct (Pos.compare_spec m' m); [lia|lia|done]. }
  destruct (Z.leb_spec 0 e') as [He'|He'].
  - destruct Hle as [?|[-> Hle]]; [lia|]. assert (e = 0) as -> by lia.
    rewrite Z.mul_1_r, Z.div_1_r. lia.
  - split; [apply Z.div_pos; lia|]. destruct Hle as [Hlt|[-> Hle]]; [|apply Z.div_le_mono; lia].
    assert (Hp : 2 ^ (- e') = 2 ^ (e - e') * 2 ^ (- e)) by (rewrite <- Z.pow_add_r by lia; f_equal; lia).
    rewrite Hp, <- Z.div_div by lia. apply Z.div_le_mono; [lia|].
    assert (Zpos m' / 2 ^ (e - e') <= Zpos m' / 2 ^ 1).
    { apply Z.div_le_compat_l; [lia|]. split; [lia|]. apply Z.pow_le_mono_r; lia. }
    assert (Zpos m' / 2 ^ 1 < 2 ^ 52) by (apply Z.div_lt_upper_bound; lia). lia.
Qed.
