(* ===== verification/Opus.v ===== *)
(** The Ogg Opus upload profile ([media/media-ogg-opus-profile.ts]): the framing of Opus packets
    (RFC 6716, section 3), the comment header, and [OggOpusProfile], which takes the pages of a
    file one at a time.  [opus_packet] is the declarative description of a packet. *)
From stdpp Require Import prelude list strings.
From Stdlib Require Import ZArith Lia.
From S2P Require Import Prelude Buffers.
#[local] Open Scope Z_scope.

Definition OPUS_HEAD : list Z := ascii_bytes "OpusHead".
Definition OPUS_TAGS : list Z := ascii_bytes "OpusTags".
Definition MAX_TAG_BYTES : Z := 64 * 1024.
Definition MAX_AUDIO_PACKET_BYTES : Z := 61440.
Definition MAX_AUDIO_PACKETS : Z := 100000.
Definition MAX_FRAME_BYTES : Z := 1275.

(** ** [matchesOpusPacketFraming] *)
Definition samplesPerFrame (toc : Z) : Z :=
  let config := Z.shiftr toc 3 in
  if 16 <=? config then 120 * 2 ^ Z.land config 3
  else if 12 <=? config then 480 * 2 ^ Z.land config 1
  else if Z.land config 3 =? 3 then 2880 else 480 * 2 ^ Z.land config 3.

(** The [do]-[while] over the padding bytes; the state is [(offset, end, paddingByte)].  It is
    entered with 255 in the last place, so that its first turn is taken. *)
Definition padding_body (packet : list Z) (s : Z * Z * Z) : parser (flow (Z * Z * Z) bool) :=
  let '(offset, end_, _) := s in
  if end_ <=? offset then Ok (Return false) else
  let paddingByte := at0 packet offset in
  let offset := offset + 1 in
  let end_ := end_ - (if paddingByte =? 255 then 254 else paddingByte) in
  if end_ <? offset then Ok (Return false) else Ok (Continue (offset, end_, paddingByte)).
Definition padding_loop (packet : list Z) (offset end_ : Z) : parser (flow (Z * Z * Z) bool) :=
  while (S (length packet)) (fun s => s.2 =? 255) (padding_body packet) (offset, end_, 255).

(** The declared lengths of all frames but the last; the state is [(index, offset, declaredBytes)]. *)
Definition lengths_body (packet : list Z) (end_ : Z) (s : Z * Z * Z) : parser (flow (Z * Z * Z) bool) :=
  let '(index, offset, declaredBytes) := s in
  if end_ <=? offset then Ok (Return false) else
  let length := at0 packet offset in
  let offset := offset + 1 in
  if (252 <=? length) && (end_ <=? offset) then Ok (Return false) else
  let '(length, offset) :=
    if 252 <=? length then (length + 4 * at0 packet offset, offset + 1) else (length, offset) in
  let declaredBytes := declaredBytes + length in
  if end_ - offset <? declaredBytes then Ok (Return false)
  else Ok (Continue (index + 1, offset, declaredBytes)).
Definition declared_lengths (packet : list Z) (frames offset end_ : Z) : parser bool :=
  out ← while (S (length packet)) (fun s => s.1.1 <? frames - 1) (lengths_body packet end_) (0, offset, 0);
  afterwards out (fun s =>
    let '(_, offset, declaredBytes) := s in
    let lastFrameBytes := end_ - offset - declaredBytes in
    Ok ((0 <=? lastFrameBytes) && (lastFrameBytes <=? MAX_FRAME_BYTES))).

(** The sizes are below [2 ^ 16]: a quotient of the code's floating-point division is an integer
    exactly when the division leaves no remainder. *)
Definition matchesOpusPacketFraming (packet : list Z) : parser bool :=
  if (len packet =? 0) || (MAX_AUDIO_PACKET_BYTES <? len packet) then Ok false else
  let toc := at0 packet 0 in
  let code := Z.land toc 3 in
  if code =? 0 then Ok (len packet - 1 <=? MAX_FRAME_BYTES) else
  if code =? 1 then Ok (((len packet - 1) mod 2 =? 0) && ((len packet - 1) / 2 <=? MAX_FRAME_BYTES)) else
  if code =? 3 then
    if len packet <=? 1 then Ok false else
    let control := at0 packet 1 in
    let frames := Z.land control 0x3f in
    if (frames =? 0) || (5760 <? samplesPerFrame toc * frames) then Ok false else
    out ← (if negb (Z.land control 0x40 =? 0) then padding_loop packet 2 (len packet)
           else Ok (Continue (2, len packet, 0)));
    afterwards out (fun s =>
      let '(offset, end_, _) := s in
      if Z.land control 0x80 =? 0
      then Ok (((end_ - offset) mod frames =? 0) && ((end_ - offset) / frames <=? MAX_FRAME_BYTES))
      else declared_lengths packet frames offset end_)
  else declared_lengths packet 2 1 (len packet).

(** ** What a packet is *)
(** The encoding of a frame's length in one or two bytes. *)
Definition length_code (n : Z) : list Z :=
  if n <? 252 then [n] else [252 + n mod 4; (n - 252) / 4].

(** The padding bytes of a packet that ends in [n] bytes of padding data. *)
Definition padding_code (control : Z) (code : list Z) (n : Z) : Prop :=
  if Z.land control 0x40 =? 0 then code = [] /\ n = 0
  else exists k v, code = replicate k 255 ++ [v] /\ 0 <= v < 255 /\ n = 254 * Z.of_nat k + v.

(** [opus_packet p frames]: the packet [p] carries [frames]. *)
Inductive opus_packet : list Z -> list (list Z) -> Prop :=
| one_frame toc f : Z.land toc 3 = 0 -> opus_packet (toc :: f) [f]
| two_equal toc f1 f2 : Z.land toc 3 = 1 -> len f1 = len f2 -> opus_packet (toc :: f1 ++ f2) [f1; f2]
| two_frames toc f1 f2 :
    Z.land toc 3 = 2 -> opus_packet (toc :: length_code (len f1) ++ f1 ++ f2) [f1; f2]
| equal_frames toc control padding n frames filler :
    Z.land toc 3 = 3 -> Z.land control 0x3f = Z.of_nat (length frames) -> frames <> [] ->
    Z.land control 0x80 = 0 -> padding_code control padding (len filler) ->
    Forall (fun f => len f = n) frames ->
    opus_packet (toc :: control :: padding ++ concat frames ++ filler) frames
| measured_frames toc control padding fs f filler :
    Z.land toc 3 = 3 -> Z.land control 0x3f = Z.of_nat (S (length fs)) ->
    Z.land control 0x80 <> 0 -> padding_code control padding (len filler) ->
    opus_packet
      (toc :: control :: padding ++ concat ((fun f => length_code (len f)) <$> fs) ++ concat fs ++ f ++ filler)
      (fs ++ [f]).

(** A packet the profile admits: its size, frames of at most 1275 bytes and 120 ms in all. *)
Definition admitted_packet (p : list Z) : Prop :=
  0 < len p <= MAX_AUDIO_PACKET_BYTES /\
  exists frames, opus_packet p frames /\ Forall (fun f => len f <= MAX_FRAME_BYTES) frames /\
    samplesPerFrame (at0 p 0) * Z.of_nat (length frames) <= 5760.

(** ** The loops on the rest of the packet *)
Fixpoint parse_padding (l : list Z) : option (Z * list Z) :=
  match l with
  | [] => None
  | b :: l => if b =? 255 then '(n, r) ← parse_padding l; Some (254 + n, r) else Some (b, l)
  end.

Definition parse_length (l : list Z) : option (Z * list Z) :=
  match l with
  | [] => None
  | b :: l => if 252 <=? b then match l with [] => None | c :: l => Some (b + 4 * c, l) end else Some (b, l)
  end.
Fixpoint parse_lengths (n : nat) (l : list Z) : option (list Z * list Z) :=
  match n with
  | O => Some ([], l)
  | S n => '(d, l) ← parse_length l; '(ds, l) ← parse_lengths n l; Some (d :: ds, l)
  end.
Definition sum_list (l : list Z) : Z := foldr Z.add 0 l.

Section rests.
Context (p : list Z) (Hp : Forall is_byte p).

Lemma parse_padding_bounds l n r : Forall is_byte l -> parse_padding l = Some (n, r) -> 0 <= n /\ len r < len l.
Proof.
  intros Hl. revert n r. induction Hl as [|b l Hb Hl IH]; intros n r H; [done|]. cbn in H.
  unfold is_byte in Hb. rewrite len_cons. destruct (b =? 255).
  - apply bind_Some in H as ([n' r'] & H & [= <- <-]). apply IH in H. lia.
  - injection H as <- <-. lia.
Qed.

Lemma padding_body_cons offset end_ pb b l :
  rest_at p offset (b :: l) ->
  padding_body p (offset, end_, pb) =
    Ok (if end_ <=? offset then Return false else
        if end_ - (if b =? 255 then 254 else b) <? offset + 1 then Return false
        else Continue (offset + 1, end_ - (if b =? 255 then 254 else b), b)).
Proof.
  intros (Ha & _)%(rest_cons p Hp). unfold padding_body. rewrite Ha.
  by destruct (end_ <=? offset), (end_ - (if b =? 255 then 254 else b) <? offset + 1).
Qed.

Lemma padding_while l : forall fuel offset end_, Forall is_byte l -> rest_at p offset l -> (length l < fuel)%nat ->
  offset <= end_ <= len p ->
  exists pb, while fuel (fun s : Z * Z * Z => s.2 =? 255) (padding_body p) (offset, end_, 255) =
    Ok match parse_padding l with
       | Some (n, r) => if len p - len r <=? end_ - n then Continue (len p - len r, end_ - n, pb) else Return false
       | None => Return false
       end.
Proof.
  induction l as [|b l IH]; intros [|fuel] offset end_ Hl Hr Hf He; try (cbn in Hf; lia).
  - exists 0. apply rest_nil in Hr. cbn. by rewrite (proj2 (Z.leb_le _ _)) by lia.
  - apply Forall_cons_1 in Hl as [_ Hl]. pose proof (rest_cons p Hp _ _ _ Hr) as (Ha & Hb & Hr').
    pose proof (rest_range _ _ _ Hr') as Hrg. unfold is_byte in Hb.
    destruct Hr' as (? & Hlen & Hdr).
    assert (Hr' : rest_at p (offset + 1) l) by done.
    cbn [while snd]. change (255 =? 255) with true. cbv iota. rewrite (padding_body_cons _ _ _ _ _ Hr).
    destruct (Z.leb_spec end_ offset) as [Hlt|Hlt].
    { exists 0. cbn [mbind exec_bind parse_padding].
      assert (Hend : forall n r, parse_padding (b :: l) = Some (n, r) -> (len p - len r <=? end_ - n) = false).
      { intros n r H1. apply Z.leb_gt. apply parse_padding_bounds in H1; [|by constructor].
        rewrite len_cons in H1. lia. }
      cbn [parse_padding] in Hend. destruct (b =? 255).
      - destruct (parse_padding l) as [[n r]|]; cbn [mbind option_bind]; [|done].
        by rewrite (Hend (254 + n) r).
      - by rewrite (Hend b l). }
    cbn [parse_padding]. destruct (Z.eqb_spec b 255) as [->|Hne].
    + destruct (Z.ltb_spec (end_ - 254) (offset + 1)) as [Hlt'|Hlt'].
      * exists 0. cbn [mbind exec_bind].
        destruct (parse_padding l) as [[n r]|] eqn:Hpp; cbn [mbind option_bind]; [|done].
        apply parse_padding_bounds in Hpp; [|done].
        rewrite (proj2 (Z.leb_gt _ _)); [done|]. lia.
      * cbn [mbind exec_bind]. destruct (IH fuel (offset + 1) (end_ - 254)) as [pb Hpb]; [done|done|cbn in Hf; lia|lia|].
        exists pb. rewrite Hpb. destruct (parse_padding l) as [[n r]|]; cbn [mbind option_bind]; [|done].
        by replace (end_ - 254 - n) with (end_ - (254 + n)) by lia.
    + exists b. replace (len p - len l) with (offset + 1) by lia.
      destruct (Z.ltb_spec (end_ - b) (offset + 1)) as [Hlt'|Hlt'].
      * rewrite (proj2 (Z.leb_gt _ _)) by lia. done.
      * rewrite (proj2 (Z.leb_le _ _)) by lia. cbn [mbind exec_bind].
        destruct fuel; cbn [while snd]; by rewrite (proj2 (Z.eqb_neq _ _)).
Qed.

Lemma parse_length_bounds l d r :
  Forall is_byte l -> parse_length l = Some (d, r) -> 0 <= d <= MAX_FRAME_BYTES /\ len r < len l /\ Forall is_byte r.
Proof.
  unfold parse_length, MAX_FRAME_BYTES, is_byte. intros Hl H. destruct Hl as [|b l Hb Hl]; [done|].
  rewrite len_cons. destruct (252 <=? b).
  - destruct Hl as [|c l Hc Hl]; [done|]. injection H as <- <-. rewrite len_cons. split; [lia|]. split; [lia|done].
  - injection H as <- <-. split; [lia|]. split; [lia|done].
Qed.

Lemma parse_lengths_bounds k : forall l ds r,
  Forall is_byte l -> parse_lengths k l = Some (ds, r) -> 0 <= sum_list ds /\ len r <= len l.
Proof.
  induction k as [|k IH]; intros l ds r Hl H.
  - injection H as <- <-. cbn. lia.
  - cbn in H. apply bind_Some in H as ([d l'] & H1 & H). apply bind_Some in H as ([ds' r'] & H2 & [= <- <-]).
    apply parse_length_bounds in H1 as (? & ? & Hl'); [|done]. apply IH in H2; [|done].
    change (sum_list (d :: ds')) with (d + sum_list ds'). lia.
Qed.

(** One turn reads the length at the head of what is left. *)
Lemma lengths_body_spec end_ index offset declared l :
  Forall is_byte l -> rest_at p offset l -> end_ <= len p -> 0 <= declared ->
  lengths_body p end_ (index, offset, declared) =
    Ok match parse_length l with
       | Some (d, r) =>
           if end_ - (len p - len r) <? declared + d then Return false
           else Continue (index + 1, len p - len r, declared + d)
       | None => Return false
       end.
Proof.
  intros Hl Hr He Hd. unfold lengths_body.
  destruct l as [|b l].
  { apply rest_nil in Hr. by rewrite (proj2 (Z.leb_le _ _)) by lia. }
  pose proof (rest_cons p Hp _ _ _ Hr) as (-> & Hb & Hr1). pose proof Hr1 as (_ & Hl1 & _).
  apply Forall_cons_1 in Hl as [_ Hl]. unfold is_byte in Hb.
  destruct (Z.leb_spec end_ offset) as [Hlt|Hlt].
  { destruct (parse_length (b :: l)) as [[d r]|] eqn:Hpl; [|done].
    apply parse_length_bounds in Hpl as (? & Hlr & _); [|by constructor]. rewrite len_cons in Hlr.
    rewrite (proj2 (Z.ltb_lt _ _)); [done|lia]. }
  cbn [parse_length].
  destruct (252 <=? b); cbn [andb].
  - destruct l as [|c l].
    + apply rest_nil in Hr1. by rewrite (proj2 (Z.leb_le _ _)) by lia.
    + pose proof (rest_cons p Hp _ _ _ Hr1) as (-> & Hc & Hr2). pose proof Hr2 as (_ & Hl2 & _). unfold is_byte in Hc.
      replace (len p - len l) with (offset + 1 + 1) by lia.
      destruct (Z.leb_spec end_ (offset + 1)) as [Hlt1|Hlt1]; cbv zeta iota beta.
      * by rewrite (proj2 (Z.ltb_lt _ _)) by lia.
      * by destruct (_ <? _).
  - replace (len p - len l) with (offset + 1) by lia. cbv zeta iota beta. by destruct (_ <? _).
Qed.

Lemma parse_length_rest offset l d r :
  rest_at p offset l -> parse_length l = Some (d, r) -> rest_at p (len p - len r) r.
Proof.
  unfold parse_length. intros Hr H. destruct l as [|b l]; [done|].
  apply (rest_cons p Hp) in Hr as (_ & _ & Hr). destruct (252 <=? b).
  - destruct l as [|c l]; [done|]. apply (rest_cons p Hp) in Hr as (_ & _ & Hr). injection H as <- <-.
    replace (len p - len l) with (offset + 1 + 1); [done|]. destruct Hr as (_ & ? & _). lia.
  - injection H as <- <-. replace (len p - len l) with (offset + 1); [done|]. destruct Hr as (_ & ? & _). lia.
Qed.

Definition lengths_verdict (end_ : Z) (parsed : option (list Z * list Z)) (declared : Z) : bool :=
  match parsed with
  | Some (ds, r) =>
      let last := end_ - (len p - len r) - (declared + sum_list ds) in (0 <=? last) && (last <=? MAX_FRAME_BYTES)
  | None => false
  end.

Lemma lengths_while frames end_ k : forall fuel index offset declared l,
  Forall is_byte l -> rest_at p offset l -> end_ <= len p -> 0 <= declared -> (length l < fuel)%nat ->
  frames - 1 - index = Z.of_nat k ->
  (out ← while fuel (fun s : Z * Z * Z => s.1.1 <? frames - 1) (lengths_body p end_) (index, offset, declared);
   afterwards out (fun s =>
     let '(_, offset, declaredBytes) := s in
     let lastFrameBytes := end_ - offset - declaredBytes in
     Ok ((0 <=? lastFrameBytes) && (lastFrameBytes <=? MAX_FRAME_BYTES)))) =
  Ok (lengths_verdict end_ (parse_lengths k l) declared).
Proof.
  induction k as [|k IH]; intros fuel index offset declared l Hl Hr He Hd Hf Hk.
  - replace (while fuel _ _ _) with (Ok (Continue (index, offset, declared)) : parser (flow (Z * Z * Z) bool))
      by (destruct fuel; cbn; by rewrite (proj2 (Z.ltb_ge _ _)) by lia).
    cbn. destruct Hr as (_ & ? & _). replace (len p - len l) with offset by lia.
    by rewrite Z.add_0_r.
  - destruct fuel as [|fuel]; [lia|]. cbn [while fst]. rewrite (proj2 (Z.ltb_lt _ _)) by lia.
    rewrite (lengths_body_spec _ _ _ _ _ Hl Hr He Hd). cbn [parse_lengths].
    destruct (parse_length l) as [[d r]|] eqn:Hpl; cbn [mbind option_bind exec_bind]; [|done].
    pose proof (parse_length_bounds _ _ _ Hl Hpl) as (? & ? & Hlr).
    pose proof (parse_length_rest _ _ _ _ Hr Hpl) as Hrr.
    destruct (Z.ltb_spec (end_ - (len p - len r)) (declared + d)).
    + cbn [exec_bind mbind afterwards]. destruct (parse_lengths k r) as [[ds r']|] eqn:Hps; cbn; [|done].
      apply parse_lengths_bounds in Hps; [|done]. change (foldr Z.add 0 ds) with (sum_list ds).
      rewrite (proj2 (Z.leb_gt _ _)); [done|lia].
    + cbn [exec_bind mbind]. rewrite (IH _ _ _ _ r); [|done|done|lia|lia|unfold len in *; lia|lia].
      destruct (parse_lengths k r) as [[ds r']|]; cbn; [|done].
      by rewrite !Z.add_assoc.
Qed.

Lemma declared_lengths_spec frames offset end_ l :
  rest_at p offset l -> end_ <= len p -> 1 <= frames ->
  declared_lengths p frames offset end_ = Ok (lengths_verdict end_ (parse_lengths (Z.to_nat (frames - 1)) l) 0).
Proof.
  intros Hr He Hf. unfold declared_lengths. apply lengths_while; [|done|done|done| |lia].
  - destruct Hr as (_ & _ & <-). by apply Forall_drop.
  - destruct Hr as (Ho & Hl & _). unfold len in Hl. lia.
Qed.

Lemma padding_loop_spec offset l :
  rest_at p offset l ->
  exists pb, padding_loop p offset (len p) =
    Ok match parse_padding l with
       | Some (n, r) => if len p - len r <=? len p - n then Continue (len p - len r, len p - n, pb) else Return false
       | None => Return false
       end.
Proof.
  intros Hr. pose proof (rest_range _ _ _ Hr). unfold padding_loop.
  apply padding_while; [|done| |lia].
  - destruct Hr as (_ & _ & <-). by apply Forall_drop.
  - destruct Hr as (Ho & Hl & _). unfold len in Hl. lia.
Qed.
End rests.

(** ** Lengths and padding, encoded and read back *)
Lemma parse_length_code n r : 0 <= n <= MAX_FRAME_BYTES -> parse_length (length_code n ++ r) = Some (n, r).
Proof.
  unfold MAX_FRAME_BYTES, length_code. intros Hn. destruct (Z.ltb_spec n 252); cbn.
  - by rewrite (proj2 (Z.leb_gt _ _)) by lia.
  - pose proof (Z.mod_pos_bound n 4). rewrite (proj2 (Z.leb_le _ _)) by lia. do 2 f_equal.
    pose proof (Z.div_mod (n - 252) 4). rewrite Zminus_mod in *. change (252 mod 4) with 0 in *.
    rewrite Z.sub_0_r, Z.mod_mod in * by lia. lia.
Qed.

Lemma length_code_parse l d r : Forall is_byte l -> parse_length l = Some (d, r) -> l = length_code d ++ r.
Proof.
  intros Hl H. destruct Hl as [|b l Hb Hl]; [done|]. unfold is_byte in *. cbn in H.
  unfold length_code. destruct (Z.leb_spec 252 b).
  - destruct Hl as [|c l Hc Hl]; [done|]. injection H as <- <-. rewrite (proj2 (Z.ltb_ge _ _)) by lia. cbn.
    replace (b + 4 * c - 252) with ((b - 252) + c * 4) by lia. rewrite Z.div_add, (Z.div_small (b - 252)) by lia.
    replace (b + 4 * c) with ((b - 252) + (c + 63) * 4) by lia. rewrite Z.mod_add, (Z.mod_small (b - 252)) by lia.
    do 2 f_equal. lia.
  - injection H as <- <-. by rewrite (proj2 (Z.ltb_lt _ _)) by lia.
Qed.

Lemma parse_lengths_code ds r :
  Forall (fun d => 0 <= d <= MAX_FRAME_BYTES) ds ->
  parse_lengths (length ds) (concat (length_code <$> ds) ++ r) = Some (ds, r).
Proof.
  induction 1 as [|d ds Hd Hds IH]; [done|].
  rewrite fmap_cons. cbn [concat length parse_lengths]. rewrite <- app_assoc, parse_length_code by done.
  cbn [mbind option_bind]. by rewrite IH.
Qed.

Lemma lengths_code_parse k : forall l ds r,
  Forall is_byte l -> parse_lengths k l = Some (ds, r) ->
  l = concat (length_code <$> ds) ++ r /\ length ds = k /\ Forall (fun d => 0 <= d <= MAX_FRAME_BYTES) ds.
Proof.
  induction k as [|k IH]; intros l ds r Hl H; [by injection H as <- <-|].
  cbn in H. apply bind_Some in H as ([d l'] & H1 & H). apply bind_Some in H as ([ds' r'] & H2 & [= <- <-]).
  pose proof (parse_length_bounds _ _ _ Hl H1) as (Hd & _ & Hl').
  apply length_code_parse in H1 as ->; [|done]. apply IH in H2 as (-> & <- & Hds); [|done].
  rewrite fmap_cons. cbn [concat length]. rewrite app_assoc. auto.
Qed.

Lemma parse_padding_code k v r : 0 <= v < 255 ->
  parse_padding (replicate k 255 ++ v :: r) = Some (254 * Z.of_nat k + v, r).
Proof.
  intros Hv. induction k as [|k IH]; cbn [replicate app parse_padding].
  - by rewrite (proj2 (Z.eqb_neq _ _)) by lia.
  - change (255 =? 255) with true. cbv iota. rewrite IH. cbn [mbind option_bind]. do 2 f_equal. lia.
Qed.

Lemma padding_code_parse l n r : Forall is_byte l -> parse_padding l = Some (n, r) ->
  exists k v, l = replicate k 255 ++ v :: r /\ 0 <= v < 255 /\ n = 254 * Z.of_nat k + v.
Proof.
  intros Hl. revert n r. induction Hl as [|b l Hb Hl IH]; intros n r H; [done|]. cbn in H. unfold is_byte in Hb.
  destruct (Z.eqb_spec b 255) as [->|Hne].
  - apply bind_Some in H as ([n' r'] & H & [= <- <-]). apply IH in H as (k & v & -> & Hv & ->).
    exists (S k), v. repeat split; lia.
  - injection H as <- <-. exists O, b. repeat split; lia.
Qed.

(** A run of bytes cut into frames of given lengths. *)
Lemma cut_frames ds : forall r, Forall (fun d => 0 <= d) ds -> sum_list ds <= len r ->
  exists fs filler, r = concat fs ++ filler /\ len <$> fs = ds.
Proof.
  induction ds as [|d ds IH]; intros r Hds Hr; [by exists [], r|].
  apply Forall_cons_1 in Hds as [Hd Hds]. change (sum_list (d :: ds)) with (d + sum_list ds) in Hr.
  assert (0 <= sum_list ds).
  { clear -Hds. induction Hds; [done|]. change (sum_list (x :: l)) with (x + sum_list l). lia. }
  destruct (IH (drop (Z.to_nat d) r)) as (fs & filler & Hdr & Hfs); [done|rewrite len_drop; lia|].
  exists (take (Z.to_nat d) r :: fs), filler. cbn [concat]. rewrite <- app_assoc, <- Hdr, take_drop. split; [done|].
  rewrite fmap_cons, Hfs. f_equal. unfold len. rewrite length_take. unfold len in Hr. lia.
Qed.

Lemma len_concat fs : len (concat fs) = sum_list (len <$> fs).
Proof. induction fs as [|f fs IH]; [done|]. cbn [concat]. rewrite len_app, IH. done. Qed.

Lemma sum_replicate k n : sum_list (replicate k n) = Z.of_nat k * n.
Proof.
  induction k as [|k IH]; [done|]. change (sum_list (replicate (S k) n)) with (n + sum_list (replicate k n)).
  rewrite IH. lia.
Qed.

(** ** The framing check is the description *)
Definition pad_of (control : Z) (l : list Z) : option (Z * list Z) :=
  if Z.land control 0x40 =? 0 then Some (0, l) else parse_padding l.

Lemma pad_of_code control code n r : padding_code control code n -> pad_of control (code ++ r) = Some (n, r).
Proof.
  unfold padding_code, pad_of. destruct (_ =? 0); [by intros [-> ->]|].
  intros (k & v & -> & Hv & ->). rewrite <- app_assoc. by apply parse_padding_code.
Qed.

Lemma pad_of_parse control l n r : Forall is_byte l -> pad_of control l = Some (n, r) ->
  0 <= n /\ exists code, l = code ++ r /\ padding_code control code n.
Proof.
  unfold padding_code, pad_of. intros Hl. destruct (_ =? 0).
  - intros [= <- <-]. split; [done|]. by exists [].
  - intros (k & v & -> & Hv & ->)%padding_code_parse; [|done]. split; [lia|].
    exists (replicate k 255 ++ [v]). rewrite <- app_assoc. split; [done|]. eauto.
Qed.

Section framing.
Context (p : list Z) (Hp : Forall is_byte p).

Lemma padding_stage control l :
  rest_at p 2 l ->
  exists pb, (if negb (Z.land control 0x40 =? 0) then padding_loop p 2 (len p) else Ok (Continue (2, len p, 0))) =
    Ok match pad_of control l with
       | Some (n, r) => if n <=? len r then Continue (len p - len r, len p - n, pb) else Return false
       | None => Return false
       end.
Proof.
  intros Hr. unfold pad_of. destruct (Z.land control 0x40 =? 0) eqn:E; cbn [negb].
  - exists 0. rewrite (proj2 (Z.leb_le _ _)) by done. do 2 f_equal. destruct Hr as (_ & Hl & _).
    do 2 f_equal; lia.
  - destruct (padding_loop_spec p Hp 2 l Hr) as [pb ->]. exists pb. f_equal.
    destruct (parse_padding l) as [[n r]|]; [|done].
    destruct (Z.leb_spec n (len r)); [by rewrite (proj2 (Z.leb_le _ _)) by lia|by rewrite (proj2 (Z.leb_gt _ _)) by lia].
Qed.

Lemma lengths_verdict_iff end_ offset l k :
  rest_at p offset l -> end_ <= len p ->
  lengths_verdict p end_ (parse_lengths k l) 0 = true <->
  exists fs f filler, length fs = k /\
    l = concat ((fun f => length_code (len f)) <$> fs) ++ concat fs ++ f ++ filler /\
    len filler = len p - end_ /\ Forall (fun f => len f <= MAX_FRAME_BYTES) (fs ++ [f]).
Proof.
  intros Hr He. assert (Hl : Forall is_byte l) by (destruct Hr as (_ & _ & <-); by apply Forall_drop). split.
  - destruct (parse_lengths k l) as [[ds r]|] eqn:Hps; [|done]. cbn.
    intros [Hlo%Z.leb_le Hhi%Z.leb_le]%andb_true_iff. fold (sum_list ds) in *.
    apply lengths_code_parse in Hps as (-> & Hk & Hds); [|done].
    assert (0 <= len r) by done.
    destruct (cut_frames ds r) as (fs & rest & -> & Hfs); [|lia|].
    { apply (Forall_impl _ _ _ Hds). lia. }
    subst ds. rewrite length_fmap in Hk. rewrite len_app, len_concat in *.
    set (last := end_ - (len p - (sum_list (len <$> fs) + len rest)) - sum_list (len <$> fs)) in *.
    exists fs, (take (Z.to_nat last) rest), (drop (Z.to_nat last) rest).
    rewrite take_drop, <- list_fmap_compose. split; [done|]. split; [done|]. split.
    { rewrite len_drop; unfold last in *; lia. }
    apply Forall_app. split.
    + apply Forall_fmap in Hds. apply (Forall_impl _ _ _ Hds). cbn. lia.
    + constructor; [|constructor]. unfold len, last. rewrite length_take. lia.
  - intros (fs & f & filler & <- & -> & Hf & Hm). apply Forall_app in Hm as [Hfs Hlast].
    apply Forall_cons_1 in Hlast as [Hlast _].
    change ((fun f => length_code (len f)) <$> fs) with (length_code ∘ len <$> fs).
    rewrite list_fmap_compose, <- (length_fmap len fs), parse_lengths_code.
    2: { apply Forall_fmap. apply (Forall_impl _ _ _ Hfs). cbn. intros x Hx. pose proof (len_nonneg x). lia. }
    cbn. fold (sum_list (len <$> fs)). rewrite !len_app, len_concat, Hf.
    pose proof (len_nonneg f). apply andb_true_iff. rewrite !Z.leb_le. lia.
Qed.
End framing.

Lemma samples_bounds toc : is_byte toc -> 0 < samplesPerFrame toc /\ samplesPerFrame toc * 2 <= 5760.
Proof.
  intros Hb. pose proof (forallb_seqZ (fun t => (0 <? samplesPerFrame t) && (samplesPerFrame t * 2 <=? 5760)) 256) as H.
  specialize (H ltac:(vm_compute; reflexivity) toc Hb). cbv beta in H.
  apply andb_true_iff in H as [?%Z.ltb_lt ?%Z.leb_le]. lia.
Qed.

Lemma land_3_cases z : Z.land z 3 = 0 \/ Z.land z 3 = 1 \/ Z.land z 3 = 2 \/ Z.land z 3 = 3.
Proof. pose proof (Z.land_ones z 2) as H. change (Z.ones 2) with 3 in H. rewrite H by lia. pose proof (Z.mod_pos_bound z (2 ^ 2)). lia. Qed.

(** A packet's payload after its first byte, by the code in that byte. *)
Lemma admitted_cons toc t : is_byte toc ->
  admitted_packet (toc :: t) <-> 1 + len t <= MAX_AUDIO_PACKET_BYTES /\
    exists frames, opus_packet (toc :: t) frames /\ Forall (fun f => len f <= MAX_FRAME_BYTES) frames /\
      (Z.land toc 3 = 3 -> samplesPerFrame toc * Z.of_nat (length frames) <= 5760).
Proof.
  intros Hb. pose proof (samples_bounds _ Hb) as [Hs0 Hs]. pose proof (len_nonneg t). unfold admitted_packet.
  rewrite len_cons. change (at0 (toc :: t) 0) with toc. split.
  - intros (? & frames & Hf & Hm & Hd). split; [lia|]. eauto.
  - intros (? & frames & Hf & Hm & Hd). split; [lia|]. exists frames. split; [done|]. split; [done|].
    inversion Hf; subst; cbn [length]; try (apply Hd; done); lia.
Qed.

Lemma framing_one toc t : Z.land toc 3 = 0 -> is_byte toc ->
  1 + len t <= MAX_AUDIO_PACKET_BYTES -> len t <= MAX_FRAME_BYTES <-> admitted_packet (toc :: t).
Proof.
  intros Hc Hb Hm. rewrite admitted_cons by done. split.
  - intros Ht. split; [done|]. exists [t]. split; [by constructor|]. split; [by constructor|]. rewrite Hc. done.
  - intros (_ & frames & Hf & Hfs & _). inversion Hf; subst; try congruence. by apply Forall_cons_1 in Hfs as [? _].
Qed.

Lemma framing_two_equal toc t : Z.land toc 3 = 1 -> is_byte toc -> 1 + len t <= MAX_AUDIO_PACKET_BYTES ->
  (len t) mod 2 = 0 /\ len t / 2 <= MAX_FRAME_BYTES <-> admitted_packet (toc :: t).
Proof.
  intros Hc Hb Hm. rewrite admitted_cons by done. pose proof (len_nonneg t). split.
  - intros [Hmod Hdiv]. split; [done|]. set (n := len t / 2).
    assert (Hn : len t = 2 * n) by (pose proof (Z.div_mod (len t) 2); lia).
    exists [take (Z.to_nat n) t; drop (Z.to_nat n) t].
    assert (Hl1 : len (take (Z.to_nat n) t) = n) by (unfold len in *; rewrite length_take; lia).
    assert (Hl2 : len (drop (Z.to_nat n) t) = n) by (rewrite len_drop; lia).
    split; [|split; [|rewrite Hc; done]].
    + rewrite <- (take_drop (Z.to_nat n) t) at 1. constructor; [done|congruence].
    + repeat constructor; [by rewrite Hl1|by rewrite Hl2].
  - intros (_ & frames & Hf & Hfs & _). inversion Hf; subst; try congruence.
    apply Forall_cons_1 in Hfs as [Hf1 _]. rewrite len_app.
    match goal with E : len f1 = len f2 |- _ => rewrite <- E end.
    replace (len f1 + len f1) with (len f1 * 2) by lia. rewrite Z.mod_mul, Z.div_mul by lia. done.
Qed.

Lemma framing_two toc t b : Forall is_byte (toc :: t) -> Z.land toc 3 = 2 ->
  1 + len t <= MAX_AUDIO_PACKET_BYTES ->
  declared_lengths (toc :: t) 2 1 (len (toc :: t)) = Ok b -> b = true <-> admitted_packet (toc :: t).
Proof.
  intros Hp Hc Hm Hrun. pose proof (Forall_inv Hp) as Hb. rewrite admitted_cons by done.
  assert (Hr : rest_at (toc :: t) 1 t).
  { split; [done|]. split; [rewrite len_cons; lia|done]. }
  rewrite (declared_lengths_spec _ Hp 2 1 _ t) in Hrun by (done || lia). assert (b = lengths_verdict (toc :: t) (len (toc :: t)) (parse_lengths (Z.to_nat (2 - 1)) t) 0) as -> by congruence.
  rewrite (lengths_verdict_iff _ Hp _ 1) by done. rewrite Z.sub_diag. split.
  - intros (fs & f & filler & Hfs & -> & Hf & Hall). split; [done|].
    destruct fs as [|f1 [|]]; [done| |done]. destruct filler; [|rewrite len_cons in Hf; pose proof (len_nonneg filler); lia].
    exists [f1; f]. split; [|split; [exact Hall|by rewrite Hc]].
    rewrite !fmap_cons, !fmap_nil. cbn [concat]. rewrite !app_nil_r. by constructor.
  - intros (_ & frames & Hf & Hfs & _). inversion Hf; subst; try congruence.
    exists [f1], f2, []. rewrite !fmap_cons, !fmap_nil. cbn [concat]. rewrite !app_nil_r. repeat split; done.
Qed.

(** The part of the check that follows the control byte of a packet of code 3. *)
Definition after_control (p : list Z) (control offset end_ : Z) : parser bool :=
  let frames := Z.land control 0x3f in
  if Z.land control 0x80 =? 0
  then Ok (((end_ - offset) mod frames =? 0) && ((end_ - offset) / frames <=? MAX_FRAME_BYTES))
  else declared_lengths p frames offset end_.

(** The frames that fill [r] up to [n] bytes of padding data. *)
Definition frames_in (control : Z) (r : list Z) (n : Z) (frames : list (list Z)) : Prop :=
  Z.of_nat (length frames) = Z.land control 0x3f /\ Forall (fun f => len f <= MAX_FRAME_BYTES) frames /\
  exists filler, len filler = n /\
    if Z.land control 0x80 =? 0
    then r = concat frames ++ filler /\ exists m, Forall (fun f => len f = m) frames
    else exists fs f, frames = fs ++ [f] /\
      r = concat ((fun f => length_code (len f)) <$> fs) ++ concat fs ++ f ++ filler.

Lemma equal_lengths fs n : Forall (fun f => len f = n) fs <-> len <$> fs = replicate (length fs) n.
Proof.
  split.
  - induction 1 as [|f fs Hf Hfs IH]; [done|]. rewrite fmap_cons, IH, Hf. done.
  - induction fs as [|f fs IH]; intros E; [done|]. rewrite fmap_cons in E. injection E as Ef E. constructor; auto.
Qed.

Lemma len_equal_concat fs n : Forall (fun f => len f = n) fs -> len (concat fs) = Z.of_nat (length fs) * n.
Proof. intros H%equal_lengths. by rewrite len_concat, H, sum_replicate. Qed.

Lemma equal_cut (k : nat) (n : Z) (r : list Z) : 0 <= n -> Z.of_nat k * n <= len r ->
  exists fs filler, r = concat fs ++ filler /\ length fs = k /\ Forall (fun f => len f = n) fs.
Proof.
  intros Hn Hr. destruct (cut_frames (replicate k n) r) as (fs & filler & -> & Hfs).
  - by apply Forall_replicate.
  - by rewrite sum_replicate.
  - assert (length fs = k) as <- by (by rewrite <- (length_fmap len fs), Hfs, length_replicate).
    exists fs, filler. split; [done|]. split; [done|]. by apply equal_lengths.
Qed.

Lemma after_control_spec p control r offset n : Forall is_byte p -> rest_at p offset r ->
  0 <= n <= len r -> 1 <= Z.land control 0x3f ->
  exists b, after_control p control offset (len p - n) = Ok b /\ (b = true <-> exists frames, frames_in control r n frames).
Proof.
  intros Hp Hr Hn Hf. unfold after_control, frames_in. set (m := Z.land control 0x3f) in *.
  destruct (Z.land control 0x80 =? 0).
  - eexists. split; [done|]. pose proof Hr as (_ & Hlr & _).
    replace (len p - n - offset) with (len r - n) by lia.
    rewrite andb_true_iff, Z.eqb_eq, Z.leb_le. split.
    + intros [Hmod Hdiv]. set (q := (len r - n) / m) in *.
      assert (Hq : len r - n = m * q) by (pose proof (Z.div_mod (len r - n) m); lia).
      destruct (equal_cut (Z.to_nat m) q r) as (fs & filler & -> & Hlen & Hfs); [nia|lia|].
      exists fs. split; [lia|]. split; [apply (Forall_impl _ _ _ Hfs); cbn; intros ? ->; done|].
      exists filler. split; [|by eauto].
      apply len_equal_concat in Hfs. rewrite len_app in Hq. lia.
    + intros (frames & Hk & Hall & filler & Hfl & -> & q & Hq).
      pose proof (len_equal_concat _ _ Hq) as Hc. rewrite Hk, Z.mul_comm in Hc.
      rewrite len_app, Hc, Hfl. replace (q * m + n - n) with (q * m) by lia.
      rewrite Z.mod_mul, Z.div_mul by lia. split; [done|].
      destruct frames as [|f fs]; [cbn in Hk; lia|]. apply Forall_cons_1 in Hq as [<- _]. by apply Forall_cons_1 in Hall as [? _].
  - eexists. split; [apply declared_lengths_spec; [done|done|lia|lia]|].
    rewrite lengths_verdict_iff by (done || lia). replace (len p - (len p - n)) with n by lia. split.
    + intros (fs & f & filler & Hfs & -> & Hfl & Hall). exists (fs ++ [f]). rewrite length_app, Hfs. cbn [length].
      split; [lia|]. split; [done|]. exists filler. split; [done|]. by exists fs, f.
    + intros (frames & Hk & Hall & filler & Hfl & fs & f & -> & ->). exists fs, f, filler.
      rewrite length_app in Hk. cbn [length] in Hk. repeat split; try done. lia.
Qed.

(** Packets of code 3 are a control byte, padding bytes and the frames they announce. *)
Lemma code_three_iff toc t : is_byte toc -> Z.land toc 3 = 3 -> Forall is_byte t ->
  admitted_packet (toc :: t) <-> 1 + len t <= MAX_AUDIO_PACKET_BYTES /\
    exists control l n r frames, t = control :: l /\ pad_of control l = Some (n, r) /\ n <= len r /\
      1 <= Z.land control 0x3f /\ samplesPerFrame toc * Z.land control 0x3f <= 5760 /\ frames_in control r n frames.
Proof.
  intros Hb Hc Ht. rewrite admitted_cons by done. apply and_iff_compat_l. split.
  - intros (frames & Hf & Hall & Hd). specialize (Hd Hc). unfold frames_in.
    inversion Hf as [| | |toc' control padding n fr filler H3 Hk Hne H80 Hpad Heq|toc' control padding fs f filler H3 Hk H80 Hpad];
      subst; try congruence.
    + exists control, (padding ++ concat frames ++ filler), (len filler), (concat frames ++ filler), frames. split; [done|]. split; [by apply pad_of_code|].
      rewrite Hk, H80. destruct frames; [done|]. cbn [length] in *. rewrite len_app.
      split; [pose proof (len_nonneg (concat (l :: frames))); lia|]. split; [lia|]. split; [done|]. split; [done|].
      split; [done|]. exists filler. split; [done|]. split; [done|]. by exists n.
    + set (r := concat ((fun f => length_code (len f)) <$> fs) ++ concat fs ++ f ++ filler) in *.
      exists control, (padding ++ r), (len filler), r, (fs ++ [f]). split; [done|]. split; [by apply pad_of_code|].
      rewrite Hk, (proj2 (Z.eqb_neq _ 0)) by done. rewrite length_app, Nat.add_1_r in *.
      split; [unfold r; rewrite !len_app; pose proof (len_nonneg (concat ((λ f0, length_code (len f0)) <$> fs)));
        pose proof (len_nonneg (concat fs)); pose proof (len_nonneg f); lia|].
      split; [lia|]. split; [done|]. split; [done|]. split; [done|]. exists filler. split; [done|]. by exists fs, f.
  - intros (control & l & n & r & frames & -> & Hpad & Hn & H1 & Hd & Hk & Hall & filler & Hfl & Hr).
    apply pad_of_parse in Hpad as (_ & code & -> & Hcode); [|by apply Forall_inv_tail in Ht].
    exists frames. rewrite Hk. split; [|done]. subst n. destruct (Z.eqb_spec (Z.land control 0x80) 0).
    + destruct Hr as (-> & m & Hm). apply equal_frames with (n := m); try done. by destruct frames; [cbn in Hk; lia|].
    + destruct Hr as (fs & f & -> & ->). rewrite length_app, Nat.add_1_r in Hk. by constructor.
Qed.

Lemma framing_three toc t : Forall is_byte (toc :: t) -> Z.land toc 3 = 3 ->
  1 + len t <= MAX_AUDIO_PACKET_BYTES ->
  exists b, matchesOpusPacketFraming (toc :: t) = Ok b /\ (b = true <-> admitted_packet (toc :: t)).
Proof.
  intros Hp Hc Hm. pose proof (Forall_inv Hp) as Hb. pose proof (Forall_inv_tail Hp) as Ht.
  pose proof (len_nonneg t). pose proof (samples_bounds _ Hb) as [Hs _].
  setoid_rewrite (code_three_iff toc t Hb Hc Ht). unfold matchesOpusPacketFraming.
  change (at0 (toc :: t) 0) with toc. rewrite (len_cons toc t), Hc.
  rewrite (proj2 (Z.eqb_neq (1 + len t) 0)), (proj2 (Z.ltb_ge _ (1 + len t))) by lia. cbn [orb].
  change (3 =? 0) with false. change (3 =? 1) with false. change (3 =? 3) with true. cbv iota.
  destruct t as [|control l]; [exists false; split; [done|]; split; [done|]; by intros (_ & ? & ? & ? & ? & ? & ? & _)|].
  change (at0 (toc :: control :: l) 1) with control. rewrite len_cons in *.
  rewrite (proj2 (Z.leb_gt _ 1)) by (pose proof (len_nonneg l); lia).
  pose proof (Forall_inv Ht) as Hcb. pose proof (Forall_inv_tail Ht) as Hl.
  assert (Hk0 : 0 <= Z.land control 63).
  { pose proof (Z.land_ones control 6) as E. change (Z.ones 6) with 63 in E. rewrite E by lia.
    apply Z.mod_pos_bound. lia. }
  set (m := Z.land control 63) in *.
  destruct ((m =? 0) || (5760 <? samplesPerFrame toc * m)) eqn:Hg.
  { exists false. split; [done|]. split; [done|]. intros (_ & c & l' & n & r & frames & [= <- <-] & _ & _ & H1 & Hd & _).
    fold m in H1, Hd. apply orb_true_iff in Hg as [?%Z.eqb_eq|?%Z.ltb_lt]; lia. }
  apply orb_false_iff in Hg as [Hg1%Z.eqb_neq Hg2%Z.ltb_ge].
  assert (Hr : rest_at (toc :: control :: l) 2 l).
  { split; [done|]. split; [rewrite !len_cons; lia|done]. }
  destruct (padding_stage _ Hp control l Hr) as [pb Hpb]. rewrite !len_cons in Hpb. rewrite Hpb. clear Hpb.
  destruct (pad_of control l) as [[n r]|] eqn:Hpad.
  2: { cbn. exists false. split; [done|]. split; [done|].
       intros (_ & c & l' & n & r & frames & [= <- <-] & Hpad' & _). congruence. }
  pose proof (pad_of_parse _ _ _ _ Hl Hpad) as (Hn & code & Hcode & _).
  destruct (Z.leb_spec n (len r)).
  2: { cbn. exists false. split; [done|]. split; [done|].
       intros (_ & c & l' & n' & r' & frames & [= <- <-] & Hpad' & ? & _). rewrite Hpad in Hpad'. injection Hpad' as <- <-. lia. }
  cbn [mbind exec_bind afterwards].
  destruct (after_control_spec (toc :: control :: l) control r (1 + (1 + len l) - len r) n) as (b & Hrun & Hb');
    [done| |lia|lia|].
  { subst l. rewrite len_app. split; [pose proof (len_nonneg code); lia|]. split; [rewrite !len_cons, len_app; lia|].
    replace (Z.to_nat _) with (S (S (length code))) by (unfold len; lia). cbn. by rewrite drop_app_length. }
  unfold after_control in Hrun. fold m in Hrun. rewrite !len_cons in Hrun.
  exists b. split; [exact Hrun|]. rewrite Hb'. split.
  - intros [frames Hf]. split; [done|]. exists control, l, n, r, frames. repeat split; (done || lia || apply Hf).
  - intros (_ & c & l' & n' & r' & frames & [= <- <-] & Hpad' & _ & _ & _ & Hf). rewrite Hpad in Hpad'.
    injection Hpad' as <- <-. eauto.
Qed.

(** [matchesOpusPacketFraming] returns on every byte string and accepts exactly the packets of
    RFC 6716 with at most 61440 bytes, frames of at most 1275 bytes and 120 ms of sound in all. *)
Lemma matchesOpusPacketFraming_spec (packet : list Z) (Hp : Forall is_byte packet) :
  exists b, matchesOpusPacketFraming packet = Ok b /\ (b = true <-> admitted_packet packet).
Proof.
  destruct packet as [|toc t]; [exists false; split; [done|]; split; [done|]; intros [H _]; change (len []) with 0 in H; lia|].
  pose proof (Forall_inv Hp) as Hb. pose proof (len_nonneg t).
  destruct (Z.ltb_spec MAX_AUDIO_PACKET_BYTES (1 + len t)) as [Hbig|Hm].
  { exists false. unfold matchesOpusPacketFraming. rewrite len_cons, (proj2 (Z.ltb_lt _ _)), orb_true_r by lia.
    split; [done|]. split; [done|]. intros [H1 _]. rewrite len_cons in H1. lia. }
  destruct (Z.eq_dec (Z.land toc 3) 3) as [Hc|H3]; [by apply framing_three|].
  unfold matchesOpusPacketFraming. change (at0 (toc :: t) 0) with toc. rewrite (len_cons toc t).
  rewrite (proj2 (Z.eqb_neq (1 + len t) 0)), (proj2 (Z.ltb_ge _ (1 + len t))) by lia. cbn [orb].
  replace (1 + len t - 1) with (len t) by lia.
  destruct (land_3_cases toc) as [Hc|[Hc|[Hc|Hc]]]; [..|done]; rewrite Hc; cbn [Z.eqb Pos.eqb].
  - eexists. split; [done|]. rewrite Z.leb_le. by apply framing_one.
  - eexists. split; [done|]. rewrite andb_true_iff, Z.eqb_eq, Z.leb_le. by apply framing_two_equal.
  - assert (Hr : rest_at (toc :: t) 1 t) by (split; [done|]; split; [rewrite len_cons; lia|done]).
    pose proof (declared_lengths_spec _ Hp 2 1 (len (toc :: t)) t Hr) as Hd.
    rewrite len_cons in Hd. rewrite Hd by lia. eexists. split; [done|].
    eapply framing_two; [done|done|done|]. rewrite len_cons. apply Hd; lia.
Qed.
