(* ===== verification/OpusProfile.v ===== *)
(** [OggOpusProfile] ([media/media-ogg-opus-profile.ts]): the comment header and the pages of a
    file, one at a time.  [packets_of] puts packets together from the segments of pages; the
    profile accepts exactly the page sequences [opus_stream] describes with it. *)
From stdpp Require Import prelude list strings.
From Stdlib Require Import ZArith Lia.
From S2P Require Import Prelude Buffers Opus.
#[local] Open Scope Z_scope.

(** ** [matchesOpusTags] *)
(** The state of the loop over the comments is [(index, offset)]. *)
Definition tags_body (packet : list Z) (s : Z * Z) : parser (flow (Z * Z) bool) :=
  let '(index, offset) := s in
  if len packet - 4 <? offset then Ok (Return false) else
  length ← readUInt32LE packet offset;
  let offset := offset + 4 in
  if len packet - offset <? length then Ok (Return false)
  else Ok (Continue (index + 1, offset + length)).

Definition matchesOpusTags (packet : list Z) : parser bool :=
  if (len packet <? 16) || negb (equals (subarray packet 0 8) OPUS_TAGS) then Ok false else
  vendorLength ← readUInt32LE packet 8;
  if len packet - 16 <? vendorLength then Ok false else
  let offset := 12 + vendorLength in
  count ← readUInt32LE packet offset;
  let offset := offset + 4 in
  if (len packet - offset) / 4 <? count then Ok false else
  out ← while (S (length packet)) (fun s => s.1 <? count) (tags_body packet) (0, offset);
  afterwards out (fun _ => Ok true).

(** A text of the header: its length in four bytes, then its bytes. *)
Definition text_field (t : list Z) : list Z := bytesLE 4 (len t) ++ t.
(** A comment header: vendor, number of comments, comments; anything may follow. *)
Definition tags_packet (p : list Z) : Prop :=
  exists vendor comments trailer,
    p = OPUS_TAGS ++ text_field vendor ++ bytesLE 4 (Z.of_nat (length comments)) ++
        concat (text_field <$> comments) ++ trailer /\
    len p < 2 ^ 32.

(** The texts at the head of [l]. *)
Definition parse_text (l : list Z) : option (list Z * list Z) :=
  let n := uintLE (take 4 l) in
  if (4 <=? len l) && (n <=? len l - 4) then Some (take (Z.to_nat n) (drop 4 l), drop (Z.to_nat n) (drop 4 l)) else None.
Fixpoint parse_texts (k : nat) (l : list Z) : option (list (list Z) * list Z) :=
  match k with
  | O => Some ([], l)
  | S k => '(t, l) ← parse_text l; '(ts, l) ← parse_texts k l; Some (t :: ts, l)
  end.

Section texts.
Lemma take4_uint l : Forall is_byte l -> 4 <= len l -> take 4 l = bytesLE 4 (uintLE (take 4 l)).
Proof.
  intros Hl Hn. symmetry. rewrite <- (bytesLE_uintLE (take 4 l)) at 2 by by apply Forall_take.
  rewrite length_take. f_equal. unfold len in Hn. lia.
Qed.

Lemma parse_text_sound l t r : Forall is_byte l -> parse_text l = Some (t, r) -> l = text_field t ++ r.
Proof.
  intros Hl. unfold parse_text. set (n := uintLE (take 4 l)). case_match eqn:E; [|done]. intros [= <- <-].
  apply andb_true_iff in E as [H4%Z.leb_le Hn%Z.leb_le].
  assert (Hn0 : 0 <= n) by (apply uintLE_range, Forall_take, Hl).
  assert (Ht : len (take (Z.to_nat n) (drop 4 l)) = n).
  { unfold len in *. rewrite length_take, length_drop. lia. }
  unfold text_field. rewrite Ht, <- app_assoc, take_drop. unfold n. rewrite <- take4_uint, take_drop by done. done.
Qed.

Lemma parse_text_complete t r : len t < 2 ^ 32 -> parse_text (text_field t ++ r) = Some (t, r).
Proof.
  intros Ht. unfold parse_text, text_field. pose proof (len_nonneg t). pose proof (len_nonneg r).
  assert (H4 : length (bytesLE 4 (len t)) = 4%nat) by (pose proof (len_bytesLE 4 (len t)); unfold len in *; lia).
  rewrite <- app_assoc. rewrite (take_app_length' _ (t ++ r)) by done. rewrite (drop_app_length' _ (t ++ r)) by done.
  rewrite uintLE_bytesLE by (change (256 ^ Z.of_nat 4) with (2 ^ 32); lia).
  rewrite !len_app, len_bytesLE. change (Z.of_nat 4) with 4.
  rewrite (proj2 (Z.leb_le 4 _)), (proj2 (Z.leb_le (len t) _)) by lia. cbn [andb].
  unfold len. by rewrite Nat2Z.id, take_app_length, drop_app_length.
Qed.

Lemma text_field_len t : len (text_field t) = 4 + len t.
Proof. unfold text_field. by rewrite len_app, len_bytesLE. Qed.

Lemma parse_texts_sound k : forall l ts r, Forall is_byte l -> parse_texts k l = Some (ts, r) ->
  l = concat (text_field <$> ts) ++ r /\ length ts = k.
Proof.
  induction k as [|k IH]; intros l ts r Hl H; [by injection H as <- <-|].
  cbn in H. apply bind_Some in H as ([t l'] & H1 & H). apply bind_Some in H as ([ts' r'] & H2 & [= <- <-]).
  apply parse_text_sound in H1 as ->; [|done]. apply Forall_app in Hl as [_ Hl].
  apply IH in H2 as [-> <-]; [|done]. rewrite fmap_cons. cbn [concat length]. by rewrite app_assoc.
Qed.

Lemma parse_texts_complete ts r : Forall (fun t => len t < 2 ^ 32) ts ->
  parse_texts (length ts) (concat (text_field <$> ts) ++ r) = Some (ts, r).
Proof.
  induction 1 as [|t ts Ht Hts IH]; [done|]. rewrite fmap_cons. cbn [concat length parse_texts].
  rewrite <- app_assoc, parse_text_complete by done. cbn [mbind option_bind]. by rewrite IH.
Qed.

Lemma readUInt32LE_at p offset l : Forall is_byte p -> rest_at p offset l -> 4 <= len l ->
  readUInt32LE p offset = Ok (uintLE (take 4 l)).
Proof.
  intros Hp (Ho & Hl & Hd) H4. unfold readUInt32LE. rewrite read_fixed_ok by lia. do 2 f_equal.
  unfold subarray. rewrite Hd. f_equal. lia.
Qed.

(** One turn reads the text at the head of what is left. *)
Lemma tags_body_spec p index offset l : Forall is_byte p -> rest_at p offset l ->
  tags_body p (index, offset) =
    Ok match parse_text l with Some (t, r) => Continue (index + 1, len p - len r) | None => Return false end.
Proof.
  intros Hp Hr. unfold tags_body, parse_text. pose proof Hr as (Ho & Hl & Hd).
  destruct (Z.ltb_spec (len p - 4) offset).
  { by rewrite (proj2 (Z.leb_gt 4 _)) by lia. }
  rewrite (proj2 (Z.leb_le 4 _)), (readUInt32LE_at _ _ _ Hp Hr) by lia.
  assert (Hln : Forall is_byte l) by (rewrite <- Hd; by apply Forall_drop).
  assert (H0 : 0 <= uintLE (take 4 l)) by (by apply uintLE_range, Forall_take).
  set (n := uintLE (take 4 l)) in *. cbn [mbind exec_bind andb].
  destruct (Z.ltb_spec (len p - (offset + 4)) n).
  { by rewrite (proj2 (Z.leb_gt n _)) by lia. }
  rewrite (proj2 (Z.leb_le n _)) by lia. do 3 f_equal.
  rewrite len_drop, (len_drop _ 4) by (rewrite ?(len_drop _ 4); lia). lia.
Qed.

Lemma parse_text_rest p offset l t r : Forall is_byte p -> rest_at p offset l -> parse_text l = Some (t, r) ->
  rest_at p (len p - len r) r /\ (length r < length l)%nat.
Proof.
  intros Hp Hr Ht. assert (Hl : Forall is_byte l) by (destruct Hr as (_ & _ & <-); by apply Forall_drop).
  apply parse_text_sound in Ht as Heq; [|done]. pose proof (len_nonneg (text_field t)).
  pose proof (text_field_len t). pose proof (len_nonneg t). pose proof Hr as (_ & Hlen & _).
  rewrite Heq, len_app in Hlen. split.
  - replace (len p - len r) with (offset + len (text_field t)) by lia.
    replace r with (drop (Z.to_nat (len (text_field t))) l).
    + apply rest_drop; [done|]. rewrite Heq, len_app. pose proof (len_nonneg r). lia.
    + rewrite Heq. unfold len. by rewrite Nat2Z.id, drop_app_length.
  - rewrite Heq, length_app. unfold len in *. lia.
Qed.

(** The loop reads the comments off the rest of the packet. *)
Lemma tags_while p count k : forall fuel index offset l, Forall is_byte p -> rest_at p offset l ->
  (length l < fuel)%nat -> count - index = Z.of_nat k ->
  (out ← while fuel (fun s : Z * Z => s.1 <? count) (tags_body p) (index, offset); afterwards out (fun _ => Ok true))
  = Ok (bool_decide (is_Some (parse_texts k l))).
Proof.
  induction k as [|k IH]; intros fuel index offset l Hp Hr Hf Hk.
  - destruct fuel; cbn [while fst]; by rewrite (proj2 (Z.ltb_ge _ _)) by lia.
  - destruct fuel as [|fuel]; [lia|]. cbn [while fst]. rewrite (proj2 (Z.ltb_lt _ _)) by lia.
    rewrite (tags_body_spec _ _ _ _ Hp Hr). cbn [parse_texts].
    destruct (parse_text l) as [[t r]|] eqn:Ht; cbn [mbind exec_bind option_bind]; [|done].
    destruct (parse_text_rest _ _ _ _ _ Hp Hr Ht) as [Hr' Hlt].
    rewrite (IH _ _ _ r); [|done|done|lia|lia]. f_equal. apply bool_decide_ext. split.
    + intros [[ts r'] ->]. by eexists.
    + intros [[ts r'] H1]. destruct (parse_texts k r) as [[ts' r'']|]; [eauto|done].
Qed.
End texts.

Lemma texts_size ts :
  4 * Z.of_nat (length ts) <= len (concat (text_field <$> ts)) /\
  Forall (fun t => 4 + len t <= len (concat (text_field <$> ts))) ts.
Proof.
  induction ts as [|t ts [IH1 IH2]]; [done|]. rewrite fmap_cons. cbn [concat length]. rewrite len_app, text_field_len.
  pose proof (len_nonneg t). split; [lia|]. constructor; [lia|]. apply (Forall_impl _ _ _ IH2). lia.
Qed.

Lemma len_tags : len OPUS_TAGS = 8.
Proof. reflexivity. Qed.

Lemma length_bytesLE n z : length (bytesLE n z) = n.
Proof. pose proof (len_bytesLE n z). unfold len in *. lia. Qed.

(** A comment header, as a parser sees it. *)
Definition header_parses (l : list Z) : Prop :=
  exists v r, parse_text l = Some (v, r) /\ 4 <= len r /\
    is_Some (parse_texts (Z.to_nat (uintLE (take 4 r))) (drop 4 r)).

Lemma tags_packet_parses l : Forall is_byte l -> 8 + len l < 2 ^ 32 ->
  tags_packet (OPUS_TAGS ++ l) <-> header_parses l.
Proof.
  intros Hl Hmax. unfold header_parses. split.
  - intros (v & cs & tr & Heq & _). apply app_inv_head in Heq. rewrite Heq in Hmax |- *.
    rewrite !len_app, text_field_len, len_bytesLE in Hmax. pose proof (len_nonneg tr). pose proof (len_nonneg v).
    pose proof (len_nonneg (concat (text_field <$> cs))). destruct (texts_size cs) as [Hcount Hcs].
    exists v. eexists. split; [apply parse_text_complete; lia|]. rewrite !len_app, len_bytesLE. split; [lia|].
    rewrite take_app_length', drop_app_length' by (by rewrite length_bytesLE).
    rewrite uintLE_bytesLE, Nat2Z.id by (change (256 ^ Z.of_nat 4) with (2 ^ 32); lia).
    rewrite parse_texts_complete; [eauto|]. apply (Forall_impl _ _ _ Hcs). lia.
  - intros (v & r & Hv & H4 & [[cs tr] Hcs]). apply parse_text_sound in Hv; [|done].
    rewrite Hv in Hl. apply Forall_app in Hl as [_ Hrb].
    apply parse_texts_sound in Hcs as [Hcs Hk]; [|by apply Forall_drop].
    exists v, cs, tr. split; [|rewrite len_app, len_tags; lia]. rewrite Hv. do 2 f_equal. rewrite Hk, Z2Nat.id
      by by apply uintLE_range, Forall_take. rewrite <- take4_uint, <- Hcs, take_drop by done. done.
Qed.

(** From the number of comments on. *)
Lemma tags_comments p offset r : Forall is_byte p -> rest_at p offset r -> 4 <= len r ->
  (count ← readUInt32LE p offset;
   let offset := offset + 4 in
   if (len p - offset) / 4 <? count then Ok false else
   out ← while (S (length p)) (fun s => s.1 <? count) (tags_body p) (0, offset);
   afterwards out (fun _ => Ok true)) =
  Ok (bool_decide (is_Some (parse_texts (Z.to_nat (uintLE (take 4 r))) (drop 4 r)))).
Proof.
  intros Hp Hr H4. rewrite (readUInt32LE_at _ _ _ Hp Hr) by lia. cbn [mbind exec_bind].
  assert (Hrb : Forall is_byte r) by (destruct Hr as (_ & _ & <-); by apply Forall_drop).
  assert (Hc0 : 0 <= uintLE (take 4 r)) by (by apply uintLE_range, Forall_take).
  set (count := uintLE (take 4 r)) in *.
  assert (Hr4 : rest_at p (offset + 4) (drop 4 r)) by (apply (rest_drop _ _ _ 4); [done|lia]).
  pose proof Hr4 as (_ & Hl4 & _). cbv zeta.
  destruct (Z.ltb_spec ((len p - (offset + 4)) / 4) count) as [Hlt|Hge].
  - rewrite bool_decide_false; [done|]. intros [[ts tr] Hts].
    apply parse_texts_sound in Hts as [Hts Hk]; [|by apply Forall_drop].
    destruct (texts_size ts) as [Hcount _]. rewrite Hts, len_app in Hl4. pose proof (len_nonneg tr).
    assert (count <= (len p - (offset + 4)) / 4) by (apply Z.div_le_lower_bound; lia). lia.
  - apply tags_while; [done|done| |lia]. destruct Hr4 as (? & ? & _). unfold len in *. lia.
Qed.

(** [matchesOpusTags] returns, and accepts exactly the comment headers. *)
Lemma matchesOpusTags_spec (p : list Z) : Forall is_byte p -> len p < 2 ^ 32 ->
  exists b, matchesOpusTags p = Ok b /\ (b = true <-> tags_packet p).
Proof.
  intros Hp Hmax. unfold matchesOpusTags.
  destruct (Z.ltb_spec (len p) 16) as [Hs|Hs]; cbn [orb].
  { rejects. intros (v & cs & tr & -> & _). rewrite !len_app, text_field_len, len_bytesLE, len_tags in Hs.
    pose proof (len_nonneg v). pose proof (len_nonneg (concat (text_field <$> cs))). pose proof (len_nonneg tr). lia. }
  destruct (equals (subarray p 0 8) OPUS_TAGS) eqn:Heq; cbn [negb].
  2: { rejects. intros (v & cs & tr & -> & _). rewrite subarray_app_l in Heq by (rewrite ?len_tags; lia).
       by rewrite <- len_tags, subarray_all, (proj2 (equals_true _ _)) in Heq. }
  apply equals_true in Heq. set (l := drop 8 p).
  assert (Hsplit : p = OPUS_TAGS ++ l).
  { rewrite <- Heq. change (subarray p 0 8) with (take 8 p). symmetry. apply take_drop. }
  assert (Hlb : Forall is_byte l) by by apply Forall_drop.
  assert (Hl8 : 8 + len l = len p) by (rewrite Hsplit, len_app, len_tags; lia).
  assert (Hr8 : rest_at p 8 l) by (apply (rest_start p 8); lia).
  rewrite (readUInt32LE_at _ _ _ Hp Hr8) by lia.
  assert (Hv0 : 0 <= uintLE (take 4 l)) by (by apply uintLE_range, Forall_take).
  assert (Hiff : tags_packet p <-> header_parses l) by (rewrite Hsplit at 1; apply tags_packet_parses; [done|lia]).
  setoid_rewrite Hiff. unfold header_parses, parse_text. cbn [mbind exec_bind].
  rewrite (proj2 (Z.leb_le 4 (len l))) by lia. cbn [andb]. set (n := uintLE (take 4 l)) in *.
  assert (H4 : len (drop 4 l) = len l - 4) by (apply (len_drop _ 4); lia).
  destruct (Z.ltb_spec (len p - 16) n) as [Hn|Hn].
  { rejects. intros (v & r & Hv & Hr & _). destruct (Z.leb_spec n (len l - 4)); [|done]. injection Hv as <- <-.
    rewrite len_drop in Hr; lia. }
  rewrite (proj2 (Z.leb_le n _)) by lia. set (r := drop (Z.to_nat n) (drop 4 l)) in *.
  assert (Hr : rest_at p (12 + n) r).
  { replace (12 + n) with (8 + 4 + n) by lia. apply rest_drop; [|lia]. by apply (rest_drop _ _ _ 4); [|lia]. }
  pose proof Hr as (_ & Hlr & _). pose proof (tags_comments p (12 + n) r Hp Hr ltac:(lia)) as Hrun. cbv zeta in *. rewrite Hrun.
  eexists. split; [done|]. rewrite bool_decide_eq_true. split.
  - intros Hs'. eexists _, _. split; [done|]. split; [lia|done].
  - by intros (v & r' & [= <- <-] & _ & ?).
Qed.

(** ** [OggOpusProfile] *)
Inductive Phase := Head | Tags | Audio.
#[export] Instance phase_eq_dec : EqDecision Phase.
Proof. solve_decision. Defined.

(** The object: of [packet] only the first [packetBytes] bytes are ever read, and they are kept. *)
Record OggOpusProfile := {
  serial : option Z;
  phase : Phase;
  packet : list Z;
  audioPackets : Z;
  ended : bool
}.
#[export] Instance settable_OggOpusProfile : Settable OggOpusProfile := fun x =>
  {| serial := serial x; phase := phase x; packet := packet x; audioPackets := audioPackets x; ended := ended x |}.
Definition newProfile : OggOpusProfile :=
  {| serial := None; phase := Head; packet := []; audioPackets := 0; ended := false |}.

Definition isComplete (o : OggOpusProfile) : bool :=
  ended o && bool_decide (phase o = Audio) && (0 <? audioPackets o) && (len (packet o) =? 0).

(** One turn of the loop over [lacing]; the state is [(this, index, bodyOffset, completedOnPage)]. *)
Definition lacing_body (lacing body : list Z) (granule : Z) (s : OggOpusProfile * Z * Z * bool)
    : parser (flow (OggOpusProfile * Z * Z * bool) (option OggOpusProfile)) :=
  let '(this, index, bodyOffset, completedOnPage) := s in
  let length := at0 lacing index in
  let limit := if bool_decide (phase this = Tags) then MAX_TAG_BYTES else MAX_AUDIO_PACKET_BYTES in
  if limit <? len (packet this) + length then Ok (Return None) else
  let this := this <| packet := packet this ++ subarray body bodyOffset (bodyOffset + length) |> in
  let bodyOffset := bodyOffset + length in
  if length =? 255 then Ok (Continue (this, index + 1, bodyOffset, completedOnPage)) else
  this ← (if bool_decide (phase this = Tags) then
            if negb (index =? len lacing - 1) || negb (granule =? 0) then Ok None else
            matches ← matchesOpusTags (packet this);
            Ok (if matches : bool then Some (this <| phase := Audio |>) else None)
          else
            if MAX_AUDIO_PACKETS <=? audioPackets this then Ok None else
            matches ← matchesOpusPacketFraming (packet this);
            Ok (if matches : bool then Some (this <| audioPackets := audioPackets this + 1 |>) else None));
  Ok match this with
     | None => Return None
     | Some this => Continue (this <| packet := [] |>, index + 1, bodyOffset, true)
     end.

(** [None] is the answer [false]; the only caller drops the profile with the file then. *)
Definition acceptPage (this : OggOpusProfile) (page : list Z) : parser (option OggOpusProfile) :=
  if ended this || (len page <? 27) then Ok None else
  let segmentCount := at0 page 26 in
  if len page <? 27 + segmentCount then Ok None else
  serial' ← readUInt32LE page 14;
  if (match serial this with Some s => negb (serial' =? s) | None => false end) then Ok None else
  let this := this <| serial := Some serial' |> in
  let flags := at0 page 5 in
  granule ← readBigInt64LE page 6;
  let lacing := subarray page 27 (27 + segmentCount) in
  let body := subarray page (27 + segmentCount) (len page) in
  if negb (sum_list lacing =? len body) then Ok None else
  if bool_decide (phase this = Head) then
    if negb (flags =? 0x02) || negb (granule =? 0) || negb (segmentCount =? 1) || negb (at0 lacing 0 =? 19) ||
       negb (equals (subarray body 0 8) OPUS_HEAD) || negb (at0 body 8 =? 1) || negb (at0 body 9 =? 1) ||
       negb (at0 body 18 =? 0)
    then Ok None else Ok (Some (this <| phase := Tags |>))
  else
  if segmentCount =? 0 then Ok None else
  out ← while (S (length lacing)) (fun s => s.1.1.2 <? len lacing) (lacing_body lacing body granule)
          (this, 0, 0, false);
  match out with
  | Return r => Ok r
  | Continue (this, _, _, completedOnPage) =>
      if (negb completedOnPage && negb (granule =? -1)) || (completedOnPage && (granule <? 0)) then Ok None else
      let this := this <| ended := negb (Z.land flags 0x04 =? 0) |> in
      Ok (if negb (ended this) || isComplete this then Some this else None)
  end.

(** ** Pages and the packets on them *)
Definition page_flags (p : list Z) : Z := at0 p 5.
Definition page_granule (p : list Z) : Z :=
  let u := uintLE (subarray p 6 14) in if u <? 2 ^ 63 then u else u - 2 ^ 64.
Definition page_serial (p : list Z) : Z := uintLE (subarray p 14 18).
Definition page_sequence (p : list Z) : Z := uintLE (subarray p 18 22).
Definition page_lacing (p : list Z) : list Z := subarray p 27 (27 + at0 p 26).
Definition page_body (p : list Z) : list Z := subarray p (27 + at0 p 26) (len p).

(** A page as far as its segment table goes: the table and the body it announces. *)
Definition whole_page (p : list Z) : Prop :=
  Forall is_byte p /\ 27 + at0 p 26 <= len p /\ sum_list (page_lacing p) = len (page_body p).

(** The body cut by the segment table. *)
Fixpoint cut (lacing body : list Z) : list (list Z) :=
  match lacing with
  | [] => []
  | n :: lacing => take (Z.to_nat n) body :: cut lacing (drop (Z.to_nat n) body)
  end.
Definition segments (p : list Z) : list (list Z) := cut (page_lacing p) (page_body p).

(** Packets put together: a segment of 255 bytes is continued by the next one.  The result is
    the complete packets and what there is of the last one. *)
Definition add_segment (s : list (list Z) * list Z) (segment : list Z) : list (list Z) * list Z :=
  let packet := s.2 ++ segment in
  if len segment =? 255 then (s.1, packet) else (s.1 ++ [packet], []).
Definition packets_of (segments : list (list Z)) : list (list Z) * list Z := foldl add_segment ([], []) segments.
Definition pages_packets (pages : list (list Z)) : list (list Z) * list Z := packets_of (concat (segments <$> pages)).

(** The identification header: version 1, one channel, mapping family 0, alone on its page. *)
Definition head_page (p : list Z) : Prop :=
  page_flags p = 0x02 /\ page_granule p = 0 /\ page_lacing p = [19] /\
  subarray (page_body p) 0 8 = OPUS_HEAD /\ at0 (page_body p) 8 = 1 /\ at0 (page_body p) 9 = 1 /\ at0 (page_body p) 18 = 0.

(** A page after it has segments; it has a time stamp when a packet ends on it, and else -1. *)
Definition data_page (p : list Z) : Prop :=
  page_lacing p <> [] /\
  if existsb (fun n => negb (n =? 255)) (page_lacing p) then 0 <= page_granule p else page_granule p = -1.

(** What an Ogg Opus file of the profile carries: the header, the comments, which end their page
    and are stamped 0, and then audio packets. *)
Definition opus_stream (pages : list (list Z)) : Prop :=
  exists head rest, pages = head :: rest /\ head_page head /\ Forall data_page rest /\
    (forall p, p ∈ rest -> page_serial p = page_serial head) /\
    exists tags audio, pages_packets rest = (tags :: audio, []) /\
      len tags <= MAX_TAG_BYTES /\ tags_packet tags /\
      Forall admitted_packet audio /\ 0 < Z.of_nat (length audio) <= MAX_AUDIO_PACKETS /\
      (exists before p after, rest = before ++ p :: after /\ page_granule p = 0 /\
        (pages_packets before).1 = [] /\ pages_packets (before ++ [p]) = ([tags], [])) /\
      exists init last, rest = init ++ [last] /\ Z.land (page_flags last) 0x04 <> 0 /\
        Forall (fun p => Z.land (page_flags p) 0x04 = 0) init.

(** ** The loop over the segments of a page *)
Definition packets_ok (s : list (list Z) * list Z) : Prop :=
  match s.1 with
  | [] => len s.2 <= MAX_TAG_BYTES
  | tags :: audio =>
      len tags <= MAX_TAG_BYTES /\ tags_packet tags /\ Forall admitted_packet audio /\
      Z.of_nat (length audio) <= MAX_AUDIO_PACKETS /\ len s.2 <= MAX_AUDIO_PACKET_BYTES
  end.
(** The object between two segments. *)
Definition holds (o : OggOpusProfile) (s : list (list Z) * list Z) : Prop :=
  packet o = s.2 /\
  match s.1 with
  | [] => phase o = Tags /\ audioPackets o = 0
  | _ :: audio => phase o = Audio /\ audioPackets o = Z.of_nat (length audio)
  end.
(** The comments, when they end here, end the page. *)
Definition tags_end (granule : Z) (s s' : list (list Z) * list Z) : Prop :=
  s.1 = [] -> s'.1 <> [] -> granule = 0 /\ exists tags, s' = ([tags], []).

Lemma add_segment_grows s x : exists more, (add_segment s x).1 = s.1 ++ more.
Proof. unfold add_segment. case_match; cbn; [exists []; by rewrite app_nil_r|by eexists]. Qed.

Lemma add_segments_grow xs : forall s, exists more, (foldl add_segment s xs).1 = s.1 ++ more.
Proof.
  induction xs as [|x xs IH]; intros s; cbn; [exists []; by rewrite app_nil_r|].
  destruct (IH (add_segment s x)) as [m ->]. destruct (add_segment_grows s x) as [m' ->]. exists (m' ++ m). by rewrite app_assoc.
Qed.

Lemma packets_ok_before s x : packets_ok (add_segment s x) -> packets_ok s.
Proof.
  unfold packets_ok, add_segment. destruct s as [P c]. cbn [fst snd]. pose proof (len_nonneg x).
  destruct (len x =? 255); cbn [fst snd].
  - rewrite len_app. destruct P; [lia|]. intros (? & ? & ? & ? & ?). repeat split; (done || lia).
  - destruct P as [|tags audio]; cbn [app].
    + rewrite len_app. intros (? & _). lia.
    + intros (? & ? & [? Hlast]%Forall_app & Hn & _). apply Forall_cons_1 in Hlast as [[Hl _] _].
      rewrite len_app in Hl. rewrite length_app in Hn. cbn in Hn. repeat split; (done || lia).
Qed.

Lemma packets_ok_prefix xs : forall s, packets_ok (foldl add_segment s xs) -> packets_ok s.
Proof. induction xs as [|x xs IH]; intros s H; [done|]. cbn in H. by apply IH, packets_ok_before in H. Qed.

(** Every segment shows. *)
Definition weight (s : list (list Z) * list Z) : Z := sum_list ((fun p => 1 + len p) <$> s.1) + len s.2.

Lemma sum_app l1 l2 : sum_list (l1 ++ l2) = sum_list l1 + sum_list l2.
Proof. induction l1 as [|x l1 IH]; [done|]. change (x + sum_list (l1 ++ l2) = x + sum_list l1 + sum_list l2). lia. Qed.

Lemma weight_segment s x : weight s < weight (add_segment s x).
Proof.
  unfold weight, add_segment. pose proof (len_nonneg x). destruct (Z.eqb_spec (len x) 255); cbn [fst snd].
  - rewrite len_app. lia.
  - rewrite fmap_app, sum_app. change (len []) with 0.
    change (sum_list ((fun p => 1 + len p) <$> [s.2 ++ x])) with (1 + len (s.2 ++ x) + 0). rewrite len_app. lia.
Qed.

Lemma weight_segments xs : forall s, weight s <= weight (foldl add_segment s xs).
Proof.
  induction xs as [|x xs IH]; intros s; [done|]. cbn. pose proof (weight_segment s x).
  pose proof (IH (add_segment s x)). lia.
Qed.

Lemma len_cut_head n b : 0 <= n <= len b -> len (take (Z.to_nat n) b) = n.
Proof. intros Hn. unfold len in *. rewrite length_take. lia. Qed.

(** What the rest of a page, [l] and [b] of its table and body, must bring from [s]. *)
Definition page_rest (granule : Z) (s : list (list Z) * list Z) (l b : list Z) : Prop :=
  let s' := foldl add_segment s (cut l b) in packets_ok s' /\ tags_end granule s s'.

Section lacing.
Context (lacing body : list Z) (granule : Z).
Hypothesis Hlacing : Forall is_byte lacing.
Hypothesis Hbody : Forall is_byte body.


(** The state after one segment, or the refusal. *)
Definition segment_step (o : OggOpusProfile) (s : list (list Z) * list Z) (last : bool) (x : list Z) (o' : option OggOpusProfile) : Prop :=
  let s1 := add_segment s x in
  match o' with
  | Some o' => holds o' s1 /\ serial o' = serial o /\ ended o' = ended o /\ packets_ok s1 /\
      (s.1 = [] -> s1.1 <> [] -> granule = 0 /\ last = true /\ exists tags, s1 = ([tags], []))
  | None => ~ packets_ok s1 \/ (s.1 = [] /\ s1.1 <> [] /\ (granule <> 0 \/ last = false))
  end.

Lemma completes s x : len x <> 255 -> add_segment s x = (s.1 ++ [s.2 ++ x], []).
Proof. intros Hx. unfold add_segment. by rewrite (proj2 (Z.eqb_neq _ _)). Qed.

Lemma lacing_body_spec o index offset completed s n l b :
  holds o s -> packets_ok s -> Forall is_byte s.2 -> is_byte n -> n <= len b ->
  at0 lacing index = n -> rest_at body offset b -> len lacing = index + 1 + len l ->
  exists out, lacing_body lacing body granule (o, index, offset, completed) = Ok out /\
    match out with
    | Continue (o', index', offset', completed') =>
        segment_step o s (bool_decide (l = [])) (take (Z.to_nat n) b) (Some o') /\
        index' = index + 1 /\ offset' = offset + n /\ completed' = completed || negb (n =? 255)
    | Return r => r = None /\ segment_step o s (bool_decide (l = [])) (take (Z.to_nat n) b) None
    end.
Proof.
  intros [Hc Hph] Hok Hs2 Hn Hnb Hat Hr Hlen. destruct s as [P c]. cbn [fst snd] in *. unfold is_byte in Hn.
  unfold lacing_body. rewrite Hat, (rest_take _ _ _ _ Hr), Hc by lia.
  pose proof (len_cut_head n b ltac:(lia)) as Hx. set (x := take (Z.to_nat n) b) in *.
  assert (Hxb : Forall is_byte x).
  { unfold x. apply Forall_take. destruct Hr as (_ & _ & <-). by apply Forall_drop. }
  assert (Hcx : Forall is_byte (c ++ x)) by by apply Forall_app.
  assert (Hlast : (index =? len lacing - 1) = bool_decide (l = [])).
  { rewrite Hlen. destruct l as [|y l]; [rewrite bool_decide_true by done; apply Z.eqb_eq; change (len []) with 0; lia|].
    rewrite bool_decide_false by done. apply Z.eqb_neq. rewrite len_cons. pose proof (len_nonneg l). lia. }
  unfold segment_step.
  destruct (Z.eq_dec n 255) as [H255|Hne].
  - (* the packet goes on *)
    assert (Hadd : add_segment (P, c) x = (P, c ++ x)) by (unfold add_segment; by rewrite Hx, H255).
    rewrite Hadd. replace (n =? 255) with true by (symmetry; by apply Z.eqb_eq). unfold packets_ok. cbn [fst snd].
    rewrite len_app, Hx. destruct P as [|tags audio].
    + destruct Hph as [Hp Ha]. rewrite Hp, (bool_decide_true (Tags = Tags)) by done.
      destruct (Z.ltb_spec MAX_TAG_BYTES (len c + n)).
      * eexists. split; [done|]. split; [done|]. left. lia.
      * eexists. split; [done|]. cbn. unfold holds. cbn. repeat split; (done || lia || congruence || by destruct completed).
    + destruct Hph as [Hp Ha]. rewrite Hp, (bool_decide_false (Audio = Tags)) by done.
      destruct (Z.ltb_spec MAX_AUDIO_PACKET_BYTES (len c + n)).
      * eexists. split; [done|]. split; [done|]. left. lia.
      * destruct Hok as (? & ? & ? & ? & ?). eexists. split; [done|]. cbn. unfold holds. cbn.
        repeat split; (done || lia || by destruct completed).
  - rewrite (proj2 (Z.eqb_neq n 255)) by done. rewrite completes by (by rewrite Hx). cbn [fst snd].
    destruct P as [|tags audio]; cbn [app].
    + destruct Hph as [Hp Ha]. rewrite Hp, (bool_decide_true (Tags = Tags)) by done. unfold packets_ok; cbn [fst snd].
      rewrite len_app, Hx. destruct (Z.ltb_spec MAX_TAG_BYTES (len c + n)).
      { eexists. split; [done|]. split; [done|]. left. lia. }
      change (phase (o <| packet := c ++ x |>)) with (phase o). rewrite Hp, (bool_decide_true (Tags = Tags)), Hlast by done.
      destruct (bool_decide_reflect (l = [])); cbn [negb orb].
      2: { eexists. split; [done|]. split; [done|]. right. repeat split; (done || by right). }
      destruct (Z.eqb_spec granule 0); cbn [negb].
      2: { eexists. split; [done|]. split; [done|]. right. repeat split; (done || by left). }
      change (packet (o <| packet := c ++ x |>)) with (c ++ x).
      destruct (matchesOpusTags_spec (c ++ x)) as (m & -> & Hm); [done|rewrite len_app, Hx; unfold MAX_TAG_BYTES in *; lia|].
      destruct m; cbn [mbind exec_bind].
      * eexists. split; [done|]. cbn. unfold holds. cbn. split; [|by destruct completed].
        split; [by rewrite Ha|]. split; [done|]. split; [done|]. split.
        { split; [done|]. split; [by apply Hm|]. repeat split; (done || by constructor). }
        intros _ _. repeat split; [done|]. eauto.
      * eexists. split; [done|]. split; [done|]. left. intros (_ & Ht & _). by apply Hm in Ht.
    + destruct Hph as [Hp Ha]. rewrite Hp, (bool_decide_false (Audio = Tags)) by done. unfold packets_ok in *; cbn [fst snd] in *.
      destruct Hok as (H1 & H2 & H3 & H4 & H5). rewrite length_app. cbn [length].
      assert (Hadm : Forall admitted_packet (audio ++ [c ++ x]) <-> admitted_packet (c ++ x)).
      { rewrite Forall_app, Forall_singleton. tauto. }
      destruct (Z.ltb_spec MAX_AUDIO_PACKET_BYTES (len c + n)).
      { eexists. split; [done|]. split; [done|]. left. rewrite Hadm. intros (_ & _ & [Hl _] & _). rewrite len_app in Hl. lia. }
      change (phase (o <| packet := c ++ x |>)) with (phase o). rewrite Hp, (bool_decide_false (Audio = Tags)) by done.
      change (audioPackets (o <| packet := c ++ x |>)) with (audioPackets o). rewrite Ha.
      destruct (Z.leb_spec MAX_AUDIO_PACKETS (Z.of_nat (length audio))).
      { eexists. split; [done|]. split; [done|]. left. intros (_ & _ & _ & Hl & _). lia. }
      change (packet (o <| packet := c ++ x |>)) with (c ++ x).
      destruct (matchesOpusPacketFraming_spec (c ++ x) Hcx) as (m & -> & Hm).
      destruct m; cbn [mbind exec_bind].
      * eexists. split; [done|]. cbn. unfold holds. cbn. split; [|by destruct completed].
        rewrite length_app, Hadm. cbn [length]. split; [repeat split; (done || lia)|]. split; [done|]. split; [done|].
        split; [|done]. split; [done|]. split; [done|]. split; [by apply Hm|]. split; [lia|]. done.
      * eexists. split; [done|]. split; [done|]. left. rewrite Hadm. intros (_ & _ & Ht & _). by apply Hm in Ht.
Qed.

Lemma first_packet s x : s.1 = [] -> (add_segment s x).1 <> [] -> add_segment s x = ([s.2 ++ x], []).
Proof. unfold add_segment. intros Hs Hx. destruct (len x =? 255); cbn in *; [by rewrite Hs in Hx|by rewrite Hs]. Qed.

(** A refused segment refuses the page. *)
Lemma segment_refused o s n l b : segment_step o s (bool_decide (l = [])) (take (Z.to_nat n) b) None -> ~ page_rest granule s (n :: l) b.
Proof.
  unfold page_rest. cbn [cut foldl]. set (x := take (Z.to_nat n) b). set (b' := drop (Z.to_nat n) b).
  intros [Hno|(Hs & Hx & Hbad)] [Hok Htags].
  - by apply packets_ok_prefix in Hok.
  - destruct (add_segments_grow (cut l b') (add_segment s x)) as [more Hm].
    destruct Htags as [Hg [tags Heq]]; [done|by rewrite Hm; destruct (add_segment s x).1|].
    destruct Hbad as [?|Hl]; [done|]. apply bool_decide_eq_false in Hl.
    rewrite Heq in Hm. rewrite (first_packet _ _ Hs Hx) in Hm, Heq. cbn in Hm. injection Hm as -> <-.
    destruct l as [|m l]; [done|]. cbn [cut foldl] in Heq.
    pose proof (weight_segment ([s.2 ++ x], []) (take (Z.to_nat m) b')) as W1.
    pose proof (weight_segments (cut l (drop (Z.to_nat m) b')) (add_segment ([s.2 ++ x], []) (take (Z.to_nat m) b'))) as W2.
    rewrite Heq in W2. lia.
Qed.

(** An accepted segment leaves the rest of the page to decide. *)
Lemma segment_accepted o o' s n l b : segment_step o s (bool_decide (l = [])) (take (Z.to_nat n) b) (Some o') ->
  page_rest granule s (n :: l) b <-> page_rest granule (add_segment s (take (Z.to_nat n) b)) l (drop (Z.to_nat n) b).
Proof.
  unfold page_rest. cbn [cut foldl]. set (x := take (Z.to_nat n) b). set (b' := drop (Z.to_nat n) b).
  intros (_ & _ & _ & _ & Hend). apply and_iff_compat_l. unfold tags_end. split.
  - intros Ht Hs1. apply Ht. destruct (add_segment_grows s x) as [m Hm]. rewrite Hm in Hs1. by apply app_nil in Hs1 as [-> _].
  - intros Ht Hs Hs'. destruct (decide ((add_segment s x).1 = [])) as [H1|H1]; [by apply Ht|].
    destruct (Hend Hs H1) as (Hg & Hl & tags & Heq). apply bool_decide_eq_true in Hl as ->. split; [done|].
    exists tags. exact Heq.
Qed.

Lemma lacing_while l : forall fuel o s index offset completed b,
  holds o s -> packets_ok s -> Forall is_byte s.2 -> rest_at body offset b -> rest_at lacing index l ->
  sum_list l = len b -> (length l < fuel)%nat ->
  exists out, while fuel (fun s => s.1.1.2 <? len lacing) (lacing_body lacing body granule) (o, index, offset, completed) = Ok out /\
    match out with
    | Continue (o', _, _, completed') =>
        holds o' (foldl add_segment s (cut l b)) /\ serial o' = serial o /\ ended o' = ended o /\
        page_rest granule s l b /\ completed' = completed || existsb (fun n => negb (n =? 255)) l
    | Return r => r = None /\ ~ page_rest granule s l b
    end.
Proof.
  induction l as [|n l IH]; intros fuel o s index offset completed b Hh Hok Hb Hr Hl Hsum Hf.
  - apply rest_nil in Hl. eexists. split.
    + destruct fuel; cbn [while fst snd]; by rewrite (proj2 (Z.ltb_ge _ _)) by lia.
    + cbn [cut foldl existsb]. rewrite orb_false_r. do 3 (split; [done|]). split; [|done]. split; [exact Hok|].
      intros Hs Hs'. done.
  - destruct fuel as [|fuel]; [cbn in Hf; lia|].
    pose proof (rest_cons _ Hlacing _ _ _ Hl) as (Hat & Hn & Hl'). pose proof Hl' as (_ & Hlen & _).
    assert (Hlb : Forall is_byte l) by (destruct Hl' as (_ & _ & <-); by apply Forall_drop).
    change (sum_list (n :: l)) with (n + sum_list l) in Hsum.
    assert (0 <= sum_list l).
    { clear -Hlb. induction Hlb as [|z l Hz Hlb IH]; [done|]. change (sum_list (z :: l)) with (z + sum_list l).
      unfold is_byte in Hz. lia. }
    cbn [while fst snd]. rewrite (proj2 (Z.ltb_lt _ _)) by (pose proof (len_nonneg l); lia).
    destruct (lacing_body_spec o index offset completed s n l b) as (out & -> & Hout); try done; [lia..|].
    cbn [mbind exec_bind]. destruct out as [[[[o' index'] offset'] completed']|r].
    + destruct Hout as (Hstep & -> & -> & ->). unfold is_byte in Hn.
      pose proof Hstep as (Hh' & Hser & Hend & Hok' & _).
      destruct (IH fuel o' (add_segment s (take (Z.to_nat n) b)) (index + 1) (offset + n) (completed || negb (n =? 255))
        (drop (Z.to_nat n) b)) as (out & Hrun & Hout); try done.
      * assert (Forall is_byte (take (Z.to_nat n) b)).
        { apply Forall_take. destruct Hr as (_ & _ & <-). by apply Forall_drop. }
        unfold add_segment. case_match; cbn; [by apply Forall_app|done].
      * apply rest_drop; [done|lia].
      * rewrite len_drop; lia.
      * cbn in Hf. lia.
      * exists out. split; [exact Hrun|]. destruct out as [[[[o2 ?] ?] completed2]|r].
        -- destruct Hout as (? & ? & ? & ? & ->). cbn [cut foldl existsb]. rewrite (segment_accepted _ _ _ _ _ _ Hstep), orb_assoc.
           repeat (split; [congruence || done|]). done.
        -- by rewrite (segment_accepted _ _ _ _ _ _ Hstep).
    + destruct Hout as [-> Hstep]. eexists. split; [done|]. split; [done|]. by eapply segment_refused.
Qed.
End lacing.

(** ** The profile between two pages *)
Definition last_page (p : list Z) : Prop := Z.land (page_flags p) 0x04 <> 0.
#[export] Instance last_page_dec p : Decision (last_page p).
Proof. unfold last_page. apply _. Defined.
Definition tags_page (rest : list (list Z)) : Prop :=
  (pages_packets rest).1 = [] \/
  exists before p after tags, rest = before ++ p :: after /\ page_granule p = 0 /\
    (pages_packets before).1 = [] /\ pages_packets (before ++ [p]) = ([tags], []).
Definition rest_ok (rest : list (list Z)) : Prop :=
  Forall data_page rest /\ packets_ok (pages_packets rest) /\ tags_page rest.
Definition ending (o : OggOpusProfile) (rest : list (list Z)) : Prop :=
  (ended o = false /\ Forall (fun p => ~ last_page p) rest) \/
  (isComplete o = true /\ exists init last, rest = init ++ [last] /\ last_page last /\ Forall (fun p => ~ last_page p) init).
Definition stage (o : OggOpusProfile) (pages : list (list Z)) : Prop :=
  match pages with
  | [] => o = newProfile
  | head :: rest =>
      serial o = Some (page_serial head) /\ head_page head /\ (forall p, p ∈ rest -> page_serial p = page_serial head) /\
      rest_ok rest /\ holds o (pages_packets rest) /\ ending o rest
  end.

Lemma pages_packets_snoc rest p :
  pages_packets (rest ++ [p]) = foldl add_segment (pages_packets rest) (cut (page_lacing p) (page_body p)).
Proof.
  unfold pages_packets, packets_of. rewrite fmap_app, concat_app, foldl_app. cbn. by rewrite app_nil_r.
Qed.

Lemma pages_packets_grow more : forall rest, exists P, (pages_packets (rest ++ more)).1 = (pages_packets rest).1 ++ P.
Proof.
  induction more as [|p more IH]; intros rest; [exists []; by rewrite !app_nil_r|].
  replace (rest ++ p :: more) with ((rest ++ [p]) ++ more) by (by rewrite <- app_assoc).
  destruct (IH (rest ++ [p])) as [P ->]. rewrite pages_packets_snoc.
  destruct (add_segments_grow (cut (page_lacing p) (page_body p)) (pages_packets rest)) as [P' ->].
  exists (P' ++ P). by rewrite app_assoc.
Qed.

Lemma rest_ok_snoc rest p :
  rest_ok (rest ++ [p]) <->
  rest_ok rest /\ data_page p /\ page_rest (page_granule p) (pages_packets rest) (page_lacing p) (page_body p).
Proof.
  unfold rest_ok, page_rest. rewrite <- pages_packets_snoc, Forall_app, Forall_singleton. split.
  - intros ([Hd Hp] & Hok & Ht). split; [split; [done|]|split; [done|split; [done|]]].
    + split; [rewrite pages_packets_snoc in Hok; by apply packets_ok_prefix in Hok|].
      destruct Ht as [Ht|(before & q & after & tags & Heq & Hq)].
      * left. destruct (pages_packets_grow [p] rest) as [P HP]. rewrite HP in Ht. by apply app_nil in Ht as [? _].
      * destruct after as [|r after _] using rev_ind.
        { apply app_inj_tail in Heq as [-> ->]. left. apply Hq. }
        rewrite app_comm_cons, app_assoc in Heq. apply app_inj_tail in Heq as [-> ->].
        right. exists before, q, after, tags. done.
    + intros Hs Hs'. destruct Ht as [Ht|(before & q & after & tags & Heq & Hg & Hb & Hq)]; [done|].
      destruct after as [|r after _] using rev_ind.
      { apply app_inj_tail in Heq as [-> ->]. split; [done|]. by exists tags. }
      rewrite app_comm_cons, app_assoc in Heq. apply app_inj_tail in Heq as [-> ->].
      destruct (pages_packets_grow after (before ++ [q])) as [P HP].
      rewrite <- app_assoc in HP. cbn [app] in HP. rewrite HP, Hq in Hs. done.
  - intros ((Hd & Hok & Ht) & Hp & Hok' & Hend). split; [done|]. split; [done|].
    destruct Ht as [Ht|(before & q & after & tags & -> & Hq)].
    + destruct (decide ((pages_packets (rest ++ [p])).1 = [])) as [?|Hne]; [by left|].
      destruct (Hend Ht Hne) as [Hg [tags Htags]]. right. exists rest, p, [], tags. done.
    + right. exists before, q, (after ++ [p]), tags. rewrite <- app_assoc. done.
Qed.

Lemma lacing_existsb l : existsb (fun n => negb (n =? 255)) l = false <-> Forall (fun n => n = 255) l.
Proof.
  induction l as [|n l IH]; cbn; [by split|]. rewrite orb_false_iff, IH, negb_false_iff, Z.eqb_eq, Forall_cons. done.
Qed.

Lemma holds_irrelevant o o' s : packet o' = packet o -> phase o' = phase o -> audioPackets o' = audioPackets o ->
  holds o s -> holds o' s.
Proof. unfold holds. intros -> -> ->. done. Qed.

Lemma holds_phase o s : holds o s -> phase o <> Head.
Proof. unfold holds. intros [_ H]. destruct s.1; destruct H as [-> _]; done. Qed.

(** What [acceptPage] reads of a whole page. *)
Lemma acceptPage_fields (o : OggOpusProfile) p : whole_page p -> ended o = false ->
  acceptPage o p =
    if (match serial o with Some s => negb (page_serial p =? s) | None => false end) then Ok None else
    let this := o <| serial := Some (page_serial p) |> in
    if bool_decide (phase o = Head) then
      if negb (page_flags p =? 0x02) || negb (page_granule p =? 0) || negb (at0 p 26 =? 1) || negb (at0 (page_lacing p) 0 =? 19) ||
         negb (equals (subarray (page_body p) 0 8) OPUS_HEAD) || negb (at0 (page_body p) 8 =? 1) ||
         negb (at0 (page_body p) 9 =? 1) || negb (at0 (page_body p) 18 =? 0)
      then Ok None else Ok (Some (this <| phase := Tags |>))
    else
    if at0 p 26 =? 0 then Ok None else
    out ← while (S (length (page_lacing p))) (fun s => s.1.1.2 <? len (page_lacing p))
            (lacing_body (page_lacing p) (page_body p) (page_granule p)) (this, 0, 0, false);
    match out with
    | Return r => Ok r
    | Continue (this, _, _, completedOnPage) =>
        if (negb completedOnPage && negb (page_granule p =? -1)) || (completedOnPage && (page_granule p <? 0)) then Ok None else
        let this := this <| ended := negb (Z.land (page_flags p) 0x04 =? 0) |> in
        Ok (if negb (ended this) || isComplete this then Some this else None)
    end.
Proof.
  intros (Hb & Hlen & Hsum) Hend. unfold acceptPage. rewrite Hend.
  assert (H26 : 0 <= at0 p 26) by (apply is_byte_at0; done).
  rewrite (proj2 (Z.ltb_ge (len p) 27)), (proj2 (Z.ltb_ge (len p) (27 + at0 p 26))) by lia. cbn [orb].
  unfold readUInt32LE, readBigInt64LE. rewrite !read_fixed_ok by lia. cbn [mbind exec_bind].
  change (14 + 4) with 18. change (6 + 8) with 14. fold (page_serial p). fold (page_granule p). fold (page_flags p).
  fold (page_lacing p). fold (page_body p). rewrite (proj2 (Z.eqb_eq _ _) Hsum).
  destruct (match serial o with Some s => negb (page_serial p =? s) | None => false end); [done|].
  change (phase (o <| serial := Some (page_serial p) |>)) with (phase o). done.
Qed.

Lemma whole_lacing p : whole_page p -> len (page_lacing p) = at0 p 26 /\ Forall is_byte (page_lacing p) /\ Forall is_byte (page_body p).
Proof.
  intros (Hb & Hlen & _). assert (H26 : 0 <= at0 p 26) by (apply is_byte_at0; done).
  unfold page_lacing, page_body. split; [rewrite len_subarray; lia|]. split; by apply Forall_subarray.
Qed.

Lemma cut_bytes l : forall b, Forall is_byte b -> Forall (Forall is_byte) (cut l b).
Proof. induction l as [|n l IH]; intros b Hb; cbn; constructor; [by apply Forall_take|]. by apply IH, Forall_drop. Qed.

Lemma segments_bytes xs : forall s, Forall is_byte s.2 -> Forall (Forall is_byte) xs -> Forall is_byte (foldl add_segment s xs).2.
Proof.
  induction xs as [|x xs IH]; intros s Hs Hx; [done|]. apply Forall_cons_1 in Hx as [Hx Hxs]. cbn. apply IH; [|done].
  unfold add_segment. case_match; cbn; [by apply Forall_app|done].
Qed.

Lemma pages_bytes rest : Forall whole_page rest -> Forall is_byte (pages_packets rest).2.
Proof.
  intros Hw. apply segments_bytes; [done|]. induction Hw as [|p rest Hp Hw IH]; [done|]. cbn. apply Forall_app. split; [|done].
  apply cut_bytes. by apply whole_lacing.
Qed.

Lemma head_page_test p : whole_page p ->
  negb (page_flags p =? 0x02) || negb (page_granule p =? 0) || negb (at0 p 26 =? 1) || negb (at0 (page_lacing p) 0 =? 19) ||
  negb (equals (subarray (page_body p) 0 8) OPUS_HEAD) || negb (at0 (page_body p) 8 =? 1) ||
  negb (at0 (page_body p) 9 =? 1) || negb (at0 (page_body p) 18 =? 0) = false <-> head_page p.
Proof.
  intros Hw. apply whole_lacing in Hw as (Hl & _ & _). unfold head_page.
  rewrite !orb_false_iff, !negb_false_iff, !Z.eqb_eq, equals_true.
  assert (Hlac : at0 p 26 = 1 /\ at0 (page_lacing p) 0 = 19 <-> page_lacing p = [19]).
  { split.
    - intros [H1 H2]. rewrite H1 in Hl. destruct (page_lacing p) as [|n [|m l]]; [done| |].
      + change (n = 19) in H2. by subst n.
      + rewrite !len_cons in Hl. pose proof (len_nonneg l). lia.
    - intros E. rewrite E in Hl |- *. split; [by rewrite <- Hl|done]. }
  rewrite <- Hlac. tauto.
Qed.

Lemma stage_first o p : whole_page p -> stage o [p] <->
  head_page p /\ serial o = Some (page_serial p) /\ phase o = Tags /\ packet o = [] /\ audioPackets o = 0 /\ ended o = false.
Proof.
  intros Hw. cbn. unfold holds, ending. split.
  - intros (Hs & Hh & _ & _ & (Hp & Hph & Ha) & Hend). repeat (split; [done|]).
    destruct Hend as [[? _]|(_ & init & last & Heq & _)]; [done|]. by destruct init.
  - intros (Hh & Hs & Hph & Hp & Ha & He). split; [done|]. split; [done|]. split; [intros q Hq; by apply not_elem_of_nil in Hq|].
    split; [split; [done|split; [done|by left]]|]. split; [done|]. left. by split.
Qed.

Lemma acceptPage_first p : whole_page p ->
  exists r, acceptPage newProfile p = Ok r /\
    match r with Some o' => stage o' [p] | None => forall o', ~ stage o' [p] end.
Proof.
  intros Hw. rewrite acceptPage_fields by done. cbn [serial newProfile phase]. cbv zeta.
  rewrite (bool_decide_true (Head = Head)) by done. pose proof (head_page_test p Hw) as Ht.
  match type of Ht with ?b = false <-> _ => destruct b end; (eexists; split; [done|]).
  - intros o' Ho. apply stage_first in Ho as [Hh _]; [|done]. by apply Ht in Hh.
  - apply stage_first; [done|]. split; [by apply Ht|done].
Qed.

Lemma last_page_flag p : negb (Z.land (page_flags p) 0x04 =? 0) = bool_decide (last_page p).
Proof.
  unfold last_page. case_bool_decide as H; [by rewrite (proj2 (Z.eqb_neq _ _))|].
  destruct (Z.eqb_spec (Z.land (page_flags p) 0x04) 0); [done|contradiction].
Qed.

Lemma ending_snoc o rest p : Forall (fun p => ~ last_page p) rest ->
  (ended o = bool_decide (last_page p) /\ (ended o = true -> isComplete o = true)) <-> ending o (rest ++ [p]).
Proof.
  intros Hr. unfold ending. rewrite Forall_app, Forall_singleton. split.
  - intros [He Hc]. destruct (decide (last_page p)) as [Hl|Hl].
    + rewrite bool_decide_true in He by done. right. split; [by apply Hc|]. by exists rest, p.
    + rewrite bool_decide_false in He by done. left. done.
  - intros [[He [_ Hl]]|(Hc & init & last & Heq & Hl & _)].
    + rewrite bool_decide_false by done. by rewrite He.
    + apply app_inj_tail in Heq as [<- <-]. rewrite bool_decide_true by done. split; [|done].
      unfold isComplete in Hc. by destruct (ended o).
Qed.

Lemma ending_over o o' rest p : ending o rest -> ended o = true -> ~ ending o' (rest ++ [p]).
Proof.
  intros [[He _]|(_ & init & last & -> & Hl & _)] Ht; [congruence|]. unfold ending. rewrite !Forall_app, !Forall_singleton.
  intros [(_ & [_ ?] & _)|(_ & init' & last' & Heq & _ & Hi)]; [done|].
  apply app_inj_tail in Heq as [<- _]. apply Forall_app in Hi as [_ Hi]. apply Forall_inv in Hi. exact (Hi Hl).
Qed.

Lemma data_page_test p : data_page p <->
  page_lacing p <> [] /\ (negb (existsb (fun n => negb (n =? 255)) (page_lacing p)) && negb (page_granule p =? -1)) ||
    (existsb (fun n => negb (n =? 255)) (page_lacing p) && (page_granule p <? 0)) = false.
Proof.
  unfold data_page. apply and_iff_compat_l. destruct (existsb _ _); cbn [negb andb orb].
  - by rewrite Z.ltb_ge.
  - by rewrite orb_false_r, negb_false_iff, Z.eqb_eq.
Qed.

(** One more page: the profile takes it exactly when the pages so far go on with it. *)
Lemma acceptPage_spec o pages p : Forall whole_page pages -> whole_page p -> stage o pages ->
  exists r, acceptPage o p = Ok r /\
    match r with Some o' => stage o' (pages ++ [p]) | None => forall o', ~ stage o' (pages ++ [p]) end.
Proof.
  intros Hws Hw Hst. destruct pages as [|head rest]; [cbn in Hst; subst o; by apply acceptPage_first|].
  apply Forall_cons_1 in Hws as [_ Hws]. destruct Hst as (Hser & Hhead & Hsame & Hok & Hholds & Hend).
  cbn [app]. destruct (ended o) eqn:Hended.
  { exists None. unfold acceptPage. rewrite Hended. split; [done|]. intros o' (_ & _ & _ & _ & _ & He'). exact (ending_over _ _ _ _ Hend Hended He'). }
  assert (Hopen : Forall (fun p => ~ last_page p) rest).
  { destruct Hend as [[_ ?]|(Hc & _)]; [done|]. unfold isComplete in Hc. by rewrite Hended in Hc. }
  rewrite acceptPage_fields, Hser by done.
  destruct (Z.eqb_spec (page_serial p) (page_serial head)) as [Hs|Hs]; cbn [negb].
  2: { exists None. split; [done|]. intros o' (_ & _ & Hsame' & _). apply Hs, Hsame'. apply elem_of_app. right. by left. }
  cbv zeta. rewrite (bool_decide_false (phase o = Head)) by exact (holds_phase _ _ Hholds).
  pose proof (whole_lacing p Hw) as (Hl26 & Hlb & Hbb). pose proof (data_page_test p) as Hdata.
  destruct (Z.eqb_spec (at0 p 26) 0) as [H0|H0].
  { exists None. split; [done|]. intros o' (_ & _ & _ & Hok' & _). apply rest_ok_snoc in Hok' as (_ & Hd & _).
    apply Hdata in Hd as [Hd _]. destruct (page_lacing p) as [|x l]; [done|].
    rewrite len_cons in Hl26. pose proof (len_nonneg l). lia. }
  assert (Hne : page_lacing p <> []) by (intros E; rewrite E in Hl26; done).
  destruct (lacing_while (page_lacing p) (page_body p) (page_granule p) Hlb Hbb (page_lacing p)
    (S (length (page_lacing p))) (o <| serial := Some (page_serial p) |>) (pages_packets rest) 0 0 false (page_body p))
    as (out & Hrun & Hout); [done|apply Hok|by apply pages_bytes|apply rest_at_0|apply rest_at_0|apply Hw|lia|].
  rewrite Hrun. cbn [mbind exec_bind]. destruct out as [[[[o' ?] ?] completed]|r].
  2: { destruct Hout as [-> Hno]. exists None. split; [done|]. intros o' (_ & _ & _ & Hok' & _).
       by apply rest_ok_snoc in Hok' as (_ & _ & ?). }
  destruct Hout as (Hh' & Hser' & Hend' & Hpage & ->). cbn [orb].
  destruct (_ && _ || _ && _) eqn:Htest.
  { exists None. split; [done|]. intros o2 (_ & _ & _ & Hok' & _). apply rest_ok_snoc in Hok' as (_ & Hd & _).
    apply Hdata in Hd as [_ Hd]. congruence. }
  assert (Hok2 : rest_ok (rest ++ [p])) by (apply rest_ok_snoc; split; [done|split; [by apply Hdata|done]]).
  set (o2 := o' <| ended := negb (Z.land (page_flags p) 0x04 =? 0) |>).
  assert (Hh2 : holds o2 (pages_packets (rest ++ [p]))) by (rewrite pages_packets_snoc; by apply (holds_irrelevant o' o2)).
  assert (He2 : ended o2 = bool_decide (last_page p)) by apply last_page_flag.
  eexists. split; [done|]. destruct (negb (ended o2) || isComplete o2) eqn:Hgo.
  - split; [by rewrite <- Hs|]. split; [done|]. split.
    { intros q [Hq|Hq%list_elem_of_singleton]%elem_of_app; [by apply Hsame|by subst]. }
    split; [done|]. split; [done|]. apply ending_snoc; [done|]. split; [done|]. intros Ht. by rewrite Ht in Hgo.
  - intros o3 (_ & _ & _ & _ & Hh3 & He3). apply ending_snoc in He3 as [He3 Hc3]; [|done].
    apply orb_false_iff in Hgo as [Hgo1%negb_false_iff Hgo2]. rewrite <- He2 in He3. rewrite Hgo1 in He3. specialize (Hc3 He3).
    enough (isComplete o2 = isComplete o3) by congruence. unfold isComplete. rewrite Hgo1, He3.
    unfold holds in Hh2, Hh3. destruct (pages_packets (rest ++ [p])) as [P c]. destruct Hh2 as [-> H2], Hh3 as [-> H3].
    destruct P; destruct H2 as [-> ->], H3 as [-> ->]; done.
Qed.

(** ** All pages of a file *)
Fixpoint acceptPages (o : OggOpusProfile) (pages : list (list Z)) : parser (option OggOpusProfile) :=
  match pages with
  | [] => Ok (Some o)
  | p :: pages => let? o := acceptPage o p else Ok None in acceptPages o pages
  end.

Definition between (pages : list (list Z)) : OggOpusProfile :=
  match pages with
  | [] => newProfile
  | head :: rest =>
      let s := pages_packets rest in
      {| serial := Some (page_serial head); phase := match s.1 with [] => Tags | _ => Audio end;
         packet := s.2; audioPackets := match s.1 with [] => 0 | _ :: audio => Z.of_nat (length audio) end;
         ended := false |}
  end.

Lemma holds_between head rest : holds (between (head :: rest)) (pages_packets rest).
Proof. unfold holds, between. cbn. by destruct (pages_packets rest).1. Qed.

Lemma stage_before o pages p : stage o (pages ++ [p]) -> stage (between pages) pages.
Proof.
  destruct pages as [|head rest]; [done|]. cbn [app stage]. intros (_ & Hh & Hs & Hok & _ & He).
  apply rest_ok_snoc in Hok as (Hok & _). split; [done|]. split; [done|].
  split; [intros q Hq; apply Hs, elem_of_app; by left|]. split; [done|]. split; [apply holds_between|].
  left. split; [done|]. destruct He as [[_ Hf]|(_ & init & last & Heq & _ & Hf)].
  - by apply Forall_app in Hf as [? _].
  - by apply app_inj_tail in Heq as [-> _].
Qed.

Lemma ended_ending o rest : ending o rest -> ended o = true <-> exists init last, rest = init ++ [last] /\ last_page last.
Proof.
  intros [[He Hf]|(Hc & init & last & -> & Hl & _)].
  - rewrite He. split; [done|]. intros (init & last & -> & Hl). apply Forall_app in Hf as [_ Hf].
    apply Forall_inv in Hf. exfalso. exact (Hf Hl).
  - split; [by eauto|]. intros _. unfold isComplete in Hc. by destruct (ended o).
Qed.

Lemma stage_determines o o' pages : stage o pages -> stage o' pages -> isComplete o = isComplete o'.
Proof.
  destruct pages as [|head rest]; cbn; [by intros -> ->|].
  intros (_ & _ & _ & _ & Hh & He) (_ & _ & _ & _ & Hh' & He').
  apply ended_ending in He, He'. rewrite <- He' in He.
  assert (ended o = ended o') as Heq.
  { destruct (ended o), (ended o'); try done; [symmetry|]; by apply He. }
  unfold isComplete. rewrite Heq. unfold holds in *. destruct (pages_packets rest) as [P c].
  destruct Hh as [-> H], Hh' as [-> H']. destruct P; destruct H as [-> ->], H' as [-> ->]; done.
Qed.

(** The profile is complete exactly at the end of a stream. *)
Lemma stage_stream pages : (exists o, stage o pages /\ isComplete o = true) <-> opus_stream pages.
Proof.
  unfold opus_stream. split.
  - intros (o & Hst & Hc). destruct pages as [|head rest]; [cbn in Hst; by subst o|].
    destruct Hst as (_ & Hh & Hs & (Hd & Hok & Ht) & Hhold & He). exists head, rest. do 4 (split; [done|]).
    unfold isComplete in Hc. apply andb_true_iff in Hc as [[[Hended Hph%bool_decide_eq_true]%andb_true_iff Ha%Z.ltb_lt]%andb_true_iff Hl%Z.eqb_eq].
    destruct He as [[He _]|(_ & Hlast)]; [congruence|].
    unfold tags_page, packets_ok, holds in *. destruct (pages_packets rest) as [P c] eqn:Hall. cbn [fst snd] in *.
    destruct P as [|tags audio]; [destruct Hhold as (_ & ? & _); congruence|].
    destruct Hhold as (Hp & _ & Hn). rewrite Hp in Hl.
    assert (c = []) as -> by (destruct c; [done|rewrite len_cons in Hl; pose proof (len_nonneg c); lia]).
    destruct Hok as (H1 & H2 & H3 & H4 & _). exists tags, audio. split; [done|]. split; [done|]. split; [done|]. split; [done|].
    split; [lia|]. split.
    + destruct Ht as [?|(before & p & after & tags' & -> & Hg & Hb & Hp')]; [done|].
      exists before, p, after. split; [done|]. split; [done|]. split; [done|].
      destruct (pages_packets_grow after (before ++ [p])) as [P HP]. rewrite <- app_assoc in HP. cbn [app] in HP.
      rewrite Hall, Hp' in HP. cbn in HP. by injection HP as <- _.
    + destruct Hlast as (init & last & -> & Hlast). exists init, last. split; [done|]. split; [apply Hlast|].
      destruct Hlast as [_ Hi]. apply (Forall_impl _ _ _ Hi). cbn. intros q Hq. unfold last_page in Hq.
      by destruct (Z.eq_dec (Z.land (page_flags q) 4) 0).
  - intros (head & rest & -> & Hh & Hd & Hs & tags & audio & Hpk & H1 & H2 & H3 & H4 & Htags & init & last & Heq & Hl & Hi).
    exists (between (head :: rest) <| ended := true |>). cbn [stage].
    assert (Hc : isComplete (between (head :: rest) <| ended := true |>) = true).
    { unfold isComplete, between. cbn. rewrite Hpk. cbn. rewrite (proj2 (Z.ltb_lt 0 _)) by lia. done. }
    split; [|done]. split; [done|]. split; [done|]. split; [done|]. split.
    + split; [done|]. rewrite Hpk. split; [repeat split; (done || lia)|]. right.
      destruct Htags as (before & p & after & ? & ? & ? & ?). by exists before, p, after, tags.
    + split; [apply (holds_irrelevant (between (head :: rest))); [done..|apply holds_between]|].
      right. split; [done|]. exists init, last. split; [done|]. split; [done|]. apply (Forall_impl _ _ _ Hi). cbn. intros q Hq Hq'.
      exact (Hq' Hq).
Qed.

(** The profile run over the pages of a file: it returns, and ends complete exactly on the streams. *)
Lemma acceptPages_stage done pages : Forall whole_page (done ++ pages) -> forall o, stage o done ->
  exists r, acceptPages o pages = Ok r /\
    match r with Some o' => stage o' (done ++ pages) | None => forall o', ~ stage o' (done ++ pages) end.
Proof.
  revert done. induction pages as [|p pages IH]; intros done Hw o Ho.
  - exists (Some o). by rewrite app_nil_r.
  - pose proof Hw as [Hd Hw']%Forall_app. apply Forall_cons_1 in Hw' as [Hp _].
    destruct (acceptPage_spec o done p Hd Hp Ho) as (r & Hr & Hst). cbn [acceptPages]. unfold or_else. rewrite Hr.
    cbn [mbind exec_bind]. replace (done ++ p :: pages) with ((done ++ [p]) ++ pages) in * by (by rewrite <- app_assoc).
    destruct r as [o'|]; [by apply IH|]. exists None. split; [reflexivity|].
    clear -Hst. intros o' Ho'. revert o' Ho'. induction pages as [|q pages IH] using rev_ind; intros o' Ho'.
    + rewrite app_nil_r in Ho'. by apply Hst in Ho'.
    + rewrite app_assoc in Ho'. apply stage_before in Ho'. by apply IH in Ho'.
Qed.

Lemma acceptPages_spec pages : Forall whole_page pages ->
  exists r, acceptPages newProfile pages = Ok r /\
    ((exists o, r = Some o /\ isComplete o = true) <-> opus_stream pages).
Proof.
  intros Hw. destruct (acceptPages_stage [] pages Hw newProfile eq_refl) as (r & Hr & Hst).
  exists r. split; [done|]. rewrite <- stage_stream. cbn [app] in Hst. split.
  - intros (o & -> & Hc). eauto.
  - intros (o & Ho & Hc). destruct r as [o'|]; [|by apply Hst in Ho].
    exists o'. split; [done|]. rewrite <- Hc. by eapply stage_determines.
Qed.
