(* ===== verification/Ogg.v ===== *)
(** Ogg files ([media/media-audio-structure.ts], [matchesOggStructure]): pages with a checksum,
    each numbered within its logical stream; with the Opus profile on top when it is asked for.
    [ogg_file] describes the files that are accepted. *)
From stdpp Require Import prelude list strings gmap.
From Stdlib Require Import ZArith Lia.
From S2P Require Import Prelude Buffers FileHandle Crc Codec Opus OpusProfile.
#[local] Open Scope Z_scope.

Definition OGG_CAPTURE : list Z := ascii_bytes "OggS".
Definition OGG_FIXED_HEADER_BYTES : Z := 27.
Definition OGG_MAX_PAGE_BYTES : Z := 65307.
Definition OGG_MAX_PAGES : Z := 100000.
Definition OGG_BOS : Z := 0x02.
Definition OGG_EOS : Z := 0x04.
Definition OGG_CONTINUED : Z := 0x01.

Record OggStreamState := { nextSequence : Z; continuedPacket : bool; stream_ended : bool }.
#[export] Instance OggStreamState_eq_dec : EqDecision OggStreamState.
Proof. solve_decision. Defined.

(** What the loop carries besides [offset] and [pages]. *)
Record ogg_state := { streams : gmap Z OggStreamState; opus : option OggOpusProfile; sawPayload : bool }.

(** The test of a page against the state of its stream. *)
Definition stream_refuses (prior : option OggStreamState) (bos continued : bool) (sequence : Z) : bool :=
  match prior with
  | None => negb bos || continued || negb (sequence =? 0)
  | Some s => stream_ended s || bos || negb (sequence =? nextSequence s) || negb (Bool.eqb continued (continuedPacket s))
  end.

(** One turn of the loop, from the checksum on: the streams and the profile take the page. *)
Definition ogg_take (s : Z * Z * ogg_state) (fixed lacing page : list Z) : parser (flow (Z * Z * ogg_state) bool) :=
  let '(offset, pages, st) := s in
  let headerType := at0 fixed 5 in
  let segmentCount := at0 fixed 26 in
  let bodyBytes := sum_list lacing in
  let pageBytes := OGG_FIXED_HEADER_BYTES + segmentCount + bodyBytes in
  serial ← readUInt32LE fixed 14;
  sequence ← readUInt32LE fixed 18;
  let bos := negb (Z.land headerType OGG_BOS =? 0) in
  let eos := negb (Z.land headerType OGG_EOS =? 0) in
  let continued := negb (Z.land headerType OGG_CONTINUED =? 0) in
  if continued && (segmentCount =? 0) then Ok (Return false) else
  let prior := streams st !! serial in
  if stream_refuses prior bos continued sequence then Ok (Return false) else
  let continuesToNextPage := (0 <? segmentCount) && (at0 lacing (segmentCount - 1) =? 255) in
  if eos && continuesToNextPage then Ok (Return false) else
  opus ← (match opus st with
          | Some profile => accepted ← acceptPage profile page;
              Ok (if accepted is Some profile then Some (Some profile) else None)
          | None => Ok (Some None)
          end : parser (option (option OggOpusProfile)));
  match opus with
  | None => Ok (Return false)
  | Some opus =>
      Ok (Continue (offset + pageBytes, pages + 1,
        {| streams := <[serial := {| nextSequence := Js.toUint32 (sequence + 1);
                                     continuedPacket := continuesToNextPage; stream_ended := eos |}]> (streams st);
           opus := opus; sawPayload := sawPayload st || (0 <? bodyBytes) |}))
  end.

Definition ogg_body (h : FileHandle) (s : Z * Z * ogg_state) : parser (flow (Z * Z * ogg_state) bool) :=
  let offset := s.1.1 in
  let? fixed := readExactly h OGG_FIXED_HEADER_BYTES offset else Ok (Return false) in
  if negb (equals (subarray fixed 0 4) OGG_CAPTURE) || negb (at0 fixed 4 =? 0) then Ok (Return false) else
  let headerType := at0 fixed 5 in
  if negb (Z.land headerType (Z.lnot 0x07) =? 0) then Ok (Return false) else
  let segmentCount := at0 fixed 26 in
  let? lacing := readExactly h segmentCount (offset + OGG_FIXED_HEADER_BYTES) else Ok (Return false) in
  let bodyBytes := sum_list lacing in
  let pageBytes := OGG_FIXED_HEADER_BYTES + segmentCount + bodyBytes in
  if (OGG_MAX_PAGE_BYTES <? pageBytes) || (size h <? offset + pageBytes) then Ok (Return false) else
  let? page := readExactly h pageBytes offset else Ok (Return false) in
  valid ← OggCrc.hasValidOggCrc page;
  if negb valid then Ok (Return false) else ogg_take s fixed lacing page.

Definition ogg_start (requireOpusProfile : bool) : ogg_state :=
  {| streams := ∅; opus := if requireOpusProfile then Some newProfile else None; sawPayload := false |}.

Definition ogg_final (pages : Z) (st : ogg_state) : bool :=
  (0 <? pages) && (pages <? OGG_MAX_PAGES) && sawPayload st && (0 <? Z.of_nat (base.size (streams st))) &&
  (match opus st with Some profile => isComplete profile | None => true end) &&
  forallb (fun stream => stream_ended stream && negb (continuedPacket stream)) (map_to_list (streams st)).*2.

Definition matchesOggStructure (h : FileHandle) (requireOpusProfile : bool) : parser bool :=
  if negb (isFile h) || (size h <? OGG_FIXED_HEADER_BYTES + 1) then Ok false else
  out ← while (S (Z.to_nat (size h))) (fun s => (s.1.1 <? size h) && (s.1.2 <? OGG_MAX_PAGES))
          (ogg_body h) (0, 0, ogg_start requireOpusProfile);
  afterwards out (fun s => Ok ((s.1.1 =? size h) && ogg_final s.1.2 s.2)).

(** ** What an Ogg file is *)
Definition first_page (p : list Z) : Prop := Z.land (page_flags p) OGG_BOS <> 0.
Definition continued_page (p : list Z) : Prop := Z.land (page_flags p) OGG_CONTINUED <> 0.
(** The last packet on the page goes on. *)
Definition unfinished (p : list Z) : Prop := last (page_lacing p) = Some 255.

Definition ogg_page (p : list Z) : Prop :=
  27 <= len p /\ subarray p 0 4 = OGG_CAPTURE /\ at0 p 4 = 0 /\ 0 <= page_flags p < 8 /\
  len p = 27 + at0 p 26 + sum_list (page_lacing p) /\
  uintLE (subarray p 22 26) = serial_crc (H := OggCrc.ogg_crc) 0 (OggCrc.crc_input p) /\
  (continued_page p -> page_lacing p <> []) /\ (last_page p -> ~ unfinished p).

(** The pages of one logical stream: numbered from 0 modulo [2 ^ 32], exactly the first marked as
    first and the last as last, a page continuing a packet exactly when the page before left one. *)
Definition logical_stream (ps : list (list Z)) : Prop :=
  forall (i : nat) p, ps !! i = Some p ->
    page_sequence p = Js.toUint32 (Z.of_nat i) /\ (first_page p <-> i = O) /\ (last_page p <-> S i = length ps) /\
    (continued_page p <-> exists j q, i = S j /\ ps !! j = Some q /\ unfinished q).

Definition of_serial (s : Z) (pages : list (list Z)) : list (list Z) := filter (fun p => page_serial p = s) pages.

Definition ogg_file (c : list Z) (pages : list (list Z)) : Prop :=
  c = concat pages /\ Forall ogg_page pages /\ Z.of_nat (length pages) < OGG_MAX_PAGES /\
  (forall s, logical_stream (of_serial s pages)) /\ (exists p, p ∈ pages /\ page_body p <> []).

(** ** One logical stream *)
Definition bos (p : list Z) : bool := negb (Z.land (page_flags p) OGG_BOS =? 0).
Definition eos (p : list Z) : bool := negb (Z.land (page_flags p) OGG_EOS =? 0).
Definition continued (p : list Z) : bool := negb (Z.land (page_flags p) OGG_CONTINUED =? 0).
Definition continues (p : list Z) : bool := bool_decide (unfinished p).

Lemma bos_true p : bos p = true <-> first_page p.
Proof. unfold bos, first_page. by rewrite negb_true_iff, Z.eqb_neq. Qed.
Lemma eos_true p : eos p = true <-> last_page p.
Proof. unfold eos, last_page. by rewrite negb_true_iff, Z.eqb_neq. Qed.
Lemma continued_true p : continued p = true <-> continued_page p.
Proof. unfold continued, continued_page. by rewrite negb_true_iff, Z.eqb_neq. Qed.
Lemma continues_true p : continues p = true <-> unfinished p.
Proof. apply bool_decide_eq_true. Qed.

Definition stream_after (p : list Z) : OggStreamState :=
  {| nextSequence := Js.toUint32 (page_sequence p + 1); continuedPacket := continues p; stream_ended := eos p |}.
Definition stream_next (prior : option OggStreamState) (p : list Z) : option OggStreamState :=
  if stream_refuses prior (bos p) (continued p) (page_sequence p) then None else Some (stream_after p).
Fixpoint stream_run (prior : option OggStreamState) (ps : list (list Z)) : option (option OggStreamState) :=
  match ps with
  | [] => Some prior
  | p :: ps => st ← stream_next prior p; stream_run (Some st) ps
  end.

(** The pages of a stream so far. *)
Definition stream_prefix (ps : list (list Z)) : Prop :=
  forall (i : nat) p, ps !! i = Some p ->
    page_sequence p = Js.toUint32 (Z.of_nat i) /\ (first_page p <-> i = O) /\ (last_page p -> S i = length ps) /\
    (continued_page p <-> exists j q, i = S j /\ ps !! j = Some q /\ unfinished q).

Lemma stream_run_snoc ps p : forall prior, stream_run prior (ps ++ [p]) =
  (prior ← stream_run prior ps; st ← stream_next prior p; Some (Some st)).
Proof.
  induction ps as [|q ps IH]; intros prior; cbn; [by destruct (stream_next prior p)|].
  destruct (stream_next prior q) as [st|]; cbn; [apply IH|done].
Qed.

Lemma stream_prefix_snoc ps p : stream_prefix (ps ++ [p]) <->
  stream_prefix ps /\ (forall q, q ∈ ps -> ~ last_page q) /\ page_sequence p = Js.toUint32 (Z.of_nat (length ps)) /\
  (first_page p <-> ps = []) /\ (continued_page p <-> exists q, last ps = Some q /\ unfinished q).
Proof.
  assert (Hp : (ps ++ [p]) !! length ps = Some p) by (by rewrite lookup_app_r, Nat.sub_diag).
  assert (Hlast : forall q, last ps = Some q <-> exists j, length ps = S j /\ ps !! j = Some q).
  { intros q. rewrite last_lookup. split.
    - intros Hq. exists (pred (length ps)). split; [|done]. apply lookup_lt_Some in Hq. lia.
    - intros (j & -> & Hq). exact Hq. }
  split.
  - intros H. split; [|split].
    + intros i q Hq. pose proof (lookup_lt_Some _ _ _ Hq) as Hi.
      destruct (H i q) as (H1 & H2 & H3 & H4); [by rewrite lookup_app_l|].
      split; [done|]. split; [done|]. split.
      * intros Hl. apply H3 in Hl. rewrite length_app in Hl. cbn in Hl. lia.
      * rewrite H4. split; intros (j & r & -> & Hr & Hu); exists j, r; (split; [done|]); (split; [|done]).
        -- rewrite lookup_app_l in Hr by lia. done.
        -- rewrite lookup_app_l by lia. done.
    + intros q [i Hq]%list_elem_of_lookup Hl. pose proof (lookup_lt_Some _ _ _ Hq).
      destruct (H i q) as (_ & _ & H3 & _); [by rewrite lookup_app_l|].
      apply H3 in Hl. rewrite length_app in Hl. cbn in Hl. lia.
    + destruct (H _ _ Hp) as (H1 & H2 & _ & H4). split; [done|]. split.
      { rewrite H2. by destruct ps. }
      rewrite H4. split.
      * intros (j & q & Hj & Hq & Hu). exists q. split; [|done]. apply Hlast. exists j. split; [done|].
        by rewrite lookup_app_l in Hq by lia.
      * intros (q & (j & Hj & Hq)%Hlast & Hu). exists j, q. rewrite lookup_app_l by lia. done.
  - intros (H & Hno & Hseq & Hf & Hc) i q Hq. apply lookup_app_Some in Hq as [Hq|[Hi Hq]].
    + pose proof (lookup_lt_Some _ _ _ Hq) as Hi. destruct (H i q Hq) as (H1 & H2 & H3 & H4).
      split; [done|]. split; [done|]. split.
      * intros Hl. by apply Hno in Hl; [|by eapply list_elem_of_lookup_2].
      * rewrite H4. split; intros (j & r & -> & Hr & Hu); exists j, r; (split; [done|]); (split; [|done]).
        -- rewrite lookup_app_l by lia. done.
        -- rewrite lookup_app_l in Hr by lia. done.
    + destruct (i - length ps)%nat as [|k] eqn:Hk; [|by destruct k]. injection Hq as ->.
      assert (i = length ps) as -> by lia. split; [done|]. split; [rewrite Hf; by destruct ps|].
      rewrite length_app. cbn. split; [lia|]. rewrite Hc. split.
      * intros (q' & (j & Hj & Hq)%Hlast & Hu). exists j, q'. rewrite lookup_app_l by lia. done.
      * intros (j & q' & Hj & Hq & Hu). exists q'. split; [|done]. apply Hlast. exists j. split; [done|].
        by rewrite lookup_app_l in Hq by lia.
Qed.

Lemma toUint32_succ n : 0 <= n -> Js.toUint32 (Js.toUint32 n + 1) = Js.toUint32 (n + 1).
Proof. intros Hn. unfold Js.toUint32. by rewrite Zplus_mod_idemp_l. Qed.

Definition stream_of (ps : list (list Z)) : option OggStreamState := stream_after <$> last ps.

(** One more page: the test against the state is the description of the next page. *)
Lemma stream_next_spec ps p : stream_prefix ps ->
  stream_next (stream_of ps) p = Some (stream_after p) <->
  (forall q, q ∈ ps -> ~ last_page q) /\ page_sequence p = Js.toUint32 (Z.of_nat (length ps)) /\
  (first_page p <-> ps = []) /\ (continued_page p <-> exists q, last ps = Some q /\ unfinished q).
Proof.
  intros Hpre. rewrite <- bos_true, <- continued_true. unfold stream_next, stream_refuses, stream_of.
  destruct (last ps) as [q|] eqn:Hq; cbn [fmap option_fmap option_map].
  - assert (Hne : ps <> []) by by intros ->. rewrite last_lookup in Hq.
    pose proof (lookup_lt_Some _ _ _ Hq). destruct (Hpre _ _ Hq) as (Hseq & _ & _ & _).
    cbn [stream_after stream_ended nextSequence continuedPacket]. rewrite Hseq, toUint32_succ by lia.
    replace (Z.of_nat (pred (length ps)) + 1) with (Z.of_nat (length ps)) by lia. split.
    + intros Hn. case_match eqn:E; [done|].
      apply orb_false_iff in E as [[[He Hb]%orb_false_iff Hs]%orb_false_iff Hc].
      apply negb_false_iff, Z.eqb_eq in Hs. apply negb_false_iff, Bool.eqb_prop in Hc.
      split; [|split; [done|split; [by rewrite Hb|]]].
      * intros r [i Hi]%list_elem_of_lookup Hl. destruct (Hpre i r Hi) as (_ & _ & Hend & _).
        assert (i = pred (length ps)) as -> by (specialize (Hend Hl); lia).
        apply eos_true in Hl. congruence.
      * rewrite Hc, continues_true. split; [eauto|by intros (? & [= <-] & ?)].
    + intros (Hno & Hs & Hb & Hc).
      replace (eos q) with false by (symmetry; apply not_true_iff_false; rewrite eos_true; apply Hno; by eapply list_elem_of_lookup_2).
      replace (bos p) with false by (symmetry; apply not_true_iff_false; by rewrite Hb).
      rewrite (proj2 (Z.eqb_eq _ _) Hs).
      replace (continued p) with (continues q); [by rewrite eqb_reflx|].
      apply eq_true_iff_eq. rewrite continues_true, Hc. split; [eauto|by intros (? & [= <-] & ?)].
  - apply last_None in Hq as ->. change (Js.toUint32 (Z.of_nat (length []))) with 0. split.
    + intros Hn. case_match eqn:E; [done|].
      apply orb_false_iff in E as [[Hb%negb_false_iff Hc]%orb_false_iff Hs%negb_false_iff%Z.eqb_eq].
      split; [intros r Hr; by apply not_elem_of_nil in Hr|].
      split; [done|]. split; [by rewrite Hb|]. rewrite Hc. split; [done|by intros (? & ? & _)].
    + intros (_ & Hs & Hb & Hc). rewrite (proj2 Hb), (proj2 (Z.eqb_eq _ _) Hs) by done.
      replace (continued p) with false; [done|]. symmetry. apply not_true_iff_false. rewrite Hc. by intros (? & ? & _).
Qed.

(** The state kept for a stream follows its pages. *)
Lemma stream_run_spec ps st : stream_run None ps = Some st <-> stream_prefix ps /\ st = stream_of ps.
Proof.
  revert st. induction ps as [|p ps IH] using rev_ind; intros st.
  - cbn. split; [intros [= <-]; split; [|done]; intros i q Hq; done|by intros [_ ->]].
  - rewrite stream_run_snoc, stream_prefix_snoc. unfold stream_of at 1. rewrite last_snoc. cbn.
    split.
    + intros (prior & Hrun & Hn)%bind_Some. apply bind_Some in Hn as (st' & Hn & [= <-]).
      apply IH in Hrun as [Hpre ->]. assert (st' = stream_after p) as ->.
      { unfold stream_next in Hn. case_match; [done|]. by injection Hn. }
      apply stream_next_spec in Hn; [|done]. done.
    + intros ((Hpre & Hrest) & ->). apply stream_next_spec in Hrest; [|done].
      rewrite (proj2 (IH _)) by by split. cbn. by rewrite Hrest.
Qed.

Lemma logical_stream_iff ps : Forall ogg_page ps ->
  logical_stream ps <-> stream_prefix ps /\ (forall st, stream_of ps = Some st -> stream_ended st && negb (continuedPacket st) = true).
Proof.
  intros Hps. unfold logical_stream, stream_prefix, stream_of. split.
  - intros H. split.
    + intros i p Hp. destruct (H i p Hp) as (? & ? & ? & ?). repeat split; (done || tauto).
    + intros st. destruct (last ps) as [q|] eqn:Hq; [|done]. intros [= <-]. rewrite last_lookup in Hq.
      pose proof (lookup_lt_Some _ _ _ Hq). destruct (H _ _ Hq) as (_ & _ & Hl & _).
      assert (Hlq : last_page q) by (apply Hl; lia). cbn. rewrite (proj2 (eos_true q)) by done. cbn.
      apply negb_true_iff, not_true_iff_false. rewrite continues_true.
      apply (Forall_lookup_1 _ _ _ _ Hps) in Hq. by apply Hq.
  - intros [H Hend] i p Hp. destruct (H i p Hp) as (H1 & H2 & H3 & H4). split; [done|]. split; [done|]. split; [|done].
    split; [done|]. intros Hi. rewrite last_lookup in Hend. replace (pred (length ps)) with i in Hend by lia.
    rewrite Hp in Hend. specialize (Hend _ eq_refl). apply andb_true_iff in Hend as [He _]. by apply eos_true.
Qed.

(** ** All streams of a file *)
Fixpoint streams_run (m : gmap Z OggStreamState) (pages : list (list Z)) : option (gmap Z OggStreamState) :=
  match pages with
  | [] => Some m
  | p :: pages => st ← stream_next (m !! page_serial p) p; streams_run (<[page_serial p := st]> m) pages
  end.

Lemma streams_run_spec pages : forall m,
  (forall m', streams_run m pages = Some m' -> forall s, stream_run (m !! s) (of_serial s pages) = Some (m' !! s)) /\
  (streams_run m pages = None -> exists s, stream_run (m !! s) (of_serial s pages) = None).
Proof.
  unfold of_serial. induction pages as [|p pages IH]; intros m; [split; [by intros m' [= <-]|done]|].
  cbn [streams_run]. destruct (stream_next (m !! page_serial p) p) as [st|] eqn:Hn; cbn [mbind option_bind].
  - destruct (IH (<[page_serial p := st]> m)) as [IH1 IH2].
    assert (Hs : forall s, stream_run (m !! s) (filter (fun p => page_serial p = s) (p :: pages)) =
              stream_run (<[page_serial p := st]> m !! s) (filter (fun p => page_serial p = s) pages)).
    { intros s. rewrite filter_cons. case_decide as Hp.
      - subst s. rewrite lookup_insert_eq. cbn [stream_run]. by rewrite Hn.
      - by rewrite lookup_insert_ne. }
    split.
    + intros m' Hm s. rewrite Hs. by apply IH1.
    + intros Hm. destruct (IH2 Hm) as [s Hs']. exists s. by rewrite Hs.
  - split; [done|]. intros _. exists (page_serial p). rewrite filter_cons, decide_True by done. cbn [stream_run]. by rewrite Hn.
Qed.

Definition opus_next (o : option OggOpusProfile) (p : list Z) : option (option OggOpusProfile) :=
  match o with
  | Some o => match acceptPage o p with Ok (Some o) => Some (Some o) | _ => None end
  | None => Some None
  end.
Definition ogg_next (st : ogg_state) (p : list Z) : option ogg_state :=
  s ← stream_next (streams st !! page_serial p) p;
  o ← opus_next (opus st) p;
  Some {| streams := <[page_serial p := s]> (streams st); opus := o; sawPayload := sawPayload st || (0 <? sum_list (page_lacing p)) |}.

Fixpoint opus_run (o : option OggOpusProfile) (pages : list (list Z)) : option (option OggOpusProfile) :=
  match pages with
  | [] => Some o
  | p :: pages => o ← opus_next o p; opus_run o pages
  end.

Lemma opus_run_none pages : opus_run None pages = Some None.
Proof. by induction pages. Qed.

Lemma opus_run_accept pages : forall o r, acceptPages o pages = Ok r ->
  opus_run (Some o) pages = match r with Some o' => Some (Some o') | None => None end.
Proof.
  induction pages as [|p pages IH]; intros o r H; [by injection H as <-|].
  cbn in *. unfold or_else in H. destruct (acceptPage o p) as [[o'|]| |]; cbn in H; [by apply IH|by injection H as <-|done|done].
Qed.

(** A format's page, at the head of the rest of the file. *)
Definition page_size (l : list Z) : Z := 27 + at0 l 26 + sum_list (subarray l 27 (27 + at0 l 26)).
Definition page_wf (p : list Z) : bool :=
  equals (subarray p 0 4) OGG_CAPTURE && (at0 p 4 =? 0) && (Z.land (at0 p 5) (Z.lnot 0x07) =? 0) &&
  (page_size p <=? OGG_MAX_PAGE_BYTES) && (foldl OggCrc.crc_step 0 (OggCrc.crc_input p) =? uintLE (subarray p 22 26)) &&
  negb (continued p && (at0 p 26 =? 0)) && negb (eos p && (0 <? at0 p 26) && (at0 (page_lacing p) (at0 p 26 - 1) =? 255)).
Definition ogg_frame_len (l : list Z) : option Z :=
  if (27 <=? len l) && (0 <=? at0 l 26) && (27 + at0 l 26 <=? page_size l) && (page_size l <=? len l) &&
     page_wf (subarray l 0 (page_size l))
  then Some (page_size l) else None.

Lemma page_size_prefix l n : 27 <= n <= len l -> 0 <= at0 l 26 -> 27 + at0 l 26 <= n -> page_size (subarray l 0 n) = page_size l.
Proof.
  intros Hn H26 Hs. unfold page_size. rewrite at0_subarray by lia. rewrite Z.add_0_l.
  rewrite subarray_subarray by lia. by rewrite !Z.add_0_l.
Qed.

Lemma page_size_app l r : 27 <= len l -> 0 <= at0 l 26 -> 27 + at0 l 26 <= len l -> page_size (l ++ r) = page_size l.
Proof. intros Hn H26 Hs. unfold page_size. rewrite at0_app_l by lia. by rewrite subarray_app_l by lia. Qed.

Lemma ogg_frame_len_inv l n : ogg_frame_len l = Some n <->
  27 <= len l /\ 0 <= at0 l 26 /\ 27 + at0 l 26 <= n /\ n <= len l /\ n = page_size l /\ page_wf (subarray l 0 n) = true.
Proof.
  unfold ogg_frame_len. split.
  - case_match eqn:E; [|done]. intros [= <-]. rewrite !andb_true_iff, !Z.leb_le in E. tauto.
  - intros (H1 & H2 & H3 & H4 & -> & H5). rewrite !(proj2 (Z.leb_le _ _)), H5 by done. done.
Qed.

#[export] Program Instance ogg_format : FrameFormat := {| frame_len := ogg_frame_len |}.
Next Obligation. intros l n (H1 & H2 & H3 & H4 & -> & _)%ogg_frame_len_inv. lia. Qed.
Next Obligation.
  intros l n (H1 & H2 & H3 & H4 & Heq & H5)%ogg_frame_len_inv. apply ogg_frame_len_inv.
  change (take (Z.to_nat n) l) with (take (Z.to_nat n) l). replace (take (Z.to_nat n) l) with (subarray l 0 n)
    by (unfold subarray; rewrite drop_0; f_equal; lia).
  rewrite len_subarray, at0_subarray, page_size_prefix by lia. rewrite Z.add_0_l, subarray_subarray by lia.
  repeat split; (done || lia).
Qed.
Next Obligation.
  intros l r n (H1 & H2 & H3 & H4 & Heq & H5)%ogg_frame_len_inv. apply ogg_frame_len_inv.
  rewrite len_app, at0_app_l, page_size_app, subarray_app_l by lia. pose proof (len_nonneg r). repeat split; (done || lia).
Qed.

Lemma continues_test p : len (page_lacing p) = at0 p 26 ->
  (0 <? at0 p 26) && (at0 (page_lacing p) (at0 p 26 - 1) =? 255) = continues p.
Proof.
  intros Hl. unfold continues, unfinished. rewrite <- Hl, last_lookup. apply eq_true_iff_eq.
  rewrite andb_true_iff, Z.ltb_lt, Z.eqb_eq, bool_decide_eq_true. unfold len, at0, idx.
  set (lac := page_lacing p). destruct (Z.ltb_spec (Z.of_nat (length lac) - 1) 0).
  - split; [lia|]. intros Hlast. apply lookup_lt_Some in Hlast. lia.
  - replace (Z.to_nat (Z.of_nat (length lac) - 1)) with (pred (length lac)) by lia.
    destruct (lac !! pred (length lac)) as [x|] eqn:Hx; cbn; [|split; [by intros [_ ?]|done]].
    split; [by intros [_ ->]|by intros [= ->]; split; [lia|]].
Qed.

Lemma crc_input_bytes p : Forall is_byte p -> Forall is_byte (OggCrc.crc_input p).
Proof.
  intros Hp. apply Forall_lookup. intros i b Hb. unfold OggCrc.crc_input in Hb.
  rewrite list_lookup_imap in Hb. apply fmap_Some in Hb as (x & Hx & ->). case_match; [by split|].
  by apply (Forall_lookup_1 _ _ _ _ Hp Hx).
Qed.

Lemma flags_test b : is_byte b -> Z.land b (Z.lnot 0x07) = 0 <-> b < 8.
Proof.
  intros Hb. pose proof (forallb_seqZ (fun b => Bool.eqb (Z.land b (Z.lnot 0x07) =? 0) (b <? 8)) 256) as H.
  specialize (H ltac:(vm_compute; reflexivity) b Hb). cbv beta in H. apply Bool.eqb_prop in H.
  by rewrite <- Z.eqb_eq, H, Z.ltb_lt.
Qed.

Lemma lacing_sum_bound l : Forall is_byte l -> 0 <= sum_list l <= 255 * len l.
Proof.
  induction 1 as [|b l Hb Hl IH]; [done|]. change (sum_list (b :: l)) with (b + sum_list l). rewrite len_cons.
  unfold is_byte in Hb. lia.
Qed.

(** The pages the format reads are those of the description. *)
Lemma ogg_page_iff p : Forall is_byte p -> is_frame p <-> ogg_page p.
Proof.
  intros Hp. unfold is_frame. cbn [frame_len ogg_format]. rewrite ogg_frame_len_inv, subarray_all.
  unfold page_wf, ogg_page. rewrite !andb_true_iff, !negb_true_iff, equals_true, !Z.eqb_eq, Z.leb_le.
  rewrite (OggCrc.crc_fold_serial 0) by (done || by apply crc_input_bytes).
  assert (Hf : is_byte (at0 p 5)) by by apply is_byte_at0. rewrite (flags_test _ Hf). unfold page_flags at 1 2.
  assert (H26 : is_byte (at0 p 26)) by by apply is_byte_at0. unfold is_byte in Hf, H26.
  unfold page_size. fold (page_lacing p).
  assert (Hsum : 0 <= sum_list (page_lacing p) <= 255 * len (page_lacing p)) by by apply lacing_sum_bound, Forall_subarray.
  split.
  - intros (H1 & _ & H3 & _ & Hlen & (((((Hc & Hv) & Hfl) & _) & Hcrc) & Hcont) & Heos).
    assert (Hll : len (page_lacing p) = at0 p 26) by (unfold page_lacing; rewrite len_subarray; lia).
    repeat split; try done; try lia.
    + intros Hcp Hnil. rewrite Hnil in Hll. change (len []) with 0 in Hll.
      apply andb_false_iff in Hcont as [Hcont|Hcont]; [by apply continued_true in Hcp; congruence|apply Z.eqb_neq in Hcont; lia].
    + intros Hl Hu. apply eos_true in Hl. rewrite <- andb_assoc, Hl, continues_test in Heos by done.
      apply continues_true in Hu. cbn in Heos. congruence.
  - intros (H1 & Hc & Hv & Hfl & Hlen & Hcrc & Hcont & Heos).
    assert (Hll : len (page_lacing p) = at0 p 26) by (unfold page_lacing; rewrite len_subarray; lia).
    unfold OGG_MAX_PAGE_BYTES. repeat split; try done; try lia.
    + destruct (continued p) eqn:Hcp; [rewrite andb_true_l|done]. apply Z.eqb_neq. intros E. apply continued_true in Hcp.
      apply (Hcont Hcp). rewrite E in Hll. destruct (page_lacing p) as [|x l]; [done|].
      rewrite len_cons in Hll. pose proof (len_nonneg l). lia.
    + rewrite <- andb_assoc, continues_test by done.
      destruct (eos p) eqn:Hep; [rewrite andb_true_l|done]. apply not_true_iff_false. rewrite continues_true. apply Heos. by apply eos_true.
Qed.

Lemma ogg_page_whole p : Forall is_byte p -> ogg_page p -> whole_page p.
Proof.
  intros Hb (H1 & _ & _ & _ & Hlen & _). split; [done|].
  assert (H26 : 0 <= at0 p 26) by (apply is_byte_at0; done).
  assert (0 <= sum_list (page_lacing p)) by apply lacing_sum_bound, Forall_subarray, Hb.
  unfold page_body. rewrite len_subarray by lia. lia.
Qed.

(** The profile inside the loop has seen some pages. *)
Definition ogg_inv (st : ogg_state) : Prop :=
  match opus st with Some o => exists pages, Forall whole_page pages /\ stage o pages | None => True end.

Lemma ogg_next_keeps st l n st' : ogg_inv st -> Forall is_byte l -> frame_len l = Some n ->
  ogg_next st (take (Z.to_nat n) l) = Some st' -> ogg_inv st'.
Proof.
  unfold ogg_inv, ogg_next. intros HI Hl Hln Hn. set (p := take (Z.to_nat n) l) in *.
  assert (Hb : Forall is_byte p) by by apply Forall_take.
  assert (Hf : is_frame p).
  { pose proof (frame_len_bounds _ _ Hln). unfold is_frame. unfold p at 1. rewrite (frame_len_take _ _ Hln). f_equal.
    unfold p, len in *. rewrite length_take. lia. } apply ogg_page_iff, ogg_page_whole in Hf; [|done..].
  apply bind_Some in Hn as (s & _ & Hn). apply bind_Some in Hn as (o & Ho & [= <-]). cbn. unfold opus_next in Ho.
  destruct (opus st) as [o0|]; [|by injection Ho as <-]. destruct HI as (pages & Hw & Hst).
  destruct (acceptPage_spec o0 pages p Hw Hf Hst) as (r & Hr & Hst'). rewrite Hr in Ho.
  destruct r as [o1|]; [|done]. injection Ho as <-. exists (pages ++ [p]). split; [by apply Forall_app; split; [|constructor]|done].
Qed.

Section ogg_body.
Context (h : FileHandle) (offset : Z).
Hypothesis Hoffset : 0 <= offset < size h.
(** What is left of the file, and its first [n] bytes. *)
Let l := subarray (contents h) offset (size h).
Let piece n := subarray (contents h) offset (offset + n).

Lemma rest_len : len l = size h - offset.
Proof. apply len_rest. lia. Qed.

Lemma remaining_bytes : Forall is_byte l.
Proof. apply Forall_subarray, contents_bytes. Qed.

Lemma piece_rest n : 0 <= n <= len l -> piece n = subarray l 0 n.
Proof.
  intros Hn. rewrite rest_len in Hn. unfold piece, l. unfold size in *. rewrite subarray_subarray by lia. by rewrite Z.add_0_r.
Qed.

Lemma piece_at0 n i : n <= len l -> i < n -> at0 (piece n) i = at0 l i.
Proof. intros Hn Hi. rewrite rest_len in Hn. apply at0_header; lia. Qed.

Lemma lacing_piece n : 0 <= n -> 27 + n <= len l ->
  subarray (contents h) (offset + 27) (offset + 27 + n) = subarray l 27 (27 + n).
Proof.
  intros Hn Hl. rewrite rest_len in Hl. unfold l. unfold size in *. rewrite subarray_subarray by lia. f_equal. lia.
Qed.

Lemma ogg_read (A : Type) length position (k : list Z -> parser A) d :
  0 <= length -> 0 <= position -> offset + position + length <= size h ->
  or_else (readExactly h length (offset + position)) d k = k (subarray l position (position + length)).
Proof.
  intros. rewrite or_else_read_ok by lia. f_equal. unfold l. unfold size in *. rewrite subarray_subarray by lia. f_equal. lia.
Qed.

(** A turn of the loop is the format's page, checked, and [ogg_take]. *)
Lemma ogg_body_eq pages st :
  ogg_body h (offset, pages, st) =
  if (27 <=? len l) && (27 + at0 l 26 <=? len l) && (page_size l <=? len l) then
    let p := subarray l 0 (page_size l) in
    if equals (subarray p 0 4) OGG_CAPTURE && (at0 p 4 =? 0) && (Z.land (at0 p 5) (Z.lnot 0x07) =? 0) &&
       (page_size p <=? OGG_MAX_PAGE_BYTES) && (foldl OggCrc.crc_step 0 (OggCrc.crc_input p) =? uintLE (subarray p 22 26))
    then ogg_take (offset, pages, st) (subarray l 0 27) (subarray l 27 (27 + at0 l 26)) p else Ok (Return false)
  else Ok (Return false).
Proof.
  unfold ogg_body. cbn [fst]. pose proof rest_len as Hlen. unfold OGG_FIXED_HEADER_BYTES.
  destruct (Z.leb_spec 27 (len l)) as [H27|H27]; cbn [andb].
  2: { by rewrite or_else_read_short by lia. }
  rewrite or_else_read_ok by lia. fold (piece 27). rewrite piece_rest by lia.
  set (fixed := subarray l 0 27). cbv zeta.
  assert (Hat : forall i, 0 <= i < 27 -> at0 fixed i = at0 l i) by (intros; unfold fixed; by rewrite at0_subarray by lia).
  rewrite !Hat by lia. pose proof (is_byte_at0 l 26 remaining_bytes) as H26. unfold is_byte in H26.
  assert (Hcap : subarray fixed 0 4 = subarray l 0 4) by (unfold fixed; by rewrite subarray_subarray by lia).
  rewrite Hcap. destruct (Z.leb_spec (27 + at0 l 26) (len l)) as [Hlac|Hlac]; cbn [andb].
  2: { destruct (_ || _); [done|]. destruct (negb _); [done|]. by rewrite or_else_read_short by lia. }
  rewrite or_else_read_ok, lacing_piece by lia. fold (page_size l).
  assert (Hsum : 0 <= sum_list (subarray l 27 (27 + at0 l 26))) by apply lacing_sum_bound, Forall_subarray, remaining_bytes.
  destruct (Z.leb_spec (page_size l) (len l)) as [Hfit|Hfit].
  2: { rewrite (proj2 (Z.ltb_lt (size h) _)), orb_true_r by lia. destruct (_ || _); [done|]. by destruct (negb _). }
  assert (Hps : 27 + at0 l 26 <= page_size l) by (unfold page_size; lia).
  rewrite (proj2 (Z.ltb_ge (size h) _)), orb_false_r by lia. rewrite or_else_read_ok by lia.
  fold (piece (page_size l)). rewrite piece_rest by lia. set (p := subarray l 0 (page_size l)).
  assert (Hp : len p = page_size l) by (unfold p; rewrite len_subarray; lia).
  assert (Hpat : forall i, 0 <= i < 27 -> at0 p i = at0 l i) by (intros; unfold p; by rewrite at0_subarray by lia).
  assert (Hpcap : subarray p 0 4 = subarray l 0 4) by (unfold p; by rewrite subarray_subarray by lia).
  rewrite Hpcap, !Hpat by lia. unfold p at 3. rewrite page_size_prefix by lia. fold p.
  destruct (equals (subarray l 0 4) OGG_CAPTURE); cbn [negb orb andb]; [|done].
  destruct (at0 l 4 =? 0); cbn [negb orb andb]; [|done].
  destruct (Z.land (at0 l 5) (Z.lnot 7) =? 0); cbn [negb orb andb]; [|done].
  destruct (Z.ltb_spec OGG_MAX_PAGE_BYTES (page_size l)).
  { by rewrite (proj2 (Z.leb_gt _ _)) by lia. }
  rewrite (proj2 (Z.leb_le _ _)) by lia. cbn [andb].
  unfold OggCrc.hasValidOggCrc, readUInt32LE. rewrite (proj2 (Z.ltb_ge _ _)), read_fixed_ok by lia.
  cbn [mbind exec_bind]. change (22 + 4) with 26. by destruct (_ =? _).
Qed.

(** What [ogg_take] makes of a page of the format. *)
Lemma ogg_take_eq pages st p :
  Forall is_byte p -> 27 <= len p -> len p = page_size p -> 0 <= at0 p 26 ->
  27 + at0 p 26 <= len p -> ogg_inv st ->
  ogg_take (offset, pages, st) (subarray p 0 27) (page_lacing p) p =
  Ok (if negb (continued p && (at0 p 26 =? 0)) && negb (eos p && (0 <? at0 p 26) && (at0 (page_lacing p) (at0 p 26 - 1) =? 255))
      then match ogg_next st p with
           | Some st' => Continue (offset + len p, pages + 1, st')
           | None => Return false
           end
      else Return false).
Proof.
  intros Hb H27 Hsz H26 Hl HI. unfold ogg_take, OGG_FIXED_HEADER_BYTES.
  assert (Hll : len (page_lacing p) = at0 p 26) by (unfold page_lacing; rewrite len_subarray; lia).
  rewrite !at0_subarray by lia. rewrite !Z.add_0_l. fold (page_flags p). fold (bos p) (eos p) (continued p).
  unfold readUInt32LE. rewrite !read_fixed_ok by (rewrite ?len_subarray; lia). cbn [mbind exec_bind].
  rewrite !subarray_subarray by lia. rewrite !Z.add_0_l. change (14 + 4) with 18. change (18 + 4) with 22.
  fold (page_serial p). fold (page_sequence p). rewrite <- andb_assoc, continues_test by done.
  unfold ogg_next, stream_next. destruct (continued p && (at0 p 26 =? 0)); cbn [negb andb]; [done|].
  destruct (stream_refuses (streams st !! page_serial p) (bos p) (continued p) (page_sequence p)); cbn [mbind option_bind].
  { by destruct (negb _). }
  destruct (eos p && continues p); cbn [negb]; [done|].
  assert (Hpb : 27 + at0 p 26 + sum_list (page_lacing p) = len p) by (rewrite Hsz; done). rewrite Hpb.
  unfold opus_next. destruct (opus st) as [o|] eqn:Ho; cbn [mbind exec_bind option_bind]; [|done].
  unfold ogg_inv in HI. rewrite Ho in HI. destruct HI as (ps & Hw & Hst).
  assert (Hwp : whole_page p).
  { split; [done|]. split; [lia|]. unfold page_body. rewrite len_subarray by lia. lia. }
  destruct (acceptPage_spec o ps p Hw Hwp Hst) as (r & -> & _). by destruct r.
Qed.

Lemma ogg_body_spec pages st : ogg_inv st ->
  ogg_body h (offset, pages, st) = Ok
    (match frame_len l with
     | Some n => match ogg_next st (piece n) with
                 | Some st' => Continue (offset + n, pages + 1, st')
                 | None => Return false
                 end
     | None => Return false
     end).
Proof.
  intros HI. rewrite ogg_body_eq. cbn [frame_len ogg_format]. unfold ogg_frame_len.
  pose proof (is_byte_at0 l 26 remaining_bytes) as H26. unfold is_byte in H26.
  rewrite (proj2 (Z.leb_le 0 _)), andb_true_r by lia.
  assert (Hsum : 0 <= sum_list (subarray l 27 (27 + at0 l 26))) by apply lacing_sum_bound, Forall_subarray, remaining_bytes.
  assert (Hps : 27 + at0 l 26 <= page_size l) by (unfold page_size; lia).
  rewrite (proj2 (Z.leb_le (27 + at0 l 26) (page_size l))), andb_true_r by done.
  destruct (Z.leb_spec 27 (len l)); cbn [andb]; [|done].
  destruct (Z.leb_spec (page_size l) (len l)); [|by rewrite andb_false_r].
  rewrite (proj2 (Z.leb_le (27 + at0 l 26) (len l))) by lia. cbn [andb]. cbv zeta.
  set (p := subarray l 0 (page_size l)).
  assert (Hp : len p = page_size l) by (unfold p; rewrite len_subarray; lia).
  assert (Hp26 : at0 p 26 = at0 l 26) by (unfold p; by rewrite at0_subarray by lia).
  assert (Hpsz : page_size p = page_size l) by (unfold p; by rewrite page_size_prefix by lia).
  assert (Hfix : subarray l 0 27 = subarray p 0 27) by (unfold p; by rewrite subarray_subarray by lia).
  assert (Hlac : subarray l 27 (27 + at0 l 26) = page_lacing p).
  { unfold page_lacing. rewrite Hp26. unfold p. by rewrite subarray_subarray by lia. }
  rewrite Hfix, Hlac, ogg_take_eq by (rewrite ?Hp, ?Hp26; (done || lia || by apply Forall_subarray, remaining_bytes)).
  unfold page_wf. rewrite Hp. destruct (equals (subarray p 0 4) OGG_CAPTURE); cbn [andb]; [|done].
  destruct (at0 p 4 =? 0); cbn [andb]; [|done]. destruct (Z.land (at0 p 5) (Z.lnot 7) =? 0); cbn [andb]; [|done].
  destruct (page_size p <=? OGG_MAX_PAGE_BYTES); cbn [andb]; [|done].
  destruct (foldl OggCrc.crc_step 0 (OggCrc.crc_input p) =? _); cbn [andb]; [|done].
  destruct (negb (continued p && _) && negb _); [|done]. rewrite piece_rest by lia. by fold p.
Qed.
End ogg_body.

(** ** The whole file *)
Definition carries (p : list Z) : bool := 0 <? sum_list (page_lacing p).

Lemma ogg_steps pages : forall st st',
  steps ogg_next st pages = Some st' <->
  streams_run (streams st) pages = Some (streams st') /\ opus_run (opus st) pages = Some (opus st') /\
  sawPayload st' = sawPayload st || existsb carries pages.
Proof.
  induction pages as [|p pages IH]; intros st st'; cbn [steps streams_run opus_run existsb].
  - rewrite orb_false_r. split; [intros E; injection E as ->; by split|]. intros (H1 & H2 & H3). injection H1 as H1. injection H2 as H2. f_equal. destruct st, st'; cbn in *. by subst.
  - unfold ogg_next. destruct (stream_next (streams st !! page_serial p) p) as [s|]; cbn [mbind option_bind]; [|split; [done|by intros (? & ? & _)]].
    destruct (opus_next (opus st) p) as [o|]; cbn [mbind option_bind]; [|split; [done|by intros (_ & ? & _)]].
    rewrite IH. cbn [streams opus sawPayload]. by rewrite orb_assoc.
Qed.

Lemma carries_body p : Forall is_byte p -> ogg_page p -> carries p = true <-> page_body p <> [].
Proof.
  intros Hb Hp. apply ogg_page_whole in Hp as (_ & _ & Hsum); [|done]. unfold carries. rewrite Z.ltb_lt, Hsum.
  destruct (page_body p) as [|x l]; [by split|]. rewrite len_cons. pose proof (len_nonneg l). split; [done|lia].
Qed.

Lemma of_serial_pages s pages P : Forall P pages -> Forall P (of_serial s pages).
Proof.
  intros H. apply Forall_forall. intros p [_ Hp]%list_elem_of_filter. by eapply Forall_forall in H.
Qed.

Lemma forallb_values (m : gmap Z OggStreamState) f :
  forallb f (map_to_list m).*2 = true <-> forall s st, m !! s = Some st -> f st = true.
Proof.
  rewrite forallb_forall. split.
  - intros H s st Hs. apply H, list_elem_of_In, list_elem_of_fmap. exists (s, st). split; [done|]. by apply elem_of_map_to_list.
  - intros H st Hst%list_elem_of_In%list_elem_of_fmap. destruct Hst as ([s st'] & -> & Hs).
    apply elem_of_map_to_list in Hs. by eapply H.
Qed.

(** The streams, all over the file. *)
Lemma streams_logical pages : Forall ogg_page pages ->
  (forall s, logical_stream (of_serial s pages)) <->
  exists m, streams_run ∅ pages = Some m /\
    forallb (fun stream => stream_ended stream && negb (continuedPacket stream)) (map_to_list m).*2 = true.
Proof.
  intros Hp. destruct (streams_run_spec pages ∅) as [Hsome Hnone]. split.
  - intros Hl. destruct (streams_run ∅ pages) as [m|] eqn:Hrun.
    + exists m. split; [done|]. apply forallb_values. intros s st Hs. specialize (Hsome m eq_refl s).
      rewrite lookup_empty in Hsome. apply stream_run_spec in Hsome as [_ Hst]. rewrite Hs in Hst.
      specialize (Hl s). apply logical_stream_iff in Hl as [_ Hend]; [|by apply of_serial_pages]. by apply Hend.
    + destruct (Hnone eq_refl) as [s Hs]. rewrite lookup_empty in Hs. specialize (Hl s).
      apply logical_stream_iff in Hl as [Hpre _]; [|by apply of_serial_pages].
      rewrite (proj2 (stream_run_spec _ (stream_of (of_serial s pages)))) in Hs; [done|]. by split.
  - intros (m & Hrun & Hall) s. specialize (Hsome m Hrun s). rewrite lookup_empty in Hsome.
    apply stream_run_spec in Hsome as [Hpre Hst]. apply logical_stream_iff; [by apply of_serial_pages|]. split; [done|].
    intros st Hs. rewrite forallb_values in Hall. apply (Hall s). congruence.
Qed.

Lemma streams_nonempty pages m : pages <> [] -> streams_run ∅ pages = Some m -> 0 < Z.of_nat (base.size m).
Proof.
  intros Hne Hrun. destruct pages as [|p pages]; [done|].
  destruct (streams_run_spec (p :: pages) ∅) as [Hsome _]. specialize (Hsome m Hrun (page_serial p)).
  rewrite lookup_empty in Hsome. apply stream_run_spec in Hsome as [_ Hst].
  destruct (decide (base.size m = 0%nat)) as [Hz|]; [|lia]. apply map_size_empty_inv in Hz as ->.
  rewrite lookup_empty in Hst. unfold stream_of, of_serial in Hst. rewrite filter_cons, decide_True in Hst by done.
  symmetry in Hst. apply fmap_None, last_None in Hst. done.
Qed.

(** What the loop accepts from the start of the file. *)
Lemma ogg_accepts h req :
  tail_steps h (size h) OGG_MAX_PAGES frame_len ogg_next ogg_final (0, 0, ogg_start req) <->
  exists pages, ogg_file (contents h) pages /\ (req = true -> opus_stream pages).
Proof.
  unfold tail_steps. cbn [fst snd]. setoid_rewrite Z.add_0_l. unfold size. rewrite subarray_all. split.
  - intros (pages & st & Hr & Hmax & Hst & Hfin). apply splits_records, (frame_records is_frame) in Hr as [Hc Hf]; [|done|apply contents_bytes].
    pose proof (contents_bytes h) as Hcb. rewrite Hc in Hcb. apply concat_bytes in Hcb.
    assert (Hp : Forall ogg_page pages).
    { apply Forall_forall. intros p Hp. rewrite Forall_forall in Hf, Hcb. apply ogg_page_iff; auto. }
    assert (Hw : Forall whole_page pages).
    { apply Forall_forall. intros p Hin. rewrite Forall_forall in Hp, Hcb. apply ogg_page_whole; auto. }
    apply ogg_steps in Hst as (Hs & Ho & Hsaw). cbn [ogg_start streams opus sawPayload orb] in *.
    unfold ogg_final in Hfin. rewrite Hsaw in Hfin.
    apply andb_true_iff in Hfin as [[[[[H0 H1]%andb_true_iff Hpay]%andb_true_iff _]%andb_true_iff Hop]%andb_true_iff Hends].
    exists pages. split.
    + split; [done|]. split; [done|]. split; [by apply Z.ltb_lt|]. split; [apply streams_logical; eauto|].
      apply existsb_exists in Hpay as (p & Hin%list_elem_of_In & Hcar). exists p. split; [done|].
      rewrite Forall_forall in Hp, Hcb. apply carries_body; auto.
    + intros ->. destruct (acceptPages_spec pages Hw) as (r & Hr & Hiff). apply Hiff.
      apply opus_run_accept in Hr. rewrite Hr in Ho. destruct r as [o|]; [|done]. injection Ho as Ho. rewrite <- Ho in Hop. eauto.
  - intros (pages & (Hc & Hp & Hmax & Hlog & p & Hin & Hbody) & Hopus).
    pose proof (contents_bytes h) as Hcb. rewrite Hc in Hcb. apply concat_bytes in Hcb.
    assert (Hw : Forall whole_page pages).
    { apply Forall_forall. intros q Hq. rewrite Forall_forall in Hp, Hcb. apply ogg_page_whole; auto. }
    apply streams_logical in Hlog as (m & Hrun & Hends); [|done].
    assert (Ho : exists o, opus_run (if req then Some newProfile else None) pages = Some o /\
              match o with Some o => isComplete o | None => true end = true).
    { destruct req; [|exists None; by rewrite opus_run_none].
      destruct (acceptPages_spec pages Hw) as (r & Hr & Hiff). apply opus_run_accept in Hr.
      destruct (proj2 Hiff (Hopus eq_refl)) as (o & -> & Hcomp). eauto. }
    destruct Ho as (o & Ho & Hcomp).
    assert (Hne : pages <> []) by (intros ->; by apply not_elem_of_nil in Hin).
    assert (Hcar : existsb carries pages = true).
    { apply existsb_exists. exists p. split; [by apply list_elem_of_In|]. rewrite Forall_forall in Hp, Hcb. apply carries_body; auto. }
    exists pages, {| streams := m; opus := o; sawPayload := true |}. split.
    { apply splits_records, (frame_records is_frame); [apply contents_bytes|done|]. split; [done|]. apply Forall_forall. intros q Hq.
      rewrite Forall_forall in Hp, Hcb. apply ogg_page_iff; auto. }
    split; [unfold OGG_MAX_PAGES in *; lia|]. split; [by apply ogg_steps|]. unfold ogg_final. cbn [streams opus sawPayload].
    rewrite Hcomp, Hends, (proj2 (Z.ltb_lt _ _) Hmax), (proj2 (Z.ltb_lt _ _) (streams_nonempty _ _ Hne Hrun)).
    rewrite (proj2 (Z.ltb_lt 0 _)); [done|]. destruct pages; [done|]. cbn. lia.
Qed.

Lemma matchesOggStructure_spec (h : FileHandle) (requireOpusProfile : bool) :
  exists b, matchesOggStructure h requireOpusProfile = Ok b /\
    (b = true <-> isFile h = true /\
      exists pages, ogg_file (contents h) pages /\ (requireOpusProfile = true -> opus_stream pages)).
Proof.
  unfold matchesOggStructure. destruct (isFile h); cbn [negb orb]; [|rejects; by intros [? _]].
  destruct (Z.ltb_spec (size h) (OGG_FIXED_HEADER_BYTES + 1)) as [Hs|Hs]; unfold OGG_FIXED_HEADER_BYTES in Hs.
  { rejects. intros [_ (pages & (Hc & Hp & _ & _ & p & Hin & Hbody) & _)].
    pose proof (contents_bytes h) as Hcb. rewrite Hc in Hcb. apply concat_bytes in Hcb.
    rewrite Forall_forall in Hp, Hcb. specialize (Hp p Hin). specialize (Hcb p Hin).
    apply carries_body in Hbody; [|done..]. unfold carries in Hbody. apply Z.ltb_lt in Hbody.
    destruct Hp as (_ & _ & _ & _ & Hlen & _). pose proof (is_byte_at0 p 26 Hcb) as H26. unfold is_byte in H26.
    assert (len p <= size h).
    { unfold size. rewrite Hc. apply list_elem_of_split in Hin as (l1 & l2 & ->). rewrite concat_app. cbn. rewrite !len_app.
      pose proof (len_nonneg (concat l1)). pose proof (len_nonneg (concat l2)). lia. }
    lia. }
  destruct (stateful_loop_spec h (size h) OGG_MAX_PAGES frame_len ogg_next ogg_final ogg_inv (ogg_body h)) with
    (start := 0) (s0 := ogg_start requireOpusProfile) (fuel := S (Z.to_nat (size h))) as (b & Hrun & Hb).
  - apply frame_len_bounds.
  - lia.
  - apply ogg_next_keeps.
  - intros offset frames st Ho HI. by apply ogg_body_spec.
  - lia.
  - unfold ogg_inv. cbn. destruct requireOpusProfile; [|done]. by exists [].
  - done.
  - lia.
  - exists b. split; [exact Hrun|]. rewrite Hb, ogg_accepts. tauto.
Qed.

(** C37: [matchesOggStructure] returns on every file, however the reads are sliced, and accepts exactly
    the regular files of fewer than 100000 checksummed pages in which every logical stream is numbered,
    begun, continued and ended as it should be and some page carries data; with the Opus profile, the
    pages besides carry one Opus stream: its header, comments, and audio packets framed as RFC 6716 says. *)
Theorem matchesOggStructure_correct (h : FileHandle) (requireOpusProfile : bool) :
  exists b, matchesOggStructure h requireOpusProfile = Ok b /\
    (b = true <-> isFile h = true /\
      exists pages, ogg_file (contents h) pages /\ (requireOpusProfile = true -> opus_stream pages)).
Proof. apply matchesOggStructure_spec. Qed.

(** A smallest file of the profile: header, comments, and one packet of one empty frame. *)
Definition example_page (flags granule sequence : Z) (lacing body : list Z) : list Z :=
  let head := OGG_CAPTURE ++ [0; flags] ++ bytesLE 8 granule ++ bytesLE 4 7 ++ bytesLE 4 sequence in
  let tail := [Z.of_nat (length lacing)] ++ lacing ++ body in
  let crc := foldl OggCrc.crc_step 0 (head ++ [0; 0; 0; 0] ++ tail) in
  head ++ bytesLE 4 crc ++ tail.
Definition example_head : list Z := OPUS_HEAD ++ [1; 1; 56; 1; 128; 187; 0; 0; 0; 0; 0].
Definition example_opus (last : Z) : list Z :=
  example_page 2 0 0 [19] example_head ++
  example_page 0 0 1 [17] (OPUS_TAGS ++ text_field [101] ++ bytesLE 4 0) ++
  example_page last 960 2 [1] [0].
Definition accepted (c : list Z) (requireOpusProfile : bool) : option (parser bool) :=
  (fun h => matchesOggStructure h requireOpusProfile) <$> literal_file c.
Example opus_accepted : accepted (example_opus 4) true = Some (Ok true).
Proof. vm_compute. reflexivity. Qed.
Example open_stream_refused : accepted (example_opus 0) true = Some (Ok false).
Proof. vm_compute. reflexivity. Qed.
Example plain_ogg_accepted : accepted (example_page 6 0 0 [1] [0]) false = Some (Ok true).
Proof. vm_compute. reflexivity. Qed.
Example plain_ogg_not_opus : accepted (example_page 6 0 0 [1] [0]) true = Some (Ok false).
Proof. vm_compute. reflexivity. Qed.
