(* ===== verification/IsoBmff.v ===== *)
(** ISO base media files ([media/media-isobmff-structure.ts]): MP4 and 3GP as a sequence of boxes.
    [iso_boxes] describes the sequence; [matchesIsoBmffStructure] accepts exactly the files of a
    [ftyp] box of the right family, after padding at most, and a movie and media data. *)
From stdpp Require Import prelude list strings.
From Stdlib Require Import ZArith Lia.
From S2P Require Import Prelude Buffers FileHandle Codec.
#[local] Open Scope Z_scope.

Inductive IsoBmffMediaMimeType := audio_mp4 | video_mp4 | video_3gpp.
#[export] Instance IsoBmffMediaMimeType_eq_dec : EqDecision IsoBmffMediaMimeType.
Proof. solve_decision. Defined.

(** Names of four characters are their bytes (latin1). *)
Definition FILE_TYPE_BOX : list Z := ascii_bytes "ftyp".
Definition MOVIE_BOX : list Z := ascii_bytes "moov".
Definition MEDIA_DATA_BOX : list Z := ascii_bytes "mdat".
Definition MAX_FILE_TYPE_BOX_BYTES : Z := 4096.
Definition MAX_TOP_LEVEL_BOXES : Z := 4096.
Definition BASIC_BOX_HEADER_BYTES : Z := 8.
Definition EXTENDED_BOX_HEADER_BYTES : Z := 16.
Definition FILE_TYPE_FIXED_PAYLOAD_BYTES : Z := 8.
Definition MAX_SAFE_INTEGER : Z := 2 ^ 53 - 1.
Definition LEADING_BOX_TYPES : list (list Z) := ascii_bytes <$> ["free"; "skip"; "wide"]%string.
Definition MP4_BRANDS : list (list Z) := ascii_bytes <$>
  ["isom"; "mp41"; "mp42"; "avc1"; "M4A "; "M4B "; "M4V "; "dash"; "piff"; "dby1"; "MSNV"; "XAVC"]%string.
Definition has (names : list (list Z)) (name : list Z) : bool := bool_decide (name ∈ names).

Record BoxHeader := { type : list Z; box_size : Z; headerBytes : Z }.
Record FileTypeIdentity := { majorBrand : list Z; compatibleBrands : list (list Z) }.

Definition isPrintableFourCc (value : list Z) : bool :=
  (len value =? 4) && forallb (fun code => (0x20 <=? code) && (code <=? 0x7e)) value.

(** [null] is [None]. *)
Definition parseBoxHeader (bytes : list Z) (offset availableFileBytes : Z) (allowZeroToEnd : bool) : parser (option BoxHeader) :=
  if (offset <? 0) || (len bytes <? offset + BASIC_BOX_HEADER_BYTES) then Ok None else
  size32 ← readUInt32BE bytes offset;
  let type := subarray bytes (offset + 4) (offset + 8) in
  if negb (isPrintableFourCc type) then Ok None else
  if size32 =? 0 then
    if negb allowZeroToEnd || (availableFileBytes <? BASIC_BOX_HEADER_BYTES) then Ok None
    else Ok (Some {| type := type; box_size := availableFileBytes; headerBytes := BASIC_BOX_HEADER_BYTES |})
  else if size32 =? 1 then
    if len bytes <? offset + EXTENDED_BOX_HEADER_BYTES then Ok None else
    size64 ← readBigUInt64BE bytes (offset + 8);
    if MAX_SAFE_INTEGER <? size64 then Ok None else
    if (size64 <? EXTENDED_BOX_HEADER_BYTES) || (availableFileBytes <? size64) then Ok None
    else Ok (Some {| type := type; box_size := size64; headerBytes := EXTENDED_BOX_HEADER_BYTES |})
  else if (size32 <? BASIC_BOX_HEADER_BYTES) || (availableFileBytes <? size32) then Ok None
  else Ok (Some {| type := type; box_size := size32; headerBytes := BASIC_BOX_HEADER_BYTES |}).

(** The loop over the compatible brands; the state is [(offset, compatibleBrands)]. *)
Definition brands_body (box : list Z) (s : Z * list (list Z)) : parser (flow (Z * list (list Z)) (option FileTypeIdentity)) :=
  let '(offset, compatibleBrands) := s in
  let brand := subarray box offset (offset + 4) in
  if negb (isPrintableFourCc brand) then Ok (Return None)
  else Ok (Continue (offset + 4, compatibleBrands ++ [brand])).

Definition parseFileTypeBox (box : list Z) (headerBytes : Z) : parser (option FileTypeIdentity) :=
  let payloadBytes := len box - headerBytes in
  if (payloadBytes <? FILE_TYPE_FIXED_PAYLOAD_BYTES) || negb (Z.rem (payloadBytes - FILE_TYPE_FIXED_PAYLOAD_BYTES) 4 =? 0)
  then Ok None else
  let majorBrand := subarray box headerBytes (headerBytes + 4) in
  if negb (isPrintableFourCc majorBrand) then Ok None else
  out ← while (S (length box)) (fun s => s.1 <? len box) (brands_body box) (headerBytes + FILE_TYPE_FIXED_PAYLOAD_BYTES, []);
  afterwards out (fun s => Ok (Some {| majorBrand := majorBrand; compatibleBrands := s.2 |})).

(** [/^iso[2-9a-d]$/], [/^cmf[2cfls]$/] and [/^(?:3gp|...)[0-9A-Za-z]$/]. *)
Definition char_in (ranges : list (Z * Z)) (c : Z) : bool := existsb (fun r => (r.1 <=? c) && (c <=? r.2)) ranges.
Definition prefix_and (prefix : string) (ranges : list (Z * Z)) (brand : list Z) : bool :=
  (len brand =? 4) && equals (subarray brand 0 3) (ascii_bytes prefix) && char_in ranges (at0 brand 3).
Definition isMp4Brand (brand : list Z) : bool :=
  has MP4_BRANDS brand || prefix_and "iso" [(50, 57); (97, 100)] brand ||
  prefix_and "cmf" [(50, 50); (99, 99); (102, 102); (108, 108); (115, 115)] brand.
Definition is3gppBrand (brand : list Z) : bool :=
  existsb (fun prefix => prefix_and prefix [(48, 57); (65, 90); (97, 122)] brand)
    ["3gp"; "3gr"; "3ge"; "3gg"; "3gh"; "3gm"; "3gs"; "3gt"; "3gv"]%string.

Definition matchesMimeFamily (identity : FileTypeIdentity) (mimeType : IsoBmffMediaMimeType) : bool :=
  let brands := majorBrand identity :: compatibleBrands identity in
  if bool_decide (mimeType = video_3gpp) then existsb is3gppBrand brands else existsb isMp4Brand brands.

(** ** The first bytes: [matchesIsoBmffFileTypeSignature]
    The state of the loop is [(offset, leadingBoxes)]. *)
Definition signature_body (sample : list Z) (mimeType : IsoBmffMediaMimeType) (s : Z * Z) : parser (flow (Z * Z) bool) :=
  let '(offset, leadingBoxes) := s in
  let availableBytes := len sample - offset in
  let? header := parseBoxHeader sample offset availableBytes false else Ok (Return false) in
  if len sample <? offset + box_size header then Ok (Return false) else
  if equals (type header) FILE_TYPE_BOX then
    if MAX_FILE_TYPE_BOX_BYTES <? box_size header then Ok (Return false) else
    let box := subarray sample offset (offset + box_size header) in
    identity ← parseFileTypeBox box (headerBytes header);
    Ok (Return (if identity is Some found then matchesMimeFamily found mimeType else false))
  else if negb (has LEADING_BOX_TYPES (type header)) then Ok (Return false)
  else Ok (Continue (offset + box_size header, leadingBoxes + 1)).
Definition matchesIsoBmffFileTypeSignature (sample : list Z) (mimeType : IsoBmffMediaMimeType) : parser bool :=
  out ← while (S (length sample)) (fun s => (s.1 + BASIC_BOX_HEADER_BYTES <=? len sample) && (s.2 <=? 8))
          (signature_body sample mimeType) (0, 0);
  afterwards out (fun _ => Ok false).

(** ** The whole file: [matchesIsoBmffStructure] *)
Record iso_state := { foundFileType : bool; foundMovie : bool; foundMediaData : bool }.

Definition iso_body (h : FileHandle) (mimeType : IsoBmffMediaMimeType) (s : Z * Z * iso_state)
    : parser (flow (Z * Z * iso_state) bool) :=
  let '(offset, boxCount, st) := s in
  let? fixedHeader := readExactly h (Z.min EXTENDED_BOX_HEADER_BYTES (size h - offset)) offset else Ok (Return false) in
  if len fixedHeader <? BASIC_BOX_HEADER_BYTES then Ok (Return false) else
  let? header := parseBoxHeader fixedHeader 0 (size h - offset) true else Ok (Return false) in
  let isFileType := equals (type header) FILE_TYPE_BOX in
  found ← (if negb (foundFileType st) then
             if negb isFileType && negb (has LEADING_BOX_TYPES (type header)) then Ok None else
             if isFileType then
               if MAX_FILE_TYPE_BOX_BYTES <? box_size header then Ok None else
               let? box := readExactly h (box_size header) offset else Ok None in
               let? found := parseFileTypeBox box (headerBytes header) else Ok None in
               Ok (if matchesMimeFamily found mimeType then Some true else None)
             else Ok (Some false)
           else if isFileType then Ok None
           else Ok (Some true) : parser (option bool));
  match found with
  | None => Ok (Return false)
  | Some found =>
      Ok (Continue (offset + box_size header, boxCount + 1,
        {| foundFileType := found; foundMovie := foundMovie st || equals (type header) MOVIE_BOX;
           foundMediaData := foundMediaData st || equals (type header) MEDIA_DATA_BOX |}))
  end.
Definition iso_start : iso_state := {| foundFileType := false; foundMovie := false; foundMediaData := false |}.
Definition iso_final (boxCount : Z) (st : iso_state) : bool :=
  (0 <? boxCount) && (boxCount <=? MAX_TOP_LEVEL_BOXES) && foundFileType st && foundMovie st && foundMediaData st.
Definition matchesIsoBmffStructure (h : FileHandle) (mimeType : IsoBmffMediaMimeType) : parser bool :=
  if negb (isFile h) || (size h <? 24) then Ok false else
  out ← while (S (Z.to_nat (size h))) (fun s => (s.1.1 <? size h) && (s.1.2 <? MAX_TOP_LEVEL_BOXES))
          (iso_body h mimeType) (0, 0, iso_start);
  afterwards out (fun s => Ok ((s.1.1 =? size h) && iso_final s.1.2 s.2)).

(** ** What such a file is *)
(** A name of four printable characters. *)
Definition four_cc (name : list Z) : Prop := length name = 4%nat /\ Forall (fun c => 0x20 <= c <= 0x7e) name.

(** A box: its name, the bytes of its header, and what it carries. *)
Record box := { box_name : list Z; box_header : Z; box_payload : list Z }.

(** A box states its length, in four bytes or in eight; the last box of a file may leave it open. *)
Definition iso_box (b : list Z) (x : box) : Prop :=
  four_cc (box_name x) /\
  ((box_header x = 8 /\ b = bytesBE 4 (len b) ++ box_name x ++ box_payload x /\ len b < 2 ^ 32) \/
   (box_header x = 16 /\ b = bytesBE 4 1 ++ box_name x ++ bytesBE 8 (len b) ++ box_payload x /\ len b <= MAX_SAFE_INTEGER)).
Definition open_box (b : list Z) (x : box) : Prop :=
  four_cc (box_name x) /\ box_header x = 8 /\ b = bytesBE 4 0 ++ box_name x ++ box_payload x.

(** The payload of a file type box: the major brand, a version, the compatible brands. *)
Definition file_type (payload : list Z) (brands : list (list Z)) : Prop :=
  exists major version compatible, payload = major ++ version ++ concat compatible /\ brands = major :: compatible /\
    length version = 4%nat /\ Forall four_cc brands.
Definition family (mimeType : IsoBmffMediaMimeType) (brand : list Z) : bool :=
  match mimeType with video_3gpp => is3gppBrand brand | _ => isMp4Brand brand end.

(** The file type box that the type of the file asks for. *)
Definition family_box (mimeType : IsoBmffMediaMimeType) (x : box) : Prop :=
  box_name x = FILE_TYPE_BOX /\ box_header x + len (box_payload x) <= MAX_FILE_TYPE_BOX_BYTES /\
  exists brands, file_type (box_payload x) brands /\ Exists (fun b => family mimeType b = true) brands.
Definition leading_box (x : box) : Prop := box_name x ∈ LEADING_BOX_TYPES.

(** The boxes of a file, the last of which may be open, and those at the head of some bytes. *)
Inductive iso_boxes : list Z -> list box -> Prop :=
| iso_nil : iso_boxes [] []
| iso_last b x : open_box b x -> iso_boxes b [x]
| iso_cons b x rest boxes : iso_box b x -> iso_boxes rest boxes -> iso_boxes (b ++ rest) (x :: boxes).

Definition iso_media (mimeType : IsoBmffMediaMimeType) (c : list Z) : Prop :=
  exists leading ftyp boxes, iso_boxes c (leading ++ ftyp :: boxes) /\
    Z.of_nat (length leading + S (length boxes)) <= MAX_TOP_LEVEL_BOXES /\
    Forall leading_box leading /\ family_box mimeType ftyp /\ Forall (fun b => box_name b <> FILE_TYPE_BOX) boxes /\
    MOVIE_BOX ∈ box_name <$> boxes /\ MEDIA_DATA_BOX ∈ box_name <$> boxes.
(** The sample holds at most eight leading boxes and then the file type box, all of them whole. *)
Inductive iso_prefix (mimeType : IsoBmffMediaMimeType) : nat -> list Z -> Prop :=
| prefix_found k b x rest : iso_box b x -> family_box mimeType x -> iso_prefix mimeType k (b ++ rest)
| prefix_leading k b x rest : iso_box b x -> leading_box x -> iso_prefix mimeType k rest -> iso_prefix mimeType (S k) (b ++ rest).

(** ** Box headers read off the rest of the file *)
Definition box_at (l : list Z) (available : Z) (allowZeroToEnd : bool) : option BoxHeader :=
  if len l <? 8 then None else
  let size32 := uintBE (subarray l 0 4) in
  let type := subarray l 4 8 in
  if negb (isPrintableFourCc type) then None else
  if size32 =? 0 then
    if negb allowZeroToEnd || (available <? 8) then None else Some {| type := type; box_size := available; headerBytes := 8 |}
  else if size32 =? 1 then
    if len l <? 16 then None else
    let size64 := uintBE (subarray l 8 16) in
    if (MAX_SAFE_INTEGER <? size64) || (size64 <? 16) || (available <? size64) then None
    else Some {| type := type; box_size := size64; headerBytes := 16 |}
  else if (size32 <? 8) || (available <? size32) then None
  else Some {| type := type; box_size := size32; headerBytes := 8 |}.

Lemma parseBoxHeader_rest bytes offset l available zero : rest_at bytes offset l ->
  parseBoxHeader bytes offset available zero = Ok (box_at l available zero).
Proof.
  intros Hr. pose proof Hr as (Ho & Hl & _). unfold parseBoxHeader, box_at, BASIC_BOX_HEADER_BYTES, EXTENDED_BOX_HEADER_BYTES.
  rewrite (proj2 (Z.ltb_ge offset 0)) by lia. cbn [orb].
  replace (len bytes <? offset + 8) with (len l <? 8) by (apply eq_true_iff_eq; rewrite !Z.ltb_lt; lia).
  destruct (Z.ltb_spec (len l) 8); [done|]. unfold readUInt32BE. rewrite read_fixed_ok by lia. cbn [mbind exec_bind].
  assert (Hsub : forall a b, 0 <= a -> 0 <= b -> subarray bytes (offset + a) (offset + b) = subarray l a b) by (intros; by apply rest_sub).
  assert (H4 : subarray bytes offset (offset + 4) = subarray l 0 4) by (rewrite <- Hsub by lia; by rewrite Z.add_0_r).
  rewrite H4, Hsub by lia.
  destruct (isPrintableFourCc (subarray l 4 8)); cbn [negb]; [|done].
  destruct (uintBE (subarray l 0 4) =? 0); [by destruct (_ || _)|].
  destruct (uintBE (subarray l 0 4) =? 1); [|by destruct (_ || _)].
  replace (len bytes <? offset + 16) with (len l <? 16) by (apply eq_true_iff_eq; rewrite !Z.ltb_lt; lia).
  destruct (Z.ltb_spec (len l) 16); [done|]. unfold readBigUInt64BE. rewrite read_fixed_ok by lia. cbn [mbind exec_bind].
  replace (offset + 8 + 8) with (offset + 16) by lia. rewrite Hsub by lia.
  destruct (MAX_SAFE_INTEGER <? uintBE (subarray l 8 16)); cbn [orb]; [done|]. by destruct (_ || _).
Qed.

(** Sixteen bytes are enough. *)
Lemma box_at_take l available zero : box_at (take 16 l) available zero = box_at l available zero.
Proof.
  unfold box_at. assert (Hlen : len (take 16 l) = Z.min 16 (len l)) by (unfold len; rewrite length_take; lia).
  assert (Hsub : forall a b, 0 <= a <= b -> b <= 16 -> subarray (take 16 l) a b = subarray l a b).
  { intros a b Ha Hb. unfold subarray. rewrite skipn_firstn_comm, take_take. f_equal. lia. }
  rewrite Hlen, !Hsub by lia.
  replace (Z.min 16 (len l) <? 8) with (len l <? 8) by (apply eq_true_iff_eq; rewrite !Z.ltb_lt; lia).
  replace (Z.min 16 (len l) <? 16) with (len l <? 16) by (apply eq_true_iff_eq; rewrite !Z.ltb_lt; lia). done.
Qed.

Lemma printable_iff name : isPrintableFourCc name = true <-> four_cc name.
Proof.
  unfold isPrintableFourCc, four_cc. rewrite andb_true_iff, Z.eqb_eq, forallb_forall, Forall_forall. unfold len.
  split; intros [Hl Hc]; (split; [lia|]); intros c Hin.
  - apply list_elem_of_In in Hin. specialize (Hc c Hin). apply andb_true_iff in Hc as [?%Z.leb_le ?%Z.leb_le]. lia.
  - apply list_elem_of_In in Hin. specialize (Hc c Hin). apply andb_true_iff. rewrite !Z.leb_le. lia.
Qed.

Lemma bytesBE_sub l a n : Forall is_byte l -> 0 <= a -> a + Z.of_nat n <= len l ->
  bytesBE n (uintBE (subarray l a (a + Z.of_nat n))) = subarray l a (a + Z.of_nat n).
Proof.
  intros Hl Ha Hn. set (s := subarray l a (a + Z.of_nat n)).
  assert (Hs : length s = n) by (pose proof (len_subarray l a (a + Z.of_nat n) ltac:(lia) Hn) as E; fold s in E; unfold len in E; lia).
  rewrite <- Hs. apply bytesBE_uintBE. by apply Forall_subarray.
Qed.

(** What a header read off [l] says of the bytes of [l]. *)
Lemma box_at_sound l zero hd : Forall is_byte l -> box_at l (len l) zero = Some hd ->
  let n := box_size hd in
  8 <= n <= len l /\ 
  let x := {| box_name := type hd; box_header := headerBytes hd; box_payload := subarray l (headerBytes hd) n |} in
  8 <= headerBytes hd <= n /\
  (iso_box (subarray l 0 n) x \/ zero = true /\ n = len l /\ open_box l x).
Proof.
  intros Hl. unfold box_at. destruct (Z.ltb_spec (len l) 8); [done|].
  destruct (isPrintableFourCc (subarray l 4 8)) eqn:Hp; cbn [negb]; [|done]. apply printable_iff in Hp.
  pose proof (bytesBE_sub l 0 4 Hl ltac:(lia) ltac:(lia)) as H4. change (0 + Z.of_nat 4) with 4 in H4.
  set (size32 := uintBE (subarray l 0 4)) in *.
  assert (Hr : 0 <= size32 < 2 ^ 32).
  { pose proof (uintBE_range (subarray l 0 4) ltac:(by apply Forall_subarray)) as Hr. rewrite len_subarray in Hr by lia. exact Hr. }
  destruct (Z.eqb_spec size32 0) as [H0|H0].
  { rewrite orb_false_r. destruct zero; cbn [negb]; [|done]. intros [= <-]. cbv zeta; cbn [type box_size headerBytes box_name box_header box_payload].
    split; [lia|]. split; [lia|]. right. split; [done|]. split; [done|]. split; [done|]. split; [done|]. cbv zeta; cbn [type box_size headerBytes box_name box_header box_payload].
    rewrite H0 in H4. rewrite H4, <- !subarray_split by lia. by rewrite subarray_all. }
  destruct (Z.eqb_spec size32 1) as [H1|H1].
  - destruct (Z.ltb_spec (len l) 16); [done|].
    pose proof (bytesBE_sub l 8 8 Hl ltac:(lia) ltac:(lia)) as H8. change (8 + Z.of_nat 8) with 16 in H8.
    set (size64 := uintBE (subarray l 8 16)) in *. destruct (_ || _) eqn:E; [done|]. intros [= <-]. cbv zeta; cbn [type box_size headerBytes box_name box_header box_payload].
    apply orb_false_iff in E as [[Ea%Z.ltb_ge Eb%Z.ltb_ge]%orb_false_iff Ec%Z.ltb_ge].
    split; [lia|]. split; [lia|]. left. split; [done|]. right. split; [done|]. cbv zeta; cbn [type box_size headerBytes box_name box_header box_payload]. rewrite len_subarray by lia.
    rewrite Z.sub_0_r. split; [|lia]. rewrite H1 in H4. rewrite H4, H8, <- !subarray_split by lia. done.
  - destruct (_ || _) eqn:E; [done|]. intros [= <-]. cbv zeta; cbn [type box_size headerBytes box_name box_header box_payload].
    apply orb_false_iff in E as [Ea%Z.ltb_ge Eb%Z.ltb_ge].
    split; [lia|]. split; [lia|]. left. split; [done|]. left. split; [done|]. cbv zeta; cbn [type box_size headerBytes box_name box_header box_payload]. rewrite len_subarray by lia.
    rewrite Z.sub_0_r. split; [|lia]. rewrite H4, <- !subarray_split by lia. done.
Qed.

Lemma four_cc_len name : four_cc name -> len name = 4.
Proof. intros [H _]. unfold len. lia. Qed.

Lemma sub_0 l1 l2 n : len l1 = n -> subarray (l1 ++ l2) 0 n = l1.
Proof. intros <-. rewrite subarray_app_l by (pose proof (len_nonneg l1); lia). apply subarray_all. Qed.
Lemma sub_next l1 l2 a b : 0 <= a <= b -> subarray (l1 ++ l2) (len l1 + a) (len l1 + b) = subarray l2 a b.
Proof.
  intros Ha. pose proof (len_nonneg l1). unfold subarray. replace (Z.to_nat (len l1 + a)) with (length l1 + Z.to_nat a)%nat by (unfold len; lia).
  rewrite <- drop_drop, drop_app_length. f_equal. lia.
Qed.

Lemma open_box_len b x : open_box b x -> len b = 8 + len (box_payload x).
Proof.
  intros (Hc & _ & Hb). rewrite Hb at 1. rewrite !len_app, len_bytesBE, (four_cc_len _ Hc). lia.
Qed.
Lemma iso_box_len b x : iso_box b x -> len b = box_header x + len (box_payload x) /\ 8 <= box_header x.
Proof.
  intros (Hc & [(Hh & Hb & _)|(Hh & Hb & _)]); rewrite Hh; (split; [|lia]).
  - apply (f_equal len) in Hb. rewrite !len_app, len_bytesBE, (four_cc_len _ Hc) in Hb. lia.
  - apply (f_equal len) in Hb. rewrite !len_app, !len_bytesBE, (four_cc_len _ Hc) in Hb. lia.
Qed.

(** The parts of bytes that start like a box. *)
Lemma box_parts size name r : 0 <= size < 2 ^ 32 -> four_cc name ->
  let l := bytesBE 4 size ++ name ++ r in
  (len l <? 8) = false /\ uintBE (subarray l 0 4) = size /\ subarray l 4 8 = name /\ isPrintableFourCc name = true /\
  forall a b, 0 <= a <= b -> subarray l (8 + a) (8 + b) = subarray r a b.
Proof.
  intros Hs Hc l. pose proof (four_cc_len _ Hc) as Hn. pose proof (len_nonneg r).
  assert (H4 : len (bytesBE 4 size) = 4) by by rewrite len_bytesBE.
  split; [unfold l; rewrite !len_app; apply Z.ltb_ge; lia|]. split.
  { unfold l. rewrite sub_0, uintBE_bytesBE by (done || rewrite ?len_bytesBE; cbn; lia). done. }
  split.
  { unfold l. pose proof (subarray_app_mid (bytesBE 4 size) name r) as E. rewrite H4, Hn in E. exact E. }
  split; [by apply printable_iff|]. intros a b Hab. unfold l. rewrite app_assoc.
  rewrite <- (sub_next (bytesBE 4 size ++ name) r a b Hab). rewrite len_app, H4, Hn. done.
Qed.

Lemma box_at_open b x : open_box b x ->
  box_at b (len b) true = Some {| type := box_name x; box_size := len b; headerBytes := box_header x |} /\
  box_payload x = subarray b (box_header x) (len b).
Proof.
  intros Ho. pose proof (open_box_len _ _ Ho) as Hlen. destruct Ho as (Hc & -> & Hb).
  pose proof (box_parts 0 (box_name x) (box_payload x) ltac:(lia) Hc) as Hp. cbv zeta in Hp. rewrite <- Hb in Hp.
  destruct Hp as (H1 & H2 & H3 & H4 & H5). pose proof (len_nonneg (box_payload x)). split.
  - unfold box_at. rewrite H1, H2, H3, H4. cbn [negb orb Z.eqb]. done.
  - replace (len b) with (8 + len (box_payload x)) by lia. rewrite <- (Z.add_0_r 8) at 1. rewrite H5 by lia.
    by rewrite subarray_all.
Qed.

Lemma box_at_closed b x r zero : iso_box b x ->
  box_at (b ++ r) (len (b ++ r)) zero = Some {| type := box_name x; box_size := len b; headerBytes := box_header x |} /\
  box_payload x = subarray b (box_header x) (len b).
Proof.
  intros Hbox. pose proof (iso_box_len _ _ Hbox) as [Hlen Hh8]. pose proof (len_nonneg (box_payload x)). pose proof (len_nonneg r).
  destruct Hbox as (Hc & [(Hh & Hb & Hmax)|(Hh & Hb & Hmax)]); rewrite Hh in *.
  - pose proof (box_parts (len b) (box_name x) (box_payload x ++ r) ltac:(lia) Hc) as Hp. cbv zeta in Hp.
    rewrite !app_assoc, <- (app_assoc _ (box_name x)), <- Hb in Hp. destruct Hp as (H1 & H2 & H3 & H4 & H5). split.
    + unfold box_at. rewrite H1, H2, H3, H4, len_app. cbn [negb].
      by rewrite (proj2 (Z.eqb_neq _ 0)), (proj2 (Z.eqb_neq _ 1)), (proj2 (Z.ltb_ge (len b) 8)), (proj2 (Z.ltb_ge _ (len b))) by lia.
    + pose proof (box_parts (len b) (box_name x) (box_payload x) ltac:(lia) Hc) as Hp. cbv zeta in Hp. rewrite <- Hb in Hp.
      destruct Hp as (_ & _ & _ & _ & Hsub). rewrite Hlen at 1. rewrite <- (Z.add_0_r 8) at 1. rewrite Hsub by lia. by rewrite subarray_all.
  - set (q := bytesBE 8 (len b) ++ box_payload x) in *.
    assert (Hq : len (bytesBE 8 (len b)) = 8) by by rewrite len_bytesBE.
    pose proof (box_parts 1 (box_name x) (q ++ r) ltac:(lia) Hc) as Hp. cbv zeta in Hp.
    rewrite !app_assoc, <- (app_assoc _ (box_name x)), <- Hb in Hp. destruct Hp as (H1 & H2 & H3 & H4 & H5).
    assert (H8 : uintBE (subarray (b ++ r) 8 16) = len b).
    { specialize (H5 0 8 ltac:(lia)). rewrite Z.add_0_r in H5. change (8 + 8) with 16 in H5. rewrite H5. unfold q.
      rewrite <- app_assoc, sub_0, uintBE_bytesBE; [done| |done]. unfold MAX_SAFE_INTEGER in Hmax. cbn. lia. }
    split.
    + unfold box_at. rewrite H1, H2, H3, H4, H8, len_app. cbn [negb Z.eqb Pos.eqb].
      by rewrite (proj2 (Z.ltb_ge _ 16)), (proj2 (Z.ltb_ge MAX_SAFE_INTEGER _)), (proj2 (Z.ltb_ge (len b) 16)), (proj2 (Z.ltb_ge _ (len b))) by lia.
    + pose proof (box_parts 1 (box_name x) q ltac:(lia) Hc) as Hp. cbv zeta in Hp. rewrite <- Hb in Hp.
      destruct Hp as (_ & _ & _ & _ & Hsub). rewrite Hlen at 1. replace (16 + len (box_payload x)) with (8 + (8 + len (box_payload x))) by lia.
      change 16 with (8 + 8). rewrite Hsub by lia. unfold q. rewrite <- Hq at 1. rewrite <- (Z.add_0_r (len (bytesBE _ _))).
      replace (8 + len (box_payload x)) with (len (bytesBE 8 (len b)) + len (box_payload x)) by lia.
      rewrite sub_next by lia. by rewrite subarray_all.
Qed.

(** ** The boxes of a file *)
Definition iso_head (l : list Z) : option Z := box_size <$> box_at l (len l) true.
Definition read_box (b : list Z) : box :=
  match box_at b (len b) true with
  | Some hd => {| box_name := type hd; box_header := headerBytes hd; box_payload := subarray b (headerBytes hd) (len b) |}
  | None => {| box_name := []; box_header := 0; box_payload := [] |}
  end.

Lemma read_open b x : open_box b x -> read_box b = x.
Proof. intros Ho. unfold read_box. destruct (box_at_open _ _ Ho) as [-> Hp]. cbn. rewrite <- Hp. by destruct x. Qed.
Lemma read_closed b x : iso_box b x -> read_box b = x.
Proof.
  intros Hb. unfold read_box. pose proof (box_at_closed _ _ [] true Hb) as H. rewrite app_nil_r in H.
  destruct H as [-> Hp]. cbn. rewrite <- Hp. by destruct x.
Qed.

Lemma iso_head_bounds l n : iso_head l = Some n -> 0 < n <= len l.
Proof.
  unfold iso_head. intros (hd & Hhd & ->)%fmap_Some. unfold box_at in Hhd.
  repeat (case_match; try done); injection Hhd as <-; cbn; rewrite ?orb_false_iff, ?Z.ltb_ge in *; lia.
Qed.

Lemma splits_boxes l boxes : Forall is_byte l ->
  iso_boxes l boxes <-> exists fs, splits iso_head l fs /\ boxes = read_box <$> fs.
Proof.
  intros Hl. split.
  - intros H. clear Hl. induction H as [|b x Ho|b x rest boxes Hb H IH].
    + exists []. split; [constructor|done].
    + destruct (box_at_open _ _ Ho) as [Hat _]. pose proof (open_box_len _ _ Ho). pose proof (len_nonneg (box_payload x)).
      exists [b]. split; [|cbn; by rewrite (read_open _ _ Ho)].
      replace [b] with (take (Z.to_nat (len b)) b :: []) by (unfold len; by rewrite Nat2Z.id, firstn_all).
      constructor; [unfold iso_head; by rewrite Hat|]. unfold len. rewrite Nat2Z.id, drop_all. constructor.
    + destruct IH as (fs & Hs & ->). destruct (box_at_closed _ _ rest true Hb) as [Hat _].
      exists (b :: fs). split; [|cbn; by rewrite (read_closed _ _ Hb)].
      replace (b :: fs) with (take (Z.to_nat (len b)) (b ++ rest) :: fs) by (unfold len; by rewrite Nat2Z.id, take_app_length).
      constructor; [unfold iso_head; by rewrite Hat|]. unfold len. by rewrite Nat2Z.id, drop_app_length.
  - intros (fs & Hs & ->). induction Hs as [|l n fs Hn Hs IH]; [constructor|].
    unfold iso_head in Hn. apply fmap_Some in Hn as (hd & Hhd & ->).
    destruct (box_at_sound _ _ _ Hl Hhd) as (Hb & Hh & Hbox). rewrite fmap_cons.
    assert (Htake : take (Z.to_nat (box_size hd)) l = subarray l 0 (box_size hd)).
    { unfold subarray. rewrite drop_0. f_equal. lia. }
    destruct Hbox as [Hbox|(_ & Hall & Hbox)].
    + rewrite <- (take_drop (Z.to_nat (box_size hd)) l) at 1. rewrite Htake in *. rewrite (read_closed _ _ Hbox).
      constructor; [done|]. apply IH. by apply Forall_drop.
    + rewrite Hall in *. unfold len in *. rewrite Nat2Z.id, firstn_all, drop_all in *.
      rewrite (read_open _ _ Hbox). apply splits_empty in Hs as ->; [|apply iso_head_bounds]. by constructor.
Qed.

(** ** The file type box *)
Fixpoint cut4 (k : nat) (l : list Z) : list (list Z) :=
  match k with O => [] | S k => take 4 l :: cut4 k (drop 4 l) end.

Lemma cut4_concat k : forall l, len l = 4 * Z.of_nat k -> concat (cut4 k l) = l.
Proof.
  induction k as [|k IH]; intros l Hl; cbn; [destruct l; [done|rewrite len_cons in Hl; pose proof (len_nonneg l); lia]|].
  rewrite IH, take_drop; [done|]. pose proof (len_drop l 4 ltac:(lia)) as H. change (Z.to_nat 4) with 4%nat in H. lia.
Qed.

Lemma concat_cut4 fs : Forall (fun f => length f = 4%nat) fs -> cut4 (length fs) (concat fs) = fs.
Proof.
  induction 1 as [|f fs Hf Hfs IH]; [done|]. cbn. by rewrite (take_app_length' f), (drop_app_length' f), IH.
Qed.

Lemma brands_while (b : list Z) k : forall fuel offset acc l, rest_at b offset l -> len l = 4 * Z.of_nat k -> (k < fuel)%nat ->
  while fuel (fun s : Z * list (list Z) => s.1 <? len b) (brands_body b) (offset, acc) =
  Ok (if forallb isPrintableFourCc (cut4 k l) then Continue (len b, acc ++ cut4 k l) else Return None).
Proof.
  induction k as [|k IH]; intros [|fuel] offset acc l Hr Hl Hf; try lia.
  - pose proof Hr as (_ & Ho & _). cbn [while fst]. rewrite (proj2 (Z.ltb_ge _ _)) by lia. cbn. rewrite app_nil_r. do 3 f_equal. lia.
  - pose proof Hr as (Ho & Hlen & _). cbn [while fst cut4 forallb]. rewrite (proj2 (Z.ltb_lt _ _)) by lia.
    cbn [brands_body]. unfold brands_body at 1. rewrite (rest_take _ _ _ 4 Hr) by lia. change (Z.to_nat 4) with 4%nat.
    destruct (isPrintableFourCc (take 4 l)); cbn [negb mbind exec_bind andb]; [|done].
    pose proof (rest_drop _ _ _ 4 Hr ltac:(lia)) as Hr'. change (Z.to_nat 4) with 4%nat in Hr'.
    pose proof (len_drop l 4 ltac:(lia)) as Hd. change (Z.to_nat 4) with 4%nat in Hd.
    rewrite (IH _ _ _ (drop 4 l)); [|done|lia|lia]. by rewrite <- app_assoc.
Qed.

Lemma len_words fs : Forall four_cc fs -> len (concat fs) = 4 * Z.of_nat (length fs).
Proof. induction 1 as [|x fs [Hx _] Hfs IH]; [done|]. cbn. rewrite len_app, IH. unfold len. lia. Qed.

Lemma printable_all fs : forallb isPrintableFourCc fs = true <-> Forall four_cc fs.
Proof.
  rewrite forallb_forall, Forall_forall. setoid_rewrite printable_iff. split; intros H x Hx; apply H, list_elem_of_In; done.
Qed.

(** A file type's payload is a whole number of words, at least two. *)
Lemma file_type_size p brands : file_type p brands -> 8 <= len p /\ Z.rem (len p - 8) 4 = 0.
Proof.
  intros (a & v & c & -> & -> & Hv & Hall). apply Forall_cons_1 in Hall as [Ha Hc].
  rewrite !len_app, (len_words _ Hc), (four_cc_len _ Ha). unfold len. rewrite Hv. split; [lia|].
  replace (4 + (Z.of_nat 4 + 4 * Z.of_nat (length c)) - 8) with (Z.of_nat (length c) * 4) by lia. apply Z.rem_mul. lia.
Qed.

Lemma file_type_cut p k brands : len p - 8 = 4 * Z.of_nat k ->
  let major := subarray p 0 4 in let tail := subarray p 8 (len p) in
  file_type p brands <->
  brands = major :: cut4 k tail /\ isPrintableFourCc major = true /\ forallb isPrintableFourCc (cut4 k tail) = true.
Proof.
  intros Hk major tail. assert (Hlt : len tail = 4 * Z.of_nat k) by (unfold tail; rewrite len_subarray; lia).
  rewrite printable_all, printable_iff. split.
  - intros (a & v & c & Heq & -> & Hv & Hall). apply Forall_cons_1 in Hall as [Ha Hc].
    assert (major = a) as -> by (unfold major; rewrite Heq; apply sub_0; by apply four_cc_len).
    assert (tail = concat c) as Ht.
    { pose proof (subarray_app_r (a ++ v) (concat c)) as E. rewrite <- app_assoc, <- Heq in E.
      rewrite len_app, (four_cc_len _ Ha) in E. unfold len at 1 in E. rewrite Hv in E. exact E. }
    rewrite Ht in *. rewrite (len_words _ Hc) in Hlt. assert (length c = k) as <- by lia.
    rewrite concat_cut4; [done|]. apply (Forall_impl _ _ _ Hc). by intros x [? _].
  - intros (-> & Ha & Hc). exists major, (subarray p 4 8), (cut4 k tail). rewrite cut4_concat by done.
    split; [|split; [done|split; [|by constructor]]].
    + unfold major, tail. rewrite <- !subarray_split by lia. by rewrite subarray_all.
    + pose proof (len_subarray p 4 8 ltac:(lia) ltac:(lia)) as E. unfold len in E at 1. lia.
Qed.

(** A payload that is a file type's gives its brands, and no other does. *)
Lemma parseFileTypeBox_spec (b : list Z) hb : 0 <= hb <= len b ->
  exists o, parseFileTypeBox b hb = Ok o /\
    forall brands, file_type (subarray b hb (len b)) brands <-> exists i, o = Some i /\ brands = majorBrand i :: compatibleBrands i.
Proof.
  intros Hhb. unfold parseFileTypeBox, FILE_TYPE_FIXED_PAYLOAD_BYTES. set (p := subarray b hb (len b)).
  assert (Hp : len p = len b - hb) by (apply len_subarray; lia). rewrite <- Hp.
  destruct (Z.ltb_spec (len p) 8) as [H8|H8]; cbn [orb].
  { exists None. split; [done|]. intros brands. split; [|by intros (? & ? & _)]. intros [? _]%file_type_size. lia. }
  destruct (Z.eqb_spec (Z.rem (len p - 8) 4) 0) as [Hr|Hr]; cbn [negb].
  2: { exists None. split; [done|]. intros brands. split; [|by intros (? & ? & _)]. by intros [_ ?]%file_type_size. }
  assert (Hsub : forall a c, 0 <= a <= c -> c <= len p -> subarray b (hb + a) (hb + c) = subarray p a c).
  { intros a c Ha Hc. unfold p. by rewrite subarray_subarray by lia. }
  pose proof (Hsub 0 4 ltac:(lia) ltac:(lia)) as Hmaj. rewrite Z.add_0_r in Hmaj. rewrite Hmaj.
  set (k := Z.to_nat ((len p - 8) / 4)).
  assert (Hk : len p - 8 = 4 * Z.of_nat k).
  { unfold k. rewrite Z2Nat.id by (apply Z.div_pos; lia). rewrite Z.rem_mod_nonneg in Hr by lia.
    pose proof (Z.div_mod (len p - 8) 4). lia. }
  pose proof (rest_start b (hb + 8) ltac:(lia)) as Htail.
  assert (Hptail : drop (Z.to_nat (hb + 8)) b = subarray p 8 (len p)).
  { rewrite <- subarray_to_end by lia. rewrite <- Hsub by lia. f_equal. lia. }
  rewrite Hptail in Htail. setoid_rewrite (fun brands => file_type_cut p k brands Hk).
  destruct (isPrintableFourCc (subarray p 0 4)); cbn [negb].
  2: { exists None. split; [done|]. intros brands. split; [by intros (_ & ? & _)|by intros (? & ? & _)]. }
  rewrite (brands_while b k _ _ _ _ Htail) by (rewrite ?len_subarray; unfold len in *; lia).
  cbn [mbind exec_bind]. destruct (forallb isPrintableFourCc _); cbn [afterwards].
  - eexists. split; [done|]. intros brands. cbn. split; [intros (-> & _); eexists; by split|by intros (i & [= <-] & ->)].
  - exists None. split; [done|]. intros brands. split; [by intros (_ & _ & ?)|by intros (? & ? & _)].
Qed.

(** The file type box of the family, as the two checks test it. *)
Definition family_test (mimeType : IsoBmffMediaMimeType) (b : list Z) (hb : Z) : bool :=
  match parseFileTypeBox b hb with Ok (Some i) => matchesMimeFamily i mimeType | _ => false end.

Lemma family_test_spec mimeType b hb : 0 <= hb <= len b ->
  family_test mimeType b hb = true <->
  exists brands, file_type (subarray b hb (len b)) brands /\ Exists (fun b => family mimeType b = true) brands.
Proof.
  intros Hhb. unfold family_test. destruct (parseFileTypeBox_spec b hb Hhb) as (o & -> & Ho).
  assert (Hfam : forall i, matchesMimeFamily i mimeType = true <->
            Exists (fun b => family mimeType b = true) (majorBrand i :: compatibleBrands i)).
  { intros i. rewrite Exists_exists. unfold matchesMimeFamily. destruct mimeType; cbn [bool_decide decide_rel];
      rewrite ?bool_decide_false, ?bool_decide_true by done; rewrite existsb_exists; setoid_rewrite list_elem_of_In; done. }
  destruct o as [i|].
  - rewrite Hfam. split; [intros Hi; eexists; split; [apply Ho; eauto|done]|].
    intros (brands & Hb & He). apply Ho in Hb as (i' & [= <-] & ->). done.
  - split; [done|]. intros (brands & Hb & _). by apply Ho in Hb as (? & ? & _).
Qed.

(** ** The loop over the boxes *)
Section structure.
Context (mimeType : IsoBmffMediaMimeType).

(** What one box does to the state; [b] is all of it. *)
Definition iso_next (st : iso_state) (b : list Z) : option iso_state :=
  let x := read_box b in
  let isFileType := equals (box_name x) FILE_TYPE_BOX in
  found ← (if negb (foundFileType st) then
             if isFileType then if (len b <=? MAX_FILE_TYPE_BOX_BYTES) && family_test mimeType b (box_header x) then Some true else None
             else if has LEADING_BOX_TYPES (box_name x) then Some false else None
           else if isFileType then None else Some true);
  Some {| foundFileType := found; foundMovie := foundMovie st || equals (box_name x) MOVIE_BOX;
          foundMediaData := foundMediaData st || equals (box_name x) MEDIA_DATA_BOX |}.

Lemma ftyp_not_leading name : equals name FILE_TYPE_BOX = true -> has LEADING_BOX_TYPES name = false.
Proof. intros ->%equals_true. vm_compute. reflexivity. Qed.

Lemma read_head l hd : Forall is_byte l -> box_at l (len l) true = Some hd ->
  8 <= box_size hd <= len l /\ 8 <= headerBytes hd <= box_size hd /\
  read_box (subarray l 0 (box_size hd)) =
    {| box_name := type hd; box_header := headerBytes hd; box_payload := subarray l (headerBytes hd) (box_size hd) |}.
Proof.
  intros Hl Hhd. destruct (box_at_sound _ _ _ Hl Hhd) as (Hb & Hh & [Hbox|(_ & Hall & Hbox)]); (split; [done|]); (split; [done|]).
  - by apply read_closed.
  - rewrite Hall in *. rewrite subarray_all. by apply read_open.
Qed.

Lemma family_test_ok b hb : 0 <= hb <= len b ->
  (let? found := parseFileTypeBox b hb else Ok None in
   Ok (if matchesMimeFamily found mimeType then Some true else None)) =
  (Ok (if family_test mimeType b hb then Some true else None) : parser (option bool)).
Proof.
  intros Hhb. unfold family_test, or_else. destruct (parseFileTypeBox_spec b hb Hhb) as ([i|] & -> & _); done.
Qed.

Lemma iso_body_spec h offset boxCount st : 0 <= offset < size h ->
  iso_body h mimeType (offset, boxCount, st) = Ok
    (match iso_head (subarray (contents h) offset (size h)) with
     | Some n => match iso_next st (subarray (contents h) offset (offset + n)) with
                 | Some st' => Continue (offset + n, boxCount + 1, st')
                 | None => Return false
                 end
     | None => Return false
     end).
Proof.
  intros Ho. unfold iso_body, EXTENDED_BOX_HEADER_BYTES, BASIC_BOX_HEADER_BYTES.
  set (l := subarray (contents h) offset (size h)).
  assert (Hlen : len l = size h - offset) by (apply len_rest; lia).
  assert (Hl : Forall is_byte l) by apply Forall_subarray, contents_bytes.
  rewrite or_else_read_ok by lia.
  assert (Hfix : subarray (contents h) offset (offset + Z.min 16 (size h - offset)) = take 16 l).
  { unfold l. rewrite <- (take_subarray _ _ (size h)) by lia. rewrite <- Hlen.
    destruct (Z.le_gt_cases 16 (len l)); [by rewrite Z.min_l by lia|]. rewrite Z.min_r by lia.
    fold l. rewrite !take_ge; [done|unfold len in *; lia|unfold len; lia]. }
  rewrite Hfix. unfold or_else at 1. rewrite (parseBoxHeader_rest _ _ _ _ _ (rest_at_0 _)), box_at_take, <- Hlen.
  cbn [mbind exec_bind]. unfold iso_head. destruct (box_at l (len l) true) as [hd|] eqn:Hhd; cbn [fmap option_fmap option_map].
  2: { by destruct (_ <? 8). }
  destruct (read_head l hd Hl Hhd) as (Hbs & Hhb & Hread).
  rewrite (proj2 (Z.ltb_ge _ 8)) by (unfold len in *; rewrite length_take; lia).
  unfold iso_next.
  assert (Hpiece : subarray (contents h) offset (offset + box_size hd) = subarray l 0 (box_size hd)).
  { unfold l. unfold size in *. rewrite subarray_subarray by lia. by rewrite Z.add_0_r. }
  rewrite Hpiece, Hread. cbn [box_name box_header].
  assert (Hbl : len (subarray l 0 (box_size hd)) = box_size hd) by (rewrite len_subarray; lia).
  rewrite Hbl. destruct (foundFileType st); cbn [negb].
  { by destruct (equals (type hd) FILE_TYPE_BOX). }
  destruct (equals (type hd) FILE_TYPE_BOX) eqn:Hft; cbn [negb andb]; [|by destruct (has LEADING_BOX_TYPES (type hd))].
  rewrite Z.ltb_antisym. destruct (box_size hd <=? MAX_FILE_TYPE_BOX_BYTES); cbn [negb andb]; [|done].
  rewrite or_else_read_ok by lia. rewrite Hpiece, family_test_ok by (rewrite Hbl; lia).
  by destruct (family_test mimeType (subarray l 0 (box_size hd)) (headerBytes hd)).
Qed.

(** *** The states along the boxes of a file *)
Definition named (name b : list Z) : bool := equals (box_name (read_box b)) name.

Lemma steps_after fs : forall st, foundFileType st = true ->
  steps iso_next st fs =
  if existsb (named FILE_TYPE_BOX) fs then None
  else Some {| foundFileType := true; foundMovie := foundMovie st || existsb (named MOVIE_BOX) fs;
               foundMediaData := foundMediaData st || existsb (named MEDIA_DATA_BOX) fs |}.
Proof.
  unfold named. induction fs as [|b fs IH]; intros st Hst; cbn [steps existsb].
  - rewrite !orb_false_r. destruct st; cbn in *. by subst.
  - unfold iso_next. rewrite Hst. cbn [negb]. destruct (equals _ FILE_TYPE_BOX); cbn [mbind option_bind orb]; [done|].
    rewrite IH by done. cbn [foundMovie foundMediaData]. by rewrite !orb_assoc.
Qed.

Definition leading_test (b : list Z) : bool := has LEADING_BOX_TYPES (box_name (read_box b)).
Definition ftyp_test (b : list Z) : bool :=
  named FILE_TYPE_BOX b && (len b <=? MAX_FILE_TYPE_BOX_BYTES) && family_test mimeType b (box_header (read_box b)).

Lemma leading_plain b : leading_test b = true ->
  named FILE_TYPE_BOX b = false /\ named MOVIE_BOX b = false /\ named MEDIA_DATA_BOX b = false.
Proof.
  unfold leading_test, has, named. rewrite bool_decide_eq_true. intros Hin.
  assert (Forall (fun n => equals n FILE_TYPE_BOX = false /\ equals n MOVIE_BOX = false /\ equals n MEDIA_DATA_BOX = false) LEADING_BOX_TYPES) as Hall.
  { repeat constructor. }
  by rewrite Forall_forall in Hall; apply Hall.
Qed.

Lemma steps_before fs : forall st st', foundFileType st = false -> steps iso_next st fs = Some st' ->
  foundFileType st' = true ->
  exists leading f rest, fs = leading ++ f :: rest /\ Forall (fun b => leading_test b = true) leading /\ ftyp_test f = true /\
    existsb (named FILE_TYPE_BOX) rest = false /\
    foundMovie st' = foundMovie st || existsb (named MOVIE_BOX) rest /\
    foundMediaData st' = foundMediaData st || existsb (named MEDIA_DATA_BOX) rest.
Proof.
  induction fs as [|b fs IH]; intros st st' Hst Hs Hst'; cbn [steps] in Hs; [by injection Hs as <-; congruence|].
  apply bind_Some in Hs as (st1 & H1 & Hs). unfold iso_next in H1. rewrite Hst in H1. cbn [negb] in H1.
  destruct (equals (box_name (read_box b)) FILE_TYPE_BOX) eqn:Hft.
  - destruct (_ && _) eqn:Hok; [|done]. injection H1 as <-. rewrite steps_after in Hs by done. cbn [foundMovie foundMediaData] in Hs.
    destruct (existsb (named FILE_TYPE_BOX) fs) eqn:He; [done|]. injection Hs as <-. exists [], b, fs.
    apply andb_true_iff in Hok as [Hok1 Hok2].
    assert (Hm : equals (box_name (read_box b)) MOVIE_BOX = false /\ equals (box_name (read_box b)) MEDIA_DATA_BOX = false).
    { apply equals_true in Hft. rewrite Hft. by split. }
    destruct Hm as [-> ->]. rewrite !orb_false_r. repeat split; try done.
    unfold ftyp_test, named. by rewrite Hft, Hok1, Hok2.
  - destruct (has LEADING_BOX_TYPES _) eqn:Hlead; [|done]. injection H1 as <-.
    pose proof (fun H => IH _ _ H Hs Hst') as IH'. destruct (IH' eq_refl) as (leading & f & rest & -> & Hall & Hf & He & Hm & Hd).
    pose proof (leading_plain b Hlead) as (_ & H2 & H3). unfold named in H2, H3. cbn [foundMovie foundMediaData] in Hm, Hd.
    rewrite H2, orb_false_r in Hm. rewrite H3, orb_false_r in Hd.
    exists (b :: leading), f, rest. repeat split; try done. by constructor.
Qed.

Lemma iso_next_leading st b : foundFileType st = false -> leading_test b = true -> iso_next st b = Some st.
Proof.
  intros Hst Hb. unfold iso_next. rewrite Hst. pose proof (leading_plain b Hb) as (H1 & H2 & H3).
  unfold named, leading_test in *. rewrite H1, H2, H3, Hb. cbn. rewrite !orb_false_r. destruct st; cbn in *. by subst.
Qed.

Lemma steps_leading leading st rest : foundFileType st = false -> Forall (fun b => leading_test b = true) leading ->
  steps iso_next st (leading ++ rest) = steps iso_next st rest.
Proof.
  intros Hst. induction 1 as [|b leading Hb Hall IH]; [done|].
  cbn [app steps]. by rewrite iso_next_leading.
Qed.

Lemma len_cut_to n (l : list Z) : 0 < n <= len l -> len (take (Z.to_nat n) l) = n.
Proof. unfold len. rewrite length_take. lia. Qed.

Lemma named_iff name fs : existsb (named name) fs = true <-> name ∈ box_name <$> (read_box <$> fs).
Proof.
  rewrite existsb_exists, <- list_fmap_compose, list_elem_of_fmap. unfold named.
  setoid_rewrite list_elem_of_In. setoid_rewrite equals_true. split; intros (x & H1 & H2); exists x; naive_solver.
Qed.

(** Every piece was at the head of the rest of the file. *)
Lemma splits_piece c fs f : Forall is_byte c -> splits iso_head c fs -> f ∈ fs ->
  exists l hd, Forall is_byte l /\ box_at l (len l) true = Some hd /\ len f = box_size hd /\ f = subarray l 0 (box_size hd).
Proof.
  intros Hc Hs. induction Hs as [|l n fs Hn Hs IH]; [by intros ?%not_elem_of_nil|].
  intros [->|Hin]%elem_of_cons; [|apply IH; [by apply Forall_drop|done]].
  pose proof (iso_head_bounds _ _ Hn). apply fmap_Some in Hn as (hd & Hhd & ->).
  exists l, hd. split; [done|]. split; [done|]. split; [by apply len_cut_to|]. unfold subarray. rewrite drop_0. f_equal. lia.
Qed.

Lemma ftyp_test_iff c fs f : Forall is_byte c -> splits iso_head c fs -> f ∈ fs ->
  ftyp_test f = true <-> family_box mimeType (read_box f).
Proof.
  intros Hc Hs Hin. destruct (splits_piece _ _ _ Hc Hs Hin) as (l & hd & Hl & Hhd & Hn & Hf).
  destruct (read_head l hd Hl Hhd) as (Hbs & Hhb & Hread). rewrite <- Hf in Hread.
  unfold ftyp_test, named, family_box. rewrite Hread. cbn [box_name box_header box_payload].
  rewrite !andb_true_iff, equals_true, Z.leb_le, family_test_spec by (rewrite Hn; lia).
  assert (Hpay : subarray f (headerBytes hd) (len f) = subarray l (headerBytes hd) (box_size hd)).
  { rewrite Hn, Hf at 1. by rewrite subarray_subarray by lia. }
  rewrite Hpay, len_subarray, Hn by lia. replace (headerBytes hd + (box_size hd - headerBytes hd)) with (box_size hd) by lia. tauto.
Qed.

(** What the walk accepts, in the words of the description. *)
Lemma iso_accepts c : Forall is_byte c ->
  (exists fs st', splits iso_head c fs /\ Z.of_nat (length fs) <= MAX_TOP_LEVEL_BOXES /\
     steps iso_next iso_start fs = Some st' /\ iso_final (Z.of_nat (length fs)) st' = true) <->
  iso_media mimeType c.
Proof.
  intros Hc. unfold iso_media. setoid_rewrite (fun boxes => splits_boxes c boxes Hc).
  assert (Hlead : forall leading, Forall (fun b => leading_test b = true) leading <-> Forall leading_box (read_box <$> leading)).
  { intros leading. rewrite Forall_fmap. apply Forall_iff. intros b. unfold leading_test, has. by rewrite bool_decide_eq_true. }
  assert (Hplain : forall rest, existsb (named FILE_TYPE_BOX) rest = false <-> Forall (fun b => box_name b <> FILE_TYPE_BOX) (read_box <$> rest)).
  { intros rest. rewrite <- not_true_iff_false, named_iff, Forall_fmap, Forall_forall, list_elem_of_fmap. setoid_rewrite list_elem_of_fmap.
    split; [intros H b Hb E; apply H; by eauto 6|intros H (x & Hx & b & -> & Hb); by apply (H b)]. }
  split.
  - intros (fs & st' & Hs & Hmax & Hst & Hfin). unfold iso_final in Hfin.
    apply andb_true_iff in Hfin as [[[_ Hfound]%andb_true_iff Hmovie]%andb_true_iff Hdata].
    destruct (steps_before fs iso_start st' eq_refl Hst Hfound) as (leading & f & rest & -> & Hl & Hf & Hno & Hm & Hd).
    rewrite Hm in Hmovie. rewrite Hd in Hdata. exists (read_box <$> leading), (read_box f), (read_box <$> rest).
    split; [exists (leading ++ f :: rest); by rewrite fmap_app|]. rewrite !length_fmap.
    split; [by rewrite length_app in Hmax|]. split; [by apply Hlead|].
    split; [apply (ftyp_test_iff c (leading ++ f :: rest)); [done|done|apply elem_of_app; right; by left|done]|].
    split; [by apply Hplain|]. split; by apply named_iff.
  - intros (leading & ftyp & boxes & (fs & Hs & Hfs) & Hmax & Hl & Hf & Hno & Hm & Hd).
    symmetry in Hfs. apply fmap_app_inv in Hfs as (fl & fr & -> & Hfr & ->).
    symmetry in Hfr. apply fmap_cons_inv in Hfr as (f & rest & -> & -> & ->).
    exists (fl ++ f :: rest). eexists. split; [done|]. rewrite !length_fmap in Hmax. rewrite length_app. cbn [length].
    split; [done|]. apply Hlead in Hl. apply Hplain in Hno. apply named_iff in Hm, Hd.
    apply (ftyp_test_iff c (fl ++ f :: rest)) in Hf; [|done|done|apply elem_of_app; right; by left].
    unfold ftyp_test in Hf. apply andb_true_iff in Hf as [[Hft Hsz]%andb_true_iff Hfam]. unfold named in Hft.
    rewrite steps_leading by done. cbn [steps]. unfold iso_next. cbn [iso_start foundFileType foundMovie foundMediaData negb orb].
    rewrite Hft, Hsz, Hfam. cbn [andb mbind option_bind]. rewrite steps_after, Hno by done. cbn [foundMovie foundMediaData].
    split; [done|]. unfold iso_final. cbn [foundFileType foundMovie foundMediaData]. rewrite Hm, Hd, !orb_true_r.
    rewrite (proj2 (Z.ltb_lt 0 _)), (proj2 (Z.leb_le _ _)) by lia. done.
Qed.
End structure.

Lemma iso_boxes_size c boxes : iso_boxes c boxes -> 8 * Z.of_nat (length boxes) <= len c.
Proof.
  induction 1 as [|b x Ho|b x rest boxes Hb H IH]; [done| |].
  - rewrite (open_box_len _ _ Ho). pose proof (len_nonneg (box_payload x)). cbn. lia.
  - pose proof (iso_box_len _ _ Hb) as [Hl ?]. pose proof (len_nonneg (box_payload x)). rewrite len_app. cbn [length]. lia.
Qed.

Lemma iso_media_size mimeType c : iso_media mimeType c -> 24 <= len c.
Proof.
  intros (leading & ftyp & boxes & Hb & _ & _ & _ & _ & Hm & Hd). apply iso_boxes_size in Hb.
  rewrite length_app in Hb. cbn [length] in Hb.
  assert (2 <= length boxes)%nat; [|lia].
  destruct boxes as [|x [|y boxes]]; [by apply not_elem_of_nil in Hm| |cbn; lia].
  cbn in Hm, Hd. apply list_elem_of_singleton in Hm, Hd. rewrite <- Hm in Hd. discriminate.
Qed.

Lemma matchesIsoBmffStructure_spec (h : FileHandle) (mimeType : IsoBmffMediaMimeType) :
  exists b, matchesIsoBmffStructure h mimeType = Ok b /\
    (b = true <-> isFile h = true /\ iso_media mimeType (contents h)).
Proof.
  unfold matchesIsoBmffStructure. destruct (isFile h); cbn [negb orb]; [|rejects; by intros [? _]].
  destruct (Z.ltb_spec (size h) 24) as [Hs|Hs].
  { rejects. intros [_ Hm]. apply iso_media_size in Hm. unfold size in Hs. lia. }
  destruct (stateful_loop_spec h (size h) MAX_TOP_LEVEL_BOXES iso_head (iso_next mimeType) iso_final (fun _ => True)
    (iso_body h mimeType)) with (start := 0) (s0 := iso_start) (fuel := S (Z.to_nat (size h))) as (b & Hrun & Hb);
    [apply iso_head_bounds|lia|done| |lia|done|done|lia|].
  - intros offset frames st Ho _. by apply iso_body_spec.
  - exists b. split; [exact Hrun|]. rewrite Hb. unfold tail_steps. cbn [fst snd]. setoid_rewrite Z.add_0_l.
    unfold size. rewrite subarray_all, iso_accepts by apply contents_bytes. tauto.
Qed.


(** ** The first bytes of a file *)
Lemma box_at_false l hd : box_at l (len l) false = Some hd -> box_at l (len l) true = Some hd.
Proof.
  unfold box_at. destruct (len l <? 8); [done|]. destruct (negb _); [done|]. destruct (uintBE (subarray l 0 4) =? 0); [done|]. done.
Qed.

Lemma signature_box_spec sample mimeType offset leading l : Forall is_byte sample -> rest_at sample offset l ->
  signature_body sample mimeType (offset, leading) =
  Ok match box_at l (len l) false with
     | None => Return false
     | Some hd =>
         let b := subarray l 0 (box_size hd) in
         if equals (type hd) FILE_TYPE_BOX then
           Return ((box_size hd <=? MAX_FILE_TYPE_BOX_BYTES) && family_test mimeType b (headerBytes hd))
         else if has LEADING_BOX_TYPES (type hd) then Continue (offset + box_size hd, leading + 1) else Return false
     end.
Proof.
  intros Hs Hr. pose proof Hr as (Ho & Hlen & _). assert (Hl : Forall is_byte l) by by eapply rest_bytes.
  unfold signature_body, or_else. replace (len sample - offset) with (len l) by lia.
  rewrite (parseBoxHeader_rest _ _ _ _ _ Hr). cbn [mbind exec_bind].
  destruct (box_at l (len l) false) as [hd|] eqn:Hhd; [|done].
  destruct (read_head l hd Hl (box_at_false _ _ Hhd)) as (Hbs & Hhb & _).
  rewrite (proj2 (Z.ltb_ge _ _)) by lia.
  pose proof (rest_sub _ _ _ 0 (box_size hd) Hr ltac:(lia) ltac:(lia)) as Hsub. rewrite Z.add_0_r in Hsub.
  destruct (equals (type hd) FILE_TYPE_BOX); [|by destruct (has LEADING_BOX_TYPES (type hd))].
  rewrite Z.ltb_antisym. destruct (box_size hd <=? MAX_FILE_TYPE_BOX_BYTES); cbn [negb andb]; [|done].
  rewrite Hsub. unfold family_test.
  destruct (parseFileTypeBox_spec (subarray l 0 (box_size hd)) (headerBytes hd)) as (o & -> & _); [rewrite len_subarray; lia|].
  by destruct o.
Qed.

Lemma iso_prefix_inv mimeType k l : Forall is_byte l -> iso_prefix mimeType k l <->
  exists hd, box_at l (len l) false = Some hd /\
    let b := subarray l 0 (box_size hd) in
    (family_box mimeType (read_box b) \/
     exists k', k = S k' /\ leading_box (read_box b) /\ iso_prefix mimeType k' (drop (Z.to_nat (box_size hd)) l)).
Proof.
  intros Hl.
  assert (Hhead : forall b x rest, iso_box b x -> exists hd, box_at (b ++ rest) (len (b ++ rest)) false = Some hd /\
            subarray (b ++ rest) 0 (box_size hd) = b /\ read_box b = x /\ drop (Z.to_nat (box_size hd)) (b ++ rest) = rest).
  { intros b x rest Hb. destruct (box_at_closed _ _ rest false Hb) as [Hat _]. eexists. split; [done|]. cbn [box_size].
    split; [by apply sub_0|]. split; [by apply read_closed|]. unfold len. by rewrite Nat2Z.id, drop_app_length. }
  split.
  - intros H. destruct H as [k b x rest Hb Hf|k b x rest Hb Hle Hrest];
      destruct (Hhead b x rest Hb) as (hd & Hat & Hsub & Hread & Hdrop); exists hd; (split; [done|]); cbv zeta; rewrite Hsub, Hread.
    + by left.
    + right. exists k. rewrite Hdrop. done.
  - intros (hd & Hhd & Hcase). cbv zeta in Hcase. pose proof (box_at_sound _ _ _ Hl Hhd) as (Hbs & _ & Hbox).
    destruct Hbox as [Hbox|[? _]]; [|done]. set (b := subarray l 0 (box_size hd)) in *.
    assert (Hsplit : l = b ++ drop (Z.to_nat (box_size hd)) l).
    { rewrite <- (take_drop (Z.to_nat (box_size hd)) l) at 1. f_equal. unfold b, subarray. rewrite drop_0. f_equal. lia. }
    rewrite (read_closed _ _ Hbox) in Hcase. rewrite Hsplit. destruct Hcase as [Hf|(k' & -> & Hle & Hrest)].
    + by eapply prefix_found.
    + by eapply prefix_leading.
Qed.

(** One turn decides, or leaves it to what follows a leading box. *)
Lemma signature_turn sample mimeType offset leading l : Forall is_byte sample -> rest_at sample offset l ->
  exists out, signature_body sample mimeType (offset, leading) = Ok out /\
    match out with
    | Return b => forall k, b = true <-> iso_prefix mimeType k l
    | Continue (offset', leading') =>
        exists n, 0 < n <= len l /\ offset' = offset + n /\ leading' = leading + 1 /\
          forall k, iso_prefix mimeType k l <-> exists k', k = S k' /\ iso_prefix mimeType k' (drop (Z.to_nat n) l)
    end.
Proof.
  intros Hs Hr. assert (Hl : Forall is_byte l) by by eapply rest_bytes.
  rewrite (signature_box_spec _ _ _ _ l Hs Hr). eexists. split; [done|].
  pose proof (fun k => iso_prefix_inv mimeType k l Hl) as Hinv.
  destruct (box_at l (len l) false) as [hd|] eqn:Hhd.
  2: { intros k. rewrite Hinv. split; [done|by intros (? & ? & _)]. }
  destruct (read_head l hd Hl (box_at_false _ _ Hhd)) as (Hbs & Hhb & Hread).
  assert (Hbl : len (subarray l 0 (box_size hd)) = box_size hd) by (rewrite len_subarray; lia).
  assert (Hfam : family_box mimeType (read_box (subarray l 0 (box_size hd))) <->
    equals (type hd) FILE_TYPE_BOX = true /\
    (box_size hd <=? MAX_FILE_TYPE_BOX_BYTES) && family_test mimeType (subarray l 0 (box_size hd)) (headerBytes hd) = true).
  { rewrite Hread. unfold family_box. cbn [box_name box_header box_payload].
    rewrite equals_true, andb_true_iff, Z.leb_le, family_test_spec by (rewrite Hbl; lia).
    rewrite Hbl, subarray_subarray, !Z.add_0_l, len_subarray by lia.
    by replace (headerBytes hd + (box_size hd - headerBytes hd)) with (box_size hd) by lia. }
  assert (Hlead : leading_box (read_box (subarray l 0 (box_size hd))) <-> has LEADING_BOX_TYPES (type hd) = true).
  { rewrite Hread. unfold leading_box, has. by rewrite bool_decide_eq_true. }
  cbv zeta in *. destruct (equals (type hd) FILE_TYPE_BOX) eqn:Hft.
  - intros k. rewrite Hinv. split.
    + intros Hok. exists hd. split; [done|]. left. by apply Hfam.
    + intros (? & [= <-] & [Hf|(? & _ & Hle & _)]); [by apply Hfam|]. apply Hlead in Hle.
      by rewrite (ftyp_not_leading _ Hft) in Hle.
  - assert (Hno : ~ family_box mimeType (read_box (subarray l 0 (box_size hd)))) by (rewrite Hfam; by intros [? _]).
    destruct (has LEADING_BOX_TYPES (type hd)).
    + exists (box_size hd). split; [lia|]. split; [done|]. split; [done|]. intros k. rewrite Hinv. split.
      * intros (? & [= <-] & [Hf|(k' & -> & _ & Hk)]); [done|]. eauto.
      * intros (k' & -> & Hk). exists hd. split; [done|]. right. exists k'. split; [done|]. split; [by apply Hlead|done].
    + intros k. rewrite Hinv. split; [done|]. intros (? & [= <-] & [Hf|(k' & -> & Hle & _)]); [done|]. by apply Hlead in Hle.
Qed.

Lemma iso_prefix_short mimeType k l : Forall is_byte l -> len l < 8 -> ~ iso_prefix mimeType k l.
Proof.
  intros Hl H8. rewrite (iso_prefix_inv mimeType k l Hl). intros (hd & Hhd & _). unfold box_at in Hhd.
  by rewrite (proj2 (Z.ltb_lt (len l) 8)) in Hhd.
Qed.

Lemma signature_while sample mimeType k : forall fuel offset leading l, Forall is_byte sample -> rest_at sample offset l ->
  leading = 8 - Z.of_nat k -> (length l < fuel)%nat ->
  exists b, (out ← while fuel (fun s => (s.1 + BASIC_BOX_HEADER_BYTES <=? len sample) && (s.2 <=? 8))
               (signature_body sample mimeType) (offset, leading);
             afterwards out (fun _ => Ok false)) = Ok b /\ (b = true <-> iso_prefix mimeType k l).
Proof.
  unfold BASIC_BOX_HEADER_BYTES.
  induction k as [|k IH]; intros [|fuel] offset leading l Hs Hr Hk Hf; try lia;
    pose proof Hr as (Ho & Hlen & _); assert (Hl : Forall is_byte l) by (by eapply rest_bytes);
    cbn [while fst snd]; rewrite (proj2 (Z.leb_le leading 8)), andb_true_r by lia;
    (destruct (Z.leb_spec (offset + 8) (len sample)) as [H8|H8];
      [|rejects; intros Hp; exfalso; revert Hp; apply iso_prefix_short; (done || lia)]);
    destruct (signature_turn sample mimeType offset leading l Hs Hr) as ([[offset' leading']|b] & -> & Hout);
    cbn [mbind exec_bind].
  - destruct Hout as (n & Hn & -> & -> & Hiff). exists false. split.
    + destruct fuel; cbn [while fst snd]; by rewrite (proj2 (Z.leb_gt _ 8)), andb_false_r by lia.
    + rewrite Hiff. split; [done|by intros (? & ? & _)].
  - exists b. split; [done|]. apply Hout.
  - destruct Hout as (n & Hn & -> & -> & Hiff).
    destruct (IH fuel (offset + n) (leading + 1) (drop (Z.to_nat n) l)) as (b & Hrun & Hb);
      [done|apply rest_drop; (done || lia)|lia|rewrite length_drop; unfold len in *; lia|].
    exists b. split; [exact Hrun|]. rewrite Hb, Hiff. split; [eauto|by intros (? & [= <-] & ?)].
  - exists b. split; [done|]. apply Hout.
Qed.

(** The sample is accepted exactly when it holds a file type box of the family after at most eight
    leading boxes. *)
Lemma matchesIsoBmffFileTypeSignature_spec sample mimeType : Forall is_byte sample ->
  exists b, matchesIsoBmffFileTypeSignature sample mimeType = Ok b /\ (b = true <-> iso_prefix mimeType 8 sample).
Proof. intros Hs. apply signature_while; [done|apply rest_at_0|lia|lia]. Qed.
