(* ===== verification/Pdf.v ===== *)
(** PDF files ([media/media-pdf-structure.ts]): a version line near the start, and at the end a
    [startxref] section whose offset leads to a cross-reference table or stream.  Text is latin1, one
    character to a byte, so it is modelled by the bytes; the regular expressions are the functions
    [version_header], [section_at], [xref_table] and [xref_object]. *)
From stdpp Require Import prelude list strings.
From Stdlib Require Import ZArith Lia.
From S2P Require Import Prelude Buffers FileHandle.
#[local] Open Scope Z_scope.

Definition PDF_HEADER_SEARCH_BYTES : Z := 1024.
Definition PDF_TAIL_SEARCH_BYTES : Z := 64 * 1024.
Definition PDF_XREF_TARGET_BYTES : Z := 128.
Definition PDF_WHITESPACE_BYTES : list Z := [0x00; 0x09; 0x0a; 0x0c; 0x0d; 0x20].

(** [\s] and [[0-9]] on the characters of latin1. *)
Definition is_space (c : Z) : bool := existsb (Z.eqb c) [0x09; 0x0a; 0x0b; 0x0c; 0x0d; 0x20; 0xa0].
Definition is_digit (c : Z) : bool := (0x30 <=? c) && (c <=? 0x39).

(** The text after a literal, and a greedy run of characters with what follows it. *)
Definition after (literal l : list Z) : option (list Z) :=
  if equals (take (length literal) l) literal then Some (drop (length literal) l) else None.
Fixpoint run (test : Z -> bool) (l : list Z) : list Z * list Z :=
  match l with
  | [] => ([], [])
  | c :: l' => if test c then let '(a, b) := run test l' in (c :: a, b) else ([], l)
  end.
(** One or more characters.  What follows a run in the expressions starts with a character outside of
    it, so that a match never gives characters of a run back. *)
Definition some_of (test : Z -> bool) (l : list Z) : option (list Z * list Z) :=
  let '(a, b) := run test l in if bool_decide (a = []) then None else Some (a, b).

(** [text.indexOf(literal)], as the text from there on. *)
Fixpoint from_first (literal l : list Z) : option (list Z) :=
  if equals (take (length literal) l) literal then Some l
  else match l with [] => None | _ :: l => from_first literal l end.

(** [PDF_VERSION_HEADER = /^%PDF-(?:1\.[0-9]|2\.0)(?:\r\n|\r|\n)/] *)
Definition version_header (l : list Z) : bool :=
  match after (ascii_bytes "%PDF-") l with
  | Some (major :: dot :: minor :: eol :: _) =>
      (dot =? 0x2e) && (((major =? 0x31) && is_digit minor) || ((major =? 0x32) && (minor =? 0x30))) &&
      ((eol =? 0x0d) || (eol =? 0x0a))
  | _ => false
  end.
Definition hasVersionedHeader (prefix : list Z) : bool :=
  match from_first (ascii_bytes "%PDF-") prefix with Some l => version_header l | None => false end.

(** [PDF_FINAL_SECTION = /startxref\s+([0-9]+)\s+%%EOF/g] at one place: the digits and what follows. *)
Definition section_at (l : list Z) : option (list Z * list Z) :=
  l ← after (ascii_bytes "startxref") l;
  '(_, l) ← some_of is_space l;
  '(digits, l) ← some_of is_digit l;
  '(_, l) ← some_of is_space l;
  l ← after (ascii_bytes "%%EOF") l;
  Some (digits, l).
(** [PDF_FINAL_SECTION.exec(text)] from [lastIndex], given the text from there: the next match. *)
Fixpoint exec_section (l : list Z) : option (list Z * list Z) :=
  match section_at l with
  | Some m => Some m
  | None => match l with [] => None | _ :: l => exec_section l end
  end.

(** [Number.parseInt(digits, 10)], exact: the code only compares it with bounds below [2 ^ 53], where
    rounding to binary64 changes nothing. *)
Definition parseInt (digits : list Z) : Z := foldl (fun n c => 10 * n + (c - 0x30)) 0 digits.

Definition isPdfWhitespace (bytes : list Z) : bool := forallb (fun value => existsb (Z.eqb value) PDF_WHITESPACE_BYTES) bytes.

(** [toString("latin1").replaceAll("\u0000", " ")] *)
Definition latin1 (bytes : list Z) : list Z := (fun c => if c =? 0 then 0x20 else c) <$> bytes.

(** The state of the loop is [(lastIndex, accepted)]. *)
Fixpoint sections (fuel : nat) (tail : list Z) (lastIndex : Z) (accepted : option Z) : parser (option Z) :=
  match fuel with
  | O => OutOfFuel
  | S fuel =>
      match exec_section (drop (Z.to_nat lastIndex) (latin1 tail)) with
      | None => Ok accepted
      | Some (digits, rest) =>
          let stop := len tail - len rest in
          let trailing := subarray tail stop (len tail) in
          if negb (isPdfWhitespace trailing) then sections fuel tail stop accepted
          else sections fuel tail stop (Some (parseInt digits))
      end
  end.
Definition findFinalSection (tail : list Z) : parser (option Z) := sections (S (length tail)) tail 0 None.

(** [PDF_XREF_TABLE = /^xref\s/] and [PDF_XREF_STREAM_OBJECT = /^[0-9]+\s+[0-9]+\s+obj(?:\s|<)/] *)
Definition xref_table (l : list Z) : bool :=
  match after (ascii_bytes "xref") l with Some (c :: _) => is_space c | _ => false end.
Definition xref_object (l : list Z) : bool :=
  match ('(_, l) ← some_of is_digit l; '(_, l) ← some_of is_space l; '(_, l) ← some_of is_digit l;
         '(_, l) ← some_of is_space l; after (ascii_bytes "obj") l) with
  | Some (c :: _) => is_space c || (c =? 0x3c)
  | _ => false
  end.

Definition matchesPdfStructure (h : FileHandle) : parser bool :=
  if negb (isFile h) || (size h <? 20) then Ok false else
  let prefixLength := Z.min (size h) PDF_HEADER_SEARCH_BYTES in
  let? prefix := readExactly h prefixLength 0 else Ok false in
  if negb (hasVersionedHeader prefix) then Ok false else
  let tailLength := Z.min (size h) PDF_TAIL_SEARCH_BYTES in
  let tailOffset := size h - tailLength in
  let? tail := readExactly h tailLength tailOffset else Ok false in
  let? xrefOffset := findFinalSection tail else Ok false in
  if negb (xrefOffset <=? 2 ^ 53 - 1) || (xrefOffset <? 0) || (size h <=? xrefOffset) then Ok false else
  let targetLength := Z.min PDF_XREF_TARGET_BYTES (size h - xrefOffset) in
  let? xrefTarget := readExactly h targetLength xrefOffset else Ok false in
  let targetText := latin1 xrefTarget in
  Ok (xref_table targetText || xref_object targetText).

(** ** What such a file is *)
(** White space of the expressions: that of JavaScript, and the byte 0. *)
Definition space (c : Z) : Prop := c = 0 \/ is_space c = true.
Definition spaces (l : list Z) : Prop := l <> [] /\ Forall space l.
Definition digits (l : list Z) : Prop := l <> [] /\ Forall (fun c => is_digit c = true) l.

Inductive version_line : list Z -> Prop :=
| version_1 minor : is_digit minor = true -> version_line (ascii_bytes "%PDF-1." ++ [minor])
| version_2 : version_line (ascii_bytes "%PDF-2.0").
(** The first [%PDF-] of the text begins a whole version line. *)
Definition pdf_header (l : list Z) : Prop :=
  exists before version eol after, l = before ++ version ++ eol :: after /\ version_line version /\ (eol = 0x0d \/ eol = 0x0a) /\
    (forall i, (i < length before)%nat -> ~ ascii_bytes "%PDF-" `prefix_of` drop i l).

(** The final section: [startxref], the offset in digits, [%%EOF], and only white space after it. *)
Definition final_section (l : list Z) (offset : Z) : Prop :=
  exists before s1 ds s2 trailing,
    l = before ++ ascii_bytes "startxref" ++ s1 ++ ds ++ s2 ++ ascii_bytes "%%EOF" ++ trailing /\
    spaces s1 /\ digits ds /\ spaces s2 /\ Forall (fun c => c ∈ PDF_WHITESPACE_BYTES) trailing /\ offset = parseInt ds.

(** What the offset must lead to. *)
Inductive xref_target : list Z -> Prop :=
| target_table c rest : space c -> xref_target (ascii_bytes "xref" ++ c :: rest)
| target_object d1 s1 d2 s2 c rest :
    digits d1 -> spaces s1 -> digits d2 -> spaces s2 -> space c \/ c = 0x3c ->
    xref_target (d1 ++ s1 ++ d2 ++ s2 ++ ascii_bytes "obj" ++ c :: rest).

Definition pdf_file (c : list Z) : Prop :=
  20 <= len c /\ pdf_header (subarray c 0 (Z.min (len c) 1024)) /\
  exists offset, final_section (subarray c (len c - Z.min (len c) 65536) (len c)) offset /\
    0 <= offset < len c /\ offset < 2 ^ 53 /\ xref_target (subarray c offset (Z.min (len c) (offset + 128))).

(** ** The expressions match what they say *)
Lemma after_spec lit l r : after lit l = Some r <-> l = lit ++ r.
Proof.
  unfold after. destruct (equals (take (length lit) l) lit) eqn:E.
  - apply equals_true in E. split.
    + intros [= <-]. rewrite <- E at 1. symmetry. apply take_drop.
    + intros ->. by rewrite drop_app_length.
  - split; [done|]. intros ->. by rewrite take_app_length, (proj2 (equals_true _ _)) in E.
Qed.

Lemma run_spec test l : l = (run test l).1 ++ (run test l).2 /\ Forall (fun c => test c = true) (run test l).1 /\
  (forall c b, (run test l).2 = c :: b -> test c = false).
Proof.
  induction l as [|c l (IH1 & IH2 & IH3)]; cbn; [done|].
  destruct (test c) eqn:Hc.
  - destruct (run test l) as [a b]. cbn in *. subst l. split; [done|]. split; [by constructor|done].
  - cbn. split; [done|]. split; [done|]. by intros ? ? [= <- <-].
Qed.

Lemma test_run_app test a b : Forall (fun c => test c = true) a -> (forall c b', b = c :: b' -> test c = false) -> run test (a ++ b) = (a, b).
Proof.
  intros Ha Hb. induction Ha as [|c a Hc Ha IH]; cbn.
  - destruct b as [|c b]; [done|]. cbn. by rewrite (Hb c b eq_refl).
  - by rewrite Hc, IH.
Qed.

Definition all_of (test : Z -> bool) (a : list Z) : Prop := a <> [] /\ Forall (fun c => test c = true) a.

Lemma some_of_sound test l a b : some_of test l = Some (a, b) -> l = a ++ b /\ all_of test a.
Proof.
  unfold some_of. pose proof (run_spec test l) as (H1 & H2 & _). destruct (run test l) as [a' b'].
  case_bool_decide; [done|]. by intros [= <- <-].
Qed.
Lemma some_of_complete test a b : all_of test a -> (forall c b', b = c :: b' -> test c = false) -> some_of test (a ++ b) = Some (a, b).
Proof. intros [Hne Ha] Hb. unfold some_of. rewrite test_run_app by done. by rewrite bool_decide_false. Qed.

Lemma digit_not_space c : is_digit c = true -> is_space c = false.
Proof.
  unfold is_digit, is_space. intros [H1%Z.leb_le H2%Z.leb_le]%andb_true_iff. cbn.
  rewrite !(proj2 (Z.eqb_neq _ _)) by lia. done.
Qed.
Lemma space_not_digit c : is_space c = true -> is_digit c = false.
Proof. intros H. destruct (is_digit c) eqn:E; [|done]. apply digit_not_space in E. congruence. Qed.

(** The next character after a run is not of the run. *)
Lemma next_of (test other : Z -> bool) a b : all_of other a -> (forall c, other c = true -> test c = false) ->
  forall c b', a ++ b = c :: b' -> test c = false.
Proof. intros [Hne Ha] Ho c b' E. destruct a as [|x a]; [done|]. injection E as -> _. apply Ho. by apply Forall_inv in Ha. Qed.

(** A match of the final section, with its digits. *)
Definition section_match (m ds : list Z) : Prop :=
  exists s1 s2, m = ascii_bytes "startxref" ++ s1 ++ ds ++ s2 ++ ascii_bytes "%%EOF" /\
    all_of is_space s1 /\ all_of is_digit ds /\ all_of is_space s2.

Lemma section_at_spec l ds r : section_at l = Some (ds, r) <-> exists m, l = m ++ r /\ section_match m ds.
Proof.
  unfold section_at. split.
  - intros (l1 & ->%after_spec & H)%bind_Some. apply bind_Some in H as ([s1 l2] & [-> Hs1]%some_of_sound & H).
    apply bind_Some in H as ([d l3] & [-> Hd]%some_of_sound & H). apply bind_Some in H as ([s2 l4] & [-> Hs2]%some_of_sound & H).
    apply bind_Some in H as (l5 & ->%after_spec & [= <- <-]).
    eexists. split; [|exists s1, s2; done]. by rewrite <- !app_assoc.
  - intros (m & -> & s1 & s2 & -> & H1 & Hd & H2). rewrite <- !app_assoc.
    rewrite (proj2 (after_spec _ _ _) eq_refl). cbn [mbind option_bind].
    rewrite some_of_complete by (done || by eapply next_of, digit_not_space). cbn [mbind option_bind].
    rewrite some_of_complete by (done || by eapply next_of, space_not_digit). cbn [mbind option_bind].
    rewrite some_of_complete; [|done|by intros c b' [= <- <-]]. cbn [mbind option_bind].
    by rewrite (proj2 (after_spec _ _ _) eq_refl).
Qed.

Lemma section_match_head m ds : section_match m ds -> exists m', m = 0x73 :: m' /\ Forall (fun c => c <> 0x73) m'.
Proof.
  intros (s1 & s2 & -> & [_ H1] & [_ Hd] & [_ H2]).
  exists (ascii_bytes "tartxref" ++ s1 ++ ds ++ s2 ++ ascii_bytes "%%EOF"). split; [done|].
  assert (Hs : forall c, is_space c = true -> c <> 0x73) by by intros c Hc ->.
  assert (Hdg : forall c, is_digit c = true -> c <> 0x73) by by intros c Hc ->.
  rewrite !Forall_app. split; [by repeat constructor|].
  split; [by apply (Forall_impl _ _ _ H1)|]. split; [by apply (Forall_impl _ _ _ Hd)|]. split; [by apply (Forall_impl _ _ _ H2)|].
  by repeat constructor.
Qed.

(** The next match is the first one, and there is none exactly when there is none. *)
Lemma exec_section_spec t :
  match exec_section t with
  | Some (ds, r) => exists pre m, t = pre ++ m ++ r /\ section_match m ds /\
      forall pre' m' ds' r', t = pre' ++ m' ++ r' -> section_match m' ds' -> (length pre <= length pre')%nat
  | None => forall pre m ds r, t = pre ++ m ++ r -> ~ section_match m ds
  end.
Proof.
  induction t as [|c t IH]; cbn [exec_section].
  - destruct (section_at []) as [[ds r]|] eqn:E.
    + apply section_at_spec in E as (m & Ht & Hm). exists [], m. split; [done|]. split; [done|]. cbn. lia.
    + intros pre m ds r Ht (m' & -> & _)%section_match_head. by destruct pre.
  - destruct (section_at (c :: t)) as [[ds r]|] eqn:E.
    + apply section_at_spec in E as (m & Ht & Hm). exists [], m. split; [done|]. split; [done|]. cbn. lia.
    + assert (Hno : forall m ds r, c :: t = m ++ r -> ~ section_match m ds).
      { intros m ds r Ht Hm. rewrite (proj2 (section_at_spec _ ds r)) in E; [done|]. eauto. }
      destruct (exec_section t) as [[ds r]|].
      * destruct IH as (pre & m & -> & Hm & Hfirst). exists (c :: pre), m. split; [done|]. split; [done|].
        intros [|c' pre'] m' ds' r' Ht Hm'; [exfalso; exact (Hno m' ds' r' Ht Hm')|]. injection Ht as -> Ht.
        pose proof (Hfirst _ _ _ _ Ht Hm'). cbn. lia.
      * intros [|c' pre] m ds r Ht Hm; [exact (Hno m ds r Ht Hm)|]. injection Ht as -> Ht. exact (IH _ _ _ _ Ht Hm).
Qed.

(** Two matches are the same or do not overlap. *)
Lemma sections_apart pre m r ds pre' m' r' ds' :
  pre ++ m ++ r = pre' ++ m' ++ r' -> section_match m ds -> section_match m' ds' -> (length pre <= length pre')%nat ->
  (ds = ds' /\ r = r') \/ exists mid, r = mid ++ m' ++ r'.
Proof.
  intros Heq Hm Hm' Hlen. destruct (decide (length pre = length pre')) as [He|Hne].
  - left. apply app_inj_1 in Heq as [-> Heq]; [|done].
    assert (section_at (m ++ r) = Some (ds, r)) as H1 by (apply section_at_spec; eauto).
    assert (section_at (m' ++ r') = Some (ds', r')) as H2 by (apply section_at_spec; eauto).
    rewrite Heq in H1. rewrite H1 in H2. by injection H2.
  - right. destruct (section_match_head _ _ Hm) as (m1 & -> & Hm1). pose proof (section_match_head _ _ Hm') as (m2 & Hm2 & _).
    destruct (decide (length pre + S (length m1) <= length pre')%nat) as [Hfar|Hnear].
    + exists (drop (length pre + S (length m1)) pre').
      assert (E : drop (length pre + S (length m1)) (pre ++ (0x73 :: m1) ++ r) = drop (length pre + S (length m1)) (pre' ++ m' ++ r')) by by rewrite Heq.
      rewrite <- drop_drop, drop_app_length in E. change (S (length m1)) with (length (0x73 :: m1)) in E at 1.
      rewrite drop_app_length in E. by rewrite drop_app_le in E.
    + exfalso.
      assert (H1 : (pre' ++ m' ++ r') !! length pre' = Some 0x73) by (rewrite lookup_app_r, Nat.sub_diag by lia; by subst m').
      rewrite <- Heq, lookup_app_r in H1 by lia. rewrite lookup_app_l in H1 by (cbn; lia).
      destruct (length pre' - length pre)%nat as [|k] eqn:Hk; [lia|]. cbn in H1.
      by apply (Forall_lookup_1 _ _ _ _ Hm1) in H1.
Qed.

(** ** The final section *)
(** A match in the text of [l] after which the bytes are only white space. *)
Definition found (l : list Z) (offset : Z) : Prop :=
  exists pre m ds r, latin1 l = pre ++ m ++ r /\ section_match m ds /\ offset = parseInt ds /\
    isPdfWhitespace (drop (length (pre ++ m)) l) = true.

Lemma latin1_length l : length (latin1 l) = length l.
Proof. apply length_fmap. Qed.

Lemma whitespace_no_match l pre m ds r : isPdfWhitespace l = true -> latin1 l = pre ++ m ++ r -> ~ section_match m ds.
Proof.
  intros Hw Heq (m' & -> & _)%section_match_head.
  assert (Hin : 0x73 ∈ latin1 l) by (rewrite Heq; set_solver).
  apply list_elem_of_fmap in Hin as (c & Hc & Hin). unfold isPdfWhitespace in Hw.
  rewrite forallb_forall in Hw. apply list_elem_of_In, Hw, existsb_exists in Hin as (v & Hv & ->%Z.eqb_eq).
  revert Hc. cbn in Hv. repeat destruct Hv as [<-|Hv]; try done.
Qed.

(** From the next match on: it decides, or what follows it does. *)
Lemma found_next l pre m ds r :
  latin1 l = pre ++ m ++ r -> section_match m ds ->
  (forall pre' m' ds' r', latin1 l = pre' ++ m' ++ r' -> section_match m' ds' -> (length pre <= length pre')%nat) ->
  let l' := drop (length (pre ++ m)) l in
  latin1 l' = r /\
  forall offset, found l offset <-> (isPdfWhitespace l' = true /\ offset = parseInt ds) \/ found l' offset.
Proof.
  intros Heq Hm Hfirst l'.
  assert (Hr : latin1 l' = r).
  { unfold latin1, l'. rewrite fmap_drop. fold (latin1 l). rewrite Heq, app_assoc. apply drop_app_length. }
  split; [done|]. intros offset. split.
  - intros (pre' & m' & ds' & r' & Heq' & Hm' & -> & Hw). pose proof (Hfirst _ _ _ _ Heq' Hm') as Hle.
    pose proof Heq' as Heq2. rewrite Heq in Heq2.
    destruct (sections_apart _ _ _ _ _ _ _ _ Heq2 Hm Hm' Hle) as [[-> ->]|(mid & Hmid)].
    + left. split; [|done]. unfold l'. replace (length (pre ++ m)) with (length (pre' ++ m')); [done|].
      rewrite !app_assoc in Heq2. by apply app_inv_tail in Heq2 as ->.
    + right. exists mid, m', ds', r'. rewrite Hr. split; [done|]. split; [done|]. split; [done|].
      unfold l'. rewrite drop_drop. replace (length (pre ++ m) + length (mid ++ m'))%nat with (length (pre' ++ m')); [done|].
      rewrite Hmid in Heq2. apply (f_equal length) in Heq2. rewrite !length_app in *. lia.
  - intros [[Hw ->]|(mid & m' & ds' & r' & Heq' & Hm' & -> & Hw)].
    + exists pre, m, ds, r. done.
    + exists (pre ++ m ++ mid), m', ds', r'. rewrite Hr in Heq'. split; [by rewrite Heq, Heq', <- !app_assoc|].
      split; [done|]. split; [done|]. unfold l' in Hw. rewrite drop_drop in Hw.
      by replace (length ((pre ++ m ++ mid) ++ m')) with (length (pre ++ m) + length (mid ++ m'))%nat by (rewrite !length_app; lia).
Qed.

Lemma sections_spec tail fuel : forall k accepted, 0 <= k <= len tail -> (length (drop (Z.to_nat k) tail) < fuel)%nat ->
  exists o, sections fuel tail k accepted = Ok o /\
    (forall offset, found (drop (Z.to_nat k) tail) offset -> o = Some offset) /\
    (o = accepted \/ exists offset, found (drop (Z.to_nat k) tail) offset /\ o = Some offset).
Proof.
  induction fuel as [|fuel IH]; intros k accepted Hk Hf; [lia|]. cbn [sections].
  set (l := drop (Z.to_nat k) tail) in *.
  assert (Hl : drop (Z.to_nat k) (latin1 tail) = latin1 l) by (unfold latin1, l; by rewrite fmap_drop).
  rewrite Hl. pose proof (exec_section_spec (latin1 l)) as Hex. destruct (exec_section (latin1 l)) as [[ds r]|].
  2: { exists accepted. split; [done|]. split; [|by left]. intros offset (pre & m & ds & r & Heq & Hm & _). by eapply Hex in Hm. }
  destruct Hex as (pre & m & Heq & Hm & Hfirst). destruct (found_next l pre m ds r Heq Hm Hfirst) as [Hr Hiff].
  set (n := length (pre ++ m)) in *.
  assert (Hn : (0 < n <= length l)%nat).
  { pose proof (f_equal length Heq) as E. rewrite latin1_length, !length_app in E. unfold n. rewrite length_app.
    destruct (section_match_head _ _ Hm) as (m' & -> & _). cbn in *. lia. }
  assert (Hstop : len tail - len r = k + Z.of_nat n).
  { apply (f_equal len) in Hr. unfold latin1, len in Hr. rewrite length_fmap, length_drop in Hr. unfold len in *.
    unfold l in *. rewrite length_drop in *. lia. }
  rewrite Hstop. assert (Hdrop : drop (Z.to_nat (k + Z.of_nat n)) tail = drop n l).
  { unfold l. rewrite drop_drop. f_equal. lia. }
  assert (Hk' : 0 <= k + Z.of_nat n <= len tail) by (unfold len, l in *; rewrite length_drop in Hn; lia).
  rewrite subarray_to_end, Hdrop by done.
  assert (Hf' : (length (drop (Z.to_nat (k + Z.of_nat n)) tail) < fuel)%nat) by (rewrite Hdrop, length_drop; lia).
  destruct (isPdfWhitespace (drop n l)) eqn:Hw; cbn [negb].
  - assert (Hno : forall offset, ~ found (drop n l) offset).
    { intros offset (? & ? & ? & ? & Heq' & Hm' & _). by eapply whitespace_no_match in Hm'. }
    destruct (IH _ (Some (parseInt ds)) Hk' Hf') as (o & -> & _ & Hacc). rewrite Hdrop in Hacc.
    destruct Hacc as [->|(offset & Hfd & _)]; [|by apply Hno in Hfd].
    eexists. split; [done|]. split.
    + intros offset [[_ ->]|Hfd]%Hiff; [done|]. by apply Hno in Hfd.
    + right. exists (parseInt ds). split; [|done]. apply Hiff. by left.
  - destruct (IH _ accepted Hk' Hf') as (o & -> & Hsome & Hacc). rewrite Hdrop in Hsome, Hacc.
    eexists. split; [done|]. split.
    + intros offset [[? _]|Hfd]%Hiff; [congruence|]. by apply Hsome.
    + destruct Hacc as [->|(offset & Hfd & ->)]; [by left|]. right. exists offset. split; [|done]. apply Hiff. by right.
Qed.

(** ** Bytes and their text *)
Lemma latin1_app a b : latin1 (a ++ b) = latin1 a ++ latin1 b.
Proof. apply fmap_app. Qed.

Lemma latin1_app_inv l a b : latin1 l = a ++ b -> exists a' b', l = a' ++ b' /\ latin1 a' = a /\ latin1 b' = b.
Proof. intros H. apply fmap_app_inv in H as (a' & b' & -> & -> & ->). eauto. Qed.

Lemma latin1_plain l t : Forall (fun c => c <> 0 /\ c <> 0x20) t -> latin1 l = t <-> l = t.
Proof.
  intros Ht. split; [|intros ->].
  - revert t Ht. induction l as [|c l IH]; intros t Ht E; cbn in E; [done|]. subst t. apply Forall_cons_1 in Ht as [[H0 H20] Ht].
    rewrite (IH _ Ht eq_refl) at 1. f_equal. destruct (Z.eqb_spec c 0); [done|done].
  - induction Ht as [|c t [H0 _] Ht IH]; [done|]. cbn. rewrite (proj2 (Z.eqb_neq c 0)) by done. by f_equal.
Qed.

Lemma latin1_space c : is_space (if c =? 0 then 0x20 else c) = true <-> space c.
Proof.
  unfold space. destruct (Z.eqb_spec c 0) as [->|]; [split; [by left|done]|]. split; [by right|by intros [?|?]].
Qed.

Lemma latin1_spaces l : all_of is_space (latin1 l) <-> spaces l.
Proof.
  unfold all_of, spaces, latin1. rewrite Forall_fmap. apply Morphisms_Prop.and_iff_morphism.
  - by destruct l.
  - apply Forall_iff. intros c. apply latin1_space.
Qed.

Lemma digit_plain c : is_digit c = true -> c <> 0 /\ c <> 0x20.
Proof. unfold is_digit. intros [?%Z.leb_le ?%Z.leb_le]%andb_true_iff. lia. Qed.

Lemma latin1_digits l ds : digits ds -> latin1 l = ds <-> l = ds.
Proof. intros [_ Hd]. apply latin1_plain. apply (Forall_impl _ _ _ Hd). intros c. apply digit_plain. Qed.

Lemma latin1_literal l s : forallb (fun c => negb (c =? 0) && negb (c =? 0x20)) (ascii_bytes s) = true ->
  latin1 l = ascii_bytes s <-> l = ascii_bytes s.
Proof.
  intros Hs. apply latin1_plain, Forall_forall. intros c Hc. rewrite forallb_forall in Hs.
  apply list_elem_of_In, Hs, andb_true_iff in Hc as [?%negb_true_iff%Z.eqb_neq ?%negb_true_iff%Z.eqb_neq]. done.
Qed.

Lemma isPdfWhitespace_iff l : isPdfWhitespace l = true <-> Forall (fun c => c ∈ PDF_WHITESPACE_BYTES) l.
Proof.
  unfold isPdfWhitespace. rewrite forallb_forall, Forall_forall. setoid_rewrite existsb_exists. setoid_rewrite list_elem_of_In.
  split; intros H x Hx; [destruct (H x Hx) as (y & Hy & ->%Z.eqb_eq); done|exists x; split; [by apply H|by apply Z.eqb_eq]].
Qed.

Lemma final_section_found l offset : final_section l offset <-> found l offset.
Proof.
  split.
  - intros (before & s1 & ds & s2 & trailing & -> & H1 & Hd & H2 & Ht & ->).
    exists (latin1 before), (ascii_bytes "startxref" ++ latin1 s1 ++ ds ++ latin1 s2 ++ ascii_bytes "%%EOF"), ds, (latin1 trailing).
    split.
    { rewrite !latin1_app. rewrite (proj2 (latin1_literal _ "startxref"%string eq_refl) eq_refl), (proj2 (latin1_literal _ "%%EOF"%string eq_refl) eq_refl).
      rewrite (proj2 (latin1_digits _ _ Hd) eq_refl). by rewrite <- !app_assoc. }
    split; [exists (latin1 s1), (latin1 s2); split; [done|]; split; [by apply latin1_spaces|]; split; [done|]; by apply latin1_spaces|].
    split; [done|]. apply isPdfWhitespace_iff. rewrite !app_assoc, drop_app_length'; [done|].
    rewrite !length_app, !latin1_length. lia.
  - intros (pre & m & ds & r & Heq & (s1 & s2 & -> & H1 & Hd & H2) & -> & Hw).
    pose proof Heq as Heq'.
    apply latin1_app_inv in Heq as (before & l1 & -> & Hb & Heq). rewrite <- !app_assoc in Heq.
    apply latin1_app_inv in Heq as (x1 & l2 & -> & Hx1 & Heq). apply latin1_literal in Hx1 as ->; [|reflexivity].
    apply latin1_app_inv in Heq as (x2 & l3 & -> & Hx2 & Heq). apply latin1_app_inv in Heq as (x3 & l4 & -> & Hx3 & Heq).
    apply (latin1_digits _ _ Hd) in Hx3 as ->. apply latin1_app_inv in Heq as (x4 & l5 & -> & Hx4 & Heq).
    apply latin1_app_inv in Heq as (x5 & trailing & -> & Hx5 & Htr). apply latin1_literal in Hx5 as ->; [|reflexivity].
    exists before, x2, ds, x4, trailing. split; [done|]. subst pre s1 s2. rewrite <- !latin1_spaces.
    split; [done|]. split; [done|]. split; [done|]. split; [|done]. apply isPdfWhitespace_iff.
    rewrite !app_assoc, drop_app_length' in Hw; [done|]. rewrite !length_app, !latin1_length. lia.
Qed.

Lemma findFinalSection_spec tail :
  exists o, findFinalSection tail = Ok o /\ forall offset, o = Some offset <-> final_section tail offset.
Proof.
  destruct (sections_spec tail (S (length tail)) 0 None) as (o & Hrun & Hsome & Hnone);
    [split; [done|apply len_nonneg]|rewrite length_drop; change (Z.to_nat 0) with 0%nat; lia|].
  exists o. split; [exact Hrun|]. change (drop (Z.to_nat 0) tail) with tail in *. intros offset. rewrite final_section_found. split; [|apply Hsome].
  intros ->. destruct Hnone as [?|(off & Hoff & [= ->])]; done.
Qed.

(** ** The version line *)
Lemma prefix_test lit l : equals (take (length lit) l) lit = true <-> lit `prefix_of` l.
Proof.
  rewrite equals_true. split.
  - intros E. exists (drop (length lit) l). rewrite <- E at 1. symmetry. apply take_drop.
  - intros [r ->]. apply take_app_length.
Qed.

Lemma from_first_spec lit l l' : lit <> [] -> from_first lit l = Some l' <->
  exists before, l = before ++ l' /\ lit `prefix_of` l' /\ forall i, (i < length before)%nat -> ~ lit `prefix_of` drop i l.
Proof.
  intros Hlit. revert l'. induction l as [|c l IH]; intros l'; cbn [from_first];
    pose proof (prefix_test lit) as Hp; destruct (equals _ lit) eqn:E.
  - apply Hp in E as [r E]. by destruct lit.
  - split; [done|]. intros (before & Heq & [r Hr] & _). apply (f_equal length) in Heq. rewrite Hr, !length_app in Heq.
    destruct lit; [done|]. cbn in Heq. lia.
  - split.
    + intros [= <-]. exists []. split; [done|]. split; [by apply Hp|]. cbn. lia.
    + intros ([|x before] & Heq & Hl & Hno); [by rewrite Heq|]. exfalso. apply (Hno 0%nat); [cbn; lia|]. by apply Hp.
  - rewrite IH. split.
    + intros (before & -> & Hl & Hno). exists (c :: before). split; [done|]. split; [done|]. intros [|i] Hi.
      * intros Hpre. apply Hp in Hpre. change (equals (take (length lit) (c :: before ++ l')) lit = true) in Hpre. congruence.
      * apply Hno. cbn in Hi. lia.
    + intros ([|x before] & Heq & Hl & Hno); [cbn in Heq; subst l'; apply Hp in Hl; congruence|].
      injection Heq as -> ->. exists before. split; [done|]. split; [done|]. intros i Hi. apply (Hno (S i)). cbn. lia.
Qed.

Lemma version_header_spec l : version_header l = true <->
  exists version eol after, l = version ++ eol :: after /\ version_line version /\ (eol = 0x0d \/ eol = 0x0a).
Proof.
  unfold version_header. split.
  - destruct (after (ascii_bytes "%PDF-") l) as [r|] eqn:Ha; [|done]. apply after_spec in Ha as ->.
    destruct r as [|major [|dot [|minor [|eol rest]]]]; try done.
    intros [[->%Z.eqb_eq Hv]%andb_true_iff He]%andb_true_iff. apply orb_true_iff in He. rewrite !Z.eqb_eq in He.
    apply orb_true_iff in Hv as [[->%Z.eqb_eq Hd]%andb_true_iff|[->%Z.eqb_eq ->%Z.eqb_eq]%andb_true_iff].
    + exists (ascii_bytes "%PDF-1." ++ [minor]), eol, rest. split; [done|]. split; [by constructor|done].
    + exists (ascii_bytes "%PDF-2.0"), eol, rest. split; [done|]. split; [constructor|done].
  - intros (version & eol & rest & -> & Hv & He).
    assert (He' : (eol =? 0x0d) || (eol =? 0x0a) = true) by (rewrite orb_true_iff, !Z.eqb_eq; done).
    destruct Hv as [minor Hm|].
    + assert (after (ascii_bytes "%PDF-") ((ascii_bytes "%PDF-1." ++ [minor]) ++ eol :: rest) = Some ([0x31; 0x2e; minor] ++ eol :: rest)) as ->
        by (by apply after_spec). cbn [app]. by rewrite Hm, He'.
    + assert (after (ascii_bytes "%PDF-") (ascii_bytes "%PDF-2.0" ++ eol :: rest) = Some ([0x32; 0x2e; 0x30] ++ eol :: rest)) as ->
        by (by apply after_spec). cbn [app]. by rewrite He'.
Qed.

Lemma version_prefix version r : version_line version -> ascii_bytes "%PDF-" `prefix_of` version ++ r.
Proof. intros [minor _|]; by eexists. Qed.

Lemma hasVersionedHeader_spec l : hasVersionedHeader l = true <-> pdf_header l.
Proof.
  unfold hasVersionedHeader, pdf_header. split.
  - destruct (from_first _ l) as [l'|] eqn:Hf; [|done]. apply from_first_spec in Hf as (before & -> & _ & Hno); [|done].
    intros (version & eol & rest & -> & Hv & He)%version_header_spec. exists before, version, eol, rest. done.
  - intros (before & version & eol & rest & Heq & Hv & He & Hno).
    rewrite (proj2 (from_first_spec (ascii_bytes "%PDF-") l (version ++ eol :: rest) ltac:(done))).
    + apply version_header_spec. by exists version, eol, rest.
    + exists before. split; [done|]. split; [by apply version_prefix|done].
Qed.

(** ** The target *)
Lemma xref_target_spec l : xref_table (latin1 l) || xref_object (latin1 l) = true <-> xref_target l.
Proof.
  rewrite orb_true_iff. split.
  - intros [H|H].
    + unfold xref_table in H. destruct (after (ascii_bytes "xref") (latin1 l)) as [[|c r]|] eqn:Ha; try done.
      apply after_spec, latin1_app_inv in Ha as (a & b & -> & Hx & Hb). apply latin1_literal in Hx as ->; [|reflexivity].
      destruct b as [|c' b]; [done|]. injection Hb as <- _. constructor. apply latin1_space. exact H.
    + unfold xref_object in H. destruct (_ ≫= _) as [[|c r]|] eqn:Ha; try done.
      apply bind_Some in Ha as ([d1 t1] & [E1 Hd1]%some_of_sound & Ha). apply bind_Some in Ha as ([s1 t2] & [-> Hs1]%some_of_sound & Ha).
      apply bind_Some in Ha as ([d2 t3] & [-> Hd2]%some_of_sound & Ha). apply bind_Some in Ha as ([s2 t4] & [-> Hs2]%some_of_sound & Ha).
      apply after_spec in Ha as ->.
      apply latin1_app_inv in E1 as (x1 & l1 & -> & Hx1 & E1). apply (proj1 (latin1_digits _ _ Hd1)) in Hx1. subst x1.
      apply latin1_app_inv in E1 as (x2 & l2 & -> & <- & E1). apply latin1_app_inv in E1 as (x3 & l3 & -> & Hx3 & E1).
      apply (proj1 (latin1_digits _ _ Hd2)) in Hx3. subst x3. apply latin1_app_inv in E1 as (x4 & l4 & -> & <- & E1). apply latin1_app_inv in E1 as (x5 & l5 & -> & Hx5 & E1).
      apply latin1_literal in Hx5 as ->; [|reflexivity]. destruct l5 as [|c' l5]; [done|]. injection E1 as <- _.
      apply latin1_spaces in Hs1, Hs2. constructor; try done. apply orb_true_iff in H as [H|H]; [left; by apply latin1_space|right].
      apply Z.eqb_eq in H. by destruct (Z.eqb_spec c' 0).
  - intros [c r Hc|d1 s1 d2 s2 c r Hd1 Hs1 Hd2 Hs2 Hc].
    + left. unfold xref_table. rewrite latin1_app, (proj2 (latin1_literal _ "xref"%string eq_refl) eq_refl).
      rewrite (proj2 (after_spec _ _ _) eq_refl). cbn. by apply latin1_space.
    + right. unfold xref_object. rewrite !latin1_app, (proj2 (latin1_digits _ _ Hd1) eq_refl), (proj2 (latin1_digits _ _ Hd2) eq_refl).
      rewrite (proj2 (latin1_literal _ "obj"%string eq_refl) eq_refl). apply latin1_spaces in Hs1, Hs2.
      rewrite some_of_complete by (done || by eapply next_of, space_not_digit). cbn [mbind option_bind].
      rewrite some_of_complete by (done || by eapply next_of, digit_not_space). cbn [mbind option_bind].
      rewrite some_of_complete by (done || by eapply next_of, space_not_digit). cbn [mbind option_bind].
      rewrite some_of_complete; [|done|by intros x b' [= <- <-]]. cbn [mbind option_bind].
      rewrite (proj2 (after_spec _ _ _) eq_refl). cbn. destruct Hc as [Hc| ->]; [|done].
      apply orb_true_iff. left. by apply latin1_space.
Qed.

Lemma parseInt_nonneg ds : Forall (fun c => is_digit c = true) ds -> 0 <= parseInt ds.
Proof.
  intros Hd. unfold parseInt. assert (forall n, 0 <= n -> 0 <= foldl (fun n c => 10 * n + (c - 0x30)) n ds) as H; [|by apply H].
  induction Hd as [|c ds Hc Hd IH]; intros n Hn; [done|]. cbn. apply IH.
  unfold is_digit in Hc. apply andb_true_iff in Hc as [?%Z.leb_le _]. lia.
Qed.

Lemma matchesPdfStructure_spec (h : FileHandle) :
  exists b, matchesPdfStructure h = Ok b /\ (b = true <-> isFile h = true /\ pdf_file (contents h)).
Proof.
  unfold matchesPdfStructure, pdf_file, PDF_HEADER_SEARCH_BYTES, PDF_TAIL_SEARCH_BYTES, PDF_XREF_TARGET_BYTES. fold (size h).
  destruct (isFile h); cbn [negb orb]; [|rejects; by intros [? _]].
  destruct (Z.ltb_spec (size h) 20) as [Hs|Hs]; [rejects; intros (_ & ? & _); lia|].
  rewrite or_else_read_ok by lia. rewrite Z.add_0_l.
  destruct (hasVersionedHeader (subarray (contents h) 0 (Z.min (size h) 1024))) eqn:Hh; cbn [negb].
  2: { rejects. intros (_ & _ & Hp & _). apply hasVersionedHeader_spec in Hp. congruence. }
  apply hasVersionedHeader_spec in Hh. rewrite or_else_read_ok by lia.
  replace (size h - Z.min (size h) (64 * 1024) + Z.min (size h) (64 * 1024)) with (size h) by lia.
  change (64 * 1024) with 65536. unfold or_else at 1.
  destruct (findFinalSection_spec (subarray (contents h) (size h - Z.min (size h) 65536) (size h))) as (o & -> & Ho).
  cbn [mbind exec_bind]. destruct o as [offset|].
  2: { rejects. intros (_ & _ & _ & offset & Hf & _). by apply Ho in Hf. }
  assert (Hone : forall P : Z -> Prop, (exists off, final_section (subarray (contents h) (size h - Z.min (size h) 65536) (size h)) off /\ P off) <-> P offset).
  { intros P. split; [intros (off & Hf & HP); apply Ho in Hf as [= ->]; done|intros HP; exists offset; split; [by apply Ho|done]]. }
  setoid_rewrite Hone.
  assert (H0 : 0 <= offset).
  { pose proof (proj1 (Ho offset) eq_refl) as (? & ? & ds & ? & ? & _ & _ & [_ Hd] & _ & _ & ->). by apply parseInt_nonneg. }
  destruct (_ || _) eqn:Hb.
  { rejects. intros (_ & _ & _ & ? & ? & _). rewrite !orb_true_iff, negb_true_iff, Z.leb_gt, Z.ltb_lt, Z.leb_le in Hb. lia. }
  apply orb_false_iff in Hb as [[Hb1%negb_false_iff%Z.leb_le _]%orb_false_iff Hb3%Z.leb_gt].
  rewrite or_else_read_ok by lia. eexists. split; [done|]. rewrite xref_target_spec.
  replace (offset + Z.min 128 (size h - offset)) with (Z.min (size h) (offset + 128)) by lia.
  split; [intros Hx; repeat split; (done || lia)|by intros (_ & _ & _ & _ & _ & ?)].
Qed.

(** [matchesPdfStructure] returns on every file, however the reads are sliced, and accepts exactly the
    regular files that have a version line at the first [%PDF-] of their first 1024 bytes and end, within
    64 kB, in a [startxref] section followed by white space only, whose offset lies in the file and leads to
    a cross-reference table or to the head of an object. *)
Theorem matchesPdfStructure_correct (h : FileHandle) :
  exists b, matchesPdfStructure h = Ok b /\ (b = true <-> isFile h = true /\ pdf_file (contents h)).
Proof. apply matchesPdfStructure_spec. Qed.
