(* ===== verification/Zip.v ===== *)
(** ZIP packages ([media/media-content-signature.ts], from [matchesOoxmlPackageIdentity] on): the end
    record, the central directory and the local headers of an Office document.  [ooxml_package]
    describes the files that are accepted. *)
From stdpp Require Import prelude list strings gmap.
From Stdlib Require Import ZArith Lia.
From S2P Require Import Prelude Buffers FileHandle Codec.
#[local] Open Scope Z_scope.

(** ** [Buffer.toString("utf8")]: the decoder of the Encoding standard, to code points *)
Module Utf8.
Definition replacement : Z := 0xfffd.
(** The state inside a sequence: bytes still needed, the range of the next one, the bits so far. *)
Record pending := { needed : Z; lower : Z; upper : Z; point : Z }.
Definition start (byte : Z) : Z + pending :=
  if byte <=? 0x7f then inl byte
  else if (0xc2 <=? byte) && (byte <=? 0xdf) then inr {| needed := 1; lower := 0x80; upper := 0xbf; point := Z.land byte 0x1f |}
  else if (0xe0 <=? byte) && (byte <=? 0xef) then
    inr {| needed := 2; lower := if byte =? 0xe0 then 0xa0 else 0x80; upper := if byte =? 0xed then 0x9f else 0xbf; point := Z.land byte 0xf |}
  else if (0xf0 <=? byte) && (byte <=? 0xf4) then
    inr {| needed := 3; lower := if byte =? 0xf0 then 0x90 else 0x80; upper := if byte =? 0xf4 then 0x8f else 0xbf; point := Z.land byte 0x7 |}
  else inl replacement.
Fixpoint decode_from (state : option pending) (bytes : list Z) : list Z :=
  match bytes with
  | [] => match state with Some _ => [replacement] | None => [] end
  | byte :: bytes =>
      match state with
      | None => match start byte with inl c => c :: decode_from None bytes | inr p => decode_from (Some p) bytes end
      | Some p =>
          if (lower p <=? byte) && (byte <=? upper p) then
            let point := Z.lor (Z.shiftl (point p) 6) (Z.land byte 0x3f) in
            if needed p =? 1 then point :: decode_from None bytes
            else decode_from (Some {| needed := needed p - 1; lower := 0x80; upper := 0xbf; point := point |}) bytes
          else replacement :: match start byte with inl c => c :: decode_from None bytes | inr p => decode_from (Some p) bytes end
      end
  end.
Definition decode (bytes : list Z) : list Z := decode_from None bytes.

Lemma decode_ascii bytes : Forall (fun b => 0 <= b <= 0x7f) bytes -> decode bytes = bytes.
Proof.
  unfold decode. induction 1 as [|b bytes Hb Hbs IH]; [done|]. cbn. unfold start.
  by rewrite (proj2 (Z.leb_le b 0x7f)), IH by lia.
Qed.
Example decode_two : decode [0xc3; 0xa9] = [0xe9]. Proof. reflexivity. Qed.
Example decode_three : decode [0xe2; 0x82; 0xac] = [0x20ac]. Proof. reflexivity. Qed.
Example decode_four : decode [0xf0; 0x9f; 0x98; 0x80] = [0x1f600]. Proof. reflexivity. Qed.
Example decode_broken : decode [0xe2; 0x82; 0x41; 0xff] = [replacement; 0x41; replacement]. Proof. reflexivity. Qed.
End Utf8.

Definition ZIP_LOCAL_HEADER_SIGNATURE : Z := 0x04034b50.
Definition ZIP_CENTRAL_HEADER_SIGNATURE : Z := 0x02014b50.
Definition ZIP_END_OF_CENTRAL_DIRECTORY_SIGNATURE : Z := 0x06054b50.
Definition ZIP_END_OF_CENTRAL_DIRECTORY_BYTES : Z := 22.
Definition ZIP_MAX_COMMENT_BYTES : Z := 65535.
Definition ZIP_MAX_EOCD_SEARCH_BYTES : Z := ZIP_END_OF_CENTRAL_DIRECTORY_BYTES + ZIP_MAX_COMMENT_BYTES.
Definition OOXML_MAX_CENTRAL_DIRECTORY_BYTES : Z := 4 * 1024 * 1024.
Definition OOXML_MAX_ENTRIES : Z := 10000.
Definition ZIP16_MAX : Z := 0xffff.
Definition ZIP32_MAX : Z := 0xffffffff.

Inductive OoxmlMimeType := wordprocessing | spreadsheet | presentation.
Definition OOXML_REQUIRED_ENTRY_BY_MIME (mimeType : OoxmlMimeType) : list Z :=
  match mimeType with
  | wordprocessing => ascii_bytes "word/document.xml"
  | spreadsheet => ascii_bytes "xl/workbook.xml"
  | presentation => ascii_bytes "ppt/presentation.xml"
  end.
Definition OOXML_FAMILY_ENTRIES : list (list Z) := OOXML_REQUIRED_ENTRY_BY_MIME <$> [wordprocessing; spreadsheet; presentation].
Definition OOXML_CONTENT_TYPES_ENTRY : list Z := ascii_bytes "[Content_Types].xml".

Record ZipCentralEntry := { name : list Z; localHeaderOffset : Z }.
Record ZipEndOfCentralDirectory := {
  absoluteOffset : Z; centralDirectoryOffset : Z; centralDirectorySize : Z; totalEntries : Z }.

(** ** [parseEndOfCentralDirectory]
    The body of the loop at one offset: go on, or return. *)
Definition eocd_body (tail : list Z) (tailAbsoluteOffset offset : Z) : parser (flow Z (option ZipEndOfCentralDirectory)) :=
  signature ← readUInt32LE tail offset;
  if negb (signature =? ZIP_END_OF_CENTRAL_DIRECTORY_SIGNATURE) then Ok (Continue (offset - 1)) else
  commentLength ← readUInt16LE tail (offset + 20);
  if negb (offset + ZIP_END_OF_CENTRAL_DIRECTORY_BYTES + commentLength =? len tail) then Ok (Continue (offset - 1)) else
  diskNumber ← readUInt16LE tail (offset + 4);
  centralDirectoryDisk ← readUInt16LE tail (offset + 6);
  entriesOnDisk ← readUInt16LE tail (offset + 8);
  totalEntries ← readUInt16LE tail (offset + 10);
  centralDirectorySize ← readUInt32LE tail (offset + 12);
  centralDirectoryOffset ← readUInt32LE tail (offset + 16);
  if negb (diskNumber =? 0) || negb (centralDirectoryDisk =? 0) || negb (entriesOnDisk =? totalEntries) ||
     (entriesOnDisk =? ZIP16_MAX) || (totalEntries =? ZIP16_MAX) || (centralDirectorySize =? ZIP32_MAX) ||
     (centralDirectoryOffset =? ZIP32_MAX)
  then Ok (Return None)
  else Ok (Return (Some {| absoluteOffset := tailAbsoluteOffset + offset; centralDirectoryOffset := centralDirectoryOffset;
                           centralDirectorySize := centralDirectorySize; totalEntries := totalEntries |})).
Definition parseEndOfCentralDirectory (tail : list Z) (tailAbsoluteOffset : Z) : parser (option ZipEndOfCentralDirectory) :=
  out ← while (S (length tail)) (fun offset => 0 <=? offset) (eocd_body tail tailAbsoluteOffset)
          (len tail - ZIP_END_OF_CENTRAL_DIRECTORY_BYTES);
  afterwards out (fun _ => Ok None).

(** ** [parseCentralDirectory]
    The state of the loop is [(index, offset, entries)]. *)
Definition directory_body (directory : list Z) (s : Z * Z * gmap (list Z) ZipCentralEntry)
    : parser (flow (Z * Z * gmap (list Z) ZipCentralEntry) (option (gmap (list Z) ZipCentralEntry))) :=
  let '(index, offset, entries) := s in
  if len directory <? offset + 46 then Ok (Return None) else
  signature ← readUInt32LE directory offset;
  if negb (signature =? ZIP_CENTRAL_HEADER_SIGNATURE) then Ok (Return None) else
  flags ← readUInt16LE directory (offset + 8);
  compressedSize ← readUInt32LE directory (offset + 20);
  uncompressedSize ← readUInt32LE directory (offset + 24);
  fileNameLength ← readUInt16LE directory (offset + 28);
  extraLength ← readUInt16LE directory (offset + 30);
  commentLength ← readUInt16LE directory (offset + 32);
  diskNumberStart ← readUInt16LE directory (offset + 34);
  localHeaderOffset ← readUInt32LE directory (offset + 42);
  let recordLength := 46 + fileNameLength + extraLength + commentLength in
  if negb (Z.land flags 0x0001 =? 0) || (compressedSize =? ZIP32_MAX) || (uncompressedSize =? ZIP32_MAX) ||
     (localHeaderOffset =? ZIP32_MAX) || negb (diskNumberStart =? 0) || (fileNameLength =? 0) ||
     (len directory <? offset + recordLength)
  then Ok (Return None) else
  let fileNameBytes := subarray directory (offset + 46) (offset + 46 + fileNameLength) in
  if includes fileNameBytes 0x00 then Ok (Return None) else
  let name := Utf8.decode fileNameBytes in
  if bool_decide (is_Some (entries !! name)) then Ok (Return None) else
  Ok (Continue (index + 1, offset + recordLength, <[name := {| name := name; localHeaderOffset := localHeaderOffset |}]> entries)).
Definition parseCentralDirectory (directory : list Z) (expectedEntries : Z) : parser (option (gmap (list Z) ZipCentralEntry)) :=
  out ← while (S (length directory)) (fun s => s.1.1 <? expectedEntries) (directory_body directory) (0, 0, ∅);
  afterwards out (fun s => let '(_, offset, entries) := s in Ok (if offset =? len directory then Some entries else None)).

(** ** [matchesLocalHeader] *)
Definition matchesLocalHeader (h : FileHandle) (entry : ZipCentralEntry) (centralDirectoryOffset : Z) : parser bool :=
  if (localHeaderOffset entry <? 0) || (centralDirectoryOffset <? localHeaderOffset entry + 30) then Ok false else
  let? fixedHeader := readExactly h 30 (localHeaderOffset entry) else Ok false in
  signature ← readUInt32LE fixedHeader 0;
  if negb (signature =? ZIP_LOCAL_HEADER_SIGNATURE) then Ok false else
  flags ← readUInt16LE fixedHeader 6;
  fileNameLength ← readUInt16LE fixedHeader 26;
  extraLength ← readUInt16LE fixedHeader 28;
  let headerEnd := localHeaderOffset entry + 30 + fileNameLength + extraLength in
  if negb (Z.land flags 0x0001 =? 0) || (fileNameLength =? 0) || (centralDirectoryOffset <? headerEnd) then Ok false else
  let? fileNameBytes := readExactly h fileNameLength (localHeaderOffset entry + 30) else Ok false in
  if includes fileNameBytes 0x00 then Ok false else Ok (equals (Utf8.decode fileNameBytes) (name entry)).

(** ** [matchesOoxmlPackageIdentity]
    What follows the end record. *)
Definition matches_at_end (h : FileHandle) (mimeType : OoxmlMimeType) (eocd : ZipEndOfCentralDirectory) : parser bool :=
  let expectedFamilyEntry := OOXML_REQUIRED_ENTRY_BY_MIME mimeType in
  if (totalEntries eocd <? 1) || (OOXML_MAX_ENTRIES <? totalEntries eocd) || (centralDirectorySize eocd <? 1) ||
     (OOXML_MAX_CENTRAL_DIRECTORY_BYTES <? centralDirectorySize eocd) ||
     negb (centralDirectoryOffset eocd + centralDirectorySize eocd =? absoluteOffset eocd)
  then Ok false else
  let? centralDirectory := readExactly h (centralDirectorySize eocd) (centralDirectoryOffset eocd) else Ok false in
  let? entries := parseCentralDirectory centralDirectory (totalEntries eocd) else Ok false in
  match entries !! OOXML_CONTENT_TYPES_ENTRY, entries !! expectedFamilyEntry with
  | Some contentTypes, Some expectedFamily =>
      if existsb (fun familyEntry => negb (equals familyEntry expectedFamilyEntry) && bool_decide (is_Some (entries !! familyEntry)))
           OOXML_FAMILY_ENTRIES
      then Ok false else
      first ← matchesLocalHeader h contentTypes (centralDirectoryOffset eocd);
      if negb first then Ok false else matchesLocalHeader h expectedFamily (centralDirectoryOffset eocd)
  | _, _ => Ok false
  end.
Definition matchesOoxmlPackageIdentity (h : FileHandle) (mimeType : OoxmlMimeType) : parser bool :=
  if negb (isFile h) || (size h <? ZIP_END_OF_CENTRAL_DIRECTORY_BYTES) then Ok false else
  let tailLength := Z.min (size h) ZIP_MAX_EOCD_SEARCH_BYTES in
  let tailOffset := size h - tailLength in
  let? tail := readExactly h tailLength tailOffset else Ok false in
  let? eocd := parseEndOfCentralDirectory tail tailOffset else Ok false in
  matches_at_end h mimeType eocd.

(** ** What is accepted
    The little-endian integer of [n] bytes at [a]. *)
Definition field (n : Z) (l : list Z) (a : Z) : Z := uintLE (subarray l a (a + n)).
Abbreviation u16 := (field 2).
Abbreviation u32 := (field 4).

(** A header of the central directory, [f], and the entry it stands for. *)
Definition record_length (f : list Z) : Z := 46 + u16 f 28 + u16 f 30 + u16 f 32.
Definition file_name (f : list Z) : list Z := subarray f 46 (46 + u16 f 28).
Definition central_header (f : list Z) : Prop :=
  46 <= len f /\ len f = record_length f /\ u32 f 0 = ZIP_CENTRAL_HEADER_SIGNATURE /\ Z.land (u16 f 8) 1 = 0 /\
  u32 f 20 <> ZIP32_MAX /\ u32 f 24 <> ZIP32_MAX /\ u32 f 42 <> ZIP32_MAX /\ u16 f 34 = 0 /\
  file_name f <> [] /\ 0 ∉ file_name f.
Definition entry_of (f : list Z) : ZipCentralEntry := {| name := Utf8.decode (file_name f); localHeaderOffset := u32 f 42 |}.
Definition names (fs : list (list Z)) : list (list Z) := (fun f => name (entry_of f)) <$> fs.
(** A directory is a sequence of headers with names of their own. *)
Definition central_directory (d : list Z) (fs : list (list Z)) : Prop :=
  d = concat fs /\ Forall central_header fs /\ NoDup (names fs).

(** The local header of an entry lies before the directory and bears the same name. *)
Definition local_header (c : list Z) (limit : Z) (e : ZipCentralEntry) : Prop :=
  let o := localHeaderOffset e in
  let nameBytes := subarray c (o + 30) (o + 30 + u16 c (o + 26)) in
  o + 30 + u16 c (o + 26) + u16 c (o + 28) <= limit /\ u32 c o = ZIP_LOCAL_HEADER_SIGNATURE /\
  Z.land (u16 c (o + 6)) 1 = 0 /\ u16 c (o + 26) <> 0 /\ (0 ∉ nameBytes) /\ Utf8.decode nameBytes = name e.

(** The end record is the last place with its signature whose comment ends the file. *)
Definition end_record (c : list Z) (o : Z) : Prop :=
  0 <= o /\ u32 c o = ZIP_END_OF_CENTRAL_DIRECTORY_SIGNATURE /\ o + 22 + u16 c (o + 20) = len c.
Definition last_end_record (c : list Z) (o : Z) : Prop := end_record c o /\ forall o', end_record c o' -> o' <= o.

Definition ooxml_package (mimeType : OoxmlMimeType) (c : list Z) : Prop :=
  exists o fs, last_end_record c o /\ u16 c (o + 4) = 0 /\ u16 c (o + 6) = 0 /\
    u16 c (o + 8) = Z.of_nat (length fs) /\ u16 c (o + 10) = Z.of_nat (length fs) /\ 1 <= Z.of_nat (length fs) <= OOXML_MAX_ENTRIES /\
    let start := u32 c (o + 16) in
    start <> ZIP32_MAX /\ start + u32 c (o + 12) = o /\ 1 <= u32 c (o + 12) <= OOXML_MAX_CENTRAL_DIRECTORY_BYTES /\
    central_directory (subarray c start o) fs /\
    (forall required, required ∈ [OOXML_CONTENT_TYPES_ENTRY; OOXML_REQUIRED_ENTRY_BY_MIME mimeType] ->
       exists f, f ∈ fs /\ name (entry_of f) = required /\ local_header c start (entry_of f)) /\
    (forall other, other <> mimeType -> OOXML_REQUIRED_ENTRY_BY_MIME other ∉ names fs).

(** ** Fields *)
Lemma field_read n l a : 0 <= a -> a + n <= len l -> read_fixed uintLE n l a = Ok (field n l a).
Proof. apply read_fixed_ok. Qed.

Lemma field_range n l a : Forall is_byte l -> 0 <= n -> 0 <= a -> a + n <= len l -> 0 <= field n l a < 256 ^ n.
Proof.
  intros Hb Hn Ha Hl. unfold field. pose proof (uintLE_range (subarray l a (a + n)) (Forall_subarray _ _ _ _ Hb)) as Hr.
  rewrite len_subarray in Hr by lia. by replace (a + n - a) with n in Hr by lia.
Qed.

Lemma field_sub n l a b i : 0 <= a -> 0 <= n -> 0 <= i -> a + i + n <= b -> field n (subarray l a b) i = field n l (a + i).
Proof. intros. unfold field. rewrite subarray_subarray by lia. f_equal. f_equal; lia. Qed.

Lemma field_app n l r a : 0 <= a -> 0 <= n -> a + n <= len l -> field n (l ++ r) a = field n l a.
Proof. intros. unfold field. by rewrite subarray_app_l by lia. Qed.

Lemma field_pos n l a : Forall is_byte l -> 0 <= field n l a.
Proof. intros Hb. apply (uintLE_range (subarray l a (a + n)) (Forall_subarray _ _ _ _ Hb)). Qed.

Lemma includes_true l b : includes l b = true <-> b ∈ l.
Proof.
  unfold includes. rewrite existsb_exists. setoid_rewrite Z.eqb_eq. setoid_rewrite <- list_elem_of_In.
  split; [by intros (x & ? & ->)|eauto].
Qed.

(** ** The headers are frames *)
Definition central_test (l : list Z) : bool :=
  (46 <=? len l) && (u32 l 0 =? ZIP_CENTRAL_HEADER_SIGNATURE) &&
  negb (negb (Z.land (u16 l 8) 0x0001 =? 0) || (u32 l 20 =? ZIP32_MAX) || (u32 l 24 =? ZIP32_MAX) || (u32 l 42 =? ZIP32_MAX) ||
        negb (u16 l 34 =? 0) || (u16 l 28 =? 0) || (len l <? record_length l)) && negb (includes (file_name l) 0x00).
(** The last tests hold of bytes. *)
Definition header_len (l : list Z) : option Z :=
  if central_test l && ((0 <=? u16 l 28) && (46 + u16 l 28 <=? record_length l)) then Some (record_length l) else None.

Lemma central_test_prefix l r : 46 <= len l -> 0 <= u16 l 28 -> 46 + u16 l 28 <= record_length l -> record_length l <= len l ->
  central_test (l ++ r) = central_test l /\ record_length (l ++ r) = record_length l /\ u16 (l ++ r) 28 = u16 l 28.
Proof.
  intros Hl Hn Hf Hr. unfold central_test, file_name.
  assert (Hrl : record_length (l ++ r) = record_length l) by (unfold record_length; by rewrite !field_app by lia).
  rewrite Hrl, !field_app by lia. split; [|done]. rewrite subarray_app_l by lia. pose proof (len_nonneg r).
  rewrite len_app, !(proj2 (Z.leb_le 46 _)), !(proj2 (Z.ltb_ge _ _)) by lia. done.
Qed.

Lemma header_len_inv l n : header_len l = Some n <->
  central_test l = true /\ n = record_length l /\ 0 <= u16 l 28 /\ 46 + u16 l 28 <= record_length l /\ 46 <= len l /\ record_length l <= len l.
Proof.
  unfold header_len. split.
  - destruct (_ && _) eqn:E; [|done]. intros [= <-]. rewrite !andb_true_iff, !Z.leb_le in E. destruct E as (Ht & H0 & H1).
    split; [done|]. unfold central_test in Ht. rewrite !andb_true_iff, Z.leb_le, negb_true_iff, !orb_false_iff, Z.ltb_ge in Ht.
    repeat split; (done || lia || tauto).
  - intros (-> & -> & H0 & H1 & _). by rewrite !(proj2 (Z.leb_le _ _)) by lia.
Qed.

#[export] Program Instance header_format : FrameFormat := {| frame_len := header_len |}.
Next Obligation. intros l n (_ & -> & ? & ? & ? & ?)%header_len_inv. lia. Qed.
Next Obligation.
  intros l n (Ht & -> & H0 & H1 & H2 & H3)%header_len_inv. set (n := record_length l).
  assert (Hl : l = take (Z.to_nat n) l ++ drop (Z.to_nat n) l) by (by rewrite take_drop).
  assert (Hlen : len (take (Z.to_nat n) l) = n) by (unfold len in *; rewrite length_take; lia).
  assert (Hu : forall a, 0 <= a -> a + 2 <= n -> u16 (take (Z.to_nat n) l) a = u16 l a).
  { intros a ? ?. rewrite Hl at 2. by rewrite field_app by lia. }
  assert (Hr : record_length (take (Z.to_nat n) l) = n) by (unfold record_length; rewrite !Hu by lia; done).
  destruct (central_test_prefix (take (Z.to_nat n) l) (drop (Z.to_nat n) l)) as (E1 & _ & _);
    [lia|rewrite Hu; lia|rewrite Hu, Hr; lia|lia|]. rewrite <- Hl in E1.
  apply header_len_inv. rewrite Hr, Hu by lia. split; [by rewrite <- E1|]. split; [done|]. lia.
Qed.
Next Obligation.
  intros l r n (Ht & -> & H0 & H1 & H2 & H3)%header_len_inv.
  destruct (central_test_prefix l r) as (E1 & E2 & E3); [lia..|]. pose proof (len_nonneg r).
  apply header_len_inv. rewrite E1, E2, E3, len_app. repeat split; (done || lia).
Qed.

Lemma central_header_iff f : Forall is_byte f -> is_frame f <-> central_header f.
Proof.
  intros Hb. unfold is_frame. cbn [frame_len header_format]. rewrite header_len_inv. unfold central_test, central_header.
  rewrite !andb_true_iff, Z.leb_le, !negb_true_iff, !orb_false_iff, Z.ltb_ge, !negb_false_iff, !Z.eqb_eq, !Z.eqb_neq.
  rewrite <- not_true_iff_false, includes_true.
  pose proof (field_pos 2 f 28 Hb). pose proof (field_pos 2 f 30 Hb). pose proof (field_pos 2 f 32 Hb).
  assert (Hn : len f = record_length f -> file_name f = [] <-> u16 f 28 = 0).
  { intros Hl. unfold record_length in Hl. assert (len (file_name f) = u16 f 28) by (unfold file_name; rewrite len_subarray; lia).
    split; [intros E; rewrite E in *; done|intros E; destruct (file_name f); [done|rewrite len_cons in *; pose proof (len_nonneg l); lia]]. }
  unfold record_length in *. split; [intros; split; [tauto|]; split; [lia|]; specialize (Hn ltac:(lia)); tauto|].
  intros (? & Hl & ?). specialize (Hn Hl). repeat split; (tauto || lia).
Qed.

(** ** The central directory *)
Section directory.
Context (d : list Z) (Hd : Forall is_byte d).
(** The map of the entries read so far. *)
Definition table (fs : list (list Z)) : gmap (list Z) ZipCentralEntry :=
  list_to_map ((fun f => (name (entry_of f), entry_of f)) <$> fs).

Lemma table_fst fs : ((fun f => (name (entry_of f), entry_of f)) <$> fs).*1 = names fs.
Proof. unfold names. by rewrite <- list_fmap_compose. Qed.

Lemma table_lookup fs k e : NoDup (names fs) -> table fs !! k = Some e <-> exists f, f ∈ fs /\ entry_of f = e /\ name e = k.
Proof.
  intros Hn. unfold table. rewrite <- elem_of_list_to_map by by rewrite table_fst. rewrite list_elem_of_fmap.
  split; [intros (f & [= -> ->] & Hf); eauto|intros (f & Hf & <- & <-); eauto].
Qed.

Lemma table_has fs k : is_Some (table fs !! k) <-> k ∈ names fs.
Proof.
  unfold table. rewrite <- not_eq_None_Some, <- not_elem_of_list_to_map, table_fst.
  split; [by intros ?%dec_stable|auto].
Qed.

Lemma table_snoc fs f : name (entry_of f) ∉ names fs -> table (fs ++ [f]) = <[name (entry_of f) := entry_of f]> (table fs).
Proof. intros Hf. unfold table. rewrite fmap_app. cbn. apply list_to_map_snoc. by rewrite table_fst. Qed.

Lemma directory_body_eq index offset entries l : rest_at d offset l ->
  directory_body d (index, offset, entries) = Ok
    (match header_len l with
     | Some n => if bool_decide (is_Some (entries !! name (entry_of l))) then Return None
                 else Continue (index + 1, offset + n, <[name (entry_of l) := entry_of l]> entries)
     | None => Return None
     end).
Proof.
  intros Hr. pose proof Hr as (Ho & Hl & _). unfold directory_body.
  assert (Hb : Forall is_byte l) by by eapply rest_bytes.
  assert (Hf : forall n a, 0 <= a -> 0 <= n -> field n d (offset + a) = field n l a).
  { intros n a ? ?. unfold field. rewrite <- (rest_sub _ _ _ a (a + n) Hr) by lia. f_equal. f_equal; lia. }
  assert (Hread : forall n a, 0 <= a -> 0 <= n -> a + n <= len l -> read_fixed uintLE n d (offset + a) = Ok (field n l a)).
  { intros n a ? ? ?. rewrite field_read by lia. by rewrite Hf by lia. }
  unfold header_len, central_test. destruct (Z.leb_spec 46 (len l)) as [H46|H46].
  2: { by rewrite (proj2 (Z.ltb_lt _ _)) by lia. }
  rewrite (proj2 (Z.ltb_ge _ _)) by lia. unfold readUInt32LE, readUInt16LE.
  rewrite <- (Z.add_0_r offset) at 1. rewrite !Hread by lia. cbn [mbind exec_bind].
  destruct (u32 l 0 =? ZIP_CENTRAL_HEADER_SIGNATURE) eqn:Es; [|done]. cbn [negb andb].
  pose proof (field_pos 2 l 28 Hb). pose proof (field_pos 2 l 30 Hb). pose proof (field_pos 2 l 32 Hb).
  replace (len d <? offset + (46 + u16 l 28 + u16 l 30 + u16 l 32)) with (len l <? record_length l)
    by (unfold record_length; destruct (Z.ltb_spec (len l) (46 + u16 l 28 + u16 l 30 + u16 l 32)); [rewrite (proj2 (Z.ltb_lt _ _)); lia|rewrite (proj2 (Z.ltb_ge _ _)); lia]).
  destruct (negb _ || _ || _ || _ || _ || _ || _) eqn:Et; [done|]. cbn [negb andb].
  replace (subarray d (offset + 46) (offset + 46 + u16 l 28)) with (file_name l)
    by (unfold file_name; rewrite <- (rest_sub d offset l) by (done || lia); f_equal; lia).
  destruct (includes (file_name l) 0); [done|]. cbn [negb andb].
  unfold record_length at 1. rewrite !(proj2 (Z.leb_le _ _)) by lia. cbn [andb]. by destruct (bool_decide _).
Qed.

Lemma central_records fs : central_directory d fs <-> records d fs /\ NoDup (names fs).
Proof.
  unfold central_directory, records. change (encode <$> fs) with (id <$> fs). rewrite list_fmap_id.
  assert (Hf : d = concat fs -> Forall wf_record fs <-> Forall central_header fs).
  { intros E. rewrite E in Hd. clear E. induction fs as [|f fs IH]; [by split|]. cbn in Hd. apply Forall_app in Hd as [Hf Hd].
    rewrite !Forall_cons. change (wf_record f) with (is_frame f). rewrite central_header_iff by done. by rewrite IH. }
  tauto.
Qed.
End directory.

(** A decoding that begins with [pre] goes on behind it. *)
Lemma records_after `{FrameFormat} pre l fs : Forall is_byte (concat pre ++ l) -> Forall is_frame pre -> records (concat pre ++ l) fs ->
  exists fs', fs = pre ++ fs' /\ records l fs'.
Proof.
  intros Hb Hp. revert fs Hb. induction Hp as [|f pre Hf Hp IH]; intros fs Hb Hr; [by exists fs|].
  cbn [concat] in *. rewrite <- app_assoc in *.
  apply (records_cons _ (concat pre ++ l) f) in Hr as (fs1 & -> & Hr); [|done|exact (decode_complete (C := list Z) f _ Hf)].
  apply IH in Hr as (fs' & -> & Hr); [by exists fs'|]. by apply Forall_app in Hb as [_ Hb].
Qed.

Section parse_directory.
Context (d : list Z) (Hd : Forall is_byte d) (N : Z).
(** Some sequence of [N] headers fills the directory. *)
Definition filled (fs : list (list Z)) : Prop := central_directory d fs /\ Z.of_nat (length fs) = N.

Definition read_so_far (s : Z * Z * gmap (list Z) ZipCentralEntry) : Prop :=
  exists pre l, d = concat pre ++ l /\ rest_at d s.1.2 l /\ Forall is_frame pre /\ NoDup (names pre) /\
    s.1.1 = Z.of_nat (length pre) /\ s.1.1 <= N /\ s.2 = table pre.

Lemma filled_after pre l fs : d = concat pre ++ l -> Forall is_frame pre -> filled fs ->
  exists fs', fs = pre ++ fs' /\ records l fs' /\ NoDup (names (pre ++ fs')) /\ Z.of_nat (length pre + length fs') = N.
Proof.
  intros E Hp [[Hr Hn]%central_records Hlen]; [|done]. pose proof Hd as Hb. rewrite E in Hb, Hr.
  apply records_after in Hr as (fs' & -> & Hr); [|done..]. exists fs'. rewrite length_app in Hlen. done.
Qed.

Lemma rest_record offset l n : rest_at d offset l -> header_len l = Some n ->
  rest_at d (offset + n) (drop (Z.to_nat n) l) /\ is_frame (take (Z.to_nat n) l) /\ 0 < n /\
  entry_of (take (Z.to_nat n) l) = entry_of l.
Proof.
  intros Hr Hn. pose proof (frame_len_bounds l n Hn). split; [by apply rest_drop; [|lia]|].
  pose proof (frame_len_take l n Hn) as Hf. split.
  { unfold is_frame. rewrite Hf. f_equal. unfold len in *. rewrite length_take. lia. }
  split; [lia|]. apply header_len_inv in Hn as (_ & -> & H0 & H1 & H2 & H3). set (n := record_length l) in *.
  assert (Hl : l = take (Z.to_nat n) l ++ drop (Z.to_nat n) l) by (by rewrite take_drop).
  assert (Hlen : len (take (Z.to_nat n) l) = n) by (unfold len in *; rewrite length_take; lia).
  assert (Hu : forall k a, 0 <= a -> 0 <= k -> a + k <= 46 -> field k (take (Z.to_nat n) l) a = field k l a).
  { intros k a ? ? ?. rewrite Hl at 2. by rewrite field_app by lia. }
  unfold entry_of, file_name. rewrite !Hu by lia. do 2 f_equal. rewrite Hl at 3. by rewrite subarray_app_l by lia.
Qed.

Lemma directory_body_step s : read_so_far s -> (s.1.1 <? N) = true ->
  exists out, directory_body d s = Ok out /\
    match out with
    | Continue s' => read_so_far s' /\ (Z.to_nat (len d - s'.1.2) < Z.to_nat (len d - s.1.2))%nat
    | Return r => r = None /\ (forall fs, filled fs -> False)
    end.
Proof.
  destruct s as [[index offset] entries]. cbn [fst snd]. intros (pre & l & E & Hr & Hp & Hn & Hi & _ & Ht) Hlt%Z.ltb_lt.
  cbn [fst snd] in *. rewrite (directory_body_eq d Hd _ _ _ l Hr). eexists. split; [done|].
  assert (Hhead : forall fs, filled fs -> exists n fs', header_len l = Some n /\ entry_of l = entry_of (take (Z.to_nat n) l) /\ fs = pre ++ take (Z.to_nat n) l :: fs' /\ NoDup (names fs)).
  { intros fs (fs' & -> & Hl & Hnd & Hc)%(filled_after pre l); [|done..]. destruct fs' as [|f fs']; [cbn in Hc; lia|].
    apply splits_records in Hl; [|by eapply rest_bytes]. inversion Hl as [|l0 n fs0 Hh Hs El Ef]. clear Hl. subst l0 f fs0.
    destruct (rest_record _ _ _ Hr Hh) as (_ & _ & _ & He). exists n, fs'. done. }
  destruct (header_len l) as [n|] eqn:Hh.
  2: { split; [done|]. intros fs (? & ? & ? & _)%Hhead. done. }
  destruct (rest_record _ _ _ Hr Hh) as (Hr' & Hf & Hpos & He). rewrite <- He, Ht.
  case_bool_decide as Hin; rewrite table_has in Hin.
  - split; [done|]. intros fs (n' & fs' & [= <-] & _ & -> & Hnd)%Hhead. unfold names in Hnd. rewrite fmap_app, fmap_cons in Hnd.
    apply NoDup_app in Hnd as (_ & Hnd & _). apply (Hnd _ Hin). by left.
  - cbn [fst snd]. pose proof (rest_range _ _ _ Hr'). split; [|lia]. exists (pre ++ [take (Z.to_nat n) l]), (drop (Z.to_nat n) l). cbn [fst snd].
    split; [rewrite E, concat_app; cbn; by rewrite app_nil_r, <- app_assoc, take_drop|]. split; [done|].
    split; [by apply Forall_app; split; [|constructor]|]. split.
    { unfold names. rewrite fmap_app. apply NoDup_app. split; [done|]. split; [|apply NoDup_singleton].
      intros x Hx ->%list_elem_of_singleton. done. }
    split; [rewrite length_app; cbn; lia|]. split; [lia|]. by rewrite table_snoc.
Qed.

(** [parseCentralDirectory] returns the table of the only way to read the directory, or [null]. *)
Lemma parseCentralDirectory_spec : 0 <= N ->
  (exists fs, filled fs /\ parseCentralDirectory d N = Ok (Some (table fs))) \/
  (parseCentralDirectory d N = Ok None /\ (forall fs, filled fs -> False)).
Proof.
  intros HN. unfold parseCentralDirectory.
  destruct (while_total (fun s : Z * Z * gmap (list Z) ZipCentralEntry => s.1.1 <? N) (directory_body d) read_so_far
    (fun s => Z.to_nat (len d - s.1.2)) (fun r => r = None /\ (forall fs, filled fs -> False)) directory_body_step (S (length d)) (0, 0, ∅))
    as (out & -> & Hout).
  - exists [], d. split; [done|]. split; [apply rest_at_0|]. split; [constructor|]. split; [constructor|]. split; [done|]. split; [cbn; lia|done].
  - cbn [fst snd]. unfold len. lia.
  - cbn. destruct out as [[[index offset] entries]|r]; cbn; [|right; destruct Hout as [-> ?]; done].
    destruct Hout as [(pre & l & E & Hr & Hp & Hn & Hi & Hle & Ht) Hlt%Z.ltb_ge]. cbn [fst snd] in *.
    destruct (Z.eqb_spec offset (len d)) as [Ho|Ho].
    + left. exists pre. rewrite Ht. split; [|done]. assert (l = []) as ->.
      { destruct Hr as (_ & Hl & _). destruct l as [|b l]; [done|]. rewrite len_cons in Hl. pose proof (len_nonneg l). lia. }
      split; [|lia]. apply central_records; [done|]. split; [|done]. rewrite E, app_nil_r. split; [|done].
      change (encode <$> pre) with (id <$> pre). by rewrite list_fmap_id.
    + right. split; [done|]. intros fs (fs' & -> & Hl & _ & Hc)%(filled_after pre l); [|done..].
      destruct fs'; [|cbn in Hc; lia]. destruct Hl as [-> _]. apply rest_nil in Hr. done.
Qed.
End parse_directory.

(** ** The end record *)
Section end_of_directory.
Context (tail : list Z) (base : Z) (Hb : Forall is_byte tail).

Definition refused_end (o : Z) : bool :=
  negb (u16 tail (o + 4) =? 0) || negb (u16 tail (o + 6) =? 0) || negb (u16 tail (o + 8) =? u16 tail (o + 10)) ||
  (u16 tail (o + 8) =? ZIP16_MAX) || (u16 tail (o + 10) =? ZIP16_MAX) || (u32 tail (o + 12) =? ZIP32_MAX) || (u32 tail (o + 16) =? ZIP32_MAX).
Definition read_end (o : Z) : option ZipEndOfCentralDirectory :=
  if refused_end o then None else Some {| absoluteOffset := base + o; centralDirectoryOffset := u32 tail (o + 16);
    centralDirectorySize := u32 tail (o + 12); totalEntries := u16 tail (o + 10) |}.

Lemma end_record_range o : end_record tail o -> 0 <= o <= len tail - 22 /\ len tail - 22 - ZIP_MAX_COMMENT_BYTES <= o.
Proof.
  intros (Ho & _ & Hl). pose proof (field_pos 2 tail (o + 20) Hb). unfold ZIP_MAX_COMMENT_BYTES.
  pose proof (field_range 2 tail (o + 20) Hb ltac:(lia) ltac:(lia) ltac:(lia)). lia.
Qed.

Lemma eocd_body_eq o : 0 <= o <= len tail - 22 ->
  (end_record tail o /\ eocd_body tail base o = Ok (Return (read_end o))) \/
  ((end_record tail o -> False) /\ eocd_body tail base o = Ok (Continue (o - 1))).
Proof.
  intros Ho. unfold eocd_body, readUInt32LE, readUInt16LE, end_record. rewrite !field_read by lia. cbn [mbind exec_bind].
  destruct (Z.eqb_spec (u32 tail o) ZIP_END_OF_CENTRAL_DIRECTORY_SIGNATURE) as [Hs|Hs]; cbn [negb]; [|right; split; [tauto|done]].
  unfold ZIP_END_OF_CENTRAL_DIRECTORY_BYTES.
  destruct (Z.eqb_spec (o + 22 + u16 tail (o + 20)) (len tail)) as [Hc|Hc]; cbn [negb]; [|right; split; [tauto|done]].
  left. split; [split; [lia|done]|]. unfold read_end, refused_end. by destruct (_ || _).
Qed.

(** The search finds the last end record, and reads it. *)
Lemma parseEndOfCentralDirectory_spec :
  (exists o, last_end_record tail o /\ parseEndOfCentralDirectory tail base = Ok (read_end o)) \/
  (parseEndOfCentralDirectory tail base = Ok None /\ forall o, end_record tail o -> False).
Proof.
  unfold parseEndOfCentralDirectory, ZIP_END_OF_CENTRAL_DIRECTORY_BYTES.
  destruct (while_total (fun offset => 0 <=? offset) (eocd_body tail base)
    (fun offset => offset <= len tail - 22 /\ (forall o, end_record tail o -> o <= offset)) (fun offset => Z.to_nat (offset + 1))
    (fun r => exists o, last_end_record tail o /\ r = read_end o)) with (fuel := S (length tail)) (s := len tail - 22)
    as (out & -> & Hout).
  - intros o (Ho & Hall) Hc%Z.leb_le. destruct (eocd_body_eq o) as [(He & ->)|(He & ->)]; [lia| |]; eexists; (split; [done|]); cbn.
    + exists o. done.
    + split; [|lia]. split; [lia|]. intros o' Ho'. specialize (Hall o' Ho'). destruct (Z.eq_dec o' o) as [->|]; [done|lia].
  - split; [lia|]. intros o Ho%end_record_range. lia.
  - unfold len. lia.
  - cbn. destruct out as [o|r]; cbn; [right|left; destruct Hout as (o & ? & ->); eauto].
    destruct Hout as [[_ Hall] Hc%Z.leb_gt]. split; [done|]. intros o' Ho'. pose proof (Hall o' Ho'). apply end_record_range in Ho'. lia.
Qed.
End end_of_directory.

(** An end record lies in the last [ZIP_MAX_EOCD_SEARCH_BYTES] bytes. *)
Lemma end_record_tail c k o : Forall is_byte c -> 0 <= k <= len c -> (ZIP_MAX_EOCD_SEARCH_BYTES <= len c - k \/ k = 0) ->
  end_record (subarray c k (len c)) o <-> 0 <= o /\ end_record c (k + o).
Proof.
  intros Hb Hk Hw. unfold end_record. assert (Hl : len (subarray c k (len c)) = len c - k) by (apply len_subarray; lia).
  rewrite Hl. split.
  - intros (Ho & Hs & Hc). assert (0 <= u16 (subarray c k (len c)) (o + 20)) by apply field_pos, Forall_subarray, Hb.
    assert (o + 22 <= len c - k) by lia. rewrite field_sub in Hs, Hc, H by lia. rewrite Z.add_assoc in Hc, H. split; [done|]. split; [lia|]. split; [done|lia].
  - intros (Ho & _ & Hs & Hc). pose proof (field_pos 2 c (k + o + 20) Hb).
    rewrite !field_sub by lia. rewrite Z.add_assoc. split; [done|]. split; [done|lia].
Qed.

(** ** Local headers *)
Section local_headers.
Context (h : FileHandle).
Local Abbreviation c := (contents h).

Lemma matchesLocalHeader_spec e limit : 0 <= localHeaderOffset e -> limit <= size h ->
  exists b, matchesLocalHeader h e limit = Ok b /\ (b = true <-> local_header c limit e).
Proof.
  intros He Hlimit. unfold matchesLocalHeader, local_header. set (o := localHeaderOffset e) in *.
  pose proof (contents_bytes h) as Hb. pose proof (field_pos 2 c (o + 26) Hb) as H26. pose proof (field_pos 2 c (o + 28) Hb) as H28.
  rewrite (proj2 (Z.ltb_ge o 0)) by lia. cbn [orb].
  destruct (Z.ltb_spec limit (o + 30)) as [Hl|Hl]; [rejects; lia|]. rewrite or_else_read_ok by lia.
  assert (Hlen : len (subarray c o (o + 30)) = 30) by (rewrite len_subarray; unfold size in *; lia).
  unfold readUInt32LE, readUInt16LE. rewrite !field_read by lia. cbn [mbind exec_bind]. rewrite !field_sub by lia. rewrite Z.add_0_r.
  destruct (Z.eqb_spec (u32 c o) ZIP_LOCAL_HEADER_SIGNATURE) as [Hs|Hs]; cbn [negb]; [|rejects; tauto].
  destruct (Z.eqb_spec (Z.land (u16 c (o + 6)) 1) 0) as [Hf|Hf]; cbn [negb orb]; [|rejects; tauto].
  destruct (Z.eqb_spec (u16 c (o + 26)) 0) as [Hz|Hz]; cbn [orb]; [rejects; tauto|].
  destruct (Z.ltb_spec limit (o + 30 + u16 c (o + 26) + u16 c (o + 28))) as [Hn|Hn]; [rejects; lia|].
  rewrite or_else_read_ok by lia. set (nameBytes := subarray c (o + 30) (o + 30 + u16 c (o + 26))).
  destruct (includes nameBytes 0) eqn:Ei; [rejects; apply includes_true in Ei; tauto|].
  eexists. split; [done|]. rewrite equals_true. apply not_true_iff_false in Ei. rewrite includes_true in Ei. tauto.
Qed.
End local_headers.

(** ** The package *)
Lemma required_inj (m m' : OoxmlMimeType) : OOXML_REQUIRED_ENTRY_BY_MIME m = OOXML_REQUIRED_ENTRY_BY_MIME m' -> m = m'.
Proof. destruct m, m'; (done || (intros; discriminate)). Qed.

Lemma other_families (m : OoxmlMimeType) (entries : gmap (list Z) ZipCentralEntry) :
  existsb (fun familyEntry => negb (equals familyEntry (OOXML_REQUIRED_ENTRY_BY_MIME m)) && bool_decide (is_Some (entries !! familyEntry)))
    OOXML_FAMILY_ENTRIES = false <-> (forall other, other <> m -> entries !! OOXML_REQUIRED_ENTRY_BY_MIME other = None).
Proof.
  rewrite <- not_true_iff_false, existsb_exists. setoid_rewrite andb_true_iff. setoid_rewrite negb_true_iff.
  setoid_rewrite bool_decide_eq_true. split.
  - intros H other Hne. apply eq_None_not_Some. intros Hs. apply H. exists (OOXML_REQUIRED_ENTRY_BY_MIME other).
    split; [apply list_elem_of_In, list_elem_of_fmap; exists other; split; [done|]; destruct other; set_solver|]. split; [|done].
    apply not_true_iff_false. rewrite equals_true. by intros ?%required_inj.
  - intros H (x & Hx & Hne & Hs). apply list_elem_of_In, list_elem_of_fmap in Hx as (other & -> & _).
    rewrite H in Hs; [by destruct Hs|]. intros ->. apply not_true_iff_false in Hne. by rewrite equals_true in Hne.
Qed.

Lemma last_end_tail c k o : Forall is_byte c -> 0 <= k <= len c -> (ZIP_MAX_EOCD_SEARCH_BYTES <= len c - k \/ k = 0) ->
  last_end_record (subarray c k (len c)) o -> last_end_record c (k + o).
Proof.
  intros Hb Hk Hw [He Hlast]. pose proof (end_record_tail c k) as Ht. split; [by apply Ht in He as [_ ?]|].
  intros o' Ho'. pose proof (end_record_range _ Hb o' Ho') as Hr. unfold ZIP_MAX_EOCD_SEARCH_BYTES, ZIP_END_OF_CENTRAL_DIRECTORY_BYTES in *.
  enough (o' - k <= o) by lia. apply Hlast, Ht; [done..|]. split; [lia|]. by replace (k + (o' - k)) with o' by lia.
Qed.

Lemma last_end_unique c o o' : last_end_record c o -> last_end_record c o' -> o = o'.
Proof. intros [He Hl] [He' Hl']. pose proof (Hl o' He'). pose proof (Hl' o He). lia. Qed.

Section package.
Context (h : FileHandle) (m : OoxmlMimeType) (o : Z).
Local Abbreviation c := (contents h).
Hypothesis Hlast : last_end_record c o.
Let Hb : Forall is_byte c := contents_bytes h.

(** What the package asks of an end record that was not refused. *)
Definition package_fits : Prop :=
  let n := u16 c (o + 10) in
  1 <= n <= OOXML_MAX_ENTRIES /\ 1 <= u32 c (o + 12) <= OOXML_MAX_CENTRAL_DIRECTORY_BYTES /\ u32 c (o + 16) + u32 c (o + 12) = o.
Definition package_entries (fs : list (list Z)) : Prop :=
  let start := u32 c (o + 16) in
  (forall required, required ∈ [OOXML_CONTENT_TYPES_ENTRY; OOXML_REQUIRED_ENTRY_BY_MIME m] ->
     exists f, f ∈ fs /\ name (entry_of f) = required /\ local_header c start (entry_of f)) /\
  (forall other, other <> m -> OOXML_REQUIRED_ENTRY_BY_MIME other ∉ names fs).

Lemma package_iff : ooxml_package m c <-> refused_end c o = false /\ package_fits /\
  exists fs, filled (subarray c (u32 c (o + 16)) o) (u16 c (o + 10)) fs /\ package_entries fs.
Proof.
  unfold ooxml_package, package_fits, filled, package_entries, refused_end, ZIP16_MAX, ZIP32_MAX, OOXML_MAX_ENTRIES, OOXML_MAX_CENTRAL_DIRECTORY_BYTES.
  rewrite !orb_false_iff, !negb_false_iff, !Z.eqb_eq, !Z.eqb_neq. split.
  - intros (o' & fs & Hl & H1 & H2 & H3 & H4 & H5 & H6 & H7 & H8 & H9 & H10).
    rewrite (last_end_unique _ _ _ Hl Hlast) in *. split; [repeat split; (done || lia)|]. split; [repeat split; (done || lia)|].
    exists fs. split; [by split|]. done.
  - intros (((((((H1 & H2) & H3) & _) & _) & _) & H7) & (H8 & H9 & H10) & fs & [H11 H12] & H13).
    exists o, fs. split; [done|]. do 4 (split; [lia|]). split; [lia|]. split; [done|]. do 2 (split; [lia|]). done.
Qed.

Lemma at_end_entries fs : filled (subarray c (u32 c (o + 16)) o) (u16 c (o + 10)) fs -> u32 c (o + 16) <= size h ->
  exists b, (match table fs !! OOXML_CONTENT_TYPES_ENTRY, table fs !! OOXML_REQUIRED_ENTRY_BY_MIME m with
    | Some contentTypes, Some expectedFamily =>
        if existsb (fun familyEntry => negb (equals familyEntry (OOXML_REQUIRED_ENTRY_BY_MIME m)) && bool_decide (is_Some (table fs !! familyEntry)))
             OOXML_FAMILY_ENTRIES
        then Ok false else
        first ← matchesLocalHeader h contentTypes (u32 c (o + 16));
        if negb first then Ok false else matchesLocalHeader h expectedFamily (u32 c (o + 16))
    | _, _ => Ok false
    end : parser bool) = Ok b /\ (b = true <-> package_entries fs).
Proof.
  intros [[E [Hheaders Hn]] _] Hstart. unfold package_entries.
  assert (Hoff : forall f, f ∈ fs -> 0 <= localHeaderOffset (entry_of f)).
  { intros f Hf. apply (uintLE_range (subarray f 42 46)), Forall_subarray. apply (Forall_subarray _ _ (u32 c (o + 16)) o) in Hb as Hs.
    rewrite E in Hs. apply concat_bytes in Hs. by eapply Forall_forall in Hs. }
  assert (Hget : forall k e, table fs !! k = Some e -> 0 <= localHeaderOffset e /\
    ((exists f, f ∈ fs /\ name (entry_of f) = k /\ local_header c (u32 c (o + 16)) (entry_of f)) <-> local_header c (u32 c (o + 16)) e)).
  { intros k e He. pose proof He as (f & Hf & <- & Hk)%table_lookup; [|done]. split; [auto|]. split; [|eauto].
    intros (f' & Hf' & Hk' & Hl). assert (table fs !! k = Some (entry_of f')) as E' by (apply table_lookup; eauto). congruence. }
  assert (Hnone : forall k, table fs !! k = None -> forall f, f ∈ fs -> name (entry_of f) = k -> False).
  { intros k Hk f Hf Hnm. assert (table fs !! k = Some (entry_of f)) by (apply table_lookup; eauto). congruence. }
  setoid_rewrite elem_of_cons. setoid_rewrite list_elem_of_singleton.
  destruct (table fs !! OOXML_CONTENT_TYPES_ENTRY) as [e1|] eqn:E1.
  2: { rejects. intros [Hr _]. destruct (Hr _ (or_introl eq_refl)) as (f & Hf & Hk & _). by destruct (Hnone _ E1 f Hf Hk). }
  destruct (table fs !! OOXML_REQUIRED_ENTRY_BY_MIME m) as [e2|] eqn:E2.
  2: { rejects. intros [Hr _]. destruct (Hr _ (or_intror eq_refl)) as (f & Hf & Hk & _). by destruct (Hnone _ E2 f Hf Hk). }
  destruct (Hget _ _ E1) as [Ho1 Hl1], (Hget _ _ E2) as [Ho2 Hl2].
  destruct (existsb _ _) eqn:Ex.
  { rejects. intros [_ Ho]. rewrite (proj2 (other_families m (table fs))) in Ex; [done|]. intros other Hne.
    apply eq_None_not_Some. rewrite table_has. auto. }
  rewrite other_families in Ex.
  destruct (matchesLocalHeader_spec h e1 (u32 c (o + 16)) Ho1 Hstart) as (b1 & -> & Hb1).
  destruct (matchesLocalHeader_spec h e2 (u32 c (o + 16)) Ho2 Hstart) as (b2 & Hm2 & Hb2). cbn [mbind exec_bind].
  destruct b1; cbn [negb].
  - exists b2. split; [done|]. rewrite Hb2, <- Hl2. split.
    + intros H2. split; [intros required [->| ->]; [by apply Hl1, Hb1|done]|].
      intros other Hne Hin. apply table_has in Hin. rewrite Ex in Hin by done. by destruct Hin.
    + intros [H _]. by apply H; right.
  - rejects. intros [H _]. assert (false = true) by by apply Hb1, Hl1, H; left. done.
Qed.

Lemma matches_at_end_spec eocd : read_end c 0 o = Some eocd -> exists b, matches_at_end h m eocd = Ok b /\ (b = true <-> ooxml_package m c).
Proof.
  unfold read_end. destruct (refused_end c o) eqn:Href; [done|]. intros [= <-]. setoid_rewrite package_iff.
  setoid_rewrite Href. pose proof (field_pos 4 c (o + 16) Hb). pose proof Hlast as [(Ho & _ & Hend) _].
  pose proof (field_pos 2 c (o + 20) Hb). unfold matches_at_end, package_fits. cbn [totalEntries centralDirectorySize centralDirectoryOffset absoluteOffset].
  rewrite Z.add_0_l.
  destruct (Z.ltb_spec (u16 c (o + 10)) 1); cbn [orb]; [rejects; lia|].
  destruct (Z.ltb_spec OOXML_MAX_ENTRIES (u16 c (o + 10))); cbn [orb]; [rejects; lia|].
  destruct (Z.ltb_spec (u32 c (o + 12)) 1); cbn [orb]; [rejects; lia|].
  destruct (Z.ltb_spec OOXML_MAX_CENTRAL_DIRECTORY_BYTES (u32 c (o + 12))); cbn [orb]; [rejects; lia|].
  destruct (Z.eqb_spec (u32 c (o + 16) + u32 c (o + 12)) o) as [Hsum|Hsum]; cbn [negb]; [|rejects; tauto].
  rewrite or_else_read_ok by (unfold size; lia). rewrite Hsum. unfold or_else.
  destruct (parseCentralDirectory_spec (subarray c (u32 c (o + 16)) o) (Forall_subarray _ _ _ _ Hb) (u16 c (o + 10))) as [(fs & Hfs & ->)|[-> Hno]]; [lia| |];
    cbn [mbind exec_bind].
  - destruct (at_end_entries fs Hfs) as (b & -> & Hbb); [unfold size; lia|]. exists b. split; [done|]. rewrite Hbb. split.
    + intros He. split; [done|]. split; [lia|]. eauto.
    + intros (_ & _ & fs' & Hfs' & He). enough (fs' = fs) as -> by done. destruct Hfs as [Hr _], Hfs' as [Hr' _].
      apply central_records in Hr as [Hr _], Hr' as [Hr' _]; [|by apply Forall_subarray..].
      eapply records_unique; [|done..]. by apply Forall_subarray.
  - rejects. intros (_ & _ & fs & Hfs & _). by destruct (Hno fs Hfs).
Qed.
End package.

Lemma ooxml_package_size m c : Forall is_byte c -> ooxml_package m c -> 22 <= len c.
Proof. intros Hb (o & fs & [(Ho & _ & Hl) _] & _). pose proof (field_pos 2 c (o + 20) Hb). lia. Qed.

Lemma read_end_tail c k o : Forall is_byte c -> 0 <= k <= len c -> 0 <= o -> k + o + 22 <= len c ->
  read_end (subarray c k (len c)) k o = read_end c 0 (k + o) /\ refused_end (subarray c k (len c)) o = refused_end c (k + o).
Proof.
  intros Hb Hk Ho Hl. unfold read_end, refused_end. rewrite !field_sub by lia. by rewrite !Z.add_assoc, Z.add_0_l.
Qed.

Lemma matchesOoxmlPackageIdentity_spec h m : exists b, matchesOoxmlPackageIdentity h m = Ok b /\
  (b = true <-> isFile h = true /\ ooxml_package m (contents h)).
Proof.
  unfold matchesOoxmlPackageIdentity. pose proof (contents_bytes h) as Hb. pose proof (ooxml_package_size m (contents h) Hb) as Hsize.
  destruct (isFile h); cbn [negb orb]; [|rejects; by intros [? _]]. unfold ZIP_END_OF_CENTRAL_DIRECTORY_BYTES.
  destruct (Z.ltb_spec (size h) 22) as [Hs|Hs]; [rejects; intros [_ Hp]; specialize (Hsize Hp); unfold size in Hs; lia|].
  set (t := Z.min (size h) ZIP_MAX_EOCD_SEARCH_BYTES). set (k := size h - t).
  assert (Hk : 0 <= k <= size h /\ (ZIP_MAX_EOCD_SEARCH_BYTES <= size h - k \/ k = 0)).
  { unfold k, t, ZIP_MAX_EOCD_SEARCH_BYTES, ZIP_END_OF_CENTRAL_DIRECTORY_BYTES, ZIP_MAX_COMMENT_BYTES. lia. }
  destruct Hk as [Hk Hw]. rewrite or_else_read_ok by (unfold t, ZIP_MAX_EOCD_SEARCH_BYTES, ZIP_END_OF_CENTRAL_DIRECTORY_BYTES, ZIP_MAX_COMMENT_BYTES in *; lia).
  replace (k + t) with (len (contents h)) by (unfold k, size; lia). unfold size in Hk, Hw. unfold or_else.
  destruct (parseEndOfCentralDirectory_spec (subarray (contents h) k (len (contents h))) k (Forall_subarray _ _ _ _ Hb)) as [(o & Hl & ->)|[-> Hno]];
    cbn [mbind exec_bind].
  - apply last_end_tail in Hl as Hc; [|done..]. pose proof Hl as [(Ho & _) _]. pose proof Hc as [He _]. apply end_record_range in He; [|done].
    destruct (read_end_tail (contents h) k o Hb Hk Ho) as [-> _]; [lia|].
    destruct (read_end (contents h) 0 (k + o)) as [eocd|] eqn:Er.
    + destruct (matches_at_end_spec h m (k + o) Hc eocd Er) as (b & -> & Hbb). exists b. split; [done|]. tauto.
    + rejects. intros [_ Hp]. apply (package_iff h m (k + o) Hc) in Hp as [Hr _]. unfold read_end in Er. by rewrite Hr in Er.
  - rejects. intros [_ (o & fs & [He _] & _)]. destruct (Hno (o - k)). apply end_record_tail; [done..|].
    pose proof (end_record_range _ Hb _ He) as Hr. unfold ZIP_MAX_EOCD_SEARCH_BYTES, ZIP_END_OF_CENTRAL_DIRECTORY_BYTES in Hw.
    split; [lia|]. by replace (k + (o - k)) with o by lia.
Qed.

(** C36: [matchesOoxmlPackageIdentity] returns on every file, however the reads are sliced, and accepts
    exactly the regular files with an Office package of the type: the last end record whose comment ends
    the file describes a directory right before it, the directory is a sequence of 1 to 10000 headers
    with names of their own, among them the content types and the main part of this type and of no
    other, and these two have a local header of the same name before the directory. *)
Theorem matchesOoxmlPackageIdentity_correct (h : FileHandle) (mimeType : OoxmlMimeType) :
  exists b, matchesOoxmlPackageIdentity h mimeType = Ok b /\
    (b = true <-> isFile h = true /\ ooxml_package mimeType (contents h)).
Proof. apply matchesOoxmlPackageIdentity_spec. Qed.

(** ** Examples *)
Definition example_local (text : string) : list Z :=
  bytesLE 4 ZIP_LOCAL_HEADER_SIGNATURE ++ replicate 22 0 ++ bytesLE 2 (len (ascii_bytes text)) ++ [0; 0] ++ ascii_bytes text.
Definition example_header (text : string) (offset : Z) : list Z :=
  bytesLE 4 ZIP_CENTRAL_HEADER_SIGNATURE ++ replicate 24 0 ++ bytesLE 2 (len (ascii_bytes text)) ++ replicate 12 0 ++
  bytesLE 4 offset ++ ascii_bytes text.
Definition example_package (parts : list string) (comment : list Z) : list Z :=
  let '(locals, directory) := foldl (fun '(ls, d) text => (ls ++ example_local text, d ++ example_header text (len ls))) ([], []) parts in
  locals ++ directory ++ bytesLE 4 ZIP_END_OF_CENTRAL_DIRECTORY_SIGNATURE ++ [0; 0; 0; 0] ++
  bytesLE 2 (Z.of_nat (length parts)) ++ bytesLE 2 (Z.of_nat (length parts)) ++ bytesLE 4 (len directory) ++
  bytesLE 4 (len locals) ++ bytesLE 2 (len comment) ++ comment.
Definition package_accepted (parts : list string) (comment : list Z) (mimeType : OoxmlMimeType) : option (parser bool) :=
  (fun h => matchesOoxmlPackageIdentity h mimeType) <$> literal_file (example_package parts comment).
Example document_accepted :
  package_accepted ["[Content_Types].xml"; "word/document.xml"]%string [] wordprocessing = Some (Ok true).
Proof. vm_compute. reflexivity. Qed.
Example comment_accepted :
  package_accepted ["[Content_Types].xml"; "a"; "xl/workbook.xml"]%string [0x50; 0x4b] spreadsheet = Some (Ok true).
Proof. vm_compute. reflexivity. Qed.
Example other_part_refused :
  package_accepted ["[Content_Types].xml"; "word/document.xml"; "xl/workbook.xml"]%string [] wordprocessing = Some (Ok false).
Proof. vm_compute. reflexivity. Qed.
Example twice_refused :
  package_accepted ["[Content_Types].xml"; "word/document.xml"; "word/document.xml"]%string [] wordprocessing = Some (Ok false).
Proof. vm_compute. reflexivity. Qed.
