(* ===== verification/Amr.v ===== *)
(** AMR speech files: [matchesAmrStructure] of [media-audio-structure.ts]. *)
From stdpp Require Import prelude list strings.
From Stdlib Require Import ZArith Lia.
From S2P Require Import Prelude Buffers FileHandle Codec.
#[local] Open Scope Z_scope.

Definition AMR_NB_MAGIC : list Z := ascii_bytes "#!AMR" ++ [0x0a].
Definition AMR_WB_MAGIC : list Z := ascii_bytes "#!AMR-WB" ++ [0x0a].
Definition AMR_MAX_FRAMES := 100000.
Definition AMR_NB_FRAME_BITS := [95; 103; 118; 134; 148; 159; 204; 244; 39].
Definition AMR_WB_FRAME_BITS := [132; 177; 253; 285; 317; 365; 397; 461; 477; 40].

Definition amrFrameBits (wideband : bool) (frameType : Z) : option Z :=
  if wideband then
    if frameType <=? 9 then idx AMR_WB_FRAME_BITS frameType
    else if (frameType =? 14) || (frameType =? 15) then Some 0 else None
  else
    if frameType <=? 8 then idx AMR_NB_FRAME_BITS frameType
    else if frameType =? 15 then Some 0 else None.

(** [Math.ceil(bits / 8)] *)
Definition ceil8 (bits : Z) : Z := (bits + 7) / 8.

(** One turn of the frame loop; its state is [(offset, frames)]. *)
Definition amr_body (h : FileHandle) (wideband : bool) (s : Z * Z) : parser (flow (Z * Z) bool) :=
  let (offset, frames) := s in
  let? header := readExactly h 1 offset else Ok (Return false) in
  if negb (Z.land (at0 header 0) 0x83 =? 0) then Ok (Return false) else
  let frameType := Z.land (Z.shiftr (at0 header 0) 3) 0x0f in
  match amrFrameBits wideband frameType with
  | None => Ok (Return false)
  | Some speechBits =>
      let payloadBytes := ceil8 speechBits in
      if size h <? offset + 1 + payloadBytes then Ok (Return false) else
      let next := Ok (Continue (offset + 1 + payloadBytes, frames + 1)) in
      if 0 <? payloadBytes then
        let? lastPayloadByte := readExactly h 1 (offset + payloadBytes) else Ok (Return false) in
        let paddingBits := payloadBytes * 8 - speechBits in
        if (0 <? paddingBits) &&
           negb (Z.land (at0 lastPayloadByte 0) (Z.shiftl 1 paddingBits - 1) =? 0)
        then Ok (Return false) else next
      else next
  end.

Definition matchesAmrStructure (h : FileHandle) : parser bool :=
  if negb (isFile h) || (size h <=? len AMR_NB_MAGIC) then Ok false else
  let? prefix := readExactly h (Z.min (len AMR_WB_MAGIC) (size h)) 0 else Ok false in
  let wideband := (len AMR_WB_MAGIC <=? len prefix) &&
    equals (subarray prefix 0 (len AMR_WB_MAGIC)) AMR_WB_MAGIC in
  let narrowband := equals (subarray prefix 0 (len AMR_NB_MAGIC)) AMR_NB_MAGIC in
  if negb wideband && negb narrowband then Ok false else
  let offset := if wideband then len AMR_WB_MAGIC else len AMR_NB_MAGIC in
  out ← while (S (Z.to_nat (size h)))
          (fun s => (s.1 <? size h) && (s.2 <? AMR_MAX_FRAMES))
          (amr_body h wideband) (offset, 0);
  afterwards out (fun s => Ok ((s.1 =? size h) && (0 <? s.2) && (s.2 <? AMR_MAX_FRAMES))).

(** ** What an AMR file is *)
Definition amr_magic (wideband : bool) : list Z :=
  if wideband then AMR_WB_MAGIC else AMR_NB_MAGIC.

(** A frame: a header byte with clear reserved bits whose type announces the number
    of speech bits, then exactly the bytes that hold them, padded with zero bits. *)
Definition amr_frame (wideband : bool) (f : list Z) : Prop :=
  exists header payload bits,
    f = header :: payload /\
    Z.land header 0x83 = 0 /\
    amrFrameBits wideband (Z.land (Z.shiftr header 3) 0x0f) = Some bits /\
    len payload = ceil8 bits /\
    Z.land (at0 f (len payload)) (2 ^ (8 * ceil8 bits - bits) - 1) = 0.

(** The frame at the head of [l]. *)
Definition amr_frame_len (wideband : bool) (l : list Z) : option Z :=
  header ← idx l 0;
  if negb (Z.land header 0x83 =? 0) then None else
  bits ← amrFrameBits wideband (Z.land (Z.shiftr header 3) 0x0f);
  let n := ceil8 bits in
  if (1 + n <=? len l) && ((n =? 0) || (Z.land (at0 l n) (2 ^ (8 * n - bits) - 1) =? 0))
  then Some (1 + n) else None.

Lemma amrFrameBits_bounds wb t bits :
  amrFrameBits wb t = Some bits -> 0 <= bits <= 477.
Proof.
  unfold amrFrameBits, idx. intros Hb.
  assert (forall L : list Z, Forall (fun x => 0 <= x <= 477) L ->
            forall i, L !! i = Some bits -> 0 <= bits <= 477) as Hall.
  { intros L HL i Hi. exact (Forall_lookup_1 _ _ _ _ HL Hi). }
  destruct wb; repeat case_match; simplify_eq; try lia.
  all: eapply Hall; [|done]; unfold AMR_WB_FRAME_BITS, AMR_NB_FRAME_BITS;
    repeat (constructor; [lia|]); constructor.
Qed.

Lemma ceil8_bounds bits : 0 <= bits -> 0 <= ceil8 bits /\ bits <= 8 * ceil8 bits < bits + 8.
Proof.
  intros Hb. unfold ceil8. pose proof (Z.div_mod (bits + 7) 8).
  pose proof (Z.mod_pos_bound (bits + 7) 8). lia.
Qed.

Lemma amr_frame_len_inv wb l n :
  amr_frame_len wb l = Some n <->
  exists header bits, idx l 0 = Some header /\ Z.land header 0x83 = 0 /\
    amrFrameBits wb (Z.land (Z.shiftr header 3) 0x0f) = Some bits /\
    n = 1 + ceil8 bits /\ n <= len l /\
    (ceil8 bits = 0 \/ Z.land (at0 l (ceil8 bits)) (2 ^ (8 * ceil8 bits - bits) - 1) = 0).
Proof.
  unfold amr_frame_len. split.
  - intros (header & Hh & H)%bind_Some. destruct (Z.eqb_spec (Z.land header 131) 0); [|done].
    cbn [negb] in H. apply bind_Some in H as (bits & Hb & H). exists header, bits.
    case_match eqn:E; [|done]. apply andb_true_iff in E as [E1%Z.leb_le E2].
    injection H as <-. rewrite orb_true_iff, !Z.eqb_eq in E2. auto 7.
  - intros (header & bits & Hh & Hm & Hb & -> & Hl & Hp). rewrite Hh. cbn.
    rewrite Hm. cbn. rewrite Hb. cbn. rewrite (proj2 (Z.leb_le _ _)) by done.
    rewrite (proj2 (orb_true_iff _ _)); [done|]. by rewrite !Z.eqb_eq.
Qed.

#[export] Program Instance amr_format (wb : bool) : FrameFormat := {| frame_len := amr_frame_len wb |}.
Next Obligation.
  intros wb l n (header & bits & _ & _ & Hb & -> & Hl & _)%amr_frame_len_inv.
  apply amrFrameBits_bounds in Hb. pose proof (ceil8_bounds bits). lia.
Qed.
Next Obligation.
  intros wb l n H. pose proof H as (header & bits & Hh & Hm & Hb & -> & Hl & Hp)%amr_frame_len_inv.
  pose proof (amrFrameBits_bounds _ _ _ Hb) as Hbb. pose proof (ceil8_bounds bits) as Hc.
  apply amr_frame_len_inv. exists header, bits.
  replace (take _ l) with (subarray l 0 (1 + ceil8 bits))
    by (unfold subarray; rewrite drop_0; f_equal; lia).
  rewrite idx_subarray, at0_subarray, len_subarray by lia. rewrite !Z.add_0_l.
  repeat split; try done; lia.
Qed.
Next Obligation.
  intros wb l r n (header & bits & Hh & Hm & Hb & -> & Hl & Hp)%amr_frame_len_inv.
  apply amr_frame_len_inv. exists header, bits.
  rewrite len_app, at0_app_l by lia. pose proof (len_nonneg r).
  assert (0 < len l).
  { destruct l; [done|]. rewrite len_cons. pose proof (len_nonneg l). lia. }
  rewrite idx_app_l by done. auto 8 with lia.
Qed.

Lemma amr_frame_iff wb f : @is_frame (amr_format wb) f <-> amr_frame wb f.
Proof.
  unfold is_frame. cbn [frame_len amr_format]. rewrite amr_frame_len_inv. split.
  - intros (header & bits & Hh & Hm & Hb & Hn & _ & Hp).
    destruct f as [|b payload]; [done|]. injection Hh as ->. rewrite len_cons in Hn.
    exists header, payload, bits. repeat (split; [done || lia|]).
    replace (len payload) with (ceil8 bits) by lia. destruct Hp as [Hp|Hp]; [|done].
    pose proof (amrFrameBits_bounds _ _ _ Hb) as Hbb. pose proof (ceil8_bounds bits) as Hc.
    rewrite Hp. replace bits with 0 by lia. apply Z.land_0_r.
  - intros (header & payload & bits & -> & Hm & Hb & Hl & Hp).
    exists header, bits. rewrite len_cons. rewrite Hl in *. repeat split; try done; auto.
Qed.

(** One turn of the loop reads exactly the frame at the head of the rest of the file. *)
Lemma amr_body_spec h wb offset frames :
  0 <= offset < size h ->
  amr_body h wb (offset, frames) =
    Ok (match amr_frame_len wb (subarray (contents h) offset (size h)) with
        | Some n => Continue (offset + n, frames + 1)
        | None => Return false
        end).
Proof.
  intros Ho. unfold amr_body, or_else. rewrite readExactly_spec by lia. cbn [mbind exec_bind].
  rewrite read_at_some by (unfold size in *; lia). rewrite subarray_1 by (unfold size in *; lia).
  change (at0 [at0 (contents h) offset] 0) with (at0 (contents h) offset).
  set (l := subarray (contents h) offset (size h)).
  assert (Hlen : len l = size h - offset) by (apply len_subarray; unfold size in *; lia).
  assert (Hat : forall i, 0 <= i < len l -> at0 l i = at0 (contents h) (offset + i)).
  { intros i Hi. unfold l. apply at0_subarray; lia. }
  unfold amr_frame_len. destruct (idx_in l 0) as [header Hh]; [lia|].
  assert (at0 (contents h) offset = header) as ->.
  { rewrite <- (Z.add_0_r offset), <- Hat by lia. unfold at0. by rewrite Hh. }
  rewrite Hh. cbn [mbind option_bind]. case_match; [done|].
  destruct (amrFrameBits wb _) as [bits|] eqn:Hb; cbn [mbind option_bind]; [|done].
  apply amrFrameBits_bounds in Hb. pose proof (ceil8_bounds bits) as Hc.
  destruct (Z.ltb_spec (size h) (offset + 1 + ceil8 bits)).
  { by rewrite (proj2 (Z.leb_gt _ _)) by lia. }
  rewrite (proj2 (Z.leb_le _ _)) by lia. rewrite andb_true_l.
  destruct (Z.ltb_spec 0 (ceil8 bits)); 
    [|rewrite (proj2 (Z.eqb_eq _ _)) by lia; cbn; by rewrite Z.add_assoc].
  rewrite (proj2 (Z.eqb_neq _ _)), orb_false_l by lia.
  rewrite readExactly_spec by lia. cbn [mbind exec_bind].
  rewrite read_at_some by (unfold size in *; lia). rewrite subarray_1 by (unfold size in *; lia).
  change (at0 [at0 (contents h) (offset + ceil8 bits)] 0) with (at0 (contents h) (offset + ceil8 bits)).
  rewrite <- Hat by lia. rewrite Z.shiftl_mul_pow2, Z.mul_1_l, (Z.mul_comm _ 8) by lia.
  destruct (Z.ltb_spec 0 (8 * ceil8 bits - bits)).
  - rewrite andb_true_l. destruct (Z.land (at0 l _) _ =? 0); cbn; by rewrite ?Z.add_assoc.
  - replace (8 * ceil8 bits - bits) with 0 by lia. rewrite Z.land_0_r. cbn. by rewrite Z.add_assoc.
Qed.

(** [records] of AMR frames, in the words of [amr_frame]. *)
Lemma amr_records wb l fs :
  @records _ (@frame_codec (amr_format wb)) l fs <-> l = concat fs /\ Forall (amr_frame wb) fs.
Proof. apply frame_records, amr_frame_iff. Qed.

(** The magic line decides the flavour; at least one frame follows it. *)
Lemma amr_scan_spec h wb :
  len (amr_magic wb) <= size h ->
  exists b,
    (out ← while (S (Z.to_nat (size h)))
       (fun s => (s.1 <? size h) && (s.2 <? AMR_MAX_FRAMES))
       (amr_body h wb) (len (amr_magic wb), 0);
     afterwards out (fun s => Ok ((s.1 =? size h) && (0 <? s.2) && (s.2 <? AMR_MAX_FRAMES))))
    = Ok b /\
    (b = true <-> exists fs,
       subarray (contents h) (len (amr_magic wb)) (size h) = concat fs /\
       Forall (amr_frame wb) fs /\ 0 < Z.of_nat (length fs) < AMR_MAX_FRAMES).
Proof.
  intros Hm. pose proof (len_nonneg (amr_magic wb)).
  destruct (@frame_loop_spec (amr_format wb) h (size h) AMR_MAX_FRAMES (amr_body h wb))
    with (start := len (amr_magic wb)) (fuel := S (Z.to_nat (size h))) as (b & Hrun & Hb);
    [unfold size; pose proof (len_nonneg (contents h)); lia| |lia|lia|].
  { intros offset frames Ho. apply amr_body_spec. lia. }
  exists b. split; [exact Hrun|]. rewrite Hb. unfold tail_ok. cbn [fst snd].
  setoid_rewrite amr_records. split.
  - intros (fs & [Hl Hf] & Hc). exists fs. repeat split; (done || lia).
  - intros (fs & Hl & Hf & Hc). exists fs. repeat split; (done || lia).
Qed.

Lemma equals_prefix h m :
  0 <= len m -> len m <= size h ->
  equals (subarray (contents h) 0 (len m)) m = true <->
  exists rest, contents h = m ++ rest.
Proof.
  intros H0 Hm. rewrite equals_true. split.
  - intros E. exists (subarray (contents h) (len m) (size h)). rewrite <- E at 1.
    rewrite <- subarray_split by (unfold size in *; lia). symmetry. apply subarray_all.
  - intros [rest ->]. rewrite subarray_app_l by lia. apply subarray_all.
Qed.

Lemma len_NB : len AMR_NB_MAGIC = 6. Proof. reflexivity. Qed.
Lemma len_WB : len AMR_WB_MAGIC = 9. Proof. reflexivity. Qed.

(** An AMR file: a magic line, then at least one and fewer than 100000 frames. *)
Definition amr_file (c : list Z) : Prop :=
  exists wideband fs,
    c = amr_magic wideband ++ concat fs /\ Forall (amr_frame wideband) fs /\
    0 < Z.of_nat (length fs) < AMR_MAX_FRAMES.

Lemma amr_file_magic c :
  amr_file c -> exists wideband rest, c = amr_magic wideband ++ rest /\ rest <> [].
Proof.
  intros (wb & fs & -> & Hf & Hc). exists wb, (concat fs). split; [done|].
  destruct fs as [|f fs]; [cbn in Hc; lia|]. intros [E _]%app_eq_nil. subst f.
  apply Forall_cons_1 in Hf as [(? & ? & ? & ? & _) _]. done.
Qed.

Lemma amr_magic_exclusive wb wb' r r' :
  amr_magic wb ++ r = amr_magic wb' ++ r' -> wb = wb' /\ r = r'.
Proof. destruct wb, wb'; cbn; intros; simplify_eq; auto. Qed.

Lemma amr_prefix_test h wb :
  len AMR_NB_MAGIC < size h ->
  let prefix := subarray (contents h) 0 (Z.min (len AMR_WB_MAGIC) (size h)) in
  (len (amr_magic wb) <=? len prefix) &&
    equals (subarray prefix 0 (len (amr_magic wb))) (amr_magic wb) = true <->
  exists rest, contents h = amr_magic wb ++ rest.
Proof.
  intros Hs prefix. assert (Hm : 0 <= len (amr_magic wb) <= 9) by (destruct wb; cbv; split; discriminate).
  pose proof len_NB as HNB. pose proof len_WB as HWB.
  assert (Hp : len prefix = Z.min 9 (size h)) by (unfold prefix; rewrite len_subarray; unfold size in *; lia).
  rewrite andb_true_iff, Z.leb_le, Hp. split.
  - intros [Hle He]. apply equals_prefix; [lia..|].
    unfold prefix in He. rewrite subarray_subarray in He by lia. by rewrite Z.add_0_l in He.
  - intros [rest Hr]. assert (Hl : len (amr_magic wb) <= size h).
    { unfold size. rewrite Hr, len_app. pose proof (len_nonneg rest). lia. }
    split; [lia|]. unfold prefix. rewrite subarray_subarray, Z.add_0_l by lia.
    apply equals_prefix; [lia..|]. eauto.
Qed.

Lemma amr_scan_file h wb rest :
  contents h = amr_magic wb ++ rest ->
  (exists fs, subarray (contents h) (len (amr_magic wb)) (size h) = concat fs /\
     Forall (amr_frame wb) fs /\ 0 < Z.of_nat (length fs) < AMR_MAX_FRAMES) <->
  amr_file (contents h).
Proof.
  intros Hc. unfold size. rewrite Hc. rewrite subarray_to_end by
    (rewrite len_app; pose proof (len_nonneg (amr_magic wb)); pose proof (len_nonneg rest); lia).
  unfold len at 1. rewrite Nat2Z.id, drop_app_length. split.
  - intros (fs & -> & Hf & Hn). exists wb, fs. auto.
  - intros (wb' & fs & Heq & Hf & Hn). apply amr_magic_exclusive in Heq as [-> ->]. eauto.
Qed.

(** [matchesAmrStructure] returns on every file, however the reads are sliced,
    without throwing, and accepts exactly the regular files that consist of the AMR or
    AMR-WB magic line followed by 1 to 99999 whole frames, each with clear reserved
    bits, a known frame type, the payload size that type announces and zero padding. *)
Theorem matchesAmrStructure_correct (h : FileHandle) :
  exists b, matchesAmrStructure h = Ok b /\
    (b = true <-> isFile h = true /\ amr_file (contents h)).
Proof.
  unfold matchesAmrStructure. destruct (isFile h); cbn [negb orb]; [|rejects; by intros [? _]].
  destruct (Z.leb_spec (size h) (len AMR_NB_MAGIC)) as [Hs|Hs].
  { rejects. intros [_ (wb & rest & Hc & Hr)%amr_file_magic].
    unfold size in Hs. rewrite Hc, len_app in Hs. destruct rest; [done|]. rewrite len_cons in Hs.
    pose proof (len_nonneg rest). change (len AMR_NB_MAGIC) with 6 in Hs.
    assert (6 <= len (amr_magic wb)) by (by destruct wb). lia. }
  pose proof len_NB as HNB. pose proof len_WB as HWB.
  unfold or_else. rewrite readExactly_spec by lia.
  cbn [mbind exec_bind]. rewrite read_at_some by (unfold size in *; lia).
  rewrite Z.add_0_l. pose proof (amr_prefix_test h true Hs) as Hwb.
  pose proof (amr_prefix_test h false Hs) as Hnb. cbv zeta in Hwb, Hnb. cbn [amr_magic] in Hwb, Hnb.
  set (prefix := subarray _ _ _) in *. set (wbt := (len AMR_WB_MAGIC <=? len prefix) && equals (subarray prefix 0 (len AMR_WB_MAGIC)) AMR_WB_MAGIC) in *.
  rewrite (proj2 (Z.leb_le (len AMR_NB_MAGIC) (len prefix))), andb_true_l in Hnb
    by (unfold prefix; rewrite len_subarray; unfold size in *; lia).
  set (nbt := equals (subarray prefix 0 (len AMR_NB_MAGIC)) AMR_NB_MAGIC) in *.
  assert (Hnone : wbt = false -> nbt = false -> ~ amr_file (contents h)).
  { intros Hf1 Hf2 (wb & rest & Hc & _)%amr_file_magic.
    destruct wb; [enough (wbt = true) by congruence; apply Hwb|
      enough (nbt = true) by congruence; apply Hnb]; by eauto. }
  assert (Hgo : forall wb, (exists rest, contents h = amr_magic wb ++ rest) ->
    exists b, (out ← while (S (Z.to_nat (size h)))
       (fun s => (s.1 <? size h) && (s.2 <? AMR_MAX_FRAMES))
       (amr_body h wb) (len (amr_magic wb), 0);
     afterwards out (fun s => Ok ((s.1 =? size h) && (0 <? s.2) && (s.2 <? AMR_MAX_FRAMES))))
    = Ok b /\ (b = true <-> true = true /\ amr_file (contents h))).
  { intros wb [rest Hc]. destruct (amr_scan_spec h wb) as (b & Hrun & Hb).
    - unfold size. rewrite Hc, len_app. pose proof (len_nonneg rest). lia.
    - exists b. split; [done|]. rewrite Hb, amr_scan_file by done. tauto. }
  destruct wbt; cbn [negb andb]; [apply (Hgo true); by apply Hwb|].
  destruct nbt; cbn [negb]; [apply (Hgo false); by apply Hnb|].
  rejects. intros [_ Hf]. by apply Hnone in Hf.
Qed.
