(* ===== verification/Aac.v ===== *)
(** AAC files: [matchesAacStructure], [matchesAdifStructure], [parseProgramConfigElement]
    and the [BitReader] of [media-audio-structure.ts]. *)
From stdpp Require Import prelude list strings.
From Stdlib Require Import ZArith Lia.
From S2P Require Import Prelude Buffers FileHandle Codec.
#[local] Open Scope Z_scope.

Definition AAC_ADIF : list Z := ascii_bytes "ADIF".
Definition AAC_MAX_FRAMES := 100000.
Definition AAC_ADIF_INSPECTION_BYTES := 64 * 1024.

(** ** The bit reader *)
Module BitReader.
Record t := { bytes : list Z; bitOffset : Z }.

Definition skip (length : Z) (r : t) : bool * t :=
  if (length <? 0) || (len (bytes r) * 8 <? bitOffset r + length) then (false, r)
  else (true, {| bytes := bytes r; bitOffset := bitOffset r + length |}).

(** The bit at absolute position [absolute]. *)
Definition bit_at (l : list Z) (absolute : Z) : Z :=
  Z.land (Z.shiftr (at0 l (absolute / 8)) (7 - absolute mod 8)) 1.

(** [for (index = 0; index < length; ...) value = value * 2 + bit] *)
Fixpoint read_bits (l : list Z) (absolute : Z) (length : nat) (value : Z) : Z :=
  match length with
  | O => value
  | S n => read_bits l (absolute + 1) n (value * 2 + bit_at l absolute)
  end.

Definition read (length : Z) (r : t) : option Z * t :=
  if (length <? 0) || (32 <? length) || (len (bytes r) * 8 <? bitOffset r + length) then
    if 32 <? length then
      let (ok, r') := skip length r in ((if ok then Some 0 else None), r')
    else (None, r)
  else
    (Some (read_bits (bytes r) (bitOffset r) (Z.to_nat length) 0),
     {| bytes := bytes r; bitOffset := bitOffset r + length |}).

Definition alignToByte (r : t) : t :=
  let remainder := bitOffset r mod 8 in
  if negb (remainder =? 0)
  then {| bytes := bytes r; bitOffset := bitOffset r + (8 - remainder) |} else r.

(** [Math.ceil(bitOffset / 8)] *)
Definition byteOffset (r : t) : Z := (bitOffset r + 7) / 8.
End BitReader.
Import BitReader.

Definition is_null {A} (o : option A) : bool := match o with None => true | Some _ => false end.

(** [read(n)] for every [n] of [widths], in order, stopping with [false] at the first
    [null]; the two loop bodies of [parseProgramConfigElement] are of this shape. *)
Fixpoint read_all (widths : list Z) (r : BitReader.t) : bool * BitReader.t :=
  match widths with
  | [] => (true, r)
  | n :: ws => let (v, r') := read n r in if is_null v then (false, r') else read_all ws r'
  end.
(** [for (index = 0; index < count; ...) { read(...) ... }] *)
Fixpoint repeat_reads (count : nat) (widths : list Z) (r : BitReader.t) : bool * BitReader.t :=
  match count with
  | O => (true, r)
  | S n => let (ok, r') := read_all widths r in
           if ok then repeat_reads n widths r' else (false, r')
  end.
(** [present === null || (present === 1 && reader.read(width) === null)] *)
Definition optional_field (width : Z) (r : BitReader.t) : bool * BitReader.t :=
  let (present, r1) := read 1 r in
  match present with
  | None => (false, r1)
  | Some 1 => let (v, r2) := read width r1 in (negb (is_null v), r2)
  | Some _ => (true, r1)
  end.

Definition parseProgramConfigElement (r : BitReader.t) : bool * BitReader.t :=
  let (ok, r) := read_all [4; 2] r in if negb ok then (false, r) else
  let (samplingFrequencyIndex, r) := read 4 r in
  let (front, r) := read 4 r in
  let (side, r) := read 4 r in
  let (back, r) := read 4 r in
  let (lfe, r) := read 2 r in
  let (assoc, r) := read 3 r in
  let (validCc, r) := read 4 r in
  match samplingFrequencyIndex, front, side, back, lfe, assoc, validCc with
  | Some sfi, Some front, Some side, Some back, Some lfe, Some assoc, Some validCc =>
      if (13 <=? sfi) || (front + side + back + lfe =? 0) then (false, r) else
      let (ok, r) := optional_field 4 r in if negb ok then (false, r) else
      let (ok, r) := optional_field 4 r in if negb ok then (false, r) else
      let (ok, r) := optional_field 3 r in if negb ok then (false, r) else
      let (ok, r) := repeat_reads (Z.to_nat front) [1; 4] r in if negb ok then (false, r) else
      let (ok, r) := repeat_reads (Z.to_nat side) [1; 4] r in if negb ok then (false, r) else
      let (ok, r) := repeat_reads (Z.to_nat back) [1; 4] r in if negb ok then (false, r) else
      let (ok, r) := repeat_reads (Z.to_nat lfe) [4] r in if negb ok then (false, r) else
      let (ok, r) := repeat_reads (Z.to_nat assoc) [4] r in if negb ok then (false, r) else
      let (ok, r) := repeat_reads (Z.to_nat validCc) [1; 4] r in if negb ok then (false, r) else
      let r := alignToByte r in
      let (commentBytes, r) := read 8 r in
      match commentBytes with
      | None => (false, r)
      | Some n => skip (n * 8) r
      end
  | _, _, _, _, _, _, _ => (false, r)
  end.

(** The loop over the program config elements. *)
Fixpoint parse_elements (pceCount : nat) (bitstreamType : Z) (r : BitReader.t) : bool * BitReader.t :=
  match pceCount with
  | O => (true, r)
  | S n =>
      let (ok, r) := if bitstreamType =? 0
        then (let (v, r') := read 20 r in (negb (is_null v), r')) else (true, r) in
      if negb ok then (false, r) else
      let (ok, r) := parseProgramConfigElement r in
      if negb ok then (false, r) else parse_elements n bitstreamType r
  end.

Definition matchesAdifStructure (h : FileHandle) (fileSize : Z) : parser bool :=
  let inspectionBytes := Z.min fileSize AAC_ADIF_INSPECTION_BYTES in
  let? prefix := readExactly h inspectionBytes 0 else Ok false in
  if negb (equals (subarray prefix 0 4) AAC_ADIF) then Ok false else
  let r := {| bytes := prefix; bitOffset := 32 |} in
  let (ok, r) := optional_field 72 r in if negb ok then Ok false else
  let (ok, r) := read_all [1; 1] r in if negb ok then Ok false else
  let (bitstreamType, r) := read 1 r in
  let (bitrate, r) := read 23 r in
  let (numProgramConfigElements, r) := read 4 r in
  match bitstreamType, bitrate, numProgramConfigElements with
  | Some bitstreamType, Some _, Some n =>
      let (ok, r) := parse_elements (Z.to_nat (n + 1)) bitstreamType r in
      Ok (ok && (byteOffset r <? fileSize))
  | _, _, _ => Ok false
  end.

(** ** ADTS frames *)
Definition adts_body (h : FileHandle) (s : Z * Z) : parser (flow (Z * Z) bool) :=
  let (offset, frames) := s in
  let? header := readExactly h 7 offset else Ok (Return false) in
  if negb (at0 header 0 =? 0xff) || negb (Z.land (at0 header 1) 0xf0 =? 0xf0) ||
     negb (Z.land (at0 header 1) 0x06 =? 0)
  then Ok (Return false) else
  let protectionAbsent := negb (Z.land (at0 header 1) 0x01 =? 0) in
  let samplingFrequencyIndex := Z.land (Z.shiftr (at0 header 2) 2) 0x0f in
  if 13 <=? samplingFrequencyIndex then Ok (Return false) else
  let headerBytes := if protectionAbsent then 7 else 9 in
  let frameBytes := Z.lor (Z.lor (Z.shiftl (Z.land (at0 header 3) 0x03) 11)
    (Z.shiftl (at0 header 4) 3)) (Z.shiftr (at0 header 5) 5) in
  if (frameBytes <=? headerBytes) || (size h <? offset + frameBytes) then Ok (Return false) else
  let next := Ok (Continue (offset + frameBytes, frames + 1)) in
  if protectionAbsent then next else
  let? _ := readExactly h 2 (offset + 7) else Ok (Return false) in next.

Definition matchesAacStructure (h : FileHandle) : parser bool :=
  if negb (isFile h) || (size h <? 5) then Ok false else
  let? prefix := readExactly h (Z.min 4 (size h)) 0 else Ok false in
  if equals prefix AAC_ADIF then matchesAdifStructure h (size h) else
  out ← while (S (Z.to_nat (size h)))
          (fun s => (s.1 <? size h) && (s.2 <? AAC_MAX_FRAMES))
          (adts_body h) (0, 0);
  afterwards out (fun s => Ok ((s.1 =? size h) && (0 <? s.2) && (s.2 <? AAC_MAX_FRAMES))).

(** ** What an ADTS frame is *)
Definition adts_protection_absent (f : list Z) : bool := negb (Z.land (at0 f 1) 0x01 =? 0).
(** The 13-bit frame length field, from byte 3 to byte 5. *)
Definition adts_length (f : list Z) : Z :=
  Z.lor (Z.lor (Z.shiftl (Z.land (at0 f 3) 0x03) 11) (Z.shiftl (at0 f 4) 3)) (Z.shiftr (at0 f 5) 5).
Definition adts_header_bytes (f : list Z) : Z := if adts_protection_absent f then 7 else 9.

(** Sync word, layer 0, a defined sampling rate, and a length beyond the header. *)
Definition adts_header (f : list Z) : Prop :=
  7 <= len f /\ at0 f 0 = 0xff /\ Z.land (at0 f 1) 0xf0 = 0xf0 /\ Z.land (at0 f 1) 0x06 = 0 /\
  Z.land (Z.shiftr (at0 f 2) 2) 0x0f < 13 /\ adts_header_bytes f < adts_length f.
Definition adts_frame (f : list Z) : Prop := adts_header f /\ adts_length f = len f.

#[export] Instance adts_header_dec f : Decision (adts_header f).
Proof. unfold adts_header. apply _. Defined.

Definition adts_frame_len (l : list Z) : option Z :=
  if decide (adts_header l /\ adts_length l <= len l) then Some (adts_length l) else None.

Lemma adts_agree l l' :
  7 <= len l -> 7 <= len l' -> (forall i, i < 7 -> at0 l i = at0 l' i) ->
  (adts_header l <-> adts_header l') /\ adts_length l = adts_length l'.
Proof.
  intros Hl Hl' Hat. unfold adts_header, adts_length, adts_header_bytes, adts_protection_absent.
  rewrite !(Hat 0), !(Hat 1), !(Hat 2), !(Hat 3), !(Hat 4), !(Hat 5) by lia. tauto.
Qed.

Lemma adts_header_bytes_7 f : 7 <= adts_header_bytes f.
Proof. unfold adts_header_bytes. case_match; lia. Qed.

Lemma adts_frame_len_some l n :
  adts_frame_len l = Some n <-> adts_header l /\ n = adts_length l /\ n <= len l.
Proof.
  unfold adts_frame_len. case_decide as Hd; split; try done.
  - intros [= <-]. tauto.
  - intros (? & -> & ?). done.
  - intros (? & -> & ?). by destruct Hd.
Qed.

#[export] Program Instance adts_format : FrameFormat := {| frame_len := adts_frame_len |}.
Next Obligation.
  intros l n (Hh & -> & Hl)%adts_frame_len_some. destruct Hh as (_ & _ & _ & _ & _ & Hh).
  pose proof (adts_header_bytes_7 l). lia.
Qed.
Next Obligation.
  intros l n (Hh & Hn & Hl)%adts_frame_len_some.
  assert (Hn7 : 7 < n).
  { destruct Hh as (_ & _ & _ & _ & _ & Hh). pose proof (adts_header_bytes_7 l). lia. }
  replace (take _ l) with (subarray l 0 n) by (unfold subarray; rewrite drop_0; f_equal; lia).
  assert (Hlen : len (subarray l 0 n) = n) by (rewrite len_subarray; lia).
  destruct (adts_agree l (subarray l 0 n)) as [Hiff Heq]; [lia..| |].
  { intros i Hi. destruct (Z.ltb_spec i 0).
    - unfold at0, idx. by rewrite (proj2 (Z.ltb_lt i 0)).
    - rewrite at0_subarray by lia. done. }
  apply adts_frame_len_some. rewrite <- Hiff, <- Heq, Hlen. split; [done|]. split; [done|lia].
Qed.
Next Obligation.
  intros l r n (Hh & Hn & Hl)%adts_frame_len_some. pose proof (len_nonneg r).
  assert (7 <= len l) by (by destruct Hh).
  destruct (adts_agree l (l ++ r)) as [Hiff Heq]; [lia|rewrite len_app; lia| |].
  { intros i Hi. symmetry. apply at0_app_l. lia. }
  apply adts_frame_len_some. rewrite <- Hiff, <- Heq, len_app. split; [done|]. split; [done|lia].
Qed.

Lemma adts_frame_iff f : @is_frame adts_format f <-> adts_frame f.
Proof.
  unfold is_frame, adts_frame. cbn [frame_len adts_format]. rewrite adts_frame_len_some.
  split; intros; intuition lia.
Qed.

(** One turn of the loop reads exactly the frame at the head of the rest of the file. *)
Lemma adts_body_spec h offset frames :
  0 <= offset < size h ->
  adts_body h (offset, frames) =
    Ok (match adts_frame_len (subarray (contents h) offset (size h)) with
        | Some n => Continue (offset + n, frames + 1)
        | None => Return false
        end).
Proof.
  intros Ho. unfold adts_body. pose proof (len_rest h offset) as Hlen.
  set (l := subarray (contents h) offset (size h)) in *. unfold adts_frame_len.
  destruct (Z.leb_spec (offset + 7) (size h)) as [Hs|Hs].
  2: { rewrite (or_else_read_short h 7), decide_False; [done| |lia..]. intros [[H7 _] _]. lia. }
  rewrite (or_else_read_ok h 7), !at0_header by lia. fold l.
  fold (adts_length l). fold (adts_protection_absent l).
  fold (adts_header_bytes l).
  case_decide as Hd.
  - destruct Hd as [(_ & H0 & H1 & H2 & H3 & H4) Hl].
    rewrite H0, H1, H2. cbn [negb orb Z.eqb Pos.eqb].
    rewrite (proj2 (Z.leb_gt _ _)) by done.
    rewrite (proj2 (Z.leb_gt _ _)), (proj2 (Z.ltb_ge _ _)) by lia. cbn [orb].
    unfold adts_header_bytes in H4. destruct (adts_protection_absent l); [done|].
    by rewrite (or_else_read_ok h 2) by lia.
  - case_match eqn:E1; [done|]. case_match eqn:E2; [done|]. case_match eqn:E3; [done|].
    destruct Hd. apply orb_false_iff in E1 as [[E0 E1]%orb_false_iff E4].
    rewrite negb_false_iff, Z.eqb_eq in E0, E1, E4. apply Z.leb_gt in E2.
    apply orb_false_iff in E3 as [E3%Z.leb_gt E5%Z.ltb_ge].
    unfold adts_header. repeat split; (done || lia).
Qed.

(** A whole ADTS stream: 1 to 99999 frames and nothing else. *)
Definition adts_file (c : list Z) : Prop :=
  exists fs, c = concat fs /\ Forall adts_frame fs /\ 0 < Z.of_nat (length fs) < AAC_MAX_FRAMES.

Lemma adts_scan_spec h :
  exists b,
    (out ← while (S (Z.to_nat (size h)))
       (fun s => (s.1 <? size h) && (s.2 <? AAC_MAX_FRAMES)) (adts_body h) (0, 0);
     afterwards out (fun s => Ok ((s.1 =? size h) && (0 <? s.2) && (s.2 <? AAC_MAX_FRAMES))))
    = Ok b /\ (b = true <-> adts_file (contents h)).
Proof.
  pose proof (len_nonneg (contents h)) as Hn. fold (size h) in Hn.
  destruct (@frame_loop_spec adts_format h (size h) AAC_MAX_FRAMES (adts_body h))
    with (start := 0) (fuel := S (Z.to_nat (size h))) as (b & Hrun & Hb); [lia| |lia|lia|].
  { intros offset frames Ho. by apply adts_body_spec. }
  exists b. split; [exact Hrun|]. rewrite Hb. unfold tail_ok, adts_file. cbn [fst snd].
  unfold size. rewrite subarray_all.
  setoid_rewrite (fun fs => frame_records adts_frame (contents h) fs adts_frame_iff).
  split; intros (fs & Hfs); exists fs; intuition lia.
Qed.

(** ** The bit reader reads big-endian integers and stays inside its buffer *)
Section bit_reader.
Context (l : list Z).
Hypothesis Hl : Forall is_byte l.

(** Bit [k] of the stream, counted from the most significant bit of the first byte. *)
Lemma bit_at_testbit k :
  0 <= k < 8 * len l -> bit_at l k = Z.b2z (Z.testbit (uintBE l) (8 * len l - 1 - k)).
Proof.
  intros Hk. pose proof (Z.div_mod k 8) as Hdm. pose proof (Z.mod_pos_bound k 8) as Hm.
  unfold bit_at. rewrite at0_uintBE by (done || (split; [apply Z.div_pos; lia|
    apply Z.div_lt_upper_bound; lia])).
  replace 256 with (2 ^ 8) by done. rewrite <- Z.pow_mul_r by lia.
  match goal with |- Z.land ?a 1 = _ => change (Z.land a 1) with (Z.land a (Z.ones 1)) end.
  rewrite Z.land_ones, <- Z.bit0_mod by done.
  rewrite Z.shiftr_spec by done. rewrite Z.add_0_l, Z.mod_pow2_bits_low by lia.
  rewrite Z.div_pow2_bits by lia. do 2 f_equal. lia.
Qed.

Lemma read_bits_value off n v :
  0 <= off -> off + Z.of_nat n <= 8 * len l ->
  read_bits l off n v =
    v * 2 ^ Z.of_nat n + (uintBE l / 2 ^ (8 * len l - off - Z.of_nat n)) mod 2 ^ Z.of_nat n.
Proof.
  revert off v. induction n as [|n IH]; intros off v Ho Hn.
  - change (2 ^ Z.of_nat 0) with 1. rewrite Z.mod_1_r. cbn. lia.
  - cbn [read_bits]. rewrite IH, bit_at_testbit by lia.
    replace (8 * len l - (off + 1) - Z.of_nat n) with (8 * len l - off - Z.of_nat (S n)) by lia.
    set (k := 8 * len l - off - Z.of_nat (S n)).
    rewrite Nat2Z.inj_succ, Z.pow_succ_r, (Z.mul_comm 2), (Z.rem_mul_r _ (2 ^ Z.of_nat n)) by lia.
    rewrite <- Z.testbit_spec' by lia. rewrite Z.div_pow2_bits by lia.
    replace (Z.of_nat n + k) with (8 * len l - 1 - off) by lia. lia.
Qed.
End bit_reader.

(** [r'] is [r] moved forward inside the same buffer. *)
Definition advances (r r' : BitReader.t) : Prop :=
  bytes r' = bytes r /\ (bitOffset r <= 8 * len (bytes r) ->
    bitOffset r <= bitOffset r' <= 8 * len (bytes r)).

#[export] Instance advances_preorder : PreOrder advances.
Proof.
  split.
  - intros r. split; [done|lia].
  - intros r1 r2 r3 [E1 H1] [E2 H2]. unfold advances. rewrite E2, E1 in *. split; [done|lia].
Qed.

Lemma skip_advances n r : advances r (snd (skip n r)).
Proof.
  unfold skip. destruct (Z.ltb_spec n 0); [reflexivity|].
  destruct (Z.ltb_spec (len (bytes r) * 8) (bitOffset r + n)); [reflexivity|].
  split; cbn; [done|lia].
Qed.

Lemma read_advances n r : advances r (snd (read n r)).
Proof.
  unfold read. destruct (Z.ltb_spec n 0); cbn [orb].
  { case_match; [|reflexivity]. pose proof (skip_advances n r). by destruct (skip n r). }
  destruct (Z.ltb_spec 32 n); cbn [orb].
  { pose proof (skip_advances n r). by destruct (skip n r). }
  destruct (Z.ltb_spec (len (bytes r) * 8) (bitOffset r + n)); [reflexivity|].
  split; cbn; [done|lia].
Qed.

Lemma alignToByte_advances r : advances r (alignToByte r).
Proof.
  unfold alignToByte. pose proof (Z.mod_pos_bound (bitOffset r) 8).
  pose proof (Z.div_mod (bitOffset r) 8). cbv zeta.
  destruct (Z.eqb_spec (bitOffset r mod 8) 0); cbn [negb]; [reflexivity|].
  split; cbn; [done|lia].
Qed.

Lemma read_all_advances ws r : advances r (snd (read_all ws r)).
Proof.
  revert r. induction ws as [|n ws IH]; intros r; [reflexivity|]. cbn.
  pose proof (read_advances n r) as H. destruct (read n r) as [v r']. cbn in H.
  destruct (is_null v); [done|]. by etransitivity; [|apply IH].
Qed.

Lemma repeat_reads_advances n ws r : advances r (snd (repeat_reads n ws r)).
Proof.
  revert r. induction n as [|n IH]; intros r; [reflexivity|]. cbn.
  pose proof (read_all_advances ws r) as H. destruct (read_all ws r) as [ok r']. cbn in H.
  destruct ok; [|done]. by etransitivity; [|apply IH].
Qed.

Lemma optional_field_advances w r : advances r (snd (optional_field w r)).
Proof.
  unfold optional_field. pose proof (read_advances 1 r) as H. destruct (read 1 r) as [v r1].
  cbn in H. pose proof (read_advances w r1) as H'. destruct (read w r1) as [v' r2]. cbn in H'.
  destruct v as [[|[]|]|]; cbn; first [done | by etransitivity].
Qed.

Create HintDb advances discriminated.
#[export] Hint Resolve skip_advances read_advances alignToByte_advances read_all_advances
  repeat_reads_advances optional_field_advances : advances.

(** Follow a chain of reader operations: each of them moves the reader forward. *)
Ltac reader_op op H :=
  pose proof H as Hstep; destruct op as [? ?]; cbn [snd fst] in Hstep;
  (etransitivity; [exact Hstep|]); clear Hstep.
Ltac reader_step :=
  match goal with
  | |- advances ?r (snd (_, ?r)) => reflexivity
  | |- advances ?r (snd (match ?o with Some _ => _ | None => _ end)) => destruct o
  | |- advances ?r (snd (if ?b then _ else _)) => destruct b
  | |- context [read_all ?ws ?r] => reader_op (read_all ws r) (read_all_advances ws r)
  | |- context [optional_field ?w ?r] => reader_op (optional_field w r) (optional_field_advances w r)
  | |- context [repeat_reads ?n ?ws ?r] => reader_op (repeat_reads n ws r) (repeat_reads_advances n ws r)
  | |- context [read ?n ?r] => reader_op (read n r) (read_advances n r)
  end.

Lemma parseProgramConfigElement_advances r : advances r (snd (parseProgramConfigElement r)).
Proof.
  unfold parseProgramConfigElement. repeat reader_step.
  cbv zeta. etransitivity; [apply alignToByte_advances|]. repeat reader_step.
  apply skip_advances.
Qed.

Lemma parse_elements_advances n t r : advances r (snd (parse_elements n t r)).
Proof.
  revert r. induction n as [|n IH]; intros r; [reflexivity|]. cbn [parse_elements].
  pose proof (read_advances 20 r) as H1.
  assert (H : advances r (snd (if t =? 0
        then (let (v, r') := read 20 r in (negb (is_null v), r')) else (true, r)))).
  { destruct (t =? 0); [|reflexivity]. by destruct (read 20 r). }
  destruct (if t =? 0 then _ else _) as [ok r1]. cbn [snd] in H.
  destruct (negb ok); [done|].
  pose proof (parseProgramConfigElement_advances r1) as H2.
  destruct (parseProgramConfigElement r1) as [ok2 r2]. cbn [snd] in H2.
  etransitivity; [exact H|]. etransitivity; [exact H2|]. destruct (negb ok2); [reflexivity|]. apply IH.
Qed.

(** [matchesAdifStructure] always returns. *)
Lemma matchesAdifStructure_total h fileSize :
  0 <= fileSize -> exists b, matchesAdifStructure h fileSize = Ok b.
Proof.
  intros Hs. unfold matchesAdifStructure. rewrite or_else_read by (unfold AAC_ADIF_INSPECTION_BYTES; lia).
  repeat case_match; eauto.
Qed.

Lemma starts_with_adif h :
  5 <= size h ->
  equals (subarray (contents h) 0 (0 + Z.min 4 (size h))) AAC_ADIF = bool_decide (AAC_ADIF `prefix_of` contents h).
Proof.
  intros Hs. rewrite Z.min_l, Z.add_0_l by lia. unfold equals. apply bool_decide_ext.
  unfold subarray. rewrite drop_0. split.
  - intros <-. apply prefix_take.
  - intros [k Hk]. rewrite Hk. apply take_app_length'. done.
Qed.

(** [matchesAacStructure] returns on every file without throwing; a file that does not
    start with the ADIF marker is accepted exactly when it is a regular file of at least
    5 bytes made of 1 to 99999 whole ADTS frames (sync word, layer 0, known sampling
    rate, a length field that covers the header and equals the frame's size). *)
Theorem matchesAacStructure_correct (h : FileHandle) :
  exists b, matchesAacStructure h = Ok b /\
    (b = true -> isFile h = true /\ 5 <= size h) /\
    (~ AAC_ADIF `prefix_of` contents h ->
     (b = true <-> isFile h = true /\ 5 <= size h /\ adts_file (contents h))).
Proof.
  unfold matchesAacStructure. destruct (isFile h); cbn [negb orb].
  2: { exists false. split; [done|]. split; [done|]. intros _. split; [done|]. by intros [? _]. }
  destruct (Z.ltb_spec (size h) 5).
  { exists false. split; [done|]. split; [done|]. intros _. split; [done|]. intros (_ & ? & _). lia. }
  rewrite or_else_read_ok, starts_with_adif by lia. case_bool_decide as Ha.
  - destruct (matchesAdifStructure_total h (size h)) as [b Hb]; [done|].
    exists b. split; [done|]. split; [done|]. by intros [].
  - destruct (adts_scan_spec h) as (b & Hrun & Hb). exists b. split; [exact Hrun|].
    split; [done|]. intros _. rewrite Hb. tauto.
Qed.

(** [BitReader.read(n)] for [0 <= n <= 32] returns the [n]-bit big-endian integer at the
    reader's position and moves past it when [n] bits remain, and returns [null] without
    moving when they do not. *)
Theorem BitReader_read_correct (n : Z) (r : BitReader.t) :
  Forall is_byte (bytes r) -> 0 <= bitOffset r -> 0 <= n <= 32 ->
  read n r =
    if bitOffset r + n <=? 8 * len (bytes r)
    then (Some ((uintBE (bytes r) / 2 ^ (8 * len (bytes r) - bitOffset r - n)) mod 2 ^ n),
          {| bytes := bytes r; bitOffset := bitOffset r + n |})
    else (None, r).
Proof.
  intros Hb Ho Hn. unfold read.
  rewrite (proj2 (Z.ltb_ge _ _)), (proj2 (Z.ltb_ge 32 _)), !orb_false_l by lia.
  destruct (Z.leb_spec (bitOffset r + n) (8 * len (bytes r))).
  - rewrite (proj2 (Z.ltb_ge _ _)) by lia.
    rewrite read_bits_value by (done || lia). rewrite Z2Nat.id by lia. do 3 f_equal.
  - by rewrite (proj2 (Z.ltb_lt _ _)) by lia.
Qed.

Lemma BitReader_read_correct_witness :
  exists r', read 12 {| bytes := [0xab; 0xcd; 0xef]; bitOffset := 4 |} = (Some 0xbcd, r').
Proof.
  eexists. rewrite (BitReader_read_correct 12); [reflexivity| |cbn; lia|lia].
  repeat constructor; lia.
Defined.

(** parsing the program config elements of an ADIF header only moves the bit reader
    forward and never past the end of the inspected bytes. *)
Theorem parse_elements_in_bounds (pceCount : nat) (bitstreamType : Z) (r : BitReader.t) :
  bitOffset r <= 8 * len (bytes r) ->
  let r' := snd (parse_elements pceCount bitstreamType r) in
  bytes r' = bytes r /\ bitOffset r <= bitOffset r' <= 8 * len (bytes r').
Proof.
  intros Hr. destruct (parse_elements_advances pceCount bitstreamType r) as [Hb Ho].
  cbv zeta. rewrite Hb. split; [done|]. by apply Ho.
Qed.

Lemma parse_elements_in_bounds_witness :
  let r := {| bytes := [1; 2; 3; 4; 5; 6; 7; 8; 9; 10]; bitOffset := 7 |} in
  let r' := snd (parse_elements 2 0 r) in
  bytes r' = bytes r /\ bitOffset r <= bitOffset r' <= 8 * len (bytes r').
Proof. apply (parse_elements_in_bounds 2 0). vm_compute. discriminate. Defined.
