(* ===== verification/Mpeg.v ===== *)
(** MPEG audio (MP3) files: [matchesMpegAudioStructure], [mpegAudioFrameLength] and
    [mpegBitrateKbps] of [media-audio-structure.ts]. *)
From stdpp Require Import prelude list strings.
From Stdlib Require Import ZArith Lia.
From S2P Require Import Prelude Buffers FileHandle Codec Float64.
#[local] Open Scope Z_scope.

Definition MP3_ID3V2 : list Z := ascii_bytes "ID3".
Definition MP3_ID3V1 : list Z := ascii_bytes "TAG".
Definition MP3_ID3V1_BYTES := 128.
Definition MP3_MAX_FRAMES := 100000.
Definition MPEG1_LAYER1_BITRATES :=
  [0; 32; 64; 96; 128; 160; 192; 224; 256; 288; 320; 352; 384; 416; 448; 0].
Definition MPEG1_LAYER2_BITRATES :=
  [0; 32; 48; 56; 64; 80; 96; 112; 128; 160; 192; 224; 256; 320; 384; 0].
Definition MPEG1_LAYER3_BITRATES :=
  [0; 32; 40; 48; 56; 64; 80; 96; 112; 128; 160; 192; 224; 256; 320; 0].
Definition MPEG2_LAYER1_BITRATES :=
  [0; 32; 48; 56; 64; 80; 96; 112; 128; 144; 160; 176; 192; 224; 256; 0].
Definition MPEG2_LAYER23_BITRATES :=
  [0; 8; 16; 24; 32; 40; 48; 56; 64; 80; 96; 112; 128; 144; 160; 0].
Definition MPEG1_SAMPLE_RATES := [44100; 48000; 32000].

Definition mpegBitrateKbps (mpeg1 : bool) (layer index : Z) : Z :=
  if mpeg1 then
    if layer =? 1 then at0 MPEG1_LAYER1_BITRATES index
    else if layer =? 2 then at0 MPEG1_LAYER2_BITRATES index
    else at0 MPEG1_LAYER3_BITRATES index
  else if layer =? 1 then at0 MPEG2_LAYER1_BITRATES index
  else at0 MPEG2_LAYER23_BITRATES index.

(** The length computation on the extracted header fields, in binary64 as the source does it. *)
Definition frame_length_of_fields (versionBits layerBits bitrateIndex sampleRateIndex padding : Z)
    : option Z :=
  let mpeg1 := versionBits =? 3 in
  let layer := 4 - layerBits in
  let bitrateKbps := mpegBitrateKbps mpeg1 layer bitrateIndex in
  let sampleRateBase := at0 MPEG1_SAMPLE_RATES sampleRateIndex in
  if (bitrateKbps =? 0) || (sampleRateBase =? 0) then None else
  let base := f64_of_Z sampleRateBase in
  let sampleRate :=
    if versionBits =? 3 then base
    else if versionBits =? 2 then f64_div base (f64_of_Z 2)
    else f64_div base (f64_of_Z 4) in
  let bitrate := bitrateKbps * 1000 in
  if layer =? 1 then
    n ← f64_floor (f64_add (f64_div (f64_of_Z (12 * bitrate)) sampleRate) (f64_of_Z padding));
    Some (n * 4)
  else if (layer =? 3) && negb mpeg1 then
    n ← f64_floor (f64_div (f64_of_Z (72 * bitrate)) sampleRate); Some (n + padding)
  else
    n ← f64_floor (f64_div (f64_of_Z (144 * bitrate)) sampleRate); Some (n + padding).

Definition mpegAudioFrameLength (header : list Z) : option Z :=
  if (len header <? 4) || negb (at0 header 0 =? 0xff) || negb (Z.land (at0 header 1) 0xe0 =? 0xe0)
  then None else
  let versionBits := Z.land (Z.shiftr (at0 header 1) 3) 0x03 in
  let layerBits := Z.land (Z.shiftr (at0 header 1) 1) 0x03 in
  let bitrateIndex := Z.land (Z.shiftr (at0 header 2) 4) 0x0f in
  let sampleRateIndex := Z.land (Z.shiftr (at0 header 2) 2) 0x03 in
  let padding := Z.land (Z.shiftr (at0 header 2) 1) 0x01 in
  let emphasis := Z.land (at0 header 3) 0x03 in
  if (versionBits =? 1) || (layerBits =? 0) || (bitrateIndex =? 0) || (bitrateIndex =? 0x0f) ||
     (sampleRateIndex =? 0x03) || (emphasis =? 0x02)
  then None
  else frame_length_of_fields versionBits layerBits bitrateIndex sampleRateIndex padding.

(** The leading ID3v2 tag: the offset of the audio, or [None] when the file is refused. *)
Definition id3v2_offset (h : FileHandle) (firstThree : option (list Z)) : parser (option Z) :=
  if negb (bool_decide (firstThree = Some MP3_ID3V2)) then Ok (Some 0) else
  let? id3Header := readExactly h 10 0 else Ok None in
  let majorVersion := at0 id3Header 3 in
  let revision := default 0xff (idx id3Header 4) in
  if (majorVersion <? 2) || (4 <? majorVersion) || (revision =? 0xff) then Ok None else
  let sizeBytes := subarray id3Header 6 10 in
  if existsb (fun value => negb (Z.land value 0x80 =? 0)) sizeBytes then Ok None else
  let tagPayloadBytes := Z.lor (Z.lor (Z.lor (Z.shiftl (at0 sizeBytes 0) 21)
    (Z.shiftl (at0 sizeBytes 1) 14)) (Z.shiftl (at0 sizeBytes 2) 7)) (at0 sizeBytes 3) in
  let footerBytes :=
    if (majorVersion =? 4) && negb (Z.land (at0 id3Header 5) 0x10 =? 0) then 10 else 0 in
  let offset := 10 + tagPayloadBytes + footerBytes in
  if size h - 4 <? offset then Ok None else Ok (Some offset).

Definition mpeg_body (h : FileHandle) (audioEnd : Z) (s : Z * Z) : parser (flow (Z * Z) bool) :=
  let (offset, frames) := s in
  let? header := readExactly h 4 offset else Ok (Return false) in
  match mpegAudioFrameLength header with
  | None => Ok (Return false)
  | Some frameBytes =>
      if audioEnd <? offset + frameBytes then Ok (Return false)
      else Ok (Continue (offset + frameBytes, frames + 1))
  end.

(** The trailing ID3v1 tag: where the audio ends. *)
Definition id3v1_end (h : FileHandle) (offset : Z) : parser Z :=
  let audioEnd := size h in
  if MP3_ID3V1_BYTES <=? audioEnd - offset then
    tag ← readExactly h 3 (audioEnd - MP3_ID3V1_BYTES);
    Ok (if bool_decide (tag = Some MP3_ID3V1) then audioEnd - MP3_ID3V1_BYTES else audioEnd)
  else Ok audioEnd.

Definition matchesMpegAudioStructure (h : FileHandle) : parser bool :=
  if negb (isFile h) || (size h <? 4) then Ok false else
  firstThree ← readExactly h (Z.min 3 (size h)) 0;
  let? offset := id3v2_offset h firstThree else Ok false in
  audioEnd ← id3v1_end h offset;
  out ← while (S (Z.to_nat (size h)))
          (fun s => (s.1 <? audioEnd) && (s.2 <? MP3_MAX_FRAMES))
          (mpeg_body h audioEnd) (offset, 0);
  afterwards out (fun s => Ok ((s.1 =? audioEnd) && (0 <? s.2) && (s.2 <? MP3_MAX_FRAMES))).

(** ** The frame length is exact *)
(** The MPEG audio formula on integers. *)
Definition frame_length_spec (versionBits layerBits bitrateIndex sampleRateIndex padding : Z) : Z :=
  let mpeg1 := versionBits =? 3 in
  let bitrate := 1000 * mpegBitrateKbps mpeg1 (4 - layerBits) bitrateIndex in
  let base := at0 MPEG1_SAMPLE_RATES sampleRateIndex in
  let sampleRate := if versionBits =? 3 then base else if versionBits =? 2 then base / 2 else base / 4 in
  if layerBits =? 3 then 4 * (12 * bitrate / sampleRate + padding)
  else if (layerBits =? 1) && negb mpeg1 then 72 * bitrate / sampleRate + padding
  else 144 * bitrate / sampleRate + padding.

Definition fields_ok (v l b s p : Z) : bool :=
  negb (v =? 1) && negb (l =? 0) && negb (b =? 0) && negb (b =? 15) && negb (s =? 3).

Definition check_fields (v l b s p : Z) : bool :=
  negb (fields_ok v l b s p) ||
  match frame_length_of_fields v l b s p with
  | Some n => (n =? frame_length_spec v l b s p) && (24 <=? n) && (n <=? 2881)
  | None => false
  end.

(** All 2048 combinations of the header fields. *)
Lemma check_all_fields :
  forallb (fun v => forallb (fun l => forallb (fun b => forallb (fun s => forallb (fun p =>
    check_fields v l b s p) (seqZ 0 2)) (seqZ 0 4)) (seqZ 0 16)) (seqZ 0 4)) (seqZ 0 4) = true.
Proof. vm_compute. reflexivity. Qed.

Lemma frame_length_of_fields_exact v l b s p :
  0 <= v < 4 -> 0 <= l < 4 -> 0 <= b < 16 -> 0 <= s < 4 -> 0 <= p < 2 ->
  fields_ok v l b s p = true ->
  frame_length_of_fields v l b s p = Some (frame_length_spec v l b s p) /\
  24 <= frame_length_spec v l b s p <= 2881.
Proof.
  intros Hv Hl Hb Hs Hp Hok. pose proof check_all_fields as H.
  apply (forallb_seqZ _ _ H) in Hv. apply (forallb_seqZ _ _ Hv) in Hl.
  apply (forallb_seqZ _ _ Hl) in Hb. apply (forallb_seqZ _ _ Hb) in Hs.
  apply (forallb_seqZ _ _ Hs) in Hp. unfold check_fields in Hp. rewrite Hok in Hp.
  clear H Hv Hl Hb Hs. cbn [negb orb] in Hp.
  destruct (frame_length_of_fields v l b s p) as [n|]; [|discriminate Hp].
  rewrite !andb_true_iff, Z.eqb_eq, !Z.leb_le in Hp. destruct Hp as [[-> H1] H2]. exact (conj eq_refl (conj H1 H2)).
Qed.

Lemma land_field_range x n : 0 <= n -> 0 <= Z.land x (Z.ones n) < 2 ^ n.
Proof. intros Hn. rewrite Z.land_ones by done. apply Z.mod_pos_bound. lia. Qed.

(** The header of a frame, in the standard's terms. *)
Definition mpeg_version (f : list Z) := Z.land (Z.shiftr (at0 f 1) 3) 0x03.
Definition mpeg_layer (f : list Z) := Z.land (Z.shiftr (at0 f 1) 1) 0x03.
Definition mpeg_bitrate_index (f : list Z) := Z.land (Z.shiftr (at0 f 2) 4) 0x0f.
Definition mpeg_sample_rate_index (f : list Z) := Z.land (Z.shiftr (at0 f 2) 2) 0x03.
Definition mpeg_padding (f : list Z) := Z.land (Z.shiftr (at0 f 2) 1) 0x01.
Definition mpeg_header (f : list Z) : Prop :=
  4 <= len f /\ at0 f 0 = 0xff /\ Z.land (at0 f 1) 0xe0 = 0xe0 /\
  mpeg_version f <> 1 /\ mpeg_layer f <> 0 /\
  mpeg_bitrate_index f <> 0 /\ mpeg_bitrate_index f <> 15 /\
  mpeg_sample_rate_index f <> 3 /\ Z.land (at0 f 3) 0x03 <> 2.
Definition mpeg_length (f : list Z) : Z :=
  frame_length_spec (mpeg_version f) (mpeg_layer f) (mpeg_bitrate_index f)
    (mpeg_sample_rate_index f) (mpeg_padding f).
Definition mpeg_frame (f : list Z) : Prop := mpeg_header f /\ mpeg_length f = len f.

#[export] Instance mpeg_header_dec f : Decision (mpeg_header f).
Proof. unfold mpeg_header. apply _. Defined.

Lemma mpeg_fields_ok f :
  mpeg_header f ->
  frame_length_of_fields (mpeg_version f) (mpeg_layer f) (mpeg_bitrate_index f)
    (mpeg_sample_rate_index f) (mpeg_padding f) = Some (mpeg_length f) /\
  24 <= mpeg_length f <= 2881.
Proof.
  intros (_ & _ & _ & Hv & Hl & Hb0 & Hb15 & Hs & _).
  apply frame_length_of_fields_exact;
    [apply (land_field_range _ 2)|apply (land_field_range _ 2)|apply (land_field_range _ 4)
    |apply (land_field_range _ 2)|apply (land_field_range _ 1)|]; try done.
  unfold fields_ok. rewrite !(proj2 (Z.eqb_neq _ _)) by done. done.
Qed.

Lemma mpegAudioFrameLength_spec f :
  mpegAudioFrameLength f = if decide (mpeg_header f) then Some (mpeg_length f) else None.
Proof.
  unfold mpegAudioFrameLength. case_decide as Hd.
  - pose proof (mpeg_fields_ok f Hd) as [Hf _].
    destruct Hd as (H4 & H0 & H1 & Hv & Hl & Hb0 & Hb15 & Hs & He).
    rewrite H0, H1, (proj2 (Z.ltb_ge _ _)) by done. cbn [negb orb Z.eqb Pos.eqb].
    fold (mpeg_version f) (mpeg_layer f) (mpeg_bitrate_index f) (mpeg_sample_rate_index f)
      (mpeg_padding f).
    by rewrite !(proj2 (Z.eqb_neq _ _)) by done.
  - case_match eqn:E1; [done|]. cbv zeta. case_match eqn:E2; [done|]. destruct Hd.
    rewrite !orb_false_iff, !negb_false_iff, !Z.eqb_eq, Z.ltb_ge in E1.
    rewrite !orb_false_iff, !Z.eqb_neq in E2. unfold mpeg_header. tauto.
Qed.

Lemma mpeg_agree l l' :
  4 <= len l -> 4 <= len l' -> (forall i, i < 4 -> at0 l i = at0 l' i) ->
  (mpeg_header l <-> mpeg_header l') /\ mpeg_length l = mpeg_length l'.
Proof.
  intros Hl Hl' Hat. unfold mpeg_header, mpeg_length, mpeg_version, mpeg_layer,
    mpeg_bitrate_index, mpeg_sample_rate_index, mpeg_padding.
  rewrite !(Hat 0), !(Hat 1), !(Hat 2), !(Hat 3) by lia. tauto.
Qed.

Definition mpeg_frame_len (l : list Z) : option Z :=
  if decide (mpeg_header l /\ mpeg_length l <= len l) then Some (mpeg_length l) else None.

Lemma mpeg_frame_len_some l n :
  mpeg_frame_len l = Some n <-> mpeg_header l /\ n = mpeg_length l /\ n <= len l.
Proof.
  unfold mpeg_frame_len. case_decide as Hd; split; try done.
  - intros [= <-]. tauto.
  - intros (? & -> & ?). done.
  - intros (? & -> & ?). by destruct Hd.
Qed.

#[export] Program Instance mpeg_format : FrameFormat := {| frame_len := mpeg_frame_len |}.
Next Obligation. intros l n (Hh & -> & Hl)%mpeg_frame_len_some. apply mpeg_fields_ok in Hh. lia. Qed.
Next Obligation.
  intros l n (Hh & Hn & Hl)%mpeg_frame_len_some. pose proof (mpeg_fields_ok l Hh) as [_ Hb].
  replace (take _ l) with (subarray l 0 n) by (unfold subarray; rewrite drop_0; f_equal; lia).
  assert (Hlen : len (subarray l 0 n) = n) by (rewrite len_subarray; lia).
  destruct (mpeg_agree l (subarray l 0 n)) as [Hiff Heq]; [lia..| |].
  { intros i Hi. destruct (Z.ltb_spec i 0); [by rewrite !at0_neg|]. by rewrite at0_subarray by lia. }
  apply mpeg_frame_len_some. rewrite <- Hiff, <- Heq, Hlen. split; [done|]. split; [done|lia].
Qed.
Next Obligation.
  intros l r n (Hh & Hn & Hl)%mpeg_frame_len_some. pose proof (len_nonneg r).
  assert (4 <= len l) by (by destruct Hh).
  destruct (mpeg_agree l (l ++ r)) as [Hiff Heq]; [lia|rewrite len_app; lia| |].
  { intros i Hi. symmetry. apply at0_app_l. lia. }
  apply mpeg_frame_len_some. rewrite <- Hiff, <- Heq, len_app. split; [done|]. split; [done|lia].
Qed.

Lemma mpeg_frame_iff f : @is_frame mpeg_format f <-> mpeg_frame f.
Proof.
  unfold is_frame, mpeg_frame. cbn [frame_len mpeg_format]. rewrite mpeg_frame_len_some.
  split; intros; intuition lia.
Qed.

(** One turn of the loop reads exactly the frame at the head of the rest of the audio. *)
Lemma mpeg_body_spec h stop offset frames :
  0 <= offset < stop -> stop <= size h ->
  mpeg_body h stop (offset, frames) =
    Ok (match mpeg_frame_len (subarray (contents h) offset stop) with
        | Some n => Continue (offset + n, frames + 1)
        | None => Return false
        end).
Proof.
  intros Ho Hs. unfold mpeg_body. set (l := subarray (contents h) offset stop).
  assert (Hlen : len l = stop - offset) by (apply len_subarray; unfold size in *; lia).
  unfold mpeg_frame_len. destruct (Z.leb_spec (offset + 4) (size h)) as [H4|H4].
  2: { rewrite or_else_read_short, decide_False; [done| |lia..]. intros [[? _] _]. lia. }
  rewrite or_else_read_ok, mpegAudioFrameLength_spec by lia.
  set (header := subarray (contents h) offset (offset + 4)).
  assert (Hhl : len header = 4) by (unfold header; rewrite len_subarray; unfold size in *; lia).
  destruct (Z.leb_spec (offset + 4) stop) as [H4s|H4s].
  - destruct (mpeg_agree header l) as [Hiff Heq]; [lia..| |].
    { intros i Hi. destruct (Z.ltb_spec i 0); [by rewrite !at0_neg|].
      unfold header, l. by rewrite !at0_subarray by lia. }
    rewrite Heq. destruct (decide (mpeg_header header)) as [Hd|Hd].
    + apply Hiff in Hd. destruct (Z.ltb_spec stop (offset + mpeg_length l)).
      * rewrite decide_False; [done|]. intros [_ ?]. lia.
      * rewrite decide_True; [done|]. split; [done|lia].
    + rewrite decide_False; [done|]. intros [Hd' _]. by apply Hiff in Hd'.
  - rewrite (decide_False (P := mpeg_header l /\ _)) by (intros [[? _] _]; lia).
    case_decide as Hd; [|done]. apply mpeg_fields_ok in Hd as [_ Hd].
    by rewrite (proj2 (Z.ltb_lt _ _)) by lia.
Qed.

(** ** The tags around the audio *)
(** The size of the ID3v2 tag whose ten header bytes start [c]: version 2 to 4, a syncsafe
    28-bit payload size, and a footer when version 4 announces one. *)
Definition id3v2_size (c : list Z) : option Z :=
  if decide (10 <= len c /\ 2 <= at0 c 3 <= 4 /\ at0 c 4 <> 0xff /\
             Z.land (at0 c 6) 0x80 = 0 /\ Z.land (at0 c 7) 0x80 = 0 /\
             Z.land (at0 c 8) 0x80 = 0 /\ Z.land (at0 c 9) 0x80 = 0)
  then
    let payload := Z.lor (Z.lor (Z.lor (Z.shiftl (at0 c 6) 21) (Z.shiftl (at0 c 7) 14))
                     (Z.shiftl (at0 c 8) 7)) (at0 c 9) in
    let footer := if (at0 c 3 =? 4) && negb (Z.land (at0 c 5) 0x10 =? 0) then 10 else 0 in
    Some (10 + payload + footer)
  else None.

Definition leading_tag (c tag : list Z) : Prop :=
  if bool_decide (MP3_ID3V2 `prefix_of` c) then id3v2_size c = Some (len tag) else tag = [].
Definition has_id3v1 (rest : list Z) : bool :=
  (MP3_ID3V1_BYTES <=? len rest) &&
  equals (subarray rest (len rest - MP3_ID3V1_BYTES) (len rest - MP3_ID3V1_BYTES + 3)) MP3_ID3V1.
Definition trailing_tag (rest tag : list Z) : Prop :=
  len tag = if has_id3v1 rest then MP3_ID3V1_BYTES else 0.

(** An MPEG audio file: an optional ID3v2 tag, 1 to 99999 whole frames, an optional ID3v1 tag. *)
Definition mpeg_file (c : list Z) : Prop :=
  exists tag fs trailer,
    c = tag ++ concat fs ++ trailer /\ leading_tag c tag /\ trailing_tag (concat fs ++ trailer) trailer /\
    Forall mpeg_frame fs /\ 0 < Z.of_nat (length fs) < MP3_MAX_FRAMES.

Definition audio_start (c : list Z) : option Z :=
  if bool_decide (MP3_ID3V2 `prefix_of` c) then
    n ← id3v2_size c; if len c - 4 <? n then None else Some n
  else Some 0.
Definition audio_stop (c : list Z) (start : Z) : Z :=
  if has_id3v1 (subarray c start (len c)) then len c - MP3_ID3V1_BYTES else len c.

Lemma prefix_read h m n :
  len m = n -> n <= size h ->
  bool_decide (read_at (contents h) n 0 = Some m) = bool_decide (m `prefix_of` contents h).
Proof.
  intros Hm Hn. pose proof (len_nonneg m). rewrite read_at_some by (unfold size in *; lia).
  rewrite Z.add_0_l. apply bool_decide_ext. unfold subarray. rewrite drop_0. split.
  - intros [= <-]. apply prefix_take.
  - intros [k ->]. f_equal. apply take_app_length'. unfold len in Hm. lia.
Qed.

Lemma existsb_high_bits a b c d :
  existsb (fun value => negb (Z.land value 0x80 =? 0)) [a; b; c; d] = false <->
  Z.land a 0x80 = 0 /\ Z.land b 0x80 = 0 /\ Z.land c 0x80 = 0 /\ Z.land d 0x80 = 0.
Proof. cbn. rewrite !orb_false_iff, !negb_false_iff, !Z.eqb_eq. tauto. Qed.

Lemma subarray_4 l a : 0 <= a -> a + 4 <= len l ->
  subarray l a (a + 4) = [at0 l a; at0 l (a + 1); at0 l (a + 2); at0 l (a + 3)].
Proof.
  intros. rewrite (subarray_split l a (a + 1)), (subarray_split l (a + 1) (a + 1 + 1)),
    (subarray_split l (a + 1 + 1) (a + 1 + 1 + 1)) by lia.
  replace (a + 4) with (a + 1 + 1 + 1 + 1) by lia. rewrite !subarray_1 by lia.
  cbn. replace (a + 1 + 1) with (a + 2) by lia. by replace (a + 2 + 1) with (a + 3) by lia.
Qed.

Lemma id3v2_offset_spec h :
  4 <= size h ->
  id3v2_offset h (read_at (contents h) 3 0) = Ok (audio_start (contents h)).
Proof.
  intros Hs. unfold id3v2_offset, audio_start. rewrite prefix_read by (done || lia).
  case_bool_decide as Hp; cbn [negb]; [|done].
  unfold id3v2_size. destruct (Z.leb_spec 10 (size h)) as [H10|H10].
  2: { rewrite or_else_read_short, decide_False; [done| |lia..]. unfold size in *. lia. }
  rewrite or_else_read_ok by lia. rewrite Z.add_0_l.
  set (header := subarray (contents h) 0 10).
  assert (Hat : forall i, i < 10 -> at0 header i = at0 (contents h) i).
  { intros i Hi. destruct (Z.ltb_spec i 0); [by rewrite !at0_neg|].
    unfold header. by rewrite at0_subarray by lia. }
  assert (Hhl : len header = 10) by (unfold header; rewrite len_subarray; unfold size in *; lia).
  assert (Hrev : default 255 (idx header 4) = at0 (contents h) 4).
  { rewrite <- Hat by lia. unfold at0. destruct (idx_in header 4) as [x ->]; [lia|done]. }
  change (subarray header 6 10) with (subarray header 6 (6 + 4)).
  rewrite subarray_4 by lia. rewrite Hrev. change (6 + 1) with 7. change (6 + 2) with 8.
  change (6 + 3) with 9. rewrite !Hat by lia. set (c := contents h) in *.
  change (at0 [at0 c 6; at0 c 7; at0 c 8; at0 c 9] 0) with (at0 c 6).
  change (at0 [at0 c 6; at0 c 7; at0 c 8; at0 c 9] 1) with (at0 c 7).
  change (at0 [at0 c 6; at0 c 7; at0 c 8; at0 c 9] 2) with (at0 c 8).
  change (at0 [at0 c 6; at0 c 7; at0 c 8; at0 c 9] 3) with (at0 c 9).
  case_decide as Hd.
  - destruct Hd as (_ & [Hlo Hhi] & Hr & Hbits). apply existsb_high_bits in Hbits. rewrite Hbits.
    rewrite (proj2 (Z.ltb_ge _ _)), (proj2 (Z.ltb_ge _ _)), (proj2 (Z.eqb_neq _ _)) by done.
    cbn [orb mbind option_bind]. unfold size. fold c. by case_match.
  - case_match eqn:E1; [done|]. case_match eqn:E2; [done|].
    destruct Hd. apply existsb_high_bits in E2.
    rewrite !orb_false_iff, !Z.ltb_ge, Z.eqb_neq in E1. unfold size in H10. fold c in H10.
    intuition lia.
Qed.

Lemma id3v1_end_spec h offset :
  0 <= offset <= size h -> id3v1_end h offset = Ok (audio_stop (contents h) offset).
Proof.
  intros Ho. unfold id3v1_end, audio_stop, has_id3v1. fold (size h).
  rewrite len_rest by done. destruct (Z.leb_spec MP3_ID3V1_BYTES (size h - offset)) as [H|H]; [|done].
  assert (H128 : MP3_ID3V1_BYTES = 128) by done.
  rewrite readExactly_spec by lia. cbn [mbind exec_bind andb].
  rewrite read_at_some by (unfold size in *; lia).
  rewrite subarray_subarray by lia. unfold equals.
  replace (offset + (size h - offset - MP3_ID3V1_BYTES)) with (size h - MP3_ID3V1_BYTES) by lia.
  replace (offset + (size h - offset - MP3_ID3V1_BYTES + 3)) with (size h - MP3_ID3V1_BYTES + 3) by lia.
  f_equal. case_bool_decide as E1; case_bool_decide as E2; try done; congruence.
Qed.

Lemma id3v2_size_pos c n : Forall is_byte c -> id3v2_size c = Some n -> 10 <= n.
Proof.
  intros Hc. unfold id3v2_size. case_decide; [|done]. intros [= <-].
  pose proof (is_byte_at0 c 6 Hc) as H6. pose proof (is_byte_at0 c 7 Hc) as H7.
  pose proof (is_byte_at0 c 8 Hc) as H8. pose proof (is_byte_at0 c 9 Hc) as H9.
  unfold is_byte in *.
  assert (0 <= Z.lor (Z.lor (Z.lor (Z.shiftl (at0 c 6) 21) (Z.shiftl (at0 c 7) 14))
                     (Z.shiftl (at0 c 8) 7)) (at0 c 9)).
  { rewrite !Z.lor_nonneg, !Z.shiftl_nonneg. lia. }
  case_match; lia.
Qed.

Lemma mpeg_frames_size fs : Forall mpeg_frame fs -> fs <> [] -> 24 <= len (concat fs).
Proof.
  intros Hf Hne. destruct fs as [|f fs]; [done|]. apply Forall_cons_1 in Hf as [[Hh Hl] _].
  apply mpeg_fields_ok in Hh as [_ Hh]. cbn [concat]. rewrite len_app.
  pose proof (len_nonneg (concat fs)). lia.
Qed.

Lemma leading_tag_start c tag :
  Forall is_byte c -> leading_tag c tag -> 24 <= len c - len tag -> audio_start c = Some (len tag).
Proof.
  unfold leading_tag, audio_start. intros Hc Ht Hlen. case_bool_decide; [|by subst].
  rewrite Ht. cbn. by rewrite (proj2 (Z.ltb_ge _ _)) by lia.
Qed.

Lemma audio_start_range c st :
  Forall is_byte c -> 4 <= len c -> audio_start c = Some st -> 0 <= st <= len c.
Proof.
  intros Hc Hl. unfold audio_start. case_bool_decide; [|intros [= <-]; lia].
  intros (n & Hn & H1)%bind_Some. apply id3v2_size_pos in Hn; [|done].
  destruct (Z.ltb_spec (len c - 4) n); [done|]. injection H1 as <-. lia.
Qed.

Lemma audio_stop_range c st : 0 <= st <= len c -> st <= audio_stop c st <= len c.
Proof.
  intros Hst. unfold audio_stop, has_id3v1. rewrite len_subarray by lia.
  destruct (Z.leb_spec MP3_ID3V1_BYTES (len c - st)); cbn [andb]; [|lia].
  assert (MP3_ID3V1_BYTES = 128) by done. case_match; lia.
Qed.

Lemma mpeg_file_iff c st :
  Forall is_byte c -> 4 <= len c -> audio_start c = Some st ->
  mpeg_file c <->
  exists fs, (subarray c st (audio_stop c st) = concat fs /\ Forall mpeg_frame fs) /\
    0 < Z.of_nat (length fs) < MP3_MAX_FRAMES.
Proof.
  intros Hc Hl Hst. pose proof (audio_start_range c st Hc Hl Hst) as Hr.
  pose proof (audio_stop_range c st Hr) as Hstop. split.
  - intros (tag & fs & trailer & -> & Hlead & Htrail & Hf & Hn). exists fs. split; [|done].
    assert (H24 : 24 <= len (concat fs)) by (apply mpeg_frames_size; [done|intros ->; cbn in Hn; lia]).
    pose proof (len_nonneg trailer).
    apply leading_tag_start in Hlead; [|done|rewrite !len_app; lia].
    rewrite Hst in Hlead. injection Hlead as ->. split; [|done].
    unfold audio_stop. rewrite subarray_app_r. unfold trailing_tag in Htrail.
    replace (if has_id3v1 _ then _ else _) with (len tag + len (concat fs))
      by (rewrite !len_app; case_match; lia).
    apply subarray_app_mid.
  - intros (fs & [Hfs Hf] & Hn).
    exists (subarray c 0 st), fs, (subarray c (audio_stop c st) (len c)).
    assert (Hrest : concat fs ++ subarray c (audio_stop c st) (len c) = subarray c st (len c)).
    { rewrite <- Hfs. symmetry. apply subarray_split; lia. }
    rewrite Hrest. split; [|split; [|split; [|done]]].
    + rewrite <- subarray_split, subarray_all by lia. done.
    + unfold leading_tag. unfold audio_start in Hst. rewrite len_subarray by lia.
      case_bool_decide; [|by injection Hst as <-].
      apply bind_Some in Hst as (n & Hn' & Hst). rewrite Hn'. case_match; [done|].
      injection Hst as <-. f_equal. lia.
    + unfold trailing_tag. rewrite len_subarray by lia. unfold audio_stop. case_match; lia.
Qed.

(** [matchesMpegAudioStructure] returns on every file without throwing, and accepts
    exactly the regular files of at least 4 bytes made of an optional ID3v2 tag, 1 to 99999
    whole MPEG audio frames and an optional 128-byte ID3v1 tag; each frame's size is
    the one its version, layer, bitrate, sampling rate and padding fields give. *)
Theorem matchesMpegAudioStructure_correct (h : FileHandle) :
  exists b, matchesMpegAudioStructure h = Ok b /\
    (b = true <-> isFile h = true /\ 4 <= size h /\ mpeg_file (contents h)).
Proof.
  unfold matchesMpegAudioStructure. destruct (isFile h); cbn [negb orb]; [|rejects; by intros [? _]].
  destruct (Z.ltb_spec (size h) 4); [rejects; intros (_ & ? & _); lia|].
  rewrite Z.min_l, readExactly_spec by lia. cbn [mbind exec_bind].
  rewrite id3v2_offset_spec by done. unfold or_else. cbn [mbind exec_bind].
  pose proof (contents_bytes h) as Hc. destruct (audio_start (contents h)) as [st|] eqn:Hst.
  - pose proof (audio_start_range _ st Hc ltac:(done) Hst) as Hr.
    pose proof (audio_stop_range _ st Hr) as Hstop. fold (size h) in Hr, Hstop.
    rewrite id3v1_end_spec by done. cbn [mbind exec_bind].
    destruct (@frame_loop_spec mpeg_format h (audio_stop (contents h) st) MP3_MAX_FRAMES
      (mpeg_body h (audio_stop (contents h) st))) with (start := st) (fuel := S (Z.to_nat (size h)))
      as (b & Hrun & Hb); [lia| |lia|lia|].
    { intros offset frames Ho. apply mpeg_body_spec; lia. }
    exists b. split; [exact Hrun|]. rewrite Hb, (mpeg_file_iff _ st) by done.
    unfold tail_ok. cbn [fst snd].
    setoid_rewrite (fun l fs => frame_records mpeg_frame l fs mpeg_frame_iff).
    split; [intros (fs & ?)|intros (_ & _ & fs & ?)]; [split; [done|]; split; [done|]|]; exists fs;
      intuition lia.
  - rejects. intros (_ & _ & tag & fs & trailer & Heq & Hlead & _ & Hf & Hn).
    assert (H24 : 24 <= len (concat fs)) by (apply mpeg_frames_size; [done|intros ->; cbn in Hn; lia]).
    apply leading_tag_start in Hlead; [congruence|done|].
    rewrite Heq, !len_app. pose proof (len_nonneg trailer). lia.
Qed.

(** the binary64 computation of [mpegAudioFrameLength] is exact: for each of the 2048
    field combinations it gives the integer formula of the standard, which lies
    between 24 and 2881 bytes, and it gives [null] exactly for reserved fields. *)
Theorem mpegAudioFrameLength_exact (header : list Z) :
  match mpegAudioFrameLength header with
  | Some n => mpeg_header header /\ n = mpeg_length header /\ 24 <= n <= 2881
  | None => ~ mpeg_header header
  end.
Proof.
  rewrite mpegAudioFrameLength_spec. case_decide as Hd; [|done].
  pose proof (mpeg_fields_ok header Hd) as [_ Hb]. done.
Qed.
