(* ===== verification/Png.v ===== *)
(** PNG images: [matchesPngStructure] and its helpers of [media-image-structure.ts]. *)
From stdpp Require Import prelude list strings.
From Stdlib Require Import ZArith Lia.
From S2P Require Import Prelude Buffers FileHandle Crc Codec.
#[local] Open Scope Z_scope.
Import PngCrc.

Definition PNG_SIGNATURE := [0x89; 0x50; 0x4e; 0x47; 0x0d; 0x0a; 0x1a; 0x0a].
Definition PNG_MAX_CHUNKS := 10000.
Definition PNG_CRC_READ_BYTES := 64 * 1024.
Definition IHDR := ascii_bytes "IHDR".
Definition PLTE := ascii_bytes "PLTE".
Definition IDAT := ascii_bytes "IDAT".
Definition IEND := ascii_bytes "IEND".
Definition PNG_CRITICAL_CHUNKS := [IHDR; PLTE; IDAT; IEND].
Definition PNG_COLOR_GRAYSCALE := 0.
Definition PNG_COLOR_TRUECOLOR := 2.
Definition PNG_COLOR_INDEXED := 3.
Definition PNG_COLOR_GRAYSCALE_ALPHA := 4.
Definition PNG_COLOR_TRUECOLOR_ALPHA := 6.

(** [buf.toString("ascii")]: Node clears the high bit of every byte. *)
Definition ascii_decode (l : list Z) : list Z := (fun b => Z.land b 0x7f) <$> l.

Definition validatePngIhdr (ihdr : list Z) : parser bool :=
  width ← readUInt32BE ihdr 0;
  height ← readUInt32BE ihdr 4;
  let bitDepth := default 0 (idx ihdr 8) in
  let colorType := default 255 (idx ihdr 9) in
  let compressionMethod := default 255 (idx ihdr 10) in
  let filterMethod := default 255 (idx ihdr 11) in
  let interlaceMethod := default 255 (idx ihdr 12) in
  if (width =? 0) || (height =? 0) || negb (compressionMethod =? 0) || negb (filterMethod =? 0) ||
     (negb (interlaceMethod =? 0) && negb (interlaceMethod =? 1))
  then Ok false
  else if colorType =? PNG_COLOR_GRAYSCALE then Ok (existsb (Z.eqb bitDepth) [1; 2; 4; 8; 16])
  else if (colorType =? PNG_COLOR_TRUECOLOR) || (colorType =? PNG_COLOR_GRAYSCALE_ALPHA) ||
          (colorType =? PNG_COLOR_TRUECOLOR_ALPHA) then Ok ((bitDepth =? 8) || (bitDepth =? 16))
  else if colorType =? PNG_COLOR_INDEXED then Ok (existsb (Z.eqb bitDepth) [1; 2; 4; 8])
  else Ok false.

Definition isPngChunkType (type : list Z) : bool :=
  if negb (len type =? 4) then false else
  if forallb (fun value => ((0x41 <=? value) && (value <=? 0x5a)) ||
                           ((0x61 <=? value) && (value <=? 0x7a))) type
  then let reservedByte := at0 type 2 in (0x41 <=? reservedByte) && (reservedByte <=? 0x5a)
  else false.

Definition isUnknownCriticalPngChunk (typeBytes type : list Z) : bool :=
  let firstByte := at0 typeBytes 0 in
  let critical := (0x41 <=? firstByte) && (firstByte <=? 0x5a) in
  critical && negb (existsb (fun t => bool_decide (t = type)) PNG_CRITICAL_CHUNKS).

(** The state of the checksum loop is [(crc, readOffset)]. *)
Definition crc_body (h : FileHandle) (dataOffset dataLength : Z) (s : Z * Z)
    : parser (flow (Z * Z) bool) :=
  let (crc, readOffset) := s in
  let length := Z.min PNG_CRC_READ_BYTES (dataLength - readOffset) in
  let? chunk := readExactly h length (dataOffset + readOffset) else Ok (Return false) in
  Ok (Continue (updateCrc32 crc chunk, readOffset + length)).

Definition validatePngChunkCrc (h : FileHandle) (typeBytes : list Z)
    (dataOffset dataLength crcOffset : Z) : parser bool :=
  out ← while (S (Z.to_nat dataLength)) (fun s => s.2 <? dataLength)
          (crc_body h dataOffset dataLength) (updateCrc32 0xffffffff typeBytes, 0);
  afterwards out (fun s =>
    let? expectedBytes := readExactly h 4 crcOffset else Ok false in
    expected ← readUInt32BE expectedBytes 0;
    let actual := Js.shr (Js.xor32 s.1 0xffffffff) 0 in
    Ok (actual =? expected)).

Record PngState := {
  offset : Z; chunkCount : Z;
  seenIhdr : bool; seenPlte : bool; seenIdat : bool; idatClosed : bool;
  colorType : option Z; bitDepth : option Z
}.
Definition png_start : PngState :=
  {| offset := len PNG_SIGNATURE; chunkCount := 0; seenIhdr := false; seenPlte := false;
     seenIdat := false; idatClosed := false; colorType := None; bitDepth := None |}.

(** [if (type === "IHDR") ... else if (!seenIhdr) return false]: the color type and bit
    depth after the chunk, or [None] when the chunk is refused. *)
Definition check_ihdr (h : FileHandle) (s : PngState) (type : list Z) (dataLength dataOffset : Z)
    : parser (option (bool * option Z * option Z)) :=
  if bool_decide (type = IHDR) then
    if seenIhdr s || negb (dataLength =? 13) then Ok None else
    let? ihdr := readExactly h dataLength dataOffset else Ok None in
    valid ← validatePngIhdr ihdr;
    if negb valid then Ok None else Ok (Some (true, idx ihdr 9, idx ihdr 8))
  else if negb (seenIhdr s) then Ok None
  else Ok (Some (seenIhdr s, colorType s, bitDepth s)).

(** [paletteEntries = dataLength / 3] is only compared once 3 divides [dataLength]. *)
Definition plte_refused (s : PngState) (ct bd : option Z) (dataLength : Z) : bool :=
  seenPlte s || seenIdat s || (dataLength =? 0) || (768 <? dataLength) ||
  negb (dataLength mod 3 =? 0) || bool_decide (ct = Some PNG_COLOR_GRAYSCALE) ||
  bool_decide (ct = Some PNG_COLOR_GRAYSCALE_ALPHA) ||
  (bool_decide (ct = Some PNG_COLOR_INDEXED) &&
    match bd with None => true | Some bd => 2 ^ bd <? dataLength / 3 end).

Definition png_body (h : FileHandle) (s : PngState) : parser (flow PngState bool) :=
  let? header := readExactly h 8 (offset s) else Ok (Return false) in
  dataLength ← readUInt32BE header 0;
  let typeBytes := subarray header 4 8 in
  let type := ascii_decode typeBytes in
  if negb (isPngChunkType typeBytes) then Ok (Return false) else
  let dataOffset := offset s + 8 in
  let crcOffset := dataOffset + dataLength in
  let nextOffset := crcOffset + 4 in
  if size h <? nextOffset then Ok (Return false) else
  if (chunkCount s =? 0) && negb (bool_decide (type = IHDR)) then Ok (Return false) else
  if isUnknownCriticalPngChunk typeBytes type then Ok (Return false) else
  let? ihdr := check_ihdr h s type dataLength dataOffset else Ok (Return false) in
  let '(seenIhdr', colorType', bitDepth') := ihdr in
  let isPlte := bool_decide (type = PLTE) in
  if isPlte && plte_refused s colorType' bitDepth' dataLength then Ok (Return false) else
  let seenPlte' := seenPlte s || isPlte in
  let isIdat := bool_decide (type = IDAT) in
  if isIdat && (idatClosed s || (bool_decide (colorType' = Some PNG_COLOR_INDEXED) && negb seenPlte'))
  then Ok (Return false) else
  let seenIdat' := seenIdat s || isIdat in
  let idatClosed' := idatClosed s ||
    (negb isIdat && seenIdat s && negb (bool_decide (type = IEND))) in
  valid ← validatePngChunkCrc h typeBytes dataOffset dataLength crcOffset;
  if negb valid then Ok (Return false) else
  if bool_decide (type = IEND)
  then Ok (Return ((dataLength =? 0) && seenIdat' && (nextOffset =? size h)))
  else Ok (Continue {| offset := nextOffset; chunkCount := chunkCount s + 1;
    seenIhdr := seenIhdr'; seenPlte := seenPlte'; seenIdat := seenIdat';
    idatClosed := idatClosed'; colorType := colorType'; bitDepth := bitDepth' |}).

Definition matchesPngStructure (h : FileHandle) : parser bool :=
  if negb (isFile h) || (size h <? len PNG_SIGNATURE + 12) then Ok false else
  signature ← readExactly h (len PNG_SIGNATURE) 0;
  if negb (bool_decide (signature = Some PNG_SIGNATURE)) then Ok false else
  out ← while (S (Z.to_nat (size h)))
          (fun s => (offset s <? size h) && (chunkCount s <? PNG_MAX_CHUNKS))
          (png_body h) png_start;
  afterwards out (fun _ => Ok false).

(** ** Chunks *)
Record chunk := { ctype : list Z; cdata : list Z; ccrc : list Z }.

Definition wf_chunk (c : chunk) : Prop :=
  len (ctype c) = 4 /\ len (cdata c) < 2 ^ 32 /\ len (ccrc c) = 4 /\
  Forall is_byte (ctype c) /\ Forall is_byte (cdata c) /\ Forall is_byte (ccrc c).

Definition encode_chunk (c : chunk) : list Z :=
  bytesBE 4 (len (cdata c)) ++ ctype c ++ cdata c ++ ccrc c.

Definition decode_chunk (l : list Z) : option (chunk * list Z) :=
  if len l <? 8 then None else
  let n := uintBE (subarray l 0 4) in
  if len l <? 12 + n then None else
  Some ({| ctype := subarray l 4 8; cdata := subarray l 8 (8 + n);
           ccrc := subarray l (8 + n) (12 + n) |}, drop (Z.to_nat (12 + n)) l).

Lemma uintBE_4_range l a :
  Forall is_byte l -> 0 <= a -> a + 4 <= len l -> 0 <= uintBE (subarray l a (a + 4)) < 2 ^ 32.
Proof.
  intros Hl Ha Hn. pose proof (uintBE_range (subarray l a (a + 4))) as H.
  rewrite len_subarray in H by lia. replace (a + 4 - a) with 4 in H by lia.
  apply H. by apply Forall_subarray.
Qed.

Lemma len_length l n : len l = Z.of_nat n -> length l = n.
Proof. unfold len. lia. Qed.

Lemma decode_chunk_sound l c r :
  Forall is_byte l -> decode_chunk l = Some (c, r) -> l = encode_chunk c ++ r /\ wf_chunk c.
Proof.
  unfold decode_chunk. intros Hb Hd. destruct (Z.ltb_spec (len l) 8); [done|].
  pose proof (uintBE_4_range l 0 Hb) as Hr. change (0 + 4) with 4 in Hr.
  assert (H4 : bytesBE 4 (uintBE (subarray l 0 4)) = subarray l 0 4).
  { rewrite <- (bytesBE_uintBE (subarray l 0 4)) at 2 by by apply Forall_subarray.
    f_equal. symmetry. apply len_length. rewrite len_subarray; lia. }
  cbv zeta in Hd. set (n := uintBE (subarray l 0 4)) in *.
  destruct (Z.ltb_spec (len l) (12 + n)); [done|]. injection Hd as <- <-.
  specialize (Hr ltac:(lia) ltac:(lia)). unfold encode_chunk, wf_chunk. cbn [ctype cdata ccrc].
  rewrite !len_subarray by lia. replace (8 + n - 8) with n by lia. rewrite H4. split.
  - rewrite <- !app_assoc, <- subarray_to_end by lia.
    rewrite <- !subarray_split by lia. symmetry. apply subarray_all.
  - repeat split; try lia; by apply Forall_subarray.
Qed.

Lemma decode_chunk_complete c r : wf_chunk c -> decode_chunk (encode_chunk c ++ r) = Some (c, r).
Proof.
  intros (Ht & Hn & Hc & _). unfold decode_chunk, encode_chunk.
  pose proof (len_nonneg (cdata c)). pose proof (len_nonneg r).
  set (n := len (cdata c)) in *. set (hd := bytesBE 4 n).
  assert (Hhd : len hd = 4) by (apply (len_bytesBE 4)).
  rewrite <- !app_assoc. set (l := hd ++ _).
  assert (Hl : len l = 12 + n + len r) by (unfold l; rewrite !len_app; lia).
  assert (E0 : subarray l 0 4 = hd).
  { unfold l. rewrite subarray_app_l, <- Hhd by lia. apply subarray_all. }
  assert (E1 : subarray l 4 8 = ctype c).
  { unfold l. replace 8 with (len hd + len (ctype c)) by lia. rewrite <- Hhd. apply subarray_app_mid. }
  assert (E2 : subarray l 8 (8 + n) = cdata c).
  { unfold l. rewrite app_assoc. replace 8 with (len (hd ++ ctype c)) by (rewrite len_app; lia).
    apply subarray_app_mid. }
  assert (E3 : subarray l (8 + n) (12 + n) = ccrc c).
  { unfold l. rewrite 2!app_assoc.
    replace (8 + n) with (len ((hd ++ ctype c) ++ cdata c)) by (rewrite !len_app; lia).
    replace (12 + n) with (len ((hd ++ ctype c) ++ cdata c) + len (ccrc c)) by (rewrite !len_app; lia).
    apply subarray_app_mid. }
  assert (E4 : drop (Z.to_nat (12 + n)) l = r).
  { unfold l. rewrite 3!app_assoc. apply drop_app_length'.
    symmetry. apply len_length. rewrite Z2Nat.id, !len_app by lia. lia. }
  rewrite E0. unfold hd. rewrite uintBE_bytesBE by (change (Z.of_nat 4) with 4; lia).
  rewrite (proj2 (Z.ltb_ge _ _)), (proj2 (Z.ltb_ge _ _)) by lia.
  rewrite E1, E2, E3, E4. by destruct c.
Qed.

#[export] Program Instance chunk_codec : Codec chunk :=
  {| encode := encode_chunk; decode := decode_chunk; wf_record := wf_chunk;
     decode_sound := decode_chunk_sound; decode_complete := decode_chunk_complete |}.
Next Obligation.
  intros c (Ht & _) He. unfold encode_chunk in He. apply app_eq_nil in He as [He _].
  apply (f_equal len) in He. rewrite (len_bytesBE 4) in He. done.
Qed.

(** ** What the checks decide about one chunk *)
Definition png_alpha (b : Z) : Prop := 0x41 <= b <= 0x5a \/ 0x61 <= b <= 0x7a.
(** Four ASCII letters, the third one upper case. *)
Definition valid_type (t : list Z) : Prop :=
  len t = 4 /\ Forall png_alpha t /\ 0x41 <= at0 t 2 <= 0x5a.
(** An upper-case first letter marks a critical chunk; only four of these are known. *)
Definition known_type (t : list Z) : Prop :=
  0x41 <= at0 t 0 <= 0x5a -> t ∈ PNG_CRITICAL_CHUNKS.
(** The stored checksum is the CRC-32 of type and data. *)
Definition crc_ok (c : chunk) : Prop :=
  uintBE (ccrc c) = Z.lxor (serial_crc 0xffffffff (ctype c ++ cdata c)) 0xffffffff.
Definition chunk_ok (c : chunk) : Prop := valid_type (ctype c) /\ known_type (ctype c) /\ crc_ok c.

Definition depth_ok (colorType bitDepth : Z) : Prop :=
  colorType = PNG_COLOR_GRAYSCALE /\ bitDepth ∈ [1; 2; 4; 8; 16] \/
  colorType ∈ [PNG_COLOR_TRUECOLOR; PNG_COLOR_GRAYSCALE_ALPHA; PNG_COLOR_TRUECOLOR_ALPHA] /\
    bitDepth ∈ [8; 16] \/
  colorType = PNG_COLOR_INDEXED /\ bitDepth ∈ [1; 2; 4; 8].
Definition valid_ihdr (d : list Z) : Prop :=
  len d = 13 /\ uintBE (subarray d 0 4) <> 0 /\ uintBE (subarray d 4 8) <> 0 /\
  depth_ok (at0 d 9) (at0 d 8) /\ at0 d 10 = 0 /\ at0 d 11 = 0 /\ (at0 d 12 = 0 \/ at0 d 12 = 1).

#[export] Instance valid_type_dec t : Decision (valid_type t).
Proof. unfold valid_type, png_alpha. apply _. Defined.
#[export] Instance known_type_dec t : Decision (known_type t).
Proof. unfold known_type. apply _. Defined.
#[export] Instance chunk_ok_dec c : Decision (chunk_ok c).
Proof. unfold chunk_ok, crc_ok. apply _. Defined.
#[export] Instance valid_ihdr_dec d : Decision (valid_ihdr d).
Proof. unfold valid_ihdr, depth_ok. apply _. Defined.

Lemma existsb_eqb_elem x l : existsb (Z.eqb x) l = true <-> x ∈ l.
Proof.
  rewrite existsb_exists, list_elem_of_In. split.
  - by intros (y & Hy & ->%Z.eqb_eq).
  - intros Hx. exists x. by rewrite Z.eqb_eq.
Qed.

Lemma default_idx d l i : 0 <= i < len l -> default d (idx l i) = at0 l i.
Proof. intros Hi. unfold at0. by destruct (idx_in l i Hi) as [x ->]. Qed.

Lemma depth_switch ct bd :
  (if ct =? PNG_COLOR_GRAYSCALE then Ok (existsb (Z.eqb bd) [1; 2; 4; 8; 16])
   else if (ct =? PNG_COLOR_TRUECOLOR) || (ct =? PNG_COLOR_GRAYSCALE_ALPHA) ||
           (ct =? PNG_COLOR_TRUECOLOR_ALPHA) then Ok ((bd =? 8) || (bd =? 16))
   else if ct =? PNG_COLOR_INDEXED then Ok (existsb (Z.eqb bd) [1; 2; 4; 8])
   else Ok false) = Ok (E := range_error) (bool_decide (depth_ok ct bd)).
Proof.
  assert (HP : depth_ok ct bd <->
    ct = 0 /\ (bd = 1 \/ bd = 2 \/ bd = 4 \/ bd = 8 \/ bd = 16) \/
    (ct = 2 \/ ct = 4 \/ ct = 6) /\ (bd = 8 \/ bd = 16) \/
    ct = 3 /\ (bd = 1 \/ bd = 2 \/ bd = 4 \/ bd = 8)).
  { unfold depth_ok. rewrite <- !existsb_eqb_elem. cbn -[Z.eqb].
    unfold PNG_COLOR_GRAYSCALE, PNG_COLOR_TRUECOLOR, PNG_COLOR_GRAYSCALE_ALPHA,
      PNG_COLOR_TRUECOLOR_ALPHA, PNG_COLOR_INDEXED. lia. }
  assert (Hb : forall b, (b = true <-> depth_ok ct bd) ->
    Ok (E := range_error) b = Ok (bool_decide (depth_ok ct bd))).
  { intros b Hb. f_equal. apply eq_true_iff_eq. by rewrite bool_decide_eq_true. }
  unfold PNG_COLOR_GRAYSCALE, PNG_COLOR_TRUECOLOR, PNG_COLOR_GRAYSCALE_ALPHA,
    PNG_COLOR_TRUECOLOR_ALPHA, PNG_COLOR_INDEXED.
  destruct (Z.eqb_spec ct 0); [apply Hb; rewrite HP; cbn -[Z.eqb]; lia|].
  destruct (Z.eqb_spec ct 2), (Z.eqb_spec ct 4), (Z.eqb_spec ct 6); cbn [orb]; try lia;
    try (apply Hb; rewrite HP; lia).
  destruct (Z.eqb_spec ct 3); apply Hb; rewrite HP; cbn -[Z.eqb]; lia.
Qed.

Lemma validatePngIhdr_spec d :
  len d = 13 -> validatePngIhdr d = Ok (bool_decide (valid_ihdr d)).
Proof.
  intros Hd. unfold validatePngIhdr, readUInt32BE. rewrite !read_fixed_ok by lia.
  cbn [mbind exec_bind]. change (0 + 4) with 4. change (4 + 4) with 8.
  rewrite !default_idx by lia. rewrite depth_switch. unfold valid_ihdr.
  destruct (Z.eqb_spec (uintBE (subarray d 0 4)) 0); cbn [orb negb];
    [by rewrite bool_decide_false by tauto|].
  destruct (Z.eqb_spec (uintBE (subarray d 4 8)) 0); cbn [orb negb];
    [by rewrite bool_decide_false by tauto|].
  destruct (Z.eqb_spec (at0 d 10) 0); cbn [orb negb]; [|by rewrite bool_decide_false by tauto].
  destruct (Z.eqb_spec (at0 d 11) 0); cbn [orb negb]; [|by rewrite bool_decide_false by tauto].
  destruct (negb (at0 d 12 =? 0) && negb (at0 d 12 =? 1)) eqn:Hi.
  { rewrite bool_decide_false; [done|]. intros (_ & _ & _ & _ & _ & _ & H). lia. }
  f_equal. apply bool_decide_ext. split; [|tauto].
  intros H. repeat (split; [done|]). lia.
Qed.

Lemma serial_crc_app `{SerialCrc} crc a b : serial_crc crc (a ++ b) = serial_crc (serial_crc crc a) b.
Proof. unfold serial_crc. apply foldl_app. Qed.

Lemma ffffffff_uint32 : Js.is_uint32 0xffffffff.
Proof. done. Qed.

(** Reading the data in 64 KiB pieces gives the checksum of all of it. *)
Lemma crc_loop_spec h t dataOffset n :
  Forall is_byte t -> 0 <= n -> 0 <= dataOffset -> dataOffset + n <= size h ->
  while (E := range_error) (R := bool) (S (Z.to_nat n)) (fun s => s.2 <? n) (crc_body h dataOffset n)
    (updateCrc32 0xffffffff t, 0) =
  Ok (Continue (serial_crc 0xffffffff (t ++ subarray (contents h) dataOffset (dataOffset + n)), n)).
Proof.
  intros Ht Hn Hd Hs.
  pose (data := fun k => subarray (contents h) dataOffset (dataOffset + k)).
  destruct (while_total (E := range_error) (R := bool) (fun s => s.2 <? n) (crc_body h dataOffset n)
    (fun s => 0 <= s.2 <= n /\ s.1 = serial_crc 0xffffffff (t ++ data s.2))
    (fun s => Z.to_nat (n - s.2)) (fun _ => False)) with (fuel := S (Z.to_nat n))
    (s := (updateCrc32 0xffffffff t, 0)) as (out & Hrun & Hout).
  - intros [crc k] [Hk Hc] Hlt%Z.ltb_lt. cbn [fst snd] in *. unfold crc_body.
    set (m := Z.min PNG_CRC_READ_BYTES (n - k)).
    assert (Hm : 0 < m <= n - k) by (unfold m, PNG_CRC_READ_BYTES; lia).
    rewrite or_else_read_ok by lia. eexists. split; [done|]. cbn [fst snd].
    split; [|lia]. split; [lia|].
    rewrite updateCrc32_serial; [|subst crc; apply serial_crc_range; [done|]|].
    + rewrite Hc, <- serial_crc_app, <- app_assoc. do 2 f_equal. unfold data.
      rewrite Z.add_assoc.
      rewrite (subarray_split _ dataOffset (dataOffset + k) (dataOffset + k + m));
        [done|unfold size in *; lia..].
    + apply Forall_app. split; [done|]. apply Forall_subarray, contents_bytes.
    + apply Forall_subarray, contents_bytes.
  - cbn [fst snd]. split; [lia|]. unfold data. rewrite Z.add_0_r, subarray_nil, app_nil_r.
    by apply updateCrc32_serial.
  - cbn [fst snd]. lia.
  - rewrite Hrun. destruct out as [[crc k]|]; [|done]. destruct Hout as [[Hk Hc] Hlt%Z.ltb_ge].
    cbn [fst snd] in *. assert (k = n) as -> by lia. by rewrite Hc.
Qed.

Lemma validatePngChunkCrc_spec h t dataOffset n :
  Forall is_byte t -> 0 <= n -> 0 <= dataOffset -> dataOffset + n + 4 <= size h ->
  validatePngChunkCrc h t dataOffset n (dataOffset + n) =
    Ok (bool_decide (uintBE (subarray (contents h) (dataOffset + n) (dataOffset + n + 4)) =
      Z.lxor (serial_crc 0xffffffff (t ++ subarray (contents h) dataOffset (dataOffset + n))) 0xffffffff)).
Proof.
  intros Ht Hn Hd Hs. unfold validatePngChunkCrc. rewrite crc_loop_spec by (done || lia).
  cbn [mbind exec_bind afterwards]. rewrite or_else_read_ok by lia.
  set (bs := subarray (contents h) (dataOffset + n) (dataOffset + n + 4)).
  assert (Hbs : len bs = 4) by (unfold bs; rewrite len_subarray; unfold size in *; lia).
  unfold readUInt32BE. rewrite read_fixed_ok by lia. cbn [mbind exec_bind fst].
  replace (subarray bs 0 (0 + 4)) with bs
    by (change (0 + 4) with 4; rewrite <- Hbs; symmetry; apply subarray_all).
  set (crc := serial_crc _ _). f_equal.
  assert (Hcrc : Js.is_uint32 crc).
  { apply serial_crc_range; [done|]. apply Forall_app. split; [done|].
    apply Forall_subarray, contents_bytes. }
  unfold Js.shr. rewrite Z.shiftr_0_r, Js.toUint32_xor32, !Js.toUint32_id by done.
  apply eq_true_iff_eq. rewrite Z.eqb_eq, bool_decide_eq_true. split; congruence.
Qed.

Lemma isPngChunkType_spec t : isPngChunkType t = bool_decide (valid_type t).
Proof.
  unfold isPngChunkType, valid_type. apply eq_true_iff_eq. rewrite bool_decide_eq_true.
  destruct (Z.eqb_spec (len t) 4); cbn [negb]; [|intuition congruence].
  assert (Ha : forallb (fun value => ((0x41 <=? value) && (value <=? 0x5a)) ||
      ((0x61 <=? value) && (value <=? 0x7a))) t = true <-> Forall png_alpha t).
  { rewrite forallb_forall, Forall_forall. setoid_rewrite list_elem_of_In. unfold png_alpha.
    split; intros H x Hx; specialize (H x Hx); lia. }
  case_match eqn:E.
  - rewrite andb_true_iff, !Z.leb_le. tauto.
  - split; [done|]. intros (_ & H & _). by apply Ha in H.
Qed.

Lemma existsb_type t : existsb (fun u => bool_decide (u = t)) PNG_CRITICAL_CHUNKS = true <-> t ∈ PNG_CRITICAL_CHUNKS.
Proof.
  rewrite existsb_exists, list_elem_of_In. setoid_rewrite bool_decide_eq_true.
  split; [by intros (? & ? & ->)|eauto].
Qed.

Lemma isUnknownCriticalPngChunk_spec t :
  isUnknownCriticalPngChunk t t = negb (bool_decide (known_type t)).
Proof.
  unfold isUnknownCriticalPngChunk, known_type. apply eq_true_iff_eq.
  rewrite negb_true_iff, bool_decide_eq_false, !andb_true_iff, negb_true_iff, !Z.leb_le.
  rewrite <- not_true_iff_false, existsb_type.
  destruct (decide (t ∈ PNG_CRITICAL_CHUNKS)); [tauto|].
  destruct (decide (0x41 <= at0 t 0 <= 0x5a)); tauto.
Qed.

(** Letters survive the ASCII decoding. *)
Lemma ascii_decode_valid t : valid_type t -> ascii_decode t = t.
Proof.
  intros (_ & Ht & _). unfold ascii_decode. induction Ht as [|b t Hb Ht IH]; [done|].
  rewrite fmap_cons, IH. f_equal. change 0x7f with (Z.ones 7). rewrite Z.land_ones by done.
  apply Z.mod_small. unfold png_alpha in Hb. lia.
Qed.

(** ** One turn of the loop, on a decoded chunk *)
Definition ihdr_next (s : PngState) (c : chunk) : option (bool * option Z * option Z) :=
  if decide (ctype c = IHDR) then
    if seenIhdr s || negb (bool_decide (valid_ihdr (cdata c))) then None
    else Some (true, idx (cdata c) 9, idx (cdata c) 8)
  else if seenIhdr s then Some (seenIhdr s, colorType s, bitDepth s) else None.

Definition png_next (s : PngState) (c : chunk) : option PngState :=
  if (chunkCount s =? 0) && negb (bool_decide (ctype c = IHDR)) then None else
  '(seenIhdr', colorType', bitDepth') ← ihdr_next s c;
  let isPlte := bool_decide (ctype c = PLTE) in
  let isIdat := bool_decide (ctype c = IDAT) in
  if isPlte && plte_refused s colorType' bitDepth' (len (cdata c)) then None else
  if isIdat && (idatClosed s || (bool_decide (colorType' = Some PNG_COLOR_INDEXED) &&
                                 negb (seenPlte s || isPlte))) then None else
  Some {| offset := offset s + (12 + len (cdata c)); chunkCount := chunkCount s + 1;
          seenIhdr := seenIhdr'; seenPlte := seenPlte s || isPlte; seenIdat := seenIdat s || isIdat;
          idatClosed := idatClosed s ||
            (negb isIdat && seenIdat s && negb (bool_decide (ctype c = IEND)));
          colorType := colorType'; bitDepth := bitDepth' |}.

Lemma check_ihdr_spec h s c dataOffset :
  0 <= dataOffset -> dataOffset + len (cdata c) <= size h ->
  cdata c = subarray (contents h) dataOffset (dataOffset + len (cdata c)) ->
  check_ihdr h s (ctype c) (len (cdata c)) dataOffset = Ok (ihdr_next s c).
Proof.
  intros Hd Hs Hc. unfold check_ihdr, ihdr_next. case_bool_decide as Ht.
  - rewrite decide_True by done. destruct (seenIhdr s); [done|]. cbn [orb].
    destruct (Z.eqb_spec (len (cdata c)) 13) as [H13|H13]; cbn [negb].
    + rewrite or_else_read_ok, <- Hc by (done || lia). rewrite validatePngIhdr_spec by done.
      cbn [mbind exec_bind]. by case_bool_decide.
    + rewrite bool_decide_false; [done|]. by intros [? _].
  - rewrite decide_False by done. by destruct (seenIhdr s).
Qed.

Definition png_outcome (s : PngState) (d : option (chunk * list Z)) : flow PngState bool :=
  match d with
  | None => Return false
  | Some (c, r) =>
      if decide (chunk_ok c) then
        match png_next s c with
        | None => Return false
        | Some s' =>
            if decide (ctype c = IEND)
            then Return ((len (cdata c) =? 0) && seenIdat s' && (len r =? 0))
            else Continue s'
        end
      else Return false
  end.

(** The decoded chunk's fields are the slices the source reads. *)
Lemma decode_at h off :
  0 <= off <= size h ->
  let l := subarray (contents h) off (size h) in
  match decode_chunk l with
  | None => size h < off + 8 \/
      (off + 8 <= size h /\ size h < off + 12 + uintBE (subarray (contents h) off (off + 4)))
  | Some (c, r) =>
      off + 8 <= size h /\
      uintBE (subarray (contents h) off (off + 4)) = len (cdata c) /\
      ctype c = subarray (contents h) (off + 4) (off + 8) /\
      cdata c = subarray (contents h) (off + 8) (off + 8 + len (cdata c)) /\
      ccrc c = subarray (contents h) (off + 8 + len (cdata c)) (off + 8 + len (cdata c) + 4) /\
      off + 12 + len (cdata c) + len r = size h /\
      r = subarray (contents h) (off + (12 + len (cdata c))) (size h)
  end.
Proof.
  intros Ho l. assert (Hl : len l = size h - off) by (apply len_rest; lia).
  assert (Hb : Forall is_byte l) by apply Forall_subarray, contents_bytes.
  unfold decode_chunk. destruct (Z.ltb_spec (len l) 8); [left; lia|]. cbv zeta.
  pose proof (uintBE_4_range l 0 Hb) as Hr. change (0 + 4) with 4 in Hr.
  specialize (Hr ltac:(lia) ltac:(lia)).
  replace (subarray l 0 4) with (subarray (contents h) off (off + 4)) in *
    by (unfold l; rewrite subarray_subarray, Z.add_0_r by lia; done).
  set (n := uintBE _) in *. destruct (Z.ltb_spec (len l) (12 + n)); [right; lia|].
  cbn [ctype cdata ccrc].
  assert (Hd : len (subarray l 8 (8 + n)) = n) by (rewrite len_subarray; lia). rewrite Hd.
  unfold l. rewrite !subarray_subarray by lia. rewrite drop_subarray by lia.
  rewrite len_subarray by (unfold size in *; lia).
  replace (off + (8 + n)) with (off + 8 + n) by lia.
  replace (off + (12 + n)) with (off + 8 + n + 4) by lia. repeat split; lia.
Qed.

Lemma png_body_spec h s :
  0 <= offset s < size h ->
  png_body h s = Ok (png_outcome s (decode_chunk (subarray (contents h) (offset s) (size h)))).
Proof.
  intros Ho. pose proof (decode_at h (offset s) ltac:(lia)) as Hd. cbv zeta in Hd.
  unfold png_body. destruct (decode_chunk _) as [[c r]|]; cbn [png_outcome].
  - destruct Hd as (H8 & Hn & Ht & Hc & Hcrc & Hend & Hr).
    pose proof (len_nonneg (cdata c)). pose proof (len_nonneg r).
    rewrite or_else_read_ok by lia. set (header := subarray (contents h) (offset s) (offset s + 8)).
    assert (Hhl : len header = 8) by (unfold header; rewrite len_subarray; unfold size in *; lia).
    unfold readUInt32BE. rewrite read_fixed_ok by lia. cbn [mbind exec_bind].
    assert (Hh1 : uintBE (subarray header 0 4) = len (cdata c)).
    { unfold header. rewrite subarray_subarray, Z.add_0_r by lia. done. }
    assert (Hh2 : subarray header 4 8 = ctype c).
    { unfold header. rewrite subarray_subarray by lia. done. }
    change (0 + 4) with 4. rewrite Hh1, Hh2, isPngChunkType_spec.
    destruct (decide (valid_type (ctype c))) as [Hv|Hv].
    2: { rewrite bool_decide_false, decide_False; [done|by intros [? _]|done]. }
    rewrite bool_decide_true by done. cbn [negb]. rewrite ascii_decode_valid by done.
    rewrite (proj2 (Z.ltb_ge _ _)) by lia. unfold png_next.
    destruct ((chunkCount s =? 0) && negb (bool_decide (ctype c = IHDR))) eqn:E0. 
    { by destruct (decide (chunk_ok c)). }
    rewrite isUnknownCriticalPngChunk_spec.
    destruct (decide (known_type (ctype c))) as [Hk|Hk].
    2: { rewrite bool_decide_false, decide_False by (done || intros (_ & ? & _); done). done. }
    rewrite bool_decide_true by done. cbn [negb]. unfold or_else.
    rewrite check_ihdr_spec by (done || lia). cbn [mbind exec_bind].
    destruct (ihdr_next s c) as [[[si ct] bd]|]; cbn [mbind option_bind];
      [|by destruct (decide (chunk_ok c))].
    destruct (bool_decide (ctype c = PLTE) && plte_refused s ct bd (len (cdata c))) eqn:E1.
    { by destruct (decide (chunk_ok c)). }
    destruct (bool_decide (ctype c = IDAT) && _) eqn:E2; [by destruct (decide (chunk_ok c))|].
    rewrite validatePngChunkCrc_spec by
      (first [lia | rewrite Ht; apply Forall_subarray, contents_bytes]).
    cbn [mbind exec_bind]. rewrite <- Hc, <- Hcrc. fold (crc_ok c).
    destruct (decide (crc_ok c)) as [Hcr|Hcr].
    2: { rewrite bool_decide_false, decide_False by (done || intros (_ & _ & ?); done). done. }
    rewrite bool_decide_true, decide_True by (done || split; done). cbn [negb seenIdat].
    destruct (decide (ctype c = IEND)) as [HI|HI];
      [rewrite (bool_decide_true _ HI)|rewrite (bool_decide_false _ HI)].
    + do 2 f_equal. f_equal. apply eq_true_iff_eq. rewrite !Z.eqb_eq. lia.
    + do 3 f_equal. lia.
  - destruct Hd as [Hd|[H8 Hd]]; [by rewrite or_else_read_short by lia|].
    rewrite or_else_read_ok by lia. set (header := subarray (contents h) (offset s) (offset s + 8)).
    assert (Hhl : len header = 8) by (unfold header; rewrite len_subarray; unfold size in *; lia).
    unfold readUInt32BE. rewrite read_fixed_ok by lia. cbn [mbind exec_bind].
    assert (Hh1 : subarray header 0 4 = subarray (contents h) (offset s) (offset s + 4)).
    { unfold header. by rewrite subarray_subarray, Z.add_0_r by lia. }
    change (0 + 4) with 4. rewrite Hh1. case_match; [done|]. by rewrite (proj2 (Z.ltb_lt _ _)) by lia.
Qed.

(** ** The loop accepts a sequence of chunks *)
Fixpoint accepts (s : PngState) (cs : list chunk) : Prop :=
  match cs with
  | [] => False
  | c :: cs' =>
      chunkCount s < PNG_MAX_CHUNKS /\ chunk_ok c /\
      match png_next s c with
      | None => False
      | Some s' =>
          if decide (ctype c = IEND) then cdata c = [] /\ seenIdat s' = true /\ cs' = []
          else accepts s' cs'
      end
  end.

Definition accepted_from (h : FileHandle) (s : PngState) : Prop :=
  exists cs, records (subarray (contents h) (offset s) (size h)) cs /\ accepts s cs.

Lemma png_next_offset s c s' :
  png_next s c = Some s' -> offset s' = offset s + (12 + len (cdata c)).
Proof.
  unfold png_next. case_match; [done|]. intros ([[si ct] bd] & _ & Hn)%bind_Some.
  repeat (case_match; [done|]). by injection Hn as <-.
Qed.

Lemma len_zero l : len l = 0 <-> l = [].
Proof. split; [|by intros ->]. intros H. apply nil_length_inv. by apply (len_length l 0). Qed.

(** What one turn does to the acceptance of the rest of the file. *)
Lemma png_outcome_spec h s :
  0 <= offset s < size h -> chunkCount s < PNG_MAX_CHUNKS ->
  match png_outcome s (decode_chunk (subarray (contents h) (offset s) (size h))) with
  | Return b => b = true <-> accepted_from h s
  | Continue s' => offset s < offset s' <= size h /\ (accepted_from h s <-> accepted_from h s')
  end.
Proof.
  intros Ho Hn. pose proof (decode_at h (offset s) ltac:(lia)) as Hd. cbv zeta in Hd.
  set (l := subarray (contents h) (offset s) (size h)) in *.
  assert (Hb : Forall is_byte l) by apply Forall_subarray, contents_bytes.
  assert (Hlen : len l = size h - offset s) by (apply len_rest; lia).
  unfold accepted_from. fold l. destruct (decode_chunk l) as [[c r]|] eqn:Hdec; cbn [png_outcome].
  - destruct Hd as (_ & _ & _ & _ & _ & Hend & Hr). pose proof (len_nonneg r).
    pose proof (len_nonneg (cdata c)).
    assert (Hcons : (exists cs, records l cs /\ accepts s cs) <->
      exists cs, records r cs /\ accepts s (c :: cs)).
    { split.
      - intros (cs & Hrec & Hacc). apply (records_cons (H := chunk_codec) l r c cs Hb Hdec) in Hrec as (cs' & -> & Hrec).
        eauto.
      - intros (cs & Hrec & Hacc). exists (c :: cs). split; [|done].
        apply (records_cons (H := chunk_codec) l r c _ Hb Hdec). eauto. }
    destruct (decide (chunk_ok c)) as [Hok|Hok].
    2: { split; [done|]. by intros (cs & _ & _ & ? & _)%Hcons. }
    destruct (png_next s c) as [s'|] eqn:Hs'.
    2: { split; [done|]. intros (cs & _ & _ & _ & Hx)%Hcons. by rewrite Hs' in Hx. }
    destruct (decide (ctype c = IEND)) as [HI|HI].
    + rewrite Hcons. cbn [accepts]. rewrite Hs'.
      setoid_rewrite (decide_True _ _ HI).
      rewrite !andb_true_iff, !Z.eqb_eq, !len_zero. split.
      * intros [[-> ?] ->]. exists []. by rewrite records_nil.
      * intros (cs & Hrec & _ & _ & -> & ? & ->). destruct Hrec as [-> _]. done.
    + rewrite Hcons. cbn [accepts]. rewrite Hs'.
      setoid_rewrite (decide_False _ _ HI).
      apply png_next_offset in Hs'. split; [lia|]. rewrite Hs', <- Hr.
      split; intros (cs & ? & ?); exists cs; intuition.
  - split; [done|]. intros (cs & Hrec & _). eapply records_undecodable in Hrec; [done|exact Hdec|].
    intros E. rewrite E in Hlen. change (len []) with 0 in Hlen. lia.
Qed.

Lemma png_loop_spec h s fuel :
  0 <= offset s <= size h -> (Z.to_nat (size h - offset s) < fuel)%nat ->
  exists b,
    (out ← while fuel (fun s => (offset s <? size h) && (chunkCount s <? PNG_MAX_CHUNKS))
             (png_body h) s;
     afterwards out (fun _ => Ok false)) = Ok b /\ (b = true <-> accepted_from h s).
Proof.
  intros Ho Hf.
  destruct (while_total (fun s => (offset s <? size h) && (chunkCount s <? PNG_MAX_CHUNKS))
    (png_body h) (fun t => 0 <= offset t <= size h /\ (accepted_from h s <-> accepted_from h t))
    (fun t => Z.to_nat (size h - offset t)) (fun b => b = true <-> accepted_from h s))
    with (fuel := fuel) (s := s) as (out & -> & Hout); [|done|done|].
  - intros t [Ht Hiff] [Hlt%Z.ltb_lt Hn%Z.ltb_lt]%andb_true_iff.
    rewrite png_body_spec by lia. eexists. split; [done|].
    pose proof (png_outcome_spec h t ltac:(lia) Hn) as Hstep.
    destruct (png_outcome _ _) as [s'|b]; rewrite Hiff; [|done].
    destruct Hstep as [Hoff Hst]. split; [split; [lia|done]|lia].
  - cbn. destruct out as [t|b]; cbn; [|eauto]. eexists. split; [done|].
    destruct Hout as [[Ht Hiff] Hc]. rewrite Hiff. split; [done|]. intros (cs & Hrec & Hacc).
    destruct cs as [|c cs]; [done|]. destruct Hacc as [Hn _].
    apply andb_false_iff in Hc. rewrite !Z.ltb_ge in Hc. destruct Hc; [|lia].
    replace (offset t) with (size h) in Hrec by lia. rewrite subarray_nil in Hrec.
    by apply records_nil in Hrec.
Qed.

(** ** The grammar of an accepted file *)
Definition ancillary (c : chunk) : Prop := ctype c ∉ PNG_CRITICAL_CHUNKS.
Definition palette_ok (ct bd : Z) (c : chunk) : Prop :=
  0 < len (cdata c) <= 768 /\ len (cdata c) mod 3 = 0 /\
  ct <> PNG_COLOR_GRAYSCALE /\ ct <> PNG_COLOR_GRAYSCALE_ALPHA /\
  (ct = PNG_COLOR_INDEXED -> len (cdata c) / 3 <= 2 ^ bd).
Definition closing (c : chunk) (cs : list chunk) : Prop :=
  ctype c = IEND /\ cdata c = [] /\ cs = [].

(** After the image data: ancillary chunks, then [IEND]. *)
Fixpoint after_data (n : Z) (cs : list chunk) : Prop :=
  match cs with
  | [] => False
  | c :: cs' => n < PNG_MAX_CHUNKS /\ chunk_ok c /\
      (closing c cs' \/ ancillary c /\ after_data (n + 1) cs')
  end.
(** Inside the image data. *)
Fixpoint in_data (n : Z) (cs : list chunk) : Prop :=
  match cs with
  | [] => False
  | c :: cs' => n < PNG_MAX_CHUNKS /\ chunk_ok c /\
      (closing c cs' \/ ancillary c /\ after_data (n + 1) cs' \/ ctype c = IDAT /\ in_data (n + 1) cs')
  end.
(** Between the header and the image data; [p]: a palette was seen. *)
Fixpoint before_data (ct bd : Z) (p : bool) (n : Z) (cs : list chunk) : Prop :=
  match cs with
  | [] => False
  | c :: cs' => n < PNG_MAX_CHUNKS /\ chunk_ok c /\
      (ctype c = PLTE /\ p = false /\ palette_ok ct bd c /\ before_data ct bd true (n + 1) cs' \/
       ancillary c /\ before_data ct bd p (n + 1) cs' \/
       ctype c = IDAT /\ (ct = PNG_COLOR_INDEXED -> p = true) /\ in_data (n + 1) cs')
  end.

Lemma type_cases c :
  ctype c = IHDR \/ ctype c = PLTE \/ ctype c = IDAT \/ ctype c = IEND \/ ancillary c.
Proof.
  unfold ancillary, PNG_CRITICAL_CHUNKS. rewrite !not_elem_of_cons.
  destruct (decide (ctype c = IHDR)), (decide (ctype c = PLTE)), (decide (ctype c = IDAT)),
    (decide (ctype c = IEND)); auto. do 4 right. repeat split; try done. apply not_elem_of_nil.
Qed.

Lemma ancillary_ne c :
  ancillary c -> ctype c <> IHDR /\ ctype c <> PLTE /\ ctype c <> IDAT /\ ctype c <> IEND.
Proof. unfold ancillary, PNG_CRITICAL_CHUNKS. rewrite !not_elem_of_cons. tauto. Qed.

(** The state after the header, with a color type and a bit depth. *)
Record running (s : PngState) (n ct bd : Z) : Prop := {
  run_count : chunkCount s = n; run_pos : 0 < n; run_ihdr : seenIhdr s = true;
  run_ct : colorType s = Some ct; run_bd : bitDepth s = Some bd
}.

Lemma png_next_running s n ct bd c :
  running s n ct bd ->
  png_next s c =
    if decide (ctype c = IHDR) then None else
    if bool_decide (ctype c = PLTE) && plte_refused s (Some ct) (Some bd) (len (cdata c)) then None else
    if bool_decide (ctype c = IDAT) && (idatClosed s || ((ct =? PNG_COLOR_INDEXED) &&
         negb (seenPlte s || bool_decide (ctype c = PLTE)))) then None else
    Some {| offset := offset s + (12 + len (cdata c)); chunkCount := n + 1;
            seenIhdr := true; seenPlte := seenPlte s || bool_decide (ctype c = PLTE);
            seenIdat := seenIdat s || bool_decide (ctype c = IDAT);
            idatClosed := idatClosed s || (negb (bool_decide (ctype c = IDAT)) && seenIdat s &&
                            negb (bool_decide (ctype c = IEND)));
            colorType := Some ct; bitDepth := Some bd |}.
Proof.
  intros [Hn Hp Hi Hc Hb]. unfold png_next, ihdr_next. rewrite Hn, Hi, Hc, Hb.
  rewrite (proj2 (Z.eqb_neq _ _)) by lia. cbn [andb orb negb].
  destruct (decide (ctype c = IHDR)); [done|]. cbn [mbind option_bind].
  replace (bool_decide (Some ct = Some PNG_COLOR_INDEXED)) with (ct =? PNG_COLOR_INDEXED); [done|].
  apply eq_true_iff_eq. rewrite Z.eqb_eq, bool_decide_eq_true. split; congruence.
Qed.

Lemma plte_refused_spec s ct bd c :
  plte_refused s (Some ct) (Some bd) (len (cdata c)) = false <->
  seenPlte s = false /\ seenIdat s = false /\ palette_ok ct bd c.
Proof.
  unfold plte_refused, palette_ok. pose proof (len_nonneg (cdata c)).
  rewrite !orb_false_iff, andb_false_iff, !bool_decide_eq_false, negb_false_iff, !Z.eqb_eq,
    Z.eqb_neq, !Z.ltb_ge.
  assert (Hs : forall x y : Z, Some x <> Some y <-> x <> y) by (intros; split; congruence).
  rewrite !Hs. destruct (Z.eq_dec ct PNG_COLOR_INDEXED); intuition lia.
Qed.

(** Settle the comparisons of chunk types. *)
Ltac types :=
  cbn [andb orb negb]; repeat (match goal with
  | |- context [bool_decide (?a = ?b)] =>
      first [rewrite (bool_decide_true (a = b)) by (reflexivity || assumption)
            |rewrite (bool_decide_false (a = b)) by (assumption || discriminate)]
  | |- context [decide (?a = ?b)] =>
      first [rewrite (decide_True (P := (a = b))) by (reflexivity || assumption)
            |rewrite (decide_False (P := (a = b))) by (assumption || discriminate)]
  end; cbn [andb orb negb]).

(** The five kinds of chunk exclude each other. *)
Lemma types_distinct :
  IEND <> IHDR /\ IEND <> PLTE /\ IEND <> IDAT /\ PLTE <> IHDR /\ PLTE <> IDAT /\ IDAT <> IHDR.
Proof. repeat split; discriminate. Qed.

Lemma critical_not_ancillary c :
  ctype c = IHDR \/ ctype c = PLTE \/ ctype c = IDAT \/ ctype c = IEND -> ~ ancillary c.
Proof. intros H Ha%ancillary_ne. tauto. Qed.

(** Case analysis on the kind of [c], with everything that follows from it. *)
Ltac chunk_cases c :=
  pose proof types_distinct as (? & ? & ? & ? & ? & ?);
  let E := fresh "E" in
  destruct (type_cases c) as [E|[E|[E|[E|E]]]];
  first [pose proof (critical_not_ancillary c ltac:(tauto))
        |pose proof (ancillary_ne c E) as (? & ? & ? & ?)];
  try (rewrite !E); types.
Ltac chunk_done := repeat match goal with H : _ <-> _ |- _ => clear H | H : forall _, _ |- _ => clear H end;
  intuition congruence.

Lemma after_data_spec s n ct bd cs :
  running s n ct bd -> seenIdat s = true -> idatClosed s = true ->
  accepts s cs <-> after_data n cs.
Proof.
  revert s n. induction cs as [|c cs IH]; intros s n Hrun Hi Hcl; [done|].
  cbn [accepts after_data]. rewrite (png_next_running s n ct bd) by done.
  pose proof (plte_refused_spec s ct bd c) as Hp. pose proof (run_pos s n ct bd Hrun).
  rewrite (run_count s n ct bd) by done. rewrite Hi, Hcl in *. unfold closing.
  chunk_cases c.
  - chunk_done.
  - destruct (plte_refused _ _ _ _); [chunk_done|].
    apply proj1 in Hp. specialize (Hp eq_refl). intuition congruence.
  - chunk_done.
  - cbn [seenIdat orb]. types. chunk_done.
  - types; rewrite (IH _ (n + 1)) by (try constructor; cbn; (done || lia)).
    chunk_done.
Qed.

Lemma in_data_spec s n ct bd cs :
  running s n ct bd -> seenIdat s = true -> idatClosed s = false ->
  (ct = PNG_COLOR_INDEXED -> seenPlte s = true) ->
  accepts s cs <-> in_data n cs.
Proof.
  revert s n. induction cs as [|c cs IH]; intros s n Hrun Hi Hcl Hpal; [done|].
  cbn [accepts in_data]. rewrite (png_next_running s n ct bd) by done.
  pose proof (plte_refused_spec s ct bd c) as Hp. pose proof (run_pos s n ct bd Hrun).
  rewrite (run_count s n ct bd) by done. rewrite Hi, Hcl in *. unfold closing.
  chunk_cases c.
  - chunk_done.
  - destruct (plte_refused _ _ _ _); [chunk_done|].
    apply proj1 in Hp. specialize (Hp eq_refl). intuition congruence.
  - rewrite orb_false_r. destruct (Z.eqb_spec ct PNG_COLOR_INDEXED) as [Hct|Hct]; cbn [andb negb].
    + rewrite Hpal by done. cbn [negb].
      types; rewrite (IH _ (n + 1)) by (try constructor; cbn; (done || lia || by rewrite Hpal)).
      chunk_done.
    + types; rewrite (IH _ (n + 1)) by (try constructor; cbn; (done || lia)). chunk_done.
  - cbn [seenIdat orb]. types. chunk_done.
  - types; rewrite (after_data_spec _ (n + 1) ct bd)
      by (try constructor; cbn; (done || lia)). chunk_done.
Qed.

Lemma before_data_spec s n ct bd cs :
  running s n ct bd -> seenIdat s = false -> idatClosed s = false ->
  accepts s cs <-> before_data ct bd (seenPlte s) n cs.
Proof.
  revert s n. induction cs as [|c cs IH]; intros s n Hrun Hi Hcl; [done|].
  cbn [accepts before_data]. rewrite (png_next_running s n ct bd) by done.
  pose proof (plte_refused_spec s ct bd c) as Hp. pose proof (run_pos s n ct bd Hrun).
  rewrite (run_count s n ct bd) by done. rewrite Hi, Hcl in *. unfold closing.
  chunk_cases c.
  - chunk_done.
  - destruct (plte_refused _ _ _ _) eqn:Er; [clear IH; intuition congruence|].
    types; rewrite (IH _ (n + 1)) by (try constructor; cbn; (done || lia)). cbn [seenPlte].
    rewrite orb_true_r. clear IH; intuition congruence.
  - rewrite orb_false_r. destruct (Z.eqb_spec ct PNG_COLOR_INDEXED) as [Hct|Hct]; cbn [andb negb].
    + destruct (seenPlte s) eqn:Es; cbn [negb]; [|chunk_done].
      types; rewrite (in_data_spec _ (n + 1) ct bd) by (try constructor; cbn; (done || lia)).
      chunk_done.
    + types; rewrite (in_data_spec _ (n + 1) ct bd) by (try constructor; cbn; (done || lia)).
      chunk_done.
  - cbn [seenIdat orb]. types. chunk_done.
  - types; rewrite (IH _ (n + 1))
      by (try constructor; cbn; (done || lia)). cbn [seenPlte]. rewrite orb_false_r.
    chunk_done.
Qed.

(** ** From the grammar to whole sequences *)
Definition is_type (t : list Z) (c : chunk) : Prop := ctype c = t.
#[export] Instance is_type_dec t c : Decision (is_type t c).
Proof. unfold is_type. apply _. Defined.
Definition fits (n : Z) (cs : list chunk) : Prop :=
  n + Z.of_nat (length cs) <= PNG_MAX_CHUNKS /\ Forall chunk_ok cs.
Definition final_chunk (c : chunk) : Prop := ctype c = IEND /\ cdata c = [].

Lemma fits_cons n c cs :
  fits n (c :: cs) <-> n + Z.of_nat (length (c :: cs)) <= PNG_MAX_CHUNKS /\ chunk_ok c /\ fits (n + 1) cs.
Proof. unfold fits. rewrite Forall_cons. cbn [length]. intuition (done || lia || by constructor). Qed.

Lemma after_data_iff n cs :
  after_data n cs <-> exists anc fin,
    cs = anc ++ [fin] /\ fits n cs /\ Forall ancillary anc /\ final_chunk fin.
Proof.
  revert n. induction cs as [|c cs IH]; intros n; cbn [after_data].
  { split; [done|]. intros (anc & fin & E & _). by destruct anc. }
  rewrite IH. setoid_rewrite (fits_cons n c cs). unfold closing, final_chunk. split.
  - intros (Hn & Hok & [(Ht & Hd & ->)|(Ha & anc & fin & -> & [Hf1 Hf2] & Hanc & Hfin)]).
    + exists [], c. cbn. unfold fits. cbn. intuition (done || lia || by constructor).
    + exists (c :: anc), fin. rewrite Forall_cons. cbn [length] in *. unfold fits. intuition (done || lia || by constructor).
  - intros (anc & fin & E & (Hl & Hok & Hf) & Hanc & Hfin). cbn [length] in Hl.
    split; [lia|]. split; [done|]. destruct anc as [|a anc]; injection E as -> ->; [left; tauto|].
    right. apply Forall_cons in Hanc as [Ha Hanc]. split; [done|]. by exists anc, fin.
Qed.

Lemma in_data_iff n cs :
  in_data n cs <-> exists idats anc fin,
    cs = idats ++ anc ++ [fin] /\ fits n cs /\ Forall (is_type IDAT) idats /\
    Forall ancillary anc /\ final_chunk fin.
Proof.
  revert n. induction cs as [|c cs IH]; intros n; cbn [in_data].
  { split; [done|]. intros (ids & anc & fin & E & _). by destruct ids, anc. }
  rewrite IH, after_data_iff. setoid_rewrite (fits_cons n c cs). unfold closing, final_chunk. split.
  - intros (Hn & Hok & [(Ht & Hd & ->)|[(Ha & anc & fin & -> & [Hf1 Hf2] & Hanc & Hfin)
      |(Ht & ids & anc & fin & -> & [Hf1 Hf2] & Hids & Hanc & Hfin)]]).
    + exists [], [], c. cbn. unfold fits. cbn. intuition (done || lia || by constructor).
    + exists [], (c :: anc), fin. rewrite Forall_cons. cbn [length app] in *. unfold fits. intuition (done || lia || by constructor).
    + exists (c :: ids), anc, fin. rewrite Forall_cons. cbn [length app] in *. unfold fits, is_type.
      intuition (done || lia || by constructor).
  - intros (ids & anc & fin & E & (Hl & Hok & Hf) & Hids & Hanc & Hfin). cbn [length] in Hl.
    split; [lia|]. split; [done|]. destruct ids as [|i ids].
    + destruct anc as [|a anc]; injection E as -> ->; [left; tauto|].
      right. left. apply Forall_cons in Hanc as [Ha Hanc]. split; [done|]. by exists anc, fin.
    + injection E as -> ->. right. right. apply Forall_cons in Hids as [Hi Hids].
      split; [done|]. by exists ids, anc, fin.
Qed.

(** The palettes among the chunks before the image data; [p]: one was already seen. *)
Definition palettes_ok (ct bd : Z) (p : bool) (before : list chunk) : Prop :=
  let ps := filter (is_type PLTE) before in
  (length ps <= if p then 0 else 1)%nat /\ Forall (palette_ok ct bd) ps /\
  (ct = PNG_COLOR_INDEXED -> p = true \/ ps <> []).

Lemma before_data_iff ct bd p n cs :
  before_data ct bd p n cs <-> exists before idats anc fin,
    cs = before ++ idats ++ anc ++ [fin] /\ fits n cs /\
    Forall (fun c => is_type PLTE c \/ ancillary c) before /\ palettes_ok ct bd p before /\
    idats <> [] /\ Forall (is_type IDAT) idats /\ Forall ancillary anc /\ final_chunk fin.
Proof.
  revert p n. induction cs as [|c cs IH]; intros p n; cbn [before_data].
  { split; [done|]. intros (bs & ids & anc & fin & E & _). by destruct bs, ids, anc. }
  rewrite !IH, in_data_iff. setoid_rewrite (fits_cons n c cs). split.
  - intros (Hn & Hok & [(Ht & -> & Hp & bs & ids & anc & fin & -> & [Hf1 Hf2] & Hbs & Hps & Hrest)
      |[(Ha & bs & ids & anc & fin & -> & [Hf1 Hf2] & Hbs & Hps & Hrest)
      |(Ht & Hpal & ids & anc & fin & -> & [Hf1 Hf2] & Hids & Hrest)]]).
    + exists (c :: bs), ids, anc, fin. cbn [length app] in *. rewrite Forall_cons.
      unfold palettes_ok in *. rewrite filter_cons_True by done. rewrite Forall_cons.
      cbn [length]. destruct Hps as (Hps1 & Hps2 & Hps3). unfold fits.
      split; [done|]. split; [split; [lia|done]|]. split; [by split; [left|]|]. split; [|tauto].
      split; [lia|]. split; [done|]. by right.
    + exists (c :: bs), ids, anc, fin. cbn [length app] in *. rewrite Forall_cons.
      unfold palettes_ok. rewrite filter_cons_False by (apply ancillary_ne in Ha; unfold is_type; tauto).
      unfold fits. split; [done|]. split; [split; [lia|done]|]. split; [by split; [right|]|].
      split; [exact Hps|tauto].
    + exists [], (c :: ids), anc, fin. cbn [length app] in *. rewrite Forall_cons, Forall_nil.
      unfold palettes_ok, fits. cbn [filter list_filter length].
      split; [done|]. split; [split; [lia|done]|]. split; [done|].
      split; [split; [lia|]; split; [done|]; intros Hct; left; by apply Hpal|].
      split; [done|]. split; [by split|tauto].
  - intros (bs & ids & anc & fin & E & (Hl & Hok & Hf) & Hbs & Hps & Hne & Hids & Hanc & Hfin).
    cbn [length] in Hl. split; [lia|]. split; [done|]. destruct bs as [|b bs].
    + destruct ids as [|i ids]; [done|]. injection E as -> ->. right. right.
      apply Forall_cons in Hids as [Hi Hids]. destruct Hps as (_ & _ & Hps).
      split; [done|]. split; [intros Hct; by destruct (Hps Hct)|]. by exists ids, anc, fin.
    + injection E as -> ->. apply Forall_cons in Hbs as [[Hb|Hb] Hbs]; unfold palettes_ok in Hps.
      * rewrite filter_cons_True in Hps by done. destruct Hps as (Hp1 & Hp2 & Hp3).
        apply Forall_cons in Hp2 as [Hp2 Hp2']. left. split; [done|].
        destruct p; cbn [length] in Hp1; [lia|]. split; [done|]. split; [done|].
        exists bs, ids, anc, fin. unfold palettes_ok. intuition (done || lia || by constructor).
      * rewrite filter_cons_False in Hps by (apply ancillary_ne in Hb; unfold is_type; tauto).
        right. left. split; [done|]. exists bs, ids, anc, fin. by unfold palettes_ok.
Qed.

(** A complete stream of chunks: a header, then palettes and ancillary chunks, the image
    data in one run, ancillary chunks, and the end. *)
Definition png_stream (cs : list chunk) : Prop :=
  exists hdr before idats anc fin,
    cs = hdr :: before ++ idats ++ anc ++ [fin] /\
    Z.of_nat (length cs) <= PNG_MAX_CHUNKS /\ Forall chunk_ok cs /\
    ctype hdr = IHDR /\ valid_ihdr (cdata hdr) /\
    Forall (fun c => is_type PLTE c \/ ancillary c) before /\
    palettes_ok (at0 (cdata hdr) 9) (at0 (cdata hdr) 8) false before /\
    idats <> [] /\ Forall (is_type IDAT) idats /\ Forall ancillary anc /\ final_chunk fin.

Lemma idx_at0 l i : 0 <= i < len l -> idx l i = Some (at0 l i).
Proof. intros H. unfold at0. by destruct (idx_in l i H) as [x ->]. Qed.

Lemma png_next_start c :
  png_next png_start c =
    if decide (ctype c = IHDR /\ valid_ihdr (cdata c)) then
      Some {| offset := 8 + (12 + len (cdata c)); chunkCount := 1; seenIhdr := true; seenPlte := false;
              seenIdat := false; idatClosed := false;
              colorType := Some (at0 (cdata c) 9); bitDepth := Some (at0 (cdata c) 8) |}
    else None.
Proof.
  unfold png_next, ihdr_next. change (chunkCount png_start =? 0) with true.
  change (seenIhdr png_start) with false. cbn [andb orb].
  destruct (decide (ctype c = IHDR)) as [Ht|Ht].
  - rewrite bool_decide_true by done. cbn [negb].
    destruct (decide (valid_ihdr (cdata c))) as [Hv|Hv].
    + rewrite (bool_decide_true _ Hv). cbn [negb mbind option_bind].
      rewrite (decide_True _ _ (conj Ht Hv)), !Ht. types. destruct Hv as [H13 _]. rewrite !idx_at0 by lia. done.
    + rewrite (bool_decide_false _ Hv). cbn [negb]. by rewrite decide_False by tauto.
  - rewrite (bool_decide_false _ Ht). cbn [negb]. by rewrite decide_False by tauto.
Qed.

Lemma accepts_png_start cs : accepts png_start cs <-> png_stream cs.
Proof.
  destruct cs as [|c cs].
  { split; [done|]. by intros (? & ? & ? & ? & ? & ? & _). }
  cbn [accepts]. rewrite png_next_start.
  destruct (decide (ctype c = IHDR /\ valid_ihdr (cdata c))) as [[Ht Hv]|Hn].
  - rewrite Ht. types.
    rewrite (before_data_spec _ 1 (at0 (cdata c) 9) (at0 (cdata c) 8)) by (try constructor; cbn; (done || lia)).
    cbn [seenPlte]. rewrite before_data_iff. split.
    + intros (_ & Hok & bs & ids & anc & fin & -> & [Hl Hf] & Hrest).
      exists c, bs, ids, anc, fin. split; [done|]. cbn [length] in *.
      split; [lia|]. split; [by constructor|]. tauto.
    + intros (hdr & bs & ids & anc & fin & [= <- ->] & Hl & [Hok Hf]%Forall_cons & _ & _ & Hrest).
      split; [done|]. split; [done|]. exists bs, ids, anc, fin. split; [done|].
      cbn [length] in Hl. split; [split; [lia|done]|tauto].
  - split; [tauto|]. intros (hdr & bs & ids & anc & fin & [= <- ->] & _ & _ & Ht & Hv & _). tauto.
Qed.

(** What [matchesPngStructure] promises: the file is the PNG signature followed by exactly one
    complete stream of chunks. *)
Definition is_png (h : FileHandle) : Prop :=
  isFile h = true /\
  exists cs, png_stream cs /\ Forall wf_chunk cs /\
    contents h = PNG_SIGNATURE ++ concat (encode_chunk <$> cs).

Lemma png_stream_nonempty cs : png_stream cs -> cs <> [].
Proof. intros (? & ? & ? & ? & ? & -> & _). done. Qed.

Lemma is_png_size h : is_png h -> 20 <= size h.
Proof.
  intros (_ & cs & Hs & Hwf & Hc). unfold size. rewrite Hc, len_app.
  destruct Hs as (hdr & bs & ids & anc & fin & -> & _). apply Forall_cons in Hwf as [(Ht & Hn & Hcrc & _) _].
  rewrite fmap_cons. cbn [concat]. unfold encode_chunk at 1. rewrite !len_app, (len_bytesBE 4), Ht, Hcrc.
  pose proof (len_nonneg (cdata hdr)). change (len PNG_SIGNATURE) with 8.
  pose proof (len_nonneg (concat (encode_chunk <$> bs ++ ids ++ anc ++ [fin]))). lia.
Qed.

Lemma matchesPngStructure_spec h :
  exists b, matchesPngStructure h = Ok b /\ (b = true <-> is_png h).
Proof.
  unfold matchesPngStructure. change (len PNG_SIGNATURE) with 8.
  destruct (isFile h) eqn:Hf; cbn [negb orb].
  2: { rejects. intros [? _]. congruence. }
  destruct (Z.ltb_spec (size h) (8 + 12)).
  { rejects. intros ?%is_png_size. lia. }
  rewrite readExactly_spec by done. cbn [mbind exec_bind].
  rewrite read_at_some by (unfold size in *; lia). change (0 + 8) with 8.
  assert (Hsplit : contents h = subarray (contents h) 0 8 ++ subarray (contents h) 8 (size h)).
  { rewrite <- subarray_split by (unfold size in *; lia). symmetry. apply subarray_all. }
  destruct (decide (subarray (contents h) 0 8 = PNG_SIGNATURE)) as [Hsig|Hsig].
  - rewrite bool_decide_true by congruence. cbn [negb].
    destruct (png_loop_spec h png_start (S (Z.to_nat (size h)))) as (b & -> & Hb);
      [change (offset png_start) with 8; lia|change (offset png_start) with 8; lia|].
    exists b. split; [done|]. rewrite Hb. unfold accepted_from, is_png.
    change (offset png_start) with 8. setoid_rewrite accepts_png_start. split.
    + intros (cs & [Hr Hwf] & Hs). split; [done|]. exists cs. split; [done|]. split; [done|].
      rewrite Hsplit, Hsig. f_equal. exact Hr.
    + intros (_ & cs & Hs & Hwf & Hc). exists cs. split; [|done]. split; [|done].
      rewrite Hsplit, Hsig in Hc. apply app_inv_head in Hc. exact Hc.
  - rewrite bool_decide_false by congruence. cbn [negb]. rejects.
    intros (_ & cs & _ & _ & Hc). destruct Hsig. rewrite Hc. change 8 with (len PNG_SIGNATURE) at 1.
    rewrite subarray_app_l by (change (len PNG_SIGNATURE) with 8; lia). apply subarray_all.
Qed.

(** [matchesPngStructure] terminates without an exception on every file, however the
    kernel splits the reads, and returns [true] exactly for the regular files made of the PNG
    signature and one well-formed stream of at most 10000 chunks: an IHDR with legal
    dimensions and depth first, at most one palette that fits the color type (and one when
    the image is indexed), one uninterrupted run of IDAT, IEND last with nothing after it,
    every type spelled in letters, no unknown critical chunk and every CRC-32 correct. *)
Theorem matchesPngStructure_correct h :
  exists b, matchesPngStructure h = Ok b /\ (b = true <-> is_png h).
Proof. apply matchesPngStructure_spec. Qed.
