(* ===== verification/Jpeg.v ===== *)
(** JPEG images: [matchesJpegStructure] and its helpers of [media-image-structure.ts].
    The scanner walks the marker segments up to the start of the scan; the theorem says
    which files have such a header. *)
From stdpp Require Import prelude list.
From Stdlib Require Import ZArith Lia.
From S2P Require Import Prelude Buffers FileHandle Codec.
#[local] Open Scope Z_scope.

Definition JPEG_SOI := [0xff; 0xd8].
Definition JPEG_EOI := [0xff; 0xd9].
Definition JPEG_MAX_HEADER_MARKERS := 1024.
Definition JPEG_SOS := 0xda.
Definition JPEG_EOI_MARKER := 0xd9.
Definition JPEG_TEM := 0x01.
Definition JPEG_RST_MIN := 0xd0.
Definition JPEG_RST_MAX := 0xd7.

Record JpegMarker := { code : Z; nextOffset : Z }.

Definition marker_body (h : FileHandle) (offset : Z) : parser (flow Z (option JpegMarker)) :=
  let? byte := readExactly h 1 offset else Ok (Return None) in
  if at0 byte 0 =? 0xff then Ok (Continue (offset + 1)) else
  if at0 byte 0 =? 0x00 then Ok (Return None) else
  Ok (Return (Some {| code := at0 byte 0; nextOffset := offset + 1 |})).

Definition readJpegMarker (h : FileHandle) (startOffset fileSize : Z) : parser (option JpegMarker) :=
  let? first := readExactly h 1 startOffset else Ok None in
  if negb (at0 first 0 =? 0xff) then Ok None else
  out ← while (S (Z.to_nat fileSize)) (fun offset => offset <? fileSize) (marker_body h) startOffset;
  afterwards out (fun _ => Ok None).

Definition isStandaloneJpegMarker (code : Z) : bool :=
  (code =? JPEG_TEM) || ((JPEG_RST_MIN <=? code) && (code <=? JPEG_RST_MAX)).

Definition isStartOfFrameMarker (code : Z) : bool :=
  ((0xc0 <=? code) && (code <=? 0xc3)) || ((0xc5 <=? code) && (code <=? 0xc7)) ||
  ((0xc9 <=? code) && (code <=? 0xcb)) || ((0xcd <=? code) && (code <=? 0xcf)).

Definition validateJpegStartOfFrame (h : FileHandle) (lengthOffset segmentLength : Z) : parser bool :=
  if segmentLength <? 8 then Ok false else
  let? fixed := readExactly h 8 lengthOffset else Ok false in
  height ← readUInt16BE fixed 3;
  width ← readUInt16BE fixed 5;
  let components := at0 fixed 7 in
  Ok ((0 <? width) && (0 <? height) && (0 <? components) && (segmentLength =? 8 + components * 3)).

Definition validateJpegStartOfScan (h : FileHandle) (lengthOffset segmentLength : Z) : parser bool :=
  if segmentLength <? 8 then Ok false else
  let? prefix := readExactly h 3 lengthOffset else Ok false in
  let components := at0 prefix 2 in
  Ok ((0 <? components) && (segmentLength =? 6 + components * 2)).

Record JpegState := { offset : Z; markerCount : Z; foundStartOfFrame : bool }.

(** [if (isStartOfFrameMarker(code)) ...]: [foundStartOfFrame] afterwards, or [None]. *)
Definition check_sof (h : FileHandle) (s : JpegState) (code offset segmentLength : Z)
    : parser (option bool) :=
  if isStartOfFrameMarker code then
    valid ← validateJpegStartOfFrame h offset segmentLength;
    Ok (if negb valid then None else Some true)
  else Ok (Some (foundStartOfFrame s)).

Definition jpeg_body (h : FileHandle) (s : JpegState) : parser (flow JpegState bool) :=
  let? marker := readJpegMarker h (offset s) (size h) else Ok (Return false) in
  let offset1 := nextOffset marker in
  let markerCount1 := markerCount s + 1 in
  if code marker =? JPEG_EOI_MARKER then Ok (Return false) else
  if isStandaloneJpegMarker (code marker) then
    Ok (Continue {| offset := offset1; markerCount := markerCount1;
                    foundStartOfFrame := foundStartOfFrame s |}) else
  let? lengthBytes := readExactly h 2 offset1 else Ok (Return false) in
  segmentLength ← readUInt16BE lengthBytes 0;
  if (segmentLength <? 2) || (size h - len JPEG_EOI <? offset1 + segmentLength)
  then Ok (Return false) else
  let? sof := check_sof h s (code marker) offset1 segmentLength else Ok (Return false) in
  if code marker =? JPEG_SOS then
    if negb sof then Ok (Return false) else
    valid ← validateJpegStartOfScan h offset1 segmentLength;
    Ok (Return (valid && (offset1 + segmentLength <? size h - len JPEG_EOI)))
  else Ok (Continue {| offset := offset1 + segmentLength; markerCount := markerCount1;
                       foundStartOfFrame := sof |}).

Definition matchesJpegStructure (h : FileHandle) : parser bool :=
  if negb (isFile h) || (size h <? 12) then Ok false else
  first ← readExactly h (len JPEG_SOI) 0;
  last ← readExactly h (len JPEG_EOI) (size h - len JPEG_EOI);
  if negb (bool_decide (first = Some JPEG_SOI)) || negb (bool_decide (last = Some JPEG_EOI))
  then Ok false else
  out ← while (S (Z.to_nat (size h)))
          (fun s => (offset s <? size h - len JPEG_EOI) && (markerCount s <? JPEG_MAX_HEADER_MARKERS))
          (jpeg_body h) {| offset := len JPEG_SOI; markerCount := 0; foundStartOfFrame := false |};
  afterwards out (fun _ => Ok false).

(** ** Marker segments *)
Record segment := { fill : nat; scode : Z; payload : option (list Z) }.

(** A marker: one or more 0xff bytes and a code; then, unless the code stands alone, a
    big-endian length (which counts itself) and that many bytes. *)
Definition encode_segment (s : segment) : list Z :=
  replicate (S (fill s)) 0xff ++ scode s ::
    match payload s with None => [] | Some p => bytesBE 2 (len p + 2) ++ p end.

Definition wf_segment (s : segment) : Prop :=
  is_byte (scode s) /\ scode s <> 0 /\ scode s <> 0xff /\ scode s <> JPEG_EOI_MARKER /\
  match payload s with
  | None => isStandaloneJpegMarker (scode s) = true
  | Some p => isStandaloneJpegMarker (scode s) = false /\ len p + 2 < 2 ^ 16 /\ Forall is_byte p
  end.

Fixpoint ff_run (l : list Z) : nat :=
  match l with b :: l' => if b =? 0xff then S (ff_run l') else O | [] => O end.

Definition decode_payload (c : Z) (l : list Z) : option (option (list Z) * list Z) :=
  if isStandaloneJpegMarker c then Some (None, l) else
  if len l <? 2 then None else
  let n := uintBE (subarray l 0 2) in
  if (n <? 2) || (len l <? n) then None else
  Some (Some (subarray l 2 n), drop (Z.to_nat n) l).

Definition decode_segment (l : list Z) : option (segment * list Z) :=
  match ff_run l with
  | O => None
  | S k =>
      match drop (S k) l with
      | [] => None
      | c :: l' =>
          if (c =? 0) || (c =? JPEG_EOI_MARKER) then None else
          '(p, r) ← decode_payload c l';
          Some ({| fill := k; scode := c; payload := p |}, r)
      end
  end.

Lemma ff_run_split l : l = replicate (ff_run l) 0xff ++ drop (ff_run l) l /\
  hd_error (drop (ff_run l) l) <> Some 0xff.
Proof.
  induction l as [|b l [IH1 IH2]]; [done|]. cbn [ff_run].
  destruct (Z.eqb_spec b 255) as [->|Hb]; cbn; [|split; congruence].
  split; [by f_equal|done].
Qed.

Lemma ff_run_app k c l : c <> 0xff -> ff_run (replicate k 0xff ++ c :: l) = k.
Proof.
  intros Hc. induction k as [|k IH]; cbn [replicate app ff_run].
  - by rewrite (proj2 (Z.eqb_neq _ _)).
  - by rewrite Z.eqb_refl, IH.
Qed.

Lemma decode_payload_sound c l p r :
  Forall is_byte l -> decode_payload c l = Some (p, r) ->
  l = match p with None => [] | Some p => bytesBE 2 (len p + 2) ++ p end ++ r /\
  match p with
  | None => isStandaloneJpegMarker c = true
  | Some p => isStandaloneJpegMarker c = false /\ len p + 2 < 2 ^ 16 /\ Forall is_byte p
  end.
Proof.
  unfold decode_payload. intros Hb. destruct (isStandaloneJpegMarker c); [by intros [= <- <-]|].
  destruct (Z.ltb_spec (len l) 2); [done|]. cbv zeta.
  pose proof (uintBE_range (subarray l 0 2)) as Hr. rewrite len_subarray in Hr by lia.
  change (256 ^ (2 - 0)) with (2 ^ 16) in Hr. specialize (Hr ltac:(by apply Forall_subarray)).
  assert (H2 : bytesBE 2 (uintBE (subarray l 0 2)) = subarray l 0 2).
  { rewrite <- (bytesBE_uintBE (subarray l 0 2)) at 2 by by apply Forall_subarray.
    f_equal. pose proof (len_subarray l 0 2). unfold len in *. lia. }
  set (n := uintBE (subarray l 0 2)) in *.
  destruct (Z.ltb_spec n 2), (Z.ltb_spec (len l) n); cbn [orb]; try done.
  intros [= <- <-]. rewrite len_subarray by lia. replace (n - 2 + 2) with n by lia.
  split; [|split; [done|]; split; [lia|by apply Forall_subarray]].
  rewrite H2, <- app_assoc, <- subarray_to_end by lia.
  rewrite <- !subarray_split by lia. symmetry. apply subarray_all.
Qed.

Lemma decode_payload_complete c p r :
  match p with
  | None => isStandaloneJpegMarker c = true
  | Some p => isStandaloneJpegMarker c = false /\ len p + 2 < 2 ^ 16 /\ Forall is_byte p
  end ->
  decode_payload c (match p with None => [] | Some p => bytesBE 2 (len p + 2) ++ p end ++ r) =
    Some (p, r).
Proof.
  unfold decode_payload. destruct p as [p|]; [|by intros ->]. intros (-> & Hn & _).
  pose proof (len_nonneg p). pose proof (len_nonneg r).
  set (hd := bytesBE 2 (len p + 2)). assert (Hhd : len hd = 2) by apply (len_bytesBE 2).
  rewrite <- app_assoc. rewrite !len_app. rewrite (proj2 (Z.ltb_ge _ _)) by lia.
  assert (Hn2 : uintBE hd = len p + 2) by (apply uintBE_bytesBE; change (Z.of_nat 2) with 2; lia).
  assert (E : subarray (hd ++ p ++ r) 0 2 = hd) by
    (rewrite subarray_app_l, <- Hhd by lia; apply subarray_all).
  rewrite E, Hn2.
  rewrite (proj2 (Z.ltb_ge (len p + 2) 2)), (proj2 (Z.ltb_ge _ (len p + 2))) by lia. cbn [orb].
  do 3 f_equal.
  - f_equal. rewrite <- Hhd, Z.add_comm. apply subarray_app_mid.
  - rewrite app_assoc. apply drop_app_length'. unfold len in *. rewrite length_app. lia.
Qed.

Lemma decode_segment_sound l s r :
  Forall is_byte l -> decode_segment l = Some (s, r) -> l = encode_segment s ++ r /\ wf_segment s.
Proof.
  intros Hb. unfold decode_segment. pose proof (ff_run_split l) as [Hl Hne].
  destruct (ff_run l) as [|k]; [done|]. destruct (drop (S k) l) as [|c l'] eqn:Hd; [done|].
  destruct (Z.eqb_spec c 0), (Z.eqb_spec c JPEG_EOI_MARKER); cbn [orb]; try done.
  intros ([p r'] & Hp & [= <- <-])%bind_Some. rewrite Hl in Hb.
  apply Forall_app in Hb as [_ [Hc Hb]%Forall_cons].
  apply decode_payload_sound in Hp as [Hl' Hw]; [|done].
  unfold encode_segment, wf_segment. cbn [fill scode payload]. rewrite Hl at 1.
  rewrite Hl' at 1. split; [by rewrite <- app_assoc|]. cbn in Hne. intuition congruence.
Qed.

Lemma decode_segment_complete s r :
  wf_segment s -> decode_segment (encode_segment s ++ r) = Some (s, r).
Proof.
  intros (Hc & H0 & Hff & He & Hp). unfold decode_segment, encode_segment.
  rewrite <- app_assoc, <- app_comm_cons, ff_run_app by done.
  rewrite drop_app_length' by by rewrite length_replicate.
  rewrite (proj2 (Z.eqb_neq _ 0)), (proj2 (Z.eqb_neq _ JPEG_EOI_MARKER)) by done. cbn [orb].
  rewrite decode_payload_complete by done. by destruct s.
Qed.

#[export] Program Instance segment_codec : Codec segment :=
  {| encode := encode_segment; decode := decode_segment; wf_record := wf_segment;
     decode_sound := decode_segment_sound; decode_complete := decode_segment_complete |}.
Next Obligation. done. Qed.

(** ** Scanning for a marker *)
Lemma file_rest_cons h off :
  0 <= off < size h ->
  subarray (contents h) off (size h) = at0 (contents h) off :: subarray (contents h) (off + 1) (size h).
Proof.
  intros Ho. rewrite (subarray_split _ off (off + 1)) by (unfold size in *; lia).
  by rewrite subarray_1 by (unfold size in *; lia).
Qed.

Lemma marker_body_spec h off :
  0 <= off < size h ->
  marker_body h off = Ok (let b := at0 (contents h) off in
    if b =? 0xff then Continue (off + 1) else
    if b =? 0 then Return None else Return (Some {| code := b; nextOffset := off + 1 |})).
Proof.
  intros Ho. unfold marker_body. rewrite or_else_read_ok by lia.
  rewrite subarray_1 by (unfold size in *; lia).
  change (at0 [at0 (contents h) off] 0) with (at0 (contents h) off). cbv zeta. by repeat case_match.
Qed.

Definition marker_at (off : Z) (l : list Z) : flow Z (option JpegMarker) :=
  match drop (ff_run l) l with
  | [] => Continue (off + len l)
  | c :: _ => Return (if c =? 0 then None
                      else Some {| code := c; nextOffset := off + Z.of_nat (ff_run l) + 1 |})
  end.

Lemma marker_loop_spec h fuel off :
  0 <= off <= size h -> (Z.to_nat (size h - off) < fuel)%nat ->
  while fuel (fun offset => offset <? size h) (marker_body h) off =
    Ok (marker_at off (subarray (contents h) off (size h))).
Proof.
  revert off. induction fuel as [|fuel IH]; intros off Ho Hf; [lia|]. cbn [while].
  destruct (Z.ltb_spec off (size h)) as [Hlt|Hge].
  - rewrite marker_body_spec by lia. cbv zeta. rewrite file_rest_cons by lia. unfold marker_at. cbn [ff_run].
    destruct (Z.eqb_spec (at0 (contents h) off) 255) as [->|Hff].
    + cbn [mbind exec_bind]. rewrite IH by lia. unfold marker_at. cbn [drop].
      destruct (drop _ _); [rewrite len_cons; do 2 f_equal; lia|].
      do 2 f_equal. case_match; [done|]. do 2 f_equal. lia.
    + cbn [drop]. change (Z.of_nat 0) with 0. rewrite Z.add_0_r. by case_match.
  - replace off with (size h) by lia. rewrite subarray_nil. unfold marker_at. cbn.
    change (len []) with 0. by rewrite Z.add_0_r.
Qed.

(** From any position, the marker found is the first code after a run of 0xff. *)
Lemma readJpegMarker_spec h off :
  0 <= off < size h ->
  readJpegMarker h off (size h) = Ok (let l := subarray (contents h) off (size h) in
    match ff_run l with
    | O => None
    | S k => match marker_at off l with Return m => m | Continue _ => None end
    end).
Proof.
  intros Ho. unfold readJpegMarker. rewrite or_else_read_ok by lia.
  rewrite subarray_1 by (unfold size in *; lia).
  change (at0 [at0 (contents h) off] 0) with (at0 (contents h) off). cbv zeta.
  rewrite marker_loop_spec by lia. rewrite file_rest_cons by lia. cbn [ff_run].
  destruct (Z.eqb_spec (at0 (contents h) off) 255); cbn [negb]; [|done].
  cbn [mbind exec_bind]. by destruct (marker_at _ _).
Qed.

(** The file ends in EOI: the rest of the file, in terms of what precedes the EOI. *)
Definition ends_in_eoi (h : FileHandle) : Prop :=
  2 <= size h /\ subarray (contents h) (size h - 2) (size h) = JPEG_EOI.

Lemma rest_eoi h off :
  ends_in_eoi h -> 0 <= off <= size h - 2 ->
  subarray (contents h) off (size h) = subarray (contents h) off (size h - 2) ++ JPEG_EOI.
Proof.
  intros [Hs <-] Ho. rewrite (subarray_split _ off (size h - 2)) by (unfold size in *; lia). done.
Qed.

Lemma readJpegMarker_before_eoi h off :
  ends_in_eoi h -> 0 <= off < size h - 2 ->
  let l := subarray (contents h) off (size h - 2) in
  readJpegMarker h off (size h) = Ok
    match ff_run l, drop (ff_run l) l with
    | O, _ => None
    | S k, [] => Some {| code := JPEG_EOI_MARKER; nextOffset := off + len l + 2 |}
    | S k, c :: _ => if c =? 0 then None
                     else Some {| code := c; nextOffset := off + Z.of_nat (S k) + 1 |}
    end.
Proof.
  intros He Ho l. rewrite readJpegMarker_spec by lia. cbv zeta.
  rewrite (rest_eoi h off He) by lia. fold l. pose proof (ff_run_split l) as [Hl Hne].
  assert (0 < len l) by (unfold l; rewrite len_subarray; unfold size in *; lia). f_equal.
  destruct (drop (ff_run l) l) as [|c l'] eqn:Hd; cbn in Hne.
  - rewrite app_nil_r in Hl. assert (Hk : ff_run (l ++ JPEG_EOI) = S (ff_run l)).
    { rewrite Hl at 1. rewrite Hl at 2. unfold JPEG_EOI.
      change (replicate (ff_run l) 255 ++ [255; 217]) with (replicate (ff_run l) 255 ++ [255] ++ [217]).
      rewrite app_assoc, <- replicate_S_end, ff_run_app by done.
      f_equal. rewrite <- Hl. done. }
    rewrite Hk. unfold marker_at. rewrite Hk.
    assert (Hlen : length l = ff_run l) by (rewrite Hl at 1; apply length_replicate).
    rewrite <- Hlen. replace (drop (S (length l)) (l ++ JPEG_EOI)) with [JPEG_EOI_MARKER].
    2: { rewrite drop_app_ge by lia. by replace (S (length l) - length l)%nat with 1%nat by lia. }
    unfold len in *. destruct (length l); [lia|]. change (JPEG_EOI_MARKER =? 0) with false.
    cbv iota. do 2 f_equal. lia.
  - assert (Hk : ff_run (l ++ JPEG_EOI) = ff_run l).
    { rewrite Hl at 1. rewrite <- app_assoc. cbn [app]. apply ff_run_app. congruence. }
    rewrite Hk. unfold marker_at. rewrite Hk. rewrite drop_app_le.
    + rewrite Hd. cbn [app]. by destruct (ff_run l).
    + enough (length (drop (ff_run l) l) > 0)%nat by (rewrite length_drop in *; lia).
      rewrite Hd. cbn. lia.
Qed.

(** ** What the checks decide about one segment *)
(** A start of frame: precision, two dimensions that are not zero, and three bytes for each of
    at least one component. *)
Definition sof_ok (s : segment) : Prop :=
  match payload s with
  | None => False
  | Some p => 6 <= len p /\ 0 < uintBE (subarray p 1 3) /\ 0 < uintBE (subarray p 3 5) /\
      0 < at0 p 5 /\ len p = 6 + 3 * at0 p 5
  end.
(** A start of scan: a component count, two bytes for each, and three bytes of parameters. *)
Definition sos_ok (s : segment) : Prop :=
  match payload s with
  | None => False
  | Some p => 6 <= len p /\ 0 < at0 p 0 /\ len p = 4 + 2 * at0 p 0
  end.
#[export] Instance sof_ok_dec s : Decision (sof_ok s).
Proof. unfold sof_ok. destruct (payload s); apply _. Defined.
#[export] Instance sos_ok_dec s : Decision (sos_ok s).
Proof. unfold sos_ok. destruct (payload s); apply _. Defined.

(** The payload as the source addresses it, from the offset of the length field. *)
Definition segment_at (h : FileHandle) (off : Z) (p : list Z) : Prop :=
  0 <= off /\ off + (len p + 2) <= size h /\
  subarray (contents h) (off + 2) (off + (len p + 2)) = p.

Lemma segment_at_sub h off p a b :
  segment_at h off p -> 2 <= a <= b -> b <= len p + 2 ->
  subarray (contents h) (off + a) (off + b) = subarray p (a - 2) (b - 2).
Proof.
  intros (H0 & H1 & Hp) Ha Hb. rewrite <- Hp at 1. rewrite subarray_subarray by lia.
  f_equal; lia.
Qed.

Lemma segment_at_at0 h off p i :
  segment_at h off p -> 2 <= i < len p + 2 -> at0 (contents h) (off + i) = at0 p (i - 2).
Proof.
  intros (H0 & H1 & Hp) Hi. rewrite <- Hp. rewrite at0_subarray by lia. f_equal. lia.
Qed.

Lemma validateJpegStartOfFrame_spec h off c k p :
  segment_at h off p ->
  validateJpegStartOfFrame h off (len p + 2) =
    Ok (bool_decide (sof_ok {| fill := k; scode := c; payload := Some p |})).
Proof.
  intros Hp. pose proof Hp as (H0 & H1 & _). unfold validateJpegStartOfFrame, sof_ok. cbn [payload].
  destruct (Z.ltb_spec (len p + 2) 8); [by rewrite bool_decide_false by lia|].
  rewrite or_else_read_ok by lia. set (fixed := subarray (contents h) off (off + 8)).
  assert (Hl : len fixed = 8) by (unfold fixed; rewrite len_subarray; unfold size in *; lia).
  unfold readUInt16BE. rewrite !read_fixed_ok by lia. cbn [mbind exec_bind].
  unfold fixed. rewrite !subarray_subarray, at0_subarray by lia.
  rewrite !(segment_at_sub h off p), (segment_at_at0 h off p) by (done || lia).
  change (3 - 2) with 1. change (3 + 2 - 2) with 3. change (5 - 2) with 3.
  change (5 + 2 - 2) with 5. change (7 - 2) with 5. f_equal.
  apply eq_true_iff_eq. rewrite bool_decide_eq_true, !andb_true_iff, !Z.ltb_lt, Z.eqb_eq. lia.
Qed.

Lemma validateJpegStartOfScan_spec h off c k p :
  segment_at h off p ->
  validateJpegStartOfScan h off (len p + 2) =
    Ok (bool_decide (sos_ok {| fill := k; scode := c; payload := Some p |})).
Proof.
  intros Hp. pose proof Hp as (H0 & H1 & _). unfold validateJpegStartOfScan, sos_ok. cbn [payload].
  destruct (Z.ltb_spec (len p + 2) 8); [by rewrite bool_decide_false by lia|].
  rewrite or_else_read_ok by lia. rewrite at0_subarray by lia.
  rewrite (segment_at_at0 h off p) by (done || lia). change (2 - 2) with 0. f_equal.
  apply eq_true_iff_eq. rewrite bool_decide_eq_true, !andb_true_iff, Z.ltb_lt, Z.eqb_eq. lia.
Qed.

Definition is_sof (c : segment) : bool := isStartOfFrameMarker (scode c).

(** One turn of the loop, on a decoded segment and the bytes [r] after it. *)
Definition jpeg_outcome (s : JpegState) (off : Z) (d : option (segment * list Z))
    : flow JpegState bool :=
  match d with
  | None => Return false
  | Some (c, r) =>
      if is_sof c && negb (bool_decide (sof_ok c)) then Return false else
      let sof := foundStartOfFrame s || is_sof c in
      if scode c =? JPEG_SOS then Return (sof && bool_decide (sos_ok c) && (0 <? len r)) else
      Continue {| offset := off; markerCount := markerCount s + 1; foundStartOfFrame := sof |}
  end.

Lemma standalone_not_sof c : isStandaloneJpegMarker c = true -> isStartOfFrameMarker c = false /\ c <> JPEG_SOS.
Proof.
  unfold isStandaloneJpegMarker, isStartOfFrameMarker, JPEG_TEM, JPEG_RST_MIN, JPEG_RST_MAX, JPEG_SOS.
  lia.
Qed.

Lemma check_sof_spec h s off k c p :
  segment_at h off p ->
  check_sof h s c off (len p + 2) = Ok (
    let g := {| fill := k; scode := c; payload := Some p |} in
    if is_sof g && negb (bool_decide (sof_ok g)) then None
    else Some (foundStartOfFrame s || is_sof g)).
Proof.
  intros Hp. unfold check_sof, is_sof. cbn [scode]. destruct (isStartOfFrameMarker c).
  - rewrite (validateJpegStartOfFrame_spec h off c k) by done. cbn [mbind exec_bind].
    case_bool_decide; cbn; [by rewrite orb_true_r|done].
  - cbn. by rewrite orb_false_r.
Qed.

Lemma jpeg_body_spec h s :
  ends_in_eoi h -> 0 <= offset s < size h - 2 ->
  let d := decode_segment (subarray (contents h) (offset s) (size h - 2)) in
  jpeg_body h s = Ok (jpeg_outcome s
    (size h - 2 - match d with Some (_, r) => len r | None => 0 end) d).
Proof.
  intros He Ho. set (l := subarray (contents h) (offset s) (size h - 2)). cbv zeta.
  assert (Hll : len l = size h - 2 - offset s) by (unfold l; rewrite len_subarray; unfold size in *; lia).
  unfold jpeg_body, or_else. rewrite readJpegMarker_before_eoi by done. fold l. cbn [mbind exec_bind].
  unfold decode_segment. destruct (ff_run l) as [|k] eqn:Hff; [done|].
  destruct (drop (S k) l) as [|c l'] eqn:Hd; [done|].
  destruct (Z.eqb_spec c 0) as [|Hc0]; [done|]. cbn [code nextOffset orb].
  destruct (Z.eqb_spec c JPEG_EOI_MARKER) as [|Hce]; [done|].
  set (off := offset s + Z.of_nat (S k) + 1).
  assert (Hl' : l' = subarray (contents h) off (size h - 2) /\ off <= size h - 2).
  { assert (Hlt : (S k < length l)%nat).
    { pose proof (length_drop l (S k)) as E. rewrite Hd in E. cbn in E. lia. }
    apply (f_equal (drop 1)) in Hd. rewrite drop_drop in Hd. cbn in Hd. rewrite drop_0 in Hd. subst l'.
    assert (off <= size h - 2) by (unfold off, len in *; lia). split; [|done].
    replace (drop _ l) with (drop (Z.to_nat (Z.of_nat (S k) + 1)) l) by (f_equal; lia).
    unfold l. rewrite drop_subarray by lia. f_equal. unfold off. lia. }
  destruct Hl' as [-> Hoff]. set (l' := subarray (contents h) off (size h - 2)).
  assert (Hlen' : len l' = size h - 2 - off) by (unfold l'; rewrite len_subarray; unfold off, size in *; lia).
  assert (H0 : 0 <= off) by (unfold off; lia).
  unfold decode_payload. destruct (isStandaloneJpegMarker c) eqn:Hst.
  { cbn [mbind option_bind jpeg_outcome]. apply standalone_not_sof in Hst as [Hsof Hsos].
    unfold is_sof. cbn [scode]. rewrite Hsof, (proj2 (Z.eqb_neq _ _)) by done. cbn [andb].
    rewrite orb_false_r. do 3 f_equal. lia. }
  change (len JPEG_EOI) with 2. pose proof (or_else_read_ok (B := flow JpegState bool) h 2 off) as Hrd.
  unfold or_else in Hrd. rewrite Hrd by lia. clear Hrd. set (lb := subarray (contents h) off (off + 2)).
  assert (Hlb : len lb = 2) by (unfold lb; rewrite len_subarray; unfold size in *; lia).
  unfold readUInt16BE. rewrite read_fixed_ok by lia. cbn [mbind exec_bind].
  change (0 + 2) with 2. replace (subarray lb 0 2) with lb by (rewrite <- Hlb; by rewrite subarray_all).
  destruct (Z.ltb_spec (len l') 2) as [Hsh|Hsh].
  - (* the length field would reach into the EOI marker *)
    assert (Hbig : (uintBE lb <? 2) || (size h - 2 <? off + uintBE lb) = true); [|by rewrite Hbig].
    destruct (Z.ltb_spec (uintBE lb) 2), (Z.ltb_spec (size h - 2) (off + uintBE lb)); try done. lia.
  - replace (subarray l' 0 2) with lb
      by (unfold lb, l'; rewrite subarray_subarray by lia; f_equal; lia).
    set (n := uintBE lb). replace (size h - 2 <? off + n) with (len l' <? n)
      by (apply eq_true_iff_eq; rewrite !Z.ltb_lt; lia).
    destruct (Z.ltb_spec n 2), (Z.ltb_spec (len l') n); cbn [orb mbind option_bind]; try done.
    set (p := subarray l' 2 n).
    assert (Hp : len p = n - 2) by (unfold p; rewrite len_subarray; lia).
    assert (Hseg : segment_at h off p).
    { split; [lia|]. rewrite Hp. replace (n - 2 + 2) with n by lia. split; [lia|].
      unfold p, l'. by rewrite subarray_subarray by lia. }
    replace n with (len p + 2) by lia. rewrite (check_sof_spec h s off k c p) by done.
    cbv zeta. cbn [jpeg_outcome mbind exec_bind].
    destruct (is_sof _ && _); [done|]. cbn [scode].
    assert (Hr : len (drop (Z.to_nat (len p + 2)) l') = size h - 2 - off - (len p + 2)).
    { rewrite len_drop by lia. lia. }
    rewrite Hr. destruct (c =? JPEG_SOS).
    + destruct (foundStartOfFrame s || is_sof _); cbn [negb]; [|done].
      rewrite (validateJpegStartOfScan_spec h off c k) by done. cbn [mbind exec_bind].
      do 2 f_equal. cbn [andb]. f_equal. apply eq_true_iff_eq. rewrite !Z.ltb_lt. lia.
    + do 3 f_equal. lia.
Qed.

(** ** The grammar of an accepted file *)
Definition header_segment (c : segment) : Prop :=
  scode c <> JPEG_SOS /\ (is_sof c = true -> sof_ok c).

(** What may follow the first [n] markers: header segments, a start of scan, and some scan
    data; a start of frame was seen ([sof]) or is among the segments. *)
Definition jpeg_tail (n : Z) (sof : bool) (l : list Z) : Prop :=
  exists hdr sos scan,
    l = concat (encode <$> hdr) ++ encode sos ++ scan /\
    Forall wf_segment (hdr ++ [sos]) /\ Forall header_segment hdr /\
    scode sos = JPEG_SOS /\ sos_ok sos /\ scan <> [] /\
    (sof = true \/ Exists (fun c => is_sof c = true) hdr) /\
    n + Z.of_nat (length hdr) < JPEG_MAX_HEADER_MARKERS.

Lemma jpeg_tail_undecodable n sof l : decode_segment l = None -> ~ jpeg_tail n sof l.
Proof.
  intros Hd (hdr & sos & scan & -> & Hwf & _).
  apply Forall_app in Hwf as [Hwf [Hs _]%Forall_cons]. destruct hdr as [|c hdr].
  - cbn [fmap list_fmap concat app] in Hd. change (@encode _ segment_codec) with encode_segment in Hd.
    by rewrite decode_segment_complete in Hd.
  - apply Forall_cons in Hwf as [Hc _]. rewrite fmap_cons in Hd. cbn [concat] in Hd.
    rewrite <- app_assoc in Hd. change (@encode _ segment_codec) with encode_segment in Hd.
    by rewrite decode_segment_complete in Hd.
Qed.

Lemma jpeg_tail_cons n sof l c r :
  Forall is_byte l -> decode_segment l = Some (c, r) ->
  jpeg_tail n sof l <->
    n < JPEG_MAX_HEADER_MARKERS /\
    if scode c =? JPEG_SOS then sof = true /\ sos_ok c /\ r <> []
    else header_segment c /\ jpeg_tail (n + 1) (sof || is_sof c) r.
Proof.
  intros Hb Hd. destruct (decode_segment_sound l c r Hb Hd) as [El Hc]. split.
  - intros (hdr & sos & scan & Hl & Hwf & Hh & Hsos & Hok & Hscan & Hsof & Hn). split; [lia|].
    apply Forall_app in Hwf as [Hwf [Hs _]%Forall_cons]. destruct hdr as [|d hdr].
    + cbn [fmap list_fmap concat app] in Hl. rewrite Hl in Hd. change (@encode _ segment_codec) with encode_segment in Hd.
      rewrite decode_segment_complete in Hd by done. injection Hd as -> ->.
      rewrite Hsos, Z.eqb_refl. destruct Hsof as [->|Hx]; [done|by apply Exists_nil in Hx].
    + apply Forall_cons in Hwf as [Hd' Hwf]. rewrite fmap_cons in Hl. cbn [concat] in Hl.
      rewrite <- app_assoc in Hl. rewrite Hl in Hd. change (@encode _ segment_codec) with encode_segment in Hd.
      rewrite decode_segment_complete in Hd by done. injection Hd as -> <-.
      apply Forall_cons in Hh as [[Hne Hsf] Hh]. rewrite (proj2 (Z.eqb_neq _ _)) by done.
      split; [done|]. exists hdr, sos, scan. split; [done|].
      split; [apply Forall_app; split; [done|by constructor]|]. do 4 (split; [done|]).
      cbn [length] in Hn. split; [|lia]. rewrite orb_true_iff. rewrite Exists_cons in Hsof. tauto.
  - intros [Hn Hrest]. destruct (Z.eqb_spec (scode c) JPEG_SOS) as [Hs|Hs].
    + destruct Hrest as (-> & Hok & Hr). exists [], c, r. cbn [app length fmap list_fmap concat].
      change (Z.of_nat 0) with 0. split; [done|]. split; [by constructor|]. split; [done|].
      do 3 (split; [done|]). split; [by left|lia].
    + destruct Hrest as (Hh & hdr & sos & scan & -> & Hwf & Hhs & Hrest). exists (c :: hdr), sos, scan.
      rewrite fmap_cons. cbn [concat app length]. rewrite <- app_assoc. split; [exact El|].
      split; [by constructor|]. split; [by constructor|]. rewrite Exists_cons.
      rewrite orb_true_iff in Hrest. intuition lia.
Qed.

Lemma sos_not_sof c : scode c = JPEG_SOS -> is_sof c = false.
Proof. unfold is_sof. by intros ->. Qed.

Lemma jpeg_loop_spec h s fuel :
  ends_in_eoi h -> 0 <= offset s <= size h - 2 -> (Z.to_nat (size h - offset s) < fuel)%nat ->
  exists b,
    (out ← while fuel (fun s => (offset s <? size h - 2) && (markerCount s <? JPEG_MAX_HEADER_MARKERS))
             (jpeg_body h) s;
     afterwards out (fun _ => Ok false)) = Ok b /\
    (b = true <-> jpeg_tail (markerCount s) (foundStartOfFrame s)
                    (subarray (contents h) (offset s) (size h - 2))).
Proof.
  intros He Ho Hf.
  set (P := fun t => jpeg_tail (markerCount t) (foundStartOfFrame t)
                       (subarray (contents h) (offset t) (size h - 2))).
  destruct (while_total
    (fun s => (offset s <? size h - 2) && (markerCount s <? JPEG_MAX_HEADER_MARKERS))
    (jpeg_body h) (fun t => 0 <= offset t <= size h - 2 /\ (P s <-> P t))
    (fun t => Z.to_nat (size h - offset t)) (fun b => b = true <-> P s))
    with (fuel := fuel) (s := s) as (out & -> & Hout); [|done|done|].
  - intros t [Ht Hiff] [Hlt%Z.ltb_lt Hn%Z.ltb_lt]%andb_true_iff.
    rewrite jpeg_body_spec by (done || lia). cbv zeta. eexists. split; [done|].
    unfold P in Hiff |- *. set (l := subarray (contents h) (offset t) (size h - 2)) in *.
    assert (Hb : Forall is_byte l) by apply Forall_subarray, contents_bytes.
    assert (Hll : len l = size h - 2 - offset t) by (unfold l; rewrite len_subarray; unfold size in *; lia).
    destruct (decode_segment l) as [[c r]|] eqn:Hd; cbn [jpeg_outcome].
    2: { rewrite Hiff. split; [done|]. intros H. by apply jpeg_tail_undecodable in H. }
    pose proof (decode_shorter (H := segment_codec) l c r Hb Hd) as [Hlt' _].
    rewrite (jpeg_tail_cons _ _ _ _ _ Hb Hd) in Hiff. pose proof (len_nonneg r).
    destruct (decode_segment_sound l c r Hb Hd) as [El _].
    assert (Hr : r = subarray (contents h) (size h - 2 - len r) (size h - 2)).
    { assert (El2 : len l = len (encode_segment c) + len r) by (rewrite El at 1; apply len_app).
      pose proof (len_nonneg (encode_segment c)).
      transitivity (drop (Z.to_nat (len (encode_segment c))) l).
      - rewrite El. symmetry. apply drop_app_length'. unfold len. lia.
      - unfold l. rewrite drop_subarray by lia. f_equal. lia. }
    destruct (is_sof c && negb (bool_decide (sof_ok c))) eqn:Hsof.
    { apply andb_true_iff in Hsof as [Hs Hx%negb_true_iff%bool_decide_eq_false]. rewrite Hiff. split; [done|].
      intros [_ H2]. destruct (Z.eqb_spec (scode c) JPEG_SOS) as [E|E].
      - apply sos_not_sof in E. congruence.
      - destruct H2 as [[_ ?] _]. tauto. }
    destruct (Z.eqb_spec (scode c) JPEG_SOS) as [E|E].
    + rewrite Hiff, (sos_not_sof c E), orb_false_r, !andb_true_iff, bool_decide_eq_true, Z.ltb_lt.
      assert (0 < len r <-> r <> []) as ->; [|tauto].
      destruct r; [done|]. rewrite len_cons. pose proof (len_nonneg r). split; [done|lia].
    + cbn [offset markerCount foundStartOfFrame]. rewrite <- Hr. unfold len in *.
      split; [|lia]. split; [lia|]. apply andb_false_iff in Hsof.
      rewrite negb_false_iff, bool_decide_eq_true in Hsof. rewrite Hiff. unfold header_segment.
      assert (is_sof c = true -> sof_ok c) by (intros E'; destruct Hsof; [congruence|done]). tauto.
  - cbn. destruct out as [t|b]; cbn; [|eauto]. eexists. split; [done|].
    destruct Hout as [[Ht Hiff] Hc]. fold (P s). rewrite Hiff. split; [done|].
    intros (hdr & sos & scan & Hl & _ & _ & _ & _ & _ & _ & Hn).
    apply andb_false_iff in Hc. rewrite !Z.ltb_ge in Hc. destruct Hc as [Hc|Hc]; [|lia].
    replace (offset t) with (size h - 2) in Hl by lia. rewrite subarray_nil in Hl.
    symmetry in Hl. apply app_eq_nil in Hl as [_ [Hl _]%app_eq_nil]. done.
Qed.

(** What [matchesJpegStructure] promises. *)
Definition is_jpeg (h : FileHandle) : Prop :=
  isFile h = true /\ 12 <= size h /\
  exists body, contents h = JPEG_SOI ++ body ++ JPEG_EOI /\ jpeg_tail 0 false body.

(** [matchesJpegStructure] terminates without an exception on every file, however the
    reads are sliced, and returns [true] exactly for the regular files of at least 12 bytes
    that consist of SOI, fewer than 1024 header markers (standalone codes, or segments
    whose length fits before the EOI, every start of frame well formed and at least one of
    them), a well-formed start of scan, at least one byte of scan data, and EOI. *)
Theorem matchesJpegStructure_correct h :
  exists b, matchesJpegStructure h = Ok b /\ (b = true <-> is_jpeg h).
Proof.
  unfold matchesJpegStructure, is_jpeg. change (len JPEG_SOI) with 2. change (len JPEG_EOI) with 2.
  destruct (isFile h) eqn:Hf; cbn [negb orb]; [|rejects; intros [? _]; congruence].
  destruct (Z.ltb_spec (size h) 12); [rejects; lia|].
  rewrite readExactly_spec by lia. cbn [mbind exec_bind].
  rewrite read_at_some by (unfold size in *; lia).
  rewrite readExactly_spec by lia. cbn [mbind exec_bind].
  rewrite read_at_some by (unfold size in *; lia). rewrite Z.add_0_l.
  replace (size h - 2 + 2) with (size h) by lia.
  set (body := subarray (contents h) 2 (size h - 2)).
  assert (Hsplit : contents h = subarray (contents h) 0 2 ++ body ++ subarray (contents h) (size h - 2) (size h)).
  { unfold body. rewrite <- !subarray_split by (unfold size in *; lia). symmetry. apply subarray_all. }
  assert (Hl1 : len (subarray (contents h) 0 2) = len JPEG_SOI) by (change (len JPEG_SOI) with 2; rewrite len_subarray; unfold size in *; lia).
  assert (Hl2 : len (subarray (contents h) (size h - 2) (size h)) = len JPEG_EOI)
    by (change (len JPEG_EOI) with 2; rewrite len_subarray; unfold size in *; lia).
  assert (Hparts : forall b', contents h = JPEG_SOI ++ b' ++ JPEG_EOI ->
    subarray (contents h) 0 2 = JPEG_SOI /\ b' = body /\
    subarray (contents h) (size h - 2) (size h) = JPEG_EOI).
  { intros b' E. rewrite Hsplit in E. unfold len in Hl1, Hl2.
    apply app_inj_1 in E as [E1 E]; [|lia]. apply app_inj_2 in E as [E2 E3]; [auto|lia]. }
  destruct (decide (subarray (contents h) 0 2 = JPEG_SOI /\
                    subarray (contents h) (size h - 2) (size h) = JPEG_EOI)) as [[E1 E2]|Hn].
  - rewrite E1, E2, !bool_decide_true by done. cbn [negb orb].
    destruct (jpeg_loop_spec h {| offset := 2; markerCount := 0; foundStartOfFrame := false |}
      (S (Z.to_nat (size h)))) as (b & Hrun & Hb); [split; [lia|done]|cbn; lia|cbn; lia|].
    exists b. split; [exact Hrun|]. rewrite Hb. cbn [offset markerCount foundStartOfFrame]. fold body.
    split.
    + intros Ht. split; [done|]. split; [lia|]. exists body. split; [|done]. congruence.
    + intros (_ & _ & b' & Hc & Ht). apply Hparts in Hc as (_ & -> & _). done.
  - rewrite (proj2 (orb_true_iff _ _)).
    { rejects. intros (_ & _ & b' & Hc & _). apply Hparts in Hc. tauto. }
    rewrite !negb_true_iff, !bool_decide_eq_false.
    destruct (decide (subarray (contents h) 0 2 = JPEG_SOI)); [right|left]; intros [= ?]; tauto.
Qed.
