(* ===== verification/Json.v ===== *)
(** JSON values as the code receives them from [JSON.parse], and the JavaScript string
    operations the code applies to text.

    A value is [option json] where the code can see [undefined].  Property access on
    anything but an object gives [undefined], which is what the code's guards rely on.
    Text is a sequence of ASCII code units. *)
From stdpp Require Import prelude list strings.
From Stdlib Require Import ZArith Lia.
From S2P Require Import Prelude Float64.
#[local] Open Scope Z_scope.

(** A number: an integer, or any other binary64 value. *)
Inductive number := Whole (z : Z) | Other (x : f64).

#[warnings="-register-all"]
Inductive json :=
| JNull
| JBool (b : bool)
| JNum (n : number)
| JStr (s : string)
| JArr (items : list json)
| JObj (fields : list (string * json)).

(** Induction that reaches into arrays and objects. *)
Section json_ind.
Context (P : json -> Prop).
Hypothesis HNull : P JNull.
Hypothesis HBool : forall b, P (JBool b).
Hypothesis HNum : forall n, P (JNum n).
Hypothesis HStr : forall s, P (JStr s).
Hypothesis HArr : forall items, Forall P items -> P (JArr items).
Hypothesis HObj : forall fields, Forall (fun kv => P (snd kv)) fields -> P (JObj fields).

Fixpoint json_nested_ind (v : json) : P v :=
  match v with
  | JNull => HNull
  | JBool b => HBool b
  | JNum n => HNum n
  | JStr s => HStr s
  | JArr items => HArr items ((fix go l : Forall P l :=
      match l with [] => Forall_nil_2 P | x :: l' => Forall_cons_2 P x l' (json_nested_ind x) (go l') end) items)
  | JObj fields => HObj fields ((fix go l : Forall (fun kv => P (snd kv)) l :=
      match l with
      | [] => Forall_nil_2 _
      | kv :: l' => Forall_cons_2 (fun kv => P (snd kv)) kv l' (json_nested_ind (snd kv)) (go l')
      end) fields)
  end.
End json_ind.

(** [fields[key]]; the keys of a parsed object are distinct. *)
Fixpoint field (key : string) (fields : list (string * json)) : option json :=
  match fields with
  | [] => None
  | (k, v) :: rest => if decide (k = key) then Some v else field key rest
  end.

Lemma field_eq key v fields : field key ((key, v) :: fields) = Some v.
Proof. cbn. by rewrite decide_True. Qed.
Lemma field_ne key k v fields : k <> key -> field key ((k, v) :: fields) = field key fields.
Proof. intros. cbn. by rewrite decide_False. Qed.
(** Look up literal keys. *)
Ltac fields := repeat first [rewrite field_eq | rewrite field_ne by discriminate].

(** [(v as { key?: unknown }).key] *)
Definition prop (key : string) (v : json) : option json :=
  match v with JObj fields => field key fields | _ => None end.
Arguments prop key%_string_scope v.

(** [typeof v === "object"] with a truthy [v]: an array or an object. *)
Definition is_object (v : json) : bool :=
  match v with JArr _ | JObj _ => true | _ => false end.
Definition is_array (v : json) : bool := match v with JArr _ => true | _ => false end.
(** [v && typeof v === "object" && !Array.isArray(v)] *)
Definition is_record (v : json) : bool := match v with JObj _ => true | _ => false end.

Definition as_string (v : option json) : option string :=
  match v with Some (JStr s) => Some s | _ => None end.
Definition as_array (v : option json) : option (list json) :=
  match v with Some (JArr l) => Some l | _ => None end.

(** ** Text *)
Module JsString.
Definition code_unit (c : Ascii.ascii) : Z := Z.of_nat (Ascii.nat_of_ascii c).
Definition of_unit (n : Z) : Ascii.ascii := Ascii.ascii_of_nat (Z.to_nat n).

Fixpoint map (f : Ascii.ascii -> Ascii.ascii) (s : string) : string :=
  match s with EmptyString => EmptyString | String c s' => String (f c) (map f s') end.

(** [toLowerCase] and [toUpperCase], on ASCII. *)
Definition lower_char (c : Ascii.ascii) : Ascii.ascii :=
  let n := code_unit c in if (65 <=? n) && (n <=? 90) then of_unit (n + 32) else c.
Definition upper_char (c : Ascii.ascii) : Ascii.ascii :=
  let n := code_unit c in if (97 <=? n) && (n <=? 122) then of_unit (n - 32) else c.
Definition toLowerCase : string -> string := map lower_char.
Definition toUpperCase : string -> string := map upper_char.

(** [trim]: white space and line terminators below U+0080. *)
Definition is_space (c : Ascii.ascii) : bool :=
  let n := code_unit c in (n =? 32) || ((9 <=? n) && (n <=? 13)).
Fixpoint trimStart (s : string) : string :=
  match s with
  | EmptyString => EmptyString
  | String c s' => if is_space c then trimStart s' else s
  end.
Definition reverse (s : string) : string :=
  String.string_of_list_ascii (rev (String.list_ascii_of_string s)).
Definition trimEnd (s : string) : string := reverse (trimStart (reverse s)).
Definition trim (s : string) : string := trimEnd (trimStart s).

(** The order of [sort()]: by code units. *)
Definition le (a b : string) : Prop := String.leb a b = true.
#[export] Instance le_dec : RelDecision le.
Proof. intros a b. unfold le. apply _. Defined.

Lemma leb_trans (a b c : string) : le a b -> le b c -> le a c.
Proof.
  unfold le, String.leb. revert b c. induction a as [|x a IH]; intros [|y b] [|z c]; cbn; try done.
  unfold Ascii.compare. destruct (N.compare_spec (Ascii.N_of_ascii x) (Ascii.N_of_ascii y)) as [E1|E1|E1];
    destruct (N.compare_spec (Ascii.N_of_ascii y) (Ascii.N_of_ascii z)) as [E2|E2|E2];
    destruct (N.compare_spec (Ascii.N_of_ascii x) (Ascii.N_of_ascii z)) as [E3|E3|E3]; try done; try lia.
  apply IH.
Qed.
#[export] Instance le_trans : Transitive le := leb_trans.
#[export] Instance le_antisym : AntiSymm (=) le.
Proof. intros a b. apply String.leb_antisym. Qed.
#[export] Instance le_total : Total le.
Proof. intros a b. apply String.leb_total. Qed.

(** [s.slice(0, n)] *)
Definition slice0 (n : nat) (s : string) : string := String.substring 0 n s.
Definition len (s : string) : Z := Z.of_nat (String.length s).

Lemma length_app s1 s2 : String.length (s1 +:+ s2) = (String.length s1 + String.length s2)%nat.
Proof. induction s1 as [|c s1 IH]; [done|].
  change (S (String.length (s1 +:+ s2)) = S (String.length s1 + String.length s2)).
  by rewrite IH.
Qed.
Lemma slice0_le n s : len (slice0 n s) <= Z.of_nat n.
Proof.
  unfold len, slice0. revert s. induction n as [|n IH]; intros s; destruct s as [|c s]; cbn; try lia.
  specialize (IH s). lia.
Qed.
Lemma slice0_short n s : len s <= Z.of_nat n -> slice0 n s = s.
Proof.
  unfold len, slice0. revert s. induction n as [|n IH]; intros s Hs; destruct s as [|c s]; cbn in *; try done; try lia.
  f_equal. apply IH. lia.
Qed.
End JsString.
Export (hints) JsString.

(** [new Set(l)], as the list of its elements in the order of insertion. *)
Definition set_add (seen : list string) (x : string) : list string :=
  if bool_decide (x ∈ seen) then seen else seen ++ [x].
Definition set_of (l : list string) : list string := foldl set_add [] l.

(** A nullable value in JSON. *)
Definition or_null {A} (f : A -> json) (o : option A) : json := from_option f JNull o.
(** [if (value)] of an optional text: neither [undefined] nor empty. *)
Definition truthy (o : option string) : option string :=
  match o with Some EmptyString => None | _ => o end.
