(* ===== verification/Digest.v ===== *)
(** What the code uses of [node:crypto] and of [Buffer]'s text encodings: SHA-256 (FIPS 180-4),
    HMAC (RFC 2104), [hex] and [base64url], executable and checked on the published test vectors. *)
From stdpp Require Import prelude list strings.
From Stdlib Require Import ZArith Lia.
From S2P Require Import Prelude Json Buffers.
#[local] Open Scope Z_scope.

(** ** Text encodings *)
Definition hex_digit (n : Z) : Ascii.ascii := JsString.of_unit (if n <? 10 then 48 + n else 87 + n).
Fixpoint hex (bytes : list Z) : string :=
  match bytes with
  | [] => EmptyString
  | b :: l => String (hex_digit (Z.shiftr b 4)) (String (hex_digit (Z.land b 15)) (hex l))
  end.
Definition base64url_digit (n : Z) : Ascii.ascii :=
  JsString.of_unit (if n <? 26 then 65 + n else if n <? 52 then 71 + n else if n <? 62 then n - 4 else if n =? 62 then 45 else 95).
Fixpoint base64url (bytes : list Z) : string :=
  match bytes with
  | [] => EmptyString
  | [a] => String (base64url_digit (Z.shiftr a 2)) (String (base64url_digit (Z.land (Z.shiftl a 4) 63)) EmptyString)
  | [a; b] =>
      String (base64url_digit (Z.shiftr a 2))
        (String (base64url_digit (Z.land (Z.lor (Z.shiftl a 4) (Z.shiftr b 4)) 63))
           (String (base64url_digit (Z.land (Z.shiftl b 2) 63)) EmptyString))
  | a :: b :: c :: l =>
      String (base64url_digit (Z.shiftr a 2))
        (String (base64url_digit (Z.land (Z.lor (Z.shiftl a 4) (Z.shiftr b 4)) 63))
           (String (base64url_digit (Z.land (Z.lor (Z.shiftl b 2) (Z.shiftr c 6)) 63))
              (String (base64url_digit (Z.land c 63)) (base64url l))))
  end.

(** ** SHA-256 *)
Module Sha256.
Definition mask : Z := 2 ^ 32 - 1.
Definition add (a b : Z) : Z := Z.land (a + b) mask.
Definition rotr (n x : Z) : Z := Z.lor (Z.shiftr x n) (Z.land (Z.shiftl x (32 - n)) mask).
Definition xor3 (a b c : Z) : Z := Z.lxor a (Z.lxor b c).

(** The constants are the first 32 bits behind the point of roots of the first primes. *)
Fixpoint primes_above (fuel : nat) (n : Z) (found : list Z) : list Z :=
  match fuel with
  | O => rev found
  | S fuel => primes_above fuel (n + 1) (if forallb (fun p => negb (n mod p =? 0)) found then n :: found else found)
  end.
(** The greatest [r] below [2 ^ bits] with [r ^ 3 <= n], bit by bit. *)
Fixpoint cube_root (bits : nat) (n r : Z) : Z :=
  match bits with
  | O => r
  | S bits => let r' := r + 2 ^ Z.of_nat bits in cube_root bits n (if r' ^ 3 <=? n then r' else r)
  end.
Definition square_bits (p : Z) : Z := Z.land (Z.sqrt (p * 2 ^ 64)) mask.
Definition cube_bits (p : Z) : Z := Z.land (cube_root 40 (p * 2 ^ 96) 0) mask.
Definition primes : list Z := Eval vm_compute in primes_above 310 2 [].
Definition K : list Z := Eval vm_compute in cube_bits <$> primes.

Record state := State { a : Z; b : Z; c : Z; d : Z; e : Z; f : Z; g : Z; h : Z }.
Definition initial : state := Eval vm_compute in
  match square_bits <$> primes with
  | a :: b :: c :: d :: e :: f :: g :: h :: _ => State a b c d e f g h
  | _ => State 0 0 0 0 0 0 0 0
  end.

Definition round (s : state) (kw : Z * Z) : state :=
  let t1 := add (add (h s) (xor3 (rotr 6 (e s)) (rotr 11 (e s)) (rotr 25 (e s))))
              (add (Z.lxor (Z.land (e s) (f s)) (Z.land (Z.lxor (e s) mask) (g s))) (add kw.1 kw.2)) in
  let t2 := add (xor3 (rotr 2 (a s)) (rotr 13 (a s)) (rotr 22 (a s)))
              (xor3 (Z.land (a s) (b s)) (Z.land (a s) (c s)) (Z.land (b s) (c s))) in
  State (add t1 t2) (a s) (b s) (c s) (add (d s) t1) (e s) (f s) (g s).

(** The message schedule, the newest word first. *)
Definition next_word (w : list Z) : Z :=
  let word i := w !!! i in
  let s0 := let x := word 14%nat in xor3 (rotr 7 x) (rotr 18 x) (Z.shiftr x 3) in
  let s1 := let x := word 1%nat in xor3 (rotr 17 x) (rotr 19 x) (Z.shiftr x 10) in
  add (add s1 (word 6%nat)) (add s0 (word 15%nat)).
Fixpoint extend (n : nat) (w : list Z) : list Z :=
  match n with O => w | S n => extend n (next_word w :: w) end.

Fixpoint words (n : nat) (bytes : list Z) : list Z :=
  match n with O => [] | S n => uintBE (take 4 bytes) :: words n (drop 4 bytes) end.
Definition compress (s : state) (block : list Z) : state :=
  let w := rev (extend 48 (rev (words 16 block))) in
  let t := foldl round s (combine K w) in
  State (add (a s) (a t)) (add (b s) (b t)) (add (c s) (c t)) (add (d s) (d t))
    (add (e s) (e t)) (add (f s) (f t)) (add (g s) (g t)) (add (h s) (h t)).

Definition bytesBE (n : nat) (z : Z) : list Z :=
  (fun i => Z.land (Z.shiftr z (8 * Z.of_nat i)) 255) <$> rev (seq 0 n).
Definition padded (m : list Z) : list Z :=
  m ++ 0x80 :: repeat 0 (Z.to_nat ((55 - len m) mod 64)) ++ bytesBE 8 (8 * len m).
Fixpoint blocks (n : nat) (s : state) (bytes : list Z) : state :=
  match n with O => s | S n => blocks n (compress s (take 64 bytes)) (drop 64 bytes) end.
Definition digest (m : list Z) : list Z :=
  let p := padded m in
  let s := blocks (Nat.div (length p) 64) initial p in
  mjoin (bytesBE 4 <$> [a s; b s; c s; d s; e s; f s; g s; h s]).

(** [createHmac("sha256", key).update(message).digest()] *)
Definition hmac (key message : list Z) : list Z :=
  let key := if 64 <? len key then digest key else key in
  let key := key ++ repeat 0 (64 - length key) in
  let pad n := Z.lxor n <$> key in
  digest (pad 0x5c ++ digest (pad 0x36 ++ message)).

(** A padded message is a sequence of whole blocks, and a digest has 32 bytes. *)
Lemma padded_blocks m : len (padded m) mod 64 = 0.
Proof.
  unfold padded. rewrite len_app, len_cons, len_app. pose proof (Z.mod_pos_bound (55 - len m) 64 ltac:(lia)).
  pose proof (Z.div_mod (55 - len m) 64 ltac:(lia)) as E. set (r := (55 - len m) mod 64) in *.
  assert (len (repeat 0 (Z.to_nat r)) = r) as -> by (unfold len; rewrite repeat_length; lia).
  change (len (bytesBE 8 (8 * len m))) with 8.
  replace (len m + (1 + (r + 8))) with ((1 - (55 - len m) / 64) * 64) by lia. apply Z_mod_mult.
Qed.
Lemma digest_length m : length (digest m) = 32%nat.
Proof. reflexivity. Qed.
Lemma hmac_length key m : length (hmac key m) = 32%nat.
Proof. reflexivity. Qed.
End Sha256.

(** FIPS 180-4 and RFC 4231. *)
Example sha256_empty : hex (Sha256.digest []) = "e3b0c44298fc1c149afbf4c8996fb92427ae41e4649b934ca495991b7852b855"%string.
Proof. vm_compute. reflexivity. Qed.
Example sha256_two_blocks :
  hex (Sha256.digest (ascii_bytes "abcdbcdecdefdefgefghfghighijhijkijkljklmklmnlmnomnopnopq")) =
    "248d6a61d20638b8e5c026930c3e6039a33ce45964ff2167f6ecedd419db06c1"%string.
Proof. vm_compute. reflexivity. Qed.
Example hmac_jefe :
  hex (Sha256.hmac (ascii_bytes "Jefe") (ascii_bytes "what do ya want for nothing?")) =
    "5bdcc146bf60754e6a042426089575c75a003f089d2739839dec58b964ec3843"%string.
Proof. vm_compute. reflexivity. Qed.
Example base64url_rfc4648 : base64url <$> (ascii_bytes <$> ["foob"; "fooba"; "foobar"]%string) = ["Zm9vYg"; "Zm9vYmE"; "Zm9vYmFy"]%string.
Proof. vm_compute. reflexivity. Qed.

(** A text has as many hexadecimal digits as two for each byte. *)
Lemma hex_length l : String.length (hex l) = (2 * length l)%nat.
Proof. induction l as [|b l IH]; cbn; [done|]. rewrite IH. lia. Qed.
