(* ===== verification/Numbers.v ===== *)
(** JavaScript's conversions between text and numbers: [Number(text)] and [String(number)], and
    the time value of a [Date] made from a number. *)
From stdpp Require Import prelude list strings pretty.
From Stdlib Require Import Ascii ZArith Lia SpecFloat.
From S2P Require Import Prelude Float64 Json.
#[local] Open Scope Z_scope.

(** ** [Number(text)] *)
Module JsNumber.
#[export] Instance spec_float_eq_dec : EqDecision spec_float.
Proof. solve_decision. Defined.
(** The value of a digit in radix 16 or below. *)
Definition digit_value (c : Ascii.ascii) : Z :=
  let n := JsString.code_unit c in
  if (48 <=? n) && (n <=? 57) then n - 48
  else if (97 <=? n) && (n <=? 102) then n - 87
  else if (65 <=? n) && (n <=? 70) then n - 55
  else 16.

(** The digits at the front: their value after [acc], how many, and the rest. *)
Fixpoint digits (radix acc : Z) (count : nat) (s : string) : Z * nat * string :=
  match s with
  | String c s' =>
      if digit_value c <? radix then digits radix (acc * radix + digit_value c) (S count) s'
      else (acc, count, s)
  | EmptyString => (acc, count, s)
  end.

(** The exponent part, which must end the text. *)
Definition exponent (s : string) : option Z :=
  match s with
  | EmptyString => Some 0
  | String c s' =>
      if bool_decide (c = "e"%char \/ c = "E"%char) then
        let '(sign, s'') := match s' with
                            | String "-" t => (-1, t)
                            | String "+" t => (1, t)
                            | _ => (1, s')
                            end in
        match digits 10 0 0 s'' with
        | (e, S _, EmptyString) => Some (sign * e)
        | _ => None
        end
      else None
  end.

(** [StrUnsignedDecimalLiteral]: a mantissa and a power of ten. *)
Definition decimal (s : string) : option (Z * Z) :=
  let '(whole, n, rest) := digits 10 0 0 s in
  match rest with
  | String "." rest' =>
      let '(m, k, rest'') := digits 10 whole 0 rest' in
      if (n + k =? 0)%nat then None
      else e ← exponent rest''; Some (m, e - Z.of_nat k)
  | _ => if (n =? 0)%nat then None else e ← exponent rest; Some (whole, e)
  end.

(** The number nearest to [m * 10 ^ e], [m] not negative. *)
Definition scale10 (s : bool) (m e : Z) : f64 :=
  match m with
  | Zpos p =>
      if 0 <=? e then binary_normalize 53 1024 (if s then - (m * 10 ^ e) else m * 10 ^ e) 0 s
      else match 10 ^ (- e) with
           | Zpos q => f64_div (S754_finite s p 0) (S754_finite false q 0)
           | _ => S754_nan
           end
  | _ => S754_zero s
  end.

Definition signed (sign : bool) (s : string) : f64 :=
  if String.eqb s "Infinity" then S754_infinity sign else
  match decimal s with Some (m, e) => scale10 sign m e | None => S754_nan end.

Definition radix_literal (radix : Z) (s : string) : f64 :=
  match digits radix 0 0 s with
  | (v, S _, EmptyString) => f64_of_Z v
  | _ => S754_nan
  end.

Definition of_string (text : string) : f64 :=
  match JsString.trim text with
  | EmptyString => S754_zero false
  | String "0" (String "x" s) | String "0" (String "X" s) => radix_literal 16 s
  | String "0" (String "o" s) | String "0" (String "O" s) => radix_literal 8 s
  | String "0" (String "b" s) | String "0" (String "B" s) => radix_literal 2 s
  | String "-" s => signed true s
  | String "+" s => signed false s
  | s => signed false s
  end.

Definition to_f64 (n : number) : f64 := match n with Whole z => f64_of_Z z | Other x => x end.

(** ** [String(number)] *)
(** The number of decimal digits of a positive integer. *)
Fixpoint width (fuel : nat) (z : Z) : Z :=
  match fuel with O => 0 | S f => if z <? 1 then 0 else 1 + width f (z / 10) end.
(** How often [num] times ten stays below [den]. *)
Fixpoint leading_zeros (fuel : nat) (num den : Z) : Z :=
  match fuel with O => 0 | S f => if num * 10 <? den then 1 + leading_zeros f (num * 10) den else 0 end.
(** The [n] with [10 ^ (n-1) <= num/den < 10 ^ n]. *)
Definition magnitude (num den : Z) : Z :=
  if den <=? num then width 400 (num / den) else - leading_zeros 400 num den.

(** The shortest digits that denote the number: [s * 10 ^ (n-k)] with [k] digits. *)
Fixpoint shortest (fuel : nat) (x : f64) (num den n k : Z) : Z * Z :=
  let low := if 0 <=? k - n then num * 10 ^ (k - n) / den else num / (den * 10 ^ (n - k)) in
  let denotes s := bool_decide (scale10 false s (n - k) = x) in
  let rest := if 0 <=? k - n then num * 10 ^ (k - n) mod den * 2 - den
              else num mod (den * 10 ^ (n - k)) * 2 - den * 10 ^ (n - k) in
  let near := if rest <? 0 then low else low + 1 in
  let far := if rest <? 0 then low + 1 else low in
  if denotes near then (near, k)
  else if denotes far then (far, k)
  else match fuel with O => (low, k) | S f => shortest f x num den n (k + 1) end.

Definition zeros (n : Z) : string := String.string_of_list_ascii (replicate (Z.to_nat n) "0"%char).
Definition text (s k n : Z) : string :=
  let ds := pretty s in
  let cut i := (String.substring 0 i ds, String.substring i (String.length ds) ds) in
  if (k <=? n) && (n <=? 21) then ds +:+ zeros (n - k)
  else if (0 <? n) && (n <=? 21) then
    let '(a, b) := cut (Z.to_nat n) in a +:+ "." +:+ b
  else if (-6 <? n) && (n <=? 0) then "0." +:+ zeros (- n) +:+ ds
  else
    let e := n - 1 in
    let tail := "e" +:+ (if 0 <=? e then "+" else "-") +:+ pretty (Z.abs e) in
    if k =? 1 then ds +:+ tail else let '(a, b) := cut 1%nat in a +:+ "." +:+ b +:+ tail.

Definition positive_text (m : positive) (e : Z) : string :=
  let '(num, den) := if 0 <=? e then (Zpos m * 2 ^ e, 1) else (Zpos m, 2 ^ (- e)) in
  let n := magnitude num den in
  let '(s, k) := shortest 17 (S754_finite false m e) num den n 1 in
  (** a carry: 10 for 9.5 and one digit *)
  if s =? 10 ^ k then text 1 1 (n + 1) else text s k n.

Definition f64_text (x : f64) : string :=
  match x with
  | S754_nan => "NaN"
  | S754_infinity s => if s then "-Infinity" else "Infinity"
  | S754_zero _ => "0"
  | S754_finite s m e => (if s then "-" else "") +:+ positive_text m e
  end.
Definition to_string (n : number) : string := f64_text (to_f64 n).

Definition is_finite (x : f64) : bool :=
  match x with S754_zero _ | S754_finite _ _ _ => true | _ => false end.

(** [new Date(x).getTime()]; [None] is an invalid date, the time value [NaN]. *)
Definition time_value (x : f64) : option Z :=
  match x with
  | S754_zero _ => Some 0
  | S754_finite s m e =>
      let a := if 0 <=? e then Zpos m * 2 ^ e else Zpos m / 2 ^ (- e) in
      if a <=? 8640000000000000 then Some (if s then - a else a) else None
  | _ => None
  end.
End JsNumber.
Export (hints) JsNumber.

(** ** [toISOString] of a time value *)
Module JsDate.
(** The civil date of a day counted from 1970-01-01, in the proleptic Gregorian calendar. *)
Definition civil (days : Z) : Z * Z * Z :=
  let z := days + 719468 in
  let era := z / 146097 in
  let doe := z mod 146097 in
  let yoe := (doe - doe / 1460 + doe / 36524 - doe / 146096) / 365 in
  let doy := doe - (365 * yoe + yoe / 4 - yoe / 100) in
  let mp := (5 * doy + 2) / 153 in
  let d := doy - (153 * mp + 2) / 5 + 1 in
  let m := if mp <? 10 then mp + 3 else mp - 9 in
  (yoe + era * 400 + (if m <=? 2 then 1 else 0), m, d).
Definition pad (n : nat) (z : Z) : string :=
  let ds := pretty z in
  String.string_of_list_ascii (replicate (n - String.length ds) "0"%char) +:+ ds.
Definition year (y : Z) : string :=
  if (0 <=? y) && (y <=? 9999) then pad 4 y else (if y <? 0 then "-" else "+") +:+ pad 6 (Z.abs y).
Definition toISOString (t : Z) : string :=
  let '(y, m, d) := civil (t / 86400000) in
  let ms := t mod 86400000 in
  year y +:+ "-" +:+ pad 2 m +:+ "-" +:+ pad 2 d +:+ "T" +:+
  pad 2 (ms / 3600000) +:+ ":" +:+ pad 2 (ms / 60000 mod 60) +:+ ":" +:+ pad 2 (ms / 1000 mod 60) +:+ "." +:+ pad 3 (ms mod 1000) +:+ "Z".

Example epoch : toISOString 0 = "1970-01-01T00:00:00.000Z"%string.
Proof. vm_compute. reflexivity. Qed.
Example leap_day : toISOString 1709251199999 = "2024-02-29T23:59:59.999Z"%string.
Proof. vm_compute. reflexivity. Qed.
Example before_christ : toISOString (-62198755200000) = "-000001-01-01T00:00:00.000Z"%string.
Proof. vm_compute. reflexivity. Qed.
End JsDate.
