(* ===== verification/JsonText.v ===== *)
(** [JSON.stringify] of a value, without spaces. *)
From stdpp Require Import prelude strings pretty.
From Stdlib Require Import ZArith Lia.
From S2P Require Import Prelude Json Digest Numbers.
#[local] Open Scope Z_scope.

(** [QuoteJSONString] on ASCII text. *)
Definition escaped (c : Ascii.ascii) : string :=
  let n := JsString.code_unit c in
  if n =? 34 then String (JsString.of_unit 92) (String c EmptyString)
  else if n =? 92 then "\\"
  else if n =? 8 then "\b" else if n =? 9 then "\t" else if n =? 10 then "\n" else if n =? 12 then "\f" else if n =? 13 then "\r"
  else if n <? 32 then "\u00" +:+ hex [n]
  else String c EmptyString.
Fixpoint escape (s : string) : string :=
  match s with EmptyString => EmptyString | String c s => escaped c +:+ escape s end.
Definition quote_char : Ascii.ascii := JsString.of_unit 34.
Definition quote (s : string) : string := String quote_char (escape s +:+ String quote_char EmptyString).

(** [NaN] and the infinities become [null]. *)
Definition number_text (n : number) : string :=
  if JsNumber.is_finite (JsNumber.to_f64 n) then JsNumber.to_string n else "null".
Definition comma_separated (l : list string) : string := String.concat "," l.
Fixpoint stringify (v : json) : string :=
  match v with
  | JNull => "null"
  | JBool b => if b then "true" else "false"
  | JNum n => number_text n
  | JStr s => quote s
  | JArr l => "[" +:+ comma_separated (map stringify l) +:+ "]"
  | JObj f => "{" +:+ comma_separated (map (fun kv => quote kv.1 +:+ ":" +:+ stringify kv.2) f) +:+ "}"
  end.

(** A text without line ends, as a line of an event stream needs. *)
Definition is_line (s : string) : bool := forallb (fun c => negb ((JsString.code_unit c =? 10) || (JsString.code_unit c =? 13))) (String.list_ascii_of_string s).

Lemma is_line_cons c s : is_line (String c s) = negb ((JsString.code_unit c =? 10) || (JsString.code_unit c =? 13)) && is_line s.
Proof. done. Qed.
Lemma is_line_app a b : is_line (a +:+ b) = is_line a && is_line b.
Proof. induction a as [|c a IH]; [done|]. change ((String c a) +:+ b) with (String c (a +:+ b)). by rewrite !is_line_cons, IH, andb_assoc. Qed.
Lemma is_line_concat sep l : is_line sep = true -> Forall (fun s => is_line s = true) l -> is_line (String.concat sep l) = true.
Proof.
  intros Hs Hl. induction Hl as [|s l Hs' _ IH]; [done|].
  destruct l as [|s' l]; [done|]. change (String.concat sep (s :: s' :: l)) with (s +:+ (sep +:+ String.concat sep (s' :: l))).
  rewrite !is_line_app, Hs', Hs. exact IH.
Qed.
Lemma is_line_substring n m s : is_line s = true -> is_line (String.substring n m s) = true.
Proof.
  revert n m. induction s as [|c s IH]; intros n m; [by destruct n, m|].
  rewrite is_line_cons. intros [Hc Hs]%andb_true_iff. destruct n, m; cbn [String.substring]; try done; rewrite ?is_line_cons, ?Hc; cbn [andb]; auto.
Qed.
Lemma is_line_digits (n : N) s : is_line s = true -> is_line (pretty_N_go n s) = true.
Proof.
  revert s. induction (N.lt_wf_0 n) as [n _ IH]. intros s Hs. destruct (decide (n = 0)%N) as [->|Hn]; [by rewrite pretty_N_go_0|].
  rewrite pretty_N_go_step by lia. apply IH; [apply N.div_lt; lia|]. rewrite is_line_cons, Hs, andb_true_r.
  unfold pretty_N_char. by repeat case_match.
Qed.
Lemma is_line_pretty (z : Z) : is_line (pretty z) = true.
Proof.
  assert (Hn : forall n : N, is_line (pretty n) = true).
  { intros n. unfold pretty, pretty_N. case_decide; [done|]. by apply is_line_digits. }
  destruct z as [|p|p]; [done|exact (Hn (Npos p))|]. change (is_line ("-" +:+ pretty (Npos p)) = true).
  by rewrite is_line_app, Hn.
Qed.
Lemma is_line_zeros n : is_line (JsNumber.zeros n) = true.
Proof. unfold JsNumber.zeros. induction (Z.to_nat n) as [|m IH]; [done|]. exact IH. Qed.
Lemma is_line_text s k n : is_line (JsNumber.text s k n) = true.
Proof.
  assert (Hs : forall i j, is_line (String.substring i j (pretty s)) = true) by (intros; by apply is_line_substring, is_line_pretty).
  unfold JsNumber.text. cbv zeta.
  repeat case_match; rewrite ?is_line_app, ?is_line_pretty, ?is_line_zeros, ?Hs; done.
Qed.
Lemma is_line_positive m e : is_line (JsNumber.positive_text m e) = true.
Proof. unfold JsNumber.positive_text. repeat case_match; apply is_line_text. Qed.
Lemma is_line_number n : is_line (number_text n) = true.
Proof.
  unfold number_text. case_match; [|done]. unfold JsNumber.to_string, JsNumber.f64_text.
  destruct (JsNumber.to_f64 n) as [| s| |s m e]; [done|by destruct s|done|].
  rewrite is_line_app, is_line_positive. by destruct s.
Qed.
Lemma is_line_escaped c : is_line (escaped c) = true.
Proof. destruct c as [[] [] [] [] [] [] [] []]; vm_compute; reflexivity. Qed.
Lemma is_line_quote s : is_line (quote s) = true.
Proof.
  unfold quote. rewrite is_line_cons, is_line_app. replace (is_line (String quote_char "")) with true by done.
  rewrite andb_true_r. change (is_line (escape s) = true). induction s as [|c s IH]; [done|].
  cbn [escape]. by rewrite is_line_app, IH, is_line_escaped.
Qed.
(** The text of a value is one line. *)
Lemma is_line_stringify v : is_line (stringify v) = true.
Proof.
  assert (Hb : forall a b l, is_line a = true -> is_line b = true -> Forall (fun s => is_line s = true) l ->
            is_line (a +:+ comma_separated l +:+ b) = true).
  { intros a b l Ha Hb Hl. rewrite !is_line_app, Ha, Hb, andb_true_r. by apply is_line_concat. }
  induction v as [|b|n|s|l IH|f IH] using json_nested_ind; [done|by destruct b|apply is_line_number|apply is_line_quote| |].
  - apply Hb; [done..|]. by apply Forall_fmap.
  - apply Hb; [done..|]. apply Forall_fmap. eapply Forall_impl; [exact IH|]. intros [k x] Hx.
    change (is_line (stringify x) = true) in Hx. change (is_line (quote k +:+ ":" +:+ stringify x) = true).
    by rewrite !is_line_app, is_line_quote, Hx.
Qed.

(** Written with apostrophes for quotation marks. *)
Example stringify_object :
  JsString.map (fun c => if JsString.code_unit c =? 34 then JsString.of_unit 39 else c)
    (stringify (JObj [("id", JStr (String (JsString.of_unit 10) "x")); ("l", JArr [JNull; JBool true; JNum (Whole (-12))])]%string))
  = "{'id':'\nx','l':[null,true,-12]}"%string.
Proof. vm_compute. reflexivity. Qed.
