(* ===== verification/Io.v ===== *)
(** Effectful code: a state monad with JavaScript exceptions, and its program logic.

    [io W A] is an [async] function's body run to completion against a world of type [W]:
    it returns a value or throws, and what it did to the world before throwing stays done.
    [wp m Q w] says that running [m] from [w] ends in a result and a world related by [Q];
    the rules below take a proof through the code statement by statement. *)
From stdpp Require Import prelude strings.
From Stdlib Require Import ZArith Lia.
From S2P Require Import Prelude Json.
#[local] Open Scope Z_scope.

(** What the code throws and catches.  Every class the code tells apart with [instanceof] is a
    constructor; [Error] is any other [Error], [Thrown] a value that is not an [Error]. *)
Inductive js_error :=
| MetaApiError (message : string) (retryable : bool) (code subcode httpStatus : option Z)
    (response : option json)
| ForbiddenException (message : string)
| UnprocessableEntityException (message : string)
| BadRequestException (message : string)
| ConflictException (message : string)
| NotFoundException (message : string)
| UnauthorizedException (message : string)
| PayloadTooLargeException (message : string)
| BadGatewayException (message : string)
| ServiceUnavailableException (message : string)
| CannedResponseInputError (message : string)
| MediaUploadPolicyError (message reason : string)
| MediaContentSignatureError (mimeType : string)
| MediaBinaryStorageError (message : string)
| MediaS3StorageError (message : string)
| MediaStorageCapacityPolicyError (message : string)
| MediaMalwareScanError (reason message : string)
| MediaPayloadError (message : string)
| PersonalizationTemplateError (message : string)
| PersonalizationValueError (message : string)
| SegmentDefinitionError (message : string)
| KnownRequestError (code message : string)   (** [PrismaClientKnownRequestError] *)
| Error (message : string)
| Thrown (text : string).

(** [error instanceof Error ? error.message : fallback] *)
Definition error_message (fallback : js_error -> string) (e : js_error) : string :=
  match e with
  | MetaApiError m _ _ _ _ _ | ForbiddenException m | UnprocessableEntityException m
  | BadRequestException m | ConflictException m | NotFoundException m | UnauthorizedException m
  | PayloadTooLargeException m | BadGatewayException m | ServiceUnavailableException m
  | CannedResponseInputError m | MediaUploadPolicyError m _ | MediaBinaryStorageError m | MediaS3StorageError m | MediaStorageCapacityPolicyError m
  | MediaMalwareScanError _ m | MediaPayloadError m
  | PersonalizationTemplateError m | PersonalizationValueError m | SegmentDefinitionError m
  | KnownRequestError _ m | Error m => m
  | MediaContentSignatureError t => "Media file content does not match declared MIME type: " +:+ t
  | Thrown _ => fallback e
  end.
(** [String(error)] of a value that is not an [Error]. *)
Definition string_of (e : js_error) : string := match e with Thrown t => t | _ => "" end.

Definition io (W A : Type) : Type := W -> exec js_error A * W.

#[export] Instance io_ret W : MRet (io W) := fun A a w => (Ok a, w).
#[export] Instance io_bind W : MBind (io W) := fun A B f m w =>
  match m w with
  | (Ok a, w') => f a w'
  | (Throws e, w') => (Throws e, w')
  | (OutOfFuel, w') => (OutOfFuel, w')
  end.

Definition throw {W A} (e : js_error) : io W A := fun w => (Throws e, w).
(** [try { m } catch (e) { h e }] *)
Definition try_catch {W A} (m : io W A) (h : js_error -> io W A) : io W A := fun w =>
  match m w with
  | (Throws e, w') => h e w'
  | r => r
  end.
Definition get {W} : io W W := fun w => (Ok w, w).
Definition modify {W} (f : W -> W) : io W unit := fun w => (Ok tt, f w).
(** A pure part of the code that may throw. *)
Definition lift {W A} (m : exec js_error A) : io W A := fun w => (m, w).
(** [for (const x of l) { await f(x) }] *)
Fixpoint for_each {W X} (l : list X) (f : X -> io W unit) : io W unit :=
  match l with
  | [] => mret ()
  | x :: l' => _ ← f x; for_each l' f
  end.

(** ** The program logic *)
Definition wp {W A} (m : io W A) (Q : exec js_error A -> W -> Prop) (w : W) : Prop :=
  Q (m w).1 (m w).2.

Section wp_rules.
Context {W A B : Type}.
Implicit Types (Q : exec js_error A -> W -> Prop) (m : io W A).

Lemma wp_ret (a : A) Q w : Q (Ok a) w -> wp (mret a) Q w.
Proof. done. Qed.
Lemma wp_throw e Q w : Q (Throws e) w -> wp (throw e) Q w.
Proof. done. Qed.
Lemma wp_lift (x : exec js_error A) Q w : Q x w -> wp (lift x) Q w.
Proof. done. Qed.
Lemma wp_bind (m : io W A) (f : A -> io W B) (Q : exec js_error B -> W -> Prop) w :
  wp m (fun r w' => match r with
                    | Ok a => wp (f a) Q w'
                    | Throws e => Q (Throws e) w'
                    | OutOfFuel => Q OutOfFuel w'
                    end) w ->
  wp (m ≫= f) Q w.
Proof. unfold wp, mbind, io_bind. destruct (m w) as [[a|e|] w']; cbn; done. Qed.
Lemma wp_try m (h : js_error -> io W A) Q w :
  wp m (fun r w' => match r with
                    | Throws e => wp (h e) Q w'
                    | _ => Q r w'
                    end) w ->
  wp (try_catch m h) Q w.
Proof. unfold wp, try_catch. destruct (m w) as [[a|e|] w']; cbn; done. Qed.
Lemma wp_mono m (Q R : exec js_error A -> W -> Prop) w :
  wp m Q w -> (forall r w', Q r w' -> R r w') -> wp m R w.
Proof. unfold wp. auto. Qed.
Lemma wp_and m (Q R : exec js_error A -> W -> Prop) w :
  wp m Q w -> wp m R w -> wp m (fun r w' => Q r w' /\ R r w') w.
Proof. done. Qed.
Lemma wp_run m Q w r w' : wp m Q w -> m w = (r, w') -> Q r w'.
Proof. unfold wp. intros H E. by rewrite E in H. Qed.
End wp_rules.

Lemma wp_modify {W} (f : W -> W) (Q : exec js_error unit -> W -> Prop) w :
  Q (Ok tt) (f w) -> wp (modify f) Q w.
Proof. done. Qed.
Lemma wp_get {W} (Q : exec js_error W -> W -> Prop) w : Q (Ok w) w -> wp get Q w.
Proof. done. Qed.

(** A loop keeps an invariant its body keeps, whether it ends normally or by an exception. *)
Lemma wp_for_each {W X} (I : W -> Prop) (l : list X) (f : X -> io W unit) w :
  I w -> (forall x w, x ∈ l -> I w -> wp (f x) (fun _ w' => I w') w) ->
  wp (for_each l f) (fun _ w' => I w') w.
Proof.
  revert w. induction l as [|x l IH]; intros w HI Hf; cbn; [done|].
  apply wp_bind. eapply wp_mono; [apply Hf; [left|done]|].
  intros [a|e|] w' HI'; cbn in *; [|done|done]. apply IH; [done|]. intros y v Hy. apply Hf. by right.
Qed.

(** ... and when it ends normally every element has been dealt with, if what is done stays done. *)
Lemma wp_for_each_all {W X} (I : W -> Prop) (R : W -> W -> Prop) `{!PreOrder R} (D : X -> W -> Prop)
    (l : list X) (f : X -> io W unit) w :
  (forall x w w', D x w -> R w w' -> D x w') -> I w ->
  (forall x w, x ∈ l -> I w -> wp (f x) (fun r w' => r <> OutOfFuel /\ I w' /\ R w w' /\ (r = Ok tt -> D x w')) w) ->
  wp (for_each l f) (fun r w' => r <> OutOfFuel /\ I w' /\ R w w' /\ (r = Ok tt -> forall x, x ∈ l -> D x w')) w.
Proof.
  intros Hmono. revert w. induction l as [|x l IH]; intros w HI Hf; cbn.
  { apply wp_ret. split; [done|]. split; [done|]. split; [done|]. by intros _ x ?%elem_of_nil. }
  apply wp_bind. eapply wp_mono; [apply Hf; [left|done]|].
  intros [[]|e|] w1 (Hn & HI1 & HR1 & HD1); cbn in *; [|by split|done].
  eapply wp_mono; [apply IH; [done|intros y v Hy; apply Hf; by right]|].
  intros r w2 (Hn2 & HI2 & HR2 & HD2). split; [done|]. split; [done|]. split; [by etrans|].
  intros E y [->|Hy]%elem_of_cons; [|by apply HD2]. eapply Hmono; [by apply HD1|done].
Qed.

(** One statement of the code. *)
Ltac wp_step :=
  first [ apply wp_ret | apply wp_throw | apply wp_lift | apply wp_modify | apply wp_get
        | apply wp_bind | apply wp_try ].
