(* ===== verification/Signature.v ===== *)
(** Does a file hold what its MIME type says ([media/media-content-signature.ts], and the dispatch
    [matchesAudioStructure] of [media/media-audio-structure.ts]): the signature in its first bytes,
    then the structure that the parsers of the formats check.

    The file is opened once for the sample and once by each parser; it is taken to stay the same.
    Node's ["ascii"] decoding drops the high bit of every byte: [toAscii]. *)
From stdpp Require Import prelude list strings.
From Stdlib Require Import ZArith Lia.
From S2P Require Import Prelude Json Buffers FileHandle Codec Io Ogg IsoBmff Pdf Zip Amr Aac Mpeg Png Jpeg.
#[local] Open Scope Z_scope.
#[local] Open Scope list_scope.

Definition INSPECTION_BYTES : Z := 8192.
Definition PDF_HEADER : list Z := ascii_bytes "%PDF-".
Definition PNG_SIGNATURE : list Z := [0x89; 0x50; 0x4e; 0x47; 0x0d; 0x0a; 0x1a; 0x0a].
Definition OLE_SIGNATURE : list Z := [0xd0; 0xcf; 0x11; 0xe0; 0xa1; 0xb1; 0x1a; 0xe1].
Definition ZIP_LOCAL_HEADER : list Z := [0x50; 0x4b; 0x03; 0x04].

#[local] Open Scope string_scope.
Definition OOXML_MIME_TYPES : list (string * OoxmlMimeType) :=
  [("application/vnd.openxmlformats-officedocument.wordprocessingml.document", wordprocessing);
   ("application/vnd.openxmlformats-officedocument.spreadsheetml.sheet", spreadsheet);
   ("application/vnd.openxmlformats-officedocument.presentationml.presentation", presentation)].
Definition LEGACY_OFFICE_MIME_TYPES : list string :=
  ["application/msword"; "application/vnd.ms-excel"; "application/vnd.ms-powerpoint"].
Inductive StructuredAudioMimeType := audio_ogg | audio_aac | audio_mpeg | audio_amr.

(** The type tests, which narrow a string to one of the types of a format. *)
Definition find_type {A} (types : list (string * A)) (mimeType : string) : option A :=
  snd <$> List.find (fun t => t.1 =? mimeType) types.
Definition isStructuredAudioMimeType : string -> option StructuredAudioMimeType :=
  find_type [("audio/ogg", audio_ogg); ("audio/aac", audio_aac); ("audio/mpeg", audio_mpeg); ("audio/amr", audio_amr)].
Definition isIsoBmffMediaMimeType : string -> option IsoBmffMediaMimeType :=
  find_type [("audio/mp4", audio_mp4); ("video/mp4", video_mp4); ("video/3gpp", video_3gpp)].
Definition isOoxmlMimeType : string -> option OoxmlMimeType := find_type OOXML_MIME_TYPES.
#[local] Close Scope string_scope.

(** ** The signature *)
Definition toAscii (bytes : list Z) : list Z := (fun b => Z.land b 0x7f) <$> bytes.
Definition ascii_prefix (sample : list Z) (n : Z) (text : string) : bool :=
  equals (toAscii (subarray sample 0 n)) (ascii_bytes text).
Definition startsWith (sample bytes : list Z) : bool :=
  if len sample <? len bytes then false
  else forallb (fun index => bool_decide (sample !! index = bytes !! index)) (seq 0 (length bytes)).
Definition startsWithBuffer (sample signature : list Z) : bool :=
  (len signature <=? len sample) && equals (subarray sample 0 (len signature)) signature.
Definition isAdtsAac (sample : list Z) : bool :=
  if len sample <? 2 then false else (at0 sample 0 =? 0xff) && (Z.land (at0 sample 1) 0xf6 =? 0xf0).
Definition isMp3 (sample : list Z) : bool :=
  if (3 <=? len sample) && ascii_prefix sample 3 "ID3" then true
  else if (len sample <? 2) || negb (at0 sample 0 =? 0xff) || negb (Z.land (at0 sample 1) 0xe0 =? 0xe0) then false
  else negb (Z.land (at0 sample 1) 0x06 =? 0).

Definition AMR_MAGIC : string := "#!AMR" +:+ String (JsString.of_unit 0x0a) "".
Definition AMR_WB_MAGIC : string := "#!AMR-WB" +:+ String (JsString.of_unit 0x0a) "".

Definition matchesMimeSignature (sample : list Z) (mimeType : string) : parser bool :=
  if len sample =? 0 then Ok false else
  let case text := String.eqb mimeType text in
  if case "image/jpeg"%string then Ok (startsWith sample [0xff; 0xd8; 0xff])
  else if case "image/png"%string then Ok (startsWithBuffer sample PNG_SIGNATURE)
  else if case "application/pdf"%string then
    Ok (bool_decide (is_Some (from_first PDF_HEADER (subarray sample 0 (Z.min (len sample) 1024)))))
  else if case "audio/ogg"%string then Ok (ascii_prefix sample 4 "OggS")
  else if case "audio/aac"%string then Ok (isAdtsAac sample || ascii_prefix sample 4 "ADIF")
  else if case "audio/mpeg"%string then Ok (isMp3 sample)
  else if case "audio/amr"%string then Ok (ascii_prefix sample 6 AMR_MAGIC || ascii_prefix sample 9 AMR_WB_MAGIC)
  else if case "text/plain"%string then Ok (negb (includes sample 0x00))
  else match isIsoBmffMediaMimeType mimeType with
  | Some type => matchesIsoBmffFileTypeSignature sample type
  | None =>
      if existsb case LEGACY_OFFICE_MIME_TYPES then Ok (startsWithBuffer sample OLE_SIGNATURE)
      else if bool_decide (is_Some (isOoxmlMimeType mimeType)) then Ok (startsWithBuffer sample ZIP_LOCAL_HEADER)
      else Ok false
  end.

(** ** The whole check *)
Definition readPrefix (h : FileHandle) : list Z := handle_read h INSPECTION_BYTES 0.
Definition matchesAudioStructure (h : FileHandle) (mimeType : StructuredAudioMimeType) : parser bool :=
  match mimeType with
  | audio_ogg => matchesOggStructure h true
  | audio_aac => matchesAacStructure h
  | audio_mpeg => matchesMpegAudioStructure h
  | audio_amr => matchesAmrStructure h
  end.

(** [if (!await check) throw new MediaContentSignatureError(mimeType)]; a [RangeError] would escape. *)
Definition require (mimeType : string) (check : parser bool) : exec js_error () :=
  match check with
  | Ok true => Ok tt
  | Ok false => Throws (MediaContentSignatureError mimeType)
  | Throws RangeError => Throws (Error "RangeError")
  | OutOfFuel => OutOfFuel
  end.
Definition assertMediaContentSignature (h : FileHandle) (mimeType : string) : exec js_error () :=
  let normalizedMimeType := JsString.toLowerCase (JsString.trim mimeType) in
  let require := require normalizedMimeType in
  let sample := readPrefix h in
  _ ← require (matchesMimeSignature sample normalizedMimeType);
  _ ← (if String.eqb normalizedMimeType "image/jpeg" then require (matchesJpegStructure h) else Ok tt);
  _ ← (if String.eqb normalizedMimeType "image/png" then require (matchesPngStructure h) else Ok tt);
  _ ← (match isStructuredAudioMimeType normalizedMimeType with
       | Some type => require (matchesAudioStructure h type) | None => Ok tt end);
  _ ← (if String.eqb normalizedMimeType "application/pdf" then require (matchesPdfStructure h) else Ok tt);
  _ ← (match isIsoBmffMediaMimeType normalizedMimeType with
       | Some type => require (matchesIsoBmffStructure h type) | None => Ok tt end);
  match isOoxmlMimeType normalizedMimeType with
  | Some type => require (matchesOoxmlPackageIdentity h type) | None => Ok tt end.

(** ** What the first bytes say *)
Definition ascii_start (s : list Z) (text : string) : Prop := exists head rest, s = head ++ rest /\ toAscii head = ascii_bytes text.
(** The first two bytes: all ones and then [mask] of the second. *)
Definition sync (s : list Z) (mask value : Z) : Prop := exists b rest, s = 0xff :: b :: rest /\ Z.land b mask = value.

Inductive mime_signature (s : list Z) : string -> Prop :=
| jpeg_signature : [0xff; 0xd8; 0xff] `prefix_of` s -> mime_signature s "image/jpeg"
| png_signature : PNG_SIGNATURE `prefix_of` s -> mime_signature s "image/png"
| pdf_signature before after : subarray s 0 (Z.min (len s) 1024) = before ++ ascii_bytes "%PDF-" ++ after -> mime_signature s "application/pdf"
| ogg_signature : ascii_start s "OggS" -> mime_signature s "audio/ogg"
| adts_signature : sync s 0xf6 0xf0 -> mime_signature s "audio/aac"
| adif_signature : ascii_start s "ADIF" -> mime_signature s "audio/aac"
| id3_signature : ascii_start s "ID3" -> mime_signature s "audio/mpeg"
| mpeg_signature b rest : s = 0xff :: b :: rest -> Z.land b 0xe0 = 0xe0 -> Z.land b 0x06 <> 0 -> mime_signature s "audio/mpeg"
| amr_signature : ascii_start s AMR_MAGIC -> mime_signature s "audio/amr"
| amr_wb_signature : ascii_start s AMR_WB_MAGIC -> mime_signature s "audio/amr"
| text_signature : s <> [] -> 0 ∉ s -> mime_signature s "text/plain"
| iso_signature type mimeType : isIsoBmffMediaMimeType mimeType = Some type -> iso_prefix type 8 s -> mime_signature s mimeType
| legacy_signature mimeType : mimeType ∈ LEGACY_OFFICE_MIME_TYPES -> OLE_SIGNATURE `prefix_of` s -> mime_signature s mimeType
| ooxml_signature type mimeType : isOoxmlMimeType mimeType = Some type -> ZIP_LOCAL_HEADER `prefix_of` s -> mime_signature s mimeType.

(** ** What the parsers check *)
Definition audio_file (mimeType : StructuredAudioMimeType) (h : FileHandle) : Prop :=
  match mimeType with
  | audio_ogg => isFile h = true /\ exists pages, ogg_file (contents h) pages /\ OpusProfile.opus_stream pages
  | audio_aac => isFile h = true /\ 5 <= size h /\
      (if bool_decide (AAC_ADIF `prefix_of` contents h) then matchesAdifStructure h (size h) = Ok true else adts_file (contents h))
  | audio_mpeg => isFile h = true /\ 4 <= size h /\ mpeg_file (contents h)
  | audio_amr => isFile h = true /\ amr_file (contents h)
  end.
Definition structured (mimeType : string) (h : FileHandle) : Prop :=
  (mimeType = "image/jpeg"%string -> is_jpeg h) /\ (mimeType = "image/png"%string -> is_png h) /\
  (forall type, isStructuredAudioMimeType mimeType = Some type -> audio_file type h) /\
  (mimeType = "application/pdf"%string -> isFile h = true /\ pdf_file (contents h)) /\
  (forall type, isIsoBmffMediaMimeType mimeType = Some type -> isFile h = true /\ iso_media type (contents h)) /\
  (forall type, isOoxmlMimeType mimeType = Some type -> isFile h = true /\ ooxml_package type (contents h)).

(** ** The tests of the signature *)
Section prefixes.
Implicit Types s l : list Z.

Lemma subarray_take s n : subarray s 0 n = take (Z.to_nat n) s.
Proof. unfold subarray. by rewrite drop_0, Z.sub_0_r. Qed.

Lemma startsWithBuffer_iff s l : startsWithBuffer s l = true <-> l `prefix_of` s.
Proof.
  unfold startsWithBuffer. rewrite andb_true_iff, Z.leb_le, equals_true, subarray_take. unfold len. rewrite Nat2Z.id. split.
  - intros [_ <-]. apply prefix_take.
  - intros [r ->]. rewrite take_app_length, length_app. split; [lia|done].
Qed.

Lemma startsWith_iff s l : startsWith s l = true <-> l `prefix_of` s.
Proof.
  unfold startsWith. destruct (Z.ltb_spec (len s) (len l)) as [Hl|Hl].
  - split; [done|]. intros [r ->]. rewrite len_app in Hl. pose proof (len_nonneg r). lia.
  - unfold len in Hl. rewrite forallb_forall. setoid_rewrite bool_decide_eq_true. setoid_rewrite in_seq. split.
    + intros H. exists (drop (length l) s). rewrite <- (take_drop (length l) s) at 1. f_equal. apply list_eq. intros i.
      destruct (decide (i < length l)%nat) as [Hi|Hi]; [rewrite lookup_take_lt by done; apply H; lia|].
      rewrite !lookup_ge_None_2; [done|..]; rewrite ?length_take; lia.
    + intros [r ->] i Hi. by rewrite lookup_app_l by lia.
Qed.

Lemma ascii_prefix_iff s text n : len (ascii_bytes text) = n -> ascii_prefix s n text = true <-> ascii_start s text.
Proof.
  intros <-. unfold ascii_prefix, ascii_start. rewrite equals_true, subarray_take. unfold len. rewrite Nat2Z.id. split.
  - intros H. exists (take (length (ascii_bytes text)) s), (drop (length (ascii_bytes text)) s). by rewrite take_drop.
  - intros (head & rest & -> & <-). unfold toAscii. by rewrite length_fmap, take_app_length.
Qed.

Lemma from_first_some lit l : lit <> [] -> is_Some (from_first lit l) <-> exists before after, l = before ++ lit ++ after.
Proof.
  intros Hlit. split.
  - intros [l' (before & -> & [r ->] & _)%from_first_spec]; [eauto|done].
  - intros (before & after & ->). induction before as [|c before IH]; cbn [app].
    + destruct lit as [|c lit]; [done|]. cbn [app from_first]. rewrite (proj2 (prefix_test (c :: lit) _)); [eauto|by exists after].
    + cbn [from_first]. destruct (equals _ lit); [eauto|done].
Qed.

Lemma byte_pair s : 2 <= len s -> exists b rest, s = at0 s 0 :: b :: rest /\ at0 s 1 = b.
Proof. destruct s as [|a [|b s]]; [done..|]. intros _. by exists b, s. Qed.

Lemma isAdtsAac_iff s : isAdtsAac s = true <-> sync s 0xf6 0xf0.
Proof.
  unfold isAdtsAac, sync. destruct (Z.ltb_spec (len s) 2) as [Hl|Hl].
  - split; [done|]. intros (b & rest & -> & _). rewrite !len_cons in Hl. pose proof (len_nonneg rest). lia.
  - rewrite andb_true_iff, !Z.eqb_eq. split; [|by intros (b & rest & -> & ?)].
    destruct (byte_pair s Hl) as (b & rest & Hs & ->). intros [H0 H1]. rewrite H0 in Hs. eauto.
Qed.

Lemma ascii_start_len s text : ascii_start s text -> len (ascii_bytes text) <= len s.
Proof.
  intros (head & rest & -> & E). apply (f_equal length) in E. unfold toAscii in E. rewrite length_fmap in E.
  rewrite len_app. unfold len. lia.
Qed.

Lemma isMp3_iff s : isMp3 s = true <->
  ascii_start s "ID3" \/ exists b rest, s = 0xff :: b :: rest /\ Z.land b 0xe0 = 0xe0 /\ Z.land b 0x06 <> 0.
Proof.
  unfold isMp3. pose proof (ascii_prefix_iff s "ID3" 3 eq_refl) as Hid. destruct ((3 <=? len s) && ascii_prefix s 3 "ID3") eqn:E.
  - apply andb_true_iff in E as [_ E]. split; [intros _; left; by apply Hid|done].
  - assert (Hno : ~ ascii_start s "ID3").
    { intros Hs. apply Hid in Hs as Ht. rewrite Ht, andb_true_r, Z.leb_gt in E. apply ascii_start_len in Hs.
      change (len (ascii_bytes "ID3")) with 3 in Hs. lia. }
    destruct (Z.ltb_spec (len s) 2) as [Hl|Hl]; cbn [orb].
    + split; [done|]. intros [?|(b & rest & -> & _)]; [done|]. rewrite !len_cons in Hl. pose proof (len_nonneg rest). lia.
    + destruct (byte_pair s Hl) as (b & rest & Hs & ->).
      destruct (Z.eqb_spec (at0 s 0) 0xff) as [H0|H0]; cbn [negb orb].
      2: { split; [done|]. intros [?|(b' & rest' & -> & _)]; [done|]. by destruct H0. }
      rewrite H0 in Hs. subst s. destruct (Z.eqb_spec (Z.land b 0xe0) 0xe0) as [H1|H1]; cbn [negb].
      * rewrite negb_true_iff, Z.eqb_neq. split; [right; eauto|]. intros [?|(b' & rest' & [= <- <-] & _ & ?)]; done.
      * split; [done|]. intros [?|(b' & rest' & [= <- <-] & ? & _)]; done.
Qed.
End prefixes.

(** ** The whole signature test *)
Section signature.
Context (s : list Z) (Hs : Forall is_byte s).

Lemma find_type_in {A} (types : list (string * A)) mimeType type : find_type types mimeType = Some type -> (mimeType, type) ∈ types.
Proof.
  unfold find_type. destruct (List.find _ types) as [t|] eqn:E; [|done]. intros [= <-]. apply find_some in E as [Hin <-%String.eqb_eq].
  apply list_elem_of_In. by destruct t.
Qed.

Lemma matchesMimeSignature_sound mimeType : s <> [] -> matchesMimeSignature s mimeType = Ok true -> mime_signature s mimeType.
Proof.
  intros Hne. unfold matchesMimeSignature. destruct (len s =? 0); [done|]. cbv zeta.
  destruct (String.eqb_spec mimeType "image/jpeg") as [->|_]; [intros [= H]; by apply jpeg_signature, startsWith_iff|].
  destruct (String.eqb_spec mimeType "image/png") as [->|_]; [intros [= H]; by apply png_signature, startsWithBuffer_iff|].
  destruct (String.eqb_spec mimeType "application/pdf") as [->|_].
  { intros [= H%bool_decide_eq_true_1]. apply from_first_some in H as (before & after & H); [|done]. by eapply pdf_signature. }
  destruct (String.eqb_spec mimeType "audio/ogg") as [->|_]; [intros [= H]; by apply ogg_signature, (ascii_prefix_iff _ _ 4)|].
  destruct (String.eqb_spec mimeType "audio/aac") as [->|_].
  { intros [= [H|H]%orb_true_iff]; [by apply adts_signature, isAdtsAac_iff|by apply adif_signature, (ascii_prefix_iff _ _ 4)]. }
  destruct (String.eqb_spec mimeType "audio/mpeg") as [->|_].
  { intros [= [H|(b & rest & Hb & H1 & H2)]%isMp3_iff]; [by apply id3_signature|by eapply mpeg_signature]. }
  destruct (String.eqb_spec mimeType "audio/amr") as [->|_].
  { intros [= [H|H]%orb_true_iff]; [by apply amr_signature, (ascii_prefix_iff _ _ 6)|by apply amr_wb_signature, (ascii_prefix_iff _ _ 9)]. }
  destruct (String.eqb_spec mimeType "text/plain") as [->|_].
  { intros [= H%negb_true_iff%not_true_iff_false]. rewrite includes_true in H. by apply text_signature. }
  destruct (isIsoBmffMediaMimeType mimeType) as [type|] eqn:Hiso.
  { intros H. destruct (matchesIsoBmffFileTypeSignature_spec s type Hs) as (b & E & Hb). rewrite H in E. injection E as <-.
    eapply iso_signature; [done|]. by apply Hb. }
  destruct (existsb _ _) eqn:Hleg.
  { intros [= H]. apply legacy_signature; [|by apply startsWithBuffer_iff]. apply existsb_exists in Hleg as (t & Ht & ->%String.eqb_eq).
    by apply list_elem_of_In. }
  case_bool_decide as Hoo; [|done]. destruct Hoo as [type Hoo]. intros [= H]. eapply ooxml_signature; [done|]. by apply startsWithBuffer_iff.
Qed.

Lemma matchesMimeSignature_complete mimeType : s <> [] -> mime_signature s mimeType -> matchesMimeSignature s mimeType = Ok true.
Proof.
  intros Hne H. unfold matchesMimeSignature. rewrite (proj2 (Z.eqb_neq _ _)).
  2: { destruct s; [done|]. rewrite len_cons. pose proof (len_nonneg l). lia. }
  destruct H as [H|H|before after H|H|H|H|H|b rest H H1 H2|H|H|_ H|type mimeType Ht H|mimeType Ht H|type mimeType Ht H]; cbn.
  - by rewrite (proj2 (startsWith_iff _ _) H).
  - by rewrite (proj2 (startsWithBuffer_iff _ _) H).
  - rewrite bool_decide_eq_true_2; [done|]. apply from_first_some; [done|eauto].
  - by rewrite (proj2 (ascii_prefix_iff s "OggS" 4 eq_refl) H).
  - by rewrite (proj2 (isAdtsAac_iff _) H).
  - by rewrite (proj2 (ascii_prefix_iff s "ADIF" 4 eq_refl) H), orb_true_r.
  - by rewrite (proj2 (isMp3_iff s) (or_introl H)).
  - rewrite (proj2 (isMp3_iff s)); [done|]. right. eauto.
  - by rewrite (proj2 (ascii_prefix_iff s AMR_MAGIC 6 eq_refl) H).
  - by rewrite (proj2 (ascii_prefix_iff s AMR_WB_MAGIC 9 eq_refl) H), orb_true_r.
  - destruct (includes s 0) eqn:E; [by apply includes_true in E|done].
  - destruct (matchesIsoBmffFileTypeSignature_spec s type Hs) as (b & E & Hb).
    assert (E' : matchesIsoBmffFileTypeSignature s type = Ok true) by (rewrite E; f_equal; by apply Hb).
    pose proof (find_type_in _ _ _ Ht) as Hin. set_unfold in Hin. destruct_or? Hin; injection Hin as -> ->; exact E'.
  - apply startsWithBuffer_iff in H. set_unfold in Ht. destruct_or? Ht; subst mimeType; change (Ok (startsWithBuffer s OLE_SIGNATURE) = Ok (E := range_error) true); by rewrite H.
  - apply startsWithBuffer_iff in H. pose proof (find_type_in _ _ _ Ht) as Hin. set_unfold in Hin. destruct_or? Hin; injection Hin as -> ->; change (Ok (startsWithBuffer s ZIP_LOCAL_HEADER) = Ok (E := range_error) true); by rewrite H.
Qed.

Lemma matchesMimeSignature_returns mimeType : exists b, matchesMimeSignature s mimeType = Ok b.
Proof.
  unfold matchesMimeSignature. destruct (_ =? _); [eauto|]. cbv zeta. do 8 (destruct (String.eqb _ _); [eauto|]).
  destruct (isIsoBmffMediaMimeType mimeType) as [type|]; [|repeat case_match; eauto].
  destruct (matchesIsoBmffFileTypeSignature_spec s type Hs) as (b & E & _). eauto.
Qed.
End signature.

Lemma ascii_start_nonempty s text : ascii_start s text -> text <> ""%string -> s <> [].
Proof. intros H Ht ->. apply ascii_start_len in H. destruct text; [done|]. unfold ascii_bytes in H. cbn in H. unfold len in H. cbn in H. lia. Qed.

Lemma mime_signature_nonempty s mimeType : mime_signature s mimeType -> s <> [].
Proof.
  intros H E. destruct H as [[r H]|[r H]|before after H|H|(b & rest & H & _)|H|H|b rest H|H|H|H|type mimeType _ H|mimeType _ [r H]|type mimeType _ [r H]]; subst s; try done.
  - change (subarray [] 0 (Z.min (len []) 1024)) with (@nil Z) in H. by destruct before.
  - by eapply ascii_start_nonempty in H.
  - by eapply ascii_start_nonempty in H.
  - by eapply ascii_start_nonempty in H.
  - by eapply ascii_start_nonempty in H.
  - by eapply ascii_start_nonempty in H.
  - remember [] as s eqn:Es. destruct H as [k b x rest Hb|k b x rest Hb]; apply iso_box_len in Hb as [Hb ?];
      apply (f_equal len) in Es; rewrite len_app in Es; change (len []) with 0 in Es; pose proof (len_nonneg rest); pose proof (len_nonneg (box_payload x)); lia.
Qed.

Lemma matchesMimeSignature_spec s mimeType : Forall is_byte s ->
  exists b, matchesMimeSignature s mimeType = Ok b /\ (b = true <-> mime_signature s mimeType).
Proof.
  intros Hs. destruct (matchesMimeSignature_returns s Hs mimeType) as [b Hb]. exists b. split; [done|]. split.
  - intros ->. apply matchesMimeSignature_sound; [done| |done]. by intros ->.
  - intros H. apply matchesMimeSignature_complete in H as Ht; [congruence|done|by eapply mime_signature_nonempty].
Qed.

(** ** The structure *)
Lemma matchesAudioStructure_spec h type : exists b, matchesAudioStructure h type = Ok b /\ (b = true <-> audio_file type h).
Proof.
  destruct type; cbn [matchesAudioStructure audio_file].
  - destruct (matchesOggStructure_spec h true) as (b & -> & Hb). exists b. split; [done|]. rewrite Hb.
    split; intros [? H]; (split; [done|]); destruct H as (pages & ? & H); exists pages; (split; [done|]); [by apply H|by intros _].
  - destruct (matchesAacStructure_correct h) as (b & Hrun & _ & Hb). exists b. split; [done|]. case_bool_decide as Ha; [|by apply Hb].
    unfold matchesAacStructure in Hrun. destruct (isFile h); cbn [negb orb] in Hrun; [|injection Hrun as <-; split; [done|by intros [? _]]].
    destruct (Z.ltb_spec (size h) 5); [injection Hrun as <-; split; [done|lia]|].
    rewrite or_else_read_ok, starts_with_adif, bool_decide_eq_true_2 in Hrun by (done || lia). rewrite Hrun.
    split; [by intros ->|by intros (_ & _ & [= ->])].
  - apply matchesMpegAudioStructure_correct.
  - apply matchesAmrStructure_correct.
Qed.

(** One more check: it passes when its condition, if it applies, holds. *)
Lemma require_spec mimeType check (P : Prop) (rest : exec js_error ()) (Q : Prop) :
  (exists b, check = Ok b /\ (b = true <-> P)) ->
  (exists b, rest = (if b : bool then Ok tt else Throws (MediaContentSignatureError mimeType)) /\ (b = true <-> Q)) ->
  exists b, (require mimeType check ≫= fun _ => rest) = (if b : bool then Ok tt else Throws (MediaContentSignatureError mimeType)) /\ (b = true <-> P /\ Q).
Proof.
  intros (b & -> & Hb) (b' & -> & Hb'). exists (b && b'). split; [by destruct b|]. rewrite andb_true_iff. tauto.
Qed.
Lemma no_check mimeType (rest : exec js_error ()) (P Q : Prop) : P ->
  (exists b, rest = (if b : bool then Ok tt else Throws (MediaContentSignatureError mimeType)) /\ (b = true <-> Q)) ->
  exists b, (Ok tt ≫= fun _ : () => rest) = (if b : bool then Ok tt else Throws (MediaContentSignatureError mimeType)) /\ (b = true <-> P /\ Q).
Proof. intros HP (b' & -> & Hb'). exists b'. split; [done|]. tauto. Qed.

Lemma require_when mimeType (c : bool) (C : Prop) check P rest Q : (c = true <-> C) ->
  (exists b, check = Ok b /\ (b = true <-> P)) ->
  (exists b, rest = (if b : bool then Ok tt else Throws (MediaContentSignatureError mimeType)) /\ (b = true <-> Q)) ->
  exists b, ((if c then require mimeType check else Ok tt) ≫= fun _ => rest) = (if b : bool then Ok tt else Throws (MediaContentSignatureError mimeType)) /\ (b = true <-> (C -> P) /\ Q).
Proof.
  intros Hc Hcheck Hrest. destruct c.
  - destruct (require_spec mimeType check P rest Q Hcheck Hrest) as (b & -> & Hb). exists b. split; [done|]. rewrite Hb. tauto.
  - apply no_check; [|done]. intros HC. by apply Hc in HC.
Qed.
Lemma require_type {A} mimeType (o : option A) check P rest Q :
  (forall type, exists b, check type = Ok b /\ (b = true <-> P type)) ->
  (exists b, rest = (if b : bool then Ok tt else Throws (MediaContentSignatureError mimeType)) /\ (b = true <-> Q)) ->
  exists b, (match o with Some type => require mimeType (check type) | None => Ok tt end ≫= fun _ => rest) =
    (if b : bool then Ok tt else Throws (MediaContentSignatureError mimeType)) /\ (b = true <-> (forall type, o = Some type -> P type) /\ Q).
Proof.
  intros Hcheck Hrest. destruct o as [type|]; [|by apply no_check].
  destruct (require_spec mimeType (check type) (P type) rest Q (Hcheck type) Hrest) as (b & -> & Hb). exists b. split; [done|]. rewrite Hb.
  split; intros [H ?]; (split; [|done]); [by intros ? [= <-]|by apply H].
Qed.

Lemma readPrefix_bytes h : Forall is_byte (readPrefix h).
Proof. apply Forall_subarray, contents_bytes. Qed.

Lemma assertMediaContentSignature_spec h mimeType :
  let m := JsString.toLowerCase (JsString.trim mimeType) in
  exists b, assertMediaContentSignature h mimeType = (if b : bool then Ok tt else Throws (MediaContentSignatureError m)) /\
    (b = true <-> mime_signature (readPrefix h) m /\ structured m h).
Proof.
  cbv zeta. unfold assertMediaContentSignature. set (m := JsString.toLowerCase _). unfold structured.
  apply require_spec; [apply matchesMimeSignature_spec, readPrefix_bytes|].
  apply (require_when m _ _ _ (is_jpeg h)); [apply String.eqb_eq|apply matchesJpegStructure_correct|].
  apply (require_when m _ _ _ (is_png h)); [apply String.eqb_eq|apply matchesPngStructure_spec|].
  apply (require_type m _ _ (fun type => audio_file type h)); [apply matchesAudioStructure_spec|].
  apply (require_when m _ _ _ (isFile h = true /\ pdf_file (contents h))); [apply String.eqb_eq|apply matchesPdfStructure_spec|].
  apply (require_type m _ _ (fun type => isFile h = true /\ iso_media type (contents h))); [apply matchesIsoBmffStructure_spec|].
  destruct (isOoxmlMimeType m) as [type|].
  - destruct (matchesOoxmlPackageIdentity_spec h type) as (b & -> & Hb). exists b. split; [by destruct b|]. rewrite Hb.
    split; [by intros ? ? [= <-]|intros H; by apply H].
  - exists true. split; [done|]. split; [|done]. by intros _ ? [=].
Qed.

(** C35: [assertMediaContentSignature] ends on every file and every MIME type, however the reads are
    sliced: it passes exactly when the first bytes bear a signature of the type and the whole file is
    one of the type's format, as the parsers define it; otherwise it throws the error that names the
    type, and nothing else ever escapes. *)
Theorem assertMediaContentSignature_correct (h : FileHandle) (mimeType : string) :
  let m := JsString.toLowerCase (JsString.trim mimeType) in
  exists b, assertMediaContentSignature h mimeType = (if b : bool then Ok tt else Throws (MediaContentSignatureError m)) /\
    (b = true <-> mime_signature (readPrefix h) m /\ structured m h).
Proof. apply assertMediaContentSignature_spec. Qed.

(** ** Files that describe themselves
    When the first read fills the sample, or reaches the end of the file, the structure of these types
    implies their signature. *)
Definition whole_sample (h : FileHandle) : Prop := bytesRead h INSPECTION_BYTES 0 = Z.min INSPECTION_BYTES (size h).
Definition self_describing : list string :=
  ["image/jpeg"; "image/png"; "application/pdf"; "audio/ogg"; "audio/aac"; "audio/mpeg"; "audio/amr"]%string.

Section self_describing.
Context (h : FileHandle) (Hwhole : whole_sample h).
Local Abbreviation c := (contents h).
Let sample := take (Z.to_nat INSPECTION_BYTES) c.

Lemma sample_whole : readPrefix h = sample.
Proof.
  unfold readPrefix, handle_read, sample. rewrite Hwhole, Z.add_0_l, subarray_take. unfold size, len.
  destruct (Z.min_spec INSPECTION_BYTES (Z.of_nat (length c))) as [[_ ->]|[? ->]]; [done|]. by rewrite !take_ge by lia.
Qed.

Lemma sample_start l : l `prefix_of` c -> len l <= INSPECTION_BYTES -> l `prefix_of` sample.
Proof.
  intros [r E] Hl. unfold sample. rewrite E, take_app_ge by (unfold len in Hl; lia). by eexists.
Qed.

Lemma sample_text text l : l `prefix_of` c -> toAscii l = ascii_bytes text -> len (ascii_bytes text) <= INSPECTION_BYTES -> ascii_start sample text.
Proof.
  intros Hp E Hl. assert (length l = length (ascii_bytes text)) by (rewrite <- E; unfold toAscii; by rewrite length_fmap).
  destruct (sample_start l Hp) as [r ->]; [unfold len in *; lia|]. by exists l, r.
Qed.

Lemma sample_pair : 2 <= size h -> exists rest, sample = at0 c 0 :: at0 c 1 :: rest.
Proof.
  intros Hs. destruct (byte_pair c Hs) as (b & rest & Hc & Hb).
  destruct (sample_start [at0 c 0; b]) as [r Hr]; [by exists rest|done|].
  rewrite Hr, Hb. by exists r.
Qed.

Lemma sync_masks : forall b, 0 <= b < 256 ->
  (Z.land b 0xf0 = 0xf0 -> Z.land b 0x06 = 0 -> Z.land b 0xf6 = 0xf0) /\
  (Z.land (Z.shiftr b 1) 0x03 <> 0 -> Z.land b 0x06 <> 0).
Proof.
  intros b Hb. pose proof (forallb_seqZ (fun b => (negb (Z.land b 0xf0 =? 0xf0) || negb (Z.land b 0x06 =? 0) || (Z.land b 0xf6 =? 0xf0)) &&
    ((Z.land (Z.shiftr b 1) 0x03 =? 0) || negb (Z.land b 0x06 =? 0))) 256 ltac:(vm_compute; reflexivity) b Hb) as H.
  cbv beta in H. rewrite andb_true_iff, !orb_true_iff, !negb_true_iff, !Z.eqb_eq, !Z.eqb_neq in H. lia.
Qed.

Lemma is_jpeg_sample : is_jpeg h -> mime_signature sample "image/jpeg".
Proof.
  intros (_ & _ & body & Hc & hdr & sos & scan & -> & Hwf & _). apply jpeg_signature, sample_start; [|done].
  assert (exists s rest, concat (@encode _ segment_codec <$> hdr) ++ @encode _ segment_codec sos ++ scan = encode_segment s ++ rest) as (s & rest & E).
  { destruct hdr as [|s hdr]; [by exists sos, scan|]. exists s, (concat (@encode _ segment_codec <$> hdr) ++ @encode _ segment_codec sos ++ scan). rewrite fmap_cons. cbn [concat]. by rewrite <- app_assoc. }
  rewrite Hc, E. exists (replicate (fill s) 0xff ++ scode s :: match payload s with None => [] | Some p => bytesBE 2 (len p + 2) ++ p end ++ rest ++ JPEG_EOI).
  unfold encode_segment, JPEG_SOI. cbn [replicate app]. rewrite <- !app_assoc. cbn [app]. reflexivity.
Qed.

Lemma is_png_sample : is_png h -> mime_signature sample "image/png".
Proof. intros (_ & cs & _ & _ & Hc). apply png_signature, sample_start; [|done]. rewrite Hc. by eexists. Qed.

Lemma pdf_sample : pdf_file c -> mime_signature sample "application/pdf".
Proof.
  intros (Hl & (before & version & eol & after & Hp & Hv & _) & _).
  assert (Hsub : subarray sample 0 (Z.min (len sample) 1024) = subarray c 0 (Z.min (len c) 1024)).
  { unfold sample. rewrite !subarray_take, take_take. unfold len, INSPECTION_BYTES. rewrite length_take. f_equal. lia. }
  assert (exists minor, version = ascii_bytes "%PDF-" ++ minor) as (minor & ->).
  { destruct Hv as [minor|]; [by exists [0x31; 0x2e; minor]|by exists [0x32; 0x2e; 0x30]]. }
  apply (pdf_signature _ before (minor ++ eol :: after)). by rewrite Hsub, Hp, <- app_assoc.
Qed.

Lemma audio_sample type : audio_file type h -> mime_signature sample
  match type with audio_ogg => "audio/ogg" | audio_aac => "audio/aac" | audio_mpeg => "audio/mpeg" | audio_amr => "audio/amr" end%string.
Proof.
  destruct type; cbn [audio_file].
  - intros (_ & pages & (Hc & Hp & _ & _ & p & Hin & _) & _). apply ogg_signature, (sample_text _ OGG_CAPTURE); [|done..].
    destruct pages as [|q pages]; [by apply elem_of_nil in Hin|]. apply Forall_cons in Hp as [(_ & Hq & _) _].
    rewrite Hc, <- Hq, subarray_take. cbn. exists (drop (Z.to_nat 4) q ++ concat pages). by rewrite app_assoc, take_drop.
  - intros (_ & Hs & H). case_bool_decide as Ha; [by apply adif_signature, (sample_text _ AAC_ADIF)|].
    destruct H as ([|f fs] & Hc & Hf & Hn); [cbn in Hn; lia|]. apply Forall_cons in Hf as [[(Hl & H0 & H1 & H2 & _) _] _].
    assert (Hat : forall i, i < 7 -> at0 c i = at0 f i) by (intros i Hi; rewrite Hc; cbn [concat]; by rewrite at0_app_l by lia).
    apply adts_signature. destruct sample_pair as [rest ->]; [lia|]. rewrite !Hat, H0 by lia. exists (at0 f 1), rest. split; [done|].
    apply sync_masks; [|done..]. rewrite <- Hat by lia. apply is_byte_at0, contents_bytes.
  - intros (_ & Hs & tag & fs & trailer & Hc & Ht & _ & Hf & Hn). unfold leading_tag in Ht. case_bool_decide as Hid.
    { by apply id3_signature, (sample_text _ MP3_ID3V2). }
    subst tag. destruct fs as [|f fs]; [cbn in Hn; lia|]. apply Forall_cons in Hf as [[(Hl & H0 & H1 & _ & H2 & _) _] _].
    assert (Hat : forall i, i < 4 -> at0 c i = at0 f i) by (intros i Hi; rewrite Hc; cbn [concat app]; rewrite <- app_assoc; by rewrite at0_app_l by lia).
    destruct sample_pair as [rest Hr]; [lia|]. rewrite !Hat, H0 in Hr by lia. eapply mpeg_signature; [done|done|].
    apply sync_masks; [|done]. rewrite <- Hat by lia. apply is_byte_at0, contents_bytes.
  - intros (_ & wideband & fs & Hc & _). destruct wideband.
    + apply amr_wb_signature, (sample_text _ (amr_magic true)); [|done..]. rewrite Hc. by eexists.
    + apply amr_signature, (sample_text _ (amr_magic false)); [|done..]. rewrite Hc. by eexists.
Qed.

Lemma self_describing_sample m : m ∈ self_describing -> structured m h -> mime_signature sample m.
Proof.
  intros Hm (Hj & Hp & Ha & Hd & _). set_unfold in Hm. destruct_or? Hm; subst m.
  - by apply is_jpeg_sample, Hj.
  - by apply is_png_sample, Hp.
  - by apply pdf_sample, Hd.
  - by apply (audio_sample audio_ogg), Ha.
  - by apply (audio_sample audio_aac), Ha.
  - by apply (audio_sample audio_mpeg), Ha.
  - by apply (audio_sample audio_amr), Ha.
Qed.
End self_describing.

(** When the first read fills the sample or reaches the end of the file, images, PDF files and audio
    files are accepted exactly when they have the structure of their format: the look at the first
    bytes refuses no well-formed file of these types. *)
Theorem self_describing_files (h : FileHandle) (mimeType : string) :
  whole_sample h -> JsString.toLowerCase (JsString.trim mimeType) ∈ self_describing ->
  assertMediaContentSignature h mimeType = Ok tt <-> structured (JsString.toLowerCase (JsString.trim mimeType)) h.
Proof.
  intros Hwhole Hm. destruct (assertMediaContentSignature_spec h mimeType) as (b & -> & Hb). split.
  - destruct b; [|done]. intros _. by apply Hb.
  - intros Hs. rewrite (proj2 Hb); [done|]. split; [|done]. apply self_describing_sample in Hs; [|done..].
    by rewrite <- sample_whole in Hs.
Qed.

(** ** Examples *)
Definition example_amr : list Z := AMR_NB_MAGIC ++ [0x7c].
Definition example_amr_wb : list Z := Amr.AMR_WB_MAGIC ++ [0x7c].
Lemma example_amr_bytes : Forall is_byte example_amr.
Proof. apply (bool_decide_unpack (Forall is_byte example_amr)). vm_compute. exact I. Qed.
Lemma example_amr_wb_bytes : Forall is_byte example_amr_wb.
Proof. apply (bool_decide_unpack (Forall is_byte example_amr_wb)). vm_compute. exact I. Qed.
Definition example_file : FileHandle := throttled_file 7 example_amr example_amr_bytes.

Lemma self_describing_files_witness :
  whole_sample example_file /\
  (assertMediaContentSignature example_file " AUDIO/amr" = Ok tt <-> structured "audio/amr" example_file).
Proof.
  assert (Hw : whole_sample example_file) by (vm_compute; reflexivity).
  split; [exact Hw|]. refine (self_describing_files example_file " AUDIO/amr" Hw _).
  apply (bool_decide_unpack (JsString.toLowerCase (JsString.trim " AUDIO/amr") ∈ self_describing)). vm_compute. exact I.
Defined.
Example amr_accepted : assertMediaContentSignature example_file " AUDIO/amr" = Ok tt.
Proof. vm_compute. reflexivity. Qed.
Example amr_no_png : assertMediaContentSignature example_file "image/png" = Throws (MediaContentSignatureError "image/png").
Proof. vm_compute. reflexivity. Qed.

(** [readPrefix] asks for its sample with one read and takes what comes: when a read stops short, a
    well-formed file is refused. *)
Example short_read_refuses : let h := throttled_file 7 example_amr_wb example_amr_wb_bytes in
  matchesAmrStructure h = Ok true /\ assertMediaContentSignature h "audio/amr" = Throws (MediaContentSignatureError "audio/amr").
Proof. vm_compute. split; reflexivity. Qed.
