(* ===== verification/Prisma.v ===== *)
(** The database client, as an interface.

    The program keeps its state in PostgreSQL through Prisma, whose code is not part of the
    repository.  [Prisma] is what the program relies on: a table is seen as a finite map
    from ids to rows, [updateMany] changes exactly the rows its [where] selects and counts
    them, [deleteMany] removes exactly those, [findMany] gives the rows that match in some order that
    agrees with the one asked for and with a cursor goes on from the cursor's row (of a cursor whose
    row does not match nothing is known), [update] needs the row to exist, [create] picks an unused
    id that is not empty, [createAt] takes the given id if no row has it, and a write that breaks a
    unique constraint is refused.  Every theorem holds for every implementation;
    [gmap_prisma] is one. *)
From stdpp Require Import prelude gmap strings sorting.
From Stdlib Require Import ZArith Lia.
From S2P Require Import Prelude.
#[local] Open Scope Z_scope.

(** A unique constraint of the schema: [true] when the two rows may not coexist. *)
Definition constraint (R : Type) : Type := R -> R -> bool.

Class Prisma := {
  table : Type -> Type;
  rows : forall {R}, table R -> gmap string R;
  updateMany : forall {R}, (string -> R -> bool) -> (R -> R) -> table R -> nat * table R;
  update : forall {R}, constraint R -> string -> (R -> R) -> table R -> option (table R);
  create : forall {R}, constraint R -> R -> table R -> option (string * table R);
  createAt : forall {R}, constraint R -> string -> R -> table R -> option (table R);
  deleteMany : forall {R}, (string -> R -> bool) -> table R -> nat * table R;
  findPage : forall {R} (p : string -> R -> bool) (le : relation (string * R)) `{!RelDecision le},
    option string -> nat -> nat -> table R -> list (string * R);

  updateMany_rows : forall R p f (t : table R) k,
    rows (updateMany p f t).2 !! k = (fun r => if p k r : bool then f r else r) <$> rows t !! k;
  updateMany_count : forall R p f (t : table R),
    (updateMany p f t).1 = size (filter (fun kr => p kr.1 kr.2 = true) (rows t));
  update_some : forall R c k f (t t' : table R),
    update c k f t = Some t' ->
    exists r, rows t !! k = Some r /\ rows t' = <[k := f r]> (rows t) /\
      forall k' r', k' <> k -> rows t !! k' = Some r' -> c (f r) r' = false;
  update_total : forall R c k f (t : table R) r,
    rows t !! k = Some r ->
    (forall k' r', k' <> k -> rows t !! k' = Some r' -> c (f r) r' = false) ->
    is_Some (update c k f t);
  create_some : forall R c r (t : table R) k t',
    create c r t = Some (k, t') ->
    rows t !! k = None /\ rows t' = <[k := r]> (rows t) /\
      forall k' r', rows t !! k' = Some r' -> c r r' = false;
  create_named : forall R c r (t : table R) k t', create c r t = Some (k, t') -> k <> ""%string;
  create_total : forall R c r (t : table R),
    (forall k' r', rows t !! k' = Some r' -> c r r' = false) -> is_Some (create c r t);
  createAt_some : forall R c k r (t t' : table R),
    createAt c k r t = Some t' ->
    rows t !! k = None /\ rows t' = <[k := r]> (rows t) /\
      forall k' r', rows t !! k' = Some r' -> c r r' = false;
  createAt_total : forall R c k r (t : table R),
    rows t !! k = None -> (forall k' r', rows t !! k' = Some r' -> c r r' = false) -> is_Some (createAt c k r t);
  deleteMany_rows : forall R p (t : table R),
    rows (deleteMany p t).2 = filter (fun kr => p kr.1 kr.2 = false) (rows t);
  deleteMany_count : forall R p (t : table R),
    (deleteMany p t).1 = size (filter (fun kr => p kr.1 kr.2 = true) (rows t));
  findPage_page : forall R p (le : relation (string * R)) `{!RelDecision le, !Transitive le, !Total le} skip take t,
    exists l, l ≡ₚ filter (fun kr => p kr.1 kr.2 = true) (map_to_list (rows t)) /\ StronglySorted le l /\
      findPage p le None skip take t = firstn take (skipn skip l);
  findPage_cursor : forall R p (le : relation (string * R)) `{!RelDecision le, !Transitive le, !Total le} skip take t l1 k r l2,
    l1 ++ (k, r) :: l2 ≡ₚ filter (fun kr => p kr.1 kr.2 = true) (map_to_list (rows t)) -> StronglySorted le (l1 ++ (k, r) :: l2) ->
    (forall a b, a ∈ l1 ++ (k, r) :: l2 -> b ∈ l1 ++ (k, r) :: l2 -> le a b -> le b a -> a = b) ->
    findPage p le (Some k) skip take t = firstn take (skipn skip ((k, r) :: l2))
}.

(** No constraint beyond the primary key. *)
Definition unconstrained {R} : constraint R := fun _ _ => false.

(** [findFirst] and, on a unique key, [findUnique]: some row that matches. *)
Definition findFirst `{Prisma} {R} (p : string -> R -> bool) (t : table R) : option (string * R) :=
  head (filter (fun kr => p kr.1 kr.2 = true) (map_to_list (rows t))).
(** [findMany]: all of them. *)
Definition findMany `{Prisma} {R} (p : string -> R -> bool) (t : table R) : list (string * R) :=
  filter (fun kr => p kr.1 kr.2 = true) (map_to_list (rows t)).

Section prisma_lemmas.
Context `{Prisma} {R : Type}.
Implicit Types (t : table R) (k : string).

Lemma findMany_elem p t k r : (k, r) ∈ findMany p t <-> p k r = true /\ rows t !! k = Some r.
Proof. unfold findMany. rewrite list_elem_of_filter, elem_of_map_to_list. done. Qed.

Lemma findFirst_some p t k r : findFirst p t = Some (k, r) -> rows t !! k = Some r /\ p k r = true.
Proof. intros Hh%head_Some_elem_of. apply findMany_elem in Hh. tauto. Qed.

Lemma findFirst_none p t k r : findFirst p t = None -> rows t !! k = Some r -> p k r = false.
Proof.
  intros Hh%head_None Hk. destruct (p k r) eqn:E; [|done].
  assert (Hin : (k, r) ∈ findMany p t) by by apply findMany_elem.
  unfold findMany in Hin. rewrite Hh in Hin. by apply elem_of_nil in Hin.
Qed.

(** When at most one row matches, it is the one. *)
Lemma findFirst_unique p t k r :
  rows t !! k = Some r -> p k r = true ->
  (forall k' r', rows t !! k' = Some r' -> p k' r' = true -> k' = k) -> findFirst p t = Some (k, r).
Proof.
  intros Hk Hp Hu. destruct (findFirst p t) as [[k' r']|] eqn:E.
  - apply findFirst_some in E as [Hk' Hp']. assert (k' = k) as -> by by eapply Hu. congruence.
  - by rewrite (findFirst_none _ _ _ _ E Hk) in Hp.
Qed.

(** The first page, when the order tells the rows apart. *)
Lemma findPage_start p (le : relation (string * R)) `{!RelDecision le, !Transitive le, !Total le} skip take t l :
  l ≡ₚ filter (fun kr => p kr.1 kr.2 = true) (map_to_list (rows t)) -> StronglySorted le l ->
  (forall a b, a ∈ l -> b ∈ l -> le a b -> le b a -> a = b) ->
  findPage p le None skip take t = firstn take (skipn skip l).
Proof.
  intros Hp Hs Ha. destruct (findPage_page R p le skip take t) as (l' & Hp' & Hs' & ->).
  f_equal. f_equal. apply (StronglySorted_unique_strong le); [|done|done|by rewrite Hp'].
  intros a b Hin Hin'. apply Ha; [|done]. rewrite Hp, <- Hp'. done.
Qed.
(** A page from the start lists rows that match, each once, and all of them when there are few enough. *)
Lemma findPage_first p (le : relation (string * R)) `{!RelDecision le, !Transitive le, !Total le} take t :
  NoDup (findPage p le None 0 take t).*1 /\
  (forall k r, (k, r) ∈ findPage p le None 0 take t -> p k r = true /\ rows t !! k = Some r) /\
  ((size (filter (fun kr => p kr.1 kr.2 = true) (rows t)) <= take)%nat ->
   forall k r, rows t !! k = Some r -> p k r = true -> (k, r) ∈ findPage p le None 0 take t).
Proof.
  destruct (findPage_page R p le 0 take t) as (l & Hl & _ & ->). rewrite drop_0.
  assert (Hin : forall k r, (k, r) ∈ l <-> p k r = true /\ rows t !! k = Some r).
  { intros k r. rewrite Hl, list_elem_of_filter, elem_of_map_to_list. done. }
  assert (Hnd : NoDup (filter (fun kr => p kr.1 kr.2 = true) (map_to_list (rows t))).*1).
  { apply NoDup_fmap_fst; [|by apply NoDup_filter, NoDup_map_to_list].
    intros x y1 y2 [_ H1%elem_of_map_to_list]%list_elem_of_filter [_ H2%elem_of_map_to_list]%list_elem_of_filter. congruence. }
  split; [|split].
  - rewrite fmap_take. apply (sublist_NoDup _ l.*1); [by rewrite Hl|apply sublist_take].
  - intros k r Hk. apply Hin. eapply elem_of_sublist; [exact Hk|apply sublist_take].
  - intros Hn k r Hk Hp. rewrite take_ge; [by apply Hin|].
    by rewrite Hl, <- (map_to_list_to_map (M := gmap string) _ Hnd), <- map_filter_alt, length_map_to_list.
Qed.

(** [updateMany] with the id in its [where] touches at most that row. *)
Lemma updateMany_id p f t k0 k :
  rows (updateMany (fun k r => bool_decide (k = k0) && p r) f t).2 !! k =
    if decide (k = k0) then (fun r => if p r : bool then f r else r) <$> rows t !! k0
    else rows t !! k.
Proof.
  rewrite updateMany_rows. destruct (decide (k = k0)) as [->|Hk].
  - by rewrite bool_decide_true by done.
  - rewrite bool_decide_false by done. cbn [andb]. by destruct (rows t !! k).
Qed.

Lemma updateMany_id_rows p f t k0 :
  rows (updateMany (fun k r => bool_decide (k = k0) && p r) f t).2 =
    match rows t !! k0 with
    | Some r => if p r : bool then <[k0 := f r]> (rows t) else rows t
    | None => rows t
    end.
Proof.
  apply map_eq. intros k. rewrite updateMany_id. destruct (decide (k = k0)) as [->|Hk].
  - destruct (rows t !! k0) as [r|] eqn:E; cbn; [|congruence].
    destruct (p r); [by rewrite lookup_insert_eq|congruence].
  - destruct (rows t !! k0) as [r|]; [|done]. destruct (p r); [|done].
    by rewrite lookup_insert_ne.
Qed.

Lemma deleteMany_lookup p t k r :
  rows (deleteMany p t).2 !! k = Some r <-> rows t !! k = Some r /\ p k r = false.
Proof. rewrite deleteMany_rows. apply map_lookup_filter_Some. Qed.

(** ... and counts 1 exactly when the row is there and matches. *)
Lemma updateMany_id_count p f t k0 :
  (updateMany (fun k r => bool_decide (k = k0) && p r) f t).1 =
    match rows t !! k0 with Some r => if p r : bool then 1%nat else 0%nat | None => 0%nat end.
Proof.
  rewrite updateMany_count.
  destruct (rows t !! k0) as [r|] eqn:E; [destruct (p r) eqn:Hp|].
  - replace (filter _ (rows t)) with ({[k0 := r]} : gmap string R); [by rewrite map_size_singleton|].
    apply map_eq. intros k. destruct (decide (k = k0)) as [->|Hk].
    + rewrite lookup_singleton_eq. symmetry. apply map_lookup_filter_Some_2; [done|]. cbn.
      by rewrite bool_decide_true, Hp by done.
    + rewrite lookup_singleton_ne by done. symmetry. apply map_lookup_filter_None_2. right.
      intros x _. cbn. rewrite bool_decide_false by done. done.
  - apply map_size_empty_iff, map_empty_filter. intros k x Hx. cbn.
    destruct (decide (k = k0)) as [->|]; [|by rewrite bool_decide_false].
    rewrite bool_decide_true by done. simplify_eq. by rewrite Hp.
  - apply map_size_empty_iff, map_empty_filter. intros k x Hx. cbn.
    destruct (decide (k = k0)) as [->|]; [congruence|]. by rewrite bool_decide_false.
Qed.

(** Without a constraint, [update] succeeds exactly on the rows that exist. *)
Lemma update_unconstrained k f t :
  match update unconstrained k f t with
  | Some t' => exists r, rows t !! k = Some r /\ rows t' = <[k := f r]> (rows t)
  | None => rows t !! k = None
  end.
Proof.
  destruct (update unconstrained k f t) as [t'|] eqn:E.
  - apply update_some in E as (r & Hr & Ht & _). eauto.
  - destruct (rows t !! k) as [r|] eqn:Hr; [|done].
    destruct (update_total R unconstrained k f t r Hr) as [t' Ht]; [done|]. congruence.
Qed.

Lemma create_unconstrained (r : R) t :
  exists k t', create unconstrained r t = Some (k, t') /\
    rows t !! k = None /\ rows t' = <[k := r]> (rows t).
Proof.
  destruct (create_total R unconstrained r t) as [[k t'] E]; [done|].
  exists k, t'. split; [done|]. apply create_some in E. tauto.
Qed.
End prisma_lemmas.

(** ** One implementation *)
Section gmap_prisma.
Context {R : Type}.
Implicit Types (t : gmap string R).

Definition gmap_conflicts (c : constraint R) (r : R) t : bool :=
  bool_decide (filter (fun kr => c r kr.2 = true) t <> ∅).

Lemma gmap_conflicts_false c r t :
  gmap_conflicts c r t = false <-> forall k' r', t !! k' = Some r' -> c r r' = false.
Proof.
  unfold gmap_conflicts. rewrite bool_decide_eq_false.
  split.
  - intros Hn k r' Hk. destruct (c r r') eqn:E; [|done]. destruct Hn. intros Hf.
    apply (map_filter_empty_not_lookup _ _ k r' Hf); done.
  - intros Hc Hn. apply Hn, map_empty_filter. intros k x Hx. cbn. by rewrite (Hc _ _ Hx).
Qed.

Definition gmap_update (c : constraint R) k (f : R -> R) t : option (gmap string R) :=
  r ← t !! k; if gmap_conflicts c (f r) (delete k t) then None else Some (<[k := f r]> t).
Definition gmap_create (c : constraint R) (r : R) t : option (string * gmap string R) :=
  if gmap_conflicts c r t then None else let k := fresh ({[""%string]} ∪ dom t) in Some (k, <[k := r]> t).

Lemma gmap_create_some c r t k t' :
  gmap_create c r t = Some (k, t') ->
  k <> ""%string /\ t !! k = None /\ t' = <[k := r]> t /\ forall k' r', t !! k' = Some r' -> c r r' = false.
Proof.
  unfold gmap_create. destruct (gmap_conflicts c r t) eqn:E; [done|].
  pose proof (is_fresh ({[""%string]} ∪ dom t)) as Hf. cbv zeta.
  revert Hf. generalize (fresh ({[""%string]} ∪ dom t)). intros x Hf [= -> <-].
  apply not_elem_of_union in Hf as [Hf Hd]. split; [intros ->; apply Hf; by apply elem_of_singleton|].
  split; [by apply not_elem_of_dom|]. split; [done|]. by apply gmap_conflicts_false.
Qed.
Lemma gmap_create_total c r t :
  (forall k' r', t !! k' = Some r' -> c r r' = false) -> is_Some (gmap_create c r t).
Proof.
  intros Hc. unfold gmap_create. rewrite (proj2 (gmap_conflicts_false _ _ _) Hc). cbv zeta.
  generalize (fresh ({[""%string]} ∪ dom t)). eauto.
Qed.

Lemma gmap_delete_lookup k t :
  forall (P : R -> Prop), (forall k' r', delete k t !! k' = Some r' -> P r') <->
    (forall k' r', k' <> k -> t !! k' = Some r' -> P r').
Proof.
  intros P. split; intros H k' r'.
  - intros Hne Hk. eapply H. rewrite lookup_delete_ne; [exact Hk|congruence].
  - intros [Hne Hk]%lookup_delete_Some. eapply H; [|exact Hk]. congruence.
Qed.
End gmap_prisma.

(** A page: the matching rows in order, from the cursor on. *)
Section gmap_page.
Context {R : Type} (p : string -> R -> bool) (le : relation (string * R)) `{!RelDecision le, !Transitive le, !Total le}.

Fixpoint from_key (k : string) (l : list (string * R)) : list (string * R) :=
  match l with
  | [] => []
  | kr :: l' => if decide (kr.1 = k) then l else from_key k l'
  end.
Definition gmap_page (cursor : option string) (skip n : nat) (t : gmap string R) : list (string * R) :=
  let l := merge_sort le (filter (fun kr => p kr.1 kr.2 = true) (map_to_list t)) in
  take n (drop skip (match cursor with None => l | Some k => from_key k l end)).

Lemma gmap_page_sorted t l :
  l ≡ₚ filter (fun kr => p kr.1 kr.2 = true) (map_to_list t) -> StronglySorted le l ->
  (forall a b, a ∈ l -> b ∈ l -> le a b -> le b a -> a = b) ->
  merge_sort le (filter (fun kr => p kr.1 kr.2 = true) (map_to_list t)) = l.
Proof.
  intros Hp Hs Ha. apply (StronglySorted_unique_strong le); [|by apply StronglySorted_merge_sort; apply _|done|by rewrite merge_sort_Permutation].
  intros a b Hin Hin' Hab Hba. apply Ha; [|done|done|done].
  rewrite merge_sort_Permutation in Hin. by rewrite Hp.
Qed.
Lemma from_key_app k r l1 l2 t :
  l1 ++ (k, r) :: l2 ≡ₚ filter (fun kr => p kr.1 kr.2 = true) (map_to_list t) ->
  from_key k (l1 ++ (k, r) :: l2) = (k, r) :: l2.
Proof.
  intros Hp. assert (Hnd : NoDup (l1 ++ (k, r) :: l2).*1).
  { rewrite Hp. apply NoDup_fmap_fst; [|by apply NoDup_filter, NoDup_map_to_list].
    intros x y1 y2 [_ H1%elem_of_map_to_list]%list_elem_of_filter [_ H2%elem_of_map_to_list]%list_elem_of_filter. congruence. }
  clear Hp. induction l1 as [|[k' r'] l1 IH]; cbn; [by rewrite decide_True|].
  cbn in Hnd. apply NoDup_cons in Hnd as [Hn Hnd]. rewrite decide_False; [by apply IH|].
  intros ->. apply Hn. rewrite fmap_app. apply elem_of_app. right. by left.
Qed.
End gmap_page.

#[export] Program Instance gmap_prisma : Prisma := {|
  table := gmap string;
  rows := fun R t => t;
  updateMany := fun R p f t =>
    (size (filter (fun kr => p kr.1 kr.2 = true) t),
     map_imap (fun k r => Some (if p k r then f r else r)) t);
  update := fun R => gmap_update;
  create := fun R => gmap_create;
  createAt := fun R c k r t =>
    if bool_decide (t !! k = None) && negb (gmap_conflicts c r t) then Some (<[k := r]> t) else None;
  deleteMany := fun R p t =>
    (size (filter (fun kr => p kr.1 kr.2 = true) t), filter (fun kr => p kr.1 kr.2 = false) t);
  findPage := fun R p le H cursor skip n t => gmap_page p le cursor skip n t
|}.
Next Obligation. intros. cbn. rewrite map_lookup_imap. by destruct (t !! k). Qed.
Next Obligation. done. Qed.
Next Obligation.
  intros R c k f t t' Hu. apply bind_Some in Hu as (r & Hr & Hu). exists r. split; [done|].
  destruct (gmap_conflicts _ _ _) eqn:E; [done|]. injection Hu as <-. split; [done|].
  exact (proj1 (gmap_delete_lookup k t (fun r' => c (f r) r' = false))
           (proj1 (gmap_conflicts_false _ _ _) E)).
Qed.
Next Obligation.
  intros R c k f t r Hr Hc. unfold gmap_update. rewrite Hr. cbn.
  rewrite (proj2 (gmap_conflicts_false _ _ _)); [eauto|].
  exact (proj2 (gmap_delete_lookup k t (fun r' => c (f r) r' = false)) Hc).
Qed.
Next Obligation.
  intros R c r t k t' Hu. exact (proj2 (gmap_create_some c r t k t' Hu)).
Qed.
Next Obligation.
  intros R c r t k t' Hu. exact (proj1 (gmap_create_some c r t k t' Hu)).
Qed.
Next Obligation.
  intros R c r t Hc. exact (gmap_create_total c r t Hc).
Qed.
Next Obligation.
  intros R c k r t t' Hc. cbn in Hc. case_bool_decide as Hk; [|done]. destruct (gmap_conflicts c r t) eqn:E; [done|].
  injection Hc as <-. split; [done|]. split; [done|]. by apply gmap_conflicts_false.
Qed.
Next Obligation.
  intros R c k r t Hk Hc. cbn. rewrite bool_decide_true, (proj2 (gmap_conflicts_false _ _ _) Hc) by done. eauto.
Qed.
Next Obligation. done. Qed.
Next Obligation. done. Qed.
Next Obligation.
  intros R p le ? ? ? skip n t. eexists. split; [apply (merge_sort_Permutation le)|]. split; [apply (StronglySorted_merge_sort le); apply _|done].
Qed.
Next Obligation.
  intros R p le ? ? ? skip n t l1 k r l2 Hp Hs Ha. cbn. unfold gmap_page.
  rewrite (gmap_page_sorted p le t (l1 ++ (k, r) :: l2)) by done. by rewrite (from_key_app p k r l1 l2 t).
Qed.
