(* ===== verification/Domain.v ===== *)
(** The rows of the database the messaging pipeline works on ([prisma/schema.prisma]), the
    world an operation runs in, and its primitive effects: reading the clock and one
    database call.

    The clock and the failures of the database are arbitrary: [Environment] gives the time
    that the n-th effect sees and whether the n-th call fails, before or after it took
    effect.  A theorem about all environments covers every such behaviour. *)
From stdpp Require Import prelude gmap strings.
From Stdlib Require Import ZArith Lia.
From S2P Require Import Prelude Json Io Prisma.
#[local] Open Scope Z_scope.

(** ** Enumerations *)
Module MessageDirection.
Inductive t := INBOUND | OUTBOUND.
#[export] Instance eq_dec : EqDecision t.
Proof. solve_decision. Defined.
Definition name (x : t) : string :=
  match x with INBOUND => "INBOUND" | OUTBOUND => "OUTBOUND" end.
End MessageDirection.
Export (hints) MessageDirection.

Module MessageTrafficClass.
Inductive t := OTP | TRANSACTIONAL | MARKETING.
#[export] Instance eq_dec : EqDecision t.
Proof. solve_decision. Defined.
Definition name (x : t) : string :=
  match x with OTP => "OTP" | TRANSACTIONAL => "TRANSACTIONAL" | MARKETING => "MARKETING" end.
End MessageTrafficClass.
Export (hints) MessageTrafficClass.

Module MessageStatus.
Inductive t := CREATED | RECEIVED | QUEUED | PROCESSING | SUBMITTED | SENT | DELIVERED | READ | FAILED | CANCELLED | EXPIRED.
#[export] Instance eq_dec : EqDecision t.
Proof. solve_decision. Defined.
Definition name (x : t) : string :=
  match x with CREATED => "CREATED" | RECEIVED => "RECEIVED" | QUEUED => "QUEUED" | PROCESSING => "PROCESSING" | SUBMITTED => "SUBMITTED" | SENT => "SENT" | DELIVERED => "DELIVERED" | READ => "READ" | FAILED => "FAILED" | CANCELLED => "CANCELLED" | EXPIRED => "EXPIRED" end.
End MessageStatus.
Export (hints) MessageStatus.

Module MessageType.
Inductive t := TEXT | TEMPLATE | IMAGE | VIDEO | AUDIO | DOCUMENT | INTERACTIVE | LOCATION | CONTACT | UNKNOWN.
#[export] Instance eq_dec : EqDecision t.
Proof. solve_decision. Defined.
Definition name (x : t) : string :=
  match x with TEXT => "TEXT" | TEMPLATE => "TEMPLATE" | IMAGE => "IMAGE" | VIDEO => "VIDEO" | AUDIO => "AUDIO" | DOCUMENT => "DOCUMENT" | INTERACTIVE => "INTERACTIVE" | LOCATION => "LOCATION" | CONTACT => "CONTACT" | UNKNOWN => "UNKNOWN" end.
End MessageType.
Export (hints) MessageType.

Module ConsentStatus.
Inductive t := UNKNOWN | OPTED_IN | OPTED_OUT.
#[export] Instance eq_dec : EqDecision t.
Proof. solve_decision. Defined.
Definition name (x : t) : string :=
  match x with UNKNOWN => "UNKNOWN" | OPTED_IN => "OPTED_IN" | OPTED_OUT => "OPTED_OUT" end.
End ConsentStatus.
Export (hints) ConsentStatus.

Module ConversationStatus.
Inductive t := OPEN | PENDING | RESOLVED.
#[export] Instance eq_dec : EqDecision t.
Proof. solve_decision. Defined.
Definition name (x : t) : string :=
  match x with OPEN => "OPEN" | PENDING => "PENDING" | RESOLVED => "RESOLVED" end.
End ConversationStatus.
Export (hints) ConversationStatus.

Module ConversationPriority.
Inductive t := LOW | NORMAL | HIGH | URGENT.
#[export] Instance eq_dec : EqDecision t.
Proof. solve_decision. Defined.
Definition name (x : t) : string :=
  match x with LOW => "LOW" | NORMAL => "NORMAL" | HIGH => "HIGH" | URGENT => "URGENT" end.
End ConversationPriority.
Export (hints) ConversationPriority.

Module InboxAgentPresenceStatus.
Inductive t := AVAILABLE | AWAY | OFFLINE.
#[export] Instance eq_dec : EqDecision t.
Proof. solve_decision. Defined.
End InboxAgentPresenceStatus.
Export (hints) InboxAgentPresenceStatus.

Module TenantStatus.
Inductive t := ACTIVE | SUSPENDED.
#[export] Instance eq_dec : EqDecision t.
Proof. solve_decision. Defined.
End TenantStatus.
Export (hints) TenantStatus.

Module CampaignStatus.
Inductive t := DRAFT | SCHEDULED | RUNNING | PAUSED | COMPLETED | CANCELLED | FAILED.
#[export] Instance eq_dec : EqDecision t.
Proof. solve_decision. Defined.
Definition name (x : t) : string :=
  match x with DRAFT => "DRAFT" | SCHEDULED => "SCHEDULED" | RUNNING => "RUNNING" | PAUSED => "PAUSED" | COMPLETED => "COMPLETED" | CANCELLED => "CANCELLED" | FAILED => "FAILED" end.
End CampaignStatus.
Export (hints) CampaignStatus.

Module CampaignRecipientStatus.
Inductive t := PENDING | PROCESSING | QUEUED | SKIPPED | FAILED | CANCELLED.
#[export] Instance eq_dec : EqDecision t.
Proof. solve_decision. Defined.
Definition name (x : t) : string :=
  match x with PENDING => "PENDING" | PROCESSING => "PROCESSING" | QUEUED => "QUEUED" | SKIPPED => "SKIPPED" | FAILED => "FAILED" | CANCELLED => "CANCELLED" end.
End CampaignRecipientStatus.
Export (hints) CampaignRecipientStatus.

(** ** Rows *)

(** A row of [Message]; ids are the keys of the tables. *)
Module Message.
Record t := make {
  tenantId : option string;
  senderId : option string;
  conversationId : option string;
  direction : MessageDirection.t;
  trafficClass : MessageTrafficClass.t;
  type : MessageType.t;
  status : MessageStatus.t;
  to : option string;
  from : option string;
  providerMessageId : option string;
  providerTimestamp : option Z;
  idempotencyKey : option string;
  payload : json;
  providerResponse : option json;
  errorCode : option string;
  errorMessage : option string;
  attemptCount : Z;
  lastAttemptAt : option Z;
  processingLeaseUntil : option Z;
  createdAt : Z;
  submittedAt : option Z;
  sentAt : option Z;
  deliveredAt : option Z;
  readAt : option Z;
  failedAt : option Z
}.
#[export] Instance settable : Settable t := fun x =>
  make
    (tenantId x) (senderId x) (conversationId x) (direction x) (trafficClass x) (type
    x) (status x) (to x) (from x) (providerMessageId x) (providerTimestamp x)
    (idempotencyKey x) (payload x) (providerResponse x) (errorCode x) (errorMessage x)
    (attemptCount x) (lastAttemptAt x) (processingLeaseUntil x) (createdAt x)
    (submittedAt x) (sentAt x) (deliveredAt x) (readAt x) (failedAt x).
End Message.
Export (hints) Message.

(** A row of [MessageStatusEvent]. *)
Module MessageStatusEvent.
Record t := make {
  messageId : string;
  status : MessageStatus.t;
  payload : option json;
  createdAt : option Z
}.
#[export] Instance settable : Settable t := fun x =>
  make
    (messageId x) (status x) (payload x) (createdAt x).
End MessageStatusEvent.
Export (hints) MessageStatusEvent.

(** A row of [OutboxEvent]. *)
Module OutboxEvent.
Record t := make {
  aggregateType : string;
  aggregateId : string;
  eventType : string;
  payload : json;
  attempts : Z;
  nextAttemptAt : Z;
  processingLeaseUntil : option Z;
  lastError : option string;
  publishedAt : option Z;
  createdAt : Z
}.
#[export] Instance settable : Settable t := fun x =>
  make
    (aggregateType x) (aggregateId x) (eventType x) (payload x) (attempts x)
    (nextAttemptAt x) (processingLeaseUntil x) (lastError x) (publishedAt x)
    (createdAt x).
End OutboxEvent.
Export (hints) OutboxEvent.

(** A row of [WebhookEvent]. *)
Module WebhookEvent.
Record t := make {
  payload : json;
  processed : bool;
  attemptCount : Z;
  nextAttemptAt : Z;
  processingLeaseUntil : option Z;
  lastError : option string;
  receivedAt : Z;
  processedAt : option Z
}.
#[export] Instance settable : Settable t := fun x =>
  make
    (payload x) (processed x) (attemptCount x) (nextAttemptAt x) (processingLeaseUntil
    x) (lastError x) (receivedAt x) (processedAt x).
End WebhookEvent.
Export (hints) WebhookEvent.

(** A row of [Contact]: the columns the messaging pipeline reads. *)
Module Contact.
Record t := make {
  tenantId : string;
  phone : string;
  name : option string;
  language : option string;
  timezone : option string;
  tags : list string;
  consentStatus : ConsentStatus.t;
  consentSource : option string;
  consentAt : option Z;
  optedOutAt : option Z;
  lastInboundAt : option Z;
  serviceWindowExpiresAt : option Z;
  metadata : option json
}.
#[export] Instance settable : Settable t := fun x =>
  make
    (tenantId x) (phone x) (name x) (language x) (timezone x) (tags x) (consentStatus x)
    (consentSource x) (consentAt x) (optedOutAt x) (lastInboundAt x) (serviceWindowExpiresAt x)
    (metadata x).
End Contact.
Export (hints) Contact.

(** A row of [ContactConsentEvent]. *)
Module ConsentEvent.
Record t := make {
  tenantId : string;
  contactId : string;
  status : ConsentStatus.t;
  source : string;
  occurredAt : Z;
  evidence : option json
}.
End ConsentEvent.

(** A row of [WhatsAppPhoneNumber]. *)
Module Sender.
Record t := make {
  tenantId : string;
  providerPhoneNumberId : string;
  wabaId : option string;
  displayPhoneNumber : option string;
  verifiedName : option string;
  credentialRef : string;
  rateLimitPerSecond : option Z;
  active : bool;
  isDefault : bool;
  createdAt : Z
}.
#[export] Instance settable : Settable t := fun x =>
  make
    (tenantId x) (providerPhoneNumberId x) (wabaId x) (displayPhoneNumber x) (verifiedName x)
    (credentialRef x) (rateLimitPerSecond x) (active x) (isDefault x) (createdAt x).
End Sender.
Export (hints) Sender.

(** A row of [AuditLog]: what the code writes, and the time the database adds. *)
Module AuditData.
Record t := make {
  tenantId : string;
  actorApiKeyId : string;
  action : string;
  entityType : string;
  entityId : option string;
  metadata : option json;
  ipAddress : option string;
  userAgent : option string
}.
End AuditData.
Module AuditLog.
Record t := make { data : AuditData.t; createdAt : Z }.
End AuditLog.

(** A row of [MessageTemplate]. *)
Module Template.
Record t := make {
  tenantId : string;
  wabaId : string;
  providerTemplateId : string;
  name : string;
  language : string;
  category : option string;
  status : string;
  components : option json;
  qualityScore : option json;
  rejectionReason : option string;
  providerPayload : option json;
  lastSyncedAt : option Z
}.
#[export] Instance settable : Settable t := fun x =>
  make
    (tenantId x) (wabaId x) (providerTemplateId x) (name x) (language x) (category x) (status x)
    (components x) (qualityScore x) (rejectionReason x) (providerPayload x) (lastSyncedAt x).
End Template.
Export (hints) Template.

(** An event handed to the realtime channel of the inbox. *)
Module RealtimeEvent.
Record t := make { tenantId : string; type : string; data : list (string * json) }.
End RealtimeEvent.

(** A row of [Campaign]. *)
Module Campaign.
Record t := make {
  tenantId : string;
  senderId : string;
  templateId : string;
  name : string;
  status : CampaignStatus.t;
  audience : json;
  components : option json;
  personalizationEnabled : bool;
  scheduledAt : option Z;
  snapshotAt : option Z;
  startedAt : option Z;
  completedAt : option Z;
  cancelledAt : option Z;
  failureReason : option string;
  totalRecipients : Z;
  queuedRecipients : Z;
  skippedRecipients : Z;
  failedRecipients : Z;
  cancelledRecipients : Z;
  createdAt : Z
}.
#[export] Instance settable : Settable t := fun x =>
  make
    (tenantId x) (senderId x) (templateId x) (name x) (status x) (audience x)
    (components x) (personalizationEnabled x) (scheduledAt x) (snapshotAt x)
    (startedAt x) (completedAt x) (cancelledAt x) (failureReason x) (totalRecipients
    x) (queuedRecipients x) (skippedRecipients x) (failedRecipients x)
    (cancelledRecipients x) (createdAt x).
End Campaign.
Export (hints) Campaign.

(** A row of [ContactSegment]. *)
Module ContactSegment.
Record t := make {
  tenantId : string;
  name : string;
  description : option string;
  definition : json;
  active : bool;
  updatedAt : Z
}.
#[export] Instance settable : Settable t := fun x =>
  make (tenantId x) (name x) (description x) (definition x) (active x) (updatedAt x).
End ContactSegment.
Export (hints) ContactSegment.

(** A row of [CampaignRecipient]. *)
Module CampaignRecipient.
Record t := make {
  campaignId : string;
  contactId : string;
  messageId : option string;
  status : CampaignRecipientStatus.t;
  attemptCount : Z;
  nextAttemptAt : Z;
  processingLeaseUntil : option Z;
  lastError : option string;
  queuedAt : option Z;
  createdAt : Z
}.
#[export] Instance settable : Settable t := fun x =>
  make
    (campaignId x) (contactId x) (messageId x) (status x) (attemptCount x)
    (nextAttemptAt x) (processingLeaseUntil x) (lastError x) (queuedAt x) (createdAt
    x).
End CampaignRecipient.
Export (hints) CampaignRecipient.

(** A row of [Conversation]. *)
Module Conversation.
Record t := make {
  tenantId : string;
  contactId : string;
  senderId : string;
  assignedAgentId : option string;
  status : ConversationStatus.t;
  priority : ConversationPriority.t;
  unreadCount : Z;
  lastMessageAt : Z;
  lastInboundAt : option Z;
  lastOutboundAt : option Z;
  resolvedAt : option Z;
  responseSlaStartedAt : option Z;
  responseSlaDueAt : option Z;
  responseSlaRespondedAt : option Z;
  responseSlaEscalatedAt : option Z
}.
#[export] Instance settable : Settable t := fun x =>
  make
    (tenantId x) (contactId x) (senderId x) (assignedAgentId x) (status x) (priority x) (unreadCount x)
    (lastMessageAt x) (lastInboundAt x) (lastOutboundAt x) (resolvedAt x) (responseSlaStartedAt x)
    (responseSlaDueAt x) (responseSlaRespondedAt x) (responseSlaEscalatedAt x).
End Conversation.
Export (hints) Conversation.

(** Rows of [ConversationTeamAssignment].  A table whose key is made of columns is kept under ids
    of its own; the key is one of its constraints. *)
Module TeamAssignment.
Record t := make { tenantId : string; conversationId : string; teamId : string }.
#[export] Instance settable : Settable t := fun x => make (tenantId x) (conversationId x) (teamId x).
End TeamAssignment.
Export (hints) TeamAssignment.

(** A row of [InboxTeam]. *)
Module InboxTeam.
Record t := make {
  tenantId : string;
  name : string;
  description : option string;
  active : bool;
  responseSlaMinutes : option Z
}.
#[export] Instance settable : Settable t := fun x =>
  make (tenantId x) (name x) (description x) (active x) (responseSlaMinutes x).
End InboxTeam.
Export (hints) InboxTeam.

(** A row of [InboxAgent]. *)
Module InboxAgent.
Record t := make {
  tenantId : string;
  externalId : option string;
  name : string;
  email : option string;
  active : bool;
  presenceStatus : InboxAgentPresenceStatus.t;
  presenceUpdatedAt : Z;
  maxConcurrentConversations : option Z;
  metadata : option json
}.
#[export] Instance settable : Settable t := fun x =>
  make (tenantId x) (externalId x) (name x) (email x) (active x) (presenceStatus x) (presenceUpdatedAt x)
    (maxConcurrentConversations x) (metadata x).
End InboxAgent.
Export (hints) InboxAgent.

(** Rows of [InboxTeamMember]. *)
Module InboxTeamMember.
Record t := make { tenantId : string; teamId : string; agentId : string; createdAt : Z }.
End InboxTeamMember.

(** A row of [InboxSkill]. *)
Module InboxSkill.
Record t := make { tenantId : string; name : string; description : option string; active : bool }.
#[export] Instance settable : Settable t := fun x => make (tenantId x) (name x) (description x) (active x).
End InboxSkill.
Export (hints) InboxSkill.

(** Rows of [InboxAgentSkill] and of [ConversationSkillRequirement]. *)
Module InboxAgentSkill.
Record t := make { tenantId : string; skillId : string; agentId : string; level : Z; createdAt : Z }.
#[export] Instance settable : Settable t := fun x => make (tenantId x) (skillId x) (agentId x) (level x) (createdAt x).
End InboxAgentSkill.
Export (hints) InboxAgentSkill.
Module SkillRequirement.
Record t := make { tenantId : string; conversationId : string; skillId : string; minLevel : Z }.
#[export] Instance settable : Settable t := fun x => make (tenantId x) (conversationId x) (skillId x) (minLevel x).
End SkillRequirement.
Export (hints) SkillRequirement.

(** A row of [ConversationNote]. *)
Module ConversationNote.
Record t := make {
  tenantId : string;
  conversationId : string;
  createdByApiKeyId : option string;
  body : string;
  createdAt : Z
}.
End ConversationNote.

(** A row of [Tenant], of [ApiKey] and of [InboxCannedResponse]. *)
Module Tenant.
Record t := make { name : string; slug : string; status : TenantStatus.t }.
#[export] Instance settable : Settable t := fun x => make (name x) (slug x) (status x).
End Tenant.
Export (hints) Tenant.
Module ApiKey.
Record t := make {
  tenantId : string;
  name : string;
  prefix : string;
  keyHash : string;
  scopes : list string;
  active : bool;
  lastUsedAt : option Z;
  createdAt : Z;
  revokedAt : option Z
}.
#[export] Instance settable : Settable t := fun x =>
  make (tenantId x) (name x) (prefix x) (keyHash x) (scopes x) (active x) (lastUsedAt x) (createdAt x) (revokedAt x).
End ApiKey.
Export (hints) ApiKey.
Module CannedResponse.
Record t := make {
  tenantId : string;
  shortcut : string;
  title : string;
  body : string;
  active : bool;
  revision : Z;
  createdAt : Z;
  updatedAt : Z
}.
#[export] Instance settable : Settable t := fun x =>
  make (tenantId x) (shortcut x) (title x) (body x) (active x) (revision x) (createdAt x) (updatedAt x).
End CannedResponse.
Export (hints) CannedResponse.

(** A row of [MediaAsset]. *)
Module MediaAsset.
Record t := make {
  tenantId : string;
  senderId : string;
  providerMediaId : option string;
  category : string;
  mimeType : string;
  size : Z;
  scanMode : string;
  scanStatus : string;
  storageMode : string;
  storageKey : option string;
  storedAt : option Z;
  providerUploadedAt : option Z;
  expiresAt : option Z;
  failedAt : option Z;
  failureCode : option string;
  createdAt : Z;
  updatedAt : Z
}.
#[export] Instance settable : Settable t := fun x =>
  make (tenantId x) (senderId x) (providerMediaId x) (category x) (mimeType x) (size x) (scanMode x) (scanStatus x)
    (storageMode x) (storageKey x) (storedAt x) (providerUploadedAt x) (expiresAt x) (failedAt x) (failureCode x)
    (createdAt x) (updatedAt x).
End MediaAsset.
Export (hints) MediaAsset.

(** ** Constraints of the schema *)
Definition same_some {A} `{EqDecision A} (a b : option A) : bool :=
  bool_decide (is_Some a /\ a = b).
(** [@unique] on [providerMessageId], [@@unique([tenantId, idempotencyKey])]; in SQL a NULL
    equals nothing. *)
Definition message_unique : constraint Message.t := fun a b =>
  same_some (Message.providerMessageId a) (Message.providerMessageId b) ||
  (same_some (Message.tenantId a) (Message.tenantId b) &&
   same_some (Message.idempotencyKey a) (Message.idempotencyKey b)).
(** [@@unique([tenantId, phone])] *)
Definition contact_unique : constraint Contact.t := fun a b =>
  bool_decide (Contact.tenantId a = Contact.tenantId b /\ Contact.phone a = Contact.phone b).
(** [@unique] on [providerPhoneNumberId] *)
Definition sender_unique : constraint Sender.t := fun a b =>
  bool_decide (Sender.providerPhoneNumberId a = Sender.providerPhoneNumberId b).
(** [@unique] on [providerTemplateId], [@@unique([tenantId, wabaId, name, language])] *)
Definition template_unique : constraint Template.t := fun a b =>
  bool_decide (Template.providerTemplateId a = Template.providerTemplateId b) ||
  bool_decide (Template.tenantId a = Template.tenantId b /\ Template.wabaId a = Template.wabaId b /\
               Template.name a = Template.name b /\ Template.language a = Template.language b).
(** [@@unique([tenantId, senderId, contactId])] *)
Definition conversation_unique : constraint Conversation.t := fun a b =>
  bool_decide (Conversation.tenantId a = Conversation.tenantId b /\
               Conversation.senderId a = Conversation.senderId b /\
               Conversation.contactId a = Conversation.contactId b).

(** [@id] on [conversationId] of [ConversationTeamAssignment], and the keys and unique constraints of
    the inbox. *)
Definition assignment_unique : constraint TeamAssignment.t := fun a b =>
  bool_decide (TeamAssignment.conversationId a = TeamAssignment.conversationId b).
Definition agent_unique : constraint InboxAgent.t := fun a b =>
  bool_decide (InboxAgent.tenantId a = InboxAgent.tenantId b) &&
  same_some (InboxAgent.externalId a) (InboxAgent.externalId b).
Definition team_unique : constraint InboxTeam.t := fun a b =>
  bool_decide (InboxTeam.tenantId a = InboxTeam.tenantId b /\ InboxTeam.name a = InboxTeam.name b).
Definition member_unique : constraint InboxTeamMember.t := fun a b =>
  bool_decide (InboxTeamMember.teamId a = InboxTeamMember.teamId b /\
               InboxTeamMember.agentId a = InboxTeamMember.agentId b).
Definition skill_unique : constraint InboxSkill.t := fun a b =>
  bool_decide (InboxSkill.tenantId a = InboxSkill.tenantId b /\ InboxSkill.name a = InboxSkill.name b).
Definition agentSkill_unique : constraint InboxAgentSkill.t := fun a b =>
  bool_decide (InboxAgentSkill.skillId a = InboxAgentSkill.skillId b /\
               InboxAgentSkill.agentId a = InboxAgentSkill.agentId b).
Definition requirement_unique : constraint SkillRequirement.t := fun a b =>
  bool_decide (SkillRequirement.conversationId a = SkillRequirement.conversationId b /\
               SkillRequirement.skillId a = SkillRequirement.skillId b).
(** [@unique] on [keyHash], [@@unique([tenantId, shortcut])], [@@unique([tenantId, providerMediaId])]
    and [@@unique([tenantId, storageKey])] *)
Definition apiKey_unique : constraint ApiKey.t := fun a b => bool_decide (ApiKey.keyHash a = ApiKey.keyHash b).
Definition canned_unique : constraint CannedResponse.t := fun a b =>
  bool_decide (CannedResponse.tenantId a = CannedResponse.tenantId b /\ CannedResponse.shortcut a = CannedResponse.shortcut b).
Definition asset_unique : constraint MediaAsset.t := fun a b =>
  bool_decide (MediaAsset.tenantId a = MediaAsset.tenantId b) &&
  (same_some (MediaAsset.providerMediaId a) (MediaAsset.providerMediaId b) ||
   same_some (MediaAsset.storageKey a) (MediaAsset.storageKey b)).

(** ** The world *)
Section world.
Context `{Prisma}.

Record World := {
  messages : table Message.t;
  statusEvents : table MessageStatusEvent.t;
  outboxEvents : table OutboxEvent.t;
  webhookEvents : table WebhookEvent.t;
  contacts : table Contact.t;
  consentEvents : table ConsentEvent.t;
  conversations : table Conversation.t;
  teamAssignments : table TeamAssignment.t;
  teams : table InboxTeam.t;
  inboxAgents : table InboxAgent.t;
  teamMembers : table InboxTeamMember.t;
  skills : table InboxSkill.t;
  agentSkills : table InboxAgentSkill.t;
  skillRequirements : table SkillRequirement.t;
  conversationNotes : table ConversationNote.t;
  senders : table Sender.t;
  auditLogs : table AuditLog.t;
  templates : table Template.t;
  campaigns : table Campaign.t;
  recipients : table CampaignRecipient.t;
  segments : table ContactSegment.t;
  tenants : table Tenant.t;
  apiKeys : table ApiKey.t;
  cannedResponses : table CannedResponse.t;
  mediaAssets : table MediaAsset.t;
  files : gset string;         (** paths of the media files on disk, uploads and stored ones *)
  objects : gset string;       (** URLs of the objects in the media bucket *)
  uploads : list (string * string);   (** path and type of the files handed to Meta, in order *)
  realtime : list RealtimeEvent.t;   (** the calls of the inbox's [publish], in order *)
  sent : list string;   (** ids of the messages handed to Meta, in order *)
  tick : nat
}.

#[export] Instance settable_World : Settable World := fun x =>
  Build_World (messages x) (statusEvents x) (outboxEvents x) (webhookEvents x) (contacts x) (consentEvents x) (conversations x) (teamAssignments x)
    (teams x) (inboxAgents x) (teamMembers x) (skills x) (agentSkills x) (skillRequirements x) (conversationNotes x) (senders x) (auditLogs x) (templates x) (campaigns x) (recipients x) (segments x)
    (tenants x) (apiKeys x) (cannedResponses x) (mediaAssets x) (files x) (objects x) (uploads x) (realtime x) (sent x) (tick x).
End world.
#[export] Existing Instance settable_World.


(** A failing call throws an [Error] of Prisma's. *)
Inductive fault := Reliable | LostBefore (message : string) | LostAfter (message : string).

Class Environment := {
  clock : nat -> Z;          (** milliseconds since the epoch *)
  db_fault : nat -> fault
}.

(** How a computation ends: [P] when it returns, [E] of what it throws.  What matters inside a
    transaction is a normal end: an exception undoes everything. *)
Definition outcome {W A} (E : js_error -> Prop) (P : A -> W -> Prop) (r : exec js_error A) (w : W) : Prop :=
  match r with Ok a => P a w | Throws e => E e | OutOfFuel => False end.
Abbreviation on_ok := (outcome (fun _ => True)).

Section effects.
Context `{Prisma} `{Environment}.

Definition bump (w : World) : World := w <| tick := S (tick w) |>.

(** [Date.now()] *)
Definition now : io World Z := fun w => (Ok (clock (tick w)), bump w).

(** One call to the database.  [None]: the database refuses it. *)
Definition db {A} (f : World -> option (A * World)) : io World A := fun w =>
  match db_fault (tick w) with
  | Reliable =>
      match f (bump w) with
      | Some (a, w') => (Ok a, w')
      | None => (Throws (Error "database request refused"), bump w)
      end
  | LostBefore e => (Throws (Error e), bump w)
  | LostAfter e => (Throws (Error e), match f (bump w) with Some (_, w') => w' | None => bump w end)
  end.

(** Where the code looks at the error: a request the database refuses, [P2002] for a unique
    constraint. *)
Definition db_known {A} (code : string) (f : World -> option (A * World)) : io World A := fun w =>
  match db_fault (tick w), f (bump w) with
  | Reliable, None => (Throws (KnownRequestError code "database request refused"), bump w)
  | _, _ => db f w
  end.

(** [prisma.$transaction(m)]: an exception, in [m] or at the commit, undoes all of it.  A
    failure reported after the commit leaves it done. *)
Definition transaction {A} (m : io World A) : io World A := fun w =>
  match m w with
  | (Ok a, w') =>
      match db_fault (tick w') with
      | Reliable => (Ok a, bump w')
      | LostBefore e => (Throws (Error e), w <| tick := S (tick w') |>)
      | LostAfter e => (Throws (Error e), bump w')
      end
  | (Throws e, w') => (Throws e, w <| tick := tick w' |>)
  | (OutOfFuel, w') => (OutOfFuel, w')
  end.

Lemma wp_now (Q : exec js_error Z -> World -> Prop) w :
  (forall t, Q (Ok t) (bump w)) -> wp now Q w.
Proof. intros HQ. apply HQ. Qed.

(** A database call either fails, and then may or may not have happened, or returns. *)
Lemma wp_db {A} (f : World -> option (A * World)) (Q : exec js_error A -> World -> Prop) w :
  (forall e, Q (Throws (Error e)) (bump w)) ->
  (forall a w', f (bump w) = Some (a, w') -> (forall e, Q (Throws (Error e)) w') /\ Q (Ok a) w') ->
  wp (db f) Q w.
Proof.
  intros Hfail Hok. unfold wp, db. destruct (db_fault (tick w)) as [|e|e]; cbn; [|apply Hfail|].
  - destruct (f (bump w)) as [[a w']|] eqn:E; cbn; [apply (Hok a w' eq_refl)|apply Hfail].
  - destruct (f (bump w)) as [[a w']|] eqn:E; cbn; [apply (Hok a w' eq_refl)|apply Hfail].
Qed.

(** Without failures a call is its function. *)
Definition no_faults : Prop := forall n, db_fault n = Reliable.

Lemma wp_db_reliable {A} (f : World -> option (A * World)) (Q : exec js_error A -> World -> Prop) w a w' :
  no_faults -> f (bump w) = Some (a, w') -> Q (Ok a) w' -> wp (db f) Q w.
Proof. intros Hr Hf HQ. unfold wp, db. by rewrite Hr, Hf. Qed.

Lemma wp_db_known {A} code (f : World -> option (A * World)) (Q : exec js_error A -> World -> Prop) w :
  (forall e, Q (Throws (Error e)) (bump w)) ->
  (f (bump w) = None -> forall m, Q (Throws (KnownRequestError code m)) (bump w)) ->
  (forall a w', f (bump w) = Some (a, w') -> (forall e, Q (Throws (Error e)) w') /\ Q (Ok a) w') ->
  wp (db_known code f) Q w.
Proof.
  intros Hfail Hno Hok. unfold wp, db_known, db. destruct (db_fault (tick w)); destruct (f (bump w)) as [[a w']|] eqn:E;
    cbn; try apply Hfail; try by apply (Hok a w').
  by apply Hno.
Qed.

Lemma wp_transaction {A} (m : io World A) (Q : exec js_error A -> World -> Prop) w :
  wp m (fun r w' => match r with
                    | Ok a => (forall e n, Q (Throws (Error e)) (w <| tick := n |>)) /\
                        (forall e, Q (Throws (Error e)) (bump w')) /\ Q (Ok a) (bump w')
                    | Throws e => forall n, Q (Throws e) (w <| tick := n |>)
                    | OutOfFuel => Q OutOfFuel w'
                    end) w ->
  wp (transaction m) Q w.
Proof.
  unfold wp, transaction. destruct (m w) as [[a|e|] w']; cbn; [|auto|done].
  intros (H1 & H2 & H3). destruct (db_fault (tick w')); cbn; auto.
Qed.

(** A transaction keeps an invariant that its body keeps when it ends normally. *)
Lemma wp_transaction_ok {A} (m : io World A) (P : A -> World -> Prop) (I : World -> Prop) w :
  I w -> (forall w n, I w -> I (w <| tick := n |>)) ->
  (forall a w n, P a w -> P a (w <| tick := n |>)) ->
  wp m (on_ok (fun a w' => I w' /\ P a w')) w ->
  wp (transaction m) (fun r w' => I w' /\ on_ok P r w') w.
Proof.
  intros HI Ht HP Hm. apply wp_transaction. unfold wp in *. destruct (m w) as [[a|e|] w'] eqn:E; cbn in *; [| |done].
  - destruct Hm as [Hi Hp]. assert (HI' : I (bump w')) by by apply Ht.
    split; [intros; split; [by apply Ht|done]|]. split; [done|]. split; [done|]. by apply HP.
  - intros n. split; [by apply Ht|done].
Qed.
End effects.


(** A database that never fails and a clock that stands still, for examples. *)
Definition calm (t : Z) : Environment := {| clock := fun _ => t; db_fault := fun _ => Reliable |}.

(** ** Calls on the message tables *)
Section message_calls.
Context `{Prisma} `{Environment}.

Definition message_find (id : string) : io World (option Message.t) :=
  db (fun w => Some (rows (messages w) !! id, w)).
Definition message_updateMany (p : string -> Message.t -> bool) (f : Message.t -> Message.t)
    : io World nat :=
  db (fun w => let '(n, t) := updateMany p f (messages w) in Some (n, w <| messages := t |>)).
Definition status_event_create (ev : MessageStatusEvent.t) : io World unit :=
  db (fun w => '(_, t) ← create unconstrained ev (statusEvents w);
               Some (tt, w <| statusEvents := t |>)).
(** [message.update] with a nested [statusEvents.create]: one statement, all or nothing. *)
Definition message_update (c : constraint Message.t) (id : string) (f : Message.t -> Message.t)
    (ev : MessageStatusEvent.t) : io World unit :=
  db (fun w => t ← update c id f (messages w);
               '(_, evs) ← create unconstrained ev (statusEvents w);
               Some (tt, w <| messages := t |> <| statusEvents := evs |>)).

Lemma wp_message_find id (Q : exec js_error (option Message.t) -> World -> Prop) w :
  (forall e, Q (Throws (Error e)) (bump w)) -> Q (Ok (rows (messages w) !! id)) (bump w) ->
  wp (message_find id) Q w.
Proof. intros He Ho. apply wp_db; [done|]. intros a w' [= <- <-]. done. Qed.

(** [updateMany] with an id: the row changes when it matches, and the count says whether. *)
Lemma wp_message_updateMany_id id p f (Q : exec js_error nat -> World -> Prop) w :
  (forall e, Q (Throws (Error e)) (bump w)) ->
  (forall t n,
     (match rows (messages w) !! id with
      | Some m => if p m : bool then n = 1%nat /\ rows t = <[id := f m]> (rows (messages w))
                  else n = 0%nat /\ rows t = rows (messages w)
      | None => n = 0%nat /\ rows t = rows (messages w)
      end) ->
     let w' := bump w <| messages := t |> in
     (forall e, Q (Throws (Error e)) w') /\ Q (Ok n) w') ->
  wp (message_updateMany (fun k m => bool_decide (k = id) && p m) f) Q w.
Proof.
  intros He Ho. apply wp_db; [done|]. intros n w'.
  destruct (updateMany _ f (messages (bump w))) as [n' t] eqn:E. intros [= <- <-].
  pose proof (updateMany_id_rows p f (messages (bump w)) id) as Hr.
  pose proof (updateMany_id_count p f (messages (bump w)) id) as Hc.
  rewrite E in Hr, Hc. cbn [fst snd] in Hr, Hc. change (messages (bump w)) with (messages w) in *.
  apply (Ho t n'). destruct (rows (messages w) !! id) as [m|]; [destruct (p m)|]; auto.
Qed.

Lemma wp_message_update c id f ev (Q : exec js_error unit -> World -> Prop) w :
  (forall e, Q (Throws (Error e)) (bump w)) ->
  (forall t evs m k, rows (messages w) !! id = Some m ->
     rows t = <[id := f m]> (rows (messages w)) ->
     (forall k' m', k' <> id -> rows (messages w) !! k' = Some m' -> c (f m) m' = false) ->
     rows (statusEvents w) !! k = None -> rows evs = <[k := ev]> (rows (statusEvents w)) ->
     let w' := bump w <| messages := t |> <| statusEvents := evs |> in
     (forall e, Q (Throws (Error e)) w') /\ Q (Ok tt) w') ->
  wp (message_update c id f ev) Q w.
Proof.
  intros He Ho. apply wp_db; [done|]. intros [] w' Hf.
  apply bind_Some in Hf as (t & Ht & Hf). apply bind_Some in Hf as ([k evs] & Hev & Hf).
  injection Hf as <-. apply update_some in Ht as (m & Hm & Ht & Hc).
  apply create_some in Hev as (Hk & Hev & _). exact (Ho t evs m k Hm Ht Hc Hk Hev).
Qed.

Lemma wp_status_event_create ev (Q : exec js_error unit -> World -> Prop) w :
  (forall e, Q (Throws (Error e)) (bump w)) ->
  (forall evs k, rows (statusEvents w) !! k = None ->
     rows evs = <[k := ev]> (rows (statusEvents w)) ->
     (forall e, Q (Throws (Error e)) (bump w <| statusEvents := evs |>)) /\
     Q (Ok tt) (bump w <| statusEvents := evs |>)) ->
  wp (status_event_create ev) Q w.
Proof.
  intros He Ho. apply wp_db; [done|]. intros [] w' Hf.
  apply bind_Some in Hf as ([k evs] & Hev & [= <-]). apply create_some in Hev as (Hk & Hev & _).
  exact (Ho evs k Hk Hev).
Qed.
End message_calls.
