(* ===== verification/Frame.v ===== *)
(** What an operation leaves alone.  [frames v m] says that the part [v] of the world, a table or
    anything computed from the tables, is after [m] what it was before, whatever [m] returns or
    throws.  The rules go through the code statement by statement; [frame_steps] applies them. *)
From stdpp Require Import prelude gmap strings.
From Stdlib Require Import ZArith Lia.
From S2P Require Import Prelude Json Io Prisma Domain.
#[local] Open Scope Z_scope.

Section frames.
Context `{Prisma} `{Environment} {V : Type}.
Context (v : World -> V) (v_tick : forall w n, v (w <| tick := n |>) = v w).

Definition frames {A} (m : io World A) : Prop := forall w, v (m w).2 = v w.

Lemma frames_wp {A} (m : io World A) (Q : exec js_error A -> World -> Prop) w :
  frames m -> wp m Q w -> wp m (fun r w' => Q r w' /\ v w' = v w) w.
Proof. intros Hf Hq. split; [exact Hq|apply Hf]. Qed.

Lemma frames_ret {A} (a : A) : frames (mret a).
Proof. done. Qed.
Lemma frames_throw {A} e : frames (throw e : io World A).
Proof. done. Qed.
Lemma frames_lift {A} (x : exec js_error A) : frames (lift x).
Proof. done. Qed.
Lemma frames_now : frames now.
Proof. intros w. apply v_tick. Qed.
Lemma frames_tick {A} (f : World -> exec js_error A) : frames (fun w => (f w, bump w)).
Proof. intros w. apply v_tick. Qed.
Lemma frames_bind {A B} (m : io World A) (f : A -> io World B) :
  frames m -> (forall a, frames (f a)) -> frames (m ≫= f).
Proof.
  intros Hm Hf w. unfold mbind, io_bind. specialize (Hm w). destruct (m w) as [[a|e|] w']; cbn in *; [|done|done].
  by rewrite Hf.
Qed.
Lemma frames_try {A} (m : io World A) (h : js_error -> io World A) :
  frames m -> (forall e, frames (h e)) -> frames (try_catch m h).
Proof.
  intros Hm Hh w. unfold try_catch. specialize (Hm w). destruct (m w) as [[a|e|] w']; cbn in *; [done| |done].
  by rewrite Hh.
Qed.
Lemma frames_for_each {X} (l : list X) (f : X -> io World unit) :
  (forall x, frames (f x)) -> frames (for_each l f).
Proof.
  intros Hf. induction l as [|x l IH]; cbn; [apply frames_ret|]. by apply frames_bind.
Qed.
Lemma frames_db {A} (f : World -> option (A * World)) :
  (forall w a w', f w = Some (a, w') -> v w' = v w) -> frames (db f).
Proof.
  intros Hf w. unfold db. assert (Hb : v (bump w) = v w) by apply v_tick.
  assert (forall a w', f (bump w) = Some (a, w') -> v w' = v w) by (intros a w' E; by rewrite (Hf _ _ _ E)).
  destruct (db_fault (tick w)); [|done|]; destruct (f (bump w)) as [[a w']|]; cbn; by eauto.
Qed.
Lemma frames_db_known {A} code (f : World -> option (A * World)) :
  (forall w a w', f w = Some (a, w') -> v w' = v w) -> frames (db_known code f).
Proof.
  intros Hf w. unfold db_known. pose proof (frames_db f Hf w) as Hd. assert (Hb : v (bump w) = v w) by apply v_tick.
  destruct (db_fault (tick w)); [|done|done]. by destruct (f (bump w)).
Qed.
Lemma frames_transaction {A} (m : io World A) : frames m -> frames (transaction m).
Proof.
  intros Hm w. unfold transaction. specialize (Hm w). destruct (m w) as [[a|e|] w'] eqn:E; cbn in *; [|apply v_tick|done].
  destruct (db_fault (tick w')); cbn; [|apply v_tick|]; by rewrite <- Hm; apply v_tick.
Qed.
End frames.

(** A table an insertion does not reach. *)
Lemma fmap_insert_same {A B} (f : A -> B) (m : gmap string A) k x y :
  m !! k = Some x -> f y = f x -> f <$> <[k := y]> m = f <$> m.
Proof. intros Hk Hf. rewrite fmap_insert, Hf. apply insert_id. by rewrite lookup_fmap, Hk. Qed.

(** Reads and writes of other tables, by their equations. *)
Ltac frame_db :=
  intros; repeat match goal with
  | E : (let '(_, _) := ?x in _) = Some _ |- _ => destruct x eqn:?
  | E : (match ?x with _ => _ end) = Some _ |- _ => destruct x eqn:?; try discriminate E
  | E : mbind _ _ = Some _ |- _ => apply bind_Some in E as (? & ? & E)
  | E : Some _ = Some _ |- _ => injection E as <- <-
  end; try reflexivity.
Ltac frame_step :=
  match goal with
  | |- frames _ (mret _) => apply frames_ret
  | |- frames _ (throw _) => apply frames_throw
  | |- frames _ (lift _) => apply frames_lift
  | |- frames _ now => apply frames_now; first [reflexivity|assumption]
  | |- frames _ (mbind _ _) => apply frames_bind; [|intros ?]
  | |- frames _ (try_catch _ _) => apply frames_try; [|intros ?]
  | |- frames _ (for_each _ _) => apply frames_for_each; intros ?
  | |- frames _ (db _) => apply frames_db; [first [reflexivity|assumption]|try solve [frame_db]]
  | |- frames _ (db_known _ _) => apply frames_db_known; [first [reflexivity|assumption]|try solve [frame_db]]
  | |- frames _ (transaction _) => apply frames_transaction; [first [reflexivity|assumption]|]
  | |- frames _ (fun w => (_, bump w)) => apply frames_tick; first [reflexivity|assumption]
  | |- frames _ (let '(_, _) := ?x in _) => destruct x
  | |- frames _ (if ?b then _ else _) => destruct b
  | |- frames _ (match ?x with _ => _ end) => destruct x
  end.
Ltac frame_steps := repeat (cbv zeta; frame_step).

(** ** Operations that come back *)
(** [returns m]: whatever the state, [m] ends in a value or an exception. *)
Section returns.
Context `{Prisma} `{Environment}.

Definition returns {A} (m : io World A) : Prop := forall w, (m w).1 <> OutOfFuel.

Lemma returns_ret {A} (a : A) : returns (mret a).
Proof. done. Qed.
Lemma returns_throw {A} e : returns (throw e : io World A).
Proof. done. Qed.
Lemma returns_lift {A} (x : exec js_error A) : x <> OutOfFuel -> returns (lift x).
Proof. by intros Hx w. Qed.
Lemma returns_now : returns now.
Proof. done. Qed.
Lemma returns_tick {A} (f : World -> exec js_error A) (g : World -> World) :
  (forall w, f w <> OutOfFuel) -> returns (fun w => (f w, g w)).
Proof. intros Hf w. apply Hf. Qed.
Lemma returns_bind {A B} (m : io World A) (f : A -> io World B) :
  returns m -> (forall a, returns (f a)) -> returns (m ≫= f).
Proof.
  intros Hm Hf w. unfold mbind, io_bind. specialize (Hm w). destruct (m w) as [[a|e|] w']; cbn in *; [apply Hf|done|done].
Qed.
Lemma returns_try {A} (m : io World A) (h : js_error -> io World A) :
  returns m -> (forall e, returns (h e)) -> returns (try_catch m h).
Proof.
  intros Hm Hh w. unfold try_catch. specialize (Hm w). destruct (m w) as [[a|e|] w']; cbn in *; [done|apply Hh|done].
Qed.
Lemma returns_for_each {X} (l : list X) (f : X -> io World unit) : (forall x, returns (f x)) -> returns (for_each l f).
Proof. intros Hf. induction l as [|x l IH]; cbn; [apply returns_ret|]. by apply returns_bind. Qed.
Lemma returns_db {A} (f : World -> option (A * World)) : returns (db f).
Proof. intros w. unfold db. destruct (db_fault (tick w)); [|done|done]. by destruct (f (bump w)) as [[a w']|]. Qed.
Lemma returns_db_known {A} code (f : World -> option (A * World)) : returns (db_known code f).
Proof.
  intros w. unfold db_known. pose proof (returns_db f w) as Hd.
  destruct (db_fault (tick w)); [|done|done]. by destruct (f (bump w)).
Qed.
Lemma returns_transaction {A} (m : io World A) : returns m -> returns (transaction m).
Proof.
  intros Hm w. unfold transaction. specialize (Hm w). destruct (m w) as [[a|e|] w']; cbn in *; [|done|done].
  by destruct (db_fault (tick w')).
Qed.
Lemma wp_frame {V A} (v : World -> V) (m : io World A) w :
  frames v m -> returns m -> wp m (fun r w' => r <> OutOfFuel /\ v w' = v w) w.
Proof. intros Hf Hr. split; [apply Hr|apply Hf]. Qed.
Lemma returns_run {A} (m : io World A) w r w' : returns m -> m w = (r, w') -> r <> OutOfFuel.
Proof. intros Hm E. specialize (Hm w). by rewrite E in Hm. Qed.
End returns.

(** A pure computation that binds and branches. *)
Ltac returns_lift_tac :=
  repeat match goal with
  | |- Ok _ <> OutOfFuel => discriminate
  | |- Throws _ <> OutOfFuel => discriminate
  | |- context [match ?x with _ => _ end] => destruct x
  end.
Ltac returns_step :=
  match goal with
  | |- returns (mret _) => apply returns_ret
  | |- returns (throw _) => apply returns_throw
  | |- returns now => apply returns_now
  | |- returns (mbind _ _) => apply returns_bind; [|intros ?]
  | |- returns (try_catch _ _) => apply returns_try; [|intros ?]
  | |- returns (for_each _ _) => apply returns_for_each; intros ?
  | |- returns (db _) => apply returns_db
  | |- returns (db_known _ _) => apply returns_db_known
  | |- returns (transaction _) => apply returns_transaction
  | |- returns (modify _) => intros ?; discriminate
  | |- returns (let '(_, _) := ?x in _) => destruct x
  | |- returns (if ?b then _ else _) => destruct b
  | |- returns (match ?x with _ => _ end) => destruct x
  end.
Ltac returns_steps := repeat (cbv zeta; returns_step).

(** ** What every step may do *)
(** [preserves R m]: whatever happens, [m] leads from a state to one that [R] relates to it. *)
Section preserves.
Context `{Prisma} `{Environment}.
Context (R : relation World) `{!PreOrder R} (R_tick : forall w n, R w (w <| tick := n |>)).

Definition preserves {A} (m : io World A) : Prop := forall w, R w (m w).2.

Lemma preserves_ret {A} (a : A) : preserves (mret a).
Proof. intros w. reflexivity. Qed.
Lemma preserves_throw {A} e : preserves (throw e : io World A).
Proof. intros w. reflexivity. Qed.
Lemma preserves_lift {A} (x : exec js_error A) : preserves (lift x).
Proof. intros w. reflexivity. Qed.
Lemma preserves_now : preserves now.
Proof. intros w. apply R_tick. Qed.
Lemma preserves_bind {A B} (m : io World A) (f : A -> io World B) :
  preserves m -> (forall a, preserves (f a)) -> preserves (m ≫= f).
Proof.
  intros Hm Hf w. unfold mbind, io_bind. specialize (Hm w). destruct (m w) as [[a|e|] w']; cbn in *; [|done|done].
  etrans; [exact Hm|apply Hf].
Qed.
Lemma preserves_try {A} (m : io World A) (h : js_error -> io World A) :
  preserves m -> (forall e, preserves (h e)) -> preserves (try_catch m h).
Proof.
  intros Hm Hh w. unfold try_catch. specialize (Hm w). destruct (m w) as [[a|e|] w']; cbn in *; [done| |done].
  etrans; [exact Hm|apply Hh].
Qed.
Lemma preserves_for_each {X} (l : list X) (f : X -> io World unit) : (forall x, preserves (f x)) -> preserves (for_each l f).
Proof. intros Hf. induction l as [|x l IH]; cbn; [apply preserves_ret|]. by apply preserves_bind. Qed.
Lemma preserves_db {A} (f : World -> option (A * World)) :
  (forall w a w', f w = Some (a, w') -> R w w') -> preserves (db f).
Proof.
  intros Hf w. unfold db. assert (Hb : R w (bump w)) by apply R_tick.
  assert (forall a w', f (bump w) = Some (a, w') -> R w w') by (intros a w' E; etrans; [exact Hb|by eapply Hf]).
  destruct (db_fault (tick w)); [|done|]; destruct (f (bump w)) as [[a w']|]; cbn; by eauto.
Qed.
Lemma preserves_transaction {A} (m : io World A) : preserves m -> preserves (transaction m).
Proof.
  intros Hm w. unfold transaction. specialize (Hm w). destruct (m w) as [[a|e|] w'] eqn:E; cbn in *; [|apply R_tick|done].
  destruct (db_fault (tick w')); cbn; [|apply R_tick|]; (etrans; [exact Hm|apply R_tick]).
Qed.
Lemma preserves_reads {A} (m : io World A) {V} (v : World -> V) :
  (forall w w', v w' = v w -> R w w') -> frames v m -> preserves m.
Proof. intros Hv Hm w. apply Hv, Hm. Qed.

(** A transaction counts only when its body ends normally. *)
Lemma preserves_transaction_ok {A} (m : io World A) :
  (forall w, wp m (on_ok (fun _ w' => R w w')) w) -> preserves (transaction m).
Proof.
  intros Hm w. unfold transaction. specialize (Hm w). unfold wp in Hm. destruct (m w) as [[a|e|] w'] eqn:E; cbn in *; [|apply R_tick|done].
  destruct (db_fault (tick w')); cbn; [|apply R_tick|]; (etrans; [exact Hm|apply R_tick]).
Qed.
End preserves.

Ltac preserve_step :=
  match goal with
  | |- preserves _ (mret _) => apply preserves_ret; [apply _]
  | |- preserves _ (throw _) => apply preserves_throw; [apply _]
  | |- preserves _ (lift _) => apply preserves_lift; [apply _]
  | |- preserves _ now => apply preserves_now; done
  | |- preserves _ (mbind _ _) => apply preserves_bind; [apply _| |intros ?]
  | |- preserves _ (try_catch _ _) => apply preserves_try; [apply _| |intros ?]
  | |- preserves _ (for_each _ _) => apply preserves_for_each; [apply _|intros ?]
  | |- preserves _ (let '(_, _) := ?x in _) => destruct x
  | |- preserves _ (if ?b then _ else _) => destruct b
  | |- preserves _ (match ?x with _ => _ end) => destruct x
  end.
Ltac preserve_steps := repeat (cbv zeta; preserve_step).
