(* ===== verification/RateLimiter.v ===== *)
(** The distributed rate limiter ([worker/distributed-rate-limiter.service.ts]): the slot
    reservation script that Redis runs atomically, the shares of the traffic classes, and
    the waiting loop of the workers. *)
From stdpp Require Import prelude gmap strings pretty.
From Stdlib Require Import ZArith Lia SpecFloat.
From S2P Require Import Prelude Float64 Json Io Domain.
#[local] Open Scope Z_scope.

(** ** Redis *)
(** A key holds a counter and possibly the time it expires at. *)
Abbreviation keyspace := (gmap string (Z * option Z)).
Definition alive (t : Z) (e : Z * option Z) : bool :=
  match e.2 with Some expiry => t <? expiry | None => true end.
(** [GET key], as a number, at time [t]. *)
Definition redis_get (t : Z) (k : string) (ks : keyspace) : option Z :=
  match ks !! k with Some e => if alive t e then Some e.1 else None | None => None end.
(** [INCR key] keeps the expiry of a live key and starts an expired one anew. *)
Definition redis_incr (t : Z) (k : string) (ks : keyspace) : Z * keyspace :=
  match ks !! k with
  | Some e => if alive t e then (e.1 + 1, <[k := (e.1 + 1, e.2)]> ks) else (1, <[k := (1, None)]> ks)
  | None => (1, <[k := (1, None)]> ks)
  end.
(** [PEXPIRE key ttl] *)
Definition redis_pexpire (t : Z) (k : string) (ttl : Z) (ks : keyspace) : keyspace :=
  match ks !! k with
  | Some e => if alive t e then <[k := (e.1, Some (t + ttl))]> ks else ks
  | None => ks
  end.

Definition RESERVE_SLOT_LUA (t : Z) (totalKey classKey : string) (totalLimit classLimit ttl : Z)
    (ks : keyspace) : Z * keyspace :=
  let total := default 0 (redis_get t totalKey ks) in
  let classCurrent := default 0 (redis_get t classKey ks) in
  if (totalLimit <=? total) || (classLimit <=? classCurrent) then (0, ks) else
  let '(newTotal, ks) := redis_incr t totalKey ks in
  let '(newClass, ks) := redis_incr t classKey ks in
  let ks := if newTotal =? 1 then redis_pexpire t totalKey ttl ks else ks in
  let ks := if newClass =? 1 then redis_pexpire t classKey ttl ks else ks in
  (1, ks).

(** ** Configuration *)
(** The number a setting converts to; [None] when it is not set. *)
Definition settings := string -> option f64.
Definition d0_6 : f64 := S754_finite false 5404319552844595 (-53).
Definition d0_2 : f64 := S754_finite false 3602879701896397 (-54).
Definition d0_9 : f64 := S754_finite false 8106479329266893 (-53).

Definition is_finite (x : f64) : bool :=
  match x with S754_zero _ | S754_finite _ _ _ => true | _ => false end.
Definition lt64 : f64 -> f64 -> bool := SFltb.
Definition le64 : f64 -> f64 -> bool := SFleb.

Section config.
Context (config : settings).

Definition share (name : string) (fallback : f64) : f64 :=
  let value := default fallback (config name) in
  if is_finite value && lt64 (f64_of_Z 0) value && le64 value (f64_of_Z 1) then value else fallback.

(** [transactional, marketing] *)
Definition reservationShares : f64 * f64 :=
  let transactional := share "OUTBOUND_TRANSACTIONAL_MAX_SHARE" d0_6 in
  let marketing := share "OUTBOUND_MARKETING_MAX_SHARE" d0_2 in
  if lt64 d0_9 (f64_add transactional marketing) then (d0_6, d0_2) else (transactional, marketing).

Definition reservationWindowMs : Z :=
  let value := default (f64_of_Z 700) (config "OUTBOUND_PRIORITY_RESERVATION_WINDOW_MS") in
  if is_finite value && le64 (f64_of_Z 0) value && le64 value (f64_of_Z 950) then floor64 value else 700.

Definition reservedClassLimit (limit : Z) (trafficClass : MessageTrafficClass.t) : Z :=
  let '(transactional, marketing) := reservationShares in
  match trafficClass with
  | MessageTrafficClass.OTP => limit
  | MessageTrafficClass.TRANSACTIONAL => Z.max 1 (floor64 (f64_mul (f64_of_Z limit) transactional))
  | MessageTrafficClass.MARKETING => Z.max 1 (floor64 (f64_mul (f64_of_Z limit) marketing))
  end.

Definition sender_limit (configuredLimit : option f64) : Z :=
  let defaultLimit := default (f64_of_Z 75) (config "DEFAULT_OUTBOUND_RATE_LIMIT_PER_SECOND") in
  let candidateLimit := default defaultLimit configuredLimit in
  if is_finite candidateLimit && lt64 (f64_of_Z 0) candidateLimit
  then Z.max 1 (floor64 candidateLimit) else 75.

(** ** The waiting loop *)
Definition total_key (phoneNumberId : string) (window : Z) : string :=
  "rate:whatsapp:outbound:" +:+ phoneNumberId +:+ ":" +:+ pretty window.
Definition class_key (phoneNumberId : string) (window : Z) (c : MessageTrafficClass.t) : string :=
  total_key phoneNumberId window +:+ ":" +:+ JsString.toLowerCase (MessageTrafficClass.name c).

Definition class_limit (limit now : Z) (c : MessageTrafficClass.t) : Z :=
  if reservationWindowMs <=? now mod 1000 then limit else reservedClassLimit limit c.

(** One turn of the loop at [now]; Redis runs the script at time [t].  [None]: the slot is
    taken; [Some delayMs]: try again after the delay. *)
Definition attempt (now t : Z) (phoneNumberId : string) (c : MessageTrafficClass.t) (limit : Z)
    (ks : keyspace) : option Z * keyspace :=
  let elapsed := now mod 1000 in
  let window := now / 1000 in
  let classLimit := class_limit limit now c in
  let '(accepted, ks') :=
    RESERVE_SLOT_LUA t (total_key phoneNumberId window) (class_key phoneNumberId window c)
      limit classLimit 2000 ks in
  if accepted =? 1 then (None, ks') else
  let delayMs := if elapsed <? reservationWindowMs
                 then Z.max 25 (reservationWindowMs - elapsed + 5)
                 else Z.max 25 (1000 - elapsed + 5) in
  (Some delayMs, ks').
End config.

(** The status of the client, and [ensureConnected]: the exception it ends in, if any. *)
Inductive redis_status := Wait | Connecting | Connect | Ready | Reconnecting | Close | End.
Definition ensureConnected (status : redis_status) (connect : option js_error) : option js_error :=
  match status with
  | Ready | Connecting | Connect => None
  | Wait => connect
  | End => Some (Error "Redis rate limiter connection is closed")
  | Reconnecting | Close => None
  end.

(** What the loop meets in each turn: the client's status, how connecting ends, the time, the
    time at Redis, whether [eval] fails, and what the other workers did to the keys since. *)
Record turn := {
  t_status : redis_status; t_connect : option js_error; t_now : Z; t_redis : Z;
  t_eval : option js_error; t_others : keyspace -> keyspace
}.

Fixpoint wait_loop (config : settings) (phoneNumberId : string) (c : MessageTrafficClass.t) (limit : Z)
    (turns : nat -> turn) (fuel n : nat) (ks : keyspace) : exec js_error unit * keyspace :=
  match fuel with
  | O => (OutOfFuel, ks)
  | S fuel' =>
      let u := turns n in
      match ensureConnected (t_status u) (t_connect u) with
      | Some e => (Throws e, ks)
      | None =>
          let ks := t_others u ks in
          match t_eval u with
          | Some e => (Throws e, ks)
          | None =>
              match attempt config (t_now u) (t_redis u) phoneNumberId c limit ks with
              | (None, ks') => (Ok tt, ks')
              | (Some _, ks') => wait_loop config phoneNumberId c limit turns fuel' (S n) ks'
              end
          end
      end
  end.

Definition waitForOutboundSlot (config : settings) (phoneNumberId : string) (c : MessageTrafficClass.t)
    (configuredLimit : option f64) (turns : nat -> turn) (fuel : nat) (ks : keyspace)
    : exec js_error unit * keyspace :=
  wait_loop config phoneNumberId c (sender_limit config configuredLimit) turns fuel 0 ks.

(** ** The script on live keys *)
Lemma lookup_keys_ne phone w c : total_key phone w <> class_key phone w c.
Proof.
  unfold class_key. intros E. apply (f_equal String.length) in E.
  rewrite !JsString.length_app in E. cbn in E. lia.
Qed.

Lemma class_key_inj phone w c d : class_key phone w c = class_key phone w d -> c = d.
Proof.
  unfold class_key. intros E. apply (inj (String.append _)) in E. by destruct c, d.
Qed.

(** A counter that was never incremented, or holds [n] and lives at least until [deadline]. *)
Definition counter (ks : keyspace) (k : string) (n deadline : Z) : Prop :=
  match ks !! k with
  | None => n = 0
  | Some (v, e) => v = n /\ 0 < n /\ exists expiry, e = Some expiry /\ deadline <= expiry
  end.

Lemma counter_get ks k n deadline t :
  counter ks k n deadline -> t < deadline -> default 0 (redis_get t k ks) = n.
Proof.
  unfold counter, redis_get. destruct (_ !! k) as [[v e]|]; [|by intros ->].
  intros (-> & _ & expiry & -> & He) Ht. unfold alive. cbn. by rewrite (proj2 (Z.ltb_lt _ _)) by lia.
Qed.

(** [INCR], and [PEXPIRE] of a counter that was new, count one up. *)
Definition count_up (t ttl : Z) (k : string) (ks : keyspace) : keyspace :=
  let '(n, ks) := redis_incr t k ks in if n =? 1 then redis_pexpire t k ttl ks else ks.

Lemma count_up_spec t ttl k ks n deadline :
  counter ks k n deadline -> 0 <= n -> t < deadline <= t + ttl ->
  counter (count_up t ttl k ks) k (n + 1) deadline /\
  forall k', k' <> k -> count_up t ttl k ks !! k' = ks !! k'.
Proof.
  unfold counter at 1, count_up, redis_incr. intros Hc Hn Ht.
  destruct (_ !! k) as [[v e]|] eqn:Hk.
  - destruct Hc as (-> & Hpos & expiry & -> & He). unfold alive. cbn [fst snd].
    rewrite (proj2 (Z.ltb_lt _ _)) by lia. rewrite (proj2 (Z.eqb_neq _ _)) by lia.
    split; [|intros k' Hk'; by rewrite lookup_insert_ne].
    unfold counter. rewrite lookup_insert_eq. split; [lia|]. split; [lia|eauto].
  - subst n. change (1 =? 1) with true. cbv iota. unfold redis_pexpire. rewrite lookup_insert_eq.
    cbn [alive fst snd]. split.
    + unfold counter. rewrite lookup_insert_eq. split; [done|]. split; [lia|]. exists (t + ttl). split; [done|lia].
    + intros k' Hk'. by rewrite !lookup_insert_ne.
Qed.

(** The script in terms of [count_up]: the two keys do not interfere. *)
Lemma RESERVE_SLOT_LUA_spec t tk ck tl cl ttl ks n m deadline :
  tk <> ck -> counter ks tk n deadline -> counter ks ck m deadline -> 0 <= n -> 0 <= m ->
  t < deadline <= t + ttl ->
  let '(accepted, ks') := RESERVE_SLOT_LUA t tk ck tl cl ttl ks in
  if (n <? tl) && (m <? cl) then
    accepted = 1 /\ counter ks' tk (n + 1) deadline /\ counter ks' ck (m + 1) deadline /\
    forall k, k <> tk -> k <> ck -> ks' !! k = ks !! k
  else accepted = 0 /\ ks' = ks.
Proof.
  intros Hne Hn Hm Hn0 Hm0 Ht. unfold RESERVE_SLOT_LUA.
  rewrite (counter_get ks tk n deadline), (counter_get ks ck m deadline) by (done || lia).
  rewrite (Z.ltb_antisym tl n), (Z.ltb_antisym cl m), <- negb_orb.
  destruct ((tl <=? n) || (cl <=? m)); cbn [negb]; [done|].
  destruct (redis_incr t tk ks) as [nt ks1] eqn:E1.
  destruct (redis_incr t ck ks1) as [nc ks2] eqn:E2.
  (* incrementing the class counter does not touch the total, so the order is immaterial *)
  pose proof (count_up_spec t ttl tk ks n deadline Hn Hn0 Ht) as [Hc1 Ho1].
  assert (Heq : (let ks := if nt =? 1 then redis_pexpire t tk ttl ks2 else ks2 in
            if nc =? 1 then redis_pexpire t ck ttl ks else ks) =
          count_up t ttl ck (count_up t ttl tk ks)).
  { unfold count_up. rewrite E1.
    assert (Hsame : forall K : keyspace, K !! ck = ks1 !! ck -> 
      redis_incr t ck K = (nc, match ks2 !! ck with Some e => <[ck := e]> K | None => K end)).
    { intros K HK. revert E2. unfold redis_incr. rewrite HK.
      destruct (ks1 !! ck) as [e|]; [destruct (alive t e)|];
        (intros [= <- <-]; by rewrite lookup_insert_eq). }
    assert (Hks2 : exists e, ks2 = <[ck := e]> ks1 /\ ks2 !! ck = Some e).
    { revert E2. unfold redis_incr. destruct (ks1 !! ck) as [e|]; [destruct (alive t e)|];
        (intros [= <- <-]; eexists; by rewrite lookup_insert_eq). }
    destruct Hks2 as (e & -> & _). cbv zeta.
    destruct (nt =? 1).
    - rewrite Hsame, lookup_insert_eq.
      + f_equal. destruct (nc =? 1); [f_equal|]; unfold redis_pexpire;
        rewrite lookup_insert_ne by done; destruct (ks1 !! tk) as [e'|]; try done;
        destruct (alive t e'); try done; by rewrite insert_insert_ne.
      + unfold redis_pexpire. destruct (ks1 !! tk) as [e'|]; [|done].
        destruct (alive t e'); [|done]. by rewrite lookup_insert_ne.
    - rewrite E2. done. }
  cbv zeta in Heq. rewrite Heq. split; [done|].
  assert (Hm' : counter (count_up t ttl tk ks) ck m deadline).
  { unfold counter in *. by rewrite Ho1 by done. }
  destruct (count_up_spec t ttl ck _ m deadline Hm' Hm0 Ht) as [Hc2 Ho2].
  split; [|split; [done|]].
  - unfold counter in *. by rewrite Ho2 by done.
  - intros k Hk1 Hk2. by rewrite Ho2, Ho1.
Qed.

(** ** All the attempts of all the workers in one window *)
Section window.
Context (config : settings) (phone : string) (window limit t0 : Z).

Definition of_class (c : MessageTrafficClass.t) (acc : list (MessageTrafficClass.t * Z)) : Z :=
  Z.of_nat (length (filter (fun a => a.1 = c) acc)).
Definition window_key (k : string) : Prop :=
  k = total_key phone window \/ exists c, k = class_key phone window c.

(** [reserved ks0 acc ks]: from [ks0], attempts and whatever else happens in Redis lead to
    [ks]; [acc] are the class and time of the accepted attempts, the latest first. *)
Inductive reserved (ks0 : keyspace) : list (MessageTrafficClass.t * Z) -> keyspace -> Prop :=
| reserved_start : reserved ks0 [] ks0
| reserved_attempt acc ks c now t :
    reserved ks0 acc ks -> now / 1000 = window -> t0 <= t < t0 + 2000 ->
    reserved ks0
      (match (attempt config now t phone c limit ks).1 with
       | None => (c, now) :: acc
       | Some _ => acc
       end) (attempt config now t phone c limit ks).2
| reserved_elsewhere acc ks ks' :
    reserved ks0 acc ks -> (forall k, window_key k -> ks' !! k = ks !! k) -> reserved ks0 acc ks'.

(** The counters are the numbers of accepted attempts. *)
Definition counters (acc : list (MessageTrafficClass.t * Z)) (ks : keyspace) : Prop :=
  counter ks (total_key phone window) (Z.of_nat (length acc)) (t0 + 2000) /\
  forall c, counter ks (class_key phone window c) (of_class c acc) (t0 + 2000).

Lemma of_class_cons c c' now acc :
  of_class c ((c', now) :: acc) = if decide (c' = c) then of_class c acc + 1 else of_class c acc.
Proof. unfold of_class. rewrite filter_cons. cbn. destruct (decide (c' = c)); cbn; lia. Qed.

Lemma of_class_nonneg c acc : 0 <= of_class c acc.
Proof. unfold of_class. lia. Qed.

Lemma attempt_counters acc ks c now t :
  counters acc ks -> now / 1000 = window -> t0 <= t < t0 + 2000 ->
  let cl := class_limit config limit now c in
  let '(d, ks') := attempt config now t phone c limit ks in
  if (Z.of_nat (length acc) <? limit) && (of_class c acc <? cl)
  then d = None /\ counters ((c, now) :: acc) ks'
  else is_Some d /\ ks' = ks.
Proof.
  intros [Ht Hc] Hw Hr cl. unfold attempt. rewrite Hw. fold cl.
  pose proof (RESERVE_SLOT_LUA_spec t (total_key phone window) (class_key phone window c)
    limit cl 2000 ks _ _ (t0 + 2000) (lookup_keys_ne _ _ _) Ht (Hc c)
    (Nat2Z.is_nonneg _) (of_class_nonneg _ _) ltac:(lia)) as Hs.
  destruct (RESERVE_SLOT_LUA _ _ _ _ _ _ _) as [accepted ks'].
  destruct (_ && _); [destruct Hs as (-> & H1 & H2 & Ho)|by destruct Hs as (-> & ->)].
  split; [done|]. split.
  - cbn [length]. by rewrite Nat2Z.inj_succ, <- Z.add_1_r.
  - intros d. rewrite of_class_cons. destruct (decide (c = d)) as [<-|Hcd]; [done|].
    unfold counter in *. rewrite Ho; [apply Hc|apply not_eq_sym, lookup_keys_ne|].
    intros E%class_key_inj. congruence.
Qed.

Lemma reserved_counters ks0 acc ks :
  (forall k, window_key k -> ks0 !! k = None) -> reserved ks0 acc ks -> counters acc ks.
Proof.
  intros Hempty. induction 1 as [|acc ks c now t Hr IH Hw Ht|acc ks ks' Hr IH Ho].
  - split; [|intros c]; unfold counter; rewrite Hempty; try done; [by left|right; eauto].
  - pose proof (attempt_counters acc ks c now t IH Hw Ht) as Ha. cbv zeta in Ha.
    destruct (attempt config now t phone c limit ks) as [d ks']. cbn [fst snd].
    destruct (_ && _); [by destruct Ha as [-> ?]|by destruct Ha as [[? ->] ->]].
  - destruct IH as [Hc1 Hc2]. split; [|intros c]; unfold counter in *; rewrite Ho;
      [done|by left|apply Hc2|right; eauto].
Qed.

Lemma reserved_bounded ks0 acc ks :
  0 <= limit -> (forall k, window_key k -> ks0 !! k = None) -> reserved ks0 acc ks ->
  Z.of_nat (length acc) <= limit /\
  forall acc1 acc2 c now, acc = acc1 ++ (c, now) :: acc2 ->
    of_class c acc2 < class_limit config limit now c.
Proof.
  intros Hl Hempty. induction 1 as [|acc ks c now t Hr IH Hw Ht|acc ks ks' Hr IH Ho].
  - split; [cbn; lia|]. by intros [|] ? ? ? ?.
  - pose proof (reserved_counters _ _ _ Hempty Hr) as Hc.
    pose proof (attempt_counters acc ks c now t Hc Hw Ht) as Ha. cbv zeta in Ha.
    destruct (attempt config now t phone c limit ks) as [d ks']. cbn [fst snd].
    destruct (_ && _) eqn:E; [destruct Ha as [-> _]|destruct Ha as [[x ->] ->]; apply IH].
    apply andb_true_iff in E as [E1%Z.ltb_lt E2%Z.ltb_lt]. split; [cbn [length]; lia|].
    intros [|a acc1] acc2 c' now' Ea; [by injection Ea as <- <- <-|].
    injection Ea as <- ->. by apply (proj2 IH acc1).
  - exact IH.
Qed.
End window.



(** ** The reservation window *)
Definition valid_settings (config : settings) : Prop :=
  forall name v, config name = Some v -> f64_valid v = true.

Lemma reservationWindowMs_range config :
  valid_settings config -> 0 <= reservationWindowMs config <= 950.
Proof.
  intros Hv. unfold reservationWindowMs. set (name := "OUTBOUND_PRIORITY_RESERVATION_WINDOW_MS"%string).
  set (value := default (f64_of_Z 700) (config name)).
  assert (Hval : f64_valid value = true).
  { unfold value. destruct (config name) eqn:E; [by eapply Hv|by vm_compute]. }
  destruct (is_finite value && le64 (f64_of_Z 0) value && le64 value (f64_of_Z 950)) eqn:E; [|lia].
  apply andb_true_iff in E as [[_ E1]%andb_true_iff E2].
  assert (H950 : f64_of_Z 950 = S754_finite false 8356288371097600 (-43)) by reflexivity.
  unfold le64 in E2. rewrite H950 in E2.
  assert (Hs : forall s m e, value = S754_finite s m e -> s = false).
  { intros [] m e Ev; [|done]. unfold le64 in E1. rewrite Ev in E1. discriminate E1. }
  unfold floor64. destruct value as [b|b| |s m e] eqn:Ev; [cbn; lia|cbn; lia|cbn; lia|].
  destruct (f64_floor_range (S754_finite s m e) s 8356288371097600 (-43) 950) as (z & -> & Hz);
    [done|done|done|by eapply Hs|lia|reflexivity|lia|]. exact Hz.
Qed.

(** one turn of [waitForOutboundSlot]: an accepted attempt takes exactly one slot of the
    sender and one of the class, both within their limits; a refused one changes nothing
    and waits between 25 ms and 1005 ms, after which the clock has reached the phase of the
    same second in which the whole limit is open to the class, or the next second. *)
Theorem attempt_progress config phone c limit now t n m deadline ks :
  valid_settings config ->
  counter ks (total_key phone (now / 1000)) n deadline ->
  counter ks (class_key phone (now / 1000) c) m deadline ->
  0 <= n -> 0 <= m -> t < deadline <= t + 2000 ->
  match attempt config now t phone c limit ks with
  | (None, ks') =>
      n < limit /\ m < class_limit config limit now c /\
      counter ks' (total_key phone (now / 1000)) (n + 1) deadline /\
      counter ks' (class_key phone (now / 1000) c) (m + 1) deadline
  | (Some delay, ks') =>
      ks' = ks /\ 25 <= delay <= 1005 /\
      ((now + delay) / 1000 = now / 1000 /\ class_limit config limit (now + delay) c = limit \/
       now / 1000 < (now + delay) / 1000)
  end.
Proof.
  intros Hv Hn Hm Hn0 Hm0 Ht. pose proof (reservationWindowMs_range config Hv) as Hr.
  unfold attempt. set (cl := class_limit config limit now c).
  pose proof (RESERVE_SLOT_LUA_spec t _ _ limit cl 2000 ks n m deadline (lookup_keys_ne phone (now / 1000) c)
    Hn Hm Hn0 Hm0 Ht) as Hs.
  destruct (RESERVE_SLOT_LUA _ _ _ _ _ _ _) as [accepted ks'].
  destruct ((n <? limit) && (m <? cl)) eqn:E.
  - destruct Hs as (-> & H1 & H2 & _). apply andb_true_iff in E as [?%Z.ltb_lt ?%Z.ltb_lt].
    change (1 =? 1) with true. cbv iota. fold cl. auto.
  - destruct Hs as (-> & ->). change (0 =? 1) with false. cbv iota. split; [done|].
    pose proof (Z.div_mod now 1000 ltac:(lia)) as Hdm.
    pose proof (Z.mod_pos_bound now 1000 ltac:(lia)) as Hmb.
    set (d := if now mod 1000 <? reservationWindowMs config then _ else _).
    assert (Hd : 25 <= d <= 1005 /\ (now mod 1000 + d < 1000 -> reservationWindowMs config <= now mod 1000 + d)).
    { unfold d. destruct (Z.ltb_spec (now mod 1000) (reservationWindowMs config)); lia. }
    split; [lia|]. destruct (Z.lt_ge_cases (now mod 1000 + d) 1000) as [Hlt|Hge].
    + left. assert (Hq : now + d = (now / 1000) * 1000 + (now mod 1000 + d)) by lia.
      assert (Hmod : (now + d) mod 1000 = now mod 1000 + d).
      { rewrite Hq, Z.add_comm, Z.mod_add by lia. apply Z.mod_small. lia. }
      split; [rewrite Hq, Z.div_add_l by lia; rewrite (Z.div_small (_ + d)); lia|].
      unfold class_limit. rewrite Hmod. by rewrite (proj2 (Z.leb_le _ _)) by lia.
    + right. apply Z.le_succ_l. apply Z.div_le_lower_bound; lia.
Qed.

Lemma attempt_progress_witness :
  valid_settings (fun _ => None) /\
  match attempt (fun _ => None) 1100 0 "1" MessageTrafficClass.OTP 5 ∅ with
  | (None, ks') => counter ks' (total_key "1" 1) 1 2000
  | (Some _, _) => False
  end.
Proof.
  assert (Hv : valid_settings (fun _ => None)) by (intros ? ? [=]). split; [exact Hv|].
  pose proof (attempt_progress (fun _ => None) "1" MessageTrafficClass.OTP 5 1100 0 0 0 2000 ∅
    Hv eq_refl eq_refl ltac:(lia) ltac:(lia) ltac:(lia)) as Hp.
  assert (E : (attempt (fun _ => None) 1100 0 "1" MessageTrafficClass.OTP 5 ∅).1 = None)
    by (vm_compute; reflexivity).
  destruct (attempt _ _ _ _ _ _ _) as [[d|] ks']; [discriminate E|apply Hp].
Defined.

(** the binary64 products of the default shares have the floors of the exact products, so for
    every limit up to 1000 messages per second the reserved limits of the default
    configuration are 3/5 and 1/5 of the limit, at least 1; OTP may always use the whole limit.
    From 3 per second on, a tenth of the limit is left to OTP. *)
Theorem default_reservation limit :
  1 <= limit <= 1000 ->
  let reserved := reservedClassLimit (fun _ => None) limit in
  reserved MessageTrafficClass.OTP = limit /\
  reserved MessageTrafficClass.TRANSACTIONAL = Z.max 1 (limit * 3 / 5) /\
  reserved MessageTrafficClass.MARKETING = Z.max 1 (limit / 5) /\
  (3 <= limit -> 10 * (reserved MessageTrafficClass.TRANSACTIONAL +
                       reserved MessageTrafficClass.MARKETING) <= 9 * limit).
Proof.
  intros Hl reserved.
  assert (Ht : reserved MessageTrafficClass.TRANSACTIONAL = Z.max 1 (limit * 3 / 5) /\
               reserved MessageTrafficClass.MARKETING = Z.max 1 (limit / 5)).
  { rewrite <- !Z.eqb_eq, <- andb_true_iff. revert Hl. unfold reserved. intros Hl.
    assert (Hb := forallb_seqZ (fun limit => (limit =? 0) ||
      (reservedClassLimit (fun _ => None) limit MessageTrafficClass.TRANSACTIONAL =? Z.max 1 (limit * 3 / 5)) &&
      (reservedClassLimit (fun _ => None) limit MessageTrafficClass.MARKETING =? Z.max 1 (limit / 5))) 1001
      ltac:(vm_compute; reflexivity) limit ltac:(lia)). cbv beta in Hb.
    rewrite (proj2 (Z.eqb_neq limit 0)) in Hb by lia. exact Hb. }
  destruct Ht as [Ht Hm]. split; [done|]. split; [done|]. split; [done|].
  intros H3. rewrite Ht, Hm. pose proof (Z.mul_div_le (limit * 3) 5 ltac:(lia)).
  pose proof (Z.mul_div_le limit 5 ltac:(lia)). lia.
Qed.

Lemma default_reservation_witness :
  1 <= 75 <= 1000 /\ reservedClassLimit (fun _ => None) 75 MessageTrafficClass.MARKETING = 15.
Proof.
  split; [lia|]. destruct (default_reservation 75 ltac:(lia)) as (_ & _ & H & _). exact H.
Defined.

(** The comment in [reservationShares] promises a tenth of the limit to OTP; for a sender
    limited to one message per second the class minimum of 1 gives the whole limit away. *)
Lemma no_headroom_at_one :
  reservedClassLimit (fun _ => None) 1 MessageTrafficClass.MARKETING = 1.
Proof. reflexivity. Qed.
