(* ===== verification/Queue.v ===== *)
(** The message queue ([queue/messaging-queue.service.ts]): parsing a delivery, the retry
    policy, dead letters, and [processDelivery], which decides what becomes of a delivery.

    RabbitMQ's channel is an effect: [sendToQueue] hands a message over, a successful
    [waitForConfirms] makes everything handed over durable, [ack] and [nack] settle the
    delivery, and each of them may fail. *)
From stdpp Require Import prelude gmap strings.
From Stdlib Require Import ZArith Lia SpecFloat.
From S2P Require Import Prelude Float64 Json Io Domain.
#[local] Open Scope Z_scope.
Import MessageTrafficClass.

(** A parsed [TraceCarrier]. *)
Record TraceCarrier := {
  traceId : string; requestId : option string; parentSpanId : option string;
  traceFlags : option string
}.

Record OutboundQueueJob := {
  messageId : string; attempt : Z; trafficClass : MessageTrafficClass.t; trace : option TraceCarrier
}.

Inductive action := AckJob | RetryJob | DeferJob | DeadJob.
#[export] Instance action_dec : EqDecision action.
Proof. solve_decision. Defined.
Record QueueProcessingResult := { res_action : action; reason : option string }.

Definition TRAFFIC_CLASSES := [OTP; TRANSACTIONAL; MARKETING].

(** ** What is published *)
Record publication := {
  queue : string;
  body : list (string * json);
  headers : list (string * json)
}.

Section names.
Context (OUTBOUND_QUEUE_NAME : option string).
(** [`${delayMs}`] *)
Context (number_text : f64 -> string).

Definition baseQueueName : string := default "whatsapp.outbound" OUTBOUND_QUEUE_NAME.
Definition trafficQueueName (c : MessageTrafficClass.t) : string :=
  baseQueueName +:+ "." +:+ JsString.toLowerCase (name c).
Definition trafficDeadQueueName (c : MessageTrafficClass.t) : string := trafficQueueName c +:+ ".dead".
Definition trafficRetryQueueName (c : MessageTrafficClass.t) (delayMs : f64) : string :=
  trafficQueueName c +:+ ".retry." +:+ number_text delayMs.
End names.

(** ** Environment settings *)
(** [s.split(",")] *)
Fixpoint split_commas (s : string) : list string :=
  match s with
  | EmptyString => [""%string]
  | String c s' =>
      if Ascii.eqb c (Ascii.ascii_of_nat 44) then ""%string :: split_commas s' else
      match split_commas s' with
      | [] => [String c ""]
      | w :: ws => String c w :: ws
      end
  end.

Definition default_delays : list f64 := f64_of_Z <$> [5000; 30000; 120000; 600000].

(** [Number] is JavaScript's conversion of text. *)
Definition retryDelays (Number : string -> f64) (OUTBOUND_RETRY_DELAYS_MS : option string) : list f64 :=
  let raw := default "5000,30000,120000,600000"%string OUTBOUND_RETRY_DELAYS_MS in
  let values := filter (fun x => finite_positive x = true)
                  ((fun value => Number (JsString.trim value)) <$> split_commas raw) in
  if (0 <? length values)%nat then values else default_delays.

(** [Number.isInteger(value) && value > 0 ? value : fallback] on the number of the text. *)
Definition positiveInteger (value : number) (fallback : Z) : Z :=
  match value with Whole n => if 0 <? n then n else fallback | Other _ => fallback end.
Definition ceil_div (a b : Z) : Z := (a + b - 1) / b.

Definition prefetchFor (number_of : string -> number) (c : MessageTrafficClass.t) : Z :=
  let base := positiveInteger (number_of "OUTBOUND_WORKER_PREFETCH") 20 in
  match c with
  | OTP => positiveInteger (number_of "OUTBOUND_WORKER_PREFETCH_OTP") (Z.max 5 (ceil_div base 2))
  | TRANSACTIONAL => positiveInteger (number_of "OUTBOUND_WORKER_PREFETCH_TRANSACTIONAL") base
  | MARKETING => positiveInteger (number_of "OUTBOUND_WORKER_PREFETCH_MARKETING") (Z.max 1 (ceil_div base 4))
  end.

(** [Math.min(...values)] *)
Definition math_min (values : list f64) : f64 :=
  foldr (fun x m => if SFltb x m then x else m) (S754_infinity false) values.

(** ** A delivery *)
(** [content] is what [JSON.parse] makes of the text, [None] when it throws. *)
Record ConsumeMessage := { content : option json; message_headers : list (string * json) }.

Definition traceHeaders (trace : option TraceCarrier) : list (string * json) :=
  match trace with
  | None => []
  | Some t =>
      ("x-trace-id"%string, JStr (traceId t)) ::
      (match requestId t with Some r => [("x-request-id"%string, JStr r)] | None => [] end) ++
      (match parentSpanId t with
       | Some p => [("traceparent"%string,
           JStr ("00-" +:+ traceId t +:+ "-" +:+ p +:+ "-" +:+ default "01"%string (traceFlags t)))]
       | None => []
       end)
  end.

Definition retryCount (message : ConsumeMessage) : Z :=
  match field "x-retry-count" (message_headers message) with
  | Some (JNum (Whole value)) => if 0 <=? value then value else 0
  | _ => 0
  end.

Section queue.
Context (parseCarrier : option json -> option TraceCarrier).
Context (carrier_json : TraceCarrier -> json).
Context (OUTBOUND_QUEUE_NAME : option string) (number_text : f64 -> string) (delays : list f64).

Definition parseMessage (message : ConsumeMessage) : option (string * option TraceCarrier) :=
  value ← content message;
  id ← as_string (prop "messageId" value);
  if String.eqb id "" then None else Some (id, parseCarrier (prop "trace" value)).

Definition job_body (id : string) (c : MessageTrafficClass.t) (trace : option TraceCarrier)
    : list (string * json) :=
  [("messageId"%string, JStr id); ("trafficClass"%string, JStr (name c))] ++
  match trace with Some t => [("trace"%string, carrier_json t)] | None => [] end.

Definition job_headers (count : Z) (c : MessageTrafficClass.t) (trace : option TraceCarrier)
    (reason : option string) : list (string * json) :=
  [("x-retry-count"%string, JNum (Whole count)); ("x-traffic-class"%string, JStr (name c))] ++
  traceHeaders trace ++
  match reason with
  | Some r => if String.eqb r "" then [] else [("x-last-error"%string, JStr (JsString.slice0 512 r))]
  | None => []
  end.

(** ** The channel *)
Record Channel := {
  pending : list publication;      (** handed over, not yet confirmed *)
  confirmed : list publication;
  settled : list bool;             (** [true]: acked; [false]: nacked and requeued *)
  ctick : nat
}.
#[export] Instance settable_Channel : Settable Channel :=
  fun x => Build_Channel (pending x) (confirmed x) (settled x) (ctick x).

Context (chan_fault : nat -> option js_error).
Context {V : Type}.
Abbreviation world := (V * Channel)%type.

Definition chan (f : Channel -> Channel) : io world unit := fun '(v, ch) =>
  let ch := ch <| ctick := S (ctick ch) |> in
  match chan_fault (pred (ctick ch)) with
  | Some e => (Throws e, (v, ch))
  | None => (Ok tt, (v, f ch))
  end.
Definition sendToQueue (p : publication) : io world unit :=
  chan (fun ch => ch <| pending := pending ch ++ [p] |>).
Definition waitForConfirms : io world unit :=
  chan (fun ch => ch <| confirmed := confirmed ch ++ pending ch |> <| pending := [] |>).
Definition ack : io world unit := chan (fun ch => ch <| settled := settled ch ++ [true] |>).
Definition nack_requeue : io world unit := chan (fun ch => ch <| settled := settled ch ++ [false] |>).
Definition run_handler {A} (m : io V A) : io world A := fun '(v, ch) =>
  let '(r, v') := m v in (r, (v', ch)).

Definition publishOutboundMessage (id : string) (c : MessageTrafficClass.t)
    (trace : option TraceCarrier) : io world unit :=
  _ ← sendToQueue {| queue := trafficQueueName OUTBOUND_QUEUE_NAME c;
                     body := job_body id c trace;
                     headers := [("x-retry-count"%string, JNum (Whole 0));
                                 ("x-traffic-class"%string, JStr (name c))] ++ traceHeaders trace |};
  waitForConfirms.

(** The publications of [scheduleDeferredRetry], [scheduleRetry] and [publishDeadLetter].
    [failedAt] is the only field of a dead letter that is left out. *)
Definition retry_publication (job : OutboundQueueJob) (delay : f64) (count : Z)
    (reason : option string) : publication :=
  {| queue := trafficRetryQueueName OUTBOUND_QUEUE_NAME number_text (trafficClass job) delay;
     body := job_body (messageId job) (trafficClass job) (trace job);
     headers := job_headers count (trafficClass job) (trace job) reason |}.

Definition dead_letter (c : MessageTrafficClass.t) (id : option string) (reason : option string)
    (trace : option TraceCarrier) : publication :=
  {| queue := trafficDeadQueueName OUTBOUND_QUEUE_NAME c;
     body := [("messageId"%string, match id with Some i => JStr i | None => JNull end);
              ("trafficClass"%string, JStr (name c));
              ("reason"%string, JStr (default "Unknown failure"%string reason))] ++
             match trace with Some t => [("trace"%string, carrier_json t)] | None => [] end;
     headers := ("x-traffic-class"%string, JStr (name c)) :: traceHeaders trace |}.

Definition scheduleDeferredRetry (job : OutboundQueueJob) (reason : option string) : io world unit :=
  let delay := math_min delays in
  _ ← sendToQueue (retry_publication job delay (attempt job) reason);
  waitForConfirms.

Definition scheduleRetry (job : OutboundQueueJob) (reason : option string) : io world bool :=
  match delays !! Z.to_nat (attempt job) with
  | None => mret false
  | Some delay =>
      _ ← sendToQueue (retry_publication job delay (attempt job + 1) reason);
      _ ← waitForConfirms;
      mret true
  end.

Definition publishDeadLetter (c : MessageTrafficClass.t) (id : option string) (reason : option string)
    (trace : option TraceCarrier) : io world unit :=
  _ ← sendToQueue (dead_letter c id reason trace);
  waitForConfirms.

Context (handler : OutboundQueueJob -> io V QueueProcessingResult).
Context (onExhausted : OutboundQueueJob -> option string -> io V unit).

Definition settle_result (c : MessageTrafficClass.t) (job : OutboundQueueJob)
    (result : QueueProcessingResult) : io world unit :=
  match res_action result with
  | AckJob => ack
  | DeadJob =>
      _ ← publishDeadLetter c (Some (messageId job)) (reason result) (trace job);
      ack
  | DeferJob =>
      _ ← scheduleDeferredRetry job (reason result);
      ack
  | RetryJob =>
      retryScheduled ← scheduleRetry job (reason result);
      _ ← (if retryScheduled : bool then mret tt else
        _ ← run_handler (onExhausted job (reason result));
        publishDeadLetter c (Some (messageId job))
          (Some (default "Retry policy exhausted"%string (reason result))) (trace job));
      ack
  end.

Definition job_of (message : ConsumeMessage) (c : MessageTrafficClass.t) : option OutboundQueueJob :=
  '(id, trace) ← parseMessage message;
  Some {| messageId := id; attempt := retryCount message; trafficClass := c; trace := trace |}.

Definition processDelivery (message : ConsumeMessage) (c : MessageTrafficClass.t) : io world unit :=
  match job_of message c with
  | None =>
      _ ← publishDeadLetter c None (Some "Malformed outbound queue message"%string) None;
      ack
  | Some job =>
      try_catch
        (result ← run_handler (handler job); settle_result c job result)
        (fun _ => nack_requeue)
  end.
End queue.

(** ** The queues of a traffic class: name, time to live, and where dead letters go *)
Record declared := { q_name : string; q_ttl : option f64; q_dead_letter : option string }.
Definition trafficTopology (OUTBOUND_QUEUE_NAME : option string) (number_text : f64 -> string)
    (delays : list f64) (c : MessageTrafficClass.t) : list declared :=
  let queueName := trafficQueueName OUTBOUND_QUEUE_NAME c in
  let deadQueueName := trafficDeadQueueName OUTBOUND_QUEUE_NAME c in
  [{| q_name := deadQueueName; q_ttl := None; q_dead_letter := None |};
   {| q_name := queueName; q_ttl := None; q_dead_letter := Some deadQueueName |}] ++
  ((fun delay => {| q_name := trafficRetryQueueName OUTBOUND_QUEUE_NAME number_text c delay;
                    q_ttl := Some delay; q_dead_letter := Some queueName |}) <$> delays).

(** What a consumer receives of a published message; text survives the JSON round trip. *)
Definition redelivered (p : publication) : ConsumeMessage :=
  {| content := Some (JObj (body p)); message_headers := headers p |}.

(** ** Reasoning about the channel *)
Section queue_proofs.
Context (parseCarrier : option json -> option TraceCarrier) (carrier_json : TraceCarrier -> json).
Context (OUTBOUND_QUEUE_NAME : option string) (number_text : f64 -> string) (delays : list f64).
Context (chan_fault : nat -> option js_error) {V : Type}.
Context (handler : OutboundQueueJob -> io V QueueProcessingResult).
Context (onExhausted : OutboundQueueJob -> option string -> io V unit).
Abbreviation world := (V * Channel)%type.

Lemma wp_chan f (Q : exec js_error unit -> world -> Prop) v ch :
  (forall e n, Q (Throws e) (v, ch <| ctick := n |>)) ->
  (forall n, Q (Ok tt) (v, f (ch <| ctick := n |>))) ->
  wp (chan chan_fault f) Q (v, ch).
Proof. intros He Ho. unfold wp, chan. destruct (chan_fault _); cbn; auto. Qed.

Lemma wp_run_handler {A} (m : io V A) (Q : exec js_error A -> world -> Prop) v ch :
  (forall r v', m v = (r, v') -> Q r (v', ch)) -> wp (run_handler m) Q (v, ch).
Proof. intros HQ. unfold wp, run_handler. destruct (m v) as [r v'] eqn:E; cbn. by apply HQ. Qed.

(** What an acked delivery left behind: nothing but the handler's verdict, or a confirmed copy
    in a retry queue or a dead letter queue. *)
Definition retried (job : OutboundQueueJob) (r : option string) (v1 v' : V) : list publication -> Prop :=
  fun new =>
    match delays !! Z.to_nat (attempt job) with
    | Some delay => v' = v1 /\
        new = [retry_publication carrier_json OUTBOUND_QUEUE_NAME number_text job delay (attempt job + 1) r]
    | None => onExhausted job r v1 = (Ok tt, v') /\
        new = [dead_letter carrier_json OUTBOUND_QUEUE_NAME (trafficClass job) (Some (messageId job))
                 (Some (default "Retry policy exhausted"%string r)) (trace job)]
    end.

Definition accounted (job : OutboundQueueJob) (v v' : V) (new : list publication) : Prop :=
  exists result v1, handler job v = (Ok result, v1) /\
    match res_action result with
    | AckJob => v' = v1 /\ new = []
    | DeadJob => v' = v1 /\
        new = [dead_letter carrier_json OUTBOUND_QUEUE_NAME (trafficClass job) (Some (messageId job))
                 (reason result) (trace job)]
    | DeferJob => v' = v1 /\
        new = [retry_publication carrier_json OUTBOUND_QUEUE_NAME number_text job (math_min delays)
                 (attempt job) (reason result)]
    | RetryJob => retried job (reason result) v1 v' new
    end.

Abbreviation run_settle := (settle_result carrier_json OUTBOUND_QUEUE_NAME number_text delays chan_fault onExhausted).
Abbreviation run_delivery := (processDelivery parseCarrier carrier_json OUTBOUND_QUEUE_NAME number_text
  delays chan_fault handler onExhausted).

(** [settle_result] acks last, after the publication was confirmed; an exception leaves the
    delivery unsettled. *)
Definition settled_by (job : OutboundQueueJob) (result : QueueProcessingResult) (v : V) (ch : Channel)
    (r : exec js_error unit) (s : world) : Prop :=
  let '(v', ch') := s in
  match r with
  | Ok _ => settled ch' = settled ch ++ [true] /\ pending ch' = [] /\
      exists new, confirmed ch' = confirmed ch ++ new /\
        match res_action result with
        | AckJob => v' = v /\ new = []
        | DeadJob => v' = v /\
            new = [dead_letter carrier_json OUTBOUND_QUEUE_NAME (trafficClass job) (Some (messageId job))
                     (reason result) (trace job)]
        | DeferJob => v' = v /\
            new = [retry_publication carrier_json OUTBOUND_QUEUE_NAME number_text job (math_min delays)
                     (attempt job) (reason result)]
        | RetryJob => retried job (reason result) v v' new
        end
  | _ => settled ch' = settled ch
  end.

Lemma wp_publish_ack p (Q : exec js_error unit -> world -> Prop) v ch :
  pending ch = [] ->
  (forall e ch', settled ch' = settled ch -> Q (Throws e) (v, ch')) ->
  (forall ch', settled ch' = settled ch ++ [true] -> pending ch' = [] ->
     confirmed ch' = confirmed ch ++ [p] -> Q (Ok tt) (v, ch')) ->
  wp (_ ← (_ ← sendToQueue chan_fault p; waitForConfirms chan_fault); ack chan_fault) Q (v, ch).
Proof.
  intros Hp He Ho. apply wp_bind, wp_bind, wp_chan; [by intros; apply He|intros n1].
  apply wp_chan; [by intros; apply He|intros n2].
  apply wp_chan; [by intros; apply He|intros n3]. apply Ho; cbn; by rewrite ?Hp.
Qed.

Lemma settle_result_spec c job result v ch :
  pending ch = [] -> trafficClass job = c ->
  wp (run_settle c job result) (settled_by job result v ch) (v, ch).
Proof.
  intros Hp <-. unfold settle_result. destruct result as [[] r]; cbn [res_action reason].
  - apply wp_chan; [done|]. intros n. unfold settled_by. cbn. split; [done|]. split; [done|].
    exists []. by rewrite app_nil_r.
  - unfold scheduleRetry. destruct (delays !! Z.to_nat (attempt job)) as [d|] eqn:Ed.
    + apply wp_bind, wp_bind, wp_chan; [done|intros n1]. apply wp_bind, wp_chan; [done|intros n2].
      apply wp_ret. apply wp_bind, wp_ret. apply wp_chan; [done|intros n3].
      unfold settled_by. cbn. rewrite Hp. split; [done|]. split; [done|]. eexists. split; [done|].
      unfold retried. by rewrite Ed.
    + apply wp_bind, wp_ret, wp_bind, wp_bind, wp_run_handler.
      intros [[]|e|] v' Hv; [|done|done]. unfold publishDeadLetter.
      apply wp_bind, wp_chan; [done|intros n1]. apply wp_chan; [done|intros n2].
      apply wp_chan; [done|intros n3]. unfold settled_by. cbn. rewrite Hp.
      split; [done|]. split; [done|]. eexists. split; [done|]. unfold retried. by rewrite Ed.
  - unfold scheduleDeferredRetry. cbv zeta. apply wp_publish_ack; [done|done|].
    intros ch' H1 H2 H3. unfold settled_by. cbn. split; [done|]. split; [done|]. eauto.
  - unfold publishDeadLetter. apply wp_publish_ack; [done|done|].
    intros ch' H1 H2 H3. unfold settled_by. cbn. split; [done|]. split; [done|]. eauto.
Qed.

(** The outcomes of a delivery. *)
Definition delivery_outcome (message : ConsumeMessage) (c : MessageTrafficClass.t) (v : V) (ch : Channel)
    (r : exec js_error unit) (s : world) : Prop :=
  let '(v', ch') := s in
  (r <> Ok tt /\ settled ch' = settled ch) \/
  (r = Ok tt /\ settled ch' = settled ch ++ [false] /\ is_Some (job_of parseCarrier message c)) \/
  (r = Ok tt /\ settled ch' = settled ch ++ [true] /\ pending ch' = [] /\
   exists new, confirmed ch' = confirmed ch ++ new /\
     match job_of parseCarrier message c with
     | None => v' = v /\ new = [dead_letter carrier_json OUTBOUND_QUEUE_NAME c None
                        (Some "Malformed outbound queue message"%string) None]
     | Some job => accounted job v v' new
     end).

Lemma wp_nack (Q : exec js_error unit -> world -> Prop) v ch :
  (forall e ch', settled ch' = settled ch -> Q (Throws e) (v, ch')) ->
  (forall ch', settled ch' = settled ch ++ [false] -> Q (Ok tt) (v, ch')) ->
  wp (nack_requeue chan_fault) Q (v, ch).
Proof. intros He Ho. apply wp_chan; intros; [by apply He|by apply Ho]. Qed.

Lemma processDelivery_outcome message c v ch :
  pending ch = [] -> wp (run_delivery message c) (delivery_outcome message c v ch) (v, ch).
Proof.
  intros Hp. unfold processDelivery. destruct (job_of parseCarrier message c) as [job|] eqn:Ej.
  - assert (Hc : trafficClass job = c).
    { unfold job_of in Ej. apply bind_Some in Ej as ([id tr] & _ & [= <-]). done. }
    assert (Hn : forall v' ch', settled ch' = settled ch ->
      wp (nack_requeue chan_fault) (delivery_outcome message c v ch) (v', ch')).
    { intros v' ch' Hs. apply wp_nack.
      - intros e ch2 H2. left. split; [done|]. congruence.
      - intros ch2 H2. right. left. split; [done|]. rewrite Ej. split; [congruence|eauto]. }
    apply wp_try, wp_bind, wp_run_handler. intros [result|e|] v1 Hv1.
    + eapply wp_mono; [apply settle_result_spec; done|]. intros r [v' ch'] Hs.
      destruct r as [[]|e|]; cbn in Hs.
      * destruct Hs as (H1 & H2 & new & H3 & H4). right. right. split; [done|].
        split; [done|]. split; [done|]. exists new. split; [done|]. rewrite Ej.
        exists result, v1. split; [done|]. by destruct (res_action result).
      * by apply Hn.
      * left. done.
    + by apply Hn.
    + left. done.
  - unfold publishDeadLetter. apply wp_publish_ack; [done| |].
    + intros e ch' H1. left. done.
    + intros ch' H1 H2 H3. right. right. split; [done|]. split; [done|]. split; [done|].
      eexists. split; [done|]. by rewrite Ej.
Qed.
End queue_proofs.

(** ** The retry policy *)
Lemma retryDelays_positive Number raw :
  retryDelays Number raw <> [] /\ Forall (fun d => finite_positive d = true) (retryDelays Number raw).
Proof.
  unfold retryDelays. set (values := filter _ _).
  assert (Hv : Forall (fun d => finite_positive d = true) values).
  { apply Forall_forall. intros d Hd. by apply list_elem_of_filter in Hd as [Hd _]. }
  destruct values as [|d ds]; cbn [length Nat.ltb]; [|by split].
  split; [done|]. repeat constructor.
Qed.

Lemma math_min_elem ds :
  ds <> [] -> Forall (fun d => finite_positive d = true) ds -> math_min ds ∈ ds.
Proof.
  induction 2 as [|d ds Hd Hds IH]; [done|]. unfold math_min in *. cbn [foldr].
  destruct (SFltb d _) eqn:E; [by left|]. destruct ds as [|d' ds]; [|right; by apply IH].
  cbn [foldr] in E. destruct d as [|[]| |[] m e]; done.
Qed.

Section retry_policy.
Context (parseCarrier : option json -> option TraceCarrier) (carrier_json : TraceCarrier -> json).
Context (OUTBOUND_QUEUE_NAME : option string) (number_text : f64 -> string) (delays : list f64).

Abbreviation retry job d n r := (retry_publication carrier_json OUTBOUND_QUEUE_NAME number_text job d n r).

(** A retry publication is parsed back to the job, with the count it carries. *)
Lemma job_of_retry job d n r :
  (forall t, parseCarrier (Some (carrier_json t)) = Some t) -> parseCarrier None = None ->
  messageId job <> ""%string -> 0 <= n ->
  job_of parseCarrier (redelivered (retry job d n r)) (trafficClass job) =
    Some {| messageId := messageId job; attempt := n; trafficClass := trafficClass job;
            trace := trace job |}.
Proof.
  intros Hc Hn Hid Hpos. unfold job_of, parseMessage, redelivered, retry_publication.
  unfold job_body, job_headers, retryCount. cbn [content message_headers body headers mbind option_bind prop app].
  fields. cbn [as_string mbind option_bind]. rewrite (proj2 (String.eqb_neq _ _)) by done.
  cbn [mbind option_bind]. rewrite (proj2 (Z.leb_le _ _)) by done.
  destruct (trace job) as [t|]; fields; [by rewrite Hc|by cbn [field]; rewrite Hn].
Qed.

Context (chan_fault : nat -> option js_error) {V : Type}.
Context (handler : OutboundQueueJob -> io V QueueProcessingResult).
Context (onExhausted : OutboundQueueJob -> option string -> io V unit).
Abbreviation run_delivery := (processDelivery parseCarrier carrier_json OUTBOUND_QUEUE_NAME number_text
  delays chan_fault handler onExhausted).

(** RabbitMQ delivers what [processDelivery] published to a retry queue again, until something
    else than a retry is published. *)
Fixpoint redeliver (fuel : nat) (message : ConsumeMessage) (c : MessageTrafficClass.t)
    : io (V * Channel) unit :=
  match fuel with
  | O => lift OutOfFuel
  | S fuel' =>
      _ ← run_delivery message c;
      s ← get;
      match last (confirmed s.2) with
      | Some p => if decide (queue p = trafficDeadQueueName OUTBOUND_QUEUE_NAME c) then mret tt
                  else redeliver fuel' (redelivered p) c
      | None => mret tt
      end
  end.

Lemma retry_not_dead job d n r :
  queue (retry job d n r) <> trafficDeadQueueName OUTBOUND_QUEUE_NAME (trafficClass job).
Proof.
  cbn. unfold trafficRetryQueueName, trafficDeadQueueName. intros E%(inj (String.append _)). done.
Qed.

(** The retries from attempt [a] on. *)
Definition retries_from (job : OutboundQueueJob) (r : option string) (a : nat) : list publication :=
  imap (fun i d => retry job d (Z.of_nat (a + i) + 1) r) (drop a delays).

(** A broker that is up, a handler that always asks for a retry. *)
Context (r : option string) (exhausted : OutboundQueueJob -> V -> V).
Hypothesis broker_up : forall n, chan_fault n = None.
Hypothesis carriers : forall t, parseCarrier (Some (carrier_json t)) = Some t.
Hypothesis no_carrier : parseCarrier None = None.
Hypothesis always_retry : forall job v, handler job v = (Ok {| res_action := RetryJob; reason := r |}, v).
Hypothesis exhausting : forall job v, onExhausted job r v = (Ok tt, exhausted job v).

Lemma wp_chan_up f (Q : exec js_error unit -> V * Channel -> Prop) v ch :
  (forall n, Q (Ok tt) (v, f (ch <| ctick := n |>))) -> wp (chan chan_fault f) Q (v, ch).
Proof. intros HQ. unfold wp, chan. rewrite broker_up. cbn. auto. Qed.

Definition last_word (job : OutboundQueueJob) : publication :=
  dead_letter carrier_json OUTBOUND_QUEUE_NAME (trafficClass job) (Some (messageId job))
    (Some (default "Retry policy exhausted"%string r)) (trace job).

(** One delivery of a job that is always retried. *)
Lemma delivery_step message c job v ch :
  pending ch = [] -> job_of parseCarrier message c = Some job ->
  wp (run_delivery message c) (fun res '(v', ch') =>
    res = Ok tt /\ pending ch' = [] /\
    match delays !! Z.to_nat (attempt job) with
    | Some d => v' = v /\ confirmed ch' = confirmed ch ++ [retry job d (attempt job + 1) r]
    | None => v' = exhausted job v /\ confirmed ch' = confirmed ch ++ [last_word job]
    end) (v, ch).
Proof.
  intros Hp Hj. unfold processDelivery. rewrite Hj.
  assert (Hc : trafficClass job = c).
  { unfold job_of in Hj. apply bind_Some in Hj as ([id tr] & _ & [= <-]). done. }
  apply wp_try, wp_bind, wp_run_handler. intros res v1. rewrite always_retry. intros [= <- <-].
  unfold settle_result, scheduleRetry. cbn [res_action reason].
  destruct (delays !! Z.to_nat (attempt job)) as [d|].
  - apply wp_bind, wp_bind, wp_chan_up. intros n1. apply wp_bind, wp_chan_up. intros n2.
    apply wp_ret, wp_bind, wp_ret, wp_chan_up. intros n3. cbn. by rewrite Hp.
  - apply wp_bind, wp_ret, wp_bind, wp_bind, wp_run_handler. intros res v2. rewrite exhausting.
    intros [= <- <-]. unfold publishDeadLetter. apply wp_bind, wp_chan_up. intros n1.
    apply wp_chan_up. intros n2. apply wp_chan_up. intros n3. cbn. rewrite Hp.
    split; [done|]. split; [done|]. split; [done|]. unfold last_word. by rewrite Hc.
Qed.

Definition with_attempt (job : OutboundQueueJob) (a : nat) : OutboundQueueJob :=
  {| messageId := messageId job; attempt := Z.of_nat a; trafficClass := trafficClass job;
     trace := trace job |}.

Lemma retries_from_step job a d :
  delays !! a = Some d -> retries_from job r a = retry job d (Z.of_nat a + 1) r :: retries_from job r (S a).
Proof.
  intros Hd. unfold retries_from. rewrite (drop_S _ _ _ Hd). cbn [imap]. rewrite Nat.add_0_r.
  f_equal. apply imap_ext. intros i x _. cbn. do 2 f_equal. lia.
Qed.

Lemma redeliver_exhausts job k : forall a message v ch,
  messageId job <> ""%string -> pending ch = [] -> (a <= length delays)%nat -> k = (length delays - a)%nat ->
  job_of parseCarrier message (trafficClass job) = Some (with_attempt job a) ->
  wp (redeliver (S k) message (trafficClass job)) (fun res '(v', ch') =>
    res = Ok tt /\ v' = exhausted (with_attempt job (length delays)) v /\
    confirmed ch' = confirmed ch ++ retries_from job r a ++ [last_word job]) (v, ch).
Proof.
  induction k as [|k IH]; intros a message v ch Hid Hp Ha Hk Hj; cbn [redeliver].
  - assert (a = length delays) as -> by lia.
    apply wp_bind. eapply wp_mono; [by apply delivery_step|]. intros res [v' ch'] (-> & Hp' & Hd).
    cbn [attempt with_attempt] in Hd. rewrite Nat2Z.id, (lookup_ge_None_2 delays) in Hd by done.
    destruct Hd as [-> Hc]. apply wp_bind, wp_get. cbn [snd]. rewrite Hc, last_snoc.
    rewrite decide_True by done. apply wp_ret. split; [done|]. split; [done|].
    unfold retries_from. by rewrite drop_all.
  - destruct (lookup_lt_is_Some_2 delays a) as [d Hd]; [lia|].
    apply wp_bind. eapply wp_mono; [by apply delivery_step|]. intros res [v' ch'] (-> & Hp' & Hs).
    cbn [attempt with_attempt] in Hs. rewrite Nat2Z.id, Hd in Hs. destruct Hs as [-> Hc].
    apply wp_bind, wp_get. cbn [snd]. rewrite Hc, last_snoc.
    rewrite decide_False by apply (retry_not_dead (with_attempt job a)).
    eapply wp_mono; [apply (IH (S a)); [done|done|lia|lia|]|].
    + pose proof (job_of_retry (with_attempt job a) d (Z.of_nat a + 1) r carriers no_carrier Hid
        ltac:(lia)) as Hjob. etransitivity; [exact Hjob|]. unfold with_attempt. cbn.
      do 2 f_equal. lia.
    + intros res [v'' ch''] (-> & -> & Hc''). split; [done|]. split; [done|].
      rewrite Hc'', Hc. rewrite (retries_from_step job a d Hd). by rewrite <- app_assoc.
Qed.
End retry_policy.

(** ** Claims *)

(** C18: [processDelivery] settles a delivery at most once, and acks it only when nothing is lost:
    the handler said so, or a copy of the job for a retry queue or a dead letter was
    confirmed by the broker before the ack.  A failing handler or a failing publication of a
    well-formed job leads to a requeue; if nothing could be settled, the function threw. *)
Theorem processDelivery_no_loss parseCarrier carrier_json name text delays chan_fault V
    (handler : OutboundQueueJob -> io V QueueProcessingResult)
    (onExhausted : OutboundQueueJob -> option string -> io V unit) message c v confirmed0 n :
  let ch := {| pending := []; confirmed := confirmed0; settled := []; ctick := n |} in
  let '(result, (v', ch')) :=
    processDelivery parseCarrier carrier_json name text delays chan_fault handler onExhausted message c (v, ch) in
  match settled ch' with
  | [] => result <> Ok tt
  | [false] => is_Some (job_of parseCarrier message c)
  | [true] => exists new, confirmed ch' = confirmed0 ++ new /\
      match job_of parseCarrier message c with
      | Some job => accounted carrier_json name text delays handler onExhausted job v v' new
      | None => new = [dead_letter carrier_json name c None (Some "Malformed outbound queue message"%string) None]
      end
  | _ => False
  end.
Proof.
  intros ch.
  pose proof (processDelivery_outcome parseCarrier carrier_json name text delays chan_fault
    handler onExhausted message c v ch eq_refl) as H. unfold wp in H.
  destruct (processDelivery _ _ _ _ _ _ _ _ _ _ _) as [result [v' ch']]. cbn in H.
  destruct H as [[Hr ->]|[(_ & -> & Hj)|(_ & -> & _ & new & Hc & Hn)]]; [done|done|].
  cbn. exists new. split; [done|]. by destruct (job_of _ _ _); [|destruct Hn as [_ ->]].
Qed.


(** A codec of trace carriers for examples. *)
Definition example_carrier_json (t : TraceCarrier) : json :=
  let opt o := match o with Some s => JStr s | None => JNull end in
  JArr [JStr (traceId t); opt (requestId t); opt (parentSpanId t); opt (traceFlags t)].
Definition example_parseCarrier (v : option json) : option TraceCarrier :=
  let opt j := match j with JStr s => Some s | _ => None end in
  match v with
  | Some (JArr [JStr t; r; p; f]) =>
      Some {| traceId := t; requestId := opt r; parentSpanId := opt p; traceFlags := opt f |}
  | _ => None
  end.
Lemma example_carriers t : example_parseCarrier (Some (example_carrier_json t)) = Some t.
Proof. by destruct t as [? [] [] []]. Qed.


(** with any value of [OUTBOUND_RETRY_DELAYS_MS] there is at least one retry delay, every delay is a
    positive finite number, and whatever [processDelivery] publishes for a job goes to a queue
    that [assertTrafficTopology] declares for the job's class; those with a time to live hand
    their messages back to the work queue of the class. *)
Theorem published_to_declared_queues carrier_json name text Number raw V
    (handler : OutboundQueueJob -> io V QueueProcessingResult)
    (onExhausted : OutboundQueueJob -> option string -> io V unit) job v v' new :
  let delays := retryDelays Number raw in
  let topology := trafficTopology name text delays (trafficClass job) in
  accounted carrier_json name text delays handler onExhausted job v v' new ->
  delays <> [] /\ Forall (fun d => finite_positive d = true) delays /\
  Forall (fun p => exists d, d ∈ topology /\ q_name d = queue p /\
            (is_Some (q_ttl d) -> q_dead_letter d = Some (trafficQueueName name (trafficClass job)))) new.
Proof.
  intros delays topology (result & v1 & _ & Hacc).
  destruct (retryDelays_positive Number raw) as [Hne Hpos]. split; [done|]. split; [done|].
  assert (Hretry : forall d n r, d ∈ delays -> exists q, q ∈ topology /\
    q_name q = queue (retry_publication carrier_json name text job d n r) /\
    (is_Some (q_ttl q) -> q_dead_letter q = Some (trafficQueueName name (trafficClass job)))).
  { intros d n r Hd.
    exists {| q_name := trafficRetryQueueName name text (trafficClass job) d; q_ttl := Some d;
              q_dead_letter := Some (trafficQueueName name (trafficClass job)) |}.
    split; [|done]. apply elem_of_app. right.
    by apply (list_elem_of_fmap_2 (fun delay => {| q_name := trafficRetryQueueName name text (trafficClass job) delay;
      q_ttl := Some delay; q_dead_letter := Some (trafficQueueName name (trafficClass job)) |})). }
  assert (Hdead : forall id r t, exists q, q ∈ topology /\
    q_name q = queue (dead_letter carrier_json name (trafficClass job) id r t) /\
    (is_Some (q_ttl q) -> q_dead_letter q = Some (trafficQueueName name (trafficClass job)))).
  { intros. exists {| q_name := trafficDeadQueueName name (trafficClass job); q_ttl := None; q_dead_letter := None |}.
    split; [left|]. split; [done|]. by intros [? ?]. }
  destruct (res_action result).
  - by destruct Hacc as [_ ->].
  - unfold retried in Hacc. destruct (delays !! Z.to_nat (attempt job)) as [d|] eqn:Ed;
      destruct Hacc as [_ ->]; (constructor; [|done]); [|apply Hdead].
    apply Hretry. by apply list_elem_of_lookup_2 in Ed.
  - destruct Hacc as [_ ->]. constructor; [|done]. apply Hretry. by apply math_min_elem.
  - destruct Hacc as [_ ->]. constructor; [|done]. apply Hdead.
Qed.

Lemma published_to_declared_queues_witness :
  let delays := retryDelays (fun _ => f64_of_Z 10) (Some "10"%string) in
  exists new, length new = 1%nat /\
    Forall (fun p => exists d, d ∈ trafficTopology None (fun _ => "10"%string) delays OTP /\ q_name d = queue p) new.
Proof.
  intros delays.
  set (job := {| messageId := "m"; attempt := 0; trafficClass := OTP; trace := None |}).
  set (new := [retry_publication example_carrier_json None (fun _ => "10"%string) job
                 (math_min delays) 0 None]).
  exists new. split; [reflexivity|].
  destruct (published_to_declared_queues example_carrier_json None (fun _ => "10"%string)
    (fun _ => f64_of_Z 10) (Some "10"%string) unit
    (fun _ v => (Ok {| res_action := DeferJob; reason := None |}, v)) (fun _ _ v => (Ok tt, v))
    job tt tt new) as (_ & _ & H).
  - eexists _, tt. split; [reflexivity|]. split; reflexivity.
  - apply (Forall_impl _ _ _ H). intros p (d & ? & ? & _). eauto.
Defined.
