(* ===== verification/Dispatcher.v ===== *)
(** The message dispatcher ([worker/message-dispatcher.service.ts]): claiming a message under a
    lease, sending it to Meta, and recording what happened.

    The sender resolver, the rate limiter and the Meta client answer arbitrarily ([Outside]);
    their calls are effects of the world.  The wrappers that only record trace spans are left
    out. *)
From stdpp Require Import prelude gmap strings pretty.
From Stdlib Require Import ZArith Lia.
From S2P Require Import Prelude Json Io Prisma Domain Queue.
#[local] Open Scope Z_scope.
Import MessageStatus.

Definition TERMINAL_OR_SUBMITTED_STATUSES : list MessageStatus.t :=
  [SUBMITTED; SENT; DELIVERED; READ; FAILED; CANCELLED; EXPIRED].
Definition terminal (s : MessageStatus.t) : bool := bool_decide (s ∈ TERMINAL_OR_SUBMITTED_STATUSES).

Record MetaSenderContext := {
  internalSenderId : option string; phoneNumberId : string; accessToken : string;
  rateLimitPerSecond : option Z
}.
Record MetaSendMessageResult := { providerMessageId : string; response : json }.

(** The components the dispatcher calls; the first argument tells the calls apart. *)
Class Outside := {
  resolve_sender : nat -> option string -> exec js_error MetaSenderContext;
  outbound_slot : nat -> string -> MessageTrafficClass.t -> option Z -> exec js_error unit;
  send_message : nat -> Message.t -> MetaSenderContext -> exec js_error MetaSendMessageResult
}.

(** A status event with its payload. *)
Definition status_event (id : string) (s : MessageStatus.t) (payload : option json) : MessageStatusEvent.t :=
  MessageStatusEvent.make id s payload None.

Section dispatcher.
Context `{Prisma} `{Environment} `{Outside}.
(** [Number(process.env.OUTBOUND_MESSAGE_LEASE_MS ?? 30000)] *)
Context (OUTBOUND_MESSAGE_LEASE_MS : Z).

Definition leaseMs : Z := Z.max 5000 OUTBOUND_MESSAGE_LEASE_MS.

(** The [where] of the claim, beyond the id. *)
Definition claimable (now : Z) (m : Message.t) : bool :=
  match Message.providerMessageId m with
  | Some _ => false
  | None =>
      match Message.status m with
      | CREATED | QUEUED => true
      | PROCESSING =>
          match Message.processingLeaseUntil m with None => true | Some lease => lease <=? now end
      | _ => false
      end
  end.
Definition claim_data (now leaseUntil : Z) (m : Message.t) : Message.t :=
  m <| Message.status := PROCESSING |> <| Message.attemptCount ::= Z.add 1 |>
    <| Message.lastAttemptAt := Some now |> <| Message.processingLeaseUntil := Some leaseUntil |>
    <| Message.errorCode := None |> <| Message.errorMessage := None |>.

Definition claimMessage (messageId : string) : io World (bool * option Message.t) :=
  now ← now;
  let leaseUntil := now + leaseMs in
  count ← message_updateMany (fun k m => bool_decide (k = messageId) && claimable now m)
            (claim_data now leaseUntil);
  message ← message_find messageId;
  mret (bool_decide (count = 1%nat), message).

Definition retry_data (errorCode errorMessage : string) (m : Message.t) : Message.t :=
  m <| Message.status := QUEUED |> <| Message.processingLeaseUntil := None |>
    <| Message.errorCode := Some errorCode |>
    <| Message.errorMessage := Some (JsString.slice0 2000 errorMessage) |>.

Definition markRetryableFailure (messageId errorCode errorMessage : string) (attempt : Z)
    (response : option json) : io World unit :=
  message_update unconstrained messageId (retry_data errorCode errorMessage)
    (status_event messageId QUEUED (Some (JObj (
       [("retry"%string, JBool true); ("queueAttempt"%string, JNum (Whole (attempt + 1)));
        ("errorCode"%string, JStr errorCode); ("errorMessage"%string, JStr errorMessage)] ++
       match response with Some r => [("response"%string, r)] | None => [] end)))).

Definition failed_data (errorCode errorMessage : string) (failedAt : Z) (response : option json)
    (m : Message.t) : Message.t :=
  let m := m <| Message.status := FAILED |> <| Message.processingLeaseUntil := None |>
             <| Message.errorCode := Some errorCode |>
             <| Message.errorMessage := Some (JsString.slice0 2000 errorMessage) |>
             <| Message.failedAt := Some failedAt |> in
  match response with Some r => m <| Message.providerResponse := Some r |> | None => m end.

Definition markFailed (messageId errorCode errorMessage : string) (response : option json)
    : io World unit :=
  failedAt ← now;
  message_update unconstrained messageId (failed_data errorCode errorMessage failedAt response)
    (status_event messageId FAILED (Some (JObj (
       [("errorCode"%string, JStr errorCode); ("errorMessage"%string, JStr errorMessage)] ++
       match response with Some r => [("response"%string, r)] | None => [] end)))).

(** [SUBMITTED], with what Meta answered. *)
Definition submitted_data (result : MetaSendMessageResult) (submittedAt : Z) (m : Message.t) : Message.t :=
  m <| Message.status := SUBMITTED |> <| Message.providerMessageId := Some (providerMessageId result) |>
    <| Message.providerResponse := Some (response result) |>
    <| Message.submittedAt := Some submittedAt |> <| Message.processingLeaseUntil := None |>
    <| Message.errorCode := None |> <| Message.errorMessage := None |>.

Definition metaErrorCode (code subcode httpStatus : option Z) : string :=
  match code with
  | Some c => "META_" +:+ pretty c +:+ match subcode with Some s => "_" +:+ pretty s | None => "" end
  | None => match httpStatus with Some s => "HTTP_" +:+ pretty s | None => "META_API_ERROR" end
  end.

(** [this.meta.sendMessage(message, sender)]: whatever it answers, the request went out. *)
Definition sendToMeta (messageId : string) (m : Message.t) (sender : MetaSenderContext)
    : io World MetaSendMessageResult := fun w =>
  (send_message (tick w) m sender, bump w <| sent := sent w ++ [messageId] |>).
Definition resolve (senderId : option string) : io World MetaSenderContext := fun w =>
  (resolve_sender (tick w) senderId, bump w).
Definition waitForOutboundSlot (phone : string) (c : MessageTrafficClass.t) (limit : option Z)
    : io World unit := fun w => (outbound_slot (tick w) phone c limit, bump w).

Definition result (a : action) (reason : option string) : QueueProcessingResult :=
  {| res_action := a; reason := reason |}.

(** The last [try] of [dispatch]: send and record the answer; and its [catch]. *)
Definition send_failed (job : OutboundQueueJob) (error : js_error) : io World QueueProcessingResult :=
  let id := messageId job in
  match error with
  | MetaApiError message true code subcode httpStatus response =>
      _ ← markRetryableFailure id (metaErrorCode code subcode httpStatus) message (attempt job) response;
      mret (result RetryJob (Some message))
  | MetaApiError message false code subcode httpStatus response =>
      _ ← markFailed id (metaErrorCode code subcode httpStatus) message response;
      mret (result DeadJob (Some message))
  | _ =>
      let reason := error_message (fun _ => "Outbound message mapping failed"%string) error in
      _ ← markFailed id "OUTBOUND_VALIDATION_ERROR" reason None;
      mret (result DeadJob (Some reason))
  end.
Definition send_and_record (job : OutboundQueueJob) (m : Message.t) (sender : MetaSenderContext)
    : io World QueueProcessingResult :=
  let id := messageId job in
  try_catch
    (sent ← sendToMeta id m sender;
     submittedAt ← now;
     _ ← message_update message_unique id (submitted_data sent submittedAt)
           (status_event id SUBMITTED (Some (JObj [("providerMessageId"%string, JStr (providerMessageId sent))])));
     mret (result AckJob None))
    (send_failed job).

(** The part of [dispatch] after the claim. *)
Definition dispatch_claimed (job : OutboundQueueJob) (m : Message.t) : io World QueueProcessingResult :=
  let id := messageId job in
  if negb (bool_decide (Message.trafficClass m = trafficClass job)) then
    let reason := "Queue traffic class " +:+ MessageTrafficClass.name (trafficClass job) +:+
      " does not match persisted class " +:+ MessageTrafficClass.name (Message.trafficClass m) in
    _ ← markFailed id "QUEUE_TRAFFIC_CLASS_MISMATCH" reason None;
    mret (result DeadJob (Some reason))
  else
  _ ← status_event_create (status_event id PROCESSING (Some (JObj
        [("queueAttempt"%string, JNum (Whole (attempt job + 1)));
         ("trafficClass"%string, JStr (MessageTrafficClass.name (Message.trafficClass m)))])));
  sender ← try_catch (s ← resolve (Message.senderId m); mret (inl s)) (fun error =>
    let reason := error_message (fun _ => "WhatsApp sender configuration is unavailable"%string) error in
    _ ← markFailed id "SENDER_CONFIGURATION_ERROR" reason None;
    mret (inr (result DeadJob (Some reason))));
  match sender with
  | inr done => mret done
  | inl sender =>
      slot ← try_catch
        (_ ← waitForOutboundSlot (phoneNumberId sender) (Message.trafficClass m) (rateLimitPerSecond sender);
         mret None)
        (fun error =>
           let reason := error_message (fun _ => "Rate limiter unavailable"%string) error in
           _ ← markRetryableFailure id "RATE_LIMITER_UNAVAILABLE" reason (attempt job) None;
           mret (Some (result RetryJob (Some reason))));
      match slot with
      | Some done => mret done
      | None => send_and_record job m sender
      end
  end.

Definition dispatch (job : OutboundQueueJob) : io World QueueProcessingResult :=
  '(claimed, message) ← claimMessage (messageId job);
  if negb claimed then
    match message with
    | None => mret (result AckJob None)
    | Some m =>
        if bool_decide (is_Some (Message.providerMessageId m)) || terminal (Message.status m)
        then mret (result AckJob None)
        else if bool_decide (Message.status m = PROCESSING)
        then mret (result DeferJob (Some "Message is currently leased by another worker"%string))
        else mret (result AckJob None)
    end
  else
    match message with
    | None => mret (result RetryJob (Some "Claimed message could not be reloaded"%string))
    | Some m => dispatch_claimed job m
    end.

Definition markRetryExhausted (job : OutboundQueueJob) (reason : option string) : io World unit :=
  let id := messageId job in
  message ← message_find id;
  match message with
  | None => mret tt
  | Some m =>
      if terminal (Message.status m) then mret tt else
      leased ← (if bool_decide (Message.status m = PROCESSING) then
                  match Message.processingLeaseUntil m with
                  | Some lease => now ← now; mret (now <? lease)
                  | None => mret false
                  end
                else mret false);
      if leased : bool then mret tt else
      markFailed id "RETRY_EXHAUSTED"
        (default ("Outbound retry policy exhausted after " +:+ pretty (attempt job + 1) +:+
                  " queue attempts") reason) None
  end.
End dispatcher.

(** ** What the steps of [dispatch] do to the row *)
Section dispatch_proofs.
Context `{Prisma} `{Environment} `{Outside} (OUTBOUND_MESSAGE_LEASE_MS : Z).
Implicit Types (w : World) (m : Message.t).

(** A call failed or succeeded. *)
Definition ended {A} (r : exec js_error A) (a : A) : Prop := r = Ok a \/ exists e, r = Throws e.

(** Updating the row of a message that exists: nothing happened and the call threw, or the row
    changed; no request went to Meta. *)
Lemma wp_update_row c id f ev (Q : exec js_error unit -> World -> Prop) w m :
  rows (messages w) !! id = Some m ->
  (forall r w', sent w' = sent w ->
     (rows (messages w') = rows (messages w) /\ (exists e, r = Throws (Error e))) \/
     (rows (messages w') = <[id := f m]> (rows (messages w)) /\
      (r = Ok tt \/ exists e, r = Throws (Error e))) -> Q r w') ->
  wp (message_update c id f ev) Q w.
Proof.
  intros Hm HQ. apply wp_message_update.
  - intros e. apply HQ; [done|]. left. split; [done|eauto].
  - intros t evs m' k Hm' Ht _ _ _ w'. rewrite Hm in Hm'. injection Hm' as <-.
    split; [intros e|]; (apply HQ; [done|]; right; split; [exact Ht|]); eauto.
Qed.

(** The row was given up with an error, and nothing else of it that matters changed. *)
Definition given_up (s : MessageStatus.t) (code : string) m m' : Prop :=
  Message.status m' = s /\ Message.processingLeaseUntil m' = None /\
  Message.errorCode m' = Some code /\ Message.providerMessageId m' = Message.providerMessageId m /\
  Message.attemptCount m' = Message.attemptCount m.

Definition gives_up {A} (s : MessageStatus.t) (id code : string) w m (r : exec js_error A) (a : A) w' : Prop :=
  sent w' = sent w /\
  ((rows (messages w') = rows (messages w) /\ (exists e, r = Throws e)) \/
   (exists m', given_up s code m m' /\ rows (messages w') = <[id := m']> (rows (messages w)) /\ ended r a)).

Lemma wp_markFailed id code msg resp w m :
  rows (messages w) !! id = Some m ->
  wp (markFailed id code msg resp) (fun r w' => gives_up FAILED id code w m r tt w') w.
Proof.
  intros Hm. unfold markFailed. apply wp_bind, wp_now. intros t.
  eapply wp_update_row; [exact Hm|]. intros r w' Hs [[Hr [e ->]]|[Hr He]]; (split; [exact Hs|]).
  - left. eauto.
  - right. eexists. split; [|split; [exact Hr|]]; [by destruct resp|].
    destruct He as [->|[e ->]]; [by left|right; eauto].
Qed.

Lemma wp_markRetryable id code msg a resp w m :
  rows (messages w) !! id = Some m ->
  wp (markRetryableFailure id code msg a resp) (fun r w' => gives_up QUEUED id code w m r tt w') w.
Proof.
  intros Hm. unfold markRetryableFailure. eapply wp_update_row; [exact Hm|].
  intros r w' Hs [[Hr [e ->]]|[Hr He]]; (split; [exact Hs|]).
  - left. eauto.
  - right. eexists. split; [|split; [exact Hr|]]; [done|].
    destruct He as [->|[e ->]]; [by left|right; eauto].
Qed.

Lemma gives_up_map {A} s id code w m (r : exec js_error unit) (a : A) w' :
  gives_up s id code w m r tt w' ->
  match r with
  | Ok _ => gives_up s id code w m (Ok a) a w'
  | Throws e => gives_up s id code w m (Throws e) a w'
  | OutOfFuel => False
  end.
Proof.
  intros [Hs Hr]. destruct r as [[]|e|].
  - split; [done|]. destruct Hr as [[_ [? [=]]]|(m' & Hg & Hr & _)]. right. exists m'. unfold ended. auto.
  - split; [done|]. destruct Hr as [[Hr _]|(m' & Hg & Hr & _)]; [left; eauto|].
    right. exists m'. unfold ended. eauto.
  - destruct Hr as [[_ [? [=]]]|(m' & _ & _ & [[=]|[? [=]]])].
Qed.

(** Giving up, and then returning a result. *)
Lemma wp_gives_up_then {A} (g : io World unit) (a : A) s id code w m :
  wp g (fun r w' => gives_up s id code w m r tt w') w ->
  wp (_ ← g; mret a) (fun r w' => gives_up s id code w m r a w') w.
Proof.
  intros Hg. apply wp_bind. eapply wp_mono; [exact Hg|]. intros r w' Hr%(gives_up_map _ _ _ _ _ _ a).
  by destruct r as [[]|e|].
Qed.

(** The outcome of the work on a claimed message [m]. *)
Definition claimed_outcome (id : string) w m (r : exec js_error QueueProcessingResult) w' : Prop :=
  (sent w' = sent w \/ sent w' = sent w ++ [id]) /\
  exists m', rows (messages w') = <[id := m']> (rows (messages w)) /\
    (sent w' = sent w -> Message.providerMessageId m' = Message.providerMessageId m) /\
    match r with
    | Ok res =>
        match res_action res with
        | AckJob => sent w' = sent w ++ [id] /\ Message.status m' = SUBMITTED /\
            is_Some (Message.providerMessageId m') /\ Message.processingLeaseUntil m' = None
        | RetryJob => exists code, given_up QUEUED code m m'
        | DeadJob => exists code, Message.status m' = FAILED /\
            Message.processingLeaseUntil m' = None /\ Message.errorCode m' = Some code
        | DeferJob => False
        end
    | _ => True
    end.

Definition final_action (s : MessageStatus.t) : action :=
  match s with QUEUED => RetryJob | _ => DeadJob end.

Lemma gives_up_outcome s id code w0 w m r reason w' :
  s = QUEUED \/ s = FAILED ->
  rows (messages w) = rows (messages w0) -> rows (messages w) !! id = Some m ->
  sent w = sent w0 \/ sent w = sent w0 ++ [id] ->
  gives_up s id code w m r (result (final_action s) reason) w' -> claimed_outcome id w0 m r w'.
Proof.
  intros Ha Hw Hm Hs0 [Hs Hr]. split; [by rewrite Hs|]. destruct Hr as [[Hr [e ->]]|(m' & Hg & Hr & He)].
  - exists m. rewrite Hr, Hw. split; [by rewrite insert_id by congruence|done].
  - exists m'. rewrite Hr, Hw. split; [done|]. split; [intros _; apply Hg|].
    destruct He as [->|[e ->]]; [|done]. destruct Ha as [-> | ->]; cbn; [by exists code|].
    exists code. split; [apply Hg|]. split; apply Hg.
Qed.

Lemma snoc_ne {A} (l : list A) (x : A) : l ++ [x] = l -> False.
Proof. intros E. apply (f_equal length) in E. rewrite length_app in E. cbn in E. lia. Qed.

(** What the [catch] makes of an error that is not Meta's asking for a retry. *)
Definition failure_status (e : js_error) : MessageStatus.t :=
  match e with MetaApiError _ true _ _ _ _ => QUEUED | _ => FAILED end.

Lemma send_failed_spec job e w m :
  rows (messages w) !! messageId job = Some m ->
  wp (send_failed job e) (fun r w' => exists code reason,
    gives_up (failure_status e) (messageId job) code w m r (result (final_action (failure_status e)) reason) w') w.
Proof.
  intros Hm. unfold send_failed. destruct e; [destruct retryable|..].
  1: { eapply wp_mono; [apply wp_gives_up_then, wp_markRetryable; exact Hm|].
       intros r w' Hg. do 2 eexists. exact Hg. }
  all: eapply wp_mono; [apply wp_gives_up_then, wp_markFailed; exact Hm|];
    intros r w' Hg; do 2 eexists; exact Hg.
Qed.

Lemma send_and_record_spec job m sender w :
  rows (messages w) !! messageId job = Some m ->
  wp (send_and_record job m sender) (claimed_outcome (messageId job) w m) w.
Proof.
  intros Hm. unfold send_and_record. apply wp_try, wp_bind.
  assert (Herr : forall w' e, rows (messages w') = rows (messages w) ->
    sent w' = sent w ++ [messageId job] ->
    wp (send_failed job e) (claimed_outcome (messageId job) w m) w').
  { intros w' e Hw' Hs'. assert (Hm' : rows (messages w') !! messageId job = Some m) by congruence.
    eapply wp_mono; [by apply send_failed_spec|]. intros r w2 (code & reason & Hg).
    eapply gives_up_outcome; [|exact Hw'|exact Hm'|right; exact Hs'|exact Hg].
    destruct e; [destruct retryable|..]; auto. }
  unfold wp at 1, sendToMeta. cbn [fst snd].
  destruct (send_message (tick w) m sender) as [res|e|]; [|by apply Herr|].
  - apply wp_bind, wp_now. intros t. apply wp_bind.
    eapply wp_update_row; [exact Hm|]. intros r w' Hs [[Hr [e ->]]|[Hr [->|[e ->]]]]; [by apply Herr| |].
    + apply wp_ret. split; [right; exact Hs|]. eexists. split; [exact Hr|]. rewrite Hs. cbn.
      split; [by intros E%snoc_ne|]. eauto.
    + (* the row says SUBMITTED, but the call reported a failure: the row is marked FAILED *)
      assert (Hm' : rows (messages w') !! messageId job = Some (submitted_data res t m))
        by (rewrite Hr; apply lookup_insert_eq).
      eapply wp_mono; [by apply send_failed_spec|]. intros r w2 (code & reason & Hs2 & Hr2).
      split; [right; rewrite Hs2; exact Hs|]. rewrite Hs2, Hs.
      destruct Hr2 as [[Hr2 [e' ->]]|(m2 & Hg & Hr2 & He)].
      * exists (submitted_data res t m). rewrite Hr2, Hr. split; [done|]. split; [by intros E%snoc_ne|done].
      * exists m2. rewrite Hr2, Hr, insert_insert_eq. split; [done|]. split; [by intros E%snoc_ne|].
        destruct He as [->|[e' ->]]; [|done]. cbn. exists code. split; [apply Hg|]. split; apply Hg.
  - split; [right; done|]. exists m. rewrite insert_id by done. split; [done|]. done.
Qed.

Lemma claimed_outcome_throws id w m e w' :
  rows (messages w') = rows (messages w) -> rows (messages w) !! id = Some m -> sent w' = sent w ->
  claimed_outcome id w m (Throws e) w'.
Proof. intros Hr Hm Hs. split; [by left|]. exists m. by rewrite Hr, insert_id. Qed.

Lemma dispatch_claimed_spec job m w :
  rows (messages w) !! messageId job = Some m ->
  wp (dispatch_claimed job m) (claimed_outcome (messageId job) w m) w /\
  (Message.trafficClass m <> trafficClass job ->
   wp (dispatch_claimed job m) (fun _ w' => sent w' = sent w) w).
Proof.
  intros Hm. unfold dispatch_claimed. cbv zeta.
  destruct (decide (Message.trafficClass m = trafficClass job)) as [Hc|Hc].
  2: { rewrite bool_decide_false by done. cbn [negb].
    split; [|intros _]; (eapply wp_mono; [apply wp_gives_up_then, wp_markFailed; exact Hm|]; intros r w' Hg).
    - eapply (gives_up_outcome FAILED); [by right|reflexivity|exact Hm|by left|exact Hg].
    - apply Hg. }
  rewrite bool_decide_true by done. cbn [negb]. split; [|done].
  apply wp_bind, wp_status_event_create.
  { intros e. by apply claimed_outcome_throws. }
  intros evs k _ _. set (w1 := bump w <| statusEvents := evs |>).
  split; [intros e; by apply claimed_outcome_throws|].
  (* the sender *)
  apply wp_bind, wp_try, wp_bind. unfold wp at 1, resolve. cbn [fst snd].
  destruct (resolve_sender (tick w1) (Message.senderId m)) as [sender|e|].
  2: { apply wp_bind. eapply wp_mono; [apply wp_markFailed; exact Hm|].
    intros r w' Hr.
    set (reason := error_message (fun _ => "WhatsApp sender configuration is unavailable"%string) e).
    apply (gives_up_map _ _ _ _ _ _ (result (final_action FAILED) (Some reason))) in Hr.
    destruct r as [[]|e'|]; [apply wp_ret, wp_ret| |done];
      (eapply (gives_up_outcome FAILED); [by right|reflexivity|exact Hm|by left|exact Hr]). }
  2: { split; [by left|]. exists m. by rewrite insert_id. }
  apply wp_ret.
  (* the slot *)
  apply wp_bind, wp_try, wp_bind. unfold wp at 1, waitForOutboundSlot. cbn [fst snd].
  destruct (outbound_slot (tick (bump w1)) (phoneNumberId sender) (Message.trafficClass m) (rateLimitPerSecond sender))
    as [[]|e|].
  - apply wp_ret. eapply wp_mono; [apply send_and_record_spec; exact Hm|]. done.
  - apply wp_bind. eapply wp_mono; [apply wp_markRetryable; exact Hm|].
    intros r w' Hr.
    set (reason := error_message (fun _ => "Rate limiter unavailable"%string) e).
    apply (gives_up_map _ _ _ _ _ _ (result (final_action QUEUED) (Some reason))) in Hr.
    destruct r as [[]|e'|]; [apply wp_ret, wp_ret| |done];
      (eapply (gives_up_outcome QUEUED); [by left|reflexivity|exact Hm|by left|exact Hr]).
  - split; [by left|]. exists m. by rewrite insert_id.
Qed.
End dispatch_proofs.

(** ** Claims *)
Section dispatch_claims.
Context `{Prisma} `{Environment} `{Outside} (OUTBOUND_MESSAGE_LEASE_MS : Z).

(** What the result of [dispatch] tells the queue about the message's row. *)
Definition verdict_row (a : action) (row : option Message.t) : Prop :=
  match a with
  | AckJob => match row with
              | None => True
              | Some m => is_Some (Message.providerMessageId m) \/
                  ~ Message.status m ∈ [CREATED; QUEUED; PROCESSING]
              end
  | RetryJob => exists m, row = Some m /\ forall t, claimable t m = true
  | DeferJob => exists m lease t, row = Some m /\ Message.status m = PROCESSING /\
                  Message.processingLeaseUntil m = Some lease /\ t < lease
  | DeadJob => exists m code, row = Some m /\ Message.status m = FAILED /\
                 Message.processingLeaseUntil m = None /\ Message.errorCode m = Some code
  end.

(** The row that allowed the one request to Meta that [dispatch] makes. *)
Definition may_send (job : OutboundQueueJob) (row : option Message.t) : Prop :=
  exists m t, row = Some m /\ claimable t m = true /\ Message.trafficClass m = trafficClass job.

Definition dispatch_post (job : OutboundQueueJob) (w : World)
    (r : exec js_error QueueProcessingResult) (w' : World) : Prop :=
  (forall k, k <> messageId job -> rows (messages w') !! k = rows (messages w) !! k) /\
  (sent w' = sent w \/
   sent w' = sent w ++ [messageId job] /\ may_send job (rows (messages w) !! messageId job)) /\
  match r with
  | Ok res => verdict_row (res_action res) (rows (messages w') !! messageId job)
  | _ => True
  end.

Lemma dispatch_post_throws job (w w' : World) e (f : Message.t -> Message.t) :
  sent w' = sent w ->
  (rows (messages w') = rows (messages w) \/
   exists m, rows (messages w') = <[messageId job := f m]> (rows (messages w))) ->
  dispatch_post job w (Throws e) w'.
Proof.
  intros Hs Hr. split; [|split; [by left|done]]. intros k Hk.
  destruct Hr as [->|[m ->]]; [done|]. by rewrite lookup_insert_ne.
Qed.

Lemma claimable_pmid t m : claimable t m = true -> Message.providerMessageId m = None.
Proof. unfold claimable. by destruct (Message.providerMessageId m). Qed.

Lemma terminal_settled s : terminal s = true -> ~ s ∈ [CREATED; QUEUED; PROCESSING].
Proof. destruct s; intros Ht; (discriminate Ht || by rewrite !elem_of_cons, elem_of_nil; intros [[=]|[[=]|[[=]|[]]]]). Qed.

(** A message that could not be claimed was settled, or is leased. *)
Lemma not_claimable t m :
  claimable t m = false ->
  is_Some (Message.providerMessageId m) \/ ~ Message.status m ∈ [CREATED; QUEUED; PROCESSING] \/
  exists lease, Message.status m = PROCESSING /\ Message.processingLeaseUntil m = Some lease /\ t < lease.
Proof.
  unfold claimable. destruct (Message.providerMessageId m); [eauto|].
  rewrite !not_elem_of_cons. destruct (Message.status m); try done;
    try (right; left; repeat split; (done || apply not_elem_of_nil)).
  destruct (Message.processingLeaseUntil m) as [lease|]; [|done].
  intros Hl%Z.leb_gt. right. right. eauto.
Qed.

Lemma dispatch_spec job w : wp (dispatch OUTBOUND_MESSAGE_LEASE_MS job) (dispatch_post job w) w.
Proof.
  set (id := messageId job). unfold dispatch. fold id. apply wp_bind. unfold claimMessage.
  apply wp_bind, wp_now. intros t. apply wp_bind, wp_message_updateMany_id.
  { intros e. eapply (dispatch_post_throws job _ _ _ (fun m => m)); [done|by left]. }
  intros t1 n Hn. set (w1 := bump (bump w) <| messages := t1 |>).
  change (messages (bump w)) with (messages w) in Hn.
  set (lease := t + leaseMs OUTBOUND_MESSAGE_LEASE_MS) in *.
  assert (Hthrow : forall e w', sent w' = sent w -> rows (messages w') = rows t1 -> dispatch_post job w (Throws e) w').
  { intros e w' Hs Hr. eapply (dispatch_post_throws job _ _ _ (claim_data t lease)); [done|].
    rewrite Hr. fold id. destruct (rows (messages w) !! id) as [m|]; [destruct (claimable t m)|].
    - right. exists m. apply Hn.
    - left. apply Hn.
    - left. apply Hn. }
  split; [intros e; by apply Hthrow|]. apply wp_bind, wp_message_find; [intros e; by apply Hthrow|].
  apply wp_ret. change (messages w1) with t1.
  destruct (rows (messages w) !! id) as [m|] eqn:Em; [destruct (claimable t m) eqn:Hcl|].
  - (* claimed *)
    destruct Hn as [-> Ht1]. rewrite bool_decide_true by done. cbn [negb].
    assert (Hm1 : rows t1 !! id = Some (claim_data t lease m)) by (rewrite Ht1; apply lookup_insert_eq).
    rewrite Hm1.
    destruct (dispatch_claimed_spec job (claim_data t lease m) (bump w1) Hm1) as [Hd Hd2].
    destruct (decide (Message.trafficClass m = trafficClass job)) as [Hc|Hc].
    + eapply wp_mono; [exact Hd|]. clear Hd Hd2. intros r w' (Hs & m' & Hr & Hp & Hres).
      change (messages (bump w1)) with t1 in Hr. split; [|split].
      * intros k Hk. fold id in Hk, Hr. rewrite Hr, lookup_insert_ne, Ht1, lookup_insert_ne by congruence. done.
      * destruct Hs as [Hs|Hs]; [by left|right]. split; [done|]. exists m, t. done.
      * destruct r as [res|e|]; [|done|done]. fold id in Hr. rewrite Hr, lookup_insert_eq.
        destruct (res_action res); cbn.
        -- left. apply Hres.
        -- destruct Hres as (code & Hst & Hl & _ & Hpm & _). exists m'. split; [done|]. intros t'.
           unfold claimable. rewrite Hst, Hpm. change (Message.providerMessageId (claim_data t lease m))
             with (Message.providerMessageId m). by rewrite (claimable_pmid t m Hcl).
        -- done.
        -- destruct Hres as (code & Hres). eauto.
    + eapply wp_mono; [apply wp_and; [exact Hd|by apply Hd2]|]. clear Hd Hd2.
      intros r w' [(_ & m' & Hr & Hp & Hres) Hs].
      change (messages (bump w1)) with t1 in Hr. split; [|split; [by left|]].
      * intros k Hk. fold id in Hk, Hr. rewrite Hr, lookup_insert_ne, Ht1, lookup_insert_ne by congruence. done.
      * destruct r as [res|e|]; [|done|done]. fold id in Hr. rewrite Hr, lookup_insert_eq.
        destruct (res_action res); cbn.
        -- destruct Hres as [Hsent _]. rewrite Hs in Hsent. symmetry in Hsent.
           by apply snoc_ne in Hsent.
        -- destruct Hres as (code & Hst & Hl & _ & Hpm & _). exists m'. split; [done|]. intros t'.
           unfold claimable. rewrite Hst, Hpm. change (Message.providerMessageId (claim_data t lease m))
             with (Message.providerMessageId m). by rewrite (claimable_pmid t m Hcl).
        -- done.
        -- destruct Hres as (code & Hres). eauto.
  - destruct Hn as [-> Ht1]. rewrite bool_decide_false by done. cbn [negb]. rewrite Ht1, Em.
    assert (Hsame : forall a s, verdict_row a (Some m) ->
      dispatch_post job w (Ok (result a s)) (bump w1)).
    { intros a s Ha. split; [|split; [by left|]].
      - intros k _. change (messages (bump w1)) with t1. by rewrite Ht1.
      - change (messages (bump w1)) with t1. fold id. by rewrite Ht1, Em. }
    destruct (bool_decide (is_Some _) || terminal _) eqn:E1; [|destruct (bool_decide (Message.status m = PROCESSING)) eqn:E2];
      apply wp_ret, Hsame; cbn.
    + apply orb_true_iff in E1 as [E1%bool_decide_eq_true|E1]; [by left|right].
      by apply terminal_settled.
    + apply bool_decide_eq_true in E2. destruct (not_claimable t m Hcl) as [Hx|[Hx|(l & ? & ? & ?)]].
      * apply orb_false_iff in E1 as [E1%bool_decide_eq_false _]. done.
      * rewrite E2 in Hx. destruct Hx. apply elem_of_cons. right. right. left.
      * eauto 7.
    + apply bool_decide_eq_false in E2. destruct (not_claimable t m Hcl) as [Hx|[Hx|(l & ? & _)]];
        [by left|by right|done].
  - destruct Hn as [-> Ht1]. rewrite bool_decide_false by done. cbn [negb]. rewrite Ht1, Em.
    apply wp_ret. split; [|split; [by left|]].
    + intros k _. change (messages (bump w1)) with t1. by rewrite Ht1.
    + change (messages (bump w1)) with t1. fold id. cbn. by rewrite Ht1, Em.
Qed.
End dispatch_claims.

(** C4: the contract between the dispatcher and the queue, for every behaviour of the clock, the
    database, the sender resolver, the rate limiter and Meta.  [dispatch] touches no row but its
    message's; it makes at most one request to Meta, and only for a message it could claim and
    whose traffic class is the job's.  "ack" means the message is gone, has a provider id or
    is past sending; "retry" means it can be claimed again at once; "defer" means another
    lease on it is still running; "dead" means it is FAILED, with an error code. *)
Theorem dispatch_contract `{Prisma} `{Environment} `{Outside} lease job w :
  let '(r, w') := dispatch lease job w in
  (forall k, k <> messageId job -> rows (messages w') !! k = rows (messages w) !! k) /\
  (sent w' = sent w \/
   sent w' = sent w ++ [messageId job] /\ may_send job (rows (messages w) !! messageId job)) /\
  forall res, r = Ok res -> verdict_row (res_action res) (rows (messages w') !! messageId job).
Proof.
  pose proof (dispatch_spec lease job w) as Hd. unfold wp in Hd.
  destruct (dispatch lease job w) as [r w']. destruct Hd as (P1 & P2 & P3).
  split; [exact P1|]. split; [exact P2|]. intros res ->. exact P3.
Qed.

(** What [markRetryExhausted] must not touch at time [t]: a message that was submitted or has
    ended, or whose lease is running. *)
Definition untouchable (t : Z) (m : Message.t) : bool :=
  terminal (Message.status m) ||
  (bool_decide (Message.status m = PROCESSING) &&
   match Message.processingLeaseUntil m with Some lease => t <? lease | None => false end).

(** The outcome of giving up on a message whose retries are exhausted. *)
Definition exhausted_row (t : Z) (m m' : Message.t) : Prop :=
  if untouchable t m then m' = m
  else given_up FAILED "RETRY_EXHAUSTED" m m'.

Section exhausted.
Context `{Prisma} `{Environment}.

Definition exhausted_post (id : string) (m : Message.t) (w : World) (r : exec js_error unit) (w' : World) : Prop :=
  sent w' = sent w /\ (forall k, k <> id -> rows (messages w') !! k = rows (messages w) !! k) /\
  exists t m', rows (messages w') !! id = Some m' /\
    (m' = m \/ exhausted_row t m m') /\ (r = Ok tt -> exhausted_row t m m').

Lemma exhausted_unchanged id m w r w' t :
  rows (messages w) !! id = Some m -> messages w' = messages w -> sent w' = sent w ->
  (r = Ok tt -> untouchable t m = true) -> exhausted_post id m w r w'.
Proof.
  intros Hm Hm' Hs Hr. split; [done|]. rewrite Hm'. split; [done|]. exists t, m.
  split; [done|]. split; [by left|]. intros E. unfold exhausted_row. by rewrite Hr.
Qed.

Lemma exhausted_marks id m w w' t text :
  rows (messages w) !! id = Some m -> messages w' = messages w -> sent w' = sent w ->
  untouchable t m = false ->
  wp (markFailed id "RETRY_EXHAUSTED" text None) (exhausted_post id m w) w'.
Proof.
  intros Hm Hw' Hs' Hu. eapply wp_mono; [apply (wp_markFailed _ _ _ _ w' m); by rewrite Hw'|].
  intros r w2 [Hs Hr]. rewrite Hw' in Hr. split; [congruence|].
  destruct Hr as [[Hr [e ->]]|(m' & Hg & Hr & He)]; rewrite Hr.
  - split; [done|]. exists t, m. split; [done|]. split; [by left|done].
  - split; [intros k Hk; by rewrite lookup_insert_ne by congruence|].
    exists t, m'. rewrite lookup_insert_eq. split; [done|].
    assert (Hx : exhausted_row t m m') by (unfold exhausted_row; by rewrite Hu). auto.
Qed.
Lemma markRetryExhausted_spec job reason w :
  wp (markRetryExhausted job reason) (fun r w' =>
    match rows (messages w) !! messageId job with
    | Some m => exhausted_post (messageId job) m w r w'
    | None => sent w' = sent w /\ rows (messages w') = rows (messages w)
    end) w.
Proof.
  unfold markRetryExhausted. set (id := messageId job). apply wp_bind, wp_message_find.
  { intros e. destruct (rows (messages w) !! id) as [m|] eqn:Em; [|done].
    by eapply (exhausted_unchanged id m w _ _ 0). }
  destruct (rows (messages w) !! id) as [m|] eqn:Em; [|by apply wp_ret].
  destruct (terminal (Message.status m)) eqn:Ht.
  { apply wp_ret. eapply (exhausted_unchanged id m w _ _ 0); try done. intros _.
    unfold untouchable. by rewrite Ht. }
  apply wp_bind. destruct (bool_decide (Message.status m = PROCESSING)) eqn:Hp;
    [destruct (Message.processingLeaseUntil m) as [lease|] eqn:Hl|].
  - apply wp_bind, wp_now. intros t. apply wp_ret.
    assert (Hu : untouchable t m = (t <? lease)) by (unfold untouchable; by rewrite Ht, Hp, Hl).
    destruct (t <? lease).
    + apply wp_ret. by eapply (exhausted_unchanged id m w _ _ t).
    + by eapply exhausted_marks.
  - apply wp_ret. eapply (exhausted_marks id m w _ 0); try done. unfold untouchable. by rewrite Ht, Hp, Hl.
  - apply wp_ret. eapply (exhausted_marks id m w _ 0); try done. unfold untouchable. by rewrite Ht, Hp.
Qed.
End exhausted.

(** [markRetryExhausted] leaves every other row alone, never changes a message that was
    submitted or has ended, nor one whose lease is still running, and otherwise, when it
    returns, has marked the message FAILED with RETRY_EXHAUSTED. *)
Theorem markRetryExhausted_correct `{Prisma} `{Environment} job reason w :
  let '(r, w') := markRetryExhausted job reason w in
  let id := messageId job in
  sent w' = sent w /\ (forall k, k <> id -> rows (messages w') !! k = rows (messages w) !! k) /\
  match rows (messages w) !! id with
  | None => rows (messages w') = rows (messages w)
  | Some m => exists t m', rows (messages w') !! id = Some m' /\
      (m' = m \/ exhausted_row t m m') /\ (r = Ok tt -> exhausted_row t m m')
  end.
Proof.
  intros. pose proof (markRetryExhausted_spec job reason w) as Hs. unfold wp in Hs.
  destruct (markRetryExhausted job reason w) as [r w']. cbn [fst snd] in Hs. cbv zeta.
  destruct (rows (messages w) !! messageId job) as [m|]; [exact Hs|].
  destruct Hs as [Hs Hr]. split; [done|]. rewrite Hr. by split.
Qed.

(** ** A submission that is lost *)
Section example.
(** The database fails once, on the call with number [n]. *)
Definition failing_once (n : nat) : Environment :=
  {| clock := fun _ => 1000; db_fault := fun k => if decide (k = n) then LostBefore "connection lost" else Reliable |}.
Definition accepting : Outside :=
  {| resolve_sender := fun _ _ => Ok {| internalSenderId := None; phoneNumberId := "1"; accessToken := "t";
                                        rateLimitPerSecond := None |};
     outbound_slot := fun _ _ _ _ => Ok tt;
     send_message := fun _ _ _ => Ok {| providerMessageId := "wamid"; response := JNull |} |}.
Definition queued_message : Message.t :=
  {| Message.tenantId := None; Message.senderId := None; Message.conversationId := None;
     Message.direction := MessageDirection.OUTBOUND; Message.trafficClass := MessageTrafficClass.OTP;
     Message.type := MessageType.TEXT; Message.status := QUEUED; Message.to := None; Message.from := None;
     Message.providerMessageId := None; Message.providerTimestamp := None; Message.idempotencyKey := None;
     Message.payload := JNull; Message.providerResponse := None; Message.errorCode := None;
     Message.errorMessage := None; Message.attemptCount := 0; Message.lastAttemptAt := None;
     Message.processingLeaseUntil := None; Message.createdAt := 0; Message.submittedAt := None;
     Message.sentAt := None; Message.deliveredAt := None; Message.readAt := None; Message.failedAt := None |}.
Definition world_with (ms : gmap string Message.t) : World (H := gmap_prisma) :=
  {| messages := ms : table (Prisma := gmap_prisma) Message.t;
     statusEvents := (∅ : gmap _ _); outboxEvents := (∅ : gmap _ _); webhookEvents := (∅ : gmap _ _);
     contacts := (∅ : gmap _ _); consentEvents := (∅ : gmap _ _);
     conversations := (∅ : gmap _ _); teamAssignments := (∅ : gmap _ _); teams := (∅ : gmap _ _);
     inboxAgents := (∅ : gmap _ _); teamMembers := (∅ : gmap _ _); skills := (∅ : gmap _ _);
     agentSkills := (∅ : gmap _ _); skillRequirements := (∅ : gmap _ _); conversationNotes := (∅ : gmap _ _);
     senders := (∅ : gmap _ _); auditLogs := (∅ : gmap _ _); templates := (∅ : gmap _ _);
     campaigns := (∅ : gmap _ _); recipients := (∅ : gmap _ _); segments := (∅ : gmap _ _);
     tenants := (∅ : gmap _ _); apiKeys := (∅ : gmap _ _); cannedResponses := (∅ : gmap _ _);
     mediaAssets := (∅ : gmap _ _); files := ∅; objects := ∅; uploads := []; realtime := []; sent := []; tick := 0 |}.
Definition example_job : OutboundQueueJob :=
  {| messageId := "m"; attempt := 0; trafficClass := MessageTrafficClass.OTP; trace := None |}.

(** Meta accepts the message, but the write that records it fails once: the catch-all of
    [dispatch] takes the database error for a mapping error, marks the message FAILED without
    its provider id and sends the job to the dead letter queue. *)
Lemma accepted_but_failed :
  let '(r, w') := @dispatch gmap_prisma (failing_once 8) accepting 30000 example_job
                    (world_with {[ "m"%string := queued_message ]}) in
  r = Ok (result DeadJob (Some "connection lost"%string)) /\ sent w' = ["m"%string] /\
  (fun m => (Message.status m, Message.providerMessageId m, Message.errorCode m)) <$> 
    (rows (messages w') !! "m"%string) = Some (FAILED, None, Some "OUTBOUND_VALIDATION_ERROR"%string).
Proof. vm_compute. auto. Qed.
End example.
