(* ===== verification/Lease.v ===== *)
(** Workers that compete for one message ([worker/message-dispatcher.service.ts]): the
    interleavings of the database writes of [dispatch], [markRetryExhausted] and the status
    webhooks as a transition system over the row, built from the row updates of [Dispatcher].

    A worker acts in time when it acts before the lease of its claim runs out; nothing in
    [dispatch] checks that.  The system takes a parameter [fenced]: with [fenced] every worker
    acts in time, without it a late worker may act as well. *)
From stdpp Require Import prelude gmap strings.
From Stdlib Require Import ZArith Lia.
From S2P Require Import Prelude Json Io Prisma Domain Queue Dispatcher.
#[local] Open Scope Z_scope.
Import MessageStatus.

(** Where a worker is in [dispatch]: it holds a claim, or Meta has accepted its request. *)
Inductive phase := Holding (lease : Z) | Accepted (lease : Z) (answer : MetaSendMessageResult).
Definition lease_of (p : phase) : Z := match p with Holding l | Accepted l _ => l end.
Definition is_accepted (p : phase) : Prop := match p with Accepted _ _ => True | Holding _ => False end.
#[export] Instance is_accepted_dec p : Decision (is_accepted p).
Proof. destruct p; apply _. Defined.

Record system := {
  s_now : Z;
  s_row : Message.t;
  s_workers : gmap nat phase;
  s_exhausting : bool;   (** [markRetryExhausted] has read the row and will mark it *)
  s_accepted : nat;      (** requests Meta has accepted *)
  s_lost : nat           (** accepted requests whose worker ended without recording them *)
}.

Section system.
Context (OUTBOUND_MESSAGE_LEASE_MS : Z) (fenced : bool).

Definition in_time (now lease : Z) : Prop := fenced = true -> now < lease.

Inductive step : system -> system -> Prop :=
| step_tick now now' row ws ex a l :
    now <= now' -> step (Build_system now row ws ex a l) (Build_system now' row ws ex a l)
(** [claimMessage] *)
| step_claim now row ws ex a l w :
    ws !! w = None -> claimable now row = true ->
    let lease := now + leaseMs OUTBOUND_MESSAGE_LEASE_MS in
    step (Build_system now row ws ex a l)
         (Build_system now (claim_data now lease row) (<[w := Holding lease]> ws) ex a l)
(** [sendToMeta] returns *)
| step_accept now row ws ex a l w lease answer :
    ws !! w = Some (Holding lease) -> in_time now lease ->
    step (Build_system now row ws ex a l)
         (Build_system now row (<[w := Accepted lease answer]> ws) ex (S a) l)
(** the update to SUBMITTED *)
| step_record now row ws ex a l w lease answer :
    ws !! w = Some (Accepted lease answer) -> in_time now lease ->
    step (Build_system now row ws ex a l)
         (Build_system now (submitted_data answer now row) (delete w ws) ex a l)
(** that update fails, and the catch-all marks the message FAILED; or the worker dies *)
| step_record_fails now row ws ex a l w lease answer code text :
    ws !! w = Some (Accepted lease answer) -> in_time now lease ->
    step (Build_system now row ws ex a l)
         (Build_system now (failed_data code text now None row) (delete w ws) ex a (S l))
| step_lose now row ws ex a l w lease answer :
    ws !! w = Some (Accepted lease answer) ->
    step (Build_system now row ws ex a l) (Build_system now row (delete w ws) ex a (S l))
(** [markRetryableFailure] and [markFailed] before anything was accepted; or the worker dies *)
| step_retry now row ws ex a l w lease code text :
    ws !! w = Some (Holding lease) -> in_time now lease ->
    step (Build_system now row ws ex a l) (Build_system now (retry_data code text row) (delete w ws) ex a l)
| step_fail now row ws ex a l w lease code text resp :
    ws !! w = Some (Holding lease) -> in_time now lease ->
    step (Build_system now row ws ex a l)
         (Build_system now (failed_data code text now resp row) (delete w ws) ex a l)
| step_abandon now row ws ex a l w lease :
    ws !! w = Some (Holding lease) ->
    step (Build_system now row ws ex a l) (Build_system now row (delete w ws) ex a l)
(** [markRetryExhausted]: the check and, later, the write *)
| step_exhaust_check now row ws ex a l :
    untouchable now row = false ->
    step (Build_system now row ws ex a l) (Build_system now row ws true a l)
| step_exhaust_write now row ws a l text :
    step (Build_system now row ws true a l)
         (Build_system now (failed_data "RETRY_EXHAUSTED" text now None row) ws false a l)
(** a status webhook for the provider id *)
| step_webhook now row ws ex a l s :
    is_Some (Message.providerMessageId row) -> s ∈ [SENT; DELIVERED; READ; FAILED] ->
    step (Build_system now row ws ex a l)
         (Build_system now (row <| Message.status := s |>) ws ex a l).

Definition initial (s : system) : Prop :=
  s_workers s = ∅ /\ s_accepted s = 0%nat /\ s_lost s = 0%nat /\ s_exhausting s = false /\
  Message.providerMessageId (s_row s) = None.
Definition reachable (s : system) : Prop := exists s0, initial s0 /\ rtc step s0 s.

(** A worker whose lease is running. *)
Definition live (s : system) (w : nat) : Prop :=
  exists p, s_workers s !! w = Some p /\ s_now s < lease_of p.

Definition accepted_workers (ws : gmap nat phase) : nat := size (filter (fun kp => is_accepted kp.2) ws).
Definition recorded (row : Message.t) : nat :=
  match Message.providerMessageId row with Some _ => 1 | None => 0 end.

Record invariant (s : system) : Prop := {
  inv_unique : forall w w', live s w -> live s w' -> w = w';
  inv_blocked : forall w p, s_workers s !! w = Some p -> s_now s < lease_of p ->
    Message.providerMessageId (s_row s) = None /\
    forall t, t < lease_of p -> claimable t (s_row s) = false;
  inv_count : s_accepted s = (s_lost s + accepted_workers (s_workers s) + recorded (s_row s))%nat
}.
End system.

Section counting.
Implicit Types (ws : gmap nat phase).

Lemma accepted_workers_insert ws w l lease answer :
  ws !! w = Some (Holding l) ->
  accepted_workers (<[w := Accepted lease answer]> ws) = S (accepted_workers ws).
Proof.
  intros Hw. unfold accepted_workers. rewrite map_filter_insert_True by done.
  apply map_size_insert_None. apply map_lookup_filter_None_2. right. intros p Hp. simplify_eq. intros [].
Qed.
Lemma accepted_workers_hold ws w l :
  ws !! w = None -> accepted_workers (<[w := Holding l]> ws) = accepted_workers ws.
Proof.
  intros Hw. unfold accepted_workers. rewrite map_filter_insert_False by (cbn; tauto).
  by rewrite delete_id.
Qed.
Lemma accepted_workers_delete ws w p :
  ws !! w = Some p ->
  accepted_workers ws = ((if decide (is_accepted p) then 1 else 0) + accepted_workers (delete w ws))%nat.
Proof.
  intros Hw. unfold accepted_workers. rewrite map_filter_delete. destruct (decide (is_accepted p)).
  - assert (Hf : filter (fun kp => is_accepted kp.2) ws !! w = Some p)
      by (by apply map_lookup_filter_Some_2).
    rewrite <- (insert_delete_id _ _ _ Hf) at 1. rewrite map_size_insert_None by apply lookup_delete_eq.
    done.
  - rewrite delete_id; [done|]. apply map_lookup_filter_None_2. right. intros q Hq. simplify_eq. done.
Qed.
Lemma accepted_workers_leave ws w lease answer :
  ws !! w = Some (Accepted lease answer) -> accepted_workers ws = S (accepted_workers (delete w ws)).
Proof. intros Hw. rewrite (accepted_workers_delete ws w _ Hw). by rewrite decide_True. Qed.
Lemma accepted_workers_stay ws w lease :
  ws !! w = Some (Holding lease) -> accepted_workers ws = accepted_workers (delete w ws).
Proof. intros Hw. rewrite (accepted_workers_delete ws w _ Hw). rewrite decide_False; [done|]. intros []. Qed.
End counting.

(** ** The invariant, when every worker acts in time *)
Section fenced.
Context (OUTBOUND_MESSAGE_LEASE_MS : Z).
Abbreviation step := (step OUTBOUND_MESSAGE_LEASE_MS true).
Abbreviation reachable := (reachable OUTBOUND_MESSAGE_LEASE_MS true).

Lemma initial_invariant s : initial s -> invariant s.
Proof.
  intros (Hw & Ha & Hl & _ & Hp). split.
  - intros w w' (p & E & _). by rewrite Hw, lookup_empty in E.
  - intros w p E. by rewrite Hw, lookup_empty in E.
  - unfold recorded. rewrite Hw, Ha, Hl, Hp. reflexivity.
Qed.

(** Once the only live worker has left, nobody is live. *)
Lemma nobody_live now row ws ex a l w p row' a' l' ex' :
  invariant (Build_system now row ws ex a l) -> ws !! w = Some p -> now < lease_of p ->
  forall w', ~ live (Build_system now row' (delete w ws) ex' a' l') w'.
Proof.
  intros Hi Hw Hp w' (q & Hq & Hlt). cbn in Hq, Hlt. apply lookup_delete_Some in Hq as [Hne Hq].
  apply Hne, (inv_unique _ Hi w w'); [by exists p|by exists q].
Qed.

Lemma invariant_idle now row ws ex a l :
  (forall w, ~ live (Build_system now row ws ex a l) w) ->
  a = (l + accepted_workers ws + recorded row)%nat -> invariant (Build_system now row ws ex a l).
Proof.
  intros Hn Hc. split; [|intros w p Hw Hp|done].
  - intros w w' Hw. by apply Hn in Hw.
  - destruct (Hn w). by exists p.
Qed.

Lemma failed_data_pmid code text t resp m :
  Message.providerMessageId (failed_data code text t resp m) = Message.providerMessageId m.
Proof. by destruct resp. Qed.
Lemma failed_data_blocked code text t resp m t' : claimable t' (failed_data code text t resp m) = false.
Proof. unfold claimable. rewrite failed_data_pmid. destruct (Message.providerMessageId m); by destruct resp. Qed.

(** Fewer live workers, same row: the invariant stays as long as the count does. *)
Lemma invariant_weaken now now' row ws ws' ex ex' a a' l l' :
  invariant (Build_system now row ws ex a l) ->
  (forall w p, ws' !! w = Some p -> now' < lease_of p -> exists p', ws !! w = Some p' /\ now < lease_of p' /\
     lease_of p' = lease_of p) ->
  a' = (l' + accepted_workers ws' + recorded row)%nat -> invariant (Build_system now' row ws' ex' a' l').
Proof.
  intros Hi Hsub Hc. split; [|intros w p Hw Hp|done].
  - intros w w' (p & Hp & Hl) (p' & Hp' & Hl'). cbn in *.
    destruct (Hsub w p Hp Hl) as (q & ? & ? & _), (Hsub w' p' Hp' Hl') as (q' & ? & ? & _).
    apply (inv_unique _ Hi); [by exists q|by exists q'].
  - cbn in *. destruct (Hsub w p Hw Hp) as (q & Hq & Hlq & E).
    destruct (inv_blocked _ Hi w q Hq Hlq) as [Hpm Hb]. split; [done|]. by rewrite <- E.
Qed.

Lemma step_invariant s s' : invariant s -> step s s' -> invariant s'.
Proof.
  intros Hi Hs. pose proof (inv_count _ Hi) as Hcount.
  destruct Hs as [now now' row ws ex a l Ht|now row ws ex a l w Hw Hcl lease
    |now row ws ex a l w lease answer Hw Ht|now row ws ex a l w lease answer Hw Ht
    |now row ws ex a l w lease answer code text Hw Ht|now row ws ex a l w lease answer Hw
    |now row ws ex a l w lease code text Hw Ht|now row ws ex a l w lease code text resp Hw Ht
    |now row ws ex a l w lease Hw|now row ws ex a l Hu|now row ws a l text|now row ws ex a l s Hp Hin];
    cbn in Hcount; try specialize (Ht eq_refl).
  - eapply invariant_weaken; [exact Hi| |done]. intros w p Hw Hp. exists p. split; [done|]. split; [lia|done].
  - assert (Hnone : forall v, ~ live (Build_system now row ws ex a l) v).
    { intros v (p & Hv & Hp). destruct (inv_blocked _ Hi v p Hv Hp) as [_ Hb].
      specialize (Hb now Hp). cbn in Hb. congruence. }
    split.
    + intros v v' (p & Hv & Hp) (p' & Hv' & Hp'). cbn in *.
      destruct (decide (v = w)) as [->|Hne]; [destruct (decide (v' = w)) as [->|Hne']; [done|]|].
      * rewrite lookup_insert_ne in Hv' by done. destruct (Hnone v'). by exists p'.
      * rewrite lookup_insert_ne in Hv by done. destruct (Hnone v). by exists p.
    + intros v p Hv Hp. cbn in *. destruct (decide (v = w)) as [->|Hne].
      * rewrite lookup_insert_eq in Hv. injection Hv as <-. cbn [lease_of].
        apply claimable_pmid in Hcl as Hpm. split; [done|]. intros t Hlt.
        unfold claimable. cbn. rewrite Hpm. by apply Z.leb_gt.
      * rewrite lookup_insert_ne in Hv by done. destruct (Hnone v). by exists p.
    + cbn. rewrite accepted_workers_hold by done. exact Hcount.
  - eapply invariant_weaken; [exact Hi| |rewrite (accepted_workers_insert ws w lease) by done; lia].
    intros v p Hv Hp. destruct (decide (v = w)) as [->|Hne].
    + rewrite lookup_insert_eq in Hv. injection Hv as <-. exists (Holding lease). done.
    + rewrite lookup_insert_ne in Hv by done. eauto.
  - apply invariant_idle; [by apply (nobody_live now row ws ex a l w (Accepted lease answer))|].
    rewrite (accepted_workers_leave ws w _ _ Hw) in Hcount.
    destruct (inv_blocked _ Hi w _ Hw Ht) as [Hpm _]. cbn in Hpm. unfold recorded in *. rewrite Hpm in Hcount.
    cbn. lia.
  - apply invariant_idle; [by apply (nobody_live now row ws ex a l w (Accepted lease answer))|].
    rewrite (accepted_workers_leave ws w _ _ Hw) in Hcount.
    unfold recorded in *. rewrite failed_data_pmid. lia.
  - eapply invariant_weaken; [exact Hi| |rewrite (accepted_workers_leave ws w _ _ Hw) in Hcount; lia].
    intros v p [Hne Hv]%lookup_delete_Some Hp. eauto.
  - apply invariant_idle; [by apply (nobody_live now row ws ex a l w (Holding lease))|].
    rewrite (accepted_workers_stay ws w _ Hw) in Hcount. exact Hcount.
  - apply invariant_idle; [by apply (nobody_live now row ws ex a l w (Holding lease))|].
    rewrite (accepted_workers_stay ws w _ Hw) in Hcount.
    unfold recorded in *. rewrite failed_data_pmid. exact Hcount.
  - eapply invariant_weaken; [exact Hi| |rewrite (accepted_workers_stay ws w _ Hw) in Hcount; lia].
    intros v p [Hne Hv]%lookup_delete_Some Hp. eauto.
  - eapply invariant_weaken; [exact Hi|eauto|done].
  - split; [exact (inv_unique _ Hi)| |].
    + intros w p Hw Hp. destruct (inv_blocked _ Hi w p Hw Hp) as [Hpm _]. cbn [s_row] in *.
      rewrite failed_data_pmid. split; [done|]. intros t _. apply failed_data_blocked.
    + cbn [s_accepted s_lost s_workers s_row]. unfold recorded in *. rewrite failed_data_pmid. exact Hcount.
  - split; [exact (inv_unique _ Hi)| |exact Hcount].
    intros w p Hw Hlt. destruct (inv_blocked _ Hi w p Hw Hlt) as [Hpm _]. cbn in *.
    rewrite Hpm in Hp. by destruct Hp.
Qed.

Lemma reachable_invariant s : reachable s -> invariant s.
Proof.
  intros (s0 & H0 & Hr). apply initial_invariant in H0. induction Hr as [|x y z Hxy _ IH]; [done|].
  apply IH. by eapply step_invariant.
Qed.
End fenced.

(** ** Claims *)
Lemma size_at_most_one {A} (m : gmap nat A) :
  (forall i j, is_Some (m !! i) -> is_Some (m !! j) -> i = j) -> (size m <= 1)%nat.
Proof.
  intros Hu. destruct (decide (m = ∅)) as [->|Hne]; [by rewrite map_size_empty; lia|].
  apply map_choose in Hne as (i & x & Hi).
  assert (m = {[i := x]}) as ->; [|by rewrite map_size_singleton].
  apply map_eq. intros j. destruct (decide (i = j)) as [<-|Hij].
  - by rewrite lookup_singleton_eq.
  - rewrite lookup_singleton_ne by done. destruct (m !! j) as [y|] eqn:Hj; [|done].
    destruct Hij. apply Hu; eauto.
Qed.

(** Workers whose request was accepted and whose lease ran out before they recorded it. *)
Definition overdue (s : system) : nat :=
  size (filter (fun kp => is_accepted kp.2 /\ lease_of kp.2 <= s_now s) (s_workers s)).
Definition live_accepted (s : system) : gmap nat phase :=
  filter (fun kp => is_accepted kp.2 /\ s_now s < lease_of kp.2) (s_workers s).

Lemma accepted_workers_split s :
  accepted_workers (s_workers s) = (size (live_accepted s) + overdue s)%nat.
Proof.
  unfold accepted_workers, live_accepted, overdue. destruct s as [now row ws ex a l]. cbn [s_workers s_now].
  induction ws as [|w p ws Hw IH] using map_ind.
  - by rewrite !map_filter_empty, map_size_empty.
  - assert (Hnone : forall P `{!forall kp : nat * phase, Decision (P kp)}, filter P ws !! w = None).
    { intros P HP. apply map_lookup_filter_None_2. by left. }
    destruct (decide (is_accepted p)) as [Ha|Ha].
    + rewrite map_filter_insert_True, map_size_insert_None by done.
      destruct (Z.lt_ge_cases now (lease_of p)) as [Hl|Hl].
      * rewrite (map_filter_insert_True _ ws w p), map_size_insert_None by done.
        rewrite map_filter_insert_False by (cbn; lia). rewrite delete_id by done. lia.
      * rewrite (map_filter_insert_False _ ws w p) by (cbn; lia).
        rewrite (map_filter_insert_True _ ws w p), map_size_insert_None by done.
        rewrite delete_id by done. lia.
    + rewrite !map_filter_insert_False by (cbn; tauto). by rewrite delete_id.
Qed.


Definition example_start : system :=
  {| s_now := 0; s_row := queued_message; s_workers := ∅; s_exhausting := false; s_accepted := 0; s_lost := 0 |}.
Definition example_answer : MetaSendMessageResult := {| providerMessageId := "wamid"; response := JNull |}.


(** Nothing in [dispatch] renews or checks the lease, and the wait for a rate limiter slot has no
    bound: a worker that waited longer than its lease sends the message a second time, with
    no failure anywhere. *)
Lemma late_worker_sends_twice :
  exists s, reachable 30000 false s /\ s_accepted s = 2%nat /\ s_lost s = 0%nat.
Proof.
  eexists. split; [|split].
  - exists example_start. split; [done|].
    eapply rtc_l; [by apply (step_claim _ _ _ _ _ _ _ _ 0%nat)|].
    eapply rtc_l; [apply (step_tick _ _ 0 40000); lia|].
    eapply rtc_l; [by apply (step_claim _ _ _ _ _ _ _ _ 1%nat)|].
    eapply rtc_l; [by apply (step_accept _ _ _ _ _ _ _ _ 1%nat 70000 example_answer)|].
    eapply rtc_l; [by apply (step_accept _ _ _ _ _ _ _ _ 0%nat 30000 example_answer)|].
    apply rtc_refl.
  - done.
  - done.
Qed.
