(* ===== verification/LeaseQueue.v ===== *)
(** Tables used as work queues.  The outbox and the webhook inbox are claimed with the same SQL: the oldest due rows whose lease is not running, at most a
    batch of them, skipping the rows another transaction has locked, get a lease and one more
    attempt.  A failed row comes back after an exponential backoff. *)
From stdpp Require Import prelude gmap strings sorting.
From Stdlib Require Import ZArith Lia.
From S2P Require Import Prelude Prisma.
#[local] Open Scope Z_scope.

(** [ORDER BY ... LIMIT n]: whatever is left out does not come before what is taken. *)
Lemma limit_first {A} (R S : relation A) `{forall x y, Decision (R x y)} `{!Total R} n l x y :
  Transitive S -> (forall a b, R a b -> S a b) ->
  x ∈ take n (merge_sort R l) -> y ∈ l -> y ∈ take n (merge_sort R l) \/ S x y.
Proof.
  intros Htr Hsub Hx Hy. pose proof (Sorted_merge_sort R l) as Hs.
  assert (Hs' : Sorted S (merge_sort R l)).
  { clear Hx Hy. induction Hs as [|a k _ IH Ha]; [done|]. constructor; [done|].
    inversion Ha; constructor. by apply Hsub. }
  apply Sorted_StronglySorted in Hs'; [|exact Htr].
  assert (Hin : y ∈ merge_sort R l) by by rewrite (merge_sort_Permutation R).
  rewrite <- (take_drop n (merge_sort R l)) in Hin, Hs'.
  apply elem_of_app in Hin as [Hin|Hin]; [by left|right].
  by apply (StronglySorted_app_1_elem_of S _ _ x y Hs').
Qed.

(** What the claim sees of a row and does to it. *)
Class Leased (R : Type) := {
  open_row : R -> bool;            (** not done yet *)
  due_at : R -> Z;
  lease_until : R -> option Z;
  created_at : R -> Z;
  claim_row : Z -> R -> R;         (** sets the lease and counts the attempt *)
  claim_row_lease : forall l r, lease_until (claim_row l r) = Some l
}.

Section claim.
Context `{Prisma} {R : Type} `{!Leased R}.
Implicit Types (t : table R) (k : string) (r : R).

(** ["nextAttemptAt" <= NOW() AND ("processingLeaseUntil" IS NULL OR ... <= NOW())] *)
Definition lease_over (now : Z) (r : R) : bool :=
  match lease_until r with None => true | Some l => l <=? now end.
Definition eligible (now : Z) (r : R) : bool :=
  open_row r && (due_at r <=? now) && lease_over now r.

Definition older (a b : string * R) : Prop := created_at a.2 <= created_at b.2.
#[export] Instance older_dec : RelDecision older.
Proof. intros a b. unfold older. apply _. Defined.
#[export] Instance older_total : Total older.
Proof. intros a b. unfold older. lia. Qed.
#[export] Instance older_trans : Transitive older.
Proof. intros a b c. unfold older. lia. Qed.

(** The candidates, in the order of [ORDER BY ... ASC LIMIT n FOR UPDATE SKIP LOCKED]. *)
Definition candidates (now : Z) (locked : string -> bool) (n : nat) t : list (string * R) :=
  take n (merge_sort older
    (filter (fun kr => eligible now kr.2 && negb (locked kr.1) = true) (map_to_list (rows t)))).

(** The claim: the rows as [RETURNING] gives them, and the table after the update. *)
Definition claim_batch (now leaseUntil : Z) (locked : string -> bool) (n : nat) t
    : list (string * R) * table R :=
  let chosen := (candidates now locked n t).*1 in
  let t' := (updateMany (fun k _ => bool_decide (k ∈ chosen)) (claim_row leaseUntil) t).2 in
  ((fun kr => (kr.1, claim_row leaseUntil kr.2)) <$> candidates now locked n t, t').

Lemma candidates_elem now locked n t k r :
  (k, r) ∈ candidates now locked n t ->
  rows t !! k = Some r /\ eligible now r = true /\ locked k = false.
Proof.
  intros Hin. apply (subseteq_take n) in Hin.
  rewrite (merge_sort_Permutation older) in Hin.
  apply list_elem_of_filter in Hin as [Hp Hin]. apply elem_of_map_to_list in Hin.
  cbn in Hp. apply andb_true_iff in Hp as [? ?%negb_true_iff]. done.
Qed.

Lemma candidates_lookup now locked n t k r r' :
  (k, r) ∈ candidates now locked n t -> rows t !! k = Some r' -> r = r'.
Proof. intros (Hk & _ & _)%candidates_elem Hk'. congruence. Qed.

(** Whoever is left out, with the same rights, is not older than anyone chosen. *)
Lemma candidates_oldest now locked n t k r k' r' :
  (k, r) ∈ candidates now locked n t ->
  rows t !! k' = Some r' -> eligible now r' = true -> locked k' = false ->
  (k', r') ∈ candidates now locked n t \/ created_at r <= created_at r'.
Proof.
  unfold candidates. set (l := filter _ _). intros Hin Hk' He' Hl'.
  apply (limit_first older older n l (k, r) (k', r') older_trans); [done|exact Hin|].
  apply list_elem_of_filter. cbn. rewrite He', Hl'. split; [done|]. by apply elem_of_map_to_list.
Qed.

Lemma claim_batch_rows now l locked n t k :
  rows (claim_batch now l locked n t).2 !! k =
    (fun r => if decide (k ∈ (candidates now locked n t).*1) then claim_row l r else r) <$> rows t !! k.
Proof.
  cbn. rewrite updateMany_rows. destruct (rows t !! k); cbn; [|done].
  destruct (decide (k ∈ _)); [by rewrite bool_decide_true|by rewrite bool_decide_false].
Qed.

(** What was claimed: existing, eligible, unlocked rows, now with the lease. *)
Lemma claim_batch_claimed now l locked n t k r :
  (k, r) ∈ (claim_batch now l locked n t).1 ->
  exists r0, rows t !! k = Some r0 /\ eligible now r0 = true /\ locked k = false /\
    r = claim_row l r0 /\ rows (claim_batch now l locked n t).2 !! k = Some r.
Proof.
  intros Hin. cbn in Hin. apply list_elem_of_fmap in Hin as ([k0 r0] & [= -> ->] & Hin).
  pose proof (candidates_elem _ _ _ _ _ _ Hin) as (Hk & He & Hl). exists r0.
  split; [done|]. split; [done|]. split; [done|]. split; [done|].
  rewrite claim_batch_rows, Hk. cbn. rewrite decide_True; [done|].
  apply list_elem_of_fmap. by exists (k0, r0).
Qed.

Lemma claim_batch_length now l locked n t : (length (claim_batch now l locked n t).1 <= n)%nat.
Proof. cbn. rewrite length_fmap. unfold candidates. rewrite length_take. lia. Qed.

(** Until its lease is over a claimed row is not claimed again. *)
Lemma claim_batch_exclusive now l locked n t now' l' locked' n' k r r' :
  (k, r) ∈ (claim_batch now l locked n t).1 -> now' < l ->
  (k, r') ∈ (claim_batch now' l' locked' n' (claim_batch now l locked n t).2).1 -> False.
Proof.
  intros (r0 & _ & _ & _ & -> & Hk)%claim_batch_claimed Hlt.
  intros (r1 & Hk1 & He & _)%claim_batch_claimed. rewrite Hk in Hk1. injection Hk1 as <-.
  unfold eligible, lease_over in He. rewrite claim_row_lease in He.
  rewrite (proj2 (Z.leb_gt l now')), andb_false_r in He by done. done.
Qed.

(** Claiming takes at most a batch of rows; each was open, due, out of lease and not locked
    by another transaction, and comes back, as it is now in the table, with the lease and one
    more attempt; a row left out despite the same rights is no older than the rows taken; and
    until the lease is over no later claim takes the row again. *)
Theorem claim_batch_correct now l locked n t :
  let '(claimed, t') := claim_batch now l locked n t in
  (length claimed <= n)%nat /\
  (forall k r, (k, r) ∈ claimed -> exists r0,
     rows t !! k = Some r0 /\ eligible now r0 = true /\ locked k = false /\
     r = claim_row l r0 /\ rows t' !! k = Some r) /\
  (forall k, k ∉ claimed.*1 -> rows t' !! k = rows t !! k) /\
  (forall k r k' r0', (k, r) ∈ claimed -> rows t !! k' = Some r0' -> eligible now r0' = true ->
     locked k' = false -> k' ∉ claimed.*1 ->
     exists r0, rows t !! k = Some r0 /\ created_at r0 <= created_at r0') /\
  (forall now' l' locked' n' k, k ∈ claimed.*1 -> now' < l -> k ∉ (claim_batch now' l' locked' n' t').1.*1).
Proof.
  pose proof (claim_batch_length now l locked n t) as P1.
  pose proof (claim_batch_claimed now l locked n t) as P2.
  pose proof (claim_batch_rows now l locked n t) as P3.
  pose proof (claim_batch_exclusive now l locked n t) as P4.
  destruct (claim_batch now l locked n t) as [claimed t'] eqn:E. cbn [fst snd] in *.
  assert (Hkeys : claimed.*1 = (candidates now locked n t).*1).
  { injection E as <- _. rewrite <- list_fmap_compose. by apply list_fmap_ext. }
  split; [done|]. split; [done|]. split; [|split].
  - intros k Hk. rewrite P3. destruct (rows t !! k); cbn [fmap option_fmap option_map]; [|done].
    rewrite decide_False; [done|by rewrite <- Hkeys].
  - intros k r k' r0' Hin Hk' He' Hl' Hout. injection E as <- _.
    apply list_elem_of_fmap in Hin as ([k0 r0] & [= -> ->] & Hin). exists r0.
    split; [by apply (candidates_elem _ _ _ _ _ _ Hin)|].
    destruct (candidates_oldest _ _ _ _ _ _ _ _ Hin Hk' He' Hl') as [Hin'|?]; [|done].
    exfalso. apply Hout. rewrite Hkeys. apply list_elem_of_fmap. by exists (k', r0').
  - intros now' l' locked' n' k Hk Hlt Hin.
    apply list_elem_of_fmap in Hk as ([k1 r1] & -> & Hk).
    apply list_elem_of_fmap in Hin as ([k2 r2] & E2 & Hin). cbn in E2. subst k2.
    by eapply P4.
Qed.
End claim.

(** ** Backoff *)
(** [Math.min(60_000, 1000 * 2 ** Math.min(Math.max(attempts - 1, 0), 6))] *)
Definition retryDelayMs (attempts : Z) : Z :=
  Z.min 60000 (1000 * 2 ^ Z.min (Z.max (attempts - 1) 0) 6).

Lemma retryDelayMs_bounds a : 1000 <= retryDelayMs a <= 60000.
Proof.
  unfold retryDelayMs. split; [|lia].
  assert (H1 : 2 ^ 0 <= 2 ^ Z.min (Z.max (a - 1) 0) 6) by (apply Z.pow_le_mono_r; lia).
  change (2 ^ 0) with 1 in H1. lia.
Qed.

Lemma retryDelayMs_mono a b : a <= b -> retryDelayMs a <= retryDelayMs b.
Proof.
  intros Hab. unfold retryDelayMs.
  apply Z.min_le_compat_l, Z.mul_le_mono_nonneg_l; [lia|]. apply Z.pow_le_mono_r; lia.
Qed.

(** It doubles from a second and reaches the cap at the seventh attempt. *)
Lemma retryDelayMs_doubles a : 1 <= a <= 6 -> retryDelayMs a = 1000 * 2 ^ (a - 1).
Proof.
  intros Ha. assert (a = 1 \/ a = 2 \/ a = 3 \/ a = 4 \/ a = 5 \/ a = 6) as Hc by lia.
  destruct Hc as [->|[->|[->|[->|[->| ->]]]]]; reflexivity.
Qed.
Lemma retryDelayMs_cap a : 7 <= a -> retryDelayMs a = 60000.
Proof. intros Ha. unfold retryDelayMs. rewrite Z.max_l, (Z.min_r (a - 1) 6) by lia. reflexivity. Qed.

(** A failed row comes back after one second, twice as long after every further attempt up to
    the sixth, and after a minute from then on: the delay never decreases nor leaves
    [[1 s, 60 s]]. *)
Theorem retryDelayMs_correct a b :
  1000 <= retryDelayMs a <= 60000 /\
  (a <= b -> retryDelayMs a <= retryDelayMs b) /\
  (1 <= a <= 6 -> retryDelayMs a = 1000 * 2 ^ (a - 1)) /\
  (7 <= a -> retryDelayMs a = 60000).
Proof.
  repeat split; try apply retryDelayMs_bounds;
    auto using retryDelayMs_mono, retryDelayMs_doubles, retryDelayMs_cap.
Qed.
