(* ===== verification/Outbox.v ===== *)
(** The transactional outbox ([outbox/outbox-publisher.service.ts]): claiming events, publishing
    their messages to the queue of the message's class, and retrying with a backoff. *)
From stdpp Require Import prelude gmap strings.
From Stdlib Require Import ZArith Lia.
From S2P Require Import Prelude Json Io Prisma Domain LeaseQueue Queue Dispatcher.
#[local] Open Scope Z_scope.
Import MessageTrafficClass.

Definition OUTBOUND_REQUESTED_EVENT : string := "message.outbound.requested".

#[export] Program Instance outbox_leased : Leased OutboxEvent.t := {|
  open_row := fun e => bool_decide (OutboxEvent.publishedAt e = None);
  due_at := OutboxEvent.nextAttemptAt;
  lease_until := OutboxEvent.processingLeaseUntil;
  created_at := OutboxEvent.createdAt;
  claim_row := fun l e => e <| OutboxEvent.processingLeaseUntil := Some l |>
                            <| OutboxEvent.attempts ::= (fun a => a + 1) |>
|}.
Next Obligation. done. Qed.

Definition extractMessageId (payload : json) : option string :=
  if negb (is_record payload) then None else
  match prop "messageId" payload with
  | Some (JStr id) => if String.eqb id "" then None else Some id
  | _ => None
  end.

Definition extractTrafficClass (payload : json) : option MessageTrafficClass.t :=
  if negb (is_record payload) then None else
  match prop "trafficClass" payload with
  | Some (JStr s) =>
      if String.eqb s "OTP" then Some OTP
      else if String.eqb s "TRANSACTIONAL" then Some TRANSACTIONAL
      else if String.eqb s "MARKETING" then Some MARKETING
      else None
  | _ => None
  end.

(** The queue the publisher hands messages to, and the parser of trace carriers. *)
Class Publisher := {
  publish_outbound : nat -> string -> MessageTrafficClass.t -> option TraceCarrier -> exec js_error unit;
  parse_carrier : option json -> option TraceCarrier
}.

Section outbox.
Context `{Prisma} `{Environment} `{Publisher}.
(** [Number(process.env.OUTBOX_LEASE_MS ?? 30000)] *)
Context (OUTBOX_LEASE_MS : Z).

(** The log of what was handed to the queue: message and class. *)
Definition outbox_world : Type := World * list (string * MessageTrafficClass.t).
Definition on_world {A} (m : io World A) : io outbox_world A := fun '(w, log) =>
  let '(r, w') := m w in (r, (w', log)).

Definition extractTrace (payload : json) : option TraceCarrier :=
  if negb (is_record payload) then None else parse_carrier (prop "trace" payload).

Definition outbox_update (id : string) (f : OutboxEvent.t -> OutboxEvent.t) : io World unit :=
  db (fun w => t ← update unconstrained id f (outboxEvents w); Some (tt, w <| outboxEvents := t |>)).

Definition lookupTrafficClass (messageId : string) : io World MessageTrafficClass.t :=
  message ← message_find messageId;
  match message with
  | None => throw (Error ("Outbound message " +:+ messageId +:+ " no longer exists"))
  | Some m => mret (Message.trafficClass m)
  end.

(** [publishOutboundMessage]: with or without a trace the queue gets the message once. *)
Definition publishOutboundMessage (messageId : string) (c : MessageTrafficClass.t)
    (trace : option TraceCarrier) : io outbox_world unit := fun '(w, log) =>
  let r := publish_outbound (tick w) messageId c trace in
  (r, (bump w, match r with Ok _ => log ++ [(messageId, c)] | _ => log end)).

Definition published_data (now : Z) (e : OutboxEvent.t) : OutboxEvent.t :=
  e <| OutboxEvent.publishedAt := Some now |> <| OutboxEvent.processingLeaseUntil := None |>
    <| OutboxEvent.lastError := None |>.
Definition rescheduled_data (message : string) (now attempts : Z) (e : OutboxEvent.t) : OutboxEvent.t :=
  e <| OutboxEvent.lastError := Some (JsString.slice0 2000 message) |>
    <| OutboxEvent.nextAttemptAt := now + retryDelayMs attempts |>
    <| OutboxEvent.processingLeaseUntil := None |>.

Definition publish (eventId eventType aggregateId : string) (payload : json) (attempts : Z)
    : io outbox_world unit :=
  try_catch
    (_ ← (if String.eqb eventType OUTBOUND_REQUESTED_EVENT then mret tt
          else throw (Error ("Unsupported outbox event type: " +:+ eventType)));
     let messageId := default aggregateId (extractMessageId payload) in
     persisted ← on_world (lookupTrafficClass messageId);
     _ ← (match extractTrafficClass payload with
          | Some c => if bool_decide (c = persisted) then mret tt else
              throw (Error ("Outbox traffic class " +:+ name c +:+
                            " does not match persisted message class " +:+ name persisted))
          | None => mret tt
          end);
     _ ← publishOutboundMessage messageId persisted (extractTrace payload);
     publishedAt ← on_world now;
     on_world (outbox_update eventId (published_data publishedAt)))
    (fun error =>
       let message := error_message string_of error in
       now ← on_world now;
       on_world (outbox_update eventId (rescheduled_data message now attempts))).

(** The claim runs [NOW()] at the database; [locked] are the rows other transactions hold. *)
Definition claimEvents (db_now : Z) (locked : string -> bool) (batchSize : nat)
    : io World (list (string * OutboxEvent.t)) :=
  now ← now;
  let leaseUntil := now + Z.max 5000 OUTBOX_LEASE_MS in
  db (fun w => let '(events, t) := claim_batch db_now leaseUntil locked batchSize (outboxEvents w) in
               Some (events, w <| outboxEvents := t |>)).

Definition publish_event (e : string * OutboxEvent.t) : io outbox_world unit :=
  publish e.1 (OutboxEvent.eventType e.2) (OutboxEvent.aggregateId e.2) (OutboxEvent.payload e.2)
    (OutboxEvent.attempts e.2).

(** [flush], entered while [flushing] is [false]; an exception ends the batch. *)
Definition flush (db_now : Z) (locked : string -> bool) (batchSize : nat) : io outbox_world unit :=
  try_catch
    (events ← on_world (claimEvents db_now locked batchSize);
     for_each events publish_event)
    (fun _ => mret tt).
End outbox.

(** ** Publishing one event *)
Section publish_proofs.
Context `{Prisma} `{Environment} `{Publisher}.

Lemma wp_on_world {A} (m : io World A) (Q : exec js_error A -> outbox_world -> Prop) w log :
  wp m (fun r w' => Q r (w', log)) w -> wp (on_world m) Q (w, log).
Proof. unfold wp, on_world. by destruct (m w). Qed.

Lemma wp_outbox_update id f (Q : exec js_error unit -> World -> Prop) w :
  (forall e, Q (Throws (Error e)) (bump w)) ->
  (forall t e0, rows (outboxEvents w) !! id = Some e0 ->
     rows t = <[id := f e0]> (rows (outboxEvents w)) ->
     let w' := bump w <| outboxEvents := t |> in (forall e, Q (Throws (Error e)) w') /\ Q (Ok tt) w') ->
  wp (outbox_update id f) Q w.
Proof.
  intros He Ho. apply wp_db; [done|]. intros [] w' Hf.
  apply bind_Some in Hf as (t & Ht & [= <-]). apply update_some in Ht as (e0 & Hr & Ht & _).
  by apply (Ho t e0).
Qed.

(** The message an event is about, and the entry of the log that says it was handed over. *)
Definition target (e : OutboxEvent.t) : string :=
  default (OutboxEvent.aggregateId e) (extractMessageId (OutboxEvent.payload e)).
Definition entry (w : World) (e : OutboxEvent.t) (x : string * MessageTrafficClass.t) : Prop :=
  OutboxEvent.eventType e = OUTBOUND_REQUESTED_EVENT /\ x.1 = target e /\
  (exists m, rows (messages w) !! target e = Some m /\ x.2 = Message.trafficClass m) /\
  forall c, extractTrafficClass (OutboxEvent.payload e) = Some c -> c = x.2.

(** How an event's row may come out of [publish]. *)
Definition settled_row (attempts : Z) (e e' : OutboxEvent.t) (handed : bool) : Prop :=
  OutboxEvent.processingLeaseUntil e' = None /\
  (OutboxEvent.publishedAt e' = OutboxEvent.publishedAt e \/ handed = true) /\
  (OutboxEvent.publishedAt e' = OutboxEvent.publishedAt e ->
   is_Some (OutboxEvent.publishedAt e) \/
   exists now, OutboxEvent.nextAttemptAt e' = now + retryDelayMs attempts).

Definition publish_post (id : string) (e : OutboxEvent.t) (attempts : Z) (s : outbox_world)
    (r : exec js_error unit) (s' : outbox_world) : Prop :=
  messages s'.1 = messages s.1 /\
  exists new, s'.2 = s.2 ++ new /\ (new = [] \/ exists x, new = [x] /\ entry s.1 e x) /\
  (forall k, k <> id -> rows (outboxEvents s'.1) !! k = rows (outboxEvents s.1) !! k) /\
  forall e0, rows (outboxEvents s.1) !! id = Some e0 -> exists e',
    rows (outboxEvents s'.1) !! id = Some e' /\
    (OutboxEvent.publishedAt e' = OutboxEvent.publishedAt e0 \/ new <> []) /\
    (r = Ok tt -> settled_row attempts e0 e' (negb (bool_decide (new = [])))).

(** A state on the way: what was handed over, and the row, untouched or already published. *)
Record midway (id : string) (e : OutboxEvent.t) (s s1 : outbox_world)
    (new : list (string * MessageTrafficClass.t)) : Prop := {
  mid_messages : messages s1.1 = messages s.1;
  mid_log : s1.2 = s.2 ++ new;
  mid_new : new = [] \/ exists x, new = [x] /\ entry s.1 e x;
  mid_others : forall k, k <> id -> rows (outboxEvents s1.1) !! k = rows (outboxEvents s.1) !! k;
  mid_row : forall e0, rows (outboxEvents s.1) !! id = Some e0 -> exists e1,
    rows (outboxEvents s1.1) !! id = Some e1 /\
    (e1 = e0 \/ new <> [] /\ exists t, e1 = published_data t e0);
  mid_gone : rows (outboxEvents s.1) !! id = None -> rows (outboxEvents s1.1) !! id = None
}.

Lemma midway_post id e attempts s s1 new r :
  midway id e s s1 new -> r <> Ok tt -> publish_post id e attempts s r s1.
Proof.
  intros [P1 P2 P3 P4 P5 _] Hr. split; [done|]. exists new. split; [done|]. split; [done|].
  split; [done|]. intros e0 He0. destruct (P5 e0 He0) as (e1 & Hk & He1). exists e1. split; [done|].
  split; [|done]. destruct He1 as [->|[Hn _]]; [by left|by right].
Qed.

Lemma midway_tick id e s w log new :
  midway id e s (w, log) new -> midway id e s (bump w, log) new.
Proof. by intros [P1 P2 P3 P4 P5 P6]. Qed.

Definition reschedule (id : string) (attempts : Z) (error : js_error) : io outbox_world unit :=
  let message := error_message string_of error in
  now ← on_world now;
  on_world (outbox_update id (rescheduled_data message now attempts)).

(** The [catch] of [publish] reschedules the event, unless the database fails again. *)
Lemma reschedule_spec id e attempts s s1 new error :
  midway id e s s1 new -> wp (reschedule id attempts error) (publish_post id e attempts s) s1.
Proof.
  intros Hm. destruct s1 as [w1 log1]. unfold reschedule. cbv zeta.
  apply wp_bind, wp_on_world, wp_now. intros t. apply midway_tick in Hm.
  apply wp_on_world, wp_outbox_update.
  { intros m. apply midway_post with (new := new); [by apply midway_tick|done]. }
  intros t2 e1 Hk Ht2. pose proof Hm as [P1 P2 P3 P4 P5 P6]. cbn [fst snd] in *.
  assert (Hpost : forall r, publish_post id e attempts s r (bump (bump w1) <| outboxEvents := t2 |>, log1)).
  { intros r. split; [done|]. exists new. split; [done|]. split; [done|]. split.
    - intros k Hne. cbn. rewrite Ht2, lookup_insert_ne by congruence. by apply P4.
    - intros e0 He0. destruct (P5 e0 He0) as (e1' & Hk' & He1).
      change (outboxEvents (bump w1)) with (outboxEvents w1) in Hk'.
      change (outboxEvents (bump w1)) with (outboxEvents w1) in Hk.
      rewrite Hk in Hk'. injection Hk' as <-.
      exists (rescheduled_data (error_message string_of error) t attempts e1).
      cbn. rewrite Ht2, lookup_insert_eq. split; [done|].
      destruct He1 as [->|[Hn [t3 ->]]]; [split; [by left|]|split; [by right|]]; intros _.
      + split; [done|]. split; [by left|]. intros _. right. by exists t.
      + split; [done|]. split; [right; by rewrite bool_decide_false|]. intros E. left. cbn in E. by rewrite <- E. }
  split; [intros m|]; apply Hpost.
Qed.

Lemma publish_spec id e attempts w log :
  wp (publish id (OutboxEvent.eventType e) (OutboxEvent.aggregateId e) (OutboxEvent.payload e) attempts)
    (publish_post id e attempts (w, log)) (w, log).
Proof.
  unfold publish. apply wp_try, wp_bind.
  assert (P0 : midway id e (w, log) (w, log) []).
  { split; try done; [by rewrite app_nil_r|by left|]. intros e0 He0. exists e0. auto. }
  assert (Hcatch : forall s1 new error, midway id e (w, log) s1 new ->
    wp (reschedule id attempts error) (publish_post id e attempts (w, log)) s1).
  { intros. by eapply reschedule_spec. }
  destruct (String.eqb_spec (OutboxEvent.eventType e) OUTBOUND_REQUESTED_EVENT) as [Ety|]; cbn [String.eqb];
    [apply wp_ret|by apply wp_throw, (Hcatch _ [])].
  cbv zeta. fold (target e). apply wp_bind, wp_on_world. unfold lookupTrafficClass.
  apply wp_bind, wp_message_find.
  { intros m. by apply (Hcatch _ []), midway_tick. }
  destruct (rows (messages w) !! target e) as [m|] eqn:Em;
    [apply wp_ret|apply wp_throw; by apply (Hcatch _ []), midway_tick].
  apply wp_bind. apply midway_tick in P0.
  assert (Hclass : forall Q, 
    (match extractTrafficClass (OutboxEvent.payload e) with Some c => c <> Message.trafficClass m | None => False end ->
       forall error, Q (Throws error) (bump w, log)) ->
    (match extractTrafficClass (OutboxEvent.payload e) with Some c => c = Message.trafficClass m | None => True end ->
       Q (Ok tt) (bump w, log)) ->
    wp (match extractTrafficClass (OutboxEvent.payload e) with
          | Some c => if bool_decide (c = Message.trafficClass m) then mret tt else
              throw (Error ("Outbox traffic class " +:+ name c +:+
                            " does not match persisted message class " +:+ name (Message.trafficClass m)))
          | None => mret tt
          end) Q (bump w, log)).
  { intros Q Hbad Hok. destruct (extractTrafficClass _) as [c|]; [|by apply wp_ret, Hok].
    case_bool_decide; [by apply wp_ret, Hok|by apply wp_throw, Hbad]. }
  apply Hclass; [intros _ error; by apply (Hcatch _ [])|]. intros Hc.
  apply wp_bind. unfold wp at 1, publishOutboundMessage. cbn [fst snd].
  set (x := (target e, Message.trafficClass m)).
  assert (Hx : entry (w, log).1 e x).
  { split; [done|]. split; [done|]. split; [by exists m|]. intros c Ec. cbn. by rewrite Ec in Hc. }
  assert (P1 : midway id e (w, log) (bump (bump w), log ++ [x]) [x]).
  { split; try done; [right; by exists x|]. intros e0 He0. exists e0. auto. }
  destruct (publish_outbound _ _ _ _) as [[]|error|].
  - apply wp_bind, wp_on_world, wp_now. intros t. apply midway_tick in P1.
    apply wp_on_world, wp_outbox_update.
    + intros m'. by apply (Hcatch _ [x]), midway_tick.
    + intros t2 e1 Hk Ht2. change (outboxEvents (bump (bump (bump w)))) with (outboxEvents w) in *.
      assert (P2 : midway id e (w, log)
        (bump (bump (bump (bump w))) <| outboxEvents := t2 |>, log ++ [x]) [x]).
      { split; cbn; try done; [right; by exists x| | |].
        - intros k Hne. by rewrite Ht2, lookup_insert_ne by congruence.
        - intros e0 He0. rewrite Ht2, lookup_insert_eq. eexists. split; [done|]. right. split; [done|].
          exists t. congruence.
        - intros E. congruence. }
      split; [intros m'; by apply (Hcatch _ [x])|].
      destruct P2 as [R1 R2 R3 R4 P5 _]. split; [done|]. exists [x]. split; [done|]. split; [done|].
      split; [done|]. intros e0 He0. destruct (P5 e0 He0) as (e' & Hk' & He'). exists e'. split; [done|].
      split; [by right|]. intros _. cbn in Hk'. rewrite Ht2, lookup_insert_eq in Hk'. injection Hk' as <-.
      split; [done|]. split; [right; by rewrite bool_decide_false|]. cbn. intros E.
      left. cbn in He0. assert (e0 = e1) as -> by congruence. by rewrite <- E.
  - by apply (Hcatch _ []), midway_tick.
  - eapply midway_post with (new := []); [by apply midway_tick|done].
Qed.

Lemma entry_messages w w' e x : messages w' = messages w -> entry w' e x -> entry w e x.
Proof. unfold entry. by intros ->. Qed.

(** What publishing the events of a list may do. *)
Definition batch_post (l : list (string * OutboxEvent.t)) (s s' : outbox_world) : Prop :=
  messages s'.1 = messages s.1 /\
  exists new, s'.2 = s.2 ++ new /\ (length new <= length l)%nat /\
    (forall x, x ∈ new -> exists kr, kr ∈ l /\ entry s.1 kr.2 x) /\
    (forall k, k ∉ l.*1 -> rows (outboxEvents s'.1) !! k = rows (outboxEvents s.1) !! k) /\
    forall k e0, rows (outboxEvents s.1) !! k = Some e0 -> exists e',
      rows (outboxEvents s'.1) !! k = Some e' /\
      (OutboxEvent.publishedAt e' = OutboxEvent.publishedAt e0 \/
       exists kr x, kr ∈ l /\ kr.1 = k /\ x ∈ new /\ entry s.1 kr.2 x).

Lemma batch_post_refl l s : batch_post l s s.
Proof.
  split; [done|]. exists []. rewrite app_nil_r. split; [done|]. split; [cbn; lia|].
  split; [by intros x ?%elem_of_nil|]. split; [done|]. intros k e0 He0. exists e0. auto.
Qed.

Lemma batch_post_cons kr l s s1 s' r :
  publish_post kr.1 kr.2 (OutboxEvent.attempts kr.2) s r s1 -> batch_post l s1 s' ->
  batch_post (kr :: l) s s'.
Proof.
  intros (Pm & new1 & Pl & Pn & Po & Pr) (Qm & new2 & Ql & Qlen & Qn & Qo & Qr).
  split; [congruence|]. exists (new1 ++ new2).
  split; [by rewrite Ql, Pl, app_assoc|]. split; [|split; [|split]].
  - rewrite length_app. cbn. destruct Pn as [->|(x & -> & _)]; cbn; lia.
  - intros x [Hx|Hx]%elem_of_app.
    + destruct Pn as [->|(y & -> & Hy)]; [by apply elem_of_nil in Hx|].
      apply list_elem_of_singleton in Hx as ->. exists kr. split; [left|done].
    + destruct (Qn x Hx) as (kr' & Hin & He). exists kr'. split; [by right|].
      by eapply entry_messages.
  - intros k Hk. cbn in Hk. apply not_elem_of_cons in Hk as [Hne Hk].
    rewrite Qo by done. by apply Po.
  - intros k e0 He0.
    assert (exists e1, rows (outboxEvents s1.1) !! k = Some e1 /\
      (OutboxEvent.publishedAt e1 = OutboxEvent.publishedAt e0 \/ k = kr.1 /\ new1 <> [])) as (e1 & He1 & Hp1).
    { destruct (decide (k = kr.1)) as [->|Hne].
      - destruct (Pr e0 He0) as (e1 & He1 & Hp & _). exists e1. split; [done|]. destruct Hp; auto.
      - exists e0. rewrite Po by done. auto. }
    destruct (Qr k e1 He1) as (e' & He' & Hp'). exists e'. split; [done|].
    destruct Hp' as [Ep|(kr' & x & Hin & Hk' & Hx & He)].
    + rewrite Ep. destruct Hp1 as [?|[-> Hn]]; [by left|right].
      destruct Pn as [?|(x & -> & Hx)]; [done|]. exists kr, x.
      split; [left|]. split; [done|]. split; [by left|done].
    + right. exists kr', x. split; [by right|]. split; [done|].
      split; [apply elem_of_app; by right|]. by eapply entry_messages.
Qed.

Lemma publish_batch_spec l s :
  wp (for_each l publish_event) (fun _ s' => batch_post l s s') s.
Proof.
  revert s. induction l as [|kr l IH]; intros [w log]; cbn [for_each].
  { apply wp_ret, batch_post_refl. }
  apply wp_bind. eapply wp_mono; [apply publish_spec|].
  intros [[]|error|] s1 Hp; cbn beta iota.
  - eapply wp_mono; [apply IH|]. intros r' s' Hb. by eapply batch_post_cons.
  - by eapply batch_post_cons, batch_post_refl.
  - by eapply batch_post_cons, batch_post_refl.
Qed.

(** Publishing an event hands its message to the queue at most once, and only an event of the
    known type whose message exists, with the message's persisted class, with which the class
    in the payload agrees.  The row is marked published only then.  When [publish] returns the
    lease is released, and a row that is not published has its next attempt set by the
    backoff. *)
Theorem publish_correct id e w log :
  let '(r, s') := publish_event (id, e) (w, log) in
  publish_post id e (OutboxEvent.attempts e) (w, log) r s'.
Proof.
  pose proof (publish_spec id e (OutboxEvent.attempts e) w log) as Hp. unfold wp in Hp.
  unfold publish_event. cbn [fst snd]. by destruct (publish _ _ _ _ _ _) as [r s'].
Qed.

Lemma wp_outbox_update_reliable id f (Q : exec js_error unit -> World -> Prop) w e :
  no_faults -> rows (outboxEvents w) !! id = Some e ->
  (forall t, rows t = <[id := f e]> (rows (outboxEvents w)) -> Q (Ok tt) (bump w <| outboxEvents := t |>)) ->
  wp (outbox_update id f) Q w.
Proof.
  intros Hr He HQ.
  pose proof (update_unconstrained id f (outboxEvents w)) as Hu.
  destruct (update unconstrained id f (outboxEvents w)) as [t|] eqn:Ht; [|congruence].
  destruct Hu as (e' & He' & Hu). eapply wp_db_reliable; [done| |apply (HQ t); congruence].
  change (outboxEvents (bump w)) with (outboxEvents w). by rewrite Ht.
Qed.

(** When nothing fails, an event of the known type whose message exists is handed to the queue
    with the message's class and marked published. *)
Theorem publish_delivers id e e0 m w log
    (Hdb : no_faults) (Hq : forall n i c t, publish_outbound n i c t = Ok tt)
    (Hrow : rows (outboxEvents w) !! id = Some e0)
    (Htype : OutboxEvent.eventType e = OUTBOUND_REQUESTED_EVENT)
    (Hm : rows (messages w) !! target e = Some m)
    (Hc : from_option (eq (Message.trafficClass m)) True (extractTrafficClass (OutboxEvent.payload e))) :
  let '(r, s') := publish_event (id, e) (w, log) in
  r = Ok tt /\ s'.2 = log ++ [(target e, Message.trafficClass m)] /\
  exists t, rows (outboxEvents s'.1) !! id = Some (published_data t e0).
Proof.
  assert (Hw : wp (publish_event (id, e)) (fun r s' =>
    r = Ok tt /\ s'.2 = log ++ [(target e, Message.trafficClass m)] /\
    exists t, rows (outboxEvents s'.1) !! id = Some (published_data t e0)) (w, log)).
  { unfold publish_event, publish. cbn [fst snd]. rewrite Htype. cbn [String.eqb].
    apply wp_try, wp_bind, wp_ret. cbv zeta. fold (target e).
    apply wp_bind, wp_on_world, wp_bind. eapply wp_db_reliable; [done|done|].
    change (messages (bump w)) with (messages w). rewrite Hm. apply wp_ret, wp_bind.
    assert (Hok : forall Q s, Q (Ok tt) s -> wp (match extractTrafficClass (OutboxEvent.payload e) with
          | Some c => if bool_decide (c = Message.trafficClass m) then mret tt else
              throw (Error ("Outbox traffic class " +:+ name c +:+
                            " does not match persisted message class " +:+ name (Message.trafficClass m)))
          | None => mret tt
          end : io outbox_world unit) Q s).
    { intros Q s HQ. destruct (extractTrafficClass _) as [c|]; cbn in Hc; [|by apply wp_ret].
      rewrite bool_decide_true by done. by apply wp_ret. }
    apply Hok, wp_bind. unfold wp at 1, publishOutboundMessage. rewrite Hq. cbn [fst snd].
    apply wp_bind, wp_on_world, wp_now. intros t.
    eapply wp_on_world, wp_outbox_update_reliable; [done|done|]. intros t2 Ht2. cbn [fst snd].
    split; [done|]. split; [done|]. exists t. cbn. by rewrite Ht2, lookup_insert_eq. }
  unfold wp in Hw. by destruct (publish_event _ _) as [r s'].
Qed.

Context (OUTBOX_LEASE_MS : Z).

(** What a flush does: it hands over messages of events that were due, each with its persisted
    class; an event comes out published only if its message was handed over; the others and the
    events that were not due stay as they are. *)
Definition flush_post (db_now : Z) (locked : string -> bool) (n : nat) (s s' : outbox_world) : Prop :=
  messages s'.1 = messages s.1 /\
  exists new, s'.2 = s.2 ++ new /\ (length new <= n)%nat /\
    (forall x, x ∈ new -> exists k e, rows (outboxEvents s.1) !! k = Some e /\
       eligible db_now e = true /\ locked k = false /\ entry s.1 e x) /\
    forall k e, rows (outboxEvents s.1) !! k = Some e -> exists e',
      rows (outboxEvents s'.1) !! k = Some e' /\
      (OutboxEvent.publishedAt e' = OutboxEvent.publishedAt e \/ exists x, x ∈ new /\ entry s.1 e x) /\
      (eligible db_now e && negb (locked k) = false -> e' = e).

Lemma flush_post_same db_now locked n w w' log :
  messages w' = messages w -> outboxEvents w' = outboxEvents w ->
  flush_post db_now locked n (w, log) (w', log).
Proof.
  intros Hm He. split; [done|]. cbn [fst snd]. rewrite He. exists []. rewrite app_nil_r. split; [done|]. split; [cbn; lia|].
  split; [by intros x ?%elem_of_nil|]. intros k e Hk. exists e. auto.
Qed.

Lemma claimed_batch db_now locked n l w1 (t : table OutboxEvent.t) evs s s' :
  claim_batch db_now l locked n (outboxEvents s.1) = (evs, t) -> messages w1 = messages s.1 ->
  outboxEvents w1 = t -> batch_post evs (w1, s.2) s' -> flush_post db_now locked n s s'.
Proof.
  intros E Hm <- (Pm & new & Pl & Plen & Pn & Po & Pr). cbn [fst snd] in *.
  pose proof (claim_batch_correct db_now l locked n (outboxEvents s.1)) as Hc.
  rewrite E in Hc. destruct Hc as (Hlen & Hin & Hout & _ & _).
  split; [congruence|]. exists new. split; [done|]. split; [lia|]. split.
  - intros x Hx. destruct (Pn x Hx) as ([k e] & Hk & He).
    destruct (Hin k e Hk) as (e0 & H0k & He0 & Hl & -> & _). exists k, e0.
    split; [done|]. split; [done|]. split; [done|]. by apply (entry_messages s.1 w1).
  - intros k e Hk. destruct (decide (k ∈ evs.*1)) as [Hd|Hd].
    + pose proof Hd as Hd'. apply list_elem_of_fmap in Hd' as ([k1 e1] & -> & Hd'). cbn [fst] in *.
      destruct (Hin k1 e1 Hd') as (e0 & H0k & He0 & Hl & -> & Ht).
      assert (e0 = e) as -> by congruence.
      destruct (Pr _ _ Ht) as (e' & He' & Hp). exists e'. split; [done|]. split.
      * destruct Hp as [Hp|([k2 e2] & x & H2 & H2k & Hx & Hentry)]; [by left|right].
        cbn in H2k. subst k2. destruct (Hin k1 e2 H2) as (e3 & H3 & _ & _ & -> & _).
        assert (e3 = e) as -> by congruence. exists x. split; [done|].
        by apply (entry_messages s.1 w1).
      * intros Hbad. by rewrite He0, Hl in Hbad.
    + exists e. rewrite Po, Hout by done. auto.
Qed.

(** C19: Whatever the database and the broker do, a flush hands over at most a batch of messages,
    each of an event that was due, and no event comes out published without its message
    having been handed over; events that were not due, the published ones among them, are left alone.
    A failure never escapes. *)
Theorem flush_correct db_now locked n w log :
  let '(r, s') := flush OUTBOX_LEASE_MS db_now locked n (w, log) in
  flush_post db_now locked n (w, log) s' /\ forall e, r <> Throws e.
Proof.
  assert (Hw : wp (flush OUTBOX_LEASE_MS db_now locked n)
    (fun r s' => flush_post db_now locked n (w, log) s' /\ forall e, r <> Throws e) (w, log)).
  { apply wp_try, wp_bind, wp_on_world, wp_bind, wp_now. intros t. apply wp_db.
    { intros m. apply wp_ret. split; [by apply flush_post_same|done]. }
    intros evs w1 E. change (outboxEvents (bump (bump w))) with (outboxEvents w) in E.
    destruct (claim_batch _ _ _ _ _) as [evs' t1] eqn:Ec. injection E as -> <-.
    split.
    - intros m. apply wp_ret. split; [|done].
      eapply claimed_batch; [exact Ec| | |apply batch_post_refl]; done.
    - eapply wp_mono; [apply publish_batch_spec|]. intros [[]|e|] s' Hb; cbn beta iota.
      + split; [|done]. eapply claimed_batch; [exact Ec| | |exact Hb]; done.
      + apply wp_ret. split; [|done]. eapply claimed_batch; [exact Ec| | |exact Hb]; done.
      + split; [|done]. eapply claimed_batch; [exact Ec| | |exact Hb]; done. }
  unfold wp in Hw. by destruct (flush _ _ _ _ _) as [r s'].
Qed.
End publish_proofs.

(** ** An event that is delivered *)
Section example.
Definition example_event : OutboxEvent.t :=
  {| OutboxEvent.eventType := OUTBOUND_REQUESTED_EVENT; OutboxEvent.aggregateType := "Message";
     OutboxEvent.aggregateId := "m";
     OutboxEvent.payload := JObj [("trafficClass", JStr "OTP")]; OutboxEvent.publishedAt := None;
     OutboxEvent.processingLeaseUntil := None; OutboxEvent.attempts := 1;
     OutboxEvent.nextAttemptAt := 0; OutboxEvent.lastError := None; OutboxEvent.createdAt := 0 |}.
Definition accepting_queue : Publisher :=
  {| publish_outbound := fun _ _ _ _ => Ok tt; parse_carrier := fun _ => None |}.
Definition outbox_example : World (H := gmap_prisma) :=
  world_with {[ "m"%string := queued_message ]}
    <| outboxEvents := ({[ "e"%string := example_event ]} : gmap string OutboxEvent.t) |>.
End example.

Lemma publish_delivers_witness :
  let '(r, s') := @publish_event gmap_prisma (calm 7) accepting_queue ("e"%string, example_event)
                    (outbox_example, []) in
  r = Ok tt /\ s'.2 = [("m"%string, OTP)] /\
  exists t, rows (outboxEvents s'.1) !! "e"%string = Some (published_data t example_event).
Proof.
  apply (@publish_delivers gmap_prisma (calm 7) accepting_queue "e" example_event example_event
           queued_message outbox_example []); done.
Defined.
