(* ===== verification/WebhookStatus.v ===== *)
(** Delivery statuses reported by Meta ([webhooks/webhook-status.service.ts]): reading them out of
    a webhook's payload and applying each to its message. *)
From stdpp Require Import prelude gmap strings.
From Stdlib Require Import ZArith Lia SpecFloat.
From S2P Require Import Prelude Float64 Json Numbers Io Prisma Domain Dispatcher.
#[local] Open Scope Z_scope.
Import MessageStatus.

Record MetaMessageStatus := {
  id : string;
  status : string;
  timestamp : option string;
  errors : option (list json)
}.

(** ** Reading the payload *)
(** The elements a [for] loop over [list] works on; anything but an array has none. *)
Definition items (v : option json) : list json := default [] (as_array v).

(** One element of [statuses]. *)
Definition read_status (candidate : json) : option MetaMessageStatus :=
  if negb (is_object candidate) then None else
  match prop "id" candidate, prop "status" candidate with
  | Some (JStr i), Some (JStr s) =>
      Some {| id := i; status := s; timestamp := as_string (prop "timestamp" candidate);
              errors := as_array (prop "errors" candidate) |}
  | _, _ => None
  end.

Definition change_statuses (change : json) : list MetaMessageStatus :=
  if negb (is_object change) then [] else
  match prop "value" change with
  | Some value => if is_record value then omap read_status (items (prop "statuses" value)) else []
  | None => []
  end.

Definition entry_statuses (entry : json) : list MetaMessageStatus :=
  if negb (is_object entry) then [] else items (prop "changes" entry) ≫= change_statuses.

Definition extractStatuses (payload : json) : list MetaMessageStatus :=
  if negb (is_record payload) then [] else items (prop "entry" payload) ≫= entry_statuses.

Definition mapStatus (status : string) : option MessageStatus.t :=
  let s := JsString.toLowerCase status in
  if String.eqb s "sent" then Some SENT
  else if String.eqb s "delivered" then Some DELIVERED
  else if String.eqb s "read" then Some READ
  else if String.eqb s "failed" then Some FAILED
  else None.

Definition STATUS_RANK (s : MessageStatus.t) : option Z :=
  match s with
  | CREATED => Some 0 | QUEUED => Some 1 | PROCESSING => Some 2 | SUBMITTED => Some 3
  | SENT => Some 4 | DELIVERED => Some 5 | READ => Some 6
  | _ => None
  end.

Definition shouldApplyStatus (current target : MessageStatus.t) : bool :=
  if bool_decide (target = FAILED) then negb (bool_decide (current = READ)) && negb (bool_decide (current = DELIVERED))
  else if bool_decide (current = FAILED) || bool_decide (current = CANCELLED) || bool_decide (current = EXPIRED) then false
  else default (-1) (STATUS_RANK current) <=? default (-1) (STATUS_RANK target).

(** A [Date]: its time value, [None] for an invalid one. *)
Abbreviation date := (option Z).

Definition parseTimestamp (timestamp : option string) : option date :=
  match timestamp with
  | None => None
  | Some t =>
      if String.eqb t "" then None else
      let seconds := JsNumber.of_string t in
      if negb (JsNumber.is_finite seconds) || SFleb seconds (f64_of_Z 0) then None
      else Some (JsNumber.time_value (f64_mul seconds (f64_of_Z 1000)))
  end.

(** The first of the candidates that is a non-empty string. *)
Fixpoint find_text (candidates : list (option json)) : option string :=
  match candidates with
  | [] => None
  | Some (JStr s) :: rest => if String.eqb s "" then find_text rest else Some s
  | _ :: rest => find_text rest
  end.

(** [{ code, message }] *)
Definition extractError (errors : option (list json)) : option string * option string :=
  match errors ≫= head with
  | Some first =>
      if negb (is_object first) then (None, None) else
      let details := match prop "error_data" first with
                     | Some d => if is_object d then prop "details" d else None
                     | None => None
                     end in
      let message := find_text [prop "title" first; prop "message" first; details] in
      (match prop "code" first with
       | Some (JNum n) => Some (JsNumber.to_string n)
       | Some (JStr s) => Some s
       | _ => None
       end, JsString.slice0 2000 <$> message)
  | None => (None, None)
  end.

(** [JSON.stringify] leaves out the keys that are [undefined]. *)
Definition toJson (s : MetaMessageStatus) : json :=
  JObj (("id", JStr (id s)) :: ("status", JStr (status s)) ::
        from_option (fun t => [("timestamp", JStr t)]) [] (timestamp s) ++
        from_option (fun l => [("errors", JArr l)]) [] (errors s))%string.

(** ** Applying a status *)
Section status.
Context `{Prisma} `{Environment}.

(** [SELECT ... WHERE "providerMessageId" = ... FOR UPDATE], the first row. *)
Definition by_provider_id (pid : string) (w : World) : option (string * Message.t) :=
  findFirst (fun _ m => bool_decide (Message.providerMessageId m = Some pid)) (messages w).

(** Prisma refuses an invalid date. *)
Definition checked_date (d : date) : io World Z :=
  match d with Some t => mret t | None => throw (Error "Invalid value for argument: provided Date object is invalid") end.

Definition status_data (target : MessageStatus.t) (at_time : Z) (error : option string * option string)
    (m : Message.t) : Message.t :=
  let m := m <| Message.status := target |> in
  let m := if bool_decide (target = SENT) then m <| Message.sentAt := Some at_time |> else m in
  let m := if bool_decide (target = DELIVERED) then m <| Message.deliveredAt := Some at_time |> else m in
  let m := if bool_decide (target = READ) then m <| Message.readAt := Some at_time |> else m in
  if bool_decide (target = FAILED) then
    m <| Message.failedAt := Some at_time |> <| Message.errorCode := error.1 |>
      <| Message.errorMessage := error.2 |>
  else m.

Definition message_set (mid : string) (f : Message.t -> Message.t) : io World unit :=
  db (fun w => t ← update message_unique mid f (messages w); Some (tt, w <| messages := t |>)).

(** The transaction of [applyStatus]. *)
Definition applyStatus_at (providerStatus : MetaMessageStatus) (targetStatus : MessageStatus.t)
    (eventTimestamp : date) : io World unit :=
  let error := extractError (errors providerStatus) in
  transaction
    (row ← db (fun w => Some (by_provider_id (id providerStatus) w, w));
     match row with
     | None => mret tt
     | Some (mid, message) =>
         at_time ← checked_date eventTimestamp;
         _ ← status_event_create {| MessageStatusEvent.messageId := mid;
               MessageStatusEvent.status := targetStatus;
               MessageStatusEvent.payload := Some (toJson providerStatus);
               MessageStatusEvent.createdAt := Some at_time |};
         if negb (shouldApplyStatus (Message.status message) targetStatus) then mret tt
         else message_set mid (status_data targetStatus at_time error)
     end).
Definition applyStatus (providerStatus : MetaMessageStatus) : io World unit :=
  match mapStatus (status providerStatus) with
  | None => mret tt
  | Some targetStatus =>
      eventTimestamp ← (match parseTimestamp (timestamp providerStatus) with
                        | Some d => mret d
                        | None => t ← now; mret (Some t)
                        end);
      applyStatus_at providerStatus targetStatus eventTimestamp
  end.

Definition processed_data (now : Z) (e : WebhookEvent.t) : WebhookEvent.t :=
  e <| WebhookEvent.processed := true |> <| WebhookEvent.processedAt := Some now |>
    <| WebhookEvent.processingLeaseUntil := None |> <| WebhookEvent.lastError := None |>.

Definition webhook_update (eventId : string) (f : WebhookEvent.t -> WebhookEvent.t) : io World unit :=
  db (fun w => t ← update unconstrained eventId f (webhookEvents w); Some (tt, w <| webhookEvents := t |>)).

Definition processWebhookEvent (eventId : string) (payload : json) : io World unit :=
  _ ← for_each (extractStatuses payload) applyStatus;
  now ← now;
  webhook_update eventId (processed_data now).
End status.

(** ** The status machine *)
(** What one reported status does to the status of its message, and a list of them. *)
Definition next (s t : MessageStatus.t) : MessageStatus.t := if shouldApplyStatus s t then t else s.
Definition run (s : MessageStatus.t) (reports : list string) : MessageStatus.t :=
  foldl next s (omap mapStatus reports).

(** The statuses Meta reports. *)
Definition reported (t : MessageStatus.t) : bool :=
  match t with SENT | DELIVERED | READ | FAILED => true | _ => false end.

Lemma mapStatus_reported r t : mapStatus r = Some t -> reported t = true.
Proof. unfold mapStatus. repeat case_match; naive_solver. Qed.

Lemma next_again s t : next (next s t) t = next s t.
Proof. destruct s, t; reflexivity. Qed.
(** A status a message is past stays behind it. *)
Lemma next_keeps s t u : reported t = true -> reported u = true -> next s t = s -> next (next s u) t = next s u.
Proof. destruct t; try done; destruct u; try done; by destruct s. Qed.
Lemma next_comm s t u :
  reported t = true -> reported u = true -> t <> FAILED -> u <> FAILED -> next (next s t) u = next (next s u) t.
Proof. destruct t; try done; destruct u; try done; by destruct s. Qed.

Lemma run_app s l1 l2 : run s (l1 ++ l2) = run (run s l1) l2.
Proof. unfold run. by rewrite omap_app, foldl_app. Qed.
Lemma run_cons s r l : run s (r :: l) = run (from_option (next s) s (mapStatus r)) l.
Proof. unfold run. cbn. by destruct (mapStatus r). Qed.

(** [r] changes nothing any more. *)
Definition past (s : MessageStatus.t) (r : string) : Prop := from_option (next s) s (mapStatus r) = s.

Lemma past_run s r l : past s r -> past (run s l) r.
Proof.
  revert s. induction l as [|r' l IH]; intros s Hp; [done|]. rewrite run_cons. apply IH.
  unfold past in *. destruct (mapStatus r) as [t|] eqn:Et; [|done]. cbn in *.
  destruct (mapStatus r') as [u|] eqn:Eu; [|done]. cbn.
  apply next_keeps; [by eapply mapStatus_reported..|done].
Qed.
Lemma past_of_run s r l : r ∈ l -> past (run s l) r.
Proof.
  intros (l1 & l2 & ->)%list_elem_of_split. rewrite run_app, run_cons. apply past_run. unfold past.
  destruct (mapStatus r); [|done]. apply next_again.
Qed.
Lemma run_past s l : Forall (past s) l -> run s l = s.
Proof. induction 1 as [|r l Hr _ IH]; [done|]. rewrite run_cons. unfold past in Hr. by rewrite Hr. Qed.

(** Reports may be delivered again: going through the first of them, and then through all of
    them from the start, as after a failure half-way or a second webhook with the same
    content, ends as going through them once. *)
Theorem redelivery_idempotent s l1 l2 : run (run s l1) (l1 ++ l2) = run s (l1 ++ l2).
Proof.
  rewrite !run_app. f_equal. apply run_past, Forall_forall. intros r Hr. by apply past_of_run.
Qed.

(** How far a message has come; the end states take no further progress. *)
Definition progress (s : MessageStatus.t) : Z :=
  match s with FAILED | CANCELLED | EXPIRED => 7 | _ => default (-1) (STATUS_RANK s) end.

(** Without a failure among them the order in which reports arrive does not matter, and no
    report takes a message back: the result is the furthest of the statuses. *)
Theorem reports_commute s l l' (Hp : l ≡ₚ l') (Hf : Forall (fun r => mapStatus r <> Some FAILED) l) :
  run s l = run s l' /\ progress s <= progress (run s l) /\
  Forall (fun r => from_option (fun t => progress t <= progress (run s l)) True (mapStatus r)) l.
Proof.
  split; [|split].
  - revert s Hf. induction Hp as [|r l l' _ IH|r r' l|l l1 l2 Hp1 IH1 Hp2 IH2]; intros s Hf; [done|..].
    + rewrite !run_cons. apply IH. by inversion Hf.
    + rewrite !run_cons. f_equal. apply Forall_cons in Hf as [H1 [H2 _]%Forall_cons].
      destruct (mapStatus r) as [t|] eqn:Et, (mapStatus r') as [u|] eqn:Eu; cbn; try done.
      apply next_comm; [by eapply mapStatus_reported..|congruence|congruence].
    + rewrite IH1 by done. apply IH2. by rewrite <- Hp1.
  - clear Hp. revert s. induction Hf as [|r l Hr _ IH]; intros s; [done|]. rewrite run_cons.
    etrans; [|apply IH]. destruct (mapStatus r) as [t|] eqn:Et; [|done]. cbn.
    apply mapStatus_reported in Et. destruct t; try done; by destruct s.
  - apply Forall_forall. intros r Hr. pose proof (past_of_run s r l Hr) as Hpast.
    rewrite Forall_forall in Hf. specialize (Hf r Hr). unfold past in Hpast.
    destruct (mapStatus r) as [t|] eqn:Et; [|done]. cbn in *. apply mapStatus_reported in Et.
    destruct t; try done; by destruct (run s l).
Qed.

Lemma reports_commute_witness :
  run SUBMITTED ["read"; "sent"; "delivered"]%string = READ /\
  run SUBMITTED ["read"; "sent"; "delivered"]%string = run SUBMITTED ["sent"; "delivered"; "read"]%string.
Proof.
  split; [reflexivity|]. apply (reports_commute SUBMITTED _ _).
  - etrans; [apply Permutation_swap|]. apply Permutation_skip, Permutation_swap.
  - repeat constructor; done.
Defined.

(** With a failure the order matters: a failure after a delivery is ignored, a delivery after a
    failure is ignored too. *)
Lemma failed_then_delivered :
  run SENT ["failed"; "delivered"]%string = FAILED /\ run SENT ["delivered"; "failed"]%string = DELIVERED.
Proof. split; reflexivity. Qed.

(** ** Applying a status *)
Section apply_proofs.
Context `{Prisma} `{Environment}.

(** What applying a report leaves behind, when it is not undone: the report in the history and
    the message one step further. *)
Definition recorded (ps : MetaMessageStatus) (w w' : World) : Prop :=
  match mapStatus (status ps), by_provider_id (id ps) w with
  | Some target, Some (mid, m) => exists at_time k,
      rows (messages w) !! mid = Some m /\
      match parseTimestamp (timestamp ps) with Some d => d = Some at_time | None => True end /\
      rows (statusEvents w) !! k = None /\
      rows (statusEvents w') = <[k := {| MessageStatusEvent.messageId := mid; MessageStatusEvent.status := target;
           MessageStatusEvent.payload := Some (toJson ps); MessageStatusEvent.createdAt := Some at_time |}]>
         (rows (statusEvents w)) /\
      rows (messages w') = (if shouldApplyStatus (Message.status m) target
                            then <[mid := status_data target at_time (extractError (errors ps)) m]> (rows (messages w))
                            else rows (messages w))
  | _, _ => rows (messages w') = rows (messages w) /\ rows (statusEvents w') = rows (statusEvents w)
  end.
Definition untouched (w w' : World) : Prop :=
  rows (messages w') = rows (messages w) /\ rows (statusEvents w') = rows (statusEvents w).
Definition apply_post (ps : MetaMessageStatus) (w : World) (r : exec js_error unit) (w' : World) : Prop :=
  rows (webhookEvents w') = rows (webhookEvents w) /\
  (recorded ps w w' \/ untouched w w' /\ r <> Ok tt) /\ r <> OutOfFuel.

Lemma by_provider_id_row p w mid m :
  by_provider_id p w = Some (mid, m) ->
  rows (messages w) !! mid = Some m /\ Message.providerMessageId m = Some p.
Proof.
  intros [Hk Hp]%findFirst_some. by rewrite bool_decide_eq_true in Hp.
Qed.

(** Ends an aborted transaction. *)
Lemma aborted ps w n e : apply_post ps w (Throws e) (w <| tick := n |>).
Proof. split; [done|]. split; [|done]. by right. Qed.

Lemma recorded_post ps w w1 : rows (webhookEvents w1) = rows (webhookEvents w) -> recorded ps w w1 ->
  (forall e n, apply_post ps w (Throws (Error e)) (w <| tick := n |>)) /\
  (forall e, apply_post ps w (Throws (Error e)) (bump w1)) /\ apply_post ps w (Ok tt) (bump w1).
Proof.
  intros Hw Hr. assert (Hb : recorded ps w (bump w1)) by exact Hr.
  split; [intros; apply aborted|]. split; [intros e|]; (split; [done|]; split; [by left|done]).
Qed.

Lemma apply_body_spec ps target d w :
  mapStatus (status ps) = Some target -> 
  match parseTimestamp (timestamp ps) with Some d' => d = d' | None => is_Some d end ->
  wp (applyStatus_at ps target d) (apply_post ps w) w.
Proof.
  intros Et Hd. unfold applyStatus_at. cbv zeta. apply wp_transaction, wp_bind, wp_db; [intros e n; apply aborted|].
  intros row w1 [= <- <-]. split; [intros e n; apply aborted|].
  change (by_provider_id (id ps) (bump w)) with (by_provider_id (id ps) w).
  destruct (by_provider_id (id ps) w) as [[mid m]|] eqn:Eb.
  2:{ apply wp_ret, recorded_post; [done|]. unfold recorded. by rewrite Et, Eb. }
  pose proof (by_provider_id_row _ _ _ _ Eb) as [Hm _].
  apply wp_bind. destruct d as [at_time|]; cbn [checked_date]; [apply wp_ret|apply wp_throw; intros n; apply aborted].
  assert (Hd' : match parseTimestamp (timestamp ps) with Some d => d = Some at_time | None => True end)
    by by destruct (parseTimestamp _).
  apply wp_bind, wp_status_event_create; [intros e n; apply aborted|].
  intros evs k Hk Hevs. split; [intros e n; apply aborted|].
  destruct (shouldApplyStatus _ _) eqn:Es; cbn [negb].
  - apply wp_db; [intros e n; apply aborted|]. intros [] w2 Hf.
    apply bind_Some in Hf as (t & Ht & [= <-]). apply update_some in Ht as (m' & Hm' & Ht & _).
    split; [intros e n; apply aborted|]. apply recorded_post; [done|].
    unfold recorded. rewrite Et, Eb, Es. exists at_time, k. split; [done|]. split; [done|].
    split; [done|]. split; [done|]. 
    pose proof (eq_trans (eq_sym Hm) Hm') as [= <-]. exact Ht.
  - apply wp_ret, recorded_post; [done|]. unfold recorded. rewrite Et, Eb, Es. by exists at_time, k.
Qed.

Lemma apply_post_bump ps w r w' : apply_post ps (bump w) r w' -> apply_post ps w r w'.
Proof.
  intros (Hw & Hr & Hn). split; [done|]. split; [|done]. destruct Hr as [Hr|Hr]; [by left|by right].
Qed.

Lemma applyStatus_spec ps w : wp (applyStatus ps) (apply_post ps w) w.
Proof.
  unfold applyStatus. destruct (mapStatus (status ps)) as [target|] eqn:Et.
  - apply wp_bind. destruct (parseTimestamp (timestamp ps)) as [d|] eqn:Ep.
    + apply wp_ret, apply_body_spec; [done|]. by rewrite Ep.
    + apply wp_bind, wp_now. intros t. apply wp_ret.
      eapply wp_mono; [apply apply_body_spec; [done|by rewrite Ep]|]. intros r w'. apply apply_post_bump.
  - apply wp_ret. split; [done|]. split; [|done]. left. unfold recorded. by rewrite Et.
Qed.

(** A reported status is recorded all or nothing, whatever fails: either the history gains the
    report and the message takes the step the status machine allows, or nothing changes and
    the failure is reported.  Reports of unknown messages or of unknown kinds change
    nothing. *)
Theorem applyStatus_correct ps w :
  let '(r, w') := applyStatus ps w in apply_post ps w r w'.
Proof.
  pose proof (applyStatus_spec ps w) as Hs. unfold wp in Hs. by destruct (applyStatus ps w).
Qed.

(** ** A whole webhook event *)
Definition unique_provider_ids (w : World) : Prop := forall k1 k2 m1 m2 p,
  rows (messages w) !! k1 = Some m1 -> rows (messages w) !! k2 = Some m2 ->
  Message.providerMessageId m1 = Some p -> Message.providerMessageId m2 = Some p -> k1 = k2.

Lemma by_provider_id_unique p w mid m :
  unique_provider_ids w -> rows (messages w) !! mid = Some m -> Message.providerMessageId m = Some p ->
  by_provider_id p w = Some (mid, m).
Proof.
  intros Hu Hm Hp. apply findFirst_unique; [done|by apply bool_decide_true|].
  intros k' m' Hk' Hp'%bool_decide_eq_true. by eapply Hu.
Qed.

(** The reports about one message, in order. *)
Definition reports_of (p : string) (l : list MetaMessageStatus) : list string :=
  status <$> filter (fun ps => id ps = p) l.

(** Where the row of message [mid] stands: as [m], but for the status and its dates. *)
Definition stands_at (mid p : string) (s : MessageStatus.t) (w : World) : Prop :=
  exists m, rows (messages w) !! mid = Some m /\ Message.providerMessageId m = Some p /\ Message.status m = s.

Lemma status_data_frame target t e m :
  Message.providerMessageId (status_data target t e m) = Message.providerMessageId m /\
  Message.status (status_data target t e m) = target.
Proof. unfold status_data. by destruct target. Qed.

Lemma recorded_step ps w w' mid p s :
  recorded ps w w' -> unique_provider_ids w -> stands_at mid p s w ->
  unique_provider_ids w' /\ stands_at mid p (run s (reports_of p [ps])) w'.
Proof.
  intros Hr Hu (m & Hm & Hp & Hs). unfold recorded in Hr.
  assert (Hrun : run s (reports_of p [ps]) =
    (if decide (id ps = p) then from_option (next s) s (mapStatus (status ps)) else s)).
  { unfold reports_of. rewrite filter_cons, filter_nil. destruct (decide (id ps = p)); [|done].
    unfold run. cbn. by destruct (mapStatus (status ps)). }
  assert (Hsame : rows (messages w') = rows (messages w) -> 
    unique_provider_ids w' /\ stands_at mid p s w').
  { intros E. unfold unique_provider_ids, stands_at. rewrite E. split; [exact Hu|]. by exists m. }
  rewrite Hrun. destruct (mapStatus (status ps)) as [target|] eqn:Et.
  2:{ destruct Hr as [Hr _]. destruct (decide _); by apply Hsame. }
  destruct (by_provider_id (id ps) w) as [[mid0 m0]|] eqn:Eb.
  2:{ destruct Hr as [Hr _]. destruct (decide (id ps = p)) as [E|]; [|by apply Hsame].
      rewrite E, (by_provider_id_unique p w mid m) in Eb by done. done. }
  destruct Hr as (t & k & Hm0 & _ & _ & _ & Hr). cbn [from_option].
  apply by_provider_id_row in Eb as [_ Hp0].
  destruct (shouldApplyStatus (Message.status m0) target) eqn:Esh.
  - set (m1 := status_data target t (extractError (errors ps)) m0) in *.
    assert (Hp1 : Message.providerMessageId m1 = Some (id ps)) by (by unfold m1; rewrite (proj1 (status_data_frame _ _ _ _))).
    split.
    + intros k1 k2 r1 r2 q Hk1 Hk2 Hq1 Hq2. rewrite Hr in Hk1, Hk2.
      apply lookup_insert_Some in Hk1 as [[<- <-]|[Hn1 Hk1]];
        apply lookup_insert_Some in Hk2 as [[<- <-]|[Hn2 Hk2]]; [done|..].
      * eapply (Hu _ _ _ _ (id ps)); [exact Hm0|exact Hk2|congruence|congruence].
      * eapply (Hu _ _ _ _ (id ps)); [exact Hk1|exact Hm0|congruence|congruence].
      * by eapply Hu.
    + destruct (decide (mid0 = mid)) as [->|Hne].
      * assert (m0 = m) as -> by congruence. rewrite decide_True by congruence.
        exists m1. rewrite Hr, lookup_insert_eq. split; [done|]. split; [congruence|].
        unfold m1. rewrite (proj2 (status_data_frame _ _ _ _)). unfold next. by rewrite <- Hs, Esh.
      * rewrite decide_False.
        { exists m. rewrite Hr, lookup_insert_ne by done. done. }
        intros E. apply Hne. eapply Hu; [exact Hm0|exact Hm|exact Hp0|congruence].
  - destruct (decide (id ps = p)) as [E|]; [|by apply Hsame].
    assert (mid0 = mid) as -> by (eapply Hu; [exact Hm0|exact Hm|exact Hp0|congruence]).
    assert (m0 = m) as -> by congruence. unfold next. rewrite <- Hs, Esh, Hs. by apply Hsame.
Qed.

Lemma apply_all_spec l mid p s w :
  unique_provider_ids w -> stands_at mid p s w ->
  wp (for_each l applyStatus) (fun r w' =>
    rows (webhookEvents w') = rows (webhookEvents w) /\ r <> OutOfFuel /\ exists l1 l2, l = l1 ++ l2 /\
    unique_provider_ids w' /\ stands_at mid p (run s (reports_of p l1)) w' /\ (r = Ok tt -> l2 = [])) w.
Proof.
  revert s w. induction l as [|ps l IH]; intros s w Hu Hs; cbn [for_each].
  { apply wp_ret. split; [done|]. split; [done|]. by exists [], []. }
  apply wp_bind. eapply wp_mono; [apply applyStatus_spec|]. intros r w1 (Hw & Hr & Hn).
  assert (Hstep : forall q, reports_of q (ps :: l) = reports_of q [ps] ++ reports_of q l).
  { intros q. unfold reports_of. by rewrite <- fmap_app, <- filter_app. }
  assert (Hfail : forall e, r = Throws e -> rows (webhookEvents w1) = rows (webhookEvents w) /\
    (Throws e : exec js_error unit) <> OutOfFuel /\ exists l1 l2, ps :: l = l1 ++ l2 /\
    unique_provider_ids w1 /\ stands_at mid p (run s (reports_of p l1)) w1 /\ (Throws e = Ok tt -> l2 = [])).
  { intros e ->. split; [done|]. split; [done|]. destruct Hr as [Hr|[[Hr _] _]].
    - exists [ps], l. split; [done|]. by destruct (recorded_step _ _ _ _ _ _ Hr Hu Hs).
    - exists [], (ps :: l). split; [done|]. unfold unique_provider_ids, stands_at. rewrite Hr. done. }
  destruct r as [[]|e|]; [|by apply Hfail|done].
  destruct Hr as [Hr|[_ ?]]; [|done]. destruct (recorded_step _ _ _ _ _ _ Hr Hu Hs) as [Hu1 Hs1].
  eapply wp_mono; [by apply IH|]. intros r w2 (Hw2 & Hn2 & l1 & l2 & -> & Hu2 & Hs2 & He).
  split; [congruence|]. split; [done|]. exists (ps :: l1), l2. split; [done|]. split; [done|].
  split; [|done]. rewrite <- run_app in Hs2. unfold reports_of in *.
  rewrite <- fmap_app, <- filter_app in Hs2. exact Hs2.
Qed.

(** C20: Processing a webhook event runs the status machine on each message it is about, with the
    message's reports in the order of the payload; a failure leaves the message after some of
    them, and the event is marked processed only after all of them. *)
Theorem processWebhookEvent_refines eventId payload mid p s w e0
    (Hu : unique_provider_ids w) (Hm : stands_at mid p s w)
    (He : rows (webhookEvents w) !! eventId = Some e0) (Hopen : WebhookEvent.processed e0 = false) :
  let '(r, w') := processWebhookEvent eventId payload w in
  r <> OutOfFuel /\ exists l1 l2 e, extractStatuses payload = l1 ++ l2 /\
    stands_at mid p (run s (reports_of p l1)) w' /\ rows (webhookEvents w') !! eventId = Some e /\
    (r = Ok tt -> WebhookEvent.processed e = true) /\ (WebhookEvent.processed e = true -> l2 = []).
Proof.
  assert (Hw : wp (processWebhookEvent eventId payload) (fun r w' =>
    r <> OutOfFuel /\ exists l1 l2 e, extractStatuses payload = l1 ++ l2 /\
    stands_at mid p (run s (reports_of p l1)) w' /\ rows (webhookEvents w') !! eventId = Some e /\
    (r = Ok tt -> WebhookEvent.processed e = true) /\ (WebhookEvent.processed e = true -> l2 = [])) w).
  { unfold processWebhookEvent. apply wp_bind.
    eapply wp_mono; [by apply apply_all_spec|]. intros r w1 (Hw1 & Hn & l1 & l2 & El & _ & Hs & Hend).
    rewrite <- Hw1 in He. destruct r as [[]|e|]; [| |done].
    2:{ split; [done|]. exists l1, l2, e0. split; [done|]. split; [done|]. split; [done|]. split; [done|]. congruence. }
    specialize (Hend eq_refl) as ->. apply wp_bind, wp_now. intros t. apply wp_db.
    - intros m. split; [done|]. exists l1, [], e0. done.
    - intros [] w2 Hf. apply bind_Some in Hf as (tb & Ht & [= <-]).
      apply update_some in Ht as (e1 & He1 & Ht & _).
      split; [intros m|]; (split; [done|]; exists l1, [], (processed_data t e1); split; [done|];
        split; [done|]; split; [cbn; rewrite Ht; apply lookup_insert_eq|done]). }
  unfold wp in Hw. by destruct (processWebhookEvent _ _ _).
Qed.
End apply_proofs.

(** ** A webhook with two reports *)
Definition example_payload : json :=
  (JObj [("entry", JArr [JObj [("changes", JArr [JObj [("value", JObj [("statuses", JArr
    [JObj [("id", JStr "wamid"); ("status", JStr "delivered"); ("timestamp", JStr "1700000000")];
     JObj [("id", JStr "wamid"); ("status", JStr "sent"); ("timestamp", JStr "1699999999")]])])]])]])])%string.
Definition example_webhook : WebhookEvent.t :=
  {| WebhookEvent.payload := example_payload; WebhookEvent.processed := false; WebhookEvent.attemptCount := 1;
     WebhookEvent.nextAttemptAt := 0; WebhookEvent.processingLeaseUntil := Some 30000;
     WebhookEvent.lastError := None; WebhookEvent.receivedAt := 0; WebhookEvent.processedAt := None |}.
Definition submitted_message : Message.t :=
  queued_message <| Message.status := SUBMITTED |> <| Message.providerMessageId := Some "wamid"%string |>.
Definition status_example : World (H := gmap_prisma) :=
  world_with {[ "m"%string := submitted_message ]}
    <| webhookEvents := ({[ "e"%string := example_webhook ]} : gmap string WebhookEvent.t) |>.

Lemma processWebhookEvent_refines_witness :
  let '(r, w') := @processWebhookEvent gmap_prisma (calm 7) "e" example_payload status_example in
  r <> OutOfFuel /\ exists l1 l2 e, extractStatuses example_payload = l1 ++ l2 /\
    stands_at "m" "wamid" (run SUBMITTED (reports_of "wamid" l1)) w' /\
    rows (webhookEvents w') !! "e"%string = Some e /\
    (r = Ok tt -> WebhookEvent.processed e = true) /\ (WebhookEvent.processed e = true -> l2 = []).
Proof.
  apply (@processWebhookEvent_refines gmap_prisma (calm 7) "e" example_payload "m" "wamid" SUBMITTED
           status_example example_webhook).
  - intros k1 k2 m1 m2 p Hk1 Hk2 _ _. cbn in Hk1, Hk2.
    apply lookup_singleton_Some in Hk1 as [<- _]. by apply lookup_singleton_Some in Hk2 as [<- _].
  - exists submitted_message. done.
  - done.
  - done.
Defined.

(** A timestamp beyond the range of dates is finite and positive, so it passes [parseTimestamp],
    and the database refuses the date every time the event is retried. *)
Lemma unreadable_timestamp : parseTimestamp (Some "8640000000001"%string) = Some None.
Proof. vm_compute. reflexivity. Qed.
