(* ===== verification/Contacts.v ===== *)
(** Contacts and their consent ([contacts/contacts.service.ts], [contacts/phone.util.ts]). *)
From stdpp Require Import prelude gmap strings sorting.
From Stdlib Require Import Ascii ZArith Lia.
From S2P Require Import Prelude Json Io Prisma Domain Dispatcher.
#[local] Open Scope Z_scope.
Import ConsentStatus.

(** ** Phone numbers *)
Definition digit_from (low : Z) (c : Ascii.ascii) : bool :=
  let n := JsString.code_unit c in (low <=? n) && (n <=? 57).
(** [E164_DIGITS]: [/^[1-9]\d{7,14}$/] *)
Definition E164_DIGITS (s : string) : bool :=
  match s with
  | EmptyString => false
  | String c rest =>
      digit_from 49 c && forallb (digit_from 48) (String.list_ascii_of_string rest) &&
      (7 <=? JsString.len rest) && (JsString.len rest <=? 14)
  end.
(** [replace(/^\+/, "")] *)
Definition strip_plus (s : string) : string := match s with String "+" s' => s' | _ => s end.

Definition normalizePhoneNumber (value : string) : exec js_error string :=
  let normalized := strip_plus (JsString.trim value) in
  if E164_DIGITS normalized then Ok normalized
  else Throws (BadRequestException "Phone number must be in E.164 format").

Definition normalizeTags (tags : list string) : list string :=
  merge_sort JsString.le
    (remove_dups ((fun tag => JsString.toLowerCase (JsString.trim tag)) <$> tags)).

Record CreateContactDto := {
  create_phone : string;
  create_name : option string;
  create_language : option string;
  create_timezone : option string;
  create_tags : option (list string);
  create_metadata : option json
}.
Record UpdateContactDto := {
  update_name : option string;
  update_language : option string;
  update_timezone : option string;
  update_tags : option (list string);
  update_metadata : option json
}.
(** [occurredAt]: the date read from the request, [Some None] an invalid one. *)
Record RecordConsentDto := {
  decision_opted_in : bool;
  source : string;
  occurredAt : option (option Z);
  evidence : option json
}.

Section contacts.
Context `{Prisma} `{Environment}.

(** [tenantId_phone] *)
Definition has_phone (tenantId phone : string) (_ : string) (c : Contact.t) : bool :=
  bool_decide (Contact.tenantId c = tenantId) && bool_decide (Contact.phone c = phone).
Definition contact_by_phone (tenantId phone : string) : io World (option (string * Contact.t)) :=
  db (fun w => Some (findFirst (has_phone tenantId phone) (contacts w), w)).

(** [findFirst({ where: { id, tenantId } })] *)
Definition of_tenant {R} (tenant : R -> string) (tenantId id : string) (t : table R) : option R :=
  r ← rows t !! id; if bool_decide (tenant r = tenantId) then Some r else None.

Definition create (tenantId : string) (dto : CreateContactDto) : io World (string * Contact.t) :=
  phone ← lift (normalizePhoneNumber (create_phone dto));
  existing ← contact_by_phone tenantId phone;
  match existing with
  | Some _ => throw (ConflictException "Contact already exists for this tenant")
  | None =>
      let c := {| Contact.tenantId := tenantId; Contact.phone := phone;
                  Contact.name := create_name dto; Contact.language := create_language dto;
                  Contact.timezone := create_timezone dto;
                  Contact.tags := from_option normalizeTags [] (create_tags dto);
                  Contact.consentStatus := UNKNOWN; Contact.consentSource := None;
                  Contact.consentAt := None; Contact.optedOutAt := None;
                  Contact.lastInboundAt := None; Contact.serviceWindowExpiresAt := None;
                  Contact.metadata := create_metadata dto |} in
      db (fun w => '(id, t) ← Prisma.create contact_unique c (contacts w);
                   Some ((id, c), w <| contacts := t |>))
  end.

Definition findById (tenantId id : string) : io World Contact.t :=
  contact ← db (fun w => Some (of_tenant Contact.tenantId tenantId id (contacts w), w));
  match contact with
  | None => throw (NotFoundException "Contact not found")
  | Some c => mret c
  end.

Definition findByPhone (tenantId phone : string) : io World (option (string * Contact.t)) :=
  phone ← lift (normalizePhoneNumber phone);
  contact_by_phone tenantId phone.

(** A field of the request that is [undefined] leaves the column as it is. *)
Definition update_data (dto : UpdateContactDto) (c : Contact.t) : Contact.t :=
  c <| Contact.name ::= (fun old => match update_name dto with Some v => Some v | None => old end) |>
    <| Contact.language ::= (fun old => match update_language dto with Some v => Some v | None => old end) |>
    <| Contact.timezone ::= (fun old => match update_timezone dto with Some v => Some v | None => old end) |>
    <| Contact.tags ::= (fun old => from_option normalizeTags old (update_tags dto)) |>
    <| Contact.metadata ::= (fun old => match update_metadata dto with Some v => Some v | None => old end) |>.
Definition contact_update (id : string) (f : Contact.t -> Contact.t) : io World unit :=
  db (fun w => t ← Prisma.update contact_unique id f (contacts w); Some (tt, w <| contacts := t |>)).
Definition update (tenantId id : string) (dto : UpdateContactDto) : io World unit :=
  _ ← findById tenantId id;
  contact_update id (update_data dto).

(** ** Consent *)
Definition event_about (tenantId contactId : string) (_ : string) (e : ConsentEvent.t) : bool :=
  bool_decide (ConsentEvent.tenantId e = tenantId) && bool_decide (ConsentEvent.contactId e = contactId).

(** [latestEvent.occurredAt]: the first in descending order of [occurredAt]. *)
Definition later_of (e : string * ConsentEvent.t) (latest : option Z) : option Z :=
  Some (match latest with
        | None => ConsentEvent.occurredAt e.2
        | Some l => Z.max (ConsentEvent.occurredAt e.2) l
        end).
Definition latest_event (tenantId contactId : string) (w : World) : option Z :=
  foldr later_of None (findMany (event_about tenantId contactId) (consentEvents w)).

Definition consent_data (status : ConsentStatus.t) (source : string) (at_time : Z) (existing : Contact.t)
    (c : Contact.t) : Contact.t :=
  c <| Contact.consentStatus := status |> <| Contact.consentSource := Some source |>
    <| Contact.consentAt := if bool_decide (status = OPTED_IN) then Some at_time
                            else Contact.consentAt existing |>
    <| Contact.optedOutAt := if bool_decide (status = OPTED_OUT) then Some at_time else None |>.

(** The transaction of [recordConsent]; [None] is an invalid date. *)
Definition recordConsent_at (tenantId id : string) (dto : RecordConsentDto) (occurredAt : option Z)
    : io World unit :=
  let status := if decision_opted_in dto then OPTED_IN else OPTED_OUT in
  transaction
    (locked ← db (fun w => Some (of_tenant Contact.tenantId tenantId id (contacts w), w));
     match locked with
     | None => throw (NotFoundException "Contact not found")
     | Some _ =>
         existing ← db (fun w => c ← rows (contacts w) !! id; Some (c, w));
         latestEvent ← db (fun w => Some (latest_event tenantId id w, w));
         match occurredAt with
         | None => throw (Error "Invalid value for argument: provided Date object is invalid")
         | Some at_time =>
             _ ← db (fun w => '(_, t) ← Prisma.create unconstrained
                        {| ConsentEvent.tenantId := tenantId; ConsentEvent.contactId := id;
                           ConsentEvent.status := status; ConsentEvent.source := source dto;
                           ConsentEvent.occurredAt := at_time; ConsentEvent.evidence := evidence dto |}
                        (consentEvents w); Some (tt, w <| consentEvents := t |>));
             let isCurrentDecision := match latestEvent with None => true | Some l => l <=? at_time end in
             if negb isCurrentDecision then mret tt
             else contact_update id (consent_data status (source dto) at_time existing)
         end
     end).
Definition recordConsent (tenantId id : string) (dto : RecordConsentDto) : io World unit :=
  occurredAt ← (match occurredAt dto with Some d => mret d | None => t ← now; mret (Some t) end);
  recordConsent_at tenantId id dto occurredAt.
End contacts.

(** ** Phone numbers and tags *)
(** What [normalizePhoneNumber] lets through is 8 to 15 digits without a leading zero. *)
Lemma normalizePhoneNumber_fixed value phone :
  normalizePhoneNumber value = Ok phone -> E164_DIGITS phone = true /\ 8 <= JsString.len phone <= 15.
Proof.
  unfold normalizePhoneNumber. destruct (E164_DIGITS _) eqn:E; [|done]. intros [= <-]. split; [done|].
  revert E. generalize (strip_plus (JsString.trim value)) as s. intros [|c s]; [done|]. cbn.
  intros [[_ H1%Z.leb_le]%andb_true_iff H2%Z.leb_le]%andb_true_iff.
  unfold JsString.len in *. cbn [String.length]. lia.
Qed.

(** ** The current decision *)
Section consent_proofs.
Context `{Prisma} `{Environment}.

Lemma latest_event_spec tenantId id w :
  match latest_event tenantId id w with
  | None => forall k e, rows (consentEvents w) !! k = Some e -> event_about tenantId id k e = false
  | Some l =>
      (forall k e, rows (consentEvents w) !! k = Some e -> event_about tenantId id k e = true ->
         ConsentEvent.occurredAt e <= l) /\
      exists k e, rows (consentEvents w) !! k = Some e /\ event_about tenantId id k e = true /\
        ConsentEvent.occurredAt e = l
  end.
Proof.
  assert (Hl : forall l, match foldr later_of None l with
    | None => l = []
    | Some m => (forall e, e ∈ l -> ConsentEvent.occurredAt e.2 <= m) /\
                exists e, e ∈ l /\ ConsentEvent.occurredAt e.2 = m
    end).
  { induction l as [|e l IH]; cbn; [done|]. destruct (foldr later_of None l) as [m|].
    - destruct IH as [Hle (e' & He' & <-)]. split.
      + intros x [->|Hx]%elem_of_cons; [lia|]. specialize (Hle x Hx). lia.
      + destruct (Z.max_spec (ConsentEvent.occurredAt e.2) (ConsentEvent.occurredAt e'.2)) as [[_ ->]|[_ ->]].
        * exists e'. split; [by right|done].
        * exists e. split; [left|done].
    - subst l. split; [|exists e; split; [left|done]]. intros x ->%list_elem_of_singleton. lia. }
  unfold latest_event. specialize (Hl (findMany (event_about tenantId id) (consentEvents w))).
  destruct (foldr later_of None _) as [m|].
  - destruct Hl as [Hle ([k e] & [He Hk]%findMany_elem & Hm)]. split; [|by exists k, e].
    intros k' e' Hk' He'. apply (Hle (k', e')). by apply findMany_elem.
  - intros k e Hk. destruct (event_about _ _ _ _) eqn:E; [|done].
    assert (Hin : (k, e) ∈ findMany (event_about tenantId id) (consentEvents w)) by by apply findMany_elem.
    rewrite Hl in Hin. by apply elem_of_nil in Hin.
Qed.

(** The contact agrees with the latest decision recorded about it. *)
Definition agrees (evs : gmap string ConsentEvent.t) (id : string) (c : Contact.t) : Prop :=
  (forall k e, evs !! k = Some e -> event_about (Contact.tenantId c) id k e = false) \/
  exists k e, evs !! k = Some e /\ event_about (Contact.tenantId c) id k e = true /\
    ConsentEvent.status e = Contact.consentStatus c /\
    forall k' e', evs !! k' = Some e' -> event_about (Contact.tenantId c) id k' e' = true ->
      ConsentEvent.occurredAt e' <= ConsentEvent.occurredAt e.
Definition consent_current (w : World) : Prop :=
  forall id c, rows (contacts w) !! id = Some c -> agrees (rows (consentEvents w)) id c.

Lemma agrees_other evs k e id c :
  evs !! k = None -> event_about (Contact.tenantId c) id k e = false -> agrees evs id c ->
  agrees (<[k := e]> evs) id c.
Proof.
  intros Hk He [Hno|(k0 & e0 & Hk0 & He0 & Hs & Hmax)]; [left|right].
  - intros k' e' [[<- <-]|[_ Hk']]%lookup_insert_Some; [done|by eapply Hno].
  - exists k0, e0. rewrite lookup_insert_ne by congruence. split; [done|]. split; [done|]. split; [done|].
    intros k' e' [[<- <-]|[_ Hk']]%lookup_insert_Some Ha; [congruence|by eapply Hmax].
Qed.

Lemma of_tenant_some {R} (tenant : R -> string) tenantId id t r :
  of_tenant tenant tenantId id t = Some r -> rows t !! id = Some r /\ tenant r = tenantId.
Proof.
  unfold of_tenant. intros (r' & Hr & Hd)%bind_Some. case_bool_decide; [|done]. by injection Hd as ->.
Qed.

(** What [recordConsent] may end in: nothing, or the decision recorded and, if none is later, the
    contact's. *)
Definition consent_post (tenantId id : string) (dto : RecordConsentDto) (w : World)
    (r : exec js_error unit) (w' : World) : Prop :=
  (r <> Ok tt /\ contacts w' = contacts w /\ consentEvents w' = consentEvents w) \/
  exists c k e, rows (contacts w) !! id = Some c /\ Contact.tenantId c = tenantId /\
    ConsentEvent.status e = (if decision_opted_in dto then OPTED_IN else OPTED_OUT) /\
    event_about tenantId id k e = true /\ rows (consentEvents w) !! k = None /\
    rows (consentEvents w') = <[k := e]> (rows (consentEvents w)) /\
    let current := match latest_event tenantId id w with
                   | None => true | Some l => l <=? ConsentEvent.occurredAt e end in
    rows (contacts w') = if current : bool
      then <[id := consent_data (ConsentEvent.status e) (source dto) (ConsentEvent.occurredAt e) c c]> (rows (contacts w))
      else rows (contacts w).

Lemma recordConsent_body tenantId id dto (d : option Z) w :
  wp (recordConsent_at tenantId id dto d) (consent_post tenantId id dto w) w.
Proof.
  unfold recordConsent_at. cbv zeta.
  assert (Hab : forall e n, consent_post tenantId id dto w (Throws e) (w <| tick := n |>)) by (left; done).
  apply wp_transaction, wp_bind, wp_db; [auto|]. intros locked w1 [= <- <-]. split; [auto|].
  change (contacts (bump w)) with (contacts w).
  destruct (of_tenant _ _ _ _) as [c|] eqn:Ec; [|apply wp_throw; auto].
  apply of_tenant_some in Ec as [Hc Ht].
  apply wp_bind, wp_db; [auto|]. intros c' w2 Hf. cbn in Hf. rewrite Hc in Hf. injection Hf as <- <-. split; [auto|].
  apply wp_bind, wp_db; [auto|]. intros latest w3 [= <- <-]. split; [auto|].
  destruct d as [at_time|]; [|apply wp_throw; auto].
  apply wp_bind, wp_db; [auto|]. intros [] w4 Hf. apply bind_Some in Hf as ([k evs] & Hev & [= <-]).
  apply create_some in Hev as (Hk & Hev & _). cbn in Hk, Hev. split; [auto|].
  set (e := {| ConsentEvent.tenantId := tenantId |}) in *.
  assert (He : event_about tenantId id k e = true) by (unfold event_about; cbn; by rewrite !bool_decide_true).
  change (latest_event tenantId id (bump (bump (bump w)))) with (latest_event tenantId id w).
  destruct (match latest_event tenantId id w with None => true | Some l => l <=? at_time end) eqn:Ecur; cbn [negb].
  - apply wp_db; [auto|]. intros [] w5 Hf. apply bind_Some in Hf as (t & Hu & [= <-]).
    apply update_some in Hu as (c' & Hc' & Hu & _). cbn in Hc', Hu.
    pose proof (eq_trans (eq_sym Hc) Hc') as [= <-]. split; [auto|].
    assert (Hp : forall r n, consent_post tenantId id dto w r
      (bump (bump (bump (bump (bump w)) <| consentEvents := evs |>)) <| contacts := t |> <| tick := n |>)).
    { intros r n. right. exists c, k, e. do 6 (split; [done|]). cbv zeta. cbn [ConsentEvent.occurredAt e]. by rewrite Ecur. }
    split; [auto|]. split; [intros m|]; apply (Hp _ _).
  - apply wp_ret.
    assert (Hp : forall r n, consent_post tenantId id dto w r
      (bump (bump (bump (bump w)) <| consentEvents := evs |>) <| tick := n |>)).
    { intros r n. right. exists c, k, e. do 6 (split; [done|]). cbv zeta. cbn [ConsentEvent.occurredAt e]. by rewrite Ecur. }
    split; [auto|]. split; [intros m|]; apply (Hp _ _).
Qed.

Lemma recordConsent_spec tenantId id dto w :
  wp (recordConsent tenantId id dto) (consent_post tenantId id dto w) w.
Proof.
  apply wp_bind. destruct (occurredAt dto) as [d|].
  - apply wp_ret, recordConsent_body.
  - apply wp_bind, wp_now. intros t. apply wp_ret.
    eapply wp_mono; [apply recordConsent_body|]. intros r w' Hp. exact Hp.
Qed.

Lemma agrees_new evs k e id c c' :
  evs !! k = None -> Contact.tenantId c' = Contact.tenantId c ->
  event_about (Contact.tenantId c) id k e = true -> ConsentEvent.status e = Contact.consentStatus c' ->
  (forall k' e', evs !! k' = Some e' -> event_about (Contact.tenantId c) id k' e' = true ->
     ConsentEvent.occurredAt e' <= ConsentEvent.occurredAt e) ->
  agrees (<[k := e]> evs) id c'.
Proof.
  intros Hk Ht He Hs Hmax. right. exists k, e. rewrite lookup_insert_eq, Ht. split; [done|].
  split; [done|]. split; [done|]. intros k' e' [[<- <-]|[_ Hk']]%lookup_insert_Some Ha; [done|by eapply Hmax].
Qed.

Lemma agrees_old evs k e id c l :
  evs !! k = None -> ConsentEvent.occurredAt e < l ->
  (exists k' e', evs !! k' = Some e' /\ event_about (Contact.tenantId c) id k' e' = true /\
     ConsentEvent.occurredAt e' = l) ->
  agrees evs id c -> agrees (<[k := e]> evs) id c.
Proof.
  intros Hk Hlt (k1 & e1 & Hk1 & He1 & Hl) [Hno|(k0 & e0 & Hk0 & He0 & Hs & Hmax)].
  { by rewrite (Hno _ _ Hk1) in He1. }
  right. exists k0, e0. rewrite lookup_insert_ne by congruence. split; [done|]. split; [done|].
  split; [done|]. intros k' e' [[<- <-]|[_ Hk']]%lookup_insert_Some Ha; [|by eapply Hmax].
  specialize (Hmax _ _ Hk1 He1). lia.
Qed.

Lemma consent_post_current tenantId id dto w r w' :
  consent_current w -> consent_post tenantId id dto w r w' -> consent_current w'.
Proof.
  intros Hinv [(_ & Hc & He)|(c & k & e & Hc & Ht & Hs & Ha & Hk & Hevs & Hcs)]; intros id' c' Hc'.
  { unfold consent_current in Hinv. rewrite Hc in Hc'. rewrite He. by apply Hinv. }
  rewrite Hevs. cbv zeta in Hcs.
  assert (Hother : id' <> id -> rows (contacts w) !! id' = Some c' -> agrees (<[k:=e]> (rows (consentEvents w))) id' c').
  { intros Hne Hc0. apply agrees_other; [done| |by apply Hinv]. unfold event_about in *.
    apply andb_true_iff in Ha as [_ Ha%bool_decide_eq_true]. rewrite (bool_decide_false (_ = id')) by congruence.
    apply andb_false_r. }
  pose proof (latest_event_spec tenantId id w) as Hl. rewrite <- Ht in *.
  destruct (latest_event _ id w) as [l|] eqn:El; [destruct (Z.leb_spec l (ConsentEvent.occurredAt e)) as [Hle|Hgt]|];
    rewrite Hcs in Hc'; [apply lookup_insert_Some in Hc' as [[<- <-]|[Hne Hc']]; [|by apply Hother]| |
                         apply lookup_insert_Some in Hc' as [[<- <-]|[Hne Hc']]; [|by apply Hother]].
  - eapply (agrees_new _ _ _ _ c); [done..|]. intros k' e' Hk' Ha'. destruct Hl as [Hl _]. specialize (Hl _ _ Hk' Ha'). lia.
  - destruct (decide (id' = id)) as [->|Hne]; [|by apply Hother].
    assert (c' = c) as -> by congruence. eapply agrees_old; [done|exact Hgt|by apply Hl|by apply Hinv].
  - eapply (agrees_new _ _ _ _ c); [done..|]. intros k' e' Hk' Ha'. by rewrite (Hl _ _ Hk') in Ha'.
Qed.

(** C22: A contact's consent is that of the latest decision recorded about it, in whatever order the
    decisions arrive and whatever fails: recording a decision keeps it so, and either records
    the decision or reports that it did nothing. *)
Theorem recordConsent_current tenantId id dto w (Hinv : consent_current w) :
  let '(r, w') := recordConsent tenantId id dto w in
  consent_current w' /\ consent_post tenantId id dto w r w'.
Proof.
  pose proof (recordConsent_spec tenantId id dto w) as Hp. unfold wp in Hp.
  destruct (recordConsent tenantId id dto w) as [r w']. split; [|done]. by eapply consent_post_current.
Qed.
End consent_proofs.

(** ** A late opt-out *)
Definition example_contact : Contact.t :=
  {| Contact.tenantId := "t"; Contact.phone := "96170123456"; Contact.name := None; Contact.language := None;
     Contact.timezone := None; Contact.tags := []; Contact.consentStatus := OPTED_IN;
     Contact.consentSource := None; Contact.consentAt := Some 10; Contact.optedOutAt := None;
     Contact.lastInboundAt := None; Contact.serviceWindowExpiresAt := None; Contact.metadata := None |}.
Definition example_opt_in : ConsentEvent.t :=
  {| ConsentEvent.tenantId := "t"; ConsentEvent.contactId := "c"; ConsentEvent.status := OPTED_IN;
     ConsentEvent.source := "web"; ConsentEvent.occurredAt := 10; ConsentEvent.evidence := None |}.
Definition consent_example : World (H := gmap_prisma) :=
  world_with ∅ <| contacts := ({[ "c"%string := example_contact ]} : gmap string Contact.t) |>
    <| consentEvents := ({[ "e"%string := example_opt_in ]} : gmap string ConsentEvent.t) |>.
Definition late_opt_out : RecordConsentDto :=
  {| decision_opted_in := false; source := "import"; occurredAt := Some (Some 5); evidence := None |}.

Lemma recordConsent_current_witness :
  let '(r, w') := @recordConsent gmap_prisma (calm 7) "t" "c" late_opt_out consent_example in
  consent_current w' /\ consent_post "t" "c" late_opt_out consent_example r w'.
Proof.
  apply (@recordConsent_current gmap_prisma (calm 7) "t" "c" late_opt_out consent_example).
  intros id c Hc. cbn in Hc. apply lookup_singleton_Some in Hc as [<- <-].
  right. exists "e"%string, example_opt_in. split; [reflexivity|]. split; [reflexivity|]. split; [reflexivity|].
  intros k' e' Hk' _. cbn in Hk'. by apply lookup_singleton_Some in Hk' as [_ <-].
Defined.
