(* ===== verification/Conversations.v ===== *)
(** Conversations of the inbox and their response SLA: the activity that messages record
    ([inbox/conversation-activity.service.ts]) and the escalation of overdue cycles
    ([inbox/inbox-response-sla-escalation.service.ts]). *)
From stdpp Require Import prelude gmap strings sorting.
From Stdlib Require Import ZArith Lia.
From S2P Require Import Prelude Json Io Prisma Domain LeaseQueue.
#[local] Open Scope Z_scope.
Import ConversationStatus.

(** [t > COALESCE(o, '-infinity')] *)
Definition after (t : Z) (o : option Z) : bool := match o with Some u => u <? t | None => true end.
(** [GREATEST(COALESCE(o, t), t)] *)
Definition greatest (t : Z) (o : option Z) : Z := match o with Some u => Z.max u t | None => t end.

(** ** One row *)
(** [startsResponseSlaCycle] *)
Definition startsResponseSlaCycle (t : Z) (c : Conversation.t) : bool :=
  after t (Conversation.lastInboundAt c) && after t (Conversation.lastOutboundAt c) &&
  (bool_decide (Conversation.status c = RESOLVED) ||
   bool_decide (Conversation.responseSlaDueAt c = None) ||
   bool_decide (is_Some (Conversation.responseSlaRespondedAt c))).

(** The [DO UPDATE] of [recordInbound]; [minutes] is [responseSlaMinutes].  SQL reads the old row on
    every right-hand side. *)
Definition inbound_data (minutes : option Z) (t : Z) (c : Conversation.t) : Conversation.t :=
  let starts := startsResponseSlaCycle t c in
  c <| Conversation.status := OPEN |> <| Conversation.resolvedAt := None |>
    <| Conversation.unreadCount := Conversation.unreadCount c + 1 |>
    <| Conversation.lastMessageAt := Z.max (Conversation.lastMessageAt c) t |>
    <| Conversation.lastInboundAt := Some (greatest t (Conversation.lastInboundAt c)) |>
    <| Conversation.responseSlaStartedAt :=
         if starts then match minutes with None => None | Some _ => Some t end
         else Conversation.responseSlaStartedAt c |>
    <| Conversation.responseSlaDueAt :=
         if starts then match minutes with None => None | Some m => Some (t + m * 60000) end
         else Conversation.responseSlaDueAt c |>
    <| Conversation.responseSlaRespondedAt :=
         if starts then None else Conversation.responseSlaRespondedAt c |>
    <| Conversation.responseSlaEscalatedAt :=
         if starts then None else Conversation.responseSlaEscalatedAt c |>.

(** [closesResponseSlaCycle] *)
Definition closesResponseSlaCycle (t : Z) (c : Conversation.t) : bool :=
  negb (bool_decide (Conversation.status c = RESOLVED)) &&
  match Conversation.responseSlaStartedAt c with Some s => s <=? t | None => false end &&
  bool_decide (is_Some (Conversation.responseSlaDueAt c)) &&
  bool_decide (Conversation.responseSlaRespondedAt c = None) &&
  after t (Conversation.lastOutboundAt c).

(** The [DO UPDATE] of [recordOutbound]. *)
Definition outbound_data (t : Z) (c : Conversation.t) : Conversation.t :=
  let resolved := bool_decide (Conversation.status c = RESOLVED) in
  c <| Conversation.status := OPEN |> <| Conversation.resolvedAt := None |>
    <| Conversation.lastMessageAt := Z.max (Conversation.lastMessageAt c) t |>
    <| Conversation.lastOutboundAt := Some (greatest t (Conversation.lastOutboundAt c)) |>
    <| Conversation.responseSlaStartedAt := if resolved then None else Conversation.responseSlaStartedAt c |>
    <| Conversation.responseSlaDueAt := if resolved then None else Conversation.responseSlaDueAt c |>
    <| Conversation.responseSlaRespondedAt :=
         if resolved then None else if closesResponseSlaCycle t c then Some t
         else Conversation.responseSlaRespondedAt c |>
    <| Conversation.responseSlaEscalatedAt := if resolved then None else Conversation.responseSlaEscalatedAt c |>.

(** The row an [INSERT] makes. *)
Definition new_conversation (tenantId contactId senderId : string) (unread t : Z) (inbound outbound : option Z)
    : Conversation.t :=
  {| Conversation.tenantId := tenantId; Conversation.contactId := contactId; Conversation.senderId := senderId;
     Conversation.assignedAgentId := None; Conversation.status := OPEN;
     Conversation.priority := ConversationPriority.NORMAL; Conversation.unreadCount := unread;
     Conversation.lastMessageAt := t; Conversation.lastInboundAt := inbound;
     Conversation.lastOutboundAt := outbound; Conversation.resolvedAt := None;
     Conversation.responseSlaStartedAt := None; Conversation.responseSlaDueAt := None;
     Conversation.responseSlaRespondedAt := None; Conversation.responseSlaEscalatedAt := None |}.

(** [responseSlaStartedAt IS NOT NULL AND ... AND responseSlaDueAt <= now AND ...] *)
Definition overdue (now : Z) (c : Conversation.t) : bool :=
  (bool_decide (Conversation.status c = OPEN) || bool_decide (Conversation.status c = PENDING)) &&
  bool_decide (is_Some (Conversation.responseSlaStartedAt c)) &&
  match Conversation.responseSlaDueAt c with Some d => d <=? now | None => false end &&
  bool_decide (Conversation.responseSlaRespondedAt c = None) &&
  bool_decide (Conversation.responseSlaEscalatedAt c = None).

Definition ESCALATION_BATCH_SIZE : nat := 200.

Section conversations.
Context `{Prisma} `{Environment}.

(** The minutes of the team the conversation is assigned to. *)
Definition responseSlaMinutes (conversationId : string) (c : Conversation.t) (w : World) : option Z :=
  '(_, a) ← findFirst (fun _ a => bool_decide (TeamAssignment.conversationId a = conversationId)) (teamAssignments w);
  team ← rows (teams w) !! TeamAssignment.teamId a;
  if bool_decide (TeamAssignment.tenantId a = Conversation.tenantId c) &&
     bool_decide (InboxTeam.tenantId team = TeamAssignment.tenantId a)
  then InboxTeam.responseSlaMinutes team else None.

Definition between (tenantId senderId contactId : string) (_ : string) (c : Conversation.t) : bool :=
  bool_decide (Conversation.tenantId c = tenantId) && bool_decide (Conversation.senderId c = senderId) &&
  bool_decide (Conversation.contactId c = contactId).

(** [INSERT ... ON CONFLICT ("tenantId", "senderId", "contactId") DO UPDATE ... RETURNING "id"]:
    one statement. *)
Definition upsert (row : Conversation.t) (f : string -> World -> Conversation.t -> Conversation.t)
    : io World string :=
  db (fun w =>
    match findFirst (between (Conversation.tenantId row) (Conversation.senderId row)
                       (Conversation.contactId row)) (conversations w) with
    | Some (id, _) =>
        t ← update conversation_unique id (f id w) (conversations w); Some (id, w <| conversations := t |>)
    | None =>
        '(id, t) ← create conversation_unique row (conversations w); Some (id, w <| conversations := t |>)
    end).

Definition recordInbound (tenantId senderId contactId : string) (occurredAt : Z) : io World string :=
  upsert (new_conversation tenantId contactId senderId 1 occurredAt (Some occurredAt) None)
    (fun id w c => inbound_data (responseSlaMinutes id c w) occurredAt c).

Definition recordOutbound (tenantId senderId phone : string) (messageType : MessageType.t) (occurredAt : Z)
    : io World (option string) :=
  if bool_decide (messageType = MessageType.TEMPLATE) then mret None else
  contact ← db (fun w => Some (findFirst (fun _ c => bool_decide (Contact.tenantId c = tenantId) &&
                                                     bool_decide (Contact.phone c = phone)) (contacts w), w));
  match contact with
  | None => mret None
  | Some (contactId, _) =>
      id ← upsert (new_conversation tenantId contactId senderId 0 occurredAt None (Some occurredAt))
             (fun _ _ => outbound_data occurredAt);
      mret (Some id)
  end.

(** [ORDER BY "responseSlaDueAt" ASC, "id" ASC] *)
Definition due_first (a b : string * Conversation.t) : Prop :=
  let da := default 0 (Conversation.responseSlaDueAt a.2) in
  let db := default 0 (Conversation.responseSlaDueAt b.2) in
  da < db \/ da = db /\ JsString.le a.1 b.1.
#[export] Instance due_first_dec : RelDecision due_first.
Proof. intros a b. unfold due_first. apply _. Defined.

Definition due (now : Z) (locked : string -> bool) (t : table Conversation.t) : list (string * Conversation.t) :=
  take ESCALATION_BATCH_SIZE (merge_sort due_first
    (findMany (fun id c => overdue now c && negb (locked id)) t)).

(** [escalateOverdue]; [locked] are the rows that other transactions hold. *)
Definition escalateOverdue (locked : string -> bool) (now : Z) : io World nat :=
  db (fun w =>
    let chosen := (due now locked (conversations w)).*1 in
    let '(n, t) := updateMany (fun id c => bool_decide (id ∈ chosen) && overdue now c)
                     (fun c => c <| Conversation.responseSlaEscalatedAt := Some now |>) (conversations w) in
    Some (n, w <| conversations := t |>)).
End conversations.

(** ** The SLA cycle *)
(** A cycle has a start and a due time or neither; it is answered after its start and escalated
    after it was due. *)
Definition sla_ok (c : Conversation.t) : Prop :=
  (Conversation.responseSlaStartedAt c = None <-> Conversation.responseSlaDueAt c = None) /\
  (forall r, Conversation.responseSlaRespondedAt c = Some r ->
     exists s, Conversation.responseSlaStartedAt c = Some s /\ s <= r) /\
  (forall e, Conversation.responseSlaEscalatedAt c = Some e ->
     exists d, Conversation.responseSlaDueAt c = Some d /\ d <= e).

Lemma inbound_sla minutes t c : sla_ok c -> sla_ok (inbound_data minutes t c).
Proof.
  intros (H1 & H2 & H3). unfold sla_ok, inbound_data. cbn. destruct (startsResponseSlaCycle t c); [|done].
  destruct minutes; done.
Qed.
Lemma outbound_sla t c : sla_ok c -> sla_ok (outbound_data t c).
Proof.
  intros (H1 & H2 & H3). unfold sla_ok, outbound_data. cbn.
  destruct (bool_decide (Conversation.status c = RESOLVED)) eqn:Er; [done|].
  split; [done|]. split; [|done]. unfold closesResponseSlaCycle. rewrite Er. cbn [negb andb].
  destruct (Conversation.responseSlaStartedAt c) as [s|]; [|done].
  destruct (Z.leb_spec s t); [|done]. cbn [andb]. destruct (_ && _ && _); [|done].
  intros r [= <-]. by exists s.
Qed.
Lemma escalated_sla now c :
  overdue now c = true -> sla_ok c -> sla_ok (c <| Conversation.responseSlaEscalatedAt := Some now |>).
Proof.
  unfold overdue. intros [[[_ Hd]%andb_true_iff _]%andb_true_iff _]%andb_true_iff (H1 & H2 & H3).
  split; [done|]. split; [done|]. cbn. intros e [= <-].
  destruct (Conversation.responseSlaDueAt c) as [d|]; [|done]. exists d. split; [done|]. by apply Z.leb_le.
Qed.

(** What happens to a conversation, in the order the database runs it: messages with their own
    times, and escalations. *)
Inductive activity := Inbound (minutes : option Z) (t : Z) | Outbound (t : Z) | Escalate (now : Z).
Definition step (c : Conversation.t) (a : activity) : Conversation.t :=
  match a with
  | Inbound minutes t => inbound_data minutes t c
  | Outbound t => outbound_data t c
  | Escalate now => if overdue now c then c <| Conversation.responseSlaEscalatedAt := Some now |> else c
  end.
Definition inbound_times : list activity -> list Z :=
  omap (fun a => match a with Inbound _ t => Some t | _ => None end).
Definition outbound_times : list activity -> list Z :=
  omap (fun a => match a with Outbound t => Some t | _ => None end).

(** The latest of some times. *)
Definition latest (o : option Z) (l : list Z) : option Z := foldl (fun o t => Some (greatest t o)) o l.

(** C40: Through any sequence of messages, in whatever order their times come, and of escalations, the
    SLA cycle of a conversation stays well-formed, the times of its last messages are the
    latest ones, and the unread count grows by the inbound messages. *)
Theorem conversation_history c l (Hok : sla_ok c) :
  let c' := foldl step c l in
  sla_ok c' /\
  Conversation.lastInboundAt c' = latest (Conversation.lastInboundAt c) (inbound_times l) /\
  Conversation.lastOutboundAt c' = latest (Conversation.lastOutboundAt c) (outbound_times l) /\
  Conversation.unreadCount c' = Conversation.unreadCount c + Z.of_nat (length (inbound_times l)) /\
  Forall (fun t => t <= Conversation.lastMessageAt c') (inbound_times l ++ outbound_times l).
Proof.
  cbv zeta. revert c Hok. induction l as [|a l IH]; intros c Hok.
  { cbn. rewrite Z.add_0_r. done. }
  assert (Hmono : forall c, Conversation.lastMessageAt c <= Conversation.lastMessageAt (foldl step c l)).
  { clear. induction l as [|a l IH]; intros c; [done|]. cbn. etrans; [|apply IH].
    destruct a; cbn; [lia|lia|]. by destruct (overdue now c). }
  cbn [foldl]. destruct a as [minutes t|t|now]; cbn [step].
  - destruct (IH (inbound_data minutes t c)) as (P1 & P2 & P3 & P4 & P5); [by apply inbound_sla|].
    split; [done|]. split; [done|]. split; [done|]. split.
    + rewrite P4. cbn. lia.
    + cbn [inbound_times omap list_omap app]. constructor; [|done]. 
      etrans; [|apply Hmono]. cbn. lia.
  - destruct (IH (outbound_data t c)) as (P1 & P2 & P3 & P4 & P5); [by apply outbound_sla|].
    split; [done|]. split; [done|]. split; [done|]. split; [done|].
    apply Forall_app in P5 as [P5 P6]. apply Forall_app. split; [done|]. cbn [outbound_times omap list_omap].
    constructor; [|done]. etrans; [|apply Hmono]. cbn. lia.
  - destruct (overdue now c) eqn:Eo; [|by apply IH].
    destruct (IH (c <| Conversation.responseSlaEscalatedAt := Some now |>)) as (P1 & P2 & P3 & P4 & P5); [by apply escalated_sla|].
    done.
Qed.

Lemma conversation_history_witness :
  let c := new_conversation "t" "c" "s" 1 0 (Some 0) None in
  let c' := foldl step c [Inbound (Some 5) 1000; Escalate 301000; Outbound 400000; Inbound (Some 5) 500] in
  Conversation.responseSlaDueAt c' = Some 301000 /\ Conversation.responseSlaRespondedAt c' = Some 400000 /\
  Conversation.responseSlaEscalatedAt c' = Some 301000 /\ sla_ok c'.
Proof.
  split; [reflexivity|]. split; [reflexivity|]. split; [reflexivity|].
  apply (conversation_history (new_conversation "t" "c" "s" 1 0 (Some 0) None)
           [Inbound (Some 5) 1000; Escalate 301000; Outbound 400000; Inbound (Some 5) 500]).
  split; [done|]. split; [done|]. done.
Defined.

Section conversation_proofs.
Context `{Prisma} `{Environment}.

#[export] Instance due_first_total : Total due_first.
Proof.
  intros a b. unfold due_first, JsString.le. destruct (String.leb_total a.1 b.1); lia || (destruct (Z.lt_trichotomy
    (default 0 (Conversation.responseSlaDueAt a.2)) (default 0 (Conversation.responseSlaDueAt b.2))) as [?|[?|?]]; auto).
Qed.

Lemma due_elem now locked t id c :
  (id, c) ∈ due now locked t -> rows t !! id = Some c /\ overdue now c = true /\ locked id = false.
Proof.
  intros Hin. apply (subseteq_take ESCALATION_BATCH_SIZE) in Hin.
  rewrite (merge_sort_Permutation due_first) in Hin. apply findMany_elem in Hin as [Hp Hk].
  apply andb_true_iff in Hp as [? ?%negb_true_iff]. done.
Qed.

(** A row left out although it was overdue and free: the batch was full, and everything in it
    was due no later. *)
Definition left_out (now : Z) (locked : string -> bool) (t : table Conversation.t) : Prop :=
  forall id c, rows t !! id = Some c -> overdue now c = true -> locked id = false ->
    id ∉ (due now locked t).*1 ->
    length (due now locked t) = ESCALATION_BATCH_SIZE /\
    forall id' c', (id', c') ∈ due now locked t ->
      default 0 (Conversation.responseSlaDueAt c') <= default 0 (Conversation.responseSlaDueAt c).

Lemma due_left_out now locked t : left_out now locked t.
Proof.
  intros id c Hc Ho Hl Hout.
  set (all := findMany (fun id c => overdue now c && negb (locked id)) t).
  assert (Hin : (id, c) ∈ all) by (apply findMany_elem; by rewrite Ho, Hl).
  assert (Hno : (id, c) ∉ due now locked t).
  { intros Hd. apply Hout. apply list_elem_of_fmap. by exists (id, c). }
  split.
  - unfold due. fold all. rewrite length_take, Nat.min_l; [done|].
    destruct (Nat.le_gt_cases ESCALATION_BATCH_SIZE (length (merge_sort due_first all))) as [|Hlt]; [done|].
    exfalso. apply Hno. unfold due. fold all. rewrite take_ge by lia. by rewrite (merge_sort_Permutation due_first).
  - intros id' c' Hd.
    pose proof (limit_first due_first (fun a b => default 0 (Conversation.responseSlaDueAt a.2) <=
      default 0 (Conversation.responseSlaDueAt b.2)) ESCALATION_BATCH_SIZE all (id', c') (id, c)) as Hf.
    destruct Hf as [?|?]; [intros x y z; cbn; lia|unfold due_first; cbn; lia|done|done|done|done].
Qed.

(** A scan escalates overdue conversations that nobody holds, at most a batch of them, those
    due first first, and no other; the cycles stay well-formed, and an escalated conversation
    is not overdue any more. *)
Theorem escalateOverdue_correct locked now w :
  let '(r, w') := escalateOverdue locked now w in
  ((exists e, r = Throws e) /\ forall id, rows (conversations w') !! id = rows (conversations w) !! id) \/
  (length (due now locked (conversations w)) <= ESCALATION_BATCH_SIZE)%nat /\
  left_out now locked (conversations w) /\
  forall id c, rows (conversations w) !! id = Some c -> exists c', rows (conversations w') !! id = Some c' /\
    if decide (id ∈ (due now locked (conversations w)).*1)
    then overdue now c = true /\ locked id = false /\ (sla_ok c -> sla_ok c') /\
         Conversation.responseSlaEscalatedAt c' = Some now /\ (forall now', overdue now' c' = false)
    else c' = c.
Proof.
  assert (Hw : wp (escalateOverdue locked now) (fun r w' =>
    ((exists e, r = Throws e) /\ forall id, rows (conversations w') !! id = rows (conversations w) !! id) \/
    forall id, rows (conversations w') !! id =
      (fun c => if bool_decide (id ∈ (due now locked (conversations w)).*1) && overdue now c
                then c <| Conversation.responseSlaEscalatedAt := Some now |> else c) <$>
      rows (conversations w) !! id) w).
  { apply wp_db; [intros e; left; by split; [eexists|]|]. intros n w'. change (conversations (bump w)) with (conversations w).
    cbv zeta. match goal with |- context [updateMany ?p ?f ?tb] => destruct (updateMany p f tb) as [n' t] eqn:E end.
    intros [= <- <-].
    apply (f_equal snd) in E. change ((n', t).2) with t in E. subst t.
    split; [intros e|]; right; intros id; apply updateMany_rows. }
  unfold wp in Hw. destruct (escalateOverdue locked now w) as [r w']. cbn [fst snd] in Hw.
  destruct Hw as [Hw|Hw]; [by left|right]. split; [unfold due; rewrite length_take; lia|].
  split; [apply due_left_out|]. intros id c Hc. specialize (Hw id). rewrite Hc in Hw. cbn [fmap option_fmap option_map] in Hw.
  eexists. split; [exact Hw|]. destruct (decide (id ∈ _)) as [Hd|Hd].
  - rewrite bool_decide_true by done. pose proof Hd as Hd'. apply list_elem_of_fmap in Hd' as ([id' c'] & E & Hd').
    cbn in E. subst id'. apply due_elem in Hd' as (Hc' & Ho & Hl). assert (c' = c) as -> by congruence.
    rewrite Ho. cbn [andb]. split; [done|]. split; [done|]. split; [by apply escalated_sla|]. split; [done|].
    intros now'. unfold overdue. cbn. apply andb_false_r.
  - by rewrite bool_decide_false.
Qed.
End conversation_proofs.
