(* ===== verification/AuditTrail.v ===== *)
(** The audit trail of mutations ([audit/audit-write.util.ts]): only those made with an API key
    leave an entry. *)
From stdpp Require Import prelude gmap strings sorting.
From Stdlib Require Import ZArith Lia.
From S2P Require Import Prelude Json Io Prisma Domain.
#[local] Open Scope Z_scope.

(** [string | ApiPrincipal] *)
Inductive TenantOrPrincipal := Tenant (tenantId : string) | ApiPrincipal (tenantId apiKeyId : string).

Module MutationActor.
Record t := make { tenantId : string; apiKeyId : option string }.
End MutationActor.

Record AuditRequestContext := { ipAddress : option string; userAgent : option string }.

Definition mutationActor (value : TenantOrPrincipal) : MutationActor.t :=
  match value with
  | Tenant t => MutationActor.make t None
  | ApiPrincipal t k => MutationActor.make t (Some k)
  end.

Definition auditLogData (actor : MutationActor.t) (context : option AuditRequestContext)
    (action entityType : string) (entityId : option string) (metadata : option json) : option AuditData.t :=
  match truthy (MutationActor.apiKeyId actor) with
  | None => None
  | Some key => Some
      {| AuditData.tenantId := MutationActor.tenantId actor; AuditData.actorApiKeyId := key;
         AuditData.action := action; AuditData.entityType := entityType; AuditData.entityId := entityId;
         AuditData.metadata := metadata; AuditData.ipAddress := context ≫= ipAddress;
         AuditData.userAgent := context ≫= userAgent |}
  end.

(** The keys with a value, renamed and sorted; [source] lists the keys of the request. *)
Definition changedFields (source : list (string * bool)) (aliases : string -> option string) : list string :=
  merge_sort JsString.le
    ((fun kd => default kd.1 (aliases kd.1)) <$> filter (fun kd => kd.2 = true) source).

Section audit.
Context `{Prisma} `{Environment}.

(** [if (audit) await transaction.auditLog.create({ data: audit })] *)
Definition write_audit (audit : option AuditData.t) : io World unit :=
  match audit with
  | None => mret tt
  | Some a => db (fun w => '(_, t) ← create unconstrained (AuditLog.make a (clock (tick w))) (auditLogs w); Some (tt, w <| auditLogs := t |>))
  end.

Lemma wp_write_audit audit (Q : exec js_error unit -> World -> Prop) w :
  (forall e, Q (Throws (Error e)) (bump w)) ->
  (forall t n, let w' := w <| auditLogs := t |> <| tick := n |> in
     (forall e, Q (Throws (Error e)) w') /\ Q (Ok tt) w') ->
  wp (write_audit audit) Q w.
Proof.
  intros Hf Ho. destruct audit as [a|]; cbn.
  - apply wp_db; [done|]. intros [] w' Hc. apply bind_Some in Hc as ([k t] & _ & [= <-]). apply (Ho t).
  - apply wp_ret. destruct (Ho (auditLogs w) (tick w)) as [_ Hw]. by destruct w.
Qed.
End audit.
