(* ===== verification/Tables.v ===== *)
(** Calls of the database client on one table of the world, written once for every table: the
    class [Table] says which column of the world holds the rows of a type. *)
From stdpp Require Import prelude gmap strings.
From Stdlib Require Import ZArith Lia.
From S2P Require Import Prelude Json Io Prisma Domain Frame AuditTrail.
#[local] Open Scope Z_scope.

Class Table `{Prisma} (R : Type) := {
  tbl : World -> table R;
  set_tbl : table R -> World -> World;
  tbl_set : forall t w, tbl (set_tbl t w) = t;
  tbl_tick : forall w n, tbl (w <| tick := n |>) = tbl w;
  set_tick : forall t w n, set_tbl t (w <| tick := n |>) = set_tbl t w <| tick := n |>
}.

(** A reference to a row, by its id: the row it finds. *)
Definition row `{Table R} (k : string) (w : World) : option R := rows (tbl w) !! k.

(** [where: { id, tenantId }] *)
Definition of_tenant {R} (tenant : R -> string) (id tenantId : string) (k : string) (r : R) : bool :=
  bool_decide (k = id) && bool_decide (tenant r = tenantId).

Section calls.
Context `{Prisma} `{Environment} {R : Type} `{!Table R}.
Implicit Types (p : string -> R -> bool) (f : R -> R) (c : constraint R).

Definition find_row p : io World (option (string * R)) := db (fun w => Some (findFirst p (tbl w), w)).
Definition find_rows p : io World (list (string * R)) := db (fun w => Some (findMany p (tbl w), w)).
Definition count_rows p : io World nat := db (fun w => Some (length (findMany p (tbl w)), w)).
Definition create_row c (r : R) : io World (string * R) :=
  db_known "P2002" (fun w => '(k, t) ← create c r (tbl w); Some ((k, r), set_tbl t w)).
(** [update]: P2025 when the row is not there. *)
Definition update_row c (k : string) f : io World R := fun w =>
  db_known (match row k w with Some _ => "P2002" | None => "P2025" end)
    (fun w => t ← update c k f (tbl w); r ← rows t !! k; Some (r, set_tbl t w)) w.
(** [createMany({ data: [r], skipDuplicates: true })] *)
Definition createMany_row c (r : R) : io World nat :=
  db (fun w => match create c r (tbl w) with
               | Some (_, t) => Some (1%nat, set_tbl t w)
               | None => Some (0%nat, w)
               end).
Definition updateMany_rows_of p f : io World nat :=
  db (fun w => let '(n, t) := updateMany p f (tbl w) in Some (n, set_tbl t w)).
(** [updateMany] on one id, when the change may break a unique constraint. *)
Definition updateMany_unique c (k : string) (p : R -> bool) f : io World nat :=
  db_known "P2002" (fun w =>
    if match row k w with Some r => p r | None => false end then t ← update c k f (tbl w); Some (1%nat, set_tbl t w)
    else Some (0%nat, w)).
Definition deleteMany_rows_of p : io World nat :=
  db (fun w => let '(n, t) := deleteMany p (tbl w) in Some (n, set_tbl t w)).
End calls.

(** ** The tables *)
Section tables.
Context `{Prisma}.
#[export] Program Instance agents_table : Table InboxAgent.t :=
  {| tbl := inboxAgents; set_tbl := fun t w => w <| inboxAgents := t |> |}.
Solve All Obligations with done.
#[export] Program Instance teams_table : Table InboxTeam.t :=
  {| tbl := teams; set_tbl := fun t w => w <| teams := t |> |}.
Solve All Obligations with done.
#[export] Program Instance members_table : Table InboxTeamMember.t :=
  {| tbl := teamMembers; set_tbl := fun t w => w <| teamMembers := t |> |}.
Solve All Obligations with done.
#[export] Program Instance skills_table : Table InboxSkill.t :=
  {| tbl := skills; set_tbl := fun t w => w <| skills := t |> |}.
Solve All Obligations with done.
#[export] Program Instance agentSkills_table : Table InboxAgentSkill.t :=
  {| tbl := agentSkills; set_tbl := fun t w => w <| agentSkills := t |> |}.
Solve All Obligations with done.
#[export] Program Instance requirements_table : Table SkillRequirement.t :=
  {| tbl := skillRequirements; set_tbl := fun t w => w <| skillRequirements := t |> |}.
Solve All Obligations with done.
#[export] Program Instance notes_table : Table ConversationNote.t :=
  {| tbl := conversationNotes; set_tbl := fun t w => w <| conversationNotes := t |> |}.
Solve All Obligations with done.
#[export] Program Instance conversations_table : Table Conversation.t :=
  {| tbl := conversations; set_tbl := fun t w => w <| conversations := t |> |}.
Solve All Obligations with done.
#[export] Program Instance assignments_table : Table TeamAssignment.t :=
  {| tbl := teamAssignments; set_tbl := fun t w => w <| teamAssignments := t |> |}.
Solve All Obligations with done.
#[export] Program Instance messages_table : Table Message.t :=
  {| tbl := messages; set_tbl := fun t w => w <| messages := t |> |}.
Solve All Obligations with done.
#[export] Program Instance campaigns_table : Table Campaign.t :=
  {| tbl := campaigns; set_tbl := fun t w => w <| campaigns := t |> |}.
Solve All Obligations with done.
#[export] Program Instance recipients_table : Table CampaignRecipient.t :=
  {| tbl := recipients; set_tbl := fun t w => w <| recipients := t |> |}.
Solve All Obligations with done.
#[export] Program Instance auditLogs_table : Table AuditLog.t :=
  {| tbl := auditLogs; set_tbl := fun t w => w <| auditLogs := t |> |}.
Solve All Obligations with done.
#[export] Program Instance tenants_table : Table Tenant.t :=
  {| tbl := tenants; set_tbl := fun t w => w <| tenants := t |> |}.
Solve All Obligations with done.
#[export] Program Instance apiKeys_table : Table ApiKey.t :=
  {| tbl := apiKeys; set_tbl := fun t w => w <| apiKeys := t |> |}.
Solve All Obligations with done.
#[export] Program Instance canned_table : Table CannedResponse.t :=
  {| tbl := cannedResponses; set_tbl := fun t w => w <| cannedResponses := t |> |}.
Solve All Obligations with done.
#[export] Program Instance assets_table : Table MediaAsset.t :=
  {| tbl := mediaAssets; set_tbl := fun t w => w <| mediaAssets := t |> |}.
Solve All Obligations with done.
End tables.

(** ** Unique keys *)
(** No two rows break the constraint. *)
Definition unique_in {R} (c : constraint R) (m : gmap string R) : Prop :=
  forall k k' r r', m !! k = Some r -> m !! k' = Some r' -> c r r' = true -> k = k'.

Lemma unique_create {R} (c : constraint R) m k r :
  (forall a b, c a b = c b a) -> unique_in c m -> (forall k' r', m !! k' = Some r' -> c r r' = false) ->
  unique_in c (<[k := r]> m).
Proof.
  intros Hs Hu Hc k1 k2 r1 r2 [[<- <-]|[_ H1]]%lookup_insert_Some [[<- <-]|[_ H2]]%lookup_insert_Some E; [done| | |by eapply Hu].
  - by rewrite (Hc _ _ H2) in E.
  - by rewrite Hs, (Hc _ _ H1) in E.
Qed.
Lemma unique_update {R} (c : constraint R) m k r r' :
  (forall a b, c a b = c b a) -> unique_in c m -> m !! k = Some r -> (forall x, c r' x = c r x) ->
  unique_in c (<[k := r']> m).
Proof.
  intros Hs Hu Hk Hr k1 k2 r1 r2 [[<- <-]|[_ H1]]%lookup_insert_Some [[<- <-]|[_ H2]]%lookup_insert_Some E; [done| | |by eapply Hu].
  - rewrite Hr in E. by eapply Hu.
  - rewrite Hs, Hr, Hs in E. by eapply Hu.
Qed.
Lemma unique_sub {R} (c : constraint R) (m m' : gmap string R) :
  (forall k r, m' !! k = Some r -> m !! k = Some r) -> unique_in c m -> unique_in c m'.
Proof. intros Hs Hu k k' r r' H1 H2. by apply Hu; apply Hs. Qed.


(** An update leaves alone what does not depend on its table. *)
Lemma frames_update_row `{Prisma} `{Environment} {R V} `{!Table R} (v : World -> V) c k (f : R -> R) :
  (forall w n, v (w <| tick := n |>) = v w) -> (forall t w, v (set_tbl t w) = v w) -> frames v (update_row c k f).
Proof.
  intros Ht Hs w. unfold update_row. apply (frames_db_known v Ht). intros w1 a w' Hu.
  apply bind_Some in Hu as (t & _ & Hu). apply bind_Some in Hu as (r & _ & [= <- <-]). apply Hs.
Qed.

(** The update of a row that is there and stays free of conflicts. *)
Lemma wp_update_found `{Prisma} `{Environment} {R} `{!Table R} c k (f : R -> R) r Q w :
  row k w = Some r -> (forall k' r', k' <> k -> row k' w = Some r' -> c (f r) r' = false) ->
  (forall e, Q (Throws (Error e)) (bump w)) ->
  (forall t, rows t = <[k := f r]> (rows (tbl w)) ->
     (forall e, Q (Throws (Error e)) (set_tbl t (bump w))) /\ Q (Ok (f r)) (set_tbl t (bump w))) ->
  wp (update_row c k f) Q w.
Proof.
  intros Hr Hc He Ho. unfold row in *. unfold wp, update_row. fold (tbl w). unfold row. rewrite Hr.
  change (wp (db_known "P2002" (fun w => t ← update c k f (tbl w); r ← rows t !! k; Some (r, set_tbl t w))) Q w).
  apply wp_db_known; [exact He| |].
  - intros E m. exfalso. destruct (update_total R c k f (tbl w) r Hr Hc) as [t Ht]. unfold bump in E. rewrite tbl_tick, Ht in E.
    cbn in E. apply update_some in Ht as (r' & Hr' & Ht & _). by rewrite Ht, lookup_insert_eq in E.
  - intros a w' E. unfold bump in E. rewrite tbl_tick in E. apply bind_Some in E as (t & Ht & E).
    apply bind_Some in E as (r1 & Hr1 & [= <- <-]). apply update_some in Ht as (r' & Hr' & Ht & _).
    rewrite Hr in Hr'. injection Hr' as <-. rewrite Ht, lookup_insert_eq in Hr1. injection Hr1 as <-. by apply Ho.
Qed.

Lemma wp_update_reliable `{Prisma} `{Environment} {R} `{!Table R} c k (f : R -> R) r Q w :
  no_faults -> row k w = Some r -> (forall k' r', k' <> k -> row k' w = Some r' -> c (f r) r' = false) ->
  (forall t, rows t = <[k := f r]> (rows (tbl w)) -> Q (Ok (f r)) (set_tbl t (bump w))) ->
  wp (update_row c k f) Q w.
Proof.
  intros Hf Hr Hc Ho. unfold wp, update_row. rewrite Hr. unfold row in Hr.
  destruct (update_total R c k f (tbl w) r Hr Hc) as [t Ht]. pose proof (update_some R c k f (tbl w) t Ht) as (r' & Hr' & Hrows & _).
  rewrite Hr in Hr'. injection Hr' as <-. specialize (Ho t Hrows).
  unfold db_known, db. rewrite Hf. unfold bump in *. rewrite tbl_tick, Ht. cbn. by rewrite Hrows, lookup_insert_eq.
Qed.

(** ** Normal ends *)
(** Inside a transaction only a normal end counts, so the rules speak of [on_ok].  They are about a
    state [w] at some tick, which is what reads leave behind. *)
Class Faulty (E : js_error -> Prop) := faulty m : E (Error m).
#[export] Instance faulty_any : Faulty (fun _ => True).
Proof. done. Qed.

Section normal_ends.
Context `{Prisma} `{Environment}.

Lemma start {A} (m : io World A) Q w : (forall n, wp m Q (w <| tick := n |>)) -> wp m Q w.
Proof. intros Hm. specialize (Hm (tick w)). destruct w. exact Hm. Qed.

(** A failing database throws an [Error], so a computation that calls it may. *)
Context {F : js_error -> Prop} `{!Faulty F}.

Lemma ok_ret {A} (a : A) P w : P a w -> wp (mret a : io World A) (outcome F P) w.
Proof. done. Qed.
Lemma ok_throw {A} e (P : A -> World -> Prop) w : F e -> wp (throw e : io World A) (outcome F P) w.
Proof. done. Qed.
Lemma ok_bind {A B} (m : io World A) (f : A -> io World B) P w :
  wp m (outcome F (fun a w' => wp (f a) (outcome F P) w')) w -> wp (m ≫= f) (outcome F P) w.
Proof. intros Hm. apply wp_bind. eapply wp_mono; [exact Hm|]. by intros [a|e|] w'. Qed.
Lemma ok_mono {A} (m : io World A) (P Q : A -> World -> Prop) w :
  wp m (outcome F P) w -> (forall a w', P a w' -> Q a w') -> wp m (outcome F Q) w.
Proof. intros Hm Hi. eapply wp_mono; [exact Hm|]. intros [a|e|] w'; cbn; auto. Qed.
Lemma ok_lift {A} (x : exec js_error A) (P : A -> World -> Prop) w :
  match x with Ok a => P a w | Throws e => F e | OutOfFuel => False end -> wp (lift x) (outcome F P) w.
Proof. intros HP. apply wp_lift. exact HP. Qed.
Lemma ok_now (P : Z -> World -> Prop) w n :
  (forall t n, P t (w <| tick := n |>)) -> wp now (outcome F P) (w <| tick := n |>).
Proof. intros HP. apply wp_now. intros t. apply HP. Qed.
Lemma ok_db {A} (f : World -> option (A * World)) (P : A -> World -> Prop) w n :
  (forall a w' n, f (w <| tick := n |>) = Some (a, w') -> P a w') -> wp (db f) (outcome F P) (w <| tick := n |>).
Proof. intros HP. apply wp_db; [intros e; apply faulty|]. intros a w' E. split; [intros e; apply faulty|]. exact (HP _ _ _ E). Qed.
Lemma ok_db_known {A} code (f : World -> option (A * World)) (P : A -> World -> Prop) w n :
  (forall a w' n, f (w <| tick := n |>) = Some (a, w') -> P a w') ->
  (forall m n, f (w <| tick := n |>) = None -> F (KnownRequestError code m)) ->
  wp (db_known code f) (outcome F P) (w <| tick := n |>).
Proof.
  intros HP HF. apply wp_db_known; [intros e; apply faulty|intros E m; exact (HF m _ E)|].
  intros a w' E. split; [intros e; apply faulty|]. exact (HP _ _ _ E).
Qed.
Lemma ok_write_audit audit (P : unit -> World -> Prop) w n :
  (forall t n, P tt (w <| auditLogs := t |> <| tick := n |>)) -> wp (write_audit audit) (outcome F P) (w <| tick := n |>).
Proof.
  intros HP. apply wp_write_audit; [intros e; apply faulty|]. intros t n'. split; [intros e; apply faulty|]. apply HP.
Qed.

(** How a transaction ends: with what its body promises, without any effect, or with a failure that
    was reported after the commit. *)
Definition settled {A} (P : A -> World -> Prop) (w : World) (r : exec js_error A) (w' : World) : Prop :=
  match r with
  | Ok a => P a w'
  | Throws e => (F e /\ exists n, w' = w <| tick := n |>) \/ ((exists m, e = Error m) /\ exists a, P a w')
  | OutOfFuel => False
  end.
Lemma transaction_settled {A} (m : io World A) (P : A -> World -> Prop) w :
  (forall a w n, P a w -> P a (w <| tick := n |>)) ->
  wp m (outcome F P) w -> wp (transaction m) (settled P w) w.
Proof.
  intros Ht Hm. apply wp_transaction. eapply wp_mono; [exact Hm|].
  intros [a|e|] w'; [|by intros HF n; left; split; [|exists n]|done].
  cbn. intros HP. split; [intros e n; left; split; [apply faulty|by exists n]|]. split; [|by apply Ht].
  intros e. right. split; [by exists e|]. exists a. by apply Ht.
Qed.

Context {R : Type} `{!Table R}.
Implicit Types (p : string -> R -> bool) (f : R -> R) (c : constraint R).

Lemma ok_find_row p P w n :
  (forall n, P (findFirst p (tbl w)) (w <| tick := n |>)) -> wp (find_row p) (outcome F P) (w <| tick := n |>).
Proof. intros HP. apply ok_db. intros a w' n' [= <- <-]. by rewrite tbl_tick. Qed.
Lemma ok_find_rows p P w n :
  (forall n, P (findMany p (tbl w)) (w <| tick := n |>)) -> wp (find_rows p) (outcome F P) (w <| tick := n |>).
Proof. intros HP. apply ok_db. intros a w' n' [= <- <-]. by rewrite tbl_tick. Qed.
Lemma ok_count_rows p P w n :
  (forall n, P (length (findMany p (tbl w))) (w <| tick := n |>)) -> wp (count_rows p) (outcome F P) (w <| tick := n |>).
Proof. intros HP. apply ok_db. intros a w' n' [= <- <-]. by rewrite tbl_tick. Qed.
(** What a refused write means. *)
Lemma create_row_refused c r (t : table R) :
  create c r t = None -> exists k' r', rows t !! k' = Some r' /\ c r r' = true.
Proof.
  intros E. destruct (findFirst (fun _ r' => c r r') t) as [[k r']|] eqn:Ef; [apply findFirst_some in Ef; by exists k, r'|].
  exfalso. destruct (create_total R c r t) as [x Hx]; [|congruence].
  intros k' r' Hk'. by apply (findFirst_none _ _ _ _ Ef Hk').
Qed.
Lemma ok_create_row c r P w n :
  (forall k t n, k <> ""%string -> row k w = None -> rows t = <[k := r]> (rows (tbl w)) ->
     (forall k' r', row k' w = Some r' -> c r r' = false) -> P (k, r) (set_tbl t w <| tick := n |>)) ->
  (forall m k' r', row k' w = Some r' -> c r r' = true -> F (KnownRequestError "P2002" m)) ->
  wp (create_row c r) (outcome F P) (w <| tick := n |>).
Proof.
  intros HP HF. apply ok_db_known.
  - intros a w' n' Hc. apply bind_Some in Hc as ([k t] & Hc & [= <- <-]).
    rewrite tbl_tick in Hc. rewrite set_tick. pose proof (create_named _ _ _ _ _ _ Hc) as Hn.
    apply create_some in Hc as (H1 & H2 & H3). by apply HP.
  - intros m n' Hc. rewrite tbl_tick in Hc. destruct (create c r (tbl w)) as [[k t]|] eqn:E; [done|].
    destruct (create_row_refused c r (tbl w) E) as (k' & r' & Hk & Hr). by eapply HF.
Qed.
Lemma ok_update_row c k f P w n :
  (forall t r n, row k w = Some r -> rows t = <[k := f r]> (rows (tbl w)) ->
     (forall k' r', k' <> k -> row k' w = Some r' -> c (f r) r' = false) -> P (f r) (set_tbl t w <| tick := n |>)) ->
  (forall m, row k w = None -> F (KnownRequestError "P2025" m)) ->
  (forall m, is_Some (row k w) -> c <> unconstrained -> F (KnownRequestError "P2002" m)) ->
  wp (update_row c k f) (outcome F P) (w <| tick := n |>).
Proof.
  intros HP HN HC.
  change (wp (db_known (match rows (tbl (w <| tick := n |>)) !! k with Some _ => "P2002" | None => "P2025" end)
    (fun w => t ← update c k f (tbl w); r ← rows t !! k; Some (r, set_tbl t w))) (outcome F P) (w <| tick := n |>)).
  rewrite tbl_tick. apply (ok_db_known _ _ P w n).
  2:{ intros m n' Hu. rewrite tbl_tick in Hu. unfold row in *. destruct (rows (tbl w) !! k) as [r|] eqn:Er; [|by apply HN].
      apply HC; [done|]. intros ->. pose proof (update_unconstrained k f (tbl w)) as Hx.
      destruct (update unconstrained k f (tbl w)) as [t|]; [|congruence]. destruct Hx as (r' & _ & Hx). cbn in Hu.
      by rewrite Hx, lookup_insert_eq in Hu. }
  intros a w' n' Hu. apply bind_Some in Hu as (t & Hu & Ha).
  apply bind_Some in Ha as (r' & Ha & [= <- <-]). rewrite tbl_tick in Hu. rewrite set_tick.
  apply update_some in Hu as (r & H1 & H2 & H3). rewrite H2, lookup_insert_eq in Ha. injection Ha as <-. by apply HP.
Qed.
(** ... of a row that is there, leaving its keys alone. *)
Lemma ok_update_found k f P w n r :
  row k w = Some r ->
  (forall t n, rows t = <[k := f r]> (rows (tbl w)) -> P (f r) (set_tbl t w <| tick := n |>)) ->
  wp (update_row unconstrained k f) (outcome F P) (w <| tick := n |>).
Proof.
  intros Hr HP. apply ok_update_row; [|congruence|done]. intros t r' n' Hr' Ht _. rewrite Hr in Hr'. injection Hr' as <-.
  by apply HP.
Qed.
(** One row created, or another one has the key. *)
Lemma ok_createMany_row c r P w n :
  (forall k t n, row k w = None -> rows t = <[k := r]> (rows (tbl w)) ->
     (forall k' r', row k' w = Some r' -> c r r' = false) -> P 1%nat (set_tbl t w <| tick := n |>)) ->
  (forall k' r' n, row k' w = Some r' -> c r r' = true -> P 0%nat (w <| tick := n |>)) ->
  wp (createMany_row c r) (outcome F P) (w <| tick := n |>).
Proof.
  intros H1 H0'. apply ok_db. intros a w' n' Hc. rewrite tbl_tick in Hc.
  destruct (create c r (tbl w)) as [[k t]|] eqn:E; injection Hc as <- <-.
  - rewrite set_tick. apply create_some in E as (E1 & E2 & E3). by eapply H1.
  - destruct (create_row_refused c r (tbl w) E) as (k' & r' & Hk & Hr). by eapply H0'.
Qed.
Lemma ok_updateMany_rows_of p f P w n :
  (forall i t n, (forall k, rows t !! k = (fun r => if p k r : bool then f r else r) <$> row k w) ->
     P i (set_tbl t w <| tick := n |>)) ->
  wp (updateMany_rows_of p f) (outcome F P) (w <| tick := n |>).
Proof.
  intros HP. apply ok_db. intros a w' n' Hu. rewrite tbl_tick in Hu.
  destruct (updateMany p f (tbl w)) as [i t] eqn:E. injection Hu as <- <-. rewrite set_tick. apply HP.
  intros k. apply (f_equal snd) in E. cbn in E. subst t. apply updateMany_rows.
Qed.
Lemma ok_updateMany_unique c k (q : R -> bool) f P w n :
  (forall t r n, row k w = Some r -> q r = true -> rows t = <[k := f r]> (rows (tbl w)) ->
     (forall k' r', k' <> k -> row k' w = Some r' -> c (f r) r' = false) -> P 1%nat (set_tbl t w <| tick := n |>)) ->
  (forall n, (forall r, row k w = Some r -> q r = false) -> P 0%nat (w <| tick := n |>)) ->
  (forall m r k' r', row k w = Some r -> q r = true -> k' <> k -> row k' w = Some r' -> c (f r) r' = true ->
     F (KnownRequestError "P2002" m)) ->
  wp (updateMany_unique c k q f) (outcome F P) (w <| tick := n |>).
Proof.
  intros H1 H0' HF. apply ok_db_known.
  - intros a w' n' E. unfold row in E. rewrite tbl_tick in E. fold (row k w) in E.
    destruct (row k w) as [r|] eqn:Er; [destruct (q r) eqn:Eq|].
    + apply bind_Some in E as (t & Ht & [= <- <-]). rewrite set_tick. apply update_some in Ht as (r' & Hr' & Ht & Hc).
      unfold row in Er. assert (r' = r) as -> by congruence. by apply H1 with (r := r).
    + injection E as <- <-. apply H0'. intros r' [= <-]. done.
    + injection E as <- <-. by apply H0'.
  - intros m n' E. unfold row in E. rewrite tbl_tick in E. fold (row k w) in E.
    destruct (row k w) as [r|] eqn:Er; [destruct (q r) eqn:Eq; [|done]|done].
    destruct (findFirst (fun k' r' => negb (bool_decide (k' = k)) && c (f r) r') (tbl w)) as [[k' r']|] eqn:Ef.
    + apply findFirst_some in Ef as [Hk [?%negb_true_iff%bool_decide_eq_false Hc]%andb_true_iff]. by eapply HF.
    + exfalso. destruct (update_total R c k f (tbl w) r Er) as [t Ht]; [|by rewrite Ht in E].
      intros k' r' Hne Hk'. pose proof (findFirst_none _ _ _ _ Ef Hk') as Hx. cbn in Hx.
      by rewrite bool_decide_false in Hx by done.
Qed.
Lemma ok_deleteMany_rows_of p P w n :
  (forall i t n, (forall k r, rows t !! k = Some r <-> row k w = Some r /\ p k r = false) ->
     (i = 0%nat -> forall k r, row k w = Some r -> p k r = false) -> P i (set_tbl t w <| tick := n |>)) ->
  wp (deleteMany_rows_of p) (outcome F P) (w <| tick := n |>).
Proof.
  intros HP. apply ok_db. intros a w' n' Hu. rewrite tbl_tick in Hu.
  pose proof (deleteMany_count R p (tbl w)) as Hn. destruct (deleteMany p (tbl w)) as [i t] eqn:E.
  injection Hu as <- <-. apply (f_equal snd) in E. cbn in E, Hn. subst i t. rewrite set_tick. apply HP.
  - intros k r. apply deleteMany_lookup.
  - intros Hz%map_size_empty_inv k r Hk. destruct (p k r) eqn:Ep; [|done].
    by destruct (map_filter_empty_not_lookup _ _ k r Hz Ep).
Qed.
End normal_ends.

(** The statements of a body, one after the other. *)
Ltac ok_step :=
  match goal with
  | |- wp (mret _) (outcome _ _) _ => apply ok_ret
  | |- wp (throw _) (outcome _ _) _ => apply ok_throw
  | |- wp (mbind _ _) (outcome _ _) _ => apply ok_bind
  | |- wp now (outcome _ _) _ => apply ok_now; intros ? ?
  | |- wp (find_row _) (outcome _ _) _ => apply ok_find_row; intros ?
  | |- wp (find_rows _) (outcome _ _) _ => apply ok_find_rows; intros ?
  | |- wp (count_rows _) (outcome _ _) _ => apply ok_count_rows; intros ?
  | |- wp (write_audit _) (outcome _ _) _ => apply ok_write_audit; intros ? ?
  end.
Ltac ok_steps := repeat (cbv zeta; ok_step).

(** The rows of a table written out. *)
Ltac some_row H :=
  unfold row in H; cbn in H;
  repeat match type of H with
  | <[_ := _]> _ !! _ = Some _ => apply lookup_insert_Some in H as [[<- <-]|[_ H]]
  | {[_ := _]} !! _ = Some _ => apply lookup_singleton_Some in H as [<- <-]
  end; try (by rewrite lookup_empty in H).
