(* ===== verification/Senders.v ===== *)
(** The WhatsApp senders of a tenant ([phone-numbers/phone-numbers.service.ts]): registration,
    changes, the default sender, and the lookups the messaging pipeline makes. *)
From stdpp Require Import prelude gmap strings sorting.
From Stdlib Require Import ZArith Lia.
From S2P Require Import Prelude Json Io Prisma Domain LeaseQueue Dispatcher AuditTrail.
#[local] Open Scope Z_scope.

Record CreatePhoneNumberDto := {
  c_providerPhoneNumberId : string;
  c_wabaId : option string;
  c_displayPhoneNumber : option string;
  c_verifiedName : option string;
  c_credentialRef : string;
  c_rateLimitPerSecond : option Z;
  c_isDefault : option bool
}.
Record UpdatePhoneNumberDto := {
  u_wabaId : option string;
  u_displayPhoneNumber : option string;
  u_verifiedName : option string;
  u_credentialRef : option string;
  u_rateLimitPerSecond : option Z;
  u_active : option bool;
  u_isDefault : option bool
}.

(** A column the request leaves [undefined] keeps its value. *)
Definition given {A} (v : option A) (old : A) : A := default old v.
Definition given_some {A} (v : option A) (old : option A) : option A := match v with Some x => Some x | None => old end.

Section senders.
Context `{Prisma} `{Environment}.

Definition belongs (tenantId : string) (s : Sender.t) : bool := bool_decide (Sender.tenantId s = tenantId).
Definition is_active (tenantId : string) (_ : string) (s : Sender.t) : bool := belongs tenantId s && Sender.active s.

(** The first of the rows that match in an order; with equal keys, any of them. *)
Definition first_by (le : relation (string * Sender.t)) `{!RelDecision le} (p : string -> Sender.t -> bool)
    (t : table Sender.t) : option (string * Sender.t) := head (merge_sort le (findMany p t)).

Definition oldest_first (a b : string * Sender.t) : Prop := Sender.createdAt a.2 <= Sender.createdAt b.2.
#[export] Instance oldest_first_dec : RelDecision oldest_first.
Proof. intros a b. unfold oldest_first. apply _. Defined.
(** [orderBy: [{ isDefault: "desc" }, { createdAt: "asc" }]] *)
Definition default_first (a b : string * Sender.t) : Prop :=
  (Sender.isDefault a.2 = true /\ Sender.isDefault b.2 = false) \/
  (Sender.isDefault a.2 = Sender.isDefault b.2 /\ Sender.createdAt a.2 <= Sender.createdAt b.2).
#[export] Instance default_first_dec : RelDecision default_first.
Proof. intros a b. unfold default_first. apply _. Defined.

Definition sender_find (p : string -> Sender.t -> bool) : io World (option (string * Sender.t)) :=
  db (fun w => Some (findFirst p (senders w), w)).
Definition sender_updateMany (p : string -> Sender.t -> bool) (f : Sender.t -> Sender.t) : io World nat :=
  db (fun w => let '(n, t) := updateMany p f (senders w) in Some (n, w <| senders := t |>)).
Definition sender_update (id : string) (f : Sender.t -> Sender.t) : io World Sender.t :=
  db (fun w => t ← update sender_unique id f (senders w); s ← rows t !! id; Some (s, w <| senders := t |>)).
Definition sender_create (s : Sender.t) : io World (string * Sender.t) :=
  db_known "P2002" (fun w => '(id, t) ← create sender_unique s (senders w); Some ((id, s), w <| senders := t |>)).

(** *** Lookups *)
Definition found {A} (e : js_error) (r : option A) : io World A :=
  match r with Some a => mret a | None => throw e end.

Definition resolveForTenant (tenantId : string) (senderId : option string) : io World (string * Sender.t) :=
  sender ← (match truthy senderId with
            | Some id => sender_find (fun k s => bool_decide (k = id) && is_active tenantId k s)
            | None => db (fun w => Some (first_by default_first (is_active tenantId) (senders w), w))
            end);
  found (UnprocessableEntityException "No active WhatsApp sender is configured for this tenant") sender.

Definition resolveWabaForTenant (tenantId : string) (senderId : option string)
    : io World ((string * Sender.t) * string) :=
  sender ← resolveForTenant tenantId senderId;
  wabaId ← found (UnprocessableEntityException "The selected WhatsApp sender is missing its WABA ID")
             (truthy (Sender.wabaId sender.2));
  mret (sender, wabaId).

Definition findActiveById (id : string) : io World (string * Sender.t) :=
  sender ← sender_find (fun k s => bool_decide (k = id) && Sender.active s);
  found (UnprocessableEntityException "Configured WhatsApp sender is missing or inactive") sender.

Definition findByProviderPhoneNumberId (providerPhoneNumberId : string) : io World (string * Sender.t) :=
  sender ← sender_find (fun _ s => bool_decide (Sender.providerPhoneNumberId s = providerPhoneNumberId));
  found (UnprocessableEntityException ("Unconfigured Meta phone_number_id " +:+ providerPhoneNumberId)) sender.

Definition findTenantIdByWabaId (wabaId : string) : io World string :=
  found_rows ← db (fun w => Some (findMany (fun _ s => bool_decide (Sender.wabaId s = Some wabaId)) (senders w), w));
  let owners := remove_dups ((fun r : string * Sender.t => Sender.tenantId r.2) <$> found_rows) in
  match owners with
  | [] => throw (UnprocessableEntityException ("Unconfigured WABA " +:+ wabaId))
  | [t] => mret t
  | _ => throw (UnprocessableEntityException ("WABA " +:+ wabaId +:+ " is ambiguously assigned to multiple tenants"))
  end.

Definition findById (tenantId id : string) : io World (string * Sender.t) :=
  sender ← sender_find (fun k s => bool_decide (k = id) && belongs tenantId s);
  found (NotFoundException "WhatsApp phone number not found") sender.

Definition assertWabaOwnership (tenantId : string) (wabaId : option string) : io World unit :=
  match truthy wabaId with
  | None => mret tt
  | Some waba =>
      conflict ← sender_find (fun _ s => bool_decide (Sender.wabaId s = Some waba) && negb (belongs tenantId s));
      match conflict with
      | Some _ => throw (ConflictException "This WABA is already associated with another tenant")
      | None => mret tt
      end
  end.

(** *** Registration *)
Definition is_default_of (tenantId : string) (_ : string) (s : Sender.t) : bool := belongs tenantId s && Sender.isDefault s.
Definition not_default (s : Sender.t) : Sender.t := s <| Sender.isDefault := false |>.

Definition create_body (actor : MutationActor.t) (dto : CreatePhoneNumberDto)
    (auditContext : option AuditRequestContext) : io World (string * Sender.t) :=
  let tenantId := MutationActor.tenantId actor in
  existingActive ← sender_find (is_active tenantId);
  let isDefault := bool_decide (existingActive = None) || bool_decide (c_isDefault dto = Some true) in
  _ ← (if isDefault then sender_updateMany (is_default_of tenantId) not_default else mret O);
  createdAt ← now;
  created ← sender_create
    {| Sender.tenantId := tenantId; Sender.providerPhoneNumberId := c_providerPhoneNumberId dto;
       Sender.wabaId := c_wabaId dto; Sender.displayPhoneNumber := c_displayPhoneNumber dto;
       Sender.verifiedName := c_verifiedName dto; Sender.credentialRef := c_credentialRef dto;
       Sender.rateLimitPerSecond := c_rateLimitPerSecond dto; Sender.active := true;
       Sender.isDefault := isDefault; Sender.createdAt := createdAt |};
  _ ← write_audit (auditLogData actor auditContext "whatsapp_phone_number.created" "WhatsAppPhoneNumber"
    (Some created.1) (Some (JObj
      [("wabaConfigured", JBool (bool_decide (is_Some (truthy (Sender.wabaId created.2)))));
       ("credentialConfigured", JBool true);
       ("rateLimitPerSecond", or_null (fun n => JNum (Whole n)) (Sender.rateLimitPerSecond created.2));
       ("active", JBool (Sender.active created.2));
       ("isDefault", JBool (Sender.isDefault created.2))]%string)));
  mret created.

Definition create (tenantOrPrincipal : TenantOrPrincipal) (dto : CreatePhoneNumberDto)
    (auditContext : option AuditRequestContext) : io World (string * Sender.t) :=
  let actor := mutationActor tenantOrPrincipal in
  providerConflict ← sender_find (fun _ s =>
    bool_decide (Sender.providerPhoneNumberId s = c_providerPhoneNumberId dto));
  _ ← (match providerConflict with
       | Some _ => throw (ConflictException "This Meta phone_number_id is already registered")
       | None => mret tt
       end);
  _ ← assertWabaOwnership (MutationActor.tenantId actor) (c_wabaId dto);
  try_catch (transaction (create_body actor dto auditContext))
    (fun error => throw (match error with
       | KnownRequestError "P2002" _ => ConflictException
           "Unable to register WhatsApp phone number because a unique sender constraint was violated"
       | _ => error
       end)).

(** *** Changes *)
Definition update_data (dto : UpdatePhoneNumberDto) (s : Sender.t) : Sender.t :=
  s <| Sender.wabaId ::= given_some (u_wabaId dto) |>
    <| Sender.displayPhoneNumber ::= given_some (u_displayPhoneNumber dto) |>
    <| Sender.verifiedName ::= given_some (u_verifiedName dto) |>
    <| Sender.credentialRef ::= given (u_credentialRef dto) |>
    <| Sender.rateLimitPerSecond ::= given_some (u_rateLimitPerSecond dto) |>
    <| Sender.active ::= given (u_active dto) |>
    <| Sender.isDefault ::= given (match u_isDefault dto with
                                   | Some b => Some b
                                   | None => if bool_decide (u_active dto = Some false) then Some false else None
                                   end) |>.

Definition changed (dto : UpdatePhoneNumberDto) : list (string * bool) :=
  [("wabaId", bool_decide (is_Some (u_wabaId dto)));
   ("displayPhoneNumber", bool_decide (is_Some (u_displayPhoneNumber dto)));
   ("verifiedName", bool_decide (is_Some (u_verifiedName dto)));
   ("credentialRef", bool_decide (is_Some (u_credentialRef dto)));
   ("rateLimitPerSecond", bool_decide (is_Some (u_rateLimitPerSecond dto)));
   ("active", bool_decide (is_Some (u_active dto)));
   ("isDefault", bool_decide (is_Some (u_isDefault dto)))]%string.

(** After a change a tenant without an active default gets its oldest active sender. *)
Definition ensure_default (tenantId : string) : io World unit :=
  activeDefault ← sender_find (fun k s => is_active tenantId k s && Sender.isDefault s);
  match activeDefault with
  | Some _ => mret tt
  | None =>
      fallback ← db (fun w => Some (first_by oldest_first (is_active tenantId) (senders w), w));
      match fallback with
      | Some (id, _) => _ ← sender_update id (fun s => s <| Sender.isDefault := true |>); mret tt
      | None => mret tt
      end
  end.

Definition update_body (actor : MutationActor.t) (id : string) (dto : UpdatePhoneNumberDto)
    (auditContext : option AuditRequestContext) : io World Sender.t :=
  let tenantId := MutationActor.tenantId actor in
  existing ← sender_find (fun k s => bool_decide (k = id) && belongs tenantId s);
  existing ← found (NotFoundException "WhatsApp phone number not found") existing;
  let willBeActive := default (Sender.active existing.2) (u_active dto) in
  let requestedDefault := default (if bool_decide (u_active dto = Some false) then false
                                   else Sender.isDefault existing.2) (u_isDefault dto) in
  _ ← (if bool_decide (u_isDefault dto = Some true) && negb willBeActive
       then throw (BadRequestException "An inactive WhatsApp phone number cannot be the default sender")
       else mret tt);
  _ ← (if requestedDefault && willBeActive
       then sender_updateMany (fun k s => belongs tenantId s && negb (bool_decide (k = id)) && Sender.isDefault s) not_default
       else mret O);
  _ ← sender_update id (update_data dto);
  _ ← ensure_default tenantId;
  finalState ← db (fun w => s ← rows (senders w) !! id; Some (s, w));
  _ ← write_audit (auditLogData actor auditContext "whatsapp_phone_number.updated" "WhatsAppPhoneNumber"
    (Some id) (Some (JObj
      [("changedFields", JArr (JStr <$> changedFields (changed dto)
          (fun k => if String.eqb k "credentialRef" then Some "credential" else None)));
       ("credentialChanged", JBool (bool_decide (is_Some (u_credentialRef dto))));
       ("wabaConfigured", JBool (bool_decide (is_Some (truthy (Sender.wabaId finalState)))));
       ("rateLimitPerSecond", or_null (fun n => JNum (Whole n)) (Sender.rateLimitPerSecond finalState));
       ("active", JBool (Sender.active finalState));
       ("isDefault", JBool (Sender.isDefault finalState))]%string)));
  mret finalState.

Definition update (tenantOrPrincipal : TenantOrPrincipal) (id : string) (dto : UpdatePhoneNumberDto)
    (auditContext : option AuditRequestContext) : io World Sender.t :=
  let actor := mutationActor tenantOrPrincipal in
  _ ← assertWabaOwnership (MutationActor.tenantId actor) (u_wabaId dto);
  transaction (update_body actor id dto auditContext).
End senders.

(** ** The default sender *)
Section default_proofs.
Context `{Prisma} `{Environment}.

(** A tenant's default sender is active and unique, and exists as soon as a sender is active. *)
Definition defaults_ok (T : string) (m : gmap string Sender.t) : Prop :=
  (forall k s, m !! k = Some s -> belongs T s = true -> Sender.isDefault s = true -> Sender.active s = true) /\
  (forall k1 s1 k2 s2, m !! k1 = Some s1 -> m !! k2 = Some s2 -> belongs T s1 = true -> belongs T s2 = true ->
     Sender.isDefault s1 = true -> Sender.isDefault s2 = true -> k1 = k2) /\
  (forall k s, m !! k = Some s -> is_active T k s = true ->
     exists k' s', m !! k' = Some s' /\ belongs T s' = true /\ Sender.isDefault s' = true).
Definition senders_ok (w : World) : Prop := forall T, defaults_ok T (rows (senders w)).

Lemma belongs_eq T s : belongs T s = true <-> Sender.tenantId s = T.
Proof. unfold belongs. apply bool_decide_eq_true. Qed.

Lemma is_active_spec T k s : is_active T k s = true <-> belongs T s = true /\ Sender.active s = true.
Proof. apply andb_true_iff. Qed.

Lemma wp_sender_find p (Q : exec js_error (option (string * Sender.t)) -> World -> Prop) w :
  (forall e, Q (Throws (Error e)) (bump w)) -> Q (Ok (findFirst p (senders w))) (bump w) -> wp (sender_find p) Q w.
Proof. intros He Ho. apply wp_db; [done|]. intros a w' [= <- <-]. done. Qed.

Lemma wp_sender_updateMany p f (Q : exec js_error nat -> World -> Prop) w :
  (forall e, Q (Throws (Error e)) (bump w)) ->
  (forall t n, (forall k, rows t !! k = (fun s => if p k s : bool then f s else s) <$> rows (senders w) !! k) ->
     let w' := bump w <| senders := t |> in (forall e, Q (Throws (Error e)) w') /\ Q (Ok n) w') ->
  wp (sender_updateMany p f) Q w.
Proof.
  intros He Ho. apply wp_db; [done|]. intros n w'. change (senders (bump w)) with (senders w).
  destruct (updateMany p f (senders w)) as [n' t] eqn:E. intros [= <- <-].
  apply Ho. intros k. apply (f_equal snd) in E. cbn in E. subst t. apply updateMany_rows.
Qed.

Lemma wp_sender_update id f (Q : exec js_error Sender.t -> World -> Prop) w :
  (forall e, Q (Throws (Error e)) (bump w)) ->
  (forall t s0, rows (senders w) !! id = Some s0 -> rows t = <[id := f s0]> (rows (senders w)) ->
     let w' := bump w <| senders := t |> in (forall e, Q (Throws (Error e)) w') /\ Q (Ok (f s0)) w') ->
  wp (sender_update id f) Q w.
Proof.
  intros He Ho. apply wp_db; [done|]. intros s w' Hf. apply bind_Some in Hf as (t & Hu & Hf).
  apply bind_Some in Hf as (s' & Hs & [= <- <-]). apply update_some in Hu as (s0 & P0 & Hu & _).
  cbn in Hu. rewrite Hu, lookup_insert_eq in Hs. injection Hs as <-. by apply (Ho t s0).
Qed.

Lemma first_by_some (le : relation (string * Sender.t)) `{!RelDecision le} p t k s :
  first_by le p t = Some (k, s) -> p k s = true /\ rows t !! k = Some s.
Proof.
  unfold first_by. intros Hh%head_Some_elem_of. rewrite (merge_sort_Permutation le) in Hh. by apply findMany_elem in Hh.
Qed.
Lemma first_by_none (le : relation (string * Sender.t)) `{!RelDecision le} p t k s :
  first_by le p t = None -> rows t !! k = Some s -> p k s = false.
Proof.
  unfold first_by. intros Hh%head_None Hk. destruct (p k s) eqn:E; [|done].
  assert (Hin : (k, s) ∈ merge_sort le (findMany p t)) by (rewrite (merge_sort_Permutation le); by apply findMany_elem).
  rewrite Hh in Hin. by apply elem_of_nil in Hin.
Qed.


(** *** Changes of one tenant *)
Definition changes_only (T : string) (m m' : gmap string Sender.t) : Prop := forall k,
  m' !! k = m !! k \/
  (forall s, m !! k = Some s -> belongs T s = true) /\ (forall s, m' !! k = Some s -> belongs T s = true).

Lemma changes_only_refl T m : changes_only T m m.
Proof. intros k. by left. Qed.
Lemma changes_only_trans T m1 m2 m3 : changes_only T m1 m2 -> changes_only T m2 m3 -> changes_only T m1 m3.
Proof.
  intros P1 P2 k. destruct (P1 k) as [E1|[A1 B1]], (P2 k) as [E2|[A2 B2]].
  - left. congruence.
  - right. rewrite <- E1. done.
  - right. rewrite E2. done.
  - right. done.
Qed.
Lemma changes_only_insert T m k s :
  (forall s0, m !! k = Some s0 -> belongs T s0 = true) -> belongs T s = true -> changes_only T m (<[k := s]> m).
Proof.
  intros Hs0 Hs k'. destruct (decide (k' = k)) as [->|]; [right|left; by rewrite lookup_insert_ne].
  split; [done|]. rewrite lookup_insert_eq. by intros ? [= <-].
Qed.
Lemma changes_only_map T m m' p f :
  (forall k, m' !! k = (fun s => if p k s : bool then f s else s) <$> m !! k) ->
  (forall k s, p k s = true -> belongs T s = true /\ belongs T (f s) = true) -> changes_only T m m'.
Proof.
  intros E Hp k. rewrite E. destruct (m !! k) as [s|]; [|by left]. cbn. destruct (p k s) eqn:Ep; [right|by left].
  destruct (Hp k s Ep). split; by intros ? [= <-].
Qed.

Lemma changes_only_ok T m m' :
  changes_only T m m' -> (forall U, defaults_ok U m) -> defaults_ok T m' -> forall U, defaults_ok U m'.
Proof.
  intros Hc Hm HT U. destruct (decide (U = T)) as [->|Hne]; [done|].
  assert (Hiff : forall k s, belongs U s = true -> m !! k = Some s <-> m' !! k = Some s).
  { intros k s Hs. apply belongs_eq in Hs. destruct (Hc k) as [->|[A B]]; [done|].
    split; intros E; exfalso; [apply A in E|apply B in E]; apply belongs_eq in E; congruence. }
  destruct (Hm U) as (P1 & P2 & P3). split; [|split].
  - intros k s Hk Hs. apply (P1 k s); [by apply Hiff|done].
  - intros k1 s1 k2 s2 Hk1 Hk2 B1 B2. apply (P2 k1 s1 k2 s2); [by apply Hiff|by apply Hiff|done|done].
  - intros k s Hk Ha. destruct (P3 k s) as (k' & s' & Hk' & Hs' & Hd); [apply Hiff; [by apply is_active_spec in Ha as [? ?]|done]|done|].
    exists k', s'. split; [by apply Hiff|done].
Qed.

(** What a change leaves before [ensure_default]. *)
Definition unique_default (T : string) (m : gmap string Sender.t) : Prop :=
  (forall k s, m !! k = Some s -> belongs T s = true -> Sender.isDefault s = true -> Sender.active s = true) /\
  (forall k1 s1 k2 s2, m !! k1 = Some s1 -> m !! k2 = Some s2 -> belongs T s1 = true -> belongs T s2 = true ->
     Sender.isDefault s1 = true -> Sender.isDefault s2 = true -> k1 = k2).

Lemma ensure_default_spec T w :
  unique_default T (rows (senders w)) ->
  wp (ensure_default T) (on_ok (fun _ w' => changes_only T (rows (senders w)) (rows (senders w')) /\
    defaults_ok T (rows (senders w')) /\
    forall k, is_Some (rows (senders w) !! k) -> is_Some (rows (senders w') !! k))) w.
Proof.
  intros [Ha Hu]. apply wp_bind, wp_sender_find; [done|].
  destruct (findFirst _ _) as [[k s]|] eqn:Ef.
  { apply findFirst_some in Ef as [Hk [Hact Hd]%andb_true_iff]. apply wp_ret.
    split; [apply changes_only_refl|]. split; [|done]. split; [done|]. split; [done|].
    intros k' s' _ _. exists k, s. apply is_active_spec in Hact as [Hb _]. done. }
  assert (Hnone : forall k s, rows (senders w) !! k = Some s -> belongs T s = true -> Sender.isDefault s = false).
  { intros k s Hk Hs. pose proof (findFirst_none _ _ _ _ Ef Hk) as Hf. cbn beta in Hf.
    destruct (Sender.isDefault s) eqn:Ed; [|done]. exfalso.
    assert (Hact : is_active T k s = true) by (apply is_active_spec; split; [done|by eapply Ha]).
    by rewrite Hact in Hf. }
  apply wp_bind, wp_db; [done|]. intros fb w1 [= <- <-]. split; [done|].
  change (senders (bump (bump w))) with (senders w). change (senders (bump w)) with (senders w).
  destruct (first_by _ _ _) as [[k s]|] eqn:Eb.
  - apply first_by_some in Eb as [Hact Hk]. apply is_active_spec in Hact as [Hb Hact].
    apply wp_bind, wp_sender_update; [done|]. intros t s0 Hk0 Ht. cbn in Hk0, Ht.
    assert (s0 = s) as -> by congruence. split; [done|]. apply wp_ret. cbn [outcome].
    change (senders (bump (bump (bump w)) <| senders := t |>)) with t. rewrite Ht.
    split; [apply changes_only_insert; [intros ? ?; by simplify_eq|done]|]. split; [split; [|split]|].
    + intros k' s' [[<- <-]|[_ Hk']]%lookup_insert_Some Hb' Hd'; [done|by eapply Ha].
    + intros k1 s1 k2 s2 [[<- <-]|[_ Hk1]]%lookup_insert_Some [[<- <-]|[_ Hk2]]%lookup_insert_Some B1 B2 D1 D2;
        [done|..]; [by rewrite (Hnone _ _ Hk2) in D2|by rewrite (Hnone _ _ Hk1) in D1|by eapply Hu].
    + intros k' s' _ _. exists k. eexists. by rewrite lookup_insert_eq.
    + intros k' Hk'. destruct (decide (k = k')) as [->|]; [by rewrite lookup_insert_eq|by rewrite lookup_insert_ne].
  - apply wp_ret. split; [apply changes_only_refl|]. split; [|done]. split; [done|]. split; [done|].
    intros k s Hk Hact. by rewrite (first_by_none _ _ _ _ _ Eb Hk) in Hact.
Qed.

(** [if (b) updateMany(...)]: every row at once. *)
Lemma wp_clear (b : bool) p (Q : exec js_error nat -> World -> Prop) w :
  (forall e, Q (Throws (Error e)) (bump w)) ->
  (forall t n, (forall k, rows t !! k = (fun s => if b && p k s then not_default s else s) <$> rows (senders w) !! k) ->
     forall tk, let w' := w <| senders := t |> <| tick := tk |> in
     (forall e, Q (Throws (Error e)) w') /\ Q (Ok n) w') ->
  wp (if b then sender_updateMany p not_default else mret O) Q w.
Proof.
  intros He Ho. destruct b.
  - apply wp_sender_updateMany; [done|]. intros t n Ht. apply (Ho t n Ht (S (tick w))).
  - apply wp_ret. destruct (Ho (senders w) O) with (tk := tick w) as [_ Hw]; [|by destruct w].
    intros k. cbn. by destruct (rows (senders w) !! k).
Qed.

(** The requested state of the row itself. *)
Lemma update_data_default dto s :
  bool_decide (u_isDefault dto = Some true) && negb (default (Sender.active s) (u_active dto)) = false ->
  (Sender.isDefault s = true -> Sender.active s = true) ->
  Sender.isDefault (update_data dto s) = true ->
  default (if bool_decide (u_active dto = Some false) then false else Sender.isDefault s) (u_isDefault dto) &&
    default (Sender.active s) (u_active dto) = true /\ Sender.active (update_data dto s) = true.
Proof.
  unfold update_data, given. cbn. generalize (Sender.active s) (Sender.isDefault s). intros act def.
  destruct (u_isDefault dto) as [[]|], (u_active dto) as [[]|], act, def; cbn; intros Hg Hi Hd; try done; auto.
Qed.

Lemma update_unique T m t id s dto (b : bool) :
  defaults_ok T m -> m !! id = Some s -> belongs T s = true ->
  (Sender.isDefault (update_data dto s) = true -> b = true /\ Sender.active (update_data dto s) = true) ->
  (forall k, t !! k = (fun s => if b && (belongs T s && negb (bool_decide (k = id)) && Sender.isDefault s)
                                then not_default s else s) <$> m !! k) ->
  unique_default T (<[id := update_data dto s]> t) /\ changes_only T m (<[id := update_data dto s]> t).
Proof.
  intros (Pa & Pu & _) Hs Hb Hd Ht.
  assert (Hother : forall k s1, k <> id -> t !! k = Some s1 -> exists s0, m !! k = Some s0 /\
    (belongs T s1 = belongs T s0) /\ Sender.active s1 = Sender.active s0 /\
    (Sender.isDefault s1 = true -> Sender.isDefault s0 = true /\ (belongs T s0 = true -> b = false))).
  { intros k s1 Hne. rewrite Ht. destruct (m !! k) as [s0|]; [|done]. cbn. rewrite (bool_decide_false (k = id)) by done.
    intros [= <-]. exists s0. split; [done|].
    destruct b, (belongs T s0) eqn:Eb0, (Sender.isDefault s0) eqn:Ed0; cbn; auto;
      (split; [exact Eb0|]; split; [done|]; intros E; try done; congruence). }
  split; [split|].
  - intros k s1 [[<- <-]|[Hne Hk]]%lookup_insert_Some Hb1 Hd1; [by apply Hd|].
    destruct (Hother k s1) as (s0 & Hk0 & Eb & -> & Hd0); [done..|]. rewrite Eb in Hb1.
    destruct (Hd0 Hd1) as [Hd2 _]. by apply (Pa k s0).
  - intros k1 s1 k2 s2 [[<- <-]|[Hn1 Hk1]]%lookup_insert_Some [[<- <-]|[Hn2 Hk2]]%lookup_insert_Some B1 B2 D1 D2; [done|..].
    + destruct (Hother k2 s2) as (s0 & Hk0 & Eb & _ & Hd0); [done..|]. destruct (Hd D1) as [-> _].
      destruct (Hd0 D2) as [_ Hf]. rewrite Eb in B2. by apply Hf in B2.
    + destruct (Hother k1 s1) as (s0 & Hk0 & Eb & _ & Hd0); [done..|]. destruct (Hd D2) as [-> _].
      destruct (Hd0 D1) as [_ Hf]. rewrite Eb in B1. by apply Hf in B1.
    + destruct (Hother k1 s1) as (s3 & Hk3 & Eb3 & _ & Hd3); [done..|].
      destruct (Hother k2 s2) as (s4 & Hk4 & Eb4 & _ & Hd4); [done..|].
      destruct (Hd3 D1) as [E3 _], (Hd4 D2) as [E4 _]. apply (Pu k1 s3 k2 s4); congruence.
  - apply (changes_only_trans _ _ t).
    + eapply changes_only_map; [exact Ht|]. intros k s0 [_ [[Hb0 _]%andb_true_iff _]%andb_true_iff]%andb_true_iff. done.
    + apply changes_only_insert; [|done]. intros s0. rewrite Ht, Hs. cbn. rewrite (bool_decide_true (id = id)) by done.
      cbn [negb]. rewrite andb_false_r, andb_false_r. by intros [= <-].
Qed.

Lemma update_body_spec actor id dto ctx w :
  senders_ok w ->
  wp (update_body actor id dto ctx) (on_ok (fun s w' => senders_ok w' /\ rows (senders w') !! id = Some s)) w.
Proof.
  intros Hok. unfold update_body. cbv zeta. set (T := MutationActor.tenantId actor).
  apply wp_bind, wp_sender_find; [done|].
  destruct (findFirst _ _) as [[k s]|] eqn:Ef; [|by apply wp_bind, wp_throw].
  apply findFirst_some in Ef as [Hk [->%bool_decide_eq_true Hb]%andb_true_iff].
  apply wp_bind, wp_ret. cbn [fst snd]. apply wp_bind.
  destruct (bool_decide (u_isDefault dto = Some true) && negb (default (Sender.active s) (u_active dto))) eqn:Eg;
    [by apply wp_throw|apply wp_ret].
  apply wp_bind, wp_clear; [done|]. intros t n Ht tk. split; [done|].
  pose proof (Hok T) as HokT. change (senders (bump w)) with (senders w) in Ht.
  apply wp_bind, wp_sender_update; [done|]. intros t2 s0 Hs0 Ht2. split; [done|]. cbn in Hs0, Ht2.
  assert (s0 = s) as ->.
  { rewrite Ht, Hk in Hs0. cbn in Hs0. rewrite (bool_decide_true (id = id)) in Hs0 by done. cbn [negb] in Hs0.
    rewrite andb_false_r, andb_false_r in Hs0. by injection Hs0. }
  assert (Hda : Sender.isDefault s = true -> Sender.active s = true) by (destruct HokT as (Pa & _); by eapply Pa).
  destruct (update_unique T (rows (senders w)) (rows t) id s dto _ HokT Hk Hb
              (update_data_default dto s Eg Hda) Ht) as [Hu Hc].
  rewrite <- Ht2 in Hu, Hc. apply wp_bind. eapply wp_mono; [by apply ensure_default_spec|].
  intros [[]|e|] w3; [|done|done]. intros (Hc3 & Hd3 & Hkeep).
  assert (Hok3 : senders_ok w3).
  { intros U. eapply (changes_only_ok T (rows (senders w))); [|exact Hok|exact Hd3].
    eapply changes_only_trans; [exact Hc|exact Hc3]. }
  apply wp_bind, wp_db; [done|]. intros s' w4 Hf. apply bind_Some in Hf as (s3 & Hs3 & [= <- <-]). split; [done|].
  apply wp_bind, wp_write_audit; [done|]. intros t4 n4. split; [done|]. by apply wp_ret.
Qed.

(** C24: A change of a sender keeps the tenants' default senders in order: afterwards, in every
    tenant, the default is active and unique, and exists when any sender is active, whatever the
    request asks and whatever fails; the caller gets the row as it is. *)
Theorem update_keeps_default tenantOrPrincipal id dto ctx w (Hok : senders_ok w) :
  let '(r, w') := update tenantOrPrincipal id dto ctx w in
  senders_ok w' /\ forall s, r = Ok s -> rows (senders w') !! id = Some s.
Proof.
  assert (Hw : wp (update tenantOrPrincipal id dto ctx) (fun r w' =>
    senders_ok w' /\ on_ok (fun s w' => rows (senders w') !! id = Some s) r w') w).
  { unfold update. cbv zeta. apply wp_bind. 
    assert (Ht : forall w1, senders_ok w1 -> wp (transaction (update_body (mutationActor tenantOrPrincipal) id dto ctx))
      (fun r w' => senders_ok w' /\ on_ok (fun s w' => rows (senders w') !! id = Some s) r w') w1).
    { intros w1 H1k. apply wp_transaction_ok; [done|done|done|by apply update_body_spec]. }
    unfold assertWabaOwnership. destruct (truthy (u_wabaId dto)); [|by apply wp_ret, Ht].
    apply wp_bind, wp_sender_find; [done|]. destruct (findFirst _ _); [by apply wp_throw|by apply wp_ret, Ht]. }
  unfold wp in Hw. destruct (update _ _ _ _ _) as [r w']. cbn in Hw. destruct Hw as [Hw Hr].
  split; [done|]. by intros s ->.
Qed.

Lemma create_unique T m t id s (b : bool) :
  defaults_ok T m -> t !! id = None -> belongs T s = true -> Sender.active s = true -> Sender.isDefault s = b ->
  (b = false -> exists k s, m !! k = Some s /\ is_active T k s = true) ->
  (forall k, t !! k = (fun s => if b && is_default_of T k s then not_default s else s) <$> m !! k) ->
  defaults_ok T (<[id := s]> t) /\ changes_only T m (<[id := s]> t).
Proof.
  intros (Pa & Pu & Pe) Hid Hb Hact Hd Hex Ht.
  assert (Hold : forall k s1, t !! k = Some s1 -> belongs T s1 = true -> Sender.isDefault s1 = true ->
    b = false /\ m !! k = Some s1).
  { intros k s1. rewrite Ht. destruct (m !! k) as [s0|]; [|done]. cbn. unfold is_default_of.
    destruct (b && (belongs T s0 && Sender.isDefault s0)) eqn:E; intros [= <-] Hb1 Hd1; [done|].
    rewrite Hb1, Hd1 in E. by destruct b. }
  split; [split; [|split]|].
  - intros k s1 [[<- <-]|[_ Hk]]%lookup_insert_Some Hb1 Hd1; [done|].
    destruct (Hold _ _ Hk Hb1 Hd1) as [_ Hm]. by eapply Pa.
  - intros k1 s1 k2 s2 [[<- <-]|[Hn1 Hk1]]%lookup_insert_Some [[<- <-]|[Hn2 Hk2]]%lookup_insert_Some B1 B2 D1 D2; [done|..].
    + destruct (Hold _ _ Hk2 B2 D2). congruence.
    + destruct (Hold _ _ Hk1 B1 D1). congruence.
    + destruct (Hold _ _ Hk1 B1 D1), (Hold _ _ Hk2 B2 D2). by eapply Pu.
  - intros _ _ _ _. destruct b.
    + exists id, s. by rewrite lookup_insert_eq.
    + destruct (Hex eq_refl) as (k & s1 & Hk & Hact1). destruct (Pe k s1 Hk Hact1) as (k' & s' & Hk' & Hb' & Hd').
      exists k', s'. rewrite lookup_insert_ne; [|intros ->; by rewrite Ht, Hk' in Hid].
      rewrite Ht, Hk'. done.
  - apply (changes_only_trans _ _ t).
    + eapply changes_only_map; [exact Ht|]. intros k s0 [_ [Hb0 _]%andb_true_iff]%andb_true_iff. done.
    + apply changes_only_insert; [|done]. congruence.
Qed.

(** The row a registration creates. *)
Definition registered (dto : CreatePhoneNumberDto) (T : string) (k : string) (s : Sender.t) (w : World) : Prop :=
  rows (senders w) !! k = Some s /\ belongs T s = true /\ Sender.active s = true /\
  (c_isDefault dto = Some true -> Sender.isDefault s = true).

Lemma create_body_spec actor dto ctx w :
  senders_ok w ->
  wp (create_body actor dto ctx) (on_ok (fun ks w' => senders_ok w' /\
    registered dto (MutationActor.tenantId actor) ks.1 ks.2 w')) w.
Proof.
  intros Hok. unfold create_body. cbv zeta. set (T := MutationActor.tenantId actor).
  apply wp_bind, wp_sender_find; [done|]. set (found_active := findFirst _ _).
  set (b := bool_decide (found_active = None) || bool_decide (c_isDefault dto = Some true)).
  apply wp_bind, wp_clear; [done|]. intros t n Ht tk. split; [done|]. change (senders (bump w)) with (senders w) in Ht.
  apply wp_bind, wp_now. intros createdAt. apply wp_bind.
  apply wp_db_known; [done|done|]. intros [id s] w1 Hf. apply bind_Some in Hf as ([id' t'] & Hc & [= -> <- <-]).
  apply create_some in Hc as (Hid & Ht' & _). cbn in Hid, Ht'. split; [done|].
  set (s := {| Sender.tenantId := T |}) in *.
  assert (Hb : belongs T s = true) by by apply belongs_eq.
  destruct (create_unique T (rows (senders w)) (rows t) id s b) as [Hd Hch]; try done.
  { intros Eb. unfold b in Eb. apply orb_false_iff in Eb as [Eb _]. apply bool_decide_eq_false in Eb.
    destruct found_active as [[k s0]|] eqn:Ef; [|done]. apply findFirst_some in Ef. exists k, s0. tauto. }
  rewrite <- Ht' in Hd, Hch.
  apply wp_bind, wp_write_audit; [done|]. intros t4 n4. split; [done|]. apply wp_ret.
  split; [|split; [cbn; by rewrite Ht', lookup_insert_eq|split; [done|split; [done|]]]].
  - intros U. eapply (changes_only_ok T (rows (senders w))); [exact Hch|exact Hok|exact Hd].
  - intros E. cbn. unfold b. rewrite (bool_decide_true (c_isDefault dto = Some true)) by done. apply orb_true_r.
Qed.

(** A registration keeps the tenants' default senders in order, and the new sender is active, and
    the default when the request asks or no other sender is active. *)
Theorem create_keeps_default tenantOrPrincipal dto ctx w (Hok : senders_ok w) :
  let '(r, w') := create tenantOrPrincipal dto ctx w in
  senders_ok w' /\
  forall k s, r = Ok (k, s) -> registered dto (MutationActor.tenantId (mutationActor tenantOrPrincipal)) k s w'.
Proof.
  set (T := MutationActor.tenantId (mutationActor tenantOrPrincipal)).
  assert (Hw : wp (create tenantOrPrincipal dto ctx) (fun r w' =>
    senders_ok w' /\ on_ok (fun ks w' => registered dto T ks.1 ks.2 w') r w') w).
  { unfold create. cbv zeta. apply wp_bind, wp_sender_find; [done|].
    apply wp_bind. destruct (findFirst _ _); [by apply wp_throw|apply wp_ret].
    apply wp_bind.
    assert (Ht : forall w1, senders_ok w1 ->
      wp (try_catch (transaction (create_body (mutationActor tenantOrPrincipal) dto ctx))
        (fun error => throw (match error with
           | KnownRequestError "P2002" _ => ConflictException
               "Unable to register WhatsApp phone number because a unique sender constraint was violated"
           | _ => error
           end)))
      (fun r w' => senders_ok w' /\ on_ok (fun ks w' => registered dto T ks.1 ks.2 w') r w') w1).
    { intros w1 Hok1. apply wp_try. eapply wp_mono;
        [apply (wp_transaction_ok _ (fun ks w' => registered dto T ks.1 ks.2 w') senders_ok); [done|done|done|by apply create_body_spec]|].
      intros [ks|e|] w2 [Hok2 Hr]; [done|by apply wp_throw|done]. }
    unfold assertWabaOwnership. destruct (truthy (c_wabaId dto)); [|by apply wp_ret, Ht].
    apply wp_bind, wp_sender_find; [done|]. destruct (findFirst _ _); [by apply wp_throw|by apply wp_ret, Ht]. }
  unfold wp in Hw. destruct (create _ _ _ _) as [r w']. cbn in Hw. destruct Hw as [Hw Hr].
  split; [done|]. by intros k s ->.
Qed.

#[export] Instance default_first_total : Total default_first.
Proof.
  intros a b. unfold default_first.
  destruct (Sender.isDefault a.2), (Sender.isDefault b.2); auto; destruct (Z.le_ge_cases (Sender.createdAt a.2) (Sender.createdAt b.2)); auto.
Qed.
#[export] Instance default_first_trans : Transitive default_first.
Proof. intros a b c [[]|[]] [[]|[]]; unfold default_first; try (left; split; congruence); right; split; congruence || lia. Qed.

(** Without an explicit sender a tenant sends from its default sender; it is refused only when no
    sender of the tenant is active (or the database fails). *)
Theorem resolveForTenant_default T w (Hok : defaults_ok T (rows (senders w))) :
  let '(r, w') := resolveForTenant T None w in
  rows (senders w') = rows (senders w) /\
  match r with
  | Ok (k, s) => rows (senders w) !! k = Some s /\ belongs T s = true /\ Sender.active s = true /\
      Sender.isDefault s = true
  | Throws (UnprocessableEntityException _) => forall k s, rows (senders w) !! k = Some s -> is_active T k s = false
  | Throws e => exists m, e = Error m
  | OutOfFuel => False
  end.
Proof.
  assert (Hw : wp (resolveForTenant T None) (fun r w' => rows (senders w') = rows (senders w) /\
    match r with
    | Ok (k, s) => rows (senders w) !! k = Some s /\ belongs T s = true /\ Sender.active s = true /\
        Sender.isDefault s = true
    | Throws (UnprocessableEntityException _) => forall k s, rows (senders w) !! k = Some s -> is_active T k s = false
    | Throws e => exists m, e = Error m
    | OutOfFuel => False
    end) w).
  { apply wp_bind, wp_db; [intros e; split; [done|by exists e]|]. intros fb w1 [= <- <-].
    split; [intros e; split; [done|by exists e]|]. change (senders (bump w)) with (senders w).
    destruct (first_by default_first (is_active T) (senders w)) as [[k s]|] eqn:Ef.
    2:{ apply wp_throw. split; [done|]. intros k s Hk. by eapply first_by_none. }
    apply wp_ret. split; [done|]. pose proof (first_by_some _ _ _ _ _ Ef) as [Ha Hk].
    pose proof (proj1 (is_active_spec T k s) Ha) as [Hb Hact]. split; [done|]. split; [done|]. split; [done|].
    destruct Hok as (Pa & Pu & Pe). destruct (Pe k s Hk Ha) as (k' & s' & Hk' & Hb' & Hd').
    assert (Hin : (k, s) ∈ take 1 (merge_sort default_first (findMany (is_active T) (senders w)))).
    { unfold first_by in Ef. destruct (merge_sort _ _) as [|x l]; [done|]. injection Ef as ->. left. }
    assert (Hin' : (k', s') ∈ findMany (is_active T) (senders w)).
    { apply findMany_elem. split; [|done]. apply is_active_spec. split; [done|by eapply Pa]. }
    pose proof (limit_first default_first default_first 1 _ _ _ default_first_trans (fun a b Hab => Hab) Hin Hin') as [Hl|Hl].
    - unfold first_by in Ef. destruct (merge_sort _ _) as [|x l]; [done|]. injection Ef as ->.
      apply list_elem_of_singleton in Hl as [= -> ->]. done.
    - unfold default_first in Hl. cbn in Hl. destruct Hl as [[? ?]|[-> _]]; done. }
  unfold wp in Hw. by destruct (resolveForTenant T None w).
Qed.
End default_proofs.

(** ** A tenant with two senders *)
Definition example_sender (id : string) (isDefault : bool) : Sender.t :=
  {| Sender.tenantId := "t"; Sender.providerPhoneNumberId := id; Sender.wabaId := Some "w"%string;
     Sender.displayPhoneNumber := None; Sender.verifiedName := None; Sender.credentialRef := "env:TOKEN";
     Sender.rateLimitPerSecond := None; Sender.active := true; Sender.isDefault := isDefault; Sender.createdAt := 0 |}.
Definition senders_example : World (H := gmap_prisma) :=
  world_with ∅ <| senders := (<["a"%string := example_sender "1" true]>
                               {[ "b"%string := example_sender "2" false ]} : gmap string Sender.t) |>.

Lemma senders_example_ok : senders_ok senders_example.
Proof.
  intros T. unfold defaults_ok.
  assert (Hrows : forall k s, rows (senders senders_example) !! k = Some s ->
    k = "a"%string /\ s = example_sender "1" true \/ k = "b"%string /\ s = example_sender "2" false).
  { intros k s. change (rows (senders senders_example)) with
      (<["a"%string := example_sender "1" true]> {[ "b"%string := example_sender "2" false ]} : gmap string Sender.t).
    intros [[<- <-]|[_ [<- <-]%lookup_singleton_Some]]%lookup_insert_Some; auto. }
  split; [|split].
  - intros k s [[-> ->]|[-> ->]]%Hrows; done.
  - intros k1 s1 k2 s2 [[-> ->]|[-> ->]]%Hrows [[-> ->]|[-> ->]]%Hrows; done.
  - intros k s [[-> ->]|[-> ->]]%Hrows [Hb _]%is_active_spec; (exists "a"%string, (example_sender "1" true); split; [reflexivity|done]).
Qed.

Definition deactivate : UpdatePhoneNumberDto :=
  {| u_wabaId := None; u_displayPhoneNumber := None; u_verifiedName := None; u_credentialRef := None;
     u_rateLimitPerSecond := None; u_active := Some false; u_isDefault := None |}.

Lemma update_keeps_default_witness :
  let '(r, w') := @update gmap_prisma (calm 7) (Tenant "t") "a" deactivate None senders_example in
  senders_ok w' /\ forall s, r = Ok s -> rows (senders w') !! "a"%string = Some s.
Proof. apply (@update_keeps_default gmap_prisma (calm 7) (Tenant "t") "a" deactivate None), senders_example_ok. Defined.

Definition register_third : CreatePhoneNumberDto :=
  {| c_providerPhoneNumberId := "3"; c_wabaId := Some "w"%string; c_displayPhoneNumber := None; c_verifiedName := None;
     c_credentialRef := "env:TOKEN"; c_rateLimitPerSecond := None; c_isDefault := Some true |}.

Lemma create_keeps_default_witness :
  let '(r, w') := @create gmap_prisma (calm 7) (Tenant "t") register_third None senders_example in
  senders_ok w' /\ forall k s, r = Ok (k, s) -> registered register_third "t" k s w'.
Proof. apply (@create_keeps_default gmap_prisma (calm 7) (Tenant "t") register_third None), senders_example_ok. Defined.

Lemma resolveForTenant_default_witness :
  let '(r, w') := @resolveForTenant gmap_prisma (calm 7) "t" None senders_example in
  rows (senders w') = rows (senders senders_example) /\
  match r with
  | Ok (k, s) => rows (senders senders_example) !! k = Some s /\ belongs "t" s = true /\ Sender.active s = true /\
      Sender.isDefault s = true
  | Throws (UnprocessableEntityException _) =>
      forall k s, rows (senders senders_example) !! k = Some s -> is_active "t" k s = false
  | Throws e => exists m, e = Error m
  | OutOfFuel => False
  end.
Proof. apply (@resolveForTenant_default gmap_prisma (calm 7) "t"), senders_example_ok. Defined.
