(* ===== verification/Inbound.v ===== *)
(** Messages from customers ([webhooks/inbound-message.service.ts]): reading them out of a webhook's
    payload and storing each once, with its contact, its conversation and the 24-hour customer
    service window it opens. *)
From stdpp Require Import prelude gmap strings.
From Stdlib Require Import Ascii ZArith Lia.
From S2P Require Import Prelude Json Numbers Io Prisma Domain LeaseQueue Dispatcher WebhookStatus Contacts Conversations Senders.
#[local] Open Scope Z_scope.
Import MessageType MessageStatus MessageDirection.

(** [{ ...candidate, id, from, timestamp, type }]; [raw] are the fields of the candidate. *)
Module MetaInboundMessage.
Record t := make {
  id : string;
  from : string;
  timestamp : option string;
  type : option string;
  raw : list (string * json)
}.
End MetaInboundMessage.

Definition readString (value : option json) (key : string) : option string :=
  match value with
  | Some (JObj fields) => truthy (as_string (field key fields))
  | _ => None
  end.

Definition read_message (candidate : json) : option MetaInboundMessage.t :=
  match candidate with
  | JObj fields =>
      id ← readString (Some candidate) "id";
      from ← readString (Some candidate) "from";
      Some (MetaInboundMessage.make id from (readString (Some candidate) "timestamp")
              (readString (Some candidate) "type") fields)
  | _ => None
  end.
Definition extractMessages (value : json) : list MetaInboundMessage.t :=
  omap read_message (items (prop "messages" value)).

(** The [Map] of names by number: a later entry replaces an earlier one. *)
Definition profile_entry (contact : json) : option (string * string) :=
  waId ← readString (Some contact) "wa_id";
  name ← readString (prop "profile" contact) "name";
  Some (waId, name).
Definition extractProfileNames (value : json) : gmap string string :=
  foldl (fun result contact => match profile_entry contact with
                               | Some (waId, name) => <[waId := name]> result
                               | None => result
                               end) ∅ (items (prop "contacts" value)).

Definition mapMessageType (type : option string) : MessageType.t :=
  match JsString.toLowerCase <$> type with
  | Some s =>
      if String.eqb s "text" then TEXT
      else if String.eqb s "image" then IMAGE
      else if String.eqb s "video" then VIDEO
      else if String.eqb s "audio" then AUDIO
      else if String.eqb s "document" then DOCUMENT
      else if String.eqb s "interactive" then INTERACTIVE
      else if String.eqb s "button" then INTERACTIVE
      else if String.eqb s "location" then LOCATION
      else if String.eqb s "contacts" then CONTACT
      else if String.eqb s "contact" then CONTACT
      else UNKNOWN
  | None => UNKNOWN
  end.

(** [JSON.stringify] drops a [timestamp] or [type] that was replaced by [undefined]. *)
Definition message_json (m : MetaInboundMessage.t) : json :=
  JObj (filter (fun kv => match kv.1 with
                          | "timestamp" | "type" => bool_decide (is_Some (truthy (as_string (Some kv.2))))
                          | _ => true
                          end%string = true) (MetaInboundMessage.raw m)).

Definition DAY : Z := 24 * 60 * 60 * 1000.
(** [new Date(d.getTime() + 24 * 60 * 60 * 1000)] *)
Definition day_after (d : date) : date :=
  t ← d; if t + DAY <=? 8640000000000000 then Some (t + DAY) else None.

Section inbound.
Context `{Prisma} `{Environment}.

(** *** Storing one message *)
(** [contact.upsert]: a new contact, or the name brought up to date. *)
Definition named (profileName : option string) (c : Contact.t) : Contact.t :=
  match profileName with Some n => c <| Contact.name := Some n |> | None => c end.
Definition new_contact (tenantId phone : string) (profileName : option string) (inboundAt expires : Z) : Contact.t :=
  {| Contact.tenantId := tenantId; Contact.phone := phone; Contact.name := profileName;
     Contact.language := None; Contact.timezone := None; Contact.tags := [];
     Contact.consentStatus := ConsentStatus.UNKNOWN; Contact.consentSource := None; Contact.consentAt := None;
     Contact.optedOutAt := None; Contact.lastInboundAt := Some inboundAt;
     Contact.serviceWindowExpiresAt := Some expires; Contact.metadata := None |}.
Definition contact_upsert (tenantId phone : string) (profileName : option string) (inboundAt expires : Z)
    : io World string :=
  db_known "P2002" (fun w =>
    match findFirst (has_phone tenantId phone) (contacts w) with
    | Some (id, _) =>
        t ← Prisma.update contact_unique id (named (truthy profileName)) (contacts w);
        Some (id, w <| contacts := t |>)
    | None =>
        '(id, t) ← Prisma.create contact_unique (new_contact tenantId phone profileName inboundAt expires) (contacts w);
        Some (id, w <| contacts := t |>)
    end).

(** [OR: [{ lastInboundAt: null }, { lastInboundAt: { lt: inboundAt } }]] *)
Definition touch_window (contactId : string) (inboundAt expires : Z) : io World nat :=
  db (fun w => let '(n, t) := updateMany
                 (fun k c => bool_decide (k = contactId) && after inboundAt (Contact.lastInboundAt c))
                 (fun c => c <| Contact.lastInboundAt := Some inboundAt |>
                             <| Contact.serviceWindowExpiresAt := Some expires |>) (contacts w) in
               Some (n, w <| contacts := t |>)).

Definition inbound_row (tenantId senderId conversationId : string) (displayPhoneNumber : option string)
    (from : string) (inboundAt createdAt : Z) (message : MetaInboundMessage.t) : Message.t :=
  {| Message.tenantId := Some tenantId; Message.senderId := Some senderId;
     Message.conversationId := truthy (Some conversationId);
     Message.direction := INBOUND; Message.trafficClass := MessageTrafficClass.TRANSACTIONAL;
     Message.type := mapMessageType (MetaInboundMessage.type message); Message.status := RECEIVED;
     Message.to := displayPhoneNumber; Message.from := Some from;
     Message.providerMessageId := Some (MetaInboundMessage.id message);
     Message.providerTimestamp := Some inboundAt; Message.idempotencyKey := None;
     Message.payload := message_json message; Message.providerResponse := None;
     Message.errorCode := None; Message.errorMessage := None; Message.attemptCount := 0;
     Message.lastAttemptAt := None; Message.processingLeaseUntil := None; Message.createdAt := createdAt;
     Message.submittedAt := None; Message.sentAt := None; Message.deliveredAt := None;
     Message.readAt := None; Message.failedAt := None |}.

(** [message.create] with its nested status event: one statement. *)
Definition message_create (row : Message.t) (ev : string -> MessageStatusEvent.t) : io World string :=
  db_known "P2002" (fun w =>
    '(id, t) ← Prisma.create message_unique row (messages w);
    '(_, evs) ← Prisma.create unconstrained (ev id) (statusEvents w);
    Some (id, w <| messages := t |> <| statusEvents := evs |>)).

Definition find_by_provider_id (pid : string) : io World (option (string * Message.t)) :=
  db (fun w => Some (by_provider_id pid w, w)).

(** The transaction: the id of the new message and its conversation, or [None] for a duplicate. *)
Definition persist_body (tenantId senderId : string) (displayPhoneNumber profileName : option string)
    (message : MetaInboundMessage.t) (from : string) (inboundAt : date) : io World (option (string * string)) :=
  duplicate ← find_by_provider_id (MetaInboundMessage.id message);
  match duplicate with
  | Some _ => mret None
  | None =>
      at_time ← checked_date inboundAt;
      expires ← checked_date (day_after inboundAt);
      contactId ← contact_upsert tenantId from profileName at_time expires;
      _ ← touch_window contactId at_time expires;
      conversationId ← recordInbound tenantId senderId contactId at_time;
      createdAt ← now;
      id ← message_create
        (inbound_row tenantId senderId conversationId displayPhoneNumber from at_time createdAt message)
        (fun id => {| MessageStatusEvent.messageId := id; MessageStatusEvent.status := RECEIVED;
                      MessageStatusEvent.payload :=
                        Some (JObj [("providerMessageId", JStr (MetaInboundMessage.id message))]%string);
                      MessageStatusEvent.createdAt := Some at_time |});
      mret (Some (id, conversationId))
  end.

Definition realtime_publish (e : RealtimeEvent.t) : io World unit :=
  modify (fun w => w <| realtime ::= (fun l => l ++ [e]) |>).

(** The events after the commit. *)
Definition announce (tenantId messageId conversationId : string) : io World unit :=
  match truthy (Some conversationId) with
  | Some conversationId =>
      _ ← realtime_publish {| RealtimeEvent.tenantId := tenantId;
            RealtimeEvent.type := "conversation.updated";
            RealtimeEvent.data := [("conversationId"%string, JStr conversationId)] |};
      realtime_publish {| RealtimeEvent.tenantId := tenantId;
            RealtimeEvent.type := "conversation.message.created";
            RealtimeEvent.data := [("conversationId", JStr conversationId); ("messageId", JStr messageId)]%string |}
  | None => mret tt
  end.

(** The [catch]: losing a race against the same message is no error. *)
Definition unless_duplicate (message : MetaInboundMessage.t) (error : js_error) : io World unit :=
  match error with
  | KnownRequestError code _ =>
      if String.eqb code "P2002" then
        duplicate ← find_by_provider_id (MetaInboundMessage.id message);
        match duplicate with Some _ => mret tt | None => throw error end
      else throw error
  | _ => throw error
  end.

Definition persist_attempt (tenantId senderId : string) (displayPhoneNumber profileName : option string)
    (message : MetaInboundMessage.t) (from : string) (inboundAt : date) : io World unit :=
  try_catch
    (persisted ← transaction (persist_body tenantId senderId displayPhoneNumber profileName message from inboundAt);
     match persisted with
     | Some (messageId, conversationId) => announce tenantId messageId conversationId
     | None => mret tt
     end)
    (unless_duplicate message).

Definition persistInboundMessage (tenantId senderId : string) (displayPhoneNumber profileName : option string)
    (message : MetaInboundMessage.t) : io World unit :=
  from ← lift (normalizePhoneNumber (MetaInboundMessage.from message));
  inboundAt ← (match parseTimestamp (MetaInboundMessage.timestamp message) with
               | Some d => mret d
               | None => t ← now; mret (Some t)
               end);
  persist_attempt tenantId senderId displayPhoneNumber profileName message from inboundAt.

(** *** The payload *)
Definition process_change (change : json) : io World unit :=
  if negb (is_object change) then mret tt else
  match prop "value" change with
  | Some value =>
      if negb (is_record value) then mret tt else
      match extractMessages value with
      | [] => mret tt
      | messages =>
          let metadata := prop "metadata" value in
          match readString metadata "phone_number_id" with
          | None => throw (Error "Inbound WhatsApp webhook is missing metadata.phone_number_id")
          | Some providerPhoneNumberId =>
              let displayPhoneNumber := readString metadata "display_phone_number" in
              sender ← findByProviderPhoneNumberId providerPhoneNumberId;
              let profileNames := extractProfileNames value in
              for_each messages (fun message =>
                persistInboundMessage (Sender.tenantId sender.2) sender.1 displayPhoneNumber
                  (profileNames !! MetaInboundMessage.from message) message)
          end
      end
  | None => mret tt
  end.

Definition process (payload : json) : io World unit :=
  if negb (is_record payload) then mret tt else
  for_each (items (prop "entry" payload)) (fun entry =>
    if negb (is_object entry) then mret tt else
    for_each (items (prop "changes" entry)) process_change).
End inbound.

(** ** The window and the messages *)
Section inbound_proofs.
Context `{Prisma} `{Environment}.

(** The service window of a contact is open for a day after its latest inbound message. *)
Definition window_follows (c : Contact.t) : Prop :=
  Contact.serviceWindowExpiresAt c = (fun t => t + DAY) <$> Contact.lastInboundAt c.
Definition at_least (t : Z) (c : Contact.t) : Prop := exists u, Contact.lastInboundAt c = Some u /\ t <= u.
(** Every stored inbound message is covered by the window of its contact. *)
Definition covered (cs : gmap string Contact.t) (m : Message.t) : Prop := forall T p u,
  Message.direction m = INBOUND -> Message.tenantId m = Some T -> Message.from m = Some p ->
  Message.providerTimestamp m = Some u ->
  exists k c, cs !! k = Some c /\ Contact.tenantId c = T /\ Contact.phone c = p /\ at_least u c.
Definition window_ok (w : World) : Prop :=
  unique_provider_ids w /\
  (forall k c, rows (contacts w) !! k = Some c -> window_follows c) /\
  (forall k m, rows (messages w) !! k = Some m -> covered (rows (contacts w)) m).

(** Contacts stay who they are, keep their consent and never lose an inbound message. *)
Definition contact_kept (c c' : Contact.t) : Prop :=
  Contact.tenantId c' = Contact.tenantId c /\ Contact.phone c' = Contact.phone c /\
  Contact.consentStatus c' = Contact.consentStatus c /\
  (forall u, Contact.lastInboundAt c = Some u -> at_least u c').
Definition contacts_kept (w w' : World) : Prop := forall k c, rows (contacts w) !! k = Some c ->
  exists c', rows (contacts w') !! k = Some c' /\ contact_kept c c'.

#[export] Instance contact_kept_refl : Reflexive contact_kept.
Proof. intros c. do 3 (split; [done|]). intros u Hu. by exists u. Qed.

(** The contact after an inbound message. *)
Definition touched (inboundAt expires : Z) (c : Contact.t) : Contact.t :=
  if after inboundAt (Contact.lastInboundAt c)
  then c <| Contact.lastInboundAt := Some inboundAt |> <| Contact.serviceWindowExpiresAt := Some expires |> else c.

Lemma touched_spec t e c :
  e = t + DAY -> window_follows c -> window_follows (touched t e c) /\ at_least t (touched t e c) /\ contact_kept c (touched t e c).
Proof.
  intros -> Hw. unfold touched, after. destruct (Contact.lastInboundAt c) as [u|] eqn:Eu; [destruct (Z.ltb_spec u t)|].
  - split; [done|]. split; [by exists t|]. do 3 (split; [done|]). intros v Hv. exists t. split; [done|]. assert (v = u) by congruence. lia.
  - split; [done|]. split; [exists u; split; [done|lia]|done].
  - split; [done|]. split; [by exists t|]. do 3 (split; [done|]). intros v Hv. congruence.
Qed.

Lemma named_spec o c : window_follows c -> window_follows (named o c) /\ contact_kept c (named o c).
Proof.
  intros Hw. unfold named. destruct o; [|done]. split; [exact Hw|]. do 3 (split; [done|]). intros u Hu. by exists u.
Qed.

Lemma wp_contact_upsert T p name t e (Q : exec js_error string -> World -> Prop) w :
  (forall x, Q (Throws x) (bump w)) ->
  (forall tb id c', rows tb = <[id := c']> (rows (contacts w)) ->
     (exists c0, rows (contacts w) !! id = Some c0 /\ has_phone T p id c0 = true /\ c' = named (truthy name) c0) \/
     (rows (contacts w) !! id = None /\ c' = new_contact T p name t e) ->
     let w' := bump w <| contacts := tb |> in (forall x, Q (Throws (Error x)) w') /\ Q (Ok id) w') ->
  wp (contact_upsert T p name t e) Q w.
Proof.
  intros He Ho. apply wp_db_known; [auto|auto|]. intros id w' Hf. change (contacts (bump w)) with (contacts w) in Hf.
  destruct (findFirst _ _) as [[id0 c0]|] eqn:Ef.
  - apply findFirst_some in Ef as [Hk Hp]. apply bind_Some in Hf as (tb & Hu & [= <- <-]).
    apply update_some in Hu as (c1 & Hc1 & Hu & _). assert (c1 = c0) as -> by congruence.
    apply (Ho tb id0 (named (truthy name) c0)); [done|]. left. by exists c0.
  - apply bind_Some in Hf as ([id0 tb] & Hc & [= <- <-]). apply create_some in Hc as (Hk & Hc & _).
    apply (Ho tb id0 (new_contact T p name t e)); [done|by right].
Qed.

Lemma wp_touch_window id t e c (Q : exec js_error nat -> World -> Prop) w :
  rows (contacts w) !! id = Some c ->
  (forall x, Q (Throws (Error x)) (bump w)) ->
  (forall tb n, rows tb = <[id := touched t e c]> (rows (contacts w)) ->
     let w' := bump w <| contacts := tb |> in (forall x, Q (Throws (Error x)) w') /\ Q (Ok n) w') ->
  wp (touch_window id t e) Q w.
Proof.
  intros Hc He Ho. apply wp_db; [done|]. intros n w'.
  destruct (updateMany _ _ (contacts (bump w))) as [n' tb] eqn:E. intros [= <- <-]. apply Ho.
  pose proof (updateMany_id_rows (fun c => after t (Contact.lastInboundAt c)) (fun c => c <| Contact.lastInboundAt := Some t |>
    <| Contact.serviceWindowExpiresAt := Some e |>) (contacts (bump w)) id) as Hr.
  apply (f_equal snd) in E. change ((n', tb).2) with tb in E. rewrite <- E. clear E.
  change (contacts (bump w)) with (contacts w) in *. rewrite Hc in Hr.
  unfold touched. destruct (after t (Contact.lastInboundAt c)); [exact Hr|]. rewrite insert_id by done. exact Hr.
Qed.

Lemma wp_recordInbound T s c t (Q : exec js_error string -> World -> Prop) w :
  (forall x, Q (Throws (Error x)) (bump w)) ->
  (forall tb id, let w' := bump w <| conversations := tb |> in (forall x, Q (Throws (Error x)) w') /\ Q (Ok id) w') ->
  wp (recordInbound T s c t) Q w.
Proof.
  intros He Ho. apply wp_db; [done|]. intros id w' Hf. destruct (findFirst _ _) as [[id0 c0]|].
  - apply bind_Some in Hf as (tb & _ & [= <- <-]). apply Ho.
  - apply bind_Some in Hf as ([id0 tb] & _ & [= <- <-]). apply Ho.
Qed.

Lemma wp_message_create row ev (Q : exec js_error string -> World -> Prop) w :
  (forall x, Q (Throws x) (bump w)) ->
  (forall t evs id, rows (messages w) !! id = None -> rows t = <[id := row]> (rows (messages w)) ->
     (forall k m, rows (messages w) !! k = Some m -> message_unique row m = false) ->
     let w' := bump w <| messages := t |> <| statusEvents := evs |> in (forall x, Q (Throws (Error x)) w') /\ Q (Ok id) w') ->
  wp (message_create row ev) Q w.
Proof.
  intros He Ho. apply wp_db_known; [auto|auto|]. intros id w' Hf.
  apply bind_Some in Hf as ([id0 t] & Hc & Hf). apply bind_Some in Hf as ([k evs] & _ & [= <- <-]).
  apply create_some in Hc as (Hk & Hc & Hu). by apply Ho.
Qed.

(** What one message leaves: nothing new when it is a duplicate, else exactly one row. *)
Definition stored (T p : string) (message : MetaInboundMessage.t) (m : Message.t) : Prop :=
  Message.providerMessageId m = Some (MetaInboundMessage.id message) /\ Message.direction m = INBOUND /\
  Message.status m = RECEIVED /\ Message.tenantId m = Some T /\ Message.from m = Some p /\
  Message.payload m = message_json message.
Definition persisted (T p : string) (message : MetaInboundMessage.t) (w : World)
    (r : option (string * string)) (w' : World) : Prop :=
  realtime w' = realtime w /\
  match r with
  | None => is_Some (by_provider_id (MetaInboundMessage.id message) w) /\ rows (messages w') = rows (messages w)
  | Some (id, _) => exists m, rows (messages w) !! id = None /\ rows (messages w') = <[id := m]> (rows (messages w)) /\
      stored T p message m /\ by_provider_id (MetaInboundMessage.id message) w = None
  end.

Lemma unique_insert w t id m pid :
  unique_provider_ids w -> rows t = <[id := m]> (rows (messages w)) ->
  Message.providerMessageId m = Some pid ->
  (forall k m', rows (messages w) !! k = Some m' -> message_unique m m' = false) ->
  unique_provider_ids (w <| messages := t |>).
Proof.
  intros Hu Ht Hp Hc.
  assert (Hne : forall k m' p, rows (messages w) !! k = Some m' -> Message.providerMessageId m = Some p ->
    Message.providerMessageId m' = Some p -> False).
  { intros k m' p Hk E1 E2. specialize (Hc k m' Hk). unfold message_unique, same_some in Hc.
    rewrite bool_decide_true in Hc; [done|]. rewrite E1, E2. split; [by eexists|done]. }
  intros k1 k2 m1 m2 p. change (messages (w <| messages := t |>)) with t. rewrite Ht.
  intros [[<- <-]|[_ Hk1]]%lookup_insert_Some [[<- <-]|[_ Hk2]]%lookup_insert_Some E1 E2;
    [done|exfalso; by eapply Hne|exfalso; by eapply Hne|by eapply Hu].
Qed.

Lemma covered_kept cs cs' m :
  (forall k c, cs !! k = Some c -> exists c', cs' !! k = Some c' /\ contact_kept c c') -> covered cs m -> covered cs' m.
Proof.
  intros Hk Hc T p u Hd HT Hp Hu. destruct (Hc T p u Hd HT Hp Hu) as (k & c & Hkc & E1 & E2 & (v & Hv & Hle)).
  destruct (Hk k c Hkc) as (c' & Hkc' & K1 & K2 & _ & K4). exists k, c'. split; [done|]. split; [congruence|].
  split; [congruence|]. destruct (K4 v Hv) as (x & Hx & Hle'). exists x. split; [done|lia].
Qed.

Lemma persist_body_spec T s disp name message p d w :
  window_ok w ->
  wp (persist_body T s disp name message p d)
    (on_ok (fun r w' => (window_ok w' /\ contacts_kept w w') /\ persisted T p message w r w')) w.
Proof.
  intros (Hu & Hw & Hcov). unfold persist_body. apply wp_bind, wp_db; [done|]. intros dup w1 [= <- <-]. split; [done|].
  change (by_provider_id (MetaInboundMessage.id message) (bump w)) with (by_provider_id (MetaInboundMessage.id message) w).
  destruct (by_provider_id _ w) as [[k0 m0]|] eqn:Ed.
  { apply wp_ret. split; [split; [done|]|]; [intros k c Hk; by exists c|]. split; [done|]. by rewrite Ed. }
  apply wp_bind. destruct d as [t|]; [apply wp_ret|by apply wp_throw].
  apply wp_bind. unfold day_after. cbn [mbind option_bind]. destruct (t + DAY <=? _); [apply wp_ret|by apply wp_throw].
  apply wp_bind, wp_contact_upsert; [done|]. intros tb id c' Htb Hc'. split; [done|].
  change (contacts (bump w)) with (contacts w) in Htb, Hc'.
  apply wp_bind, (wp_touch_window id t (t + DAY) c'); [cbn; by rewrite Htb, lookup_insert_eq|done|].
  intros tb2 n Htb2. split; [done|]. change (contacts (bump (bump w) <| contacts := tb |>)) with tb in Htb2.
  rewrite Htb, insert_insert_eq in Htb2.
  apply wp_bind, wp_recordInbound; [done|]. intros tb3 conv. split; [done|].
  apply wp_bind, wp_now. intros createdAt. apply wp_bind, wp_message_create; [done|].
  intros tm evs mid Hmid Htm Huniq. split; [done|]. apply wp_ret.
  set (row := inbound_row T s conv disp p t createdAt message) in *.
  assert (Hmid' : rows (messages w) !! mid = None) by exact Hmid.
  assert (Htm' : rows tm = <[mid := row]> (rows (messages w))) by exact Htm.
  clear Hmid Htm. rename Hmid' into Hmid, Htm' into Htm.
  assert (Hc'w : window_follows c' /\ Contact.tenantId c' = T /\ Contact.phone c' = p /\
    forall c0, rows (contacts w) !! id = Some c0 -> contact_kept c0 c').
  { destruct Hc' as [(c0 & Hc0 & Hp0 & ->)|[Hnone ->]].
    - destruct (named_spec (truthy name) c0) as [N1 N2]; [by eapply Hw|]. split; [done|].
      apply andb_true_iff in Hp0 as [E1%bool_decide_eq_true E2%bool_decide_eq_true]. pose proof N2 as (N3 & N4 & _).
      split; [congruence|]. split; [congruence|]. intros c1 Hc1. by assert (c1 = c0) as -> by congruence.
    - split; [done|]. split; [done|]. split; [done|]. intros c0 Hc0. congruence. }
  destruct Hc'w as (F1 & F2 & F3 & F4). destruct (touched_spec t (t + DAY) c' eq_refl F1) as (G1 & G2 & G3).
  assert (Hkept : forall k c, rows (contacts w) !! k = Some c -> exists c'', rows tb2 !! k = Some c'' /\ contact_kept c c'').
  { intros k c Hk. rewrite Htb2. destruct (decide (id = k)) as [<-|Hne].
    - rewrite lookup_insert_eq. eexists. split; [done|]. specialize (F4 c Hk) as (A1 & A2 & A3 & A4).
      destruct G3 as (B1 & B2 & B3 & B4). split; [congruence|]. split; [congruence|]. split; [congruence|].
      intros u Hlu. destruct (A4 u Hlu) as (v & Hv & Hle). destruct (B4 v Hv) as (x & Hx & Hle'). exists x. split; [done|lia].
    - rewrite lookup_insert_ne by done. exists c. by split. }
  split; [split; [split; [|split]|]|].
  - exact (unique_insert w tm mid row _ Hu Htm eq_refl Huniq).
  - intros k c. change (rows tb2 !! k = Some c -> window_follows c). rewrite Htb2.
    intros [[<- <-]|[_ Hk]]%lookup_insert_Some; [exact G1|by eapply Hw].
  - intros k m. change (rows tm !! k = Some m -> covered (rows tb2) m). rewrite Htm.
    intros [[<- <-]|[_ Hk]]%lookup_insert_Some.
    + intros T' p' u _ [= <-] [= <-] [= <-]. exists id, (touched t (t + DAY) c'). rewrite Htb2, lookup_insert_eq.
      destruct G3 as (B1 & B2 & _). split; [done|]. split; [congruence|]. split; [congruence|done].
    + eapply covered_kept; [exact Hkept|by eapply Hcov].
  - exact Hkept.
  - split; [done|]. exists row. split; [done|]. split; [exact Htm|]. split; [done|exact Ed].
Qed.

(** What storing a message may end in: nothing, when it is already stored or something fails, or
    exactly one new row; the inbox hears only of a message that is stored. *)
Definition inbound_outcome (T : string) (message : MetaInboundMessage.t) (w : World)
    (r : exec js_error unit) (w' : World) : Prop :=
  let pid := MetaInboundMessage.id message in
  r <> OutOfFuel /\ (r = Ok tt -> exists mid m, by_provider_id pid w' = Some (mid, m)) /\
  ((rows (messages w') = rows (messages w) /\ realtime w' = realtime w) \/
   exists mid p m, rows (messages w) !! mid = None /\ rows (messages w') = <[mid := m]> (rows (messages w)) /\
     stored T p message m /\ by_provider_id pid w = None /\
     (realtime w' = realtime w \/ exists conv, realtime w' = realtime w ++
        [ RealtimeEvent.make T "conversation.updated" [("conversationId"%string, JStr conv)];
          RealtimeEvent.make T "conversation.message.created" [("conversationId", JStr conv); ("messageId", JStr mid)]%string ])).

Lemma stored_found T p message w mid m :
  unique_provider_ids w -> rows (messages w) !! mid = Some m -> stored T p message m ->
  by_provider_id (MetaInboundMessage.id message) w = Some (mid, m).
Proof. intros Hu Hm (Hp & _). by apply by_provider_id_unique. Qed.

(** The same tables as in [w]. *)
Definition as_before (w w' : World) : Prop :=
  contacts w' = contacts w /\ messages w' = messages w /\ realtime w' = realtime w.
Definition stored_post (T : string) (message : MetaInboundMessage.t) (w : World)
    (r : exec js_error unit) (w' : World) : Prop :=
  (window_ok w' /\ contacts_kept w w') /\ inbound_outcome T message w r w'.

Lemma window_ok_tables w w' : contacts w' = contacts w -> messages w' = messages w -> window_ok w -> window_ok w'.
Proof. unfold window_ok, unique_provider_ids. by intros -> ->. Qed.

Lemma unchanged_post T message w r w' :
  window_ok w -> as_before w w' -> r <> OutOfFuel ->
  (r = Ok tt -> is_Some (by_provider_id (MetaInboundMessage.id message) w)) -> stored_post T message w r w'.
Proof.
  intros Hok (Hc & Hm & Hr) Hn Hd. split; [split|split; [done|split]].
  - by eapply window_ok_tables.
  - intros k c Hk. rewrite Hc. by exists c.
  - intros E. destruct (Hd E) as [[mid m] Hby]. exists mid, m. unfold by_provider_id in *. by rewrite Hm.
  - left. by rewrite Hm.
Qed.

Lemma failed_post T message w e w' : window_ok w -> as_before w w' -> stored_post T message w (Throws e) w'.
Proof. intros. by apply unchanged_post. Qed.

Lemma inserted_post T p message w w2 w' r mid m :
  window_ok w2 -> contacts_kept w w2 -> rows (messages w) !! mid = None ->
  rows (messages w2) = <[mid := m]> (rows (messages w)) -> stored T p message m ->
  by_provider_id (MetaInboundMessage.id message) w = None ->
  contacts w' = contacts w2 -> messages w' = messages w2 -> r <> OutOfFuel ->
  (realtime w' = realtime w \/ exists conv, realtime w' = realtime w ++
     [ RealtimeEvent.make T "conversation.updated" [("conversationId"%string, JStr conv)];
       RealtimeEvent.make T "conversation.message.created" [("conversationId", JStr conv); ("messageId", JStr mid)]%string ]) ->
  stored_post T message w r w'.
Proof.
  intros Hok Hk Hmid Hm Hst Hby Hc2 Hm2 Hn Hrt. split; [split|split; [done|split]].
  - by eapply window_ok_tables.
  - intros k c Hkc. rewrite Hc2. by apply Hk.
  - intros _. exists mid, m. unfold by_provider_id. rewrite Hm2.
    apply (stored_found T p message w2); [apply Hok|by rewrite Hm, lookup_insert_eq|done].
  - right. exists mid, p, m. by rewrite Hm2.
Qed.

Lemma unless_duplicate_spec T message w e w' :
  window_ok w -> as_before w w' -> wp (unless_duplicate message e) (stored_post T message w) w'.
Proof.
  intros Hok Hs. assert (Ht : wp (throw e) (stored_post T message w) w') by by apply wp_throw, failed_post.
  destruct e; try exact Ht. cbn. destruct (String.eqb code "P2002"); [|exact Ht].
  apply wp_bind, wp_db; [intros x; by apply failed_post|]. intros dup w3 [= <- <-]. split; [intros x; by apply failed_post|].
  destruct (by_provider_id _ (bump w')) as [[mid m]|] eqn:Ed; [|by apply wp_throw, failed_post].
  apply wp_ret, unchanged_post; [done|exact Hs|done|]. intros _. destruct Hs as (_ & Hm & _).
  exists (mid, m). unfold by_provider_id in *. by rewrite <- Hm.
Qed.

(** The duplicate case: the message table of the commit holds the same rows. *)
Lemma duplicate_post T message w w2 w' r :
  window_ok w2 -> contacts_kept w w2 -> rows (messages w2) = rows (messages w) ->
  is_Some (by_provider_id (MetaInboundMessage.id message) w) -> realtime w2 = realtime w ->
  as_before w2 w' -> r <> OutOfFuel -> stored_post T message w r w'.
Proof.
  intros Hok Hk Hm [[mid m] Hby] Hrt (Hc2 & Hm2 & Hr2) Hn. split; [split|split; [done|split]].
  - by eapply window_ok_tables.
  - intros k c Hkc. rewrite Hc2. by apply Hk.
  - intros _. exists mid, m. apply by_provider_id_row in Hby as [Hrow Hpid]. unfold by_provider_id. rewrite Hm2.
    apply by_provider_id_unique; [apply Hok|by rewrite Hm|done].
  - left. by rewrite Hm2, Hr2.
Qed.

Lemma persist_attempt_spec T s disp name message p d w :
  window_ok w -> wp (persist_attempt T s disp name message p d) (stored_post T message w) w.
Proof.
  intros Hok. apply wp_try, wp_bind, wp_transaction. eapply wp_mono; [by apply persist_body_spec|].
  intros [res|e|] w2; [|intros _ n; by apply unless_duplicate_spec|done].
  intros [(Hok2 & Hk2) [Hrt Hres]]. split; [intros e n; by apply unless_duplicate_spec|].
  destruct res as [[mid conv]|].
  - destruct Hres as (m & Hmid & Hm2 & Hst & Hby).
    assert (Hins : forall r w3, contacts w3 = contacts w2 -> messages w3 = messages w2 -> r <> OutOfFuel ->
      (realtime w3 = realtime w \/ exists conv, realtime w3 = realtime w ++
         [ RealtimeEvent.make T "conversation.updated" [("conversationId"%string, JStr conv)];
           RealtimeEvent.make T "conversation.message.created" [("conversationId", JStr conv); ("messageId", JStr mid)]%string ]) -> stored_post T message w r w3).
    { intros r w3 Hc3 Hm3 Hn3 Hr3. by eapply inserted_post. }
    split.
    + intros e. apply wp_throw, Hins; [done|done|done|by left].
    + unfold announce. destruct (truthy (Some conv)) as [conv'|].
      * apply wp_bind, wp_modify, wp_modify, Hins; [done|done|done|]. right. exists conv'.
        cbn. rewrite Hrt, <- app_assoc. done.
      * apply wp_ret, Hins; [done|done|done|by left].
  - destruct Hres as [Hby Hm2]. split; [intros e; apply wp_throw|apply wp_ret]; by eapply duplicate_post.
Qed.

Lemma stored_post_clock T message w n r w' : stored_post T message (w <| tick := n |>) r w' -> stored_post T message w r w'.
Proof. done. Qed.

Lemma persistInboundMessage_spec T s disp name message w :
  window_ok w -> wp (persistInboundMessage T s disp name message) (stored_post T message w) w.
Proof.
  intros Hok. unfold persistInboundMessage. apply wp_bind, wp_lift. unfold normalizePhoneNumber.
  destruct (E164_DIGITS _); [|by apply failed_post]. apply wp_bind.
  destruct (parseTimestamp _); [apply wp_ret; by apply persist_attempt_spec|].
  apply wp_bind, wp_now. intros t. apply wp_ret. eapply wp_mono; [by apply persist_attempt_spec|].
  intros r w'. apply stored_post_clock.
Qed.

(** Storing an inbound message keeps every contact, keeps every service window a day after the
    contact's latest message, and keeps every stored message covered by its contact's window. It
    either leaves the messages alone or adds one row for a message that was not there; a normal end
    means the message is stored, and the inbox hears only of a new message, once. *)
Theorem persistInboundMessage_once T s disp name message w (Hok : window_ok w) :
  let '(r, w') := persistInboundMessage T s disp name message w in
  window_ok w' /\ contacts_kept w w' /\ inbound_outcome T message w r w'.
Proof.
  pose proof (persistInboundMessage_spec T s disp name message w Hok) as Hw. unfold wp in Hw.
  destruct (persistInboundMessage _ _ _ _ _ w) as [r w']. destruct Hw as [[H1 H2] H3]. done.
Qed.

(** *** Whole payloads *)
(** Nothing of what is stored is lost. *)
Definition grows (w w' : World) : Prop := contacts_kept w w' /\ rows (messages w) ⊆ rows (messages w').
#[export] Instance grows_preorder : PreOrder grows.
Proof.
  split.
  - intros w. split; [|done]. intros k c Hk. by exists c.
  - intros w1 w2 w3 [Hc1 Hm1] [Hc2 Hm2]. split; [|by etrans]. intros k c Hk.
    destruct (Hc1 k c Hk) as (c2 & Hk2 & A1 & A2 & A3 & A4). destruct (Hc2 k c2 Hk2) as (c3 & Hk3 & B1 & B2 & B3 & B4).
    exists c3. split; [done|]. do 3 (split; [congruence|]). intros u Hu. destruct (A4 u Hu) as (v & Hv & Hle).
    destruct (B4 v Hv) as (x & Hx & Hle'). exists x. split; [done|lia].
Qed.

Definition is_stored (message : MetaInboundMessage.t) (w : World) : Prop :=
  exists k m, rows (messages w) !! k = Some m /\ Message.providerMessageId m = Some (MetaInboundMessage.id message).
Lemma is_stored_grows message w w' : is_stored message w -> grows w w' -> is_stored message w'.
Proof. intros (k & m & Hk & Hp) [_ Hm]. exists k, m. split; [by eapply lookup_weaken|done]. Qed.

Lemma stored_post_grows T message w r w' :
  stored_post T message w r w' -> r <> OutOfFuel /\ window_ok w' /\ grows w w' /\ (r = Ok tt -> is_stored message w').
Proof.
  intros [[Hok Hk] (Hn & Hok' & Hcase)]. split; [done|]. split; [done|]. split; [split; [done|]|].
  - destruct Hcase as [[-> _]|(mid & p & m & Hmid & -> & _)]; [done|by apply insert_subseteq].
  - intros E. destruct (Hok' E) as (mid & m & Hby%by_provider_id_row). by exists mid, m.
Qed.

(** The messages of a change and of a payload that the code reads. *)
Definition change_messages (change : json) : list MetaInboundMessage.t :=
  match prop "value" change with Some (JObj fields) => extractMessages (JObj fields) | _ => [] end.
Definition payload_messages (payload : json) : list MetaInboundMessage.t :=
  items (prop "entry" payload) ≫= fun entry => items (prop "changes" entry) ≫= change_messages.
Definition all_stored (ms : list MetaInboundMessage.t) (w : World) : Prop := forall m, m ∈ ms -> is_stored m w.
Lemma all_stored_grows ms w w' : all_stored ms w -> grows w w' -> all_stored ms w'.
Proof. intros Ha Hg m Hm. eapply is_stored_grows; [by apply Ha|done]. Qed.

Definition accepts (ms : list MetaInboundMessage.t) (w : World) (r : exec js_error unit) (w' : World) : Prop :=
  r <> OutOfFuel /\ window_ok w' /\ grows w w' /\ (r = Ok tt -> all_stored ms w').
Lemma accepts_nothing w : window_ok w -> accepts [] w (Ok tt) w.
Proof. intros Hok. split; [done|]. split; [done|]. split; [done|]. by intros _ m ?%elem_of_nil. Qed.
Lemma accepts_failed ms w e w' : window_ok w -> contacts w' = contacts w -> messages w' = messages w -> accepts ms w (Throws e) w'.
Proof.
  intros Hok Hc Hm. split; [done|]. split; [by eapply window_ok_tables|]. split; [|done].
  split; [intros k c Hk; rewrite Hc; by exists c|by rewrite Hm].
Qed.

Lemma bind_singleton {A} (l : list A) : (l ≫= fun x => [x]) = l.
Proof. induction l as [|x l IH]; [done|]. cbn. by f_equal. Qed.
Lemma accepts_for_each {X} (l : list X) (f : X -> io World unit) (ms : X -> list MetaInboundMessage.t) w :
  window_ok w -> (forall x w, window_ok w -> wp (f x) (accepts (ms x) w) w) ->
  wp (for_each l f) (accepts (l ≫= ms) w) w.
Proof.
  intros Hok Hf. eapply wp_mono.
  - apply (wp_for_each_all window_ok grows (fun x => all_stored (ms x))); [|done|by intros; apply Hf].
    intros x w1 w2. apply all_stored_grows.
  - intros r w' (Hn & Hok' & Hg & Hd). split; [done|]. split; [done|]. split; [done|].
    intros E m (x & Hm & Hx)%list_elem_of_bind. by apply (Hd E x).
Qed.

Lemma process_change_spec change w : window_ok w -> wp (process_change change) (accepts (change_messages change) w) w.
Proof.
  intros Hok. unfold process_change, change_messages.
  destruct change as [| | | |l|fields]; try by apply wp_ret, accepts_nothing.
  cbn [is_object negb]. destruct (prop "value" _) as [value|]; [|by apply wp_ret, accepts_nothing].
  destruct value as [| | | |l|vfields]; try by apply wp_ret, accepts_nothing.
  cbn [is_record negb]. set (value := JObj vfields).
  destruct (extractMessages value) as [|m0 ms] eqn:Em; [by apply wp_ret, accepts_nothing|]. rewrite <- Em. clear Em.
  destruct (readString _ "phone_number_id") as [pn|]; [|by apply wp_throw, accepts_failed].
  apply wp_bind. unfold findByProviderPhoneNumberId. apply wp_bind, wp_db; [intros x; by apply accepts_failed|].
  intros snd w1 [= <- <-]. split; [intros x; by apply accepts_failed|].
  destruct (findFirst _ _) as [[k sender]|]; [apply wp_ret|by apply wp_throw, accepts_failed].
  eapply wp_mono.
  - apply (accepts_for_each _ _ (fun m => [m])); [done|]. intros m w2 Hok2. eapply wp_mono; [by apply persistInboundMessage_spec|].
    intros r w3 (H1 & H2 & H3 & H4)%stored_post_grows. split; [done|]. split; [done|]. split; [done|].
    intros E m' ->%list_elem_of_singleton. by apply H4.
  - intros r w2. by rewrite bind_singleton.
Qed.

Lemma process_spec payload w : window_ok w -> wp (process payload) (accepts (payload_messages payload) w) w.
Proof.
  intros Hok. unfold process, payload_messages.
  destruct payload as [| | | |l|fields]; try by apply wp_ret, accepts_nothing. cbn [is_record negb].
  apply accepts_for_each; [done|]. clear w Hok. intros entry w Hok.
  destruct entry as [| | | |l|efields]; try by apply wp_ret, accepts_nothing. cbn [is_object negb].
  apply accepts_for_each; [done|]. intros; by apply process_change_spec.
Qed.

(** C23: Whatever a webhook contains and whatever fails, processing it loses nothing of what is
    stored and keeps the service windows right; when it ends normally, every message of the payload
    that has an id and a sender is stored. *)
Theorem process_stores_all payload w (Hok : window_ok w) :
  let '(r, w') := process payload w in
  r <> OutOfFuel /\ window_ok w' /\ grows w w' /\
  (r = Ok tt -> forall m, m ∈ payload_messages payload -> is_stored m w').
Proof.
  pose proof (process_spec payload w Hok) as Hw. unfold wp in Hw. by destruct (process payload w).
Qed.
End inbound_proofs.

(** ** A message from a new customer *)
Definition inbound_example : World (H := gmap_prisma) :=
  senders_example <| messages := ({[ "m"%string := queued_message ]} : gmap string Message.t) |>.
Definition hello_payload : json :=
  (JObj [("entry", JArr [JObj [("changes", JArr [JObj [("value", JObj [
    ("metadata", JObj [("phone_number_id", JStr "1"); ("display_phone_number", JStr "34600000000")]);
    ("contacts", JArr [JObj [("wa_id", JStr "34611111111"); ("profile", JObj [("name", JStr "Ana")])]]);
    ("messages", JArr [JObj [("id", JStr "wamid.1"); ("from", JStr "34611111111");
       ("timestamp", JStr "1700000000"); ("type", JStr "text")]])])]])]])])%string.

Lemma inbound_example_ok : window_ok inbound_example.
Proof.
  assert (Hm : forall k m, rows (messages inbound_example) !! k = Some m -> k = "m"%string /\ m = queued_message).
  { intros k m. change (rows (messages inbound_example)) with ({[ "m"%string := queued_message ]} : gmap string Message.t).
    by intros [<- <-]%lookup_singleton_Some. }
  split; [|split].
  - intros k1 k2 m1 m2 p Hk1 _ E. apply Hm in Hk1 as [_ ->]. discriminate E.
  - intros k c. change (rows (contacts inbound_example)) with (∅ : gmap string Contact.t). by rewrite lookup_empty.
  - intros k m [_ ->]%Hm T p u. discriminate.
Qed.

(** The message is stored and its contact, named by the webhook, can be answered for a day. *)
Example hello_stored :
  let '(r, w') := @process gmap_prisma (calm 5) hello_payload inbound_example in
  r = Ok tt /\ (fun c : Contact.t => (Contact.phone c, Contact.name c, Contact.serviceWindowExpiresAt c)) <$>
      (map_to_list (rows (contacts w'))).*2 =
    [("34611111111"%string, Some "Ana"%string, Some (1700000000 * 1000 + DAY))] /\
  length (realtime w') = 2%nat.
Proof. vm_compute. auto. Qed.

Definition hello_message : MetaInboundMessage.t :=
  MetaInboundMessage.make "wamid.1" "+34 611" None (Some "text"%string) [].

Lemma persistInboundMessage_once_witness :
  let '(r, w') := @persistInboundMessage gmap_prisma (calm 5) "t" "a" None None hello_message inbound_example in
  window_ok w' /\ contacts_kept inbound_example w' /\ inbound_outcome "t" hello_message inbound_example r w'.
Proof. apply (@persistInboundMessage_once gmap_prisma (calm 5)), inbound_example_ok. Defined.

Lemma process_stores_all_witness :
  let '(r, w') := @process gmap_prisma (calm 5) hello_payload inbound_example in
  r <> OutOfFuel /\ window_ok w' /\ grows inbound_example w' /\
  (r = Ok tt -> forall m, m ∈ payload_messages hello_payload -> is_stored m w').
Proof. apply (@process_stores_all gmap_prisma (calm 5)), inbound_example_ok. Defined.
