(* ===== verification/Payload.v ===== *)
(** Payloads of outbound messages: the media payloads the API accepts
    ([messages/media-payload.util.ts]), the traffic class of a message
    ([messages/traffic-class.util.ts]) and the request body a message becomes
    ([meta/meta-message.mapper.ts]). *)
From stdpp Require Import prelude gmap strings pretty.
From Stdlib Require Import Ascii ZArith Lia.
From S2P Require Import Prelude Json Io Domain Contacts.
#[local] Open Scope Z_scope.
Import MessageType.

(** What the code reads of a parsed [URL]. *)
Module Url.
Record t := make {
  href : string;       (** [toString()] *)
  protocol : string;
  username : string;
  password : string;
  hostname : string;
  host : string;       (** with the port *)
  origin : string;
  pathname : string;
  search : string;
  hash : string;
  searchParams : list (string * string)
}.
End Url.
(** The platform's [new URL(text)]; [None]: it throws. *)
Class UrlParser := parse_url : string -> option Url.t.

(** *** Media payloads *)
Definition MEDIA_MESSAGE_TYPES : list string := ["IMAGE"; "VIDEO"; "AUDIO"; "DOCUMENT"]%string.
Definition isMediaMessageType (value : string) : bool := bool_decide (value ∈ MEDIA_MESSAGE_TYPES).

Definition readOptionalString (value : option json) (label : string) (maxLength : Z)
    : exec js_error (option string) :=
  match value with
  | None => Ok None
  | Some (JStr value) =>
      let normalized := JsString.trim value in
      if String.eqb normalized "" then Throws (MediaPayloadError (label +:+ " cannot be blank"))
      else if maxLength <? JsString.len normalized then
        Throws (MediaPayloadError (label +:+ " cannot exceed " +:+ pretty maxLength +:+ " characters"))
      else Ok (Some normalized)
  | Some _ => Throws (MediaPayloadError (label +:+ " must be a string when provided"))
  end.

Fixpoint containsControlCharacter (value : string) : bool :=
  match value with
  | EmptyString => false
  | String character rest =>
      let codePoint := JsString.code_unit character in
      (codePoint <=? 31) || (codePoint =? 127) || containsControlCharacter rest
  end.

Section payload.
Context `{UrlParser}.

Definition validateHttpsLink (type value : string) : exec js_error unit :=
  match parse_url value with
  | None => Throws (MediaPayloadError (type +:+ " payload 'link' must be an absolute HTTPS URL"))
  | Some url =>
      if negb (String.eqb (Url.protocol url) "https:") || String.eqb (Url.hostname url) "" then
        Throws (MediaPayloadError (type +:+ " payload 'link' must be an absolute HTTPS URL"))
      else if negb (String.eqb (Url.username url) "") || negb (String.eqb (Url.password url) "") then
        Throws (MediaPayloadError (type +:+ " payload 'link' cannot contain embedded credentials"))
      else if negb (String.eqb (Url.hash url) "") then
        Throws (MediaPayloadError (type +:+ " payload 'link' cannot contain a URL fragment"))
      else Ok tt
  end.

Definition allowed_key (type key : string) : bool :=
  String.eqb key "id" || String.eqb key "link" ||
  (negb (String.eqb type "AUDIO") && String.eqb key "caption") ||
  (String.eqb type "DOCUMENT" && String.eqb key "filename").
Definition optional_field (key : string) (value : option string) : list (string * json) :=
  match truthy value with Some s => [(key, JStr s)] | None => [] end.

Definition normalizeMediaPayload (type : string) (input : json) : exec js_error json :=
  if negb (isMediaMessageType type) then
    Throws (MediaPayloadError ("Unsupported media message type: " +:+ type)) else
  match input with
  | JObj payload =>
      match List.find (fun kv => negb (allowed_key type kv.1)) payload with
      | Some (key, _) =>
          Throws (MediaPayloadError (type +:+ " payload contains unsupported field '" +:+ key +:+ "'"))
      | None =>
          id ← readOptionalString (field "id" payload) (type +:+ " payload 'id'") 512;
          link ← readOptionalString (field "link" payload) (type +:+ " payload 'link'") 2048;
          if bool_decide (is_Some (truthy id) <-> is_Some (truthy link)) then
            Throws (MediaPayloadError (type +:+ " payload requires exactly one of 'id' or 'link'")) else
          _ ← (match truthy link with Some link => validateHttpsLink type link | None => Ok tt end);
          caption ← (if String.eqb type "AUDIO" then Ok None
                     else readOptionalString (field "caption" payload) (type +:+ " payload 'caption'") 1024);
          filename ← (if String.eqb type "DOCUMENT"
                      then readOptionalString (field "filename" payload) (type +:+ " payload 'filename'") 240
                      else Ok None);
          if from_option containsControlCharacter false filename then
            Throws (MediaPayloadError "DOCUMENT payload 'filename' cannot contain control characters") else
          Ok (JObj (optional_field "id" id ++ optional_field "link" link ++
                    optional_field "caption" caption ++ optional_field "filename" filename))
      end
  | _ => Throws (MediaPayloadError (type +:+ " payload must be an object"))
  end.

(** *** The request body of a message *)
Fixpoint digits_of (s : string) : string :=
  match s with
  | EmptyString => EmptyString
  | String c s' =>
      let n := JsString.code_unit c in
      if (48 <=? n) && (n <=? 57) then String c (digits_of s') else digits_of s'
  end.
Definition normalizeRecipient (value : option string) : exec js_error string :=
  match truthy value with
  | None => Throws (Error "Outbound message recipient is required")
  | Some value =>
      let normalized := digits_of value in
      if (JsString.len normalized <? 8) || (15 <? JsString.len normalized) then
        Throws (Error "Outbound message recipient must be a valid international phone number")
      else Ok normalized
  end.
Definition asObject (value : json) : exec js_error (list (string * json)) :=
  match value with
  | JObj fields => Ok fields
  | _ => Throws (Error "Message payload must be an object")
  end.
(** [typeof v === "string" && v.trim().length > 0] *)
Definition non_blank (v : option json) : option string :=
  s ← as_string v; if String.eqb (JsString.trim s) "" then None else Some s.

Definition meta_body (to type key : string) (content : json) : json :=
  (JObj [("messaging_product", JStr "whatsapp"); ("recipient_type", JStr "individual");
         ("to", JStr to); ("type", JStr type); (key, content)])%string.

Definition mapTextMessage (to : string) (payload : list (string * json)) : exec js_error json :=
  match non_blank (field "body" payload) with
  | None => Throws (Error "TEXT payload requires a non-empty 'body' string")
  | Some body =>
      match field "previewUrl" payload with
      | None => Ok (meta_body to "text" "text" (JObj [("body"%string, JStr body)]))
      | Some (JBool b) =>
          Ok (meta_body to "text" "text" (JObj [("body"%string, JStr body); ("preview_url"%string, JBool b)]))
      | Some _ => Throws (Error "TEXT payload 'previewUrl' must be a boolean when provided")
      end
  end.

Definition mapTemplateMessage (to : string) (payload : list (string * json)) : exec js_error json :=
  match non_blank (field "name" payload) with
  | None => Throws (Error "TEMPLATE payload requires a non-empty 'name' string")
  | Some name =>
      match non_blank (field "language" payload) with
      | None => Throws (Error "TEMPLATE payload requires a non-empty 'language' string")
      | Some language =>
          let template := [("name", JStr name); ("language", JObj [("code", JStr language)])]%string in
          match field "components" payload with
          | None => Ok (meta_body to "template" "template" (JObj template))
          | Some (JArr components) =>
              Ok (meta_body to "template" "template" (JObj (template ++ [("components"%string, JArr components)])))
          | Some _ => Throws (Error "TEMPLATE payload 'components' must be an array when provided")
          end
      end
  end.

Definition mapMediaMessage (to type : string) (payload : list (string * json)) : exec js_error json :=
  media ← normalizeMediaPayload type (JObj payload);
  let key := JsString.toLowerCase type in Ok (meta_body to key key media).

Definition mapMessageToMetaPayload (type : MessageType.t) (to : option string) (payload : json)
    : exec js_error json :=
  to ← normalizeRecipient to;
  payload ← asObject payload;
  match type with
  | TEXT => mapTextMessage to payload
  | TEMPLATE => mapTemplateMessage to payload
  | IMAGE => mapMediaMessage to "IMAGE" payload
  | VIDEO => mapMediaMessage to "VIDEO" payload
  | AUDIO => mapMediaMessage to "AUDIO" payload
  | DOCUMENT => mapMediaMessage to "DOCUMENT" payload
  | _ => Throws (Error ("Unsupported outbound message type: " +:+ MessageType.name type))
  end.
End payload.

(** *** The traffic class *)
Definition deriveTrafficClass (messageType : MessageType.t) (templateCategory : option string)
    : MessageTrafficClass.t :=
  if negb (bool_decide (messageType = TEMPLATE)) then MessageTrafficClass.TRANSACTIONAL else
  match (fun c => JsString.toUpperCase (JsString.trim c)) <$> templateCategory with
  | Some c => if String.eqb c "AUTHENTICATION" then MessageTrafficClass.OTP
              else if String.eqb c "MARKETING" then MessageTrafficClass.MARKETING
              else MessageTrafficClass.TRANSACTIONAL
  | None => MessageTrafficClass.TRANSACTIONAL
  end.

(** ** What the API accepts is what the dispatcher sends *)
Lemma reverse_involutive s : JsString.reverse (JsString.reverse s) = s.
Proof.
  unfold JsString.reverse. rewrite String.list_ascii_of_string_of_list_ascii, rev_involutive.
  apply String.string_of_list_ascii_of_string.
Qed.

Definition starts_clean (s : string) : Prop :=
  match s with String c _ => JsString.is_space c = false | EmptyString => True end.

Lemma trimStart_clean s : starts_clean (JsString.trimStart s).
Proof. induction s as [|c s IH]; cbn; [done|]. by destruct (JsString.is_space c) eqn:E. Qed.
Lemma trimStart_fixed s : starts_clean s -> JsString.trimStart s = s.
Proof. destruct s as [|c s]; cbn; [done|]. by intros ->. Qed.
Lemma trimStart_suffix s : exists p, s = p +:+ JsString.trimStart s.
Proof.
  induction s as [|c s [p IH]]; cbn; [by exists ""|]. destruct (JsString.is_space c); [|by exists ""].
  exists (String c p). change (String c s = String c (p +:+ JsString.trimStart s)). by rewrite <- IH.
Qed.

Lemma list_ascii_app a b :
  String.list_ascii_of_string (a +:+ b) = String.list_ascii_of_string a ++ String.list_ascii_of_string b.
Proof.
  induction a as [|c a IH]; [done|].
  change (c :: String.list_ascii_of_string (a +:+ b) = c :: (String.list_ascii_of_string a ++ String.list_ascii_of_string b)).
  by rewrite IH.
Qed.
Lemma string_of_list_app a b :
  String.string_of_list_ascii (a ++ b) = String.string_of_list_ascii a +:+ String.string_of_list_ascii b.
Proof.
  induction a as [|c a IH]; [done|].
  change (String c (String.string_of_list_ascii (a ++ b)) = String c (String.string_of_list_ascii a +:+ String.string_of_list_ascii b)).
  by rewrite IH.
Qed.
Lemma reverse_app a b : JsString.reverse (a +:+ b) = JsString.reverse b +:+ JsString.reverse a.
Proof. unfold JsString.reverse. by rewrite list_ascii_app, rev_app_distr, string_of_list_app. Qed.

Lemma trimEnd_prefix s : exists p, s = JsString.trimEnd s +:+ p.
Proof.
  destruct (trimStart_suffix (JsString.reverse s)) as [p Hp]. exists (JsString.reverse p).
  unfold JsString.trimEnd. by rewrite <- reverse_app, <- Hp, reverse_involutive.
Qed.
Lemma trimEnd_clean s : starts_clean s -> starts_clean (JsString.trimEnd s).
Proof. destruct (trimEnd_prefix s) as [p Hp]. rewrite Hp at 1. by destruct (JsString.trimEnd s). Qed.
Lemma trimEnd_again s : JsString.trimEnd (JsString.trimEnd s) = JsString.trimEnd s.
Proof. unfold JsString.trimEnd. by rewrite reverse_involutive, (trimStart_fixed (JsString.trimStart _)) by apply trimStart_clean. Qed.
Lemma trim_again s : JsString.trim (JsString.trim s) = JsString.trim s.
Proof.
  unfold JsString.trim. rewrite (trimStart_fixed (JsString.trimEnd _)) by apply trimEnd_clean, trimStart_clean.
  apply trimEnd_again.
Qed.

(** A field that was read once reads the same again. *)
Definition clean (label : string) (maxLength : Z) (s : string) : Prop :=
  truthy (Some s) = Some s /\ readOptionalString (Some (JStr s)) label maxLength = Ok (Some s).

Lemma readOptionalString_ok v label n o :
  readOptionalString v label n = Ok o -> from_option (clean label n) True o.
Proof.
  unfold readOptionalString, clean. destruct v as [[| | |s| |]|]; try discriminate; [|by intros [= <-]].
  cbv zeta. destruct (String.eqb _ _) eqn:E1; [discriminate|]. destruct (n <? _) eqn:E2; [discriminate|].
  intros [= <-]. cbn. rewrite trim_again, E1, E2. split; [by destruct (JsString.trim s)|done].
Qed.

(** The fields of a normalised payload, and how they read again. *)
Definition media_fields (id link caption filename : option string) : list (string * json) :=
  optional_field "id" id ++ optional_field "link" link ++ optional_field "caption" caption ++
  optional_field "filename" filename.
Definition readable (label : string) (n : Z) (o : option string) : Prop :=
  truthy o = o /\ readOptionalString (JStr <$> o) label n = Ok o.

Lemma readOptionalString_readable v label n o : readOptionalString v label n = Ok o -> readable label n o.
Proof. intros Hr%readOptionalString_ok. unfold readable. by destruct o. Qed.
Lemma readable_none label n : readable label n None.
Proof. done. Qed.

Lemma media_fields_read id link caption filename :
  truthy id = id -> truthy link = link -> truthy caption = caption -> truthy filename = filename ->
  field "id" (media_fields id link caption filename) = JStr <$> id /\
  field "link" (media_fields id link caption filename) = JStr <$> link /\
  field "caption" (media_fields id link caption filename) = JStr <$> caption /\
  field "filename" (media_fields id link caption filename) = JStr <$> filename.
Proof.
  unfold media_fields, optional_field. intros -> -> -> ->.
  by destruct id, link, caption, filename.
Qed.
Lemma media_fields_allowed type id link caption filename :
  truthy id = id -> truthy link = link -> truthy caption = caption -> truthy filename = filename ->
  (String.eqb type "AUDIO" = true -> caption = None) -> (String.eqb type "DOCUMENT" = false -> filename = None) ->
  List.find (fun kv => negb (allowed_key type kv.1)) (media_fields id link caption filename) = None.
Proof.
  unfold media_fields, optional_field, allowed_key. intros -> -> -> -> Hc Hf.
  destruct (String.eqb type "AUDIO"), (String.eqb type "DOCUMENT");
    rewrite ?Hc, ?Hf by done; by destruct id, link, caption, filename.
Qed.

Section payload_proofs.
Context `{UrlParser}.

Lemma readOptionalString_total v label n : readOptionalString v label n <> OutOfFuel.
Proof. unfold readOptionalString. by repeat case_match. Qed.
Lemma validateHttpsLink_total type v : validateHttpsLink type v <> OutOfFuel.
Proof. unfold validateHttpsLink. by repeat case_match. Qed.
Lemma exec_bind_total {E A B} (m : exec E A) (f : A -> exec E B) :
  m <> OutOfFuel -> (forall a, f a <> OutOfFuel) -> m ≫= f <> OutOfFuel.
Proof. intros Hm Hf. destruct m; [apply Hf|done|done]. Qed.
Lemma normalizeMediaPayload_total type input : normalizeMediaPayload type input <> OutOfFuel.
Proof.
  unfold normalizeMediaPayload. destruct (negb _); [done|]. destruct input as [| | | | |payload]; try done.
  destruct (List.find _ _) as [[]|]; [done|].
  repeat (apply exec_bind_total; [first [apply readOptionalString_total|case_match; first [done|apply readOptionalString_total|apply validateHttpsLink_total]]|
    intros ?; try (destruct (bool_decide _); [done|])]). by destruct (from_option _ _ _).
Qed.

Lemma normalizeMediaPayload_fixed type input q :
  normalizeMediaPayload type input = Ok q -> exists fields, q = JObj fields /\ normalizeMediaPayload type q = Ok q.
Proof.
  unfold normalizeMediaPayload. destruct (isMediaMessageType type); [|discriminate]. cbn [negb].
  destruct input as [| | | | |payload]; try discriminate.
  destruct (List.find _ payload) as [[? ?]|]; [discriminate|].
  intros (id & Hid%readOptionalString_readable & Hq)%exec_bind_inv.
  apply exec_bind_inv in Hq as (link & Hlink%readOptionalString_readable & Hq).
  destruct (bool_decide _) eqn:Exor; [discriminate|]. apply exec_bind_inv in Hq as ([] & Hurl & Hq).
  apply exec_bind_inv in Hq as (caption & Hcap & Hq). apply exec_bind_inv in Hq as (filename & Hfile & Hq).
  destruct (from_option _ _ filename) eqn:Ectl; [discriminate|]. injection Hq as <-. eexists. split; [done|].
  assert (Hc : readable (type +:+ " payload 'caption'") 1024 caption /\ (String.eqb type "AUDIO" = true -> caption = None)).
  { destruct (String.eqb type "AUDIO"); [by injection Hcap as <-|]. split; [by eapply readOptionalString_readable|done]. }
  assert (Hf : readable (type +:+ " payload 'filename'") 240 filename /\ (String.eqb type "DOCUMENT" = false -> filename = None)).
  { destruct (String.eqb type "DOCUMENT"); [split; [by eapply readOptionalString_readable|done]|by injection Hfile as <-]. }
  clear Hcap Hfile. destruct Hid as [Ti Ri], Hlink as [Tl Rl], Hc as [[Tc Rc] Hc], Hf as [[Tf Rf] Hf].
  fold (media_fields id link caption filename). rewrite media_fields_allowed by done.
  destruct (media_fields_read id link caption filename) as (-> & -> & -> & ->); [done..|].
  rewrite Ri, exec_bind_ok, Rl, exec_bind_ok, Exor, Hurl, exec_bind_ok, Rc, Rf.
  replace (if String.eqb type "AUDIO" then Ok None else Ok caption) with (Ok caption : exec js_error (option string))
    by (destruct (String.eqb type "AUDIO"); [by rewrite Hc|done]).
  replace (if String.eqb type "DOCUMENT" then Ok filename else Ok None) with (Ok filename : exec js_error (option string))
    by (destruct (String.eqb type "DOCUMENT"); [done|by rewrite Hf]).
  by rewrite !exec_bind_ok, Ectl.
Qed.
End payload_proofs.
