(* ===== verification/Secrets.v ===== *)
(** References to secrets ([meta/secret-reference.service.ts]): a credential is named by an
    environment variable or by a file below one of the configured roots.

    The file system is a parameter: every call may answer anything, also differently from one call
    to the next.  What a reference gives is still a single line of bounded length, read from a
    path that was inside a root. *)
From stdpp Require Import prelude gmap strings pretty.
From Stdlib Require Import Ascii ZArith Lia.
From S2P Require Import Prelude Json Io Prisma Domain Payload.
#[local] Open Scope Z_scope.

Definition DEFAULT_SECRET_FILE_ROOTS : string := "/run/secrets/api-whatsapp".
Definition MAX_SECRET_FILE_BYTES : Z := 64 * 1024.

Inductive SecretReferenceErrorReason := INVALID_REFERENCE | NOT_CONFIGURED | UNAVAILABLE | INVALID_SECRET.
Record SecretReferenceError := secret_error { reason : SecretReferenceErrorReason; message : string }.

(** The result of a step that fails with a [SecretReferenceError]. *)
Definition secret (A : Type) : Type := (SecretReferenceError + A)%type.
Definition refuse {A} (r : SecretReferenceErrorReason) (m : string) : secret A := inl (secret_error r m).

(** What the code reads of [Stats], and an open [FileHandle]. *)
Record Stats := { isFile : bool; isSymbolicLink : bool; st_size : Z }.
Record OpenFile := { file_stat : option Stats; contents : option string }.

(** The process and its file system; [None] is an exception.  The number tells the calls apart. *)
Class Host := {
  process_env : string -> option string;
  realpath : nat -> string -> option string;
  lstat : nat -> string -> option Stats;
  open_nofollow : nat -> string -> option OpenFile
}.

(** *** Text *)
Definition env_start (c : Ascii.ascii) : bool :=
  let n := JsString.code_unit c in ((65 <=? n) && (n <=? 90)) || (n =? 95).
Definition env_char (c : Ascii.ascii) : bool :=
  let n := JsString.code_unit c in env_start c || ((48 <=? n) && (n <=? 57)).
(** [/^[A-Z_][A-Z0-9_]*$/] *)
Definition ENV_NAME_PATTERN (s : string) : bool :=
  match s with
  | EmptyString => false
  | String c rest => env_start c && forallb env_char (String.list_ascii_of_string rest)
  end.

Definition line_end (c : Ascii.ascii) : bool :=
  let n := JsString.code_unit c in (n =? 10) || (n =? 13).
(** [value.replace(/[\r\n]+$/, "")] *)
Fixpoint drop_line_ends (s : string) : string :=
  match s with EmptyString => EmptyString | String c s' => if line_end c then drop_line_ends s' else s end.
Definition strip_line_ends (s : string) : string := JsString.reverse (drop_line_ends (JsString.reverse s)).

(** [s.split(sep)] at one character. *)
Fixpoint split_at (sep : Ascii.ascii) (s : string) : list string :=
  match s with
  | EmptyString => [""]
  | String c s' =>
      if Ascii.eqb c sep then "" :: split_at sep s' else
      match split_at sep s' with
      | [] => [String c EmptyString]
      | part :: rest => String c part :: rest
      end
  end.

(** [resolve(root)] of an absolute POSIX path: without empty, [.] and [..] segments. *)
Definition path_step (parts : list string) (part : string) : list string :=
  if String.eqb part "" || String.eqb part "." then parts
  else if String.eqb part ".." then removelast parts
  else parts ++ [part].
Definition resolve_path (path : string) : string :=
  match foldl path_step [] (split_at "/"%char path) with
  | [] => "/"
  | parts => foldl (fun acc part => acc +:+ "/" +:+ part) "" parts
  end.
Definition isAbsolute (path : string) : bool := String.prefix "/" path.

Definition bad_char (c : Ascii.ascii) : bool :=
  let n := JsString.code_unit c in (n =? 0) || (n =? 10) || (n =? 13).
Definition validateSecretValue (value : string) : secret string :=
  if (JsString.len value =? 0) || (MAX_SECRET_FILE_BYTES <? JsString.len value) then
    refuse INVALID_SECRET "Secret value has an invalid length"
  else if existsb bad_char (String.list_ascii_of_string value) then
    refuse INVALID_SECRET "Secret value must be a single-line string"
  else inr value.

Section secrets.
Context `{Prisma} `{Environment} `{Host}.

(** A call of the file system. *)
Definition host_call {A} (f : nat -> option A) : io World (option A) := fun w => (Ok (f (tick w)), bump w).

Definition resolveEnvironment (name : string) : secret string :=
  if negb (ENV_NAME_PATTERN name) then
    refuse INVALID_REFERENCE "Environment secret references must use a valid environment variable name" else
  match truthy (process_env name) with
  | None => refuse NOT_CONFIGURED "Referenced environment secret is unavailable"
  | Some value => validateSecretValue value
  end.

Fixpoint checked_roots (roots : list string) : secret (list string) :=
  match roots with
  | [] => inr []
  | root :: rest =>
      if negb (isAbsolute root) then refuse NOT_CONFIGURED "Mounted secret roots must be absolute paths" else
      let normalized := resolve_path root in
      if String.eqb normalized "/" then
        refuse NOT_CONFIGURED "Filesystem root cannot be used as a mounted secret root" else
      match checked_roots rest with
      | inl e => inl e
      | inr l => inr (normalized :: l)
      end
  end.
Definition allowedFileRoots : secret (list string) :=
  let raw := default DEFAULT_SECRET_FILE_ROOTS (process_env "SECRET_FILE_ROOTS") in
  let roots := filter (fun v => negb (String.eqb v "") = true) (JsString.trim <$> split_at ","%char raw) in
  match roots with
  | [] => refuse NOT_CONFIGURED "No mounted secret roots are configured"
  | _ => checked_roots roots
  end.

Definition inside (path realRoot : string) : bool :=
  String.eqb path realRoot || String.prefix (realRoot +:+ "/") path.
Fixpoint isInsideAllowedRoot (path : string) (roots : list string) : io World bool :=
  match roots with
  | [] => mret false
  | root :: rest =>
      realRoot ← host_call (fun n => realpath n root);
      match realRoot with
      | None => isInsideAllowedRoot path rest
      | Some realRoot => if inside path realRoot then mret true else isInsideAllowedRoot path rest
      end
  end.

Definition bad_size (s : Stats) : bool := (st_size s <=? 0) || (MAX_SECRET_FILE_BYTES <? st_size s).

(** The [try] of [resolveFile]: any exception but a [SecretReferenceError] is [UNAVAILABLE]. *)
Definition read_secret (resolvedPath : string) : io World (secret string) :=
  let unavailable := refuse UNAVAILABLE "Mounted secret file is unavailable" in
  linkStat ← host_call (fun n => lstat n resolvedPath);
  match linkStat with
  | None => mret unavailable
  | Some linkStat =>
      if negb (isFile linkStat) || isSymbolicLink linkStat then
        mret (refuse INVALID_SECRET "Mounted secret must be a regular file")
      else if bad_size linkStat then
        mret (refuse INVALID_SECRET ("Mounted secret file must contain between 1 and " +:+
                                     pretty MAX_SECRET_FILE_BYTES +:+ " bytes"))
      else
        fileHandle ← host_call (fun n => open_nofollow n resolvedPath);
        match fileHandle ≫= file_stat, fileHandle ≫= contents with
        | None, _ => mret unavailable
        | Some handleStat, value =>
            if negb (isFile handleStat) || bad_size handleStat then
              mret (refuse INVALID_SECRET "Mounted secret file is invalid")
            else match value with
                 | None => mret unavailable
                 | Some value => mret (validateSecretValue (strip_line_ends value))
                 end
        end
  end.

Definition resolveFile (rawPath : string) : io World (secret string) :=
  if negb (isAbsolute rawPath) then
    mret (refuse INVALID_REFERENCE "Mounted secret reference must contain an absolute path") else
  match allowedFileRoots with
  | inl e => mret (inl e)
  | inr allowedRoots =>
      resolvedPath ← host_call (fun n => realpath n rawPath);
      match resolvedPath with
      | None => mret (refuse UNAVAILABLE "Mounted secret file is unavailable")
      | Some resolvedPath =>
          allowed ← isInsideAllowedRoot resolvedPath allowedRoots;
          if negb allowed then
            mret (refuse INVALID_REFERENCE "Mounted secret path is outside the configured secret roots")
          else read_secret resolvedPath
      end
  end.

(** [reference.slice(n)] after [startsWith]. *)
Definition after_prefix (p reference : string) : option string :=
  if String.prefix p reference
  then Some (String.substring (String.length p) (String.length reference - String.length p) reference) else None.

Definition resolve_reference (reference : string) : io World (secret string) :=
  match after_prefix "env:" reference with
  | Some name => mret (resolveEnvironment name)
  | None =>
      match after_prefix "file:" reference with
      | Some path => resolveFile path
      | None => mret (refuse INVALID_REFERENCE "Secret reference must use env: or file:")
      end
  end.
(** [resolve]: to its callers the error is an [Error]. *)
Definition resolve (reference : string) : io World string :=
  r ← resolve_reference reference;
  match r with inl e => throw (Error (message e)) | inr value => mret value end.

(** ** What a reference gives *)
(** A single line of bounded length. *)
Definition secret_text (v : string) : Prop :=
  0 < JsString.len v <= MAX_SECRET_FILE_BYTES /\
  forall c, c ∈ String.list_ascii_of_string v -> bad_char c = false.

Lemma validateSecretValue_text v v' : validateSecretValue v = inr v' -> v' = v /\ secret_text v.
Proof.
  unfold validateSecretValue, secret_text. destruct ((_ =? 0) || _) eqn:E; [discriminate|].
  destruct (existsb _ _) eqn:Eb; [discriminate|]. intros [= <-]. split; [done|].
  apply orb_false_iff in E as [E1%Z.eqb_neq E2%Z.ltb_ge]. split; [unfold JsString.len in *; lia|].
  intros c Hc. apply not_true_is_false. intros Ht. apply not_true_iff_false in Eb. apply Eb, existsb_exists.
  exists c. split; [by apply list_elem_of_In|done].
Qed.

(** Every root is below the file system's root. *)
Lemma checked_roots_ok roots l :
  checked_roots roots = inr l -> Forall (fun r => r <> "/"%string) l /\ length l = length roots.
Proof.
  revert l. induction roots as [|root roots IH]; intros l; cbn; [by intros [= <-]|].
  destruct (isAbsolute root); [|done]. cbn. destruct (String.eqb_spec (resolve_path root) "/") as [|Hne]; [done|].
  destruct (checked_roots roots) as [e|l']; [done|]. intros [= <-]. destruct (IH l' eq_refl) as [Hf Hl].
  split; [by constructor|]. cbn. by f_equal.
Qed.

Lemma isInsideAllowedRoot_spec path roots w :
  wp (isInsideAllowedRoot path roots) (fun r _ => exists b, r = Ok b /\
    (b = true -> exists root n realRoot, root ∈ roots /\ realpath n root = Some realRoot /\ inside path realRoot = true)) w.
Proof.
  revert w. induction roots as [|root roots IH]; intros w; cbn; [by eexists|].
  assert (Hrest : forall w, wp (isInsideAllowedRoot path roots) (fun r _ => exists b, r = Ok b /\
    (b = true -> exists root' n realRoot, root' ∈ root :: roots /\ realpath n root' = Some realRoot /\ inside path realRoot = true)) w).
  { intros w1. eapply wp_mono; [apply IH|]. intros r _ (b & -> & Hb). exists b. split; [done|]. intros E.
    destruct (Hb E) as (r1 & n & rr & Hin & Hrest). exists r1, n, rr. split; [by right|done]. }
  apply wp_bind. unfold wp at 1, host_call. cbn. destruct (realpath (tick w) root) as [rr|] eqn:Er; [|apply Hrest].
  destruct (inside path rr) eqn:Ei; [|apply Hrest]. exists true. split; [done|]. intros _. exists root, (tick w), rr.
  split; [left|done].
Qed.

(** Where a file secret comes from: a file opened at a real path inside the real path of a root. *)
Definition from_root (rawPath v : string) : Prop := exists n path roots root n' realRoot n'' f text,
  realpath n rawPath = Some path /\ allowedFileRoots = inr roots /\ root ∈ roots /\ root <> "/"%string /\
  realpath n' root = Some realRoot /\ inside path realRoot = true /\
  open_nofollow n'' path = Some f /\ contents f = Some text /\ v = strip_line_ends text.

Lemma read_secret_spec path w :
  wp (read_secret path) (fun r _ => exists s, r = Ok s /\ forall v, s = inr v -> secret_text v /\
    exists n f text, open_nofollow n path = Some f /\ contents f = Some text /\ v = strip_line_ends text) w.
Proof.
  unfold read_secret. apply wp_bind. unfold wp at 1, host_call. cbn [fst snd].
  destruct (lstat _ _) as [ls|]; [|by eexists]. destruct (_ || _); [by eexists|]. destruct (bad_size ls); [by eexists|].
  apply wp_bind. unfold wp at 1, host_call. cbn [fst snd]. set (n := tick _).
  destruct (open_nofollow n path) as [f|] eqn:Eo; [|by eexists]. cbn [mbind option_bind].
  destruct (file_stat f) as [st|]; [|by eexists]. destruct (_ || _); [by eexists|].
  destruct (contents f) as [text|] eqn:Et; [|by eexists]. apply wp_ret. eexists. split; [done|].
  intros v [-> Hv]%validateSecretValue_text. split; [done|]. by exists n, f, text.
Qed.

Lemma allowedFileRoots_ok l : allowedFileRoots = inr l -> Forall (fun r => r <> "/"%string) l.
Proof. unfold allowedFileRoots. destruct (filter _ _); [done|]. intros Hl. by eapply checked_roots_ok. Qed.

Lemma resolveFile_spec rawPath w :
  wp (resolveFile rawPath) (fun r _ => exists s, r = Ok s /\
    forall v, s = inr v -> secret_text v /\ from_root rawPath v) w.
Proof.
  unfold resolveFile. destruct (isAbsolute rawPath); [|by eexists]. cbn [negb].
  destruct allowedFileRoots as [e|roots] eqn:Ea; [by eexists|]. apply wp_bind. unfold wp at 1, host_call. cbn [fst snd].
  destruct (realpath (tick w) rawPath) as [path|] eqn:Ep; [|by eexists]. apply wp_bind.
  eapply wp_mono; [apply isInsideAllowedRoot_spec|]. intros r w1 (b & -> & Hb). destruct b; [|by eexists]. cbn [negb].
  destruct (Hb eq_refl) as (root & n' & rr & Hin & Hr & Hi). eapply wp_mono; [apply read_secret_spec|].
  intros r w2 (s & -> & Hs). exists s. split; [done|]. intros v Hv. destruct (Hs v Hv) as (Ht & n'' & f & text & Ho & Hc & He).
  split; [done|]. exists (tick w), path, roots, root, n', rr, n'', f, text. do 3 (split; [done|]).
  split; [|done]. pose proof (allowedFileRoots_ok roots Ea) as Hf. rewrite Forall_forall in Hf. by apply Hf.
Qed.

(** C32: Whatever the environment and the file system answer, and however files change between the
    calls, a reference gives a single line of bounded length or an error; a file reference gives
    the text of a file opened at a real path inside the real path of a configured root other than
    the file system's own. *)
Theorem resolve_contained reference w :
  let '(r, _) := resolve reference w in
  r <> OutOfFuel /\ forall v, r = Ok v -> secret_text v /\
  ((exists name, after_prefix "env:" reference = Some name /\ process_env name = Some v) \/
   exists path, after_prefix "file:" reference = Some path /\ from_root path v).
Proof.
  assert (Hw : wp (resolve reference) (fun r _ => r <> OutOfFuel /\ forall v, r = Ok v -> secret_text v /\
    ((exists name, after_prefix "env:" reference = Some name /\ process_env name = Some v) \/
     exists path, after_prefix "file:" reference = Some path /\ from_root path v)) w).
  { unfold resolve, resolve_reference. apply wp_bind. destruct (after_prefix "env:" reference) as [name|].
    - apply wp_ret. unfold resolveEnvironment. destruct (ENV_NAME_PATTERN name); [|done]. cbn [negb].
      destruct (process_env name) as [v|] eqn:Ev; [|done]. destruct (truthy (Some v)) as [v'|] eqn:Et; [|done].
      assert (v' = v) as -> by (destruct v; cbn in Et; congruence).
      destruct (validateSecretValue v) as [e|v'] eqn:Hval; [done|]. apply validateSecretValue_text in Hval as [-> Hv].
      apply wp_ret. split; [done|]. intros v1 [= <-]. split; [done|]. left. by exists name.
    - destruct (after_prefix "file:" reference) as [path|]; [|done]. eapply wp_mono; [apply resolveFile_spec|].
      intros r w' (s & -> & Hs). destruct s as [e|v]; [done|]. apply wp_ret. split; [done|].
      intros v1 [= <-]. destruct (Hs v eq_refl). split; [done|]. right. by exists path. }
  unfold wp in Hw. by destruct (resolve reference w).
Qed.
End secrets.
