(* ===== verification/MediaPolicy.v ===== *)
(** What may be uploaded ([media/media-upload.policy.ts]), when the disk has room for it
    ([media/media-storage-capacity.ts]), and how the media services read integers from the environment.

    Amounts of bytes are integers: the sizes of files and disks are below [2 ^ 53], where binary64 is
    exact.  Percentages are binary64. *)
From stdpp Require Import prelude list gmap strings pretty.
From Stdlib Require Import ZArith Lia SpecFloat.
From S2P Require Import Prelude Float64 Json Numbers Io Domain Secrets.
#[local] Open Scope Z_scope.

(** ** Integers of the environment *)
(** [Number.isInteger(x)], and the integer. *)
Definition integer_value (x : f64) : option Z :=
  match x with
  | S754_zero _ => Some 0
  | S754_finite s m e =>
      let v := if s then Zneg m else Zpos m in
      if 0 <=? e then Some (v * 2 ^ e) else if v mod 2 ^ (- e) =? 0 then Some (v / 2 ^ (- e)) else None
  | _ => None
  end.
(** [raw === undefined || raw.trim() === ""] *)
Definition given (raw : option string) : option string :=
  match raw with Some text => if String.eqb (JsString.trim text) "" then None else Some text | None => None end.
(** An integer between [min] and [max], the default when nothing is given, and the error otherwise. *)
Definition read_integer (raw : option string) (fallback min max : Z) (error : js_error) : exec js_error Z :=
  match given raw with
  | None => Ok fallback
  | Some text =>
      match integer_value (JsNumber.of_string text) with
      | Some value => if (value <? min) || (max <? value) then Throws error else Ok value
      | None => Throws error
      end
  end.
Definition MAX_SAFE_INTEGER : Z := 2 ^ 53 - 1.

Lemma read_integer_range raw fallback min max error value :
  min <= fallback <= max -> read_integer raw fallback min max error = Ok value -> min <= value <= max.
Proof.
  intros Hf. unfold read_integer. destruct (given raw) as [text|]; [|by intros [= <-]].
  destruct (integer_value _) as [v|]; [|done]. destruct (Z.ltb_spec v min); [done|]. destruct (Z.ltb_spec max v); [done|].
  cbn. intros [= <-]. done.
Qed.
Lemma read_integer_returns raw fallback min max error : read_integer raw fallback min max error <> OutOfFuel.
Proof. unfold read_integer. repeat case_match; done. Qed.

(** ** The upload policy *)
Inductive MediaUploadCategory := IMAGE | VIDEO | AUDIO | DOCUMENT.
Definition category_name (c : MediaUploadCategory) : string :=
  match c with IMAGE => "IMAGE" | VIDEO => "VIDEO" | AUDIO => "AUDIO" | DOCUMENT => "DOCUMENT" end.
Record MediaUploadPolicy := {
  category : MediaUploadCategory; policy_mimeType : string; maxBytes : Z; providerFilename : string }.

Definition MB : Z := 1000000.
Definition MAX_MEDIA_UPLOAD_BYTES : Z := 100 * MB.
Definition policy (category : MediaUploadCategory) (mimeType : string) (megabytes : Z) (providerFilename : string)
    : string * MediaUploadPolicy :=
  (mimeType, {| category := category; policy_mimeType := mimeType; maxBytes := megabytes * MB; providerFilename := providerFilename |}).
#[local] Open Scope string_scope.
Definition POLICIES : list (string * MediaUploadPolicy) := [
  policy IMAGE "image/jpeg" 5 "upload.jpg";
  policy IMAGE "image/png" 5 "upload.png";
  policy AUDIO "audio/aac" 16 "upload.aac";
  policy AUDIO "audio/mp4" 16 "upload.m4a";
  policy AUDIO "audio/mpeg" 16 "upload.mp3";
  policy AUDIO "audio/amr" 16 "upload.amr";
  policy AUDIO "audio/ogg" 16 "upload.ogg";
  policy VIDEO "video/mp4" 16 "upload.mp4";
  policy VIDEO "video/3gpp" 16 "upload.3gp";
  policy DOCUMENT "text/plain" 100 "upload.txt";
  policy DOCUMENT "application/pdf" 100 "upload.pdf";
  policy DOCUMENT "application/msword" 100 "upload.doc";
  policy DOCUMENT "application/vnd.ms-excel" 100 "upload.xls";
  policy DOCUMENT "application/vnd.ms-powerpoint" 100 "upload.ppt";
  policy DOCUMENT "application/vnd.openxmlformats-officedocument.wordprocessingml.document" 100 "upload.docx";
  policy DOCUMENT "application/vnd.openxmlformats-officedocument.spreadsheetml.sheet" 100 "upload.xlsx";
  policy DOCUMENT "application/vnd.openxmlformats-officedocument.presentationml.presentation" 100 "upload.pptx" ]%list.

(** The table is an object of the language: a lookup also finds what every object inherits.  Of those
    names only these are in lower case; what they give has none of the fields of a policy: [None]. *)
Definition INHERITED : list string := ["constructor"; "__proto__"].
Definition resolveMediaUploadPolicy (mimeType : string) (size : Z) : exec js_error (option MediaUploadPolicy) :=
  if ((MAX_SAFE_INTEGER <? size) || (size <=? 0))%Z then
    Throws (MediaUploadPolicyError "Media upload file cannot be empty" "EMPTY_FILE") else
  let normalizedMimeType := JsString.toLowerCase (JsString.trim mimeType) in
  if bool_decide (normalizedMimeType ∈ INHERITED) then Ok None else
  match List.find (fun p => p.1 =? normalizedMimeType) POLICIES with
  | None => Throws (MediaUploadPolicyError ("Unsupported WhatsApp media MIME type: " ++
              (if normalizedMimeType =? "" then "unknown" else normalizedMimeType)) "UNSUPPORTED_MIME")
  | Some (_, policy) =>
      if (maxBytes policy <? size)%Z then
        Throws (MediaUploadPolicyError (category_name (category policy) ++ " upload exceeds the " ++
                  pretty (maxBytes policy / MB)%Z ++ " MB platform limit") "FILE_TOO_LARGE")
      else Ok (Some policy)
  end.
#[local] Close Scope string_scope.

(** What the policy admits is one of its own types, within its limit. *)
Lemma resolved_policy mimeType size p : resolveMediaUploadPolicy mimeType size = Ok (Some p) ->
  (policy_mimeType p, p) ∈ POLICIES /\ policy_mimeType p = JsString.toLowerCase (JsString.trim mimeType) /\
  0 < size <= maxBytes p /\ maxBytes p <= MAX_MEDIA_UPLOAD_BYTES.
Proof.
  unfold resolveMediaUploadPolicy. destruct (Z.ltb_spec MAX_SAFE_INTEGER size); [done|]. destruct (Z.leb_spec size 0); [done|]. cbn [orb].
  case_bool_decide; [done|]. destruct (List.find _ POLICIES) as [[k q]|] eqn:E; [|done].
  destruct (Z.ltb_spec (maxBytes q) size); [done|]. intros [= ->]. apply find_some in E as [Hin Hk%String.eqb_eq]. cbn in Hk.
  assert (Hkey : k = policy_mimeType p /\ maxBytes p <= MAX_MEDIA_UPLOAD_BYTES).
  { apply list_elem_of_In in Hin. unfold POLICIES, policy in Hin. set_unfold in Hin.
    destruct_or? Hin; injection Hin as -> ->; (split; [done|vm_compute; congruence]). }
  destruct Hkey as [-> ?]. apply list_elem_of_In in Hin. split; [done|]. split; [done|]. lia.
Qed.

(** ** Room on the disk *)
Record MediaStorageCapacityInput := {
  totalBytes : Z; freeBytes : Z; minimumFreeBytes : Z; minimumFreePercent : f64; requiredBytes : option Z }.
Record MediaStorageCapacityDecision := {
  allowed : bool; projectedFreeBytes : Z; projectedFreePercent : f64; byteReserveSatisfied : bool; percentReserveSatisfied : bool }.

(** A [MediaStorageCapacityPolicyError], or a result. *)
Definition capacity (A : Type) : Type := (string + A)%type.
#[export] Instance capacity_ret : MRet capacity := fun A a => inr a.
#[export] Instance capacity_bind : MBind capacity := fun A B f m => match m with inl e => inl e | inr a => f a end.
Definition nonNegativeFinite (value : Z) (name : string) : capacity Z :=
  if value <? 0 then inl (name +:+ " must be a finite non-negative number") else inr value.
Definition boundedPercent (value : f64) (name : string) : capacity f64 :=
  if negb (JsNumber.is_finite value) || SFltb value (f64_of_Z 0) then inl (name +:+ " must be a finite non-negative number")
  else if SFltb (f64_of_Z 100) value then inl (name +:+ " must be between 0 and 100") else inr value.

(** [Math.max(0, Math.min(100, x))] of a number *)
Definition clamp (x : f64) : f64 :=
  let x := if SFltb (f64_of_Z 100) x then f64_of_Z 100 else x in if SFltb x (f64_of_Z 0) then f64_of_Z 0 else x.
Definition evaluateMediaStorageCapacity (input : MediaStorageCapacityInput) : capacity MediaStorageCapacityDecision :=
  totalBytes ← nonNegativeFinite (totalBytes input) "totalBytes";
  freeBytes ← nonNegativeFinite (freeBytes input) "freeBytes";
  minimumFreeBytes ← nonNegativeFinite (minimumFreeBytes input) "minimumFreeBytes";
  minimumFreePercent ← boundedPercent (minimumFreePercent input) "minimumFreePercent";
  requiredBytes ← nonNegativeFinite (default 0 (requiredBytes input)) "requiredBytes";
  if totalBytes <? freeBytes then inl "freeBytes cannot exceed totalBytes"%string else
  let projectedFreeBytes := Z.max 0 (freeBytes - requiredBytes) in
  let projectedFreePercent :=
    if 0 <? totalBytes then clamp (f64_mul (f64_div (f64_of_Z projectedFreeBytes) (f64_of_Z totalBytes)) (f64_of_Z 100))
    else f64_of_Z 0 in
  let byteReserveSatisfied := minimumFreeBytes <=? projectedFreeBytes in
  let percentReserveSatisfied := SFleb minimumFreePercent projectedFreePercent in
  inr {| allowed := byteReserveSatisfied && percentReserveSatisfied && (requiredBytes <=? freeBytes);
         projectedFreeBytes := projectedFreeBytes; projectedFreePercent := projectedFreePercent;
         byteReserveSatisfied := byteReserveSatisfied; percentReserveSatisfied := percentReserveSatisfied |}.

(** What is admitted fits, and leaves the reserve free. *)
Lemma allowed_fits input decision : evaluateMediaStorageCapacity input = inr decision -> allowed decision = true ->
  let required := default 0 (requiredBytes input) in
  0 <= required <= freeBytes input /\ freeBytes input <= totalBytes input /\ minimumFreeBytes input <= freeBytes input - required.
Proof.
  unfold evaluateMediaStorageCapacity, nonNegativeFinite. destruct (Z.ltb_spec (totalBytes input) 0); [done|].
  cbn [mbind capacity_bind]. destruct (Z.ltb_spec (freeBytes input) 0); [done|]. cbn [mbind capacity_bind].
  destruct (Z.ltb_spec (minimumFreeBytes input) 0); [done|]. cbn [mbind capacity_bind].
  destruct (boundedPercent _ _) as [|percent]; [done|]. cbn [mbind capacity_bind].
  destruct (Z.ltb_spec (default 0 (requiredBytes input)) 0); [done|]. cbn [mbind capacity_bind].
  destruct (Z.ltb_spec (totalBytes input) (freeBytes input)); [done|]. intros [= <-]. cbn [allowed].
  rewrite !andb_true_iff, !Z.leb_le. intros [[? _] ?]. lia.
Qed.

Example five_percent : (fun d => (allowed d, projectedFreePercent d)) <$>
  match evaluateMediaStorageCapacity {| totalBytes := 1000; freeBytes := 80; minimumFreeBytes := 10; minimumFreePercent := f64_of_Z 5; requiredBytes := Some 30 |} with
  | inr d => Some d | inl _ => None end = Some (true, f64_of_Z 5).
Proof. vm_compute. reflexivity. Qed.
