(* ===== verification/Scanner.v ===== *)
(** The malware scan of an upload ([media/media-malware-scanner.service.ts]): the configuration, the
    session with the ClamAV daemon as the events of its socket, and what its answer means.

    The daemon and the network are a parameter: a session is the list of events the socket gives
    before the time runs out.  The bytes sent to the daemon are left out.  Answers are code points. *)
From stdpp Require Import prelude list gmap strings pretty.
From Stdlib Require Import Ascii ZArith Lia.
From S2P Require Import Prelude Json Buffers Io Prisma Domain Secrets Zip MediaPolicy.
#[local] Open Scope Z_scope.

Definition DEFAULT_CLAMAV_PORT : Z := 3310.
Definition DEFAULT_SCAN_TIMEOUT_MS : Z := 120000.
Definition MAX_SCAN_TIMEOUT_MS : Z := 600000.
Definition MAX_RESPONSE_BYTES : Z := 8192.

(** ** Text *)
(** [\s] and the characters [trim] removes. *)
Definition js_space (c : Z) : bool :=
  ((9 <=? c) && (c <=? 13)) || ((0x2000 <=? c) && (c <=? 0x200a)) ||
  existsb (Z.eqb c) [0x20; 0xa0; 0x1680; 0x2028; 0x2029; 0x202f; 0x205f; 0x3000; 0xfeff].
Definition line_terminator (c : Z) : bool := existsb (Z.eqb c) [0x0a; 0x0d; 0x2028; 0x2029].
Definition word_char (c : Z) : bool :=
  ((0x30 <=? c) && (c <=? 0x39)) || ((0x41 <=? c) && (c <=? 0x5a)) || ((0x61 <=? c) && (c <=? 0x7a)) || (c =? 0x5f).
Definition upper (c : Z) : Z := if (0x61 <=? c) && (c <=? 0x7a) then c - 32 else c.
Fixpoint drop_spaces (l : list Z) : list Z := match l with c :: l' => if js_space c then drop_spaces l' else l | [] => [] end.
Definition trim_points (l : list Z) : list Z := rev (drop_spaces (rev (drop_spaces l))).
(** Characters beyond ASCII are not represented in the messages of errors. *)
Definition shown (l : list Z) : string :=
  String.string_of_list_ascii ((fun c => if c <? 128 then JsString.of_unit c else "?"%char) <$> l).

(** The text without the ending, in any case of its letters. *)
Definition before_end (ending l : list Z) : option (list Z) :=
  let n := (length l - length ending)%nat in
  if (length ending <=? length l)%nat && equals (upper <$> drop n l) ending then Some (take n l) else None.
(** [/\bOK$/i] *)
Definition ends_ok (text : list Z) : bool :=
  match before_end (ascii_bytes "OK") text with
  | Some before => match last before with Some c => negb (word_char c) | None => true end
  | None => false
  end.
(** [(.+)\s+] at the end: the longest run without line terminators before at least one space. *)
Fixpoint capture (n : nat) (l : list Z) : option (list Z) :=
  match n with
  | O => None
  | S n' =>
      if (n <? length l)%nat && forallb (fun c => negb (line_terminator c)) (take n l) && forallb js_space (drop n l) then Some (take n l)
      else capture n' l
  end.
(** [\s*] before it: as many spaces as possible, then fewer. *)
Fixpoint spaces_capture (l : list Z) : option (list Z) :=
  match l with
  | c :: l' =>
      let here := capture (length l) l in
      if js_space c then match spaces_capture l' with Some m => Some m | None => here end else here
  | [] => None
  end.
(** [text.match(/:\s*(.+)\s+FOUND$/i)], the group: from the first colon that fits. *)
Fixpoint colon_capture (l : list Z) : option (list Z) :=
  match l with
  | c :: l' => if c =? 0x3a then match spaces_capture l' with Some m => Some m | None => colon_capture l' end else colon_capture l'
  | [] => None
  end.
Definition found_name (text : list Z) : option (list Z) := l ← before_end (ascii_bytes "FOUND") text; colon_capture l.

Example answer_ok : ends_ok (ascii_bytes "stream: OK") = true. Proof. reflexivity. Qed.
Example answer_book : ends_ok (ascii_bytes "stream: BOOK") = false. Proof. reflexivity. Qed.
Example answer_found : shown <$> found_name (ascii_bytes "stream: Eicar-Test-Signature FOUND") = Some "Eicar-Test-Signature"%string.
Proof. reflexivity. Qed.

(** ** A session *)
Inductive ScanEvent :=
| SocketError (message : string)
| Data (chunk : list Z)
| End
| StreamFailed (error : js_error).   (** [streamFile] rejected *)

Definition finishFromResponse (text : list Z) : exec js_error () :=
  if ends_ok text then Ok tt else
  match found_name text with
  | Some found => Throws (MediaMalwareScanError "MALWARE_DETECTED" ("Media malware scanner detected prohibited content: " +:+ shown found))
  | None => Throws (MediaMalwareScanError "SCANNER_ERROR"
              (if bool_decide (text = []) then "Empty malware scanner response" else "Media malware scanner returned an error: " +:+ shown text))
  end.
(** The bytes before the terminator, if the answer is complete. *)
Fixpoint before_nul (l : list Z) : option (list Z) :=
  match l with [] => None | b :: l' => if b =? 0 then Some [] else cons b <$> before_nul l' end.
Definition evaluateResponse (response : list Z) : option (exec js_error ()) :=
  match before_nul response with
  | Some answer => Some (finishFromResponse (trim_points (Utf8.decode answer)))
  | None => if includes response 0x0a then Some (finishFromResponse (trim_points (Utf8.decode response))) else None
  end.
(** The handlers of the socket; the promise is settled by the first that succeeds or fails. *)
Fixpoint session (timeoutMs : Z) (response : list Z) (events : list ScanEvent) : exec js_error () :=
  match events with
  | [] => Throws (MediaMalwareScanError "SCANNER_UNAVAILABLE" ("Media malware scan timed out after " +:+ pretty timeoutMs +:+ "ms"))
  | SocketError message :: _ =>
      Throws (MediaMalwareScanError "SCANNER_UNAVAILABLE" ("Unable to communicate with media malware scanner: " +:+ message))
  | Data chunk :: events =>
      let response := response ++ chunk in
      if MAX_RESPONSE_BYTES <? len response then
        Throws (MediaMalwareScanError "SCANNER_ERROR" "Media malware scanner response is too large")
      else match evaluateResponse response with Some r => r | None => session timeoutMs response events end
  | End :: _ =>
      let text := trim_points (filter (fun c => c <> 0) (Utf8.decode response)) in
      if bool_decide (text = []) then
        Throws (MediaMalwareScanError "SCANNER_UNAVAILABLE" "Media malware scanner closed the connection without a response")
      else finishFromResponse text
  | StreamFailed (MediaMalwareScanError reason message) :: _ => Throws (MediaMalwareScanError reason message)
  | StreamFailed error :: _ =>
      Throws (MediaMalwareScanError "SCANNER_ERROR" (error_message (fun _ => "Unable to stream file to malware scanner"%string) error))
  end.

(** What the socket gives when a scan starts; the number tells the scans apart. *)
Class ScannerNetwork := scan_events : nat -> string -> Z -> string -> list ScanEvent.

Section scanner.
Context `{Prisma} `{Environment} `{Host} `{ScannerNetwork}.

Definition invalid_configuration (message : string) : js_error := MediaMalwareScanError "INVALID_CONFIGURATION" message.
Definition scan_mode : string :=
  JsString.toLowerCase (JsString.trim (default "disabled"%string (process_env "MEDIA_MALWARE_SCAN_MODE"))).
Definition readPort (raw : option string) : exec js_error Z :=
  read_integer raw DEFAULT_CLAMAV_PORT 1 65535 (invalid_configuration "MEDIA_CLAMAV_PORT must be an integer between 1 and 65535").
Definition readTimeout (raw : option string) : exec js_error Z :=
  read_integer raw DEFAULT_SCAN_TIMEOUT_MS 1000 MAX_SCAN_TIMEOUT_MS
    (invalid_configuration ("MEDIA_CLAMAV_TIMEOUT_MS must be an integer between 1000 and " +:+ pretty MAX_SCAN_TIMEOUT_MS)).
Definition scanWithClamAv (filePath host : string) (port timeoutMs : Z) : io World () := fun w =>
  (session timeoutMs [] (scan_events (tick w) host port filePath), bump w).
Definition scan (filePath : string) : io World () :=
  if String.eqb scan_mode "disabled" then mret tt
  else if negb (String.eqb scan_mode "clamav") then
    throw (invalid_configuration ("Unsupported MEDIA_MALWARE_SCAN_MODE: " +:+ scan_mode)) else
  match truthy (JsString.trim <$> process_env "MEDIA_CLAMAV_HOST") with
  | None => throw (invalid_configuration "MEDIA_CLAMAV_HOST is required when malware scanning is enabled")
  | Some host =>
      port ← lift (readPort (process_env "MEDIA_CLAMAV_PORT"));
      timeoutMs ← lift (readTimeout (process_env "MEDIA_CLAMAV_TIMEOUT_MS"));
      scanWithClamAv filePath host port timeoutMs
  end.
End scanner.

(** ** What a clean scan means *)
(** The daemon found nothing: its data up to a terminator, or up to its end, says OK. *)
Definition said_ok (events : list ScanEvent) : Prop :=
  exists chunks rest answer, events = (Data <$> chunks) ++ rest /\ ends_ok (trim_points answer) = true /\
    (answer = Utf8.decode (default (concat chunks) (before_nul (concat chunks))) \/
     (head rest = Some End /\ answer = filter (fun c => c <> 0) (Utf8.decode (concat chunks)))).

Lemma finish_ok text : finishFromResponse text = Ok tt -> ends_ok text = true.
Proof. unfold finishFromResponse. destruct (ends_ok text); [done|]. by destruct (found_name text). Qed.
Lemma evaluate_ok response : evaluateResponse response = Some (Ok tt) ->
  ends_ok (trim_points (Utf8.decode (default response (before_nul response)))) = true.
Proof.
  unfold evaluateResponse. destruct (before_nul response) as [answer|]; cbn.
  - intros [= H]. by apply finish_ok.
  - destruct (includes response 0x0a); [|done]. intros [= H]. by apply finish_ok.
Qed.

Lemma session_ok timeoutMs events : forall chunks, session timeoutMs (concat chunks) events = Ok tt -> said_ok ((Data <$> chunks) ++ events).
Proof.
  induction events as [|[message|chunk| |error] events IH]; intros chunks; cbn [session]; [done|done| | |by destruct error].
  - assert (Hc : concat chunks ++ chunk = concat (chunks ++ [chunk])) by (rewrite concat_app; cbn; by rewrite app_nil_r).
    assert (Hd : (Data <$> chunks) ++ Data chunk :: events = (Data <$> (chunks ++ [chunk])) ++ events) by (rewrite fmap_app, <- app_assoc; done).
    rewrite Hc, Hd. destruct (MAX_RESPONSE_BYTES <? _); [done|]. destruct (evaluateResponse _) as [r|] eqn:E.
    + intros ->. apply evaluate_ok in E. exists (chunks ++ [chunk]), events. eexists. split; [done|]. split; [exact E|]. by left.
    + apply IH.
  - case_bool_decide; [done|]. intros Hf%finish_ok. exists chunks, (End :: events). eexists. split; [done|]. split; [exact Hf|]. by right.
Qed.

Lemma session_returns timeoutMs events : forall response, session timeoutMs response events <> OutOfFuel.
Proof.
  assert (Hf : forall text, finishFromResponse text <> OutOfFuel) by (intros text; unfold finishFromResponse; repeat case_match; done).
  induction events as [|[message|chunk| |error] events IH]; intros response; cbn [session]; [done|done| | |by destruct error].
  - destruct (_ <? _); [done|]. unfold evaluateResponse. destruct (before_nul _); [apply Hf|]. destruct (includes _ _); [apply Hf|apply IH].
  - case_bool_decide; [done|apply Hf].
Qed.

Section clean.
Context `{Prisma} `{Environment} `{Host} `{ScannerNetwork}.
(** The file was scanned and found clean, or scanning is off. *)
Definition clean (filePath : string) : Prop :=
  scan_mode = "disabled"%string \/
  (scan_mode = "clamav"%string /\ exists n host port, said_ok (scan_events n host port filePath)).

Lemma scan_spec filePath w :
  exists r n, scan filePath w = (r, w <| tick := n |>) /\ r <> OutOfFuel /\ (r = Ok tt -> clean filePath).
Proof.
  assert (Hw : w = w <| tick := tick w |>) by by destruct w.
  unfold scan. destruct (String.eqb_spec scan_mode "disabled") as [Hm|Hm].
  { exists (Ok tt), (tick w). rewrite <- Hw. split; [done|]. split; [done|]. by left. }
  destruct (String.eqb_spec scan_mode "clamav") as [Hc|Hc]; cbn [negb].
  2: { eexists _, (tick w). rewrite <- Hw. by split. }
  destruct (truthy _) as [host|]; [|eexists _, (tick w); rewrite <- Hw; by split].
  unfold mbind, io_bind, lift. destruct (readPort _) as [port|e|] eqn:Ep; [|eexists _, (tick w); rewrite <- Hw; by split|by apply read_integer_returns in Ep].
  destruct (readTimeout _) as [t|e|] eqn:Et; [|eexists _, (tick w); rewrite <- Hw; by split|by apply read_integer_returns in Et].
  eexists _, (S (tick w)). split; [done|]. split; [apply session_returns|]. intros Ho. right. split; [done|].
  exists (tick w), host, port. by apply (session_ok t _ []).
Qed.
End clean.
