(* ===== verification/Graph.v ===== *)
(** The clients of Meta's Graph API: the sender and its credential
    ([meta/meta-sender-resolver.service.ts]), the URL ([meta/meta-graph-url.util.ts]), sending a
    message ([meta/meta-whatsapp.client.ts]) and reading the template catalogue page by page
    ([meta/meta-template.client.ts]).

    [fetch] is a parameter: it may answer anything to any request, or throw. *)
From stdpp Require Import prelude gmap strings pretty.
From Stdlib Require Import Ascii ZArith Lia.
From S2P Require Import Prelude Json Io Prisma Domain Dispatcher Contacts Senders Payload Secrets.
#[local] Open Scope Z_scope.

Module GraphRequest.
Record t := make {
  url : Url.t;
  searchParams : list (string * string);
  authorization : string;
  content : option json
}.
End GraphRequest.

(** A response: its text and what [JSON.parse] makes of it, [None] when it throws. *)
Module GraphResponse.
Record t := make {
  status : Z;
  text : string;
  parsed : option json
}.
End GraphResponse.

(** The configuration, and the network; the number tells the calls apart. *)
Class GraphApi := {
  config : string -> option string;
  fetch : nat -> GraphRequest.t -> js_error + GraphResponse.t
}.

(** A number among the fields of an error; Meta's codes are integers. *)
Definition as_integer (v : option json) : option Z :=
  match v with Some (JNum (Whole z)) => Some z | _ => None end.

Module MetaError.
Record t := make { message : option string; code : option Z; subcode : option Z }.
End MetaError.
Definition extractMetaError (value : json) : MetaError.t :=
  match prop "error" value with
  | Some error => MetaError.make (as_string (prop "message" error)) (as_integer (prop "code" error))
                    (as_integer (prop "error_subcode" error))
  | None => MetaError.make None None None
  end.

Definition RETRYABLE_CODES : list Z := [1; 2; 4; 17; 32; 613; 80007; 130429; 131000; 131016; 131056].
Definition retryable_status (status : Z) : bool := (status =? 408) || (status =? 429) || (500 <=? status).
Definition isRetryable (httpStatus : Z) (code : option Z) : bool :=
  retryable_status httpStatus || match code with Some c => bool_decide (c ∈ RETRYABLE_CODES) | None => false end.

Definition extractProviderMessageId (value : json) : option string :=
  match prop "messages" value with
  | Some (JArr (first :: _)) => as_string (prop "id" first)
  | _ => None
  end.

Definition readResponse (response : GraphResponse.t) : json :=
  if String.eqb (GraphResponse.text response) "" then JNull else
  match GraphResponse.parsed response with
  | Some v => v
  | None => JObj [("raw"%string, JStr (GraphResponse.text response))]
  end.
(** [response.ok] *)
Definition response_ok (response : GraphResponse.t) : bool :=
  (200 <=? GraphResponse.status response) && (GraphResponse.status response <=? 299).

(** [/^v\d+\.\d+$/] *)
Fixpoint span_digits (s : string) : nat * string :=
  match s with
  | String c s' => if digit_from 48 c then let '(n, r) := span_digits s' in (S n, r) else (O, s)
  | EmptyString => (O, EmptyString)
  end.
Definition is_graph_version (s : string) : bool :=
  match s with
  | String "v" s1 =>
      match span_digits s1 with
      | (S _, String "." s2) => match span_digits s2 with (S _, EmptyString) => true | _ => false end
      | _ => false
      end
  | _ => false
  end.

(** [encodeURIComponent], on ASCII. *)
Definition hex_digit (n : Z) : Ascii.ascii :=
  if n <? 10 then JsString.of_unit (48 + n) else JsString.of_unit (55 + n).
Definition unreserved (c : Ascii.ascii) : bool :=
  let n := JsString.code_unit c in
  ((48 <=? n) && (n <=? 57)) || ((65 <=? n) && (n <=? 90)) || ((97 <=? n) && (n <=? 122)) ||
  bool_decide (n ∈ [45; 95; 46; 33; 126; 42; 39; 40; 41]).
Fixpoint encodeURIComponent (s : string) : string :=
  match s with
  | EmptyString => EmptyString
  | String c s' =>
      if unreserved c then String c (encodeURIComponent s') else
      let n := JsString.code_unit c in
      String "%" (String (hex_digit (n / 16)) (String (hex_digit (n mod 16)) (encodeURIComponent s')))
  end.

(** [replace(/^\/+/, "")] and [replace(/\/+$/, "")] *)
Fixpoint drop_slashes (s : string) : string :=
  match s with String "/" s' => drop_slashes s' | _ => s end.
Definition drop_end_slashes (s : string) : string := JsString.reverse (drop_slashes (JsString.reverse s)).

Section graph.
Context `{Prisma} `{Environment} `{UrlParser} `{Host} `{GraphApi}.

Definition DEFAULT_META_GRAPH_BASE_URL : string := "https://graph.facebook.com".

Definition metaGraphUrl (path : string) : exec js_error Url.t :=
  let base := default DEFAULT_META_GRAPH_BASE_URL (truthy (JsString.trim <$> config "META_GRAPH_API_BASE_URL")) in
  match parse_url base with
  | None => Throws (Error "META_GRAPH_API_BASE_URL must be a valid absolute URL")
  | Some url =>
      if negb (String.eqb (Url.username url) "" && String.eqb (Url.password url) "" &&
               String.eqb (Url.search url) "" && String.eqb (Url.hash url) "") then
        Throws (Error "META_GRAPH_API_BASE_URL must not contain credentials, query parameters, or fragments")
      else if negb (String.eqb (Url.protocol url) "https:" ||
                    (String.eqb (Url.protocol url) "http:" && bool_decide (process_env "NODE_ENV" = Some "test"%string))) then
        Throws (Error "META_GRAPH_API_BASE_URL must use HTTPS outside NODE_ENV=test")
      else
        match parse_url (drop_end_slashes (Url.href url) +:+ "/" +:+ drop_slashes path) with
        | Some url => Ok url
        | None => Throws (Error "Invalid URL")
        end
  end.

Definition required (name : string) : exec js_error string :=
  match truthy (config name) with
  | Some value => Ok value
  | None => Throws (Error (name +:+ " is required"))
  end.
Definition graph_version : exec js_error string :=
  graphVersion ← required "META_GRAPH_API_VERSION";
  if is_graph_version graphVersion then Ok graphVersion
  else Throws (Error "META_GRAPH_API_VERSION must use the format vNN.N").

(** [fetch], its failures as retryable errors. *)
Definition request (fallback : string) (r : GraphRequest.t) : io World GraphResponse.t :=
  try_catch (fun w => (match fetch (tick w) r with inl e => Throws e | inr response => Ok response end, bump w))
    (fun error => throw (MetaApiError (error_message (fun _ => fallback) error) true None None None None)).

(** *** Sending a message *)
Definition sendMessage (type : MessageType.t) (to : option string) (payload : json) (sender : MetaSenderContext)
    : io World MetaSendMessageResult :=
  graphVersion ← lift graph_version;
  requestBody ← lift (mapMessageToMetaPayload type to payload);
  url ← lift (metaGraphUrl (graphVersion +:+ "/" +:+ encodeURIComponent (phoneNumberId sender) +:+ "/messages"));
  response ← request "Meta API request failed"
    (GraphRequest.make url [] ("Bearer " +:+ accessToken sender) (Some requestBody));
  let responseBody := readResponse response in
  let status := GraphResponse.status response in
  if negb (response_ok response) then
    let metaError := extractMetaError responseBody in
    throw (MetaApiError (default ("Meta API returned HTTP " +:+ pretty status) (MetaError.message metaError))
             (isRetryable status (MetaError.code metaError)) (MetaError.code metaError) (MetaError.subcode metaError)
             (Some status) (Some responseBody))
  else
    match truthy (extractProviderMessageId responseBody) with
    | None => throw (MetaApiError "Meta API response did not include a message id" false None None
                       (Some status) (Some responseBody))
    | Some providerMessageId =>
        mret {| providerMessageId := providerMessageId; response := responseBody |}
    end.

(** *** Senders and their credentials *)
Definition toSenderContext (sender : string * Sender.t) : io World MetaSenderContext :=
  accessToken ← Secrets.resolve (Sender.credentialRef sender.2);
  mret {| internalSenderId := Some sender.1; phoneNumberId := Sender.providerPhoneNumberId sender.2;
          accessToken := accessToken; rateLimitPerSecond := Sender.rateLimitPerSecond sender.2 |}.

Definition resolve_sender_context (senderId : option string) : io World MetaSenderContext :=
  match truthy senderId with
  | None =>
      phoneNumberId ← lift (required "META_WHATSAPP_PHONE_NUMBER_ID");
      accessToken ← lift (required "META_WHATSAPP_ACCESS_TOKEN");
      mret {| internalSenderId := None; phoneNumberId := phoneNumberId; accessToken := accessToken;
              rateLimitPerSecond := None |}
  | Some senderId => sender ← findActiveById senderId; toSenderContext sender
  end.

Definition resolveContextForTenant (tenantId : string) (senderId : option string) : io World MetaSenderContext :=
  sender ← Senders.resolveForTenant tenantId senderId;
  toSenderContext sender.
End graph.

Module MetaWabaContext.
Record t := make { internalSenderId : string; wabaId : string; accessToken : string }.
End MetaWabaContext.

(** *** The template catalogue *)
Module MetaMessageTemplate.
Record t := make {
  id : string;
  name : string;
  language : string;
  status : string;
  category : option string;
  components : option (list json);
  qualityScore : option json;
  rejectionReason : option string;
  raw : json
}.
End MetaMessageTemplate.
Module MetaTemplateListResult.
Record t := make { wabaId : string; senderId : string; templates : list MetaMessageTemplate.t }.
End MetaTemplateListResult.

Definition not_retryable (message : string) (response : option json) : js_error :=
  MetaApiError message false None None None response.

Definition extractTemplate (item : json) : exec js_error MetaMessageTemplate.t :=
  if negb (is_record item) then
    Throws (not_retryable "Meta template API returned a malformed template entry" (Some item)) else
  match as_string (prop "id" item), as_string (prop "name" item), as_string (prop "language" item),
        as_string (prop "status" item) with
  | Some id, Some name, Some language, Some status =>
      Ok {| MetaMessageTemplate.id := id; MetaMessageTemplate.name := name;
            MetaMessageTemplate.language := language;
            MetaMessageTemplate.status := JsString.toUpperCase status;
            MetaMessageTemplate.category := JsString.toUpperCase <$> as_string (prop "category" item);
            MetaMessageTemplate.components := as_array (prop "components" item);
            MetaMessageTemplate.qualityScore := prop "quality_score" item;
            MetaMessageTemplate.rejectionReason := as_string (prop "rejected_reason" item);
            MetaMessageTemplate.raw := item |}
  | _, _, _, _ =>
      Throws (not_retryable "Meta template API returned a template without required identity fields" (Some item))
  end.
Fixpoint extract_each (data : list json) : exec js_error (list MetaMessageTemplate.t) :=
  match data with
  | [] => Ok []
  | item :: rest => t ← extractTemplate item; ts ← extract_each rest; Ok (t :: ts)
  end.
Definition extractTemplates (value : json) : exec js_error (list MetaMessageTemplate.t) :=
  if negb (is_record value) then
    Throws (not_retryable "Meta template API response must be an object" (Some value)) else
  match prop "data" value with
  | Some (JArr data) => extract_each data
  | _ => Throws (not_retryable "Meta template API response did not include a data array" (Some value))
  end.

(** [{ hasNext, after }] *)
Definition extractPaging (value : json) : bool * option string :=
  match prop "paging" value with
  | Some (JObj paging) =>
      (bool_decide (is_Some (truthy (as_string (field "next" paging)))),
       match field "cursors" paging with
       | Some (JObj cursors) => truthy (as_string (field "after" cursors))
       | _ => None
       end)
  | _ => (false, None)
  end.

Section catalogue.
Context `{Prisma} `{Environment} `{UrlParser} `{Host} `{GraphApi}.

Definition resolveWaba (tenantId : string) (senderId : option string) : io World MetaWabaContext.t :=
  '(sender, wabaId) ← resolveWabaForTenant tenantId senderId;
  accessToken ← Secrets.resolve (Sender.credentialRef sender.2);
  mret (MetaWabaContext.make sender.1 wabaId accessToken).

Definition getPage (r : GraphRequest.t) : io World json :=
  response ← request "Meta template API request failed" r;
  let body := readResponse response in
  if negb (response_ok response) then
    let metaError := extractMetaError body in
    let status := GraphResponse.status response in
    throw (MetaApiError (default ("Meta template API returned HTTP " +:+ pretty status) (MetaError.message metaError))
             (retryable_status status) (MetaError.code metaError) (MetaError.subcode metaError)
             (Some status) (Some body))
  else mret body.

Definition page_request (graphVersion : string) (context : MetaWabaContext.t) (after : option string)
    : exec js_error GraphRequest.t :=
  url ← metaGraphUrl (graphVersion +:+ "/" +:+ encodeURIComponent (MetaWabaContext.wabaId context) +:+ "/message_templates");
  Ok (GraphRequest.make url
        ([("fields", "id,name,language,status,category,components,quality_score,rejected_reason"); ("limit", "100")]%string ++
         match after with Some a => [("after"%string, a)] | None => [] end)
        ("Bearer " +:+ MetaWabaContext.accessToken context) None).

(** [for (let page = 0; page < 100; page += 1)]; [pages] are those left. *)
Fixpoint list_pages (pages : nat) (graphVersion : string) (context : MetaWabaContext.t)
    (after : option string) (seenCursors : gset string) (templates : list MetaMessageTemplate.t)
    : io World (list MetaMessageTemplate.t) :=
  match pages with
  | O => throw (not_retryable "Meta template pagination exceeded the configured 100-page safety limit" None)
  | S pages =>
      r ← lift (page_request graphVersion context after);
      responseBody ← getPage r;
      ts ← lift (extractTemplates responseBody);
      let templates := templates ++ ts in
      match extractPaging responseBody with
      | (false, _) => mret templates
      | (true, None) =>
          throw (not_retryable "Meta template pagination advertised a next page without an after cursor" (Some responseBody))
      | (true, Some next) =>
          if bool_decide (next ∈ seenCursors) then
            throw (not_retryable "Meta template pagination repeated an after cursor" (Some responseBody))
          else list_pages pages graphVersion context (Some next) ({[next]} ∪ seenCursors) templates
      end
  end.

Definition listTemplates (tenantId : string) (senderId : option string) : io World MetaTemplateListResult.t :=
  context ← resolveWaba tenantId senderId;
  graphVersion ← lift graph_version;
  templates ← list_pages 100 graphVersion context None ∅ [];
  mret (MetaTemplateListResult.make (MetaWabaContext.wabaId context) (MetaWabaContext.internalSenderId context) templates).
End catalogue.
