(* ===== verification/MediaStorage.v ===== *)
(** Where the bytes of media assets are kept: a bucket of an S3 service ([media/media-s3-storage.service.ts])
    or a directory ([media/media-binary-storage.service.ts]).

    The disk and the S3 service are parameters: they may answer anything, also differently from one call to
    the next.  Of the disk the world keeps which media files exist; of the bucket, the URLs of its objects. *)
From stdpp Require Import prelude list gmap strings pretty.
From Stdlib Require Import Ascii ZArith Lia SpecFloat.
From S2P Require Import Prelude Float64 Json Numbers Digest Buffers Io Prisma Domain Frame Payload Secrets MediaPolicy S3Signature Graph.
#[local] Open Scope Z_scope.

(** ** The disk *)
(** What the code reads of [Stats] and of [StatFs]. *)
Record MediaStats := { isFile : bool; isDirectory : bool; st_size : Z }.
Record MediaStatFs := { blocks : Z; bavail : Z; bsize : Z }.
(** The number tells the calls apart.  A copy may leave its target behind when it fails. *)
Class MediaDisk := {
  disk_stat : nat -> string -> js_error + MediaStats;
  disk_access : nat -> string -> option js_error;
  disk_statfs : nat -> string -> js_error + MediaStatFs;
  disk_read : nat -> string -> js_error + list Z;
  disk_mkdir : nat -> string -> option js_error;
  disk_copy : nat -> string -> string -> bool * option js_error;
  disk_rm : nat -> string -> option js_error
}.

(** ** The S3 service *)
Module S3Request.
Record t := make { method : string; url : Url.t; headers : list (string * string); body : option string }.
End S3Request.
Definition status_ok (status : Z) : bool := (200 <=? status) && (status <=? 299).
(** An answer is a status or a failure; whether the request took effect shows in some answers. *)
Class ObjectStore := {
  s3_answer : nat -> S3Request.t -> js_error + Z;
  s3_applied : nat -> S3Request.t -> bool;
  s3_put_applied : forall n r status, S3Request.method r = "PUT"%string -> s3_answer n r = inr status ->
    status_ok status = true -> s3_applied n r = true;
  s3_delete_applied : forall n r status, S3Request.method r = "DELETE"%string -> s3_answer n r = inr status ->
    status_ok status || (status =? 404) = true -> s3_applied n r = true
}.

Definition DEFAULT_REGION : string := "us-east-1".
Definition DEFAULT_TIMEOUT_MS : Z := 30000.
Definition MAX_TIMEOUT_MS : Z := 300000.
Definition EMPTY_SHA256 : string := hex (Sha256.digest []).

Module S3Configuration.
Record t := make {
  endpoint : Url.t; bucket : string; region : string; accessKeyId : string; secretAccessKey : string;
  sessionToken : option string; timeoutMs : Z }.
End S3Configuration.
Inductive MediaS3Diagnostics := S3Up | S3NotConfigured | S3Unavailable.

(** *** Names *)
Definition lower_alnum (c : ascii) : bool := let n := JsString.code_unit c in ((97 <=? n) && (n <=? 122)) || is_digit c.
Definition bucket_char (c : ascii) : bool := let n := JsString.code_unit c in lower_alnum c || (n =? 46) || (n =? 45).
(** [/^[a-z0-9][a-z0-9.-]{1,61}[a-z0-9]$/] *)
Definition is_bucket (s : string) : bool :=
  match String.list_ascii_of_string s with
  | c :: rest =>
      lower_alnum c && (2 <=? Z.of_nat (length rest)) && (Z.of_nat (length rest) <=? 62) && forallb bucket_char (removelast rest) &&
      match last rest with Some d => lower_alnum d | None => false end
  | [] => false
  end.
Definition includes_text (part s : string) : bool := match String.index 0 part s with Some _ => true | None => false end.
(** [/^[a-z0-9-]{1,64}$/] *)
Definition is_region (s : string) : bool :=
  let l := String.list_ascii_of_string s in
  (1 <=? JsString.len s) && (JsString.len s <=? 64) && forallb (fun c => lower_alnum c || (JsString.code_unit c =? 45)) l.
(** [/^[0-9a-f-]{36}\/[0-9a-f-]{36}$/i] *)
Definition key_char (c : ascii) : bool :=
  let n := JsString.code_unit c in is_digit c || ((97 <=? n) && (n <=? 102)) || ((65 <=? n) && (n <=? 70)) || (n =? 45).
Definition is_object_key (key : string) : bool :=
  let l := String.list_ascii_of_string key in
  (JsString.len key =? 73) && forallb key_char (take 36 l) && bool_decide (l !! 36%nat = Some "/"%char) && forallb key_char (drop 37 l).

Section s3.
Context `{Prisma} `{Environment} `{UrlParser} `{Host} `{MediaDisk} `{ObjectStore}.
#[local] Open Scope string_scope.

Definition env (name : string) : option string := JsString.trim <$> process_env name.
Definition s3_timeout (raw : option string) : exec js_error Z :=
  read_integer raw DEFAULT_TIMEOUT_MS 1000 MAX_TIMEOUT_MS
    (MediaS3StorageError ("MEDIA_S3_TIMEOUT_MS must be an integer between 1000 and " ++ pretty MAX_TIMEOUT_MS)).
Definition refuse_s3 {A} (message : string) : exec js_error A := Throws (MediaS3StorageError message).

Definition configuration : exec js_error S3Configuration.t :=
  match truthy (env "MEDIA_S3_ENDPOINT") with
  | None => refuse_s3 "MEDIA_S3_ENDPOINT is required for S3 media storage"
  | Some endpointRaw =>
      match parse_url endpointRaw with
      | None => refuse_s3 "MEDIA_S3_ENDPOINT must be an absolute URL"
      | Some endpoint =>
          if negb ((Url.username endpoint =? "") && (Url.password endpoint =? "") && (Url.search endpoint =? "") && (Url.hash endpoint =? "")) then
            refuse_s3 "MEDIA_S3_ENDPOINT cannot contain credentials, query, or fragment"
          else if negb (Url.pathname endpoint =? "/") && negb (Url.pathname endpoint =? "") then
            refuse_s3 "MEDIA_S3_ENDPOINT cannot contain a path"
          else if negb (Url.protocol endpoint =? "https:") &&
                  negb (bool_decide (process_env "NODE_ENV" = Some "test") && (Url.protocol endpoint =? "http:")) then
            refuse_s3 "MEDIA_S3_ENDPOINT must use HTTPS outside test mode"
          else
          let bucket := default "" (env "MEDIA_S3_BUCKET") in
          if negb (is_bucket bucket) || includes_text ".." bucket then
            refuse_s3 "MEDIA_S3_BUCKET must be a valid DNS-compatible bucket name" else
          let region := JsString.toLowerCase (default DEFAULT_REGION (truthy (env "MEDIA_S3_REGION"))) in
          if negb (is_region region) then refuse_s3 "MEDIA_S3_REGION is invalid" else
          match truthy (env "MEDIA_S3_ACCESS_KEY_ID"), truthy (env "MEDIA_S3_SECRET_ACCESS_KEY") with
          | Some accessKeyId, Some secretAccessKey =>
              timeoutMs ← s3_timeout (process_env "MEDIA_S3_TIMEOUT_MS");
              Ok (S3Configuration.make endpoint bucket region accessKeyId secretAccessKey (truthy (env "MEDIA_S3_SESSION_TOKEN")) timeoutMs)
          | _, _ => refuse_s3 "MEDIA_S3_ACCESS_KEY_ID and MEDIA_S3_SECRET_ACCESS_KEY are required for S3 media storage"
          end
      end
  end.

(** [new URL(path, origin)] of a path that starts with one slash. *)
Definition url_at (path : string) (endpoint : Url.t) : exec js_error Url.t :=
  match parse_url (Url.origin endpoint ++ path) with Some url => Ok url | None => Throws (Error "Invalid URL") end.
Definition bucketUrl (config : S3Configuration.t) : exec js_error Url.t :=
  url_at ("/" ++ encodeURIComponent (S3Configuration.bucket config)) (S3Configuration.endpoint config).
Definition objectUrl (config : S3Configuration.t) (key : string) : exec js_error Url.t :=
  if negb (is_object_key key) then refuse_s3 "Invalid server-generated media S3 storage key" else
  let encodedKey := join "/" (encodeURIComponent <$> split_at "/"%char key) in
  url_at ("/" ++ encodeURIComponent (S3Configuration.bucket config) ++ "/" ++ encodedKey) (S3Configuration.endpoint config).

Definition signature_input (config : S3Configuration.t) (method : string) (url : Url.t) (payloadHash : string) (date : Z) : S3SignatureInput :=
  {| S3Signature.method := method; S3Signature.url := url; S3Signature.region := S3Configuration.region config;
     S3Signature.accessKeyId := S3Configuration.accessKeyId config; S3Signature.secretAccessKey := S3Configuration.secretAccessKey config;
     S3Signature.payloadHash := payloadHash; S3Signature.date := date; S3Signature.headers := [];
     S3Signature.sessionToken := S3Configuration.sessionToken config |}.
Definition signed_request (config : S3Configuration.t) (method : string) (url : Url.t) (payloadHash : string)
    (body : option string) (contentLength : option Z) (date : Z) : S3Request.t :=
  let signed := createS3SignedHeaders (signature_input config method url payloadHash date) in
  let headers := foldl (fun l h => set_key h.1 h.2 l) [("authorization", authorization signed)]
                   (filter (fun h => h.1 <> "host") (signed_headers signed)) in
  let headers := match contentLength with Some n => set_key "content-length" (pretty n) headers | None => headers end in
  S3Request.make method url headers body.

(** [fetch]: what becomes of the bucket. *)
Definition s3_effect (r : S3Request.t) (w : World) : World :=
  if S3Request.method r =? "PUT" then w <| objects ::= union {[Url.href (S3Request.url r)]} |>
  else if S3Request.method r =? "DELETE" then w <| objects ::= fun o => o ∖ {[Url.href (S3Request.url r)]} |>
  else w.
Definition s3_fetch (r : S3Request.t) : io World Z := fun w =>
  (match s3_answer (tick w) r with inl e => Throws e | inr status => Ok status end,
   if s3_applied (tick w) r then s3_effect r (bump w) else bump w).

Definition signedRequest (config : S3Configuration.t) (method : string) (url : Url.t) (payloadHash : string)
    (body : option string) (contentLength : option Z) : io World Z :=
  date ← now;
  try_catch (s3_fetch (signed_request config method url payloadHash body contentLength date))
    (fun error => throw (MediaS3StorageError ("Unable to communicate with S3 media storage: " ++ error_message string_of error))).

(** A call of the disk that may throw. *)
Definition disk {A} (f : nat -> js_error + A) : io World A := fun w =>
  (match f (tick w) with inl e => Throws e | inr a => Ok a end, bump w).
Definition disk_unit (f : nat -> option js_error) : io World () := fun w =>
  (match f (tick w) with Some e => Throws e | None => Ok tt end, bump w).

Definition hashFile (filePath : string) : io World string :=
  try_catch (bytes ← disk (fun n => disk_read n filePath); mret (hex (Sha256.digest bytes)))
    (fun error => throw (MediaS3StorageError ("Unable to hash media file for S3 storage: " ++ error_message string_of error))).

Definition putObject (key filePath : string) : io World Z :=
  config ← lift configuration;
  file ← try_catch (disk (fun n => disk_stat n filePath))
    (fun error => throw (MediaS3StorageError ("Unable to inspect media file for S3 storage: " ++ error_message string_of error)));
  if negb (isFile file) then throw (MediaS3StorageError "Media S3 source path is not a regular file") else
  payloadHash ← hashFile filePath;
  url ← lift (objectUrl config key);
  status ← signedRequest config "PUT" url payloadHash (Some filePath) (Some (st_size file));
  if negb (status_ok status) then throw (MediaS3StorageError ("S3 media upload failed with HTTP " ++ pretty status))
  else now.

Definition deleteObject (key : string) : io World () :=
  config ← lift configuration;
  url ← lift (objectUrl config key);
  status ← signedRequest config "DELETE" url EMPTY_SHA256 None None;
  if status_ok status || (status =? 404)%Z then mret tt
  else throw (MediaS3StorageError ("S3 media deletion failed with HTTP " ++ pretty status)).

Definition s3_diagnostics : io World MediaS3Diagnostics :=
  match configuration with
  | Ok config =>
      try_catch
        (url ← lift (bucketUrl config);
         status ← signedRequest config "HEAD" url EMPTY_SHA256 None None;
         mret (if status_ok status then S3Up else S3Unavailable))
        (fun _ => mret S3Unavailable)
  | _ => mret S3NotConfigured
  end.
End s3.

(** ** The storage of binaries *)
Inductive MediaBinaryStorageMode := DISABLED | FILESYSTEM | S3.
Definition mode_name (m : MediaBinaryStorageMode) : string :=
  match m with DISABLED => "DISABLED" | FILESYSTEM => "FILESYSTEM" | S3 => "S3" end.
Record MediaBinaryStorageTarget := { target_mode : MediaBinaryStorageMode; target_key : option string }.
Record StagedMediaBinary := { staged_target : MediaBinaryStorageTarget; filePath : string; storedAt : option Z }.
Record Capacity := { totalBytes : Z; freeBytes : Z; freePercent : f64; minimumFreeBytes : Z; minimumFreePercent : f64 }.
Inductive MediaBinaryStorageDiagnostics :=
| DisabledUp
| FilesystemUp (c : Capacity)
| FilesystemLow (c : Capacity)
| FilesystemUnavailable (minimumFreeBytes : Z) (minimumFreePercent : f64)
| NotConfigured (mode : string)
| S3Diagnostics (d : MediaS3Diagnostics).

Definition DEFAULT_MIN_FREE_BYTES : Z := 1024 * 1024 * 1024.
Definition DEFAULT_MIN_FREE_PERCENT : Z := 5.

Section storage.
Context `{Prisma} `{Environment} `{UrlParser} `{Host} `{MediaDisk} `{ObjectStore}.
#[local] Open Scope string_scope.

Definition refuse_storage {A} (message : string) : exec js_error A := Throws (MediaBinaryStorageError message).

Definition mode : exec js_error MediaBinaryStorageMode :=
  let value := JsString.toLowerCase (JsString.trim (default "disabled" (process_env "MEDIA_BINARY_STORAGE_MODE"))) in
  if value =? "disabled" then Ok DISABLED
  else if value =? "filesystem" then Ok FILESYSTEM
  else if value =? "s3" then Ok S3
  else refuse_storage ("Unsupported MEDIA_BINARY_STORAGE_MODE: " ++ value).

Definition filesystemRoot : exec js_error string :=
  match truthy (env "MEDIA_FILESYSTEM_STORAGE_PATH") with
  | None => refuse_storage "MEDIA_FILESYSTEM_STORAGE_PATH is required for filesystem media storage"
  | Some configured =>
      if negb (isAbsolute configured) then refuse_storage "MEDIA_FILESYSTEM_STORAGE_PATH must be an absolute path" else
      let root := resolve_path configured in
      if root =? "/" then refuse_storage "MEDIA_FILESYSTEM_STORAGE_PATH cannot be the filesystem root" else Ok root
  end.
Definition readMinimumFreeBytes : exec js_error Z :=
  read_integer (process_env "MEDIA_FILESYSTEM_MIN_FREE_BYTES") DEFAULT_MIN_FREE_BYTES 0 MAX_SAFE_INTEGER
    (MediaBinaryStorageError "MEDIA_FILESYSTEM_MIN_FREE_BYTES must be a non-negative safe integer").
Definition readMinimumFreePercent : exec js_error f64 :=
  match given (process_env "MEDIA_FILESYSTEM_MIN_FREE_PERCENT") with
  | None => Ok (f64_of_Z DEFAULT_MIN_FREE_PERCENT)
  | Some raw =>
      let value := JsNumber.of_string raw in
      if negb (JsNumber.is_finite value) || SFltb value (f64_of_Z 0) || SFltb (f64_of_Z 100) value then
        refuse_storage "MEDIA_FILESYSTEM_MIN_FREE_PERCENT must be between 0 and 100"
      else Ok value
  end.
(** [resolve(root, key)]: an absolute key replaces the root. *)
Definition pathForKey (root key : string) : exec js_error string :=
  let targetPath := resolve_path (if isAbsolute key then key else root ++ "/" ++ key) in
  if String.prefix (root ++ "/") targetPath then Ok targetPath
  else refuse_storage "Media storage key resolved outside the configured root".

(** [catch (error) { if (error instanceof MediaS3StorageError) throw ...; throw error; }] *)
Definition s3_failed (message : string) (error : js_error) : js_error :=
  match error with MediaS3StorageError _ => MediaBinaryStorageError message | _ => error end.

Definition targetFor (tenantId assetId : string) : exec js_error MediaBinaryStorageTarget :=
  mode ← mode;
  let key := tenantId ++ "/" ++ assetId in
  match mode with
  | DISABLED => Ok {| target_mode := mode; target_key := None |}
  | S3 =>
      match configuration with
      | Ok _ => Ok {| target_mode := mode; target_key := Some key |}
      | Throws error => Throws (s3_failed "S3 media storage is not configured correctly" error)
      | OutOfFuel => OutOfFuel
      end
  | FILESYSTEM =>
      root ← filesystemRoot;
      _ ← pathForKey root key;
      Ok {| target_mode := mode; target_key := Some key |}
  end.

(** The part of [assertCapacityFor] and [diagnostics] inside their [try]: the figures, and the decision. *)
Definition measure (root : string) (minimumFreeBytes : Z) (minimumFreePercent : f64) (requiredBytes : option Z)
    : io World (Capacity * MediaStorageCapacityDecision) :=
  rootStat ← disk (fun n => disk_stat n root);
  if negb (isDirectory rootStat) then throw (Error "storage root is not a directory") else
  _ ← disk_unit (fun n => disk_access n root);
  capacity ← disk (fun n => disk_statfs n root);
  let totalBytes := (blocks capacity * bsize capacity)%Z in
  let freeBytes := (bavail capacity * bsize capacity)%Z in
  match evaluateMediaStorageCapacity
          {| MediaPolicy.totalBytes := totalBytes; MediaPolicy.freeBytes := freeBytes; MediaPolicy.minimumFreeBytes := minimumFreeBytes;
             MediaPolicy.minimumFreePercent := minimumFreePercent; requiredBytes := requiredBytes |} with
  | inl message => throw (MediaStorageCapacityPolicyError message)
  | inr decision =>
      mret ({| totalBytes := totalBytes; freeBytes := freeBytes; freePercent := projectedFreePercent decision;
               minimumFreeBytes := minimumFreeBytes; minimumFreePercent := minimumFreePercent |}, decision)
  end.

Definition assertCapacityFor (requiredBytes : Z) : io World () :=
  mode ← lift mode;
  match mode with
  | DISABLED | S3 => mret tt
  | FILESYSTEM =>
      root ← lift filesystemRoot;
      minimumFreeBytes ← lift readMinimumFreeBytes;
      minimumFreePercent ← lift readMinimumFreePercent;
      try_catch
        ('(_, decision) ← measure root minimumFreeBytes minimumFreePercent (Some requiredBytes);
         if negb (allowed decision) then throw (MediaBinaryStorageError "Insufficient filesystem media storage capacity") else mret tt)
        (fun error => throw match error with
                            | MediaBinaryStorageError _ => error
                            | MediaStorageCapacityPolicyError _ => MediaBinaryStorageError "Invalid filesystem media storage capacity"
                            | _ => MediaBinaryStorageError "Filesystem media storage is unavailable"
                            end)
  end.

(** [createWriteStream(target, { flags: "wx" })] refuses a file that exists; a copy that fails may leave
    its target behind, one that succeeds has made it. *)
Definition copy_exclusive (source target : string) : io World () := fun w =>
  if bool_decide (target ∈ files w) then (Throws (Error ("EEXIST: file already exists, open '" ++ target ++ "'")), bump w) else
  match disk_copy (tick w) source target with
  | (_, None) => (Ok tt, bump w <| files ::= union {[target]} |>)
  | (created, Some e) => (Throws e, if created : bool then bump w <| files ::= union {[target]} |> else bump w)
  end.
(** [rm(path, { force: true })] *)
Definition rm (path : string) : io World () := fun w =>
  match disk_rm (tick w) path with
  | Some e => (Throws e, bump w)
  | None => (Ok tt, bump w <| files ::= fun f => f ∖ {[path]} |>)
  end.

(** The path without its last segment. *)
Definition dirname (path : string) : string :=
  match split_at "/"%char path with [] => "" | parts => join "/" (removelast parts) end.

Definition stage (sourcePath : string) (target : MediaBinaryStorageTarget) : io World StagedMediaBinary :=
  match target_mode target with
  | DISABLED => mret {| staged_target := target; filePath := sourcePath; storedAt := None |}
  | S3 =>
      match truthy (target_key target) with
      | None => throw (MediaBinaryStorageError "Invalid S3 media storage target")
      | Some key =>
          try_catch (storedAt ← putObject key sourcePath;
                     mret {| staged_target := target; filePath := sourcePath; storedAt := Some storedAt |})
            (fun error => throw (s3_failed "Unable to stage media binary in S3 storage" error))
      end
  | FILESYSTEM =>
      match truthy (target_key target) with
      | None => throw (MediaBinaryStorageError "Invalid filesystem media storage target")
      | Some key =>
          root ← lift filesystemRoot;
          targetPath ← lift (pathForKey root key);
          _ ← try_catch (_ ← disk_unit (fun n => disk_mkdir n (dirname targetPath)); copy_exclusive sourcePath targetPath)
                (fun error =>
                   _ ← try_catch (rm targetPath) (fun _ => mret tt);
                   throw (MediaBinaryStorageError ("Unable to stage media binary: " ++ error_message string_of error)));
          storedAt ← now;
          mret {| staged_target := target; filePath := targetPath; storedAt := Some storedAt |}
      end
  end.

Definition discard (mode : string) (key : option string) : io World () :=
  match truthy key with
  | None => mret tt
  | Some key =>
      if mode =? "DISABLED" then mret tt
      else if mode =? "S3" then
        try_catch (deleteObject key) (fun error => throw (s3_failed "Unable to delete stored S3 media binary" error))
      else if negb (mode =? "FILESYSTEM") then throw (MediaBinaryStorageError ("Unsupported persisted media storage mode: " ++ mode))
      else
        root ← lift filesystemRoot;
        targetPath ← lift (pathForKey root key);
        try_catch (rm targetPath)
          (fun error => throw (MediaBinaryStorageError ("Unable to delete stored media binary: " ++ error_message string_of error)))
  end.

Definition diagnostics : io World MediaBinaryStorageDiagnostics :=
  match mode with
  | Ok DISABLED => mret DisabledUp
  | Ok S3 => d ← s3_diagnostics; mret (S3Diagnostics d)
  | Ok FILESYSTEM =>
      match filesystemRoot with
      | Ok root =>
          match (minimumFreeBytes ← readMinimumFreeBytes; minimumFreePercent ← readMinimumFreePercent;
                 Ok (minimumFreeBytes, minimumFreePercent)) with
          | Ok (minimumFreeBytes, minimumFreePercent) =>
              try_catch
                ('(c, decision) ← measure root minimumFreeBytes minimumFreePercent None;
                 mret (if allowed decision then FilesystemUp c else FilesystemLow c))
                (fun _ => mret (FilesystemUnavailable minimumFreeBytes minimumFreePercent))
          | _ => mret (NotConfigured "filesystem")
          end
      | _ => mret (NotConfigured "filesystem")
      end
  | _ => mret (NotConfigured "invalid")
  end.
End storage.

(** ** Every request is signed *)
(** What is sent is what the S3 service accepts: the signature covers the method, the URL, the host, the date and
    the hash of the body, and stands in the header for it. *)
Section signed.
Context (config : S3Configuration.t) (url : Url.t) (body : list Z) (path : option string) (contentLength : option Z) (date : Z).

Lemma set_key_new name v l : name ∉ l.*1 -> set_key name v l = l ++ [(name, v)].
Proof.
  induction l as [|[n w] l IH]; cbn; [done|]. intros [Hn Hl]%not_elem_of_cons.
  destruct (String.eqb_spec n name) as [->|]; [done|]. by rewrite IH.
Qed.
Lemma set_keys_new l base : NoDup (base.*1 ++ l.*1) -> foldl (fun l h => set_key h.1 h.2 l) base l = base ++ l.
Proof.
  revert base. induction l as [|[n v] l IH]; intros base Hn; cbn; [by rewrite app_nil_r|]. cbn in Hn.
  assert (Hn' : NoDup ((base ++ [(n, v)]).*1 ++ l.*1)) by (rewrite fmap_app, <- app_assoc; exact Hn).
  rewrite set_key_new; [by rewrite (IH _ Hn'), <- app_assoc|]. apply NoDup_app in Hn as (_ & Hd & _).
  intros Hin. apply (Hd n Hin). left.
Qed.
(** Without headers of the caller. *)
Lemma signed_list input : headers input = [] ->
  exists host hash date, signed_headers (createS3SignedHeaders input) =
    [("host", host); ("x-amz-content-sha256", hash); ("x-amz-date", date)]%string ++
    match truthy (sessionToken input) with Some token => [("x-amz-security-token"%string, normalize_value token)] | None => [] end.
Proof.
  intros Hh. unfold createS3SignedHeaders. rewrite Hh. eexists _, _, _. destruct (truthy (sessionToken input)) as [t|].
  - exact (normalize_signed (Url.host (S3Signature.url input)) (payloadHash input) (formatAmzDate (S3Signature.date input)) [t]).
  - exact (normalize_signed (Url.host (S3Signature.url input)) (payloadHash input) (formatAmzDate (S3Signature.date input)) []).
Qed.

Lemma request_headers method :
  let signed := createS3SignedHeaders (signature_input config method url (hex (Sha256.digest body)) date) in
  S3Request.headers (signed_request config method url (hex (Sha256.digest body)) path contentLength date) =
    ("authorization"%string, authorization signed) :: filter (fun h => h.1 <> "host"%string) (signed_headers signed) ++
     match contentLength with Some n => [("content-length"%string, pretty n)] | None => [] end.
Proof.
  cbn zeta. set (input := signature_input _ _ _ _ _). set (signed := createS3SignedHeaders input).
  destruct (signed_list input eq_refl) as (host & hash & day & Hl).
  assert (Hnames : (filter (fun h => h.1 <> "host"%string) (signed_headers signed)).*1 =
    ["x-amz-content-sha256"; "x-amz-date"]%string ++ match truthy (sessionToken input) with Some _ => ["x-amz-security-token"%string] | None => [] end).
  { subst signed. rewrite Hl. by destruct (truthy (sessionToken input)). }
  unfold signed_request. fold input signed. cbn [S3Request.headers].
  assert (Hd : NoDup ([("authorization"%string, authorization signed)].*1 ++ (filter (fun h => h.1 <> "host"%string) (signed_headers signed)).*1)).
  { rewrite Hnames. cbn [fmap list_fmap fst]. destruct (truthy (sessionToken input)); refine (bool_decide_unpack _ _); vm_compute; exact I. }
  rewrite set_keys_new by done. cbn [app].
  destruct contentLength as [n|]; [|by rewrite app_nil_r]. rewrite set_key_new; [done|]. cbn [fmap list_fmap fst]. rewrite Hnames.
  destruct (truthy (sessionToken input)); refine (bool_decide_unpack _ _); vm_compute; exact I.
Qed.
End signed.


(** ** What an operation does to the binaries *)
(** A place for a binary: a file or an object. *)
Definition place : Type := (string + string)%type.
Definition holds `{Prisma} (l : place) (w : World) : Prop :=
  match l with inl path => path ∈ files w | inr url => url ∈ objects w end.

Section places.
Context `{Prisma} `{Environment} `{UrlParser} `{Host} `{MediaDisk} `{ObjectStore}.

(** Where an asset with this mode and key has its binary. *)
Definition location (mode : string) (key : option string) : option place :=
  match truthy key with
  | None => None
  | Some key =>
      if String.eqb mode "S3" then
        match (config ← configuration; objectUrl config key) with Ok url => Some (inr (Url.href url)) | _ => None end
      else if String.eqb mode "FILESYSTEM" then
        match (root ← filesystemRoot; pathForKey root key) with Ok path => Some (inl path) | _ => None end
      else None
  end.

(** Only this place may have gained or lost its binary. *)
Definition only_at (l : option place) (w w' : World) : Prop :=
  (exists f o n, w' = w <| files := f |> <| objects := o |> <| tick := n |>) /\
  forall l', l <> Some l' -> holds l' w' <-> holds l' w.
#[export] Instance only_at_preorder l : PreOrder (only_at l).
Proof.
  split.
  - intros w. split; [exists (files w), (objects w), (tick w); by destruct w|done].
  - intros w1 w2 w3 [(f & o & n & ->) H1'] [(f' & o' & n' & ->) H2']. split; [by exists f', o', n'|].
    intros l' Hl. by rewrite H2', H1'.
Qed.
Lemma only_at_tick l w n : only_at l w (w <| tick := n |>).
Proof. split; [exists (files w), (objects w), n; by destruct w|done]. Qed.
Lemma only_at_weaken l w w' : only_at None w w' -> only_at l w w'.
Proof. intros [Hm Hl]. split; [done|]. intros l' _. by apply Hl. Qed.
Lemma preserves_weaken {A} l (m : io World A) : preserves (only_at None) m -> preserves (only_at l) m.
Proof. intros Hm w. apply only_at_weaken, Hm. Qed.
Lemma preserves_bind_lift {A B} R `{!PreOrder R} (x : exec js_error A) (f : A -> io World B) :
  (forall a, x = Ok a -> preserves R (f a)) -> preserves R (lift x ≫= f).
Proof. intros Hf w. unfold mbind, io_bind, lift. destruct x as [a|e|]; [by apply Hf|reflexivity..]. Qed.

Lemma disk_quiet {A} l (f : nat -> js_error + A) : preserves (only_at l) (disk f).
Proof. intros w. apply only_at_tick. Qed.
Lemma disk_unit_quiet l (f : nat -> option js_error) : preserves (only_at l) (disk_unit f).
Proof. intros w. apply only_at_tick. Qed.
Lemma now_quiet l : preserves (only_at l) now.
Proof. intros w. apply only_at_tick. Qed.

Local Ltac moved_here w :=
  lazymatch goal with |- exists f o n, ?x = _ => exists (files x), (objects x), (tick x); destruct w; reflexivity end.
Lemma s3_effect_at r w : only_at (Some (inr (Url.href (S3Request.url r)))) w (s3_effect r w).
Proof.
  unfold s3_effect. destruct (String.eqb _ "PUT"); [|destruct (String.eqb _ "DELETE"); [|reflexivity]];
    (split; [by moved_here w|]); intros [p|u] Hl; cbn; try done;
    (assert (u <> Url.href (S3Request.url r)) by (intros ->; by apply Hl)); rewrite ?elem_of_union, ?elem_of_difference, elem_of_singleton; tauto.
Qed.
Lemma s3_fetch_at r : preserves (only_at (Some (inr (Url.href (S3Request.url r))))) (s3_fetch r).
Proof.
  intros w. unfold s3_fetch. cbn [snd]. destruct (s3_applied _ _); [|apply only_at_tick].
  etrans; [apply (only_at_tick _ w (S (tick w)))|apply s3_effect_at].
Qed.
Lemma signedRequest_at config method url hash body n :
  preserves (only_at (Some (inr (Url.href url)))) (signedRequest config method url hash body n).
Proof.
  unfold signedRequest. apply preserves_bind; [apply _|apply now_quiet|]. intros date.
  apply preserves_try; [apply _| |intros e; apply preserves_throw; apply _].
  exact (s3_fetch_at (signed_request config method url hash body n date)).
Qed.

Lemma truthy_named key : key <> ""%string -> truthy (Some key) = Some key.
Proof. intros Hk. unfold truthy. by destruct key. Qed.
Lemma truthy_key key k : truthy key = Some k -> key = Some k /\ k <> ""%string.
Proof. destruct key as [[|c s]|]; cbn; [done| |done]. by intros [= <-]. Qed.
Lemma location_s3 key config url : key <> ""%string ->
  configuration = Ok config -> objectUrl config key = Ok url -> location "S3" (Some key) = Some (inr (Url.href url)).
Proof.
  intros Hk Hc Hu. unfold location. rewrite truthy_named by done.
  assert (E : (config ← configuration; objectUrl config key) = Ok url) by (rewrite Hc; exact Hu). by rewrite E.
Qed.
Lemma location_file key root path : key <> ""%string ->
  filesystemRoot = Ok root -> pathForKey root key = Ok path -> location "FILESYSTEM" (Some key) = Some (inl path).
Proof.
  intros Hk Hc Hu. unfold location. rewrite truthy_named by done.
  assert (E : (root ← filesystemRoot; pathForKey root key) = Ok path) by (rewrite Hc; exact Hu). by rewrite E.
Qed.

Lemma putObject_at key path : key <> ""%string -> preserves (only_at (location "S3" (Some key))) (putObject key path).
Proof.
  intros Hk. unfold putObject. apply preserves_bind_lift; [apply _|]. intros config Hc.
  apply preserves_bind; [apply _|apply preserves_try; [apply _|apply disk_quiet|intros e; apply preserves_throw; apply _]|]. intros file.
  destruct (negb (isFile file)); [apply preserves_throw; apply _|].
  apply preserves_bind; [apply _| |intros hash].
  { unfold hashFile. apply preserves_try; [apply _| |intros e; apply preserves_throw; apply _].
    apply preserves_bind; [apply _|apply disk_quiet|]. intros b. apply preserves_ret. apply _. }
  apply preserves_bind_lift; [apply _|]. intros url Hu. rewrite (location_s3 _ _ _ Hk Hc Hu).
  apply preserves_bind; [apply _|apply signedRequest_at|]. intros status.
  destruct (negb (status_ok status)); [apply preserves_throw; apply _|apply now_quiet].
Qed.

Lemma rm_at path : preserves (only_at (Some (inl path))) (rm path).
Proof.
  intros w. unfold rm. destruct (disk_rm _ _); [apply only_at_tick|].
  split; [by moved_here w|]. intros [p|u] Hl; cbn; [|done].
  assert (p <> path) by (intros ->; by apply Hl). rewrite ?elem_of_union, ?elem_of_difference, elem_of_singleton. tauto.
Qed.
Lemma copy_at source target : preserves (only_at (Some (inl target))) (copy_exclusive source target).
Proof.
  assert (Hadd : forall w, only_at (Some (inl target)) w (bump w <| files ::= union {[target]} |>)).
  { intros w. split; [by moved_here w|]. intros [p|u] Hl; cbn; [|done].
    assert (p <> target) by (intros ->; by apply Hl). rewrite ?elem_of_union, ?elem_of_difference, elem_of_singleton. tauto. }
  intros w. unfold copy_exclusive. case_bool_decide; [apply only_at_tick|].
  destruct (disk_copy _ _ _) as [created [e|]]; [destruct created; [|apply only_at_tick]|]; apply Hadd.
Qed.

(** Staging a binary changes its own place only. *)
Lemma stage_at source target :
  preserves (only_at (location (mode_name (target_mode target)) (target_key target))) (stage source target).
Proof.
  destruct target as [mode key]. unfold stage. cbn [target_mode target_key]. destruct mode; [apply preserves_ret; apply _|..].
  - destruct (truthy key) as [k|] eqn:E; [|apply preserves_throw; apply _]. apply truthy_key in E as [-> Hk].
    apply preserves_bind_lift; [apply _|]. intros root Hr. apply preserves_bind_lift; [apply _|]. intros path Hp.
    cbn [mode_name]. rewrite (location_file _ _ _ Hk Hr Hp).
    apply preserves_bind; [apply _| |intros []; apply preserves_bind; [apply _|apply now_quiet|intros t; apply preserves_ret; apply _]].
    apply preserves_try; [apply _|apply preserves_bind; [apply _|apply disk_unit_quiet|intros []; apply copy_at]|].
    intros e. apply preserves_bind; [apply _| |intros []; apply preserves_throw; apply _].
    apply preserves_try; [apply _|apply rm_at|]. intros e'. apply preserves_ret. apply _.
  - destruct (truthy key) as [k|] eqn:E; [|apply preserves_throw; apply _]. apply truthy_key in E as [-> Hk].
    apply preserves_try; [apply _| |intros e; apply preserves_throw; apply _].
    apply preserves_bind; [apply _|by apply putObject_at|]. intros t. apply preserves_ret. apply _.
Qed.

(** ... of the places, whatever happens to the tables. *)
Definition places_at (ls : list place) (w w' : World) : Prop := forall l, l ∉ ls -> holds l w' <-> holds l w.
#[export] Instance places_at_preorder ls : PreOrder (places_at ls).
Proof. split; [done|]. intros w1 w2 w3 Ha Hb l Hl. specialize (Ha l Hl). specialize (Hb l Hl). tauto. Qed.
Lemma only_places {A} l (m : io World A) ls : preserves (only_at l) m -> (forall x, l = Some x -> x ∈ ls) -> preserves (places_at ls) m.
Proof. intros Hm Hl w x Hx. apply (Hm w). intros ->. by apply Hx, Hl. Qed.
Lemma framed_places {A} (m : io World A) ls : frames (fun w => (files w, objects w)) m -> preserves (places_at ls) m.
Proof. intros Hm w l _. specialize (Hm w). injection Hm as E1 E2. destruct l; cbn; [by rewrite E1|by rewrite E2]. Qed.

(** A discarded binary is gone; nothing is added. *)
Definition discarded (l : option place) (r : exec js_error ()) (w w' : World) : Prop :=
  r <> OutOfFuel /\ only_at l w w' /\ (forall l', holds l' w' -> holds l' w) /\ (r = Ok tt -> forall l', l = Some l' -> ~ holds l' w').

Lemma configuration_returns : configuration <> OutOfFuel.
Proof. unfold configuration. repeat (case_match; try done). unfold s3_timeout. destruct (read_integer _ _ _ _ _) eqn:E; [done|done|by apply read_integer_returns in E]. Qed.
Lemma objectUrl_returns config key : objectUrl config key <> OutOfFuel.
Proof. unfold objectUrl, url_at. by repeat case_match. Qed.
Lemma filesystemRoot_returns : filesystemRoot <> OutOfFuel.
Proof. unfold filesystemRoot. by repeat case_match. Qed.
Lemma pathForKey_returns root key : pathForKey root key <> OutOfFuel.
Proof. unfold pathForKey. by repeat case_match. Qed.

Lemma deleteObject_spec key w : key <> ""%string -> wp (deleteObject key) (fun r w' => discarded (location "S3" (Some key)) r w w') w.
Proof.
  intros Hk. assert (Hrefl : forall e, discarded (location "S3" (Some key)) (Throws e) w w) by (intros e; split; [done|]; split; [reflexivity|]; by split).
  unfold deleteObject. apply wp_bind. pose proof configuration_returns as Hcr. unfold wp at 1, lift. cbn [fst snd].
  destruct configuration as [config|e|] eqn:Hc; [|apply Hrefl|done].
  apply wp_bind. pose proof (objectUrl_returns config key) as Hur. unfold wp at 1, lift. cbn [fst snd].
  destruct (objectUrl config key) as [url|e|] eqn:Hu; [|apply Hrefl|done].
  rewrite (location_s3 _ _ _ Hk Hc Hu). unfold signedRequest. apply wp_bind, wp_bind, wp_now. intros date. apply wp_try.
  set (r := signed_request config "DELETE" url EMPTY_SHA256 None None date). set (w1 := bump w).
  assert (Hat : only_at (Some (inr (Url.href url))) w (s3_fetch r w1).2) by (etrans; [apply (only_at_tick _ w (S (tick w)))|exact (s3_fetch_at r w1)]).
  assert (Hless : forall l', holds l' (s3_fetch r w1).2 -> holds l' w).
  { intros [p|u]; unfold s3_fetch; cbn [snd]; destruct (s3_applied _ _); cbn; try done. rewrite elem_of_difference. tauto. }
  unfold wp at 1. revert Hat Hless. unfold s3_fetch. cbn [fst snd]. intros Hat Hless. destruct (s3_answer (tick w1) r) as [e|status] eqn:Ea; [by split|].
  destruct (status_ok status || (status =? 404)) eqn:Es; [|by split].
  apply wp_ret. split; [done|]. split; [done|]. split; [done|]. intros _ l' [= <-].
  rewrite (s3_delete_applied (tick w1) r status eq_refl Ea Es). cbn. rewrite elem_of_difference, elem_of_singleton. tauto.
Qed.

Lemma rm_spec path w : wp (rm path) (fun r w' => discarded (Some (inl path)) r w w') w.
Proof.
  pose proof (rm_at path w) as Hat. unfold wp, discarded. unfold rm in *. destruct (disk_rm _ _) as [e|]; cbn [fst snd] in *; [by split|].
  split; [done|]. split; [done|]. split.
  - intros [p|u]; cbn; [rewrite elem_of_difference; tauto|done].
  - intros _ l' [= <-]. cbn. rewrite elem_of_difference, elem_of_singleton. tauto.
Qed.

(** [discard] removes the binary of an asset, or throws; it touches nothing else. *)
Lemma discard_spec mode key w : wp (discard mode key) (fun r w' => discarded (location mode key) r w w') w.
Proof.
  assert (Hrefl : forall e l, discarded l (Throws e) w w) by (intros e l; split; [done|]; split; [reflexivity|]; by split).
  assert (Hthrow : forall l h (m : io World ()), wp m (fun r w' => discarded l r w w') w ->
    wp (try_catch m (fun e => throw (h e))) (fun r w' => discarded l r w w') w).
  { intros l h m Hm. apply wp_try. eapply wp_mono; [exact Hm|]. intros [[]|e|] w1 Hd; [done| |done]. apply wp_throw.
    destruct Hd as (_ & Ha & Hl & _). by split. }
  unfold discard, location. destruct (truthy key) as [k|] eqn:E; [|apply wp_ret; split; [done|]; split; [reflexivity|]; by split].
  apply truthy_key in E as [-> Hk]. destruct (String.eqb_spec mode "DISABLED") as [->|_].
  { apply wp_ret. split; [done|]. split; [reflexivity|]. by split. }
  destruct (String.eqb_spec mode "S3") as [->|_].
  { apply Hthrow. pose proof (deleteObject_spec k w Hk) as Hd. unfold location in Hd. by rewrite truthy_named in Hd. }
  destruct (String.eqb_spec mode "FILESYSTEM") as [->|_]; cbn [negb]; [|apply wp_throw, Hrefl].
  pose proof filesystemRoot_returns as Hrr. apply wp_bind. unfold wp at 1, lift. cbn [fst snd].
  destruct filesystemRoot as [root|e|]; [|apply Hrefl|done]. cbn [mbind exec_bind].
  pose proof (pathForKey_returns root k) as Hpr. apply wp_bind. unfold wp at 1, lift. cbn [fst snd].
  destruct (pathForKey root k) as [path|e|]; [|apply Hrefl|done]. apply Hthrow, rm_spec.
Qed.
End places.

(** ** Examples *)
Definition example_bucket : S3Configuration.t :=
  S3Configuration.make (Url.make "https://s3.example" "https:" "" "" "s3.example" "s3.example" "https://s3.example" "/" "" "" [])
    "media" "eu-west-1" "AKID" "secret" (Some " token  with spaces ") 30000.
Definition example_object : Url.t :=
  Url.make "https://s3.example/media/t/a" "https:" "" "" "s3.example" "s3.example" "https://s3.example" "/media/t/a" "" "" [].
Example bucket_names : is_bucket <$> ["media"; "my.bucket-1"; "ab"; "-media"; "Media"]%string = [true; true; false; false; false].
Proof. vm_compute. reflexivity. Qed.
Example object_keys : is_object_key <$> ["0b5c6a1e-0000-4000-8000-00000000000a/0B5C6A1E-0000-4000-8000-00000000000b"; "a/b"]%string = [true; false].
Proof. vm_compute. reflexivity. Qed.
