(* ===== verification/Templates.v ===== *)
(** Message templates ([templates/templates.service.ts]): bringing the local catalogue of a WhatsApp
    Business Account (WABA) in line with Meta's, the status updates Meta reports
    ([webhooks/template-status-webhook.service.ts]), and the check before a template is sent. *)
From stdpp Require Import prelude gmap strings.
From Stdlib Require Import ZArith Lia.
From S2P Require Import Prelude Json Numbers Io Prisma Domain Frame WebhookStatus AuditTrail Senders Payload Secrets Graph.
#[local] Open Scope Z_scope.

Module ProviderTemplateStatusUpdate.
Record t := make {
  providerTemplateId : string;
  name : string;
  language : string;
  status : string;
  rejectionReason : option string;
  raw : json
}.
End ProviderTemplateStatusUpdate.

(** A number by name, in the order the names appear. *)
Fixpoint count_up (value : string) (counts : list (string * Z)) : list (string * Z) :=
  match counts with
  | [] => [(value, 1)]
  | (k, n) :: rest => if decide (k = value) then (k, n + 1) :: rest else (k, n) :: count_up value rest
  end.
Definition valueCounts (values : list string) : list (string * Z) := foldl (fun c v => count_up v c) [] values.
Definition counts_json (counts : list (string * Z)) : json := JObj ((fun kn => (kn.1, JNum (Whole kn.2))) <$> counts).

(** The name and language of a template message. *)
Definition extractTemplateIdentity (payload : json) : exec js_error (string * string) :=
  if negb (is_record payload) then
    Throws (UnprocessableEntityException "Template message payload must be an object") else
  match truthy (JsString.trim <$> as_string (prop "name" payload)) with
  | None => Throws (UnprocessableEntityException "Template message payload requires a non-empty name")
  | Some name =>
      match truthy (JsString.trim <$> as_string (prop "language" payload)) with
      | None => Throws (UnprocessableEntityException "Template message payload requires a non-empty language")
      | Some language => Ok (name, language)
      end
  end.

Module SyncResult.
Record t := make { wabaId : string; senderId : string; synced : Z; markedDeleted : nat; syncedAt : Z }.
End SyncResult.

(** [tenantId_wabaId_name_language] *)
Definition has_key (tenantId wabaId name language : string) (_ : string) (t : Template.t) : bool :=
  bool_decide (Template.tenantId t = tenantId /\ Template.wabaId t = wabaId /\
               Template.name t = name /\ Template.language t = language).

(** The [data] of a synchronised template; a field that is [undefined] stays as it is. *)
Definition sync_data (syncedAt : Z) (template : MetaMessageTemplate.t) (row : Template.t) : Template.t :=
  row <| Template.providerTemplateId := MetaMessageTemplate.id template |>
    <| Template.category := MetaMessageTemplate.category template |>
    <| Template.status := JsString.toUpperCase (MetaMessageTemplate.status template) |>
    <| Template.components ::= (fun old => match MetaMessageTemplate.components template with
                                           | Some l => Some (JArr l) | None => old end) |>
    <| Template.qualityScore ::= (fun old => match MetaMessageTemplate.qualityScore template with
                                             | Some q => Some q | None => old end) |>
    <| Template.rejectionReason := MetaMessageTemplate.rejectionReason template |>
    <| Template.providerPayload := Some (MetaMessageTemplate.raw template) |>
    <| Template.lastSyncedAt := Some syncedAt |>.
(** The row a [create] starts from. *)
Definition blank (tenantId wabaId name language : string) : Template.t :=
  {| Template.tenantId := tenantId; Template.wabaId := wabaId; Template.providerTemplateId := "";
     Template.name := name; Template.language := language; Template.category := None; Template.status := "";
     Template.components := None; Template.qualityScore := None; Template.rejectionReason := None;
     Template.providerPayload := None; Template.lastSyncedAt := None |}.

Definition update_data (update : ProviderTemplateStatusUpdate.t) (syncedAt : Z) (row : Template.t) : Template.t :=
  row <| Template.status := JsString.toUpperCase (ProviderTemplateStatusUpdate.status update) |>
    <| Template.rejectionReason := ProviderTemplateStatusUpdate.rejectionReason update |>
    <| Template.providerPayload := Some (ProviderTemplateStatusUpdate.raw update) |>
    <| Template.lastSyncedAt := Some syncedAt |>.

Section templates.
Context `{Prisma} `{Environment} `{UrlParser} `{Host} `{GraphApi}.

Definition template_upsert (tenantId wabaId name language : string) (data : Template.t -> Template.t)
    : io World unit :=
  db (fun w =>
    match findFirst (has_key tenantId wabaId name language) (templates w) with
    | Some (id, _) =>
        t ← Prisma.update template_unique id data (templates w); Some (tt, w <| templates := t |>)
    | None =>
        '(_, t) ← Prisma.create template_unique (data (blank tenantId wabaId name language)) (templates w);
        Some (tt, w <| templates := t |>)
    end).

Definition sync_template (tenantId wabaId : string) (syncedAt : Z) (template : MetaMessageTemplate.t) : io World unit :=
  template_upsert tenantId wabaId (MetaMessageTemplate.name template) (MetaMessageTemplate.language template)
    (sync_data syncedAt template).

(** The rows of the WABA that Meta does not list any more. *)
Definition gone (tenantId wabaId : string) (providerTemplateIds : list string) (_ : string) (t : Template.t) : bool :=
  bool_decide (Template.tenantId t = tenantId) && bool_decide (Template.wabaId t = wabaId) &&
  negb (String.eqb (Template.status t) "DELETED") &&
  negb (bool_decide (Template.providerTemplateId t ∈ providerTemplateIds)).
Definition mark_deleted (tenantId wabaId : string) (providerTemplateIds : list string) (syncedAt : Z) : io World nat :=
  db (fun w => let '(n, t) := updateMany (gone tenantId wabaId providerTemplateIds)
                 (fun t => t <| Template.status := "DELETED" |> <| Template.lastSyncedAt := Some syncedAt |>)
                 (templates w) in
               Some (n, w <| templates := t |>)).

Definition sync_audit (actor : MutationActor.t) (auditContext : option AuditRequestContext)
    (remote : MetaTemplateListResult.t) (deleted : nat) : option AuditData.t :=
  let ts := MetaTemplateListResult.templates remote in
  auditLogData actor auditContext "template_catalog.synced" "WhatsAppBusinessAccount"
    (Some (MetaTemplateListResult.wabaId remote))
    (Some (JObj [("synced", JNum (Whole (Z.of_nat (length ts)))); ("markedDeleted", JNum (Whole (Z.of_nat deleted)));
       ("statusCounts", counts_json (valueCounts ((fun t => JsString.toUpperCase (MetaMessageTemplate.status t)) <$> ts)));
       ("categoryCounts", counts_json (valueCounts
          ((fun t => default "UNSPECIFIED" (JsString.toUpperCase <$> MetaMessageTemplate.category t)) <$> ts)))]%string)).

(** The transaction of [sync]. *)
Definition sync_body (actor : MutationActor.t) (auditContext : option AuditRequestContext)
    (remote : MetaTemplateListResult.t) (syncedAt : Z) : io World nat :=
  let tenantId := MutationActor.tenantId actor in
  let wabaId := MetaTemplateListResult.wabaId remote in
  let ts := MetaTemplateListResult.templates remote in
  _ ← for_each ts (sync_template tenantId wabaId syncedAt);
  deleted ← mark_deleted tenantId wabaId (MetaMessageTemplate.id <$> ts) syncedAt;
  _ ← write_audit (sync_audit actor auditContext remote deleted);
  mret deleted.

(** No template of the list may be another tenant's. *)
Definition check_collision (tenantId : string) (providerTemplateIds : list string) : io World unit :=
  match providerTemplateIds with
  | [] => mret tt
  | _ =>
      collision ← db (fun w => Some (findFirst (fun _ t =>
          bool_decide (Template.providerTemplateId t ∈ providerTemplateIds) &&
          negb (bool_decide (Template.tenantId t = tenantId))) (templates w), w));
      match collision with
      | Some (_, t) => throw (ConflictException ("Meta template " +:+ Template.providerTemplateId t +:+
                                                 " is already associated with another tenant"))
      | None => mret tt
      end
  end.

Definition sync (tenantOrPrincipal : TenantOrPrincipal) (dto_senderId : option string)
    (auditContext : option AuditRequestContext) : io World SyncResult.t :=
  let actor := mutationActor tenantOrPrincipal in
  let tenantId := MutationActor.tenantId actor in
  remote ← listTemplates tenantId dto_senderId;
  _ ← check_collision tenantId (MetaMessageTemplate.id <$> MetaTemplateListResult.templates remote);
  syncedAt ← now;
  markedDeleted ← transaction (sync_body actor auditContext remote syncedAt);
  mret (SyncResult.make (MetaTemplateListResult.wabaId remote) (MetaTemplateListResult.senderId remote)
          (Z.of_nat (length (MetaTemplateListResult.templates remote))) markedDeleted syncedAt).

Definition template_find (p : string -> Template.t -> bool) : io World (option (string * Template.t)) :=
  db (fun w => Some (findFirst p (templates w), w)).

Definition findById (tenantId id : string) : io World (string * Template.t) :=
  template ← template_find (fun k t => bool_decide (k = id) && bool_decide (Template.tenantId t = tenantId));
  found (NotFoundException "Message template not found") template.

Definition assertApproved (tenantId wabaId : string) (payload : json) : io World (string * Template.t) :=
  '(name, language) ← lift (extractTemplateIdentity payload);
  template ← template_find (fun k t => has_key tenantId wabaId name language k t &&
                                       String.eqb (Template.status t) "APPROVED");
  found (UnprocessableEntityException ("Template " +:+ name +:+ "/" +:+ language +:+
           " is not synced and APPROVED for WABA " +:+ wabaId)) template.

Definition template_update (id : string) (data : Template.t -> Template.t) : io World unit :=
  db (fun w => t ← Prisma.update template_unique id data (templates w); Some (tt, w <| templates := t |>)).

Definition applyProviderStatusUpdate (tenantId wabaId : string) (update : ProviderTemplateStatusUpdate.t)
    : io World unit :=
  let providerTemplateId := ProviderTemplateStatusUpdate.providerTemplateId update in
  existingByProvider ← template_find (fun _ t => bool_decide (Template.providerTemplateId t = providerTemplateId));
  match existingByProvider with
  | Some (id, existing) =>
      if negb (bool_decide (Template.tenantId existing = tenantId) && bool_decide (Template.wabaId existing = wabaId)) then
        throw (ConflictException ("Meta template " +:+ providerTemplateId +:+ " is associated with a different tenant or WABA"))
      else
        lastSyncedAt ← now;
        template_update id (fun row => update_data update lastSyncedAt row
          <| Template.name := ProviderTemplateStatusUpdate.name update |>
          <| Template.language := ProviderTemplateStatusUpdate.language update |>)
  | None =>
      lastSyncedAt ← now;
      template_upsert tenantId wabaId (ProviderTemplateStatusUpdate.name update) (ProviderTemplateStatusUpdate.language update)
        (fun row => update_data update lastSyncedAt row <| Template.providerTemplateId := providerTemplateId |>)
  end.

(** *** The webhook that reports a status *)
Definition asString (value : option json) : option string :=
  match value with
  | Some (JStr s) => truthy (Some s)
  | Some (JNum n) => if JsNumber.is_finite (JsNumber.to_f64 n) then Some (JsNumber.to_string n) else None
  | _ => None
  end.

(** One element of [changes]: an update of a template. *)
Definition change_update (change : json) : option ProviderTemplateStatusUpdate.t :=
  if negb (is_record change) then None else
  match prop "field" change with
  | Some (JStr field) =>
      if negb (String.eqb field "message_template_status_update") then None else
      match prop "value" change with
      | Some (JObj raw) =>
          providerTemplateId ← asString (Json.field "message_template_id" raw);
          name ← asString (Json.field "message_template_name" raw);
          language ← asString (Json.field "message_template_language" raw);
          status ← asString (Json.field "event" raw);
          Some {| ProviderTemplateStatusUpdate.providerTemplateId := providerTemplateId;
                  ProviderTemplateStatusUpdate.name := name; ProviderTemplateStatusUpdate.language := language;
                  ProviderTemplateStatusUpdate.status := JsString.toUpperCase status;
                  ProviderTemplateStatusUpdate.rejectionReason := as_string (Json.field "reason" raw);
                  ProviderTemplateStatusUpdate.raw := JObj raw |}
      | _ => None
      end
  | _ => None
  end.
Definition entry_updates (entry : json) : list (string * ProviderTemplateStatusUpdate.t) :=
  if negb (is_record entry) then [] else
  match asString (prop "id" entry) with
  | None => []
  | Some wabaId => (fun u => (wabaId, u)) <$> omap change_update (items (prop "changes" entry))
  end.
(** [extractUpdates]: each with its WABA. *)
Definition extractUpdates (payload : json) : list (string * ProviderTemplateStatusUpdate.t) :=
  if negb (is_record payload) then [] else items (prop "entry" payload) ≫= entry_updates.

Definition process (payload : json) : io World unit :=
  for_each (extractUpdates payload) (fun '(wabaId, update) =>
    tenantId ← findTenantIdByWabaId wabaId;
    applyProviderStatusUpdate tenantId wabaId update).
End templates.

(** ** Reading the catalogue changes nothing *)
Section reads.
Context `{Prisma} `{Environment} `{UrlParser} `{Host} `{GraphApi}.
Context {V : Type} (v : World -> V) (v_tick : forall w n, v (w <| tick := n |>) = v w).

Lemma found_reads {A} e (r : option A) : frames v (found e r).
Proof. unfold found. frame_steps. Qed.
Lemma isInsideAllowedRoot_reads path roots : frames v (isInsideAllowedRoot path roots).
Proof. induction roots as [|root roots IH]; cbn; [frame_steps|]. unfold host_call. frame_steps. apply IH. apply IH. Qed.
Lemma resolve_reads reference : frames v (Secrets.resolve reference).
Proof.
  unfold Secrets.resolve, resolve_reference, resolveFile, read_secret, host_call. frame_steps. apply isInsideAllowedRoot_reads.
Qed.
Lemma resolveForTenant_reads T s : frames v (Senders.resolveForTenant T s).
Proof. unfold Senders.resolveForTenant, sender_find. frame_steps. apply found_reads. Qed.
Lemma resolveWaba_reads T s : frames v (resolveWaba T s).
Proof.
  unfold resolveWaba, resolveWabaForTenant. frame_steps.
  - apply resolveForTenant_reads.
  - apply found_reads.
  - apply resolve_reads.
Qed.
Lemma request_reads fallback r : frames v (request fallback r).
Proof. unfold request. frame_steps. Qed.
Lemma getPage_reads r : frames v (getPage r).
Proof. unfold getPage. frame_steps. apply request_reads. Qed.
Lemma list_pages_reads n g c a seen ts : frames v (list_pages n g c a seen ts).
Proof.
  revert a seen ts. induction n as [|n IH]; intros a seen ts; cbn; [frame_steps|].
  frame_steps; [apply getPage_reads|apply IH].
Qed.
Lemma listTemplates_reads T s : frames v (listTemplates T s).
Proof. unfold listTemplates. frame_steps; [apply resolveWaba_reads|apply list_pages_reads]. Qed.
Lemma check_collision_reads T ids : frames v (check_collision T ids).
Proof. unfold check_collision. frame_steps. Qed.
End reads.

(** ** Reading it comes to an end *)
Section returning.
Context `{Prisma} `{Environment} `{UrlParser} `{Host} `{GraphApi}.

Lemma found_returns {A} e (r : option A) : returns (found e r).
Proof. unfold found. returns_steps. Qed.
Lemma isInsideAllowedRoot_returns path roots : returns (isInsideAllowedRoot path roots).
Proof. induction roots as [|root roots IH]; cbn; [returns_steps|]. returns_steps; [done|apply IH|apply IH]. Qed.
Lemma resolve_returns reference : returns (Secrets.resolve reference).
Proof.
  unfold Secrets.resolve, resolve_reference, resolveFile, read_secret. returns_steps; try done. apply isInsideAllowedRoot_returns.
Qed.
Lemma resolveForTenant_returns T s : returns (Senders.resolveForTenant T s).
Proof. unfold Senders.resolveForTenant, sender_find. returns_steps. apply found_returns. Qed.
Lemma resolveWaba_returns T s : returns (resolveWaba T s).
Proof.
  unfold resolveWaba, resolveWabaForTenant. returns_steps.
  - apply resolveForTenant_returns.
  - apply found_returns.
  - apply resolve_returns.
Qed.
Lemma getPage_returns r : returns (getPage r).
Proof.
  unfold getPage, request. returns_steps. apply returns_tick. intros w. by destruct (fetch _ _).
Qed.
Lemma required_total name : required name <> OutOfFuel.
Proof. unfold required. by destruct (truthy _). Qed.
Lemma graph_version_total : graph_version <> OutOfFuel.
Proof.
  unfold graph_version. pose proof (required_total "META_GRAPH_API_VERSION"). destruct (required _) as [v|e|]; cbn; [|done|done].
  by destruct (is_graph_version v).
Qed.
Lemma metaGraphUrl_total path : metaGraphUrl path <> OutOfFuel.
Proof. unfold metaGraphUrl. returns_lift_tac. Qed.
Lemma page_request_total g c a : page_request g c a <> OutOfFuel.
Proof.
  unfold page_request. pose proof (metaGraphUrl_total (g +:+ "/" +:+ encodeURIComponent (MetaWabaContext.wabaId c) +:+ "/message_templates")).
  by destruct (metaGraphUrl _).
Qed.
Lemma extractTemplates_total value : extractTemplates value <> OutOfFuel.
Proof.
  unfold extractTemplates. destruct (negb _); [done|]. destruct (prop _ _) as [[| | | |data|]|]; try done.
  induction data as [|item data IH]; cbn; [done|]. unfold extractTemplate.
  destruct (negb _); [done|]. repeat case_match; try done; by destruct (extract_each data).
Qed.
Lemma list_pages_returns n g c a seen ts : returns (list_pages n g c a seen ts).
Proof.
  revert a seen ts. induction n as [|n IH]; intros a seen ts; cbn; [returns_steps|].
  returns_steps; [apply returns_lift, page_request_total|apply getPage_returns|apply returns_lift, extractTemplates_total|apply IH].
Qed.
Lemma listTemplates_returns T s : returns (listTemplates T s).
Proof.
  unfold listTemplates. returns_steps; [apply resolveWaba_returns|apply returns_lift, graph_version_total|apply list_pages_returns].
Qed.
Lemma check_collision_returns T ids : returns (check_collision T ids).
Proof. unfold check_collision. returns_steps. Qed.
End returning.

(** ** The catalogue after a synchronisation *)
Section sync_proofs.
Context `{Prisma} `{Environment} `{UrlParser} `{Host} `{GraphApi}.

(** The last listed template of a name and language: later entries overwrite earlier ones. *)
Definition same_key (name language : string) (t : MetaMessageTemplate.t) : Prop :=
  MetaMessageTemplate.name t = name /\ MetaMessageTemplate.language t = language.
Definition latest (ts : list MetaMessageTemplate.t) (name language : string) : option MetaMessageTemplate.t :=
  last (filter (same_key name language) ts).
Definition agrees (t : MetaMessageTemplate.t) (row : Template.t) : Prop :=
  Template.providerTemplateId row = MetaMessageTemplate.id t /\
  Template.status row = JsString.toUpperCase (MetaMessageTemplate.status t) /\
  Template.category row = MetaMessageTemplate.category t /\
  Template.rejectionReason row = MetaMessageTemplate.rejectionReason t /\
  Template.providerPayload row = Some (MetaMessageTemplate.raw t).
Definition listed (T waba : string) (ts : list MetaMessageTemplate.t) (tb : gmap string Template.t) : Prop :=
  forall n l t, latest ts n l = Some t ->
    exists k row, tb !! k = Some row /\ has_key T waba n l k row = true /\ agrees t row.
Definition catalogued (T : string) (remote : MetaTemplateListResult.t) (tb : gmap string Template.t) : Prop :=
  listed T (MetaTemplateListResult.wabaId remote) (MetaTemplateListResult.templates remote) tb /\
  forall k row, tb !! k = Some row -> Template.tenantId row = T -> Template.wabaId row = MetaTemplateListResult.wabaId remote ->
    Template.status row = "DELETED"%string \/
    Template.providerTemplateId row ∈ MetaMessageTemplate.id <$> MetaTemplateListResult.templates remote.
(** The templates of other tenants are the same ones. *)
Definition others_kept (T : string) (tb tb' : gmap string Template.t) : Prop :=
  forall k row, Template.tenantId row <> T -> tb !! k = Some row <-> tb' !! k = Some row.
#[export] Instance others_kept_preorder T : PreOrder (others_kept T).
Proof. split; [done|]. intros a b c Hab Hbc k row Hne. rewrite (Hab k row Hne). by apply Hbc. Qed.

Lemma latest_snoc ts t n l :
  latest (ts ++ [t]) n l = if decide (same_key n l t) then Some t else latest ts n l.
Proof.
  unfold latest. rewrite filter_app. destruct (decide (same_key n l t)).
  - rewrite filter_cons_True by done. apply last_snoc.
  - rewrite filter_cons_False by done. by rewrite app_nil_r.
Qed.

(** What an upsert writes: one row of the key. *)
Definition upserted (T waba n l : string) (data : Template.t -> Template.t) (tb tb' : gmap string Template.t) : Prop :=
  exists k row0, tb' = <[k := data row0]> tb /\
    ((tb !! k = Some row0 /\ has_key T waba n l k row0 = true) \/ (tb !! k = None /\ row0 = blank T waba n l)).

Lemma wp_template_upsert T waba n l data (Q : exec js_error unit -> World -> Prop) w :
  (forall x, Q (Throws (Error x)) (bump w)) ->
  (forall tb, upserted T waba n l data (rows (templates w)) (rows tb) ->
     let w' := bump w <| templates := tb |> in (forall x, Q (Throws (Error x)) w') /\ Q (Ok tt) w') ->
  wp (template_upsert T waba n l data) Q w.
Proof.
  intros He Ho. apply wp_db; [done|]. intros [] w' Hf. change (templates (bump w)) with (templates w) in Hf.
  destruct (findFirst _ _) as [[k row]|] eqn:Ef.
  - apply findFirst_some in Ef as [Hk Hp]. apply bind_Some in Hf as (tb & Hu & [= <-]).
    apply update_some in Hu as (row1 & Hk1 & Hu & _). assert (row1 = row) as -> by congruence.
    apply (Ho tb). exists k, row. split; [done|]. by left.
  - apply bind_Some in Hf as ([k tb] & Hc & [= <-]). apply create_some in Hc as (Hk & Hc & _).
    apply (Ho tb). exists k, (blank T waba n l). split; [done|]. by right.
Qed.

Lemma has_key_spec T waba n l k row : has_key T waba n l k row = true <->
  Template.tenantId row = T /\ Template.wabaId row = waba /\ Template.name row = n /\ Template.language row = l.
Proof. unfold has_key. by rewrite bool_decide_eq_true. Qed.

(** The key of the row an upsert starts from. *)
Lemma upserted_key T waba n l (tb : gmap string Template.t) k row0 :
  (tb !! k = Some row0 /\ has_key T waba n l k row0 = true) \/ (tb !! k = None /\ row0 = blank T waba n l) ->
  has_key T waba n l k row0 = true /\ from_option (eq row0) True (tb !! k).
Proof. intros [[-> Hp]|[-> ->]]; [done|]. split; [by apply has_key_spec|done]. Qed.

Lemma upserted_others T waba n l data tb tb' :
  (forall row, Template.tenantId (data row) = Template.tenantId row) ->
  upserted T waba n l data tb tb' -> others_kept T tb tb'.
Proof.
  intros Hd (k & row0 & E & Hk). destruct (upserted_key _ _ _ _ _ _ _ Hk) as [(HT & _)%has_key_spec Hrow].
  subst tb'. intros k' row Hne. destruct (decide (k = k')) as [<-|Hn].
  - rewrite lookup_insert_eq. split.
    + intros Hk'. rewrite Hk' in Hrow. cbn in Hrow. congruence.
    + intros [= <-]. by rewrite Hd in Hne.
  - by rewrite lookup_insert_ne.
Qed.

Lemma upserted_listed T waba syncedAt ts t tb tb' :
  upserted T waba (MetaMessageTemplate.name t) (MetaMessageTemplate.language t) (sync_data syncedAt t) tb tb' ->
  listed T waba ts tb -> listed T waba (ts ++ [t]) tb'.
Proof.
  intros (k & row0 & E & Hk) Hl n l t'. destruct (upserted_key _ _ _ _ _ _ _ Hk) as [Hkey Hrow].
  subst tb'. rewrite latest_snoc. destruct (decide (same_key n l t)) as [[<- <-]|Hne].
  - intros [= <-]. exists k, (sync_data syncedAt t row0). rewrite lookup_insert_eq. split; [done|]. split; [exact Hkey|done].
  - intros Ht. destruct (Hl n l t' Ht) as (k1 & row1 & Hk1 & Hp1 & Ha1). exists k1, row1.
    rewrite lookup_insert_ne; [done|]. intros <-. rewrite Hk1 in Hrow. cbn in Hrow. subst row1.
    apply has_key_spec in Hkey as (_ & _ & N1 & L1). apply has_key_spec in Hp1 as (_ & _ & N2 & L2).
    apply Hne. split; congruence.
Qed.

Lemma sync_each_spec T waba syncedAt ts pre w :
  listed T waba pre (rows (templates w)) ->
  wp (for_each ts (sync_template T waba syncedAt)) (on_ok (fun _ w' =>
    listed T waba (pre ++ ts) (rows (templates w')) /\ others_kept T (rows (templates w)) (rows (templates w')))) w.
Proof.
  revert pre w. induction ts as [|t ts IH]; intros pre w Hl; cbn; [by rewrite app_nil_r|].
  apply wp_bind, wp_template_upsert; [done|]. intros tb Hu. split; [done|].
  pose proof (upserted_listed _ _ _ pre _ _ _ Hu Hl) as Hl'. eapply wp_mono; [by apply (IH (pre ++ [t]))|].
  intros [[]|e|] w' Hw'; [|done|done]. destruct Hw' as [Hl1 Ho1]. rewrite <- app_assoc in Hl1. split; [exact Hl1|].
  etrans; [|exact Ho1]. apply (upserted_others T waba _ _ (sync_data syncedAt t) _ _ (fun _ => eq_refl) Hu).
Qed.

Lemma mark_deleted_spec T remote syncedAt w :
  let waba := MetaTemplateListResult.wabaId remote in
  let ts := MetaTemplateListResult.templates remote in
  listed T waba ts (rows (templates w)) ->
  wp (mark_deleted T waba (MetaMessageTemplate.id <$> ts) syncedAt) (on_ok (fun _ w' =>
    catalogued T remote (rows (templates w')) /\ others_kept T (rows (templates w)) (rows (templates w')))) w.
Proof.
  intros waba ts Hl. apply wp_db; [done|]. intros n w' E. change (templates (bump w)) with (templates w) in E.
  pose proof (updateMany_rows Template.t (gone T waba (MetaMessageTemplate.id <$> ts))
    (fun t => t <| Template.status := "DELETED"%string |> <| Template.lastSyncedAt := Some syncedAt |>) (templates w)) as Hr.
  destruct (updateMany _ _ _) as [n' tb]. injection E as <- <-. cbn [snd] in Hr. split; [done|].
  assert (Hkeep : forall k row, rows (templates w) !! k = Some row ->
    gone T waba (MetaMessageTemplate.id <$> ts) k row = false -> rows tb !! k = Some row).
  { intros k row Hk Hg. by rewrite Hr, Hk; cbn; rewrite Hg. }
  change (catalogued T remote (rows tb) /\ others_kept T (rows (templates w)) (rows tb)). split; [split|].
  - intros m l t Ht. destruct (Hl m l t Ht) as (k & row & Hk & Hp & Ha). exists k, row. split; [|done].
    apply Hkeep; [done|]. unfold gone. rewrite (bool_decide_true (_ ∈ _)); [by rewrite andb_false_r|].
    destruct Ha as [-> _]. apply list_elem_of_fmap. exists t. split; [done|].
    apply last_Some_elem_of, list_elem_of_filter in Ht. tauto.
  - intros k row. rewrite Hr. destruct (rows (templates w) !! k) as [r0|]; [|done]. cbn.
    destruct (gone _ _ _ _ r0) eqn:Eg; intros [= <-] HT HW; [by left|]. unfold gone in Eg.
    rewrite (bool_decide_true (Template.tenantId r0 = T)), (bool_decide_true (Template.wabaId r0 = _)) in Eg by done.
    cbn in Eg. apply andb_false_iff in Eg as [Eg%negb_false_iff|Eg%negb_false_iff].
    + left. by apply String.eqb_eq.
    + right. apply bool_decide_eq_true in Eg. exact Eg.
  - intros k row Hne. split; [intros Hk; apply Hkeep; [done|]|].
    + unfold gone. by rewrite bool_decide_false.
    + rewrite Hr. destruct (rows (templates w) !! k) as [r0|]; [|done]. cbn.
      destruct (gone _ _ _ _ r0) eqn:Eg; [|done]. intros [= <-]. exfalso. apply Hne. cbn.
      unfold gone in Eg. destruct (bool_decide (Template.tenantId r0 = T)) eqn:Et; [|done].
      by apply bool_decide_eq_true in Et.
Qed.

Lemma sync_body_spec actor ctx remote syncedAt w :
  let T := MutationActor.tenantId actor in
  wp (sync_body actor ctx remote syncedAt) (on_ok (fun _ w' =>
    catalogued T remote (rows (templates w')) /\ others_kept T (rows (templates w)) (rows (templates w')))) w.
Proof.
  intros T. unfold sync_body. apply wp_bind.
  eapply wp_mono; [apply (sync_each_spec T _ _ _ [])|]; [by intros n l t|].
  intros [[]|e|] w1 Hw1; [|done|done]. destruct Hw1 as [Hl Ho]. apply wp_bind.
  eapply wp_mono; [by apply mark_deleted_spec|]. intros [n|e|] w2 Hw2; [|done|done]. destruct Hw2 as [Hc Ho2].
  apply wp_bind, wp_write_audit; [done|]. intros t tk. split; [done|]. apply wp_ret. split; [exact Hc|].
  change (others_kept T (rows (templates w)) (rows (templates w2))). by etrans.
Qed.

(** Whatever Meta answers and whatever fails, a synchronisation comes to an end, leaves every
    other tenant's templates alone, and changes the tenant's templates only to Meta's catalogue, as
    a whole: then every listed template has its row and every row of the account that is not listed
    is DELETED. When it ends normally the catalogue is that. *)
Theorem sync_correct who s ctx w :
  let T := MutationActor.tenantId (mutationActor who) in
  let '(r, w') := sync who s ctx w in
  r <> OutOfFuel /\ others_kept T (rows (templates w)) (rows (templates w')) /\
  (rows (templates w') = rows (templates w) \/
   exists remote w1, listTemplates T s w = (Ok remote, w1) /\ catalogued T remote (rows (templates w'))) /\
  forall res, r = Ok res -> exists remote w1, listTemplates T s w = (Ok remote, w1) /\
    catalogued T remote (rows (templates w')) /\ SyncResult.wabaId res = MetaTemplateListResult.wabaId remote /\
    SyncResult.synced res = Z.of_nat (length (MetaTemplateListResult.templates remote)).
Proof.
  intros T. set (Q := fun (r : exec js_error SyncResult.t) w' =>
    others_kept T (rows (templates w)) (rows (templates w')) /\
    (rows (templates w') = rows (templates w) \/
     exists remote w1, listTemplates T s w = (Ok remote, w1) /\ catalogued T remote (rows (templates w'))) /\
    forall res, r = Ok res -> exists remote w1, listTemplates T s w = (Ok remote, w1) /\
      catalogued T remote (rows (templates w')) /\ SyncResult.wabaId res = MetaTemplateListResult.wabaId remote /\
      SyncResult.synced res = Z.of_nat (length (MetaTemplateListResult.templates remote))).
  assert (Hsame : forall e w', templates w' = templates w -> Q (Throws e) w').
  { intros e w' E. unfold Q. rewrite E. split; [done|]. split; [by left|done]. }
  assert (Hw : wp (sync who s ctx) Q w).
  { unfold sync. fold T. apply wp_bind. unfold wp at 1.
    pose proof (listTemplates_reads templates (fun _ _ => eq_refl) T s w) as Hlist.
    destruct (listTemplates T s w) as [[remote|e|] w1] eqn:El; cbn [fst snd] in *; [|by apply Hsame|].
    2:{ by apply (returns_run _ _ _ _ (listTemplates_returns T s)) in El. }
    apply wp_bind. unfold wp at 1. set (ids := MetaMessageTemplate.id <$> _).
    pose proof (check_collision_reads templates (fun _ _ => eq_refl) T ids w1) as Hcol.
    destruct (check_collision T ids w1) as [[[]|e|] w2] eqn:Ec; cbn [fst snd] in *; [|by apply Hsame; congruence|].
    2:{ by apply (returns_run _ _ _ _ (check_collision_returns T ids)) in Ec. }
    apply wp_bind, wp_now. intros syncedAt. apply wp_bind, wp_transaction.
    assert (E2 : templates (bump w2) = templates w) by (transitivity (templates w2); [done|congruence]).
    eapply wp_mono; [apply sync_body_spec|]. intros [n|e|] w3 Hw3; [|intros k; by apply Hsame|done].
    destruct Hw3 as [Hcat Hoth]. rewrite E2 in Hoth. fold T in Hcat, Hoth.
    split; [intros e k; by apply Hsame|]. split.
    - intros e. split; [exact Hoth|]. split; [|done]. right. by exists remote, w1.
    - apply wp_ret. split; [exact Hoth|]. split; [right; by exists remote, w1|]. intros res [= <-].
      by exists remote, w1. }
  assert (Hret : returns (sync who s ctx)).
  { unfold sync. returns_steps; [apply listTemplates_returns|apply check_collision_returns|].
    unfold sync_body, sync_template, template_upsert, mark_deleted, write_audit. returns_steps. }
  unfold wp in Hw. specialize (Hret w). destruct (sync who s ctx w) as [r w']. by split.
Qed.
End sync_proofs.

(** ** A reported status *)
Section update_proofs.
Context `{Prisma} `{Environment} `{UrlParser} `{Host} `{GraphApi}.

Definition updated (T waba : string) (u : ProviderTemplateStatusUpdate.t) (tb : gmap string Template.t) : Prop :=
  exists k row, tb !! k = Some row /\ Template.tenantId row = T /\ Template.wabaId row = waba /\
    Template.providerTemplateId row = ProviderTemplateStatusUpdate.providerTemplateId u /\
    Template.name row = ProviderTemplateStatusUpdate.name u /\
    Template.language row = ProviderTemplateStatusUpdate.language u /\
    Template.status row = JsString.toUpperCase (ProviderTemplateStatusUpdate.status u).

(** A status Meta reports about a template changes only templates of the tenant that owns the
    account; when the update ends normally the template is in the tenant's catalogue under its
    provider id, name and language with that status. *)
Theorem applyProviderStatusUpdate_correct T waba u w :
  let '(r, w') := applyProviderStatusUpdate T waba u w in
  r <> OutOfFuel /\ others_kept T (rows (templates w)) (rows (templates w')) /\
  (r = Ok tt -> updated T waba u (rows (templates w'))).
Proof.
  set (Q := fun (r : exec js_error unit) (w' : World) => r <> OutOfFuel /\
    others_kept T (rows (templates w)) (rows (templates w')) /\ (r = Ok tt -> updated T waba u (rows (templates w')))).
  assert (Hsame : forall e w', templates w' = templates w -> Q (Throws e) w').
  { intros e w' E. split; [done|]. by rewrite E. }
  assert (Hw : wp (applyProviderStatusUpdate T waba u) Q w).
  { unfold applyProviderStatusUpdate. apply wp_bind, wp_db; [intros x; by apply Hsame|]. intros ex w1 [= <- <-].
    split; [intros x; by apply Hsame|]. change (templates (bump w)) with (templates w).
    destruct (findFirst _ (templates w)) as [[k row]|] eqn:Ef.
    - apply findFirst_some in Ef as [Hk Hp%bool_decide_eq_true]. case_bool_decide as HT; [|by apply wp_throw, Hsame].
      case_bool_decide as HW; [|by apply wp_throw, Hsame]. cbn [andb negb]. apply wp_bind, wp_now. intros t.
      apply wp_db; [intros x; by apply Hsame|]. intros [] w2 Hf. apply bind_Some in Hf as (tb & Hu & [= <-]).
      apply update_some in Hu as (row1 & Hk1 & Hu & _).
      assert (Hoth : others_kept T (rows (templates w)) (rows tb)).
      { intros k' r' Hne. rewrite Hu. destruct (decide (k = k')) as [<-|Hn]; [|by rewrite lookup_insert_ne].
        rewrite lookup_insert_eq. change (templates (bump (bump (bump w)))) with (templates w) in Hk1.
        assert (row1 = row) as -> by congruence. split; intros E; [congruence|]. injection E as <-. by destruct Hne. }
      change (templates (bump (bump (bump w)))) with (templates w) in Hk1. assert (row1 = row) as -> by congruence.
      split; [intros x; by split|]. split; [done|]. split; [done|]. intros _.
      eexists k, _. cbn. rewrite Hu, lookup_insert_eq. split; [done|]. by repeat split.
    - apply wp_bind, wp_now. intros t. apply wp_template_upsert; [intros x; by apply Hsame|]. intros tb Hu.
      change (templates (bump (bump w))) with (templates w) in Hu.
      assert (Hoth : others_kept T (rows (templates w)) (rows tb)) by (eapply upserted_others; [|exact Hu]; done).
      split; [intros x; by split|]. split; [done|]. split; [done|]. intros _.
      destruct Hu as (k & row0 & E & Hk). destruct (upserted_key _ _ _ _ _ _ _ Hk) as [(P1 & P2 & P3 & P4)%has_key_spec _].
      eexists k, _. cbn. rewrite E, lookup_insert_eq. split; [done|]. by repeat split. }
  unfold wp in Hw. by destruct (applyProviderStatusUpdate T waba u w).
Qed.
End update_proofs.
