(* ===== verification/WebhookProcessor.v ===== *)
(** Working off the webhook inbox ([webhooks/webhook-event-processor.service.ts]): a batch of due
    events is claimed, and each event's payload goes through the inbound messages, the template
    statuses and the message statuses; a failure sends it back with a backoff. *)
From stdpp Require Import prelude gmap strings.
From Stdlib Require Import ZArith Lia.
From S2P Require Import Prelude Json Io Prisma Domain Frame LeaseQueue Dispatcher WebhookStatus Senders Inbound Payload Secrets Graph Templates.
#[local] Open Scope Z_scope.

#[export] Program Instance webhook_leased : Leased WebhookEvent.t := {|
  open_row := fun e => negb (WebhookEvent.processed e);
  due_at := WebhookEvent.nextAttemptAt;
  lease_until := WebhookEvent.processingLeaseUntil;
  created_at := WebhookEvent.receivedAt;
  claim_row := fun l e => e <| WebhookEvent.processingLeaseUntil := Some l |>
                            <| WebhookEvent.attemptCount ::= (fun a => a + 1) |>
|}.
Next Obligation. done. Qed.

Section processor.
Context `{Prisma} `{Environment} `{UrlParser} `{Host} `{GraphApi}.
(** [Number(process.env.WEBHOOK_PROCESSOR_LEASE_MS ?? 30000)] *)
Context (WEBHOOK_PROCESSOR_LEASE_MS : Z).

Definition claimEvents (db_now : Z) (locked : string -> bool) (batchSize : nat)
    : io World (list (string * WebhookEvent.t)) :=
  now ← now;
  let leaseUntil := now + Z.max 5000 WEBHOOK_PROCESSOR_LEASE_MS in
  db (fun w => let '(events, t) := claim_batch db_now leaseUntil locked batchSize (webhookEvents w) in
               Some (events, w <| webhookEvents := t |>)).

Definition failed_data (message : string) (now attempts : Z) (e : WebhookEvent.t) : WebhookEvent.t :=
  e <| WebhookEvent.lastError := Some (JsString.slice0 2000 message) |>
    <| WebhookEvent.nextAttemptAt := now + retryDelayMs attempts |>
    <| WebhookEvent.processingLeaseUntil := None |>.

Definition process_event (event : string * WebhookEvent.t) : io World unit :=
  let payload := WebhookEvent.payload event.2 in
  try_catch
    (_ ← Inbound.process payload;
     _ ← Templates.process payload;
     processWebhookEvent event.1 payload)
    (fun error =>
       let message := error_message string_of error in
       now ← now;
       webhook_update event.1 (failed_data message now (WebhookEvent.attemptCount event.2))).

(** [processing] guards against a second run at the same time; it is [false] again at the end. *)
Definition processPending (processing : bool) (db_now : Z) (locked : string -> bool) (batchSize : nat)
    : io World unit :=
  if processing then mret tt else
  try_catch
    (events ← claimEvents db_now locked batchSize;
     for_each events process_event)
    (fun _ => mret tt).
End processor.

(** ** What the parts leave alone *)
Section frames_of_parts.
Context `{Prisma} `{Environment} `{UrlParser} `{Host} `{GraphApi}.

(** Who a message is: the columns that nothing changes after the message is stored. *)
Definition identity (m : Message.t) :=
  (Message.providerMessageId m, Message.direction m, Message.tenantId m, Message.from m, Message.providerTimestamp m).
Definition identities (w : World) : gmap string _ := identity <$> rows (messages w).

Lemma inbound_frames payload : frames webhookEvents (Inbound.process payload).
Proof.
  unfold Inbound.process. frame_steps. unfold process_change. frame_steps.
  - unfold findByProviderPhoneNumberId, sender_find, found. frame_steps.
  - unfold persistInboundMessage, persist_attempt, persist_body, unless_duplicate, announce, realtime_publish,
      find_by_provider_id, checked_date, contact_upsert, touch_window, Conversations.recordInbound, Conversations.upsert, message_create.
    frame_steps; try done.
Qed.
Lemma inbound_returns payload : returns (Inbound.process payload).
Proof.
  unfold Inbound.process. returns_steps. unfold process_change. returns_steps.
  - unfold findByProviderPhoneNumberId, sender_find, found. returns_steps.
  - unfold persistInboundMessage, persist_attempt, persist_body, unless_duplicate, announce, realtime_publish,
      find_by_provider_id, checked_date, contact_upsert, touch_window, Conversations.recordInbound, Conversations.upsert, message_create.
    returns_steps. apply returns_lift. unfold Contacts.normalizePhoneNumber. returns_lift_tac.
Qed.

Lemma templates_frames {V} (v : World -> V) payload :
  (forall w n, v (w <| tick := n |>) = v w) -> (forall w t, v (w <| templates := t |>) = v w) ->
  frames v (Templates.process payload).
Proof.
  intros Ht Hv. unfold Templates.process. frame_steps.
  - unfold findTenantIdByWabaId. frame_steps.
  - unfold applyProviderStatusUpdate, template_find, template_update, template_upsert. frame_steps; frame_db; apply Hv.
Qed.
Lemma templates_returns payload : returns (Templates.process payload).
Proof.
  unfold Templates.process. returns_steps.
  - unfold findTenantIdByWabaId. returns_steps.
  - unfold applyProviderStatusUpdate, template_find, template_update, template_upsert. returns_steps.
Qed.

Lemma status_data_identity target t error m : identity (status_data target t error m) = identity m.
Proof. unfold status_data. by repeat case_bool_decide. Qed.
Lemma statuses_frame_identities l : frames identities (for_each l applyStatus).
Proof.
  frame_steps. unfold applyStatus, applyStatus_at, checked_date, status_event_create, message_set. frame_steps.
  intros w0 [] w' Hf. apply bind_Some in Hf as (tb & Hu & [= <-]). apply update_some in Hu as (m & Hm & Hu & _).
  unfold identities. cbn. rewrite Hu. by apply (fmap_insert_same _ _ _ m), status_data_identity.
Qed.
Lemma statuses_frame {V} (v : World -> V) l :
  (forall w n, v (w <| tick := n |>) = v w) -> (forall w t, v (w <| messages := t |>) = v w) ->
  (forall w t, v (w <| statusEvents := t |>) = v w) -> frames v (for_each l applyStatus).
Proof.
  intros Ht Hm Hs. frame_steps. unfold applyStatus, applyStatus_at, checked_date, status_event_create, message_set.
  frame_steps; frame_db; auto.
Qed.
Lemma statuses_return l : returns (for_each l applyStatus).
Proof.
  returns_steps. unfold applyStatus, applyStatus_at, checked_date, status_event_create, message_set. returns_steps.
Qed.
End frames_of_parts.

(** ** Nothing is marked processed before it is stored *)
Section processor_proofs.
Context `{Prisma} `{Environment} `{UrlParser} `{Host} `{GraphApi}.

(** The messages of every processed webhook are in the database, and the service windows are right. *)
Definition processed_stored (w : World) : Prop :=
  window_ok w /\ forall k e, rows (webhookEvents w) !! k = Some e -> WebhookEvent.processed e = true ->
    all_stored (payload_messages (WebhookEvent.payload e)) w.
(** Nothing that is stored is lost: contacts and messages stay who they are. *)
Definition keeps (w w' : World) : Prop := contacts_kept w w' /\ identities w ⊆ identities w'.
#[export] Instance keeps_preorder : PreOrder keeps.
Proof.
  split.
  - intros w. split; [|done]. intros k c Hk. by exists c.
  - intros w1 w2 w3 [Hc1 Hm1] [Hc2 Hm2]. split; [|by etrans]. intros k c Hk.
    destruct (Hc1 k c Hk) as (c2 & Hk2 & A1 & A2 & A3 & A4). destruct (Hc2 k c2 Hk2) as (c3 & Hk3 & B1 & B2 & B3 & B4).
    exists c3. split; [done|]. do 3 (split; [congruence|]). intros u Hu. destruct (A4 u Hu) as (v & Hv & Hle).
    destruct (B4 v Hv) as (x & Hx & Hle'). exists x. split; [done|lia].
Qed.

Lemma grows_keeps w w' : grows w w' -> keeps w w'.
Proof. intros [Hc Hm]. split; [done|]. by apply map_fmap_mono. Qed.
Lemma same_keeps w w' : contacts w' = contacts w -> identities w' = identities w -> keeps w w'.
Proof. intros Hc Hm. split; [|by rewrite Hm]. intros k c Hk. rewrite Hc. by exists c. Qed.

Lemma identities_lookup w k m : rows (messages w) !! k = Some m -> identities w !! k = Some (identity m).
Proof. intros Hk. unfold identities. by rewrite lookup_fmap, Hk. Qed.
Lemma identities_inv w k i : identities w !! k = Some i -> exists m, rows (messages w) !! k = Some m /\ identity m = i.
Proof. unfold identities. rewrite lookup_fmap. destruct (rows (messages w) !! k) as [m|]; [|done]. intros [= <-]. by exists m. Qed.

Lemma identity_eq a b : identity a = identity b ->
  Message.providerMessageId a = Message.providerMessageId b /\ Message.direction a = Message.direction b /\
  Message.tenantId a = Message.tenantId b /\ Message.from a = Message.from b /\
  Message.providerTimestamp a = Message.providerTimestamp b.
Proof. intros E. unfold identity in E. by injection E. Qed.

Lemma is_stored_keeps m w w' : is_stored m w -> keeps w w' -> is_stored m w'.
Proof.
  intros (k & r & Hk & Hp) [_ Hm]. apply identities_lookup in Hk. eapply lookup_weaken in Hk; [|exact Hm].
  apply identities_inv in Hk as (r' & Hk' & E). exists k, r'. split; [done|]. apply identity_eq in E as (E & _). by rewrite E.
Qed.
Lemma all_stored_keeps ms w w' : all_stored ms w -> keeps w w' -> all_stored ms w'.
Proof. intros Ha Hk m Hm. eapply is_stored_keeps; [by apply Ha|done]. Qed.

(** The windows depend on the contacts and on who the messages are. *)
Lemma window_ok_same w w' : contacts w' = contacts w -> identities w' = identities w -> window_ok w -> window_ok w'.
Proof.
  intros Hc Hm (Hu & Hw & Hcov).
  assert (Hrow : forall k m', rows (messages w') !! k = Some m' ->
    exists m, rows (messages w) !! k = Some m /\ identity m = identity m').
  { intros k m' Hk%identities_lookup. rewrite Hm in Hk. by apply identities_inv in Hk. }
  split; [|split].
  - intros k1 k2 m1 m2 p (r1 & R1 & [E1 _]%identity_eq)%Hrow (r2 & R2 & [E2 _]%identity_eq)%Hrow P1 P2.
    eapply Hu; [exact R1|exact R2|by rewrite E1|by rewrite E2].
  - rewrite Hc. exact Hw.
  - rewrite Hc. intros k m' (r & R & (_ & E2 & E3 & E4 & E5)%identity_eq)%Hrow T p u.
    rewrite <- E2, <- E3, <- E4, <- E5. by apply (Hcov k r R T p u).
Qed.

(** Working on event [k] with payload [p]: the world so far. *)
Record working (k : string) (p : json) (w0 w : World) : Prop := {
  work_ok : processed_stored w;
  work_keeps : keeps w0 w;
  work_others : forall k', k' <> k -> rows (webhookEvents w) !! k' = rows (webhookEvents w0) !! k';
  work_payload : WebhookEvent.payload <$> rows (webhookEvents w) !! k = WebhookEvent.payload <$> rows (webhookEvents w0) !! k
}.

Lemma working_start k p w : processed_stored w -> working k p w w.
Proof. by split. Qed.

(** A step that leaves the events alone and keeps what is stored. *)
Lemma working_step k p w0 w w' :
  working k p w0 w -> webhookEvents w' = webhookEvents w -> keeps w w' -> window_ok w' -> working k p w0 w'.
Proof.
  intros [[_ W1] W2 W3 W4] He Hk Hok. split; [split; [done|]|by etrans|by rewrite He|by rewrite He].
  intros k' e. rewrite He. intros Hk' Hp. eapply all_stored_keeps; [by eapply W1|done].
Qed.
Lemma working_same k p w0 w w' :
  working k p w0 w -> webhookEvents w' = webhookEvents w -> contacts w' = contacts w -> identities w' = identities w ->
  working k p w0 w'.
Proof.
  intros Hw He Hc Hm. eapply working_step; [done|done|by apply same_keeps|]. apply (window_ok_same w); [done|done|apply Hw].
Qed.

(** A change of the event's own row. *)
Lemma wp_webhook_update k p f (Q : exec js_error unit -> World -> Prop) w0 w :
  working k p w0 w ->
  (forall e, WebhookEvent.payload (f e) = WebhookEvent.payload e) ->
  (forall e, rows (webhookEvents w0) !! k = Some e -> WebhookEvent.payload e = p) ->
  ((exists e, WebhookEvent.processed (f e) = true /\ WebhookEvent.processed e = false) -> all_stored (payload_messages p) w) ->
  (forall r w', r <> OutOfFuel -> working k p w0 w' -> Q r w') ->
  wp (webhook_update k f) Q w.
Proof.
  intros Hw Hf Hp Hs HQ.
  assert (Hsame : working k p w0 (bump w)) by (eapply working_same; [exact Hw|done..]).
  apply wp_db; [intros x; by apply HQ|]. intros [] w' Hdb. apply bind_Some in Hdb as (tb & Hu & [= <-]).
  change (webhookEvents (bump w)) with (webhookEvents w) in Hu. apply update_some in Hu as (e & Hk & Hu & _).
  pose proof Hw as [[W1 W1'] W2 W3 W4].
  assert (He : WebhookEvent.payload e = p).
  { rewrite Hk in W4. destruct (rows (webhookEvents w0) !! k) as [e0|]; [|done]. injection W4 as ->. by apply Hp. }
  assert (Hd : working k p w0 (bump w <| webhookEvents := tb |>)).
  { split.
    - split; [exact W1|]. intros k' e'. change (webhookEvents (bump w <| webhookEvents := tb |>)) with tb. rewrite Hu.
      intros [[<- <-]|[_ Hk']]%lookup_insert_Some Hpr; [|by eapply W1'].
      rewrite Hf, He. destruct (WebhookEvent.processed e) eqn:Epr; [rewrite <- He; by eapply W1'|].
      apply Hs. by exists e.
    - exact W2.
    - intros k' Hne. change (rows tb !! k' = rows (webhookEvents w0) !! k'). rewrite Hu, lookup_insert_ne by done. by apply W3.
    - change (WebhookEvent.payload <$> rows tb !! k = WebhookEvent.payload <$> rows (webhookEvents w0) !! k).
      rewrite <- W4, Hu, lookup_insert_eq, Hk. cbn. by rewrite Hf. }
  split; [intros x|]; by apply HQ.
Qed.

Lemma process_event_spec k e w :
  processed_stored w -> (forall e', rows (webhookEvents w) !! k = Some e' -> WebhookEvent.payload e' = WebhookEvent.payload e) ->
  wp (process_event (k, e)) (fun r w' => r <> OutOfFuel /\ working k (WebhookEvent.payload e) w w') w.
Proof.
  intros Hok Hpay. set (p := WebhookEvent.payload e) in *. unfold process_event. cbn [fst snd]. apply wp_try.
  assert (Hcatch : forall error w1, working k p w w1 ->
    wp (now ← now; webhook_update k (failed_data (error_message string_of error) now (WebhookEvent.attemptCount e)))
      (fun r w' => r <> OutOfFuel /\ working k p w w') w1).
  { intros error w1 Hw1. apply wp_bind, wp_now. intros t.
    apply (wp_webhook_update k p _ _ w); [by eapply working_same|done|done| |by intros; split].
    intros (e1 & E1 & E2). cbn in E1. congruence. }
  apply wp_bind. eapply wp_mono; [apply (frames_wp webhookEvents); [apply inbound_frames|]; apply process_spec, Hok|].
  intros r w1 [(Hn & Hok1 & Hg & Hst) He1].
  assert (Hw1 : working k p w w1) by (eapply working_step; [by apply working_start|done|by apply grows_keeps|done]).
  destruct r as [[]|error|]; [|by apply Hcatch|done]. specialize (Hst eq_refl). cbv zeta in Hst. fold p in Hst.
  apply wp_bind. eapply wp_mono.
  { apply (wp_frame (fun w => (webhookEvents w, contacts w, messages w))); [by apply templates_frames|apply templates_returns]. }
  intros r2 w2 [Hret Hfr]. injection Hfr as Ee Ec Em.
  assert (Hi2 : identities w2 = identities w1) by (unfold identities; by rewrite Em).
  assert (Hw2 : working k p w w2) by by eapply working_same.
  assert (Hst2 : all_stored (payload_messages p) w2) by (eapply all_stored_keeps; [exact Hst|by apply same_keeps]).
  destruct r2 as [[]|error|]; [|by apply Hcatch|done].
  unfold processWebhookEvent. apply wp_bind. eapply wp_mono.
  { apply (wp_frame (fun w => (webhookEvents w, contacts w, identities w))); [|apply statuses_return].
    intros w3. pose proof (statuses_frame_identities (extractStatuses p) w3) as Hi3.
    pose proof (statuses_frame (fun w => (webhookEvents w, contacts w)) (extractStatuses p)
      (fun _ _ => eq_refl) (fun _ _ => eq_refl) (fun _ _ => eq_refl) w3) as [= Hf1 Hf2]. by f_equal; [f_equal|]. }
  intros r3 w3 [Hret3 Hfr3]. injection Hfr3 as Ee3 Ec3 Hi3.
  assert (Hw3 : working k p w w3) by by eapply working_same.
  assert (Hst3 : all_stored (payload_messages p) w3) by (eapply all_stored_keeps; [exact Hst2|by apply same_keeps]).
  destruct r3 as [[]|error|]; [|by apply Hcatch|done]. apply wp_bind, wp_now. intros t.
  apply (wp_webhook_update k p _ _ w); [by eapply working_same|done|done|by intros _|].
  intros r w4 Hn4 Hw4. destruct r as [[]|error|]; [by split|by apply Hcatch|done].
Qed.

(** Working on a list of events, each with the payload its row has. *)
Definition event_list_post (l : list string) (w w' : World) : Prop :=
  processed_stored w' /\ keeps w w' /\
  (forall k, k ∉ l -> rows (webhookEvents w') !! k = rows (webhookEvents w) !! k) /\
  (forall k, WebhookEvent.payload <$> rows (webhookEvents w') !! k = WebhookEvent.payload <$> rows (webhookEvents w) !! k).

Lemma process_events_spec l w :
  processed_stored w ->
  (forall k e e', (k, e) ∈ l -> rows (webhookEvents w) !! k = Some e' -> WebhookEvent.payload e' = WebhookEvent.payload e) ->
  wp (for_each l process_event) (fun r w' => r <> OutOfFuel /\ event_list_post l.*1 w w') w.
Proof.
  revert w. induction l as [|[k e] l IH]; intros w Hok Hpay; cbn [for_each].
  { apply wp_ret. split; [done|]. by split. }
  apply wp_bind. eapply wp_mono; [apply process_event_spec; [done|]; intros e' He'; eapply Hpay; [left|done]|].
  intros r w1 [Hn [W1 W2 W3 W4]].
  assert (Hpl : forall k', WebhookEvent.payload <$> rows (webhookEvents w1) !! k' = WebhookEvent.payload <$> rows (webhookEvents w) !! k').
  { intros k'. destruct (decide (k' = k)) as [->|Hne]; [done|by rewrite W3]. }
  assert (Hstop : event_list_post ((k, e) :: l).*1 w w1).
  { split; [done|]. split; [done|]. split; [|done]. intros k' Hk'. apply W3. intros ->. apply Hk'. left. }
  destruct r as [[]|error|]; [|by split|done].
  eapply wp_mono; [apply IH; [done|]|].
  - intros k' e1 e' Hin He'. specialize (Hpl k'). rewrite He' in Hpl.
    destruct (rows (webhookEvents w) !! k') as [e0|] eqn:E0; [|done]. injection Hpl as ->. eapply Hpay; [by right|done].
  - intros r w2 (Hn2 & V1 & V2 & V3 & V4). split; [done|]. split; [done|]. split; [by etrans|]. split.
    + intros k' Hk'. apply not_elem_of_cons in Hk' as [Hne Hk']. rewrite V3 by done. by apply W3.
    + intros k'. by rewrite V4.
Qed.

Context (WEBHOOK_PROCESSOR_LEASE_MS : Z).

(** How the events come out: those that were not due are the same, all keep their payload. *)
Definition events_kept (db_now : Z) (locked : string -> bool) (t t' : gmap string WebhookEvent.t) : Prop :=
  forall k, match t !! k, t' !! k with
  | Some e, Some e' => WebhookEvent.payload e' = WebhookEvent.payload e /\
                       (eligible db_now e && negb (locked k) = false -> e' = e)
  | None, None => True
  | _, _ => False
  end.
Lemma events_kept_refl db_now locked t : events_kept db_now locked t t.
Proof. intros k. by destruct (t !! k). Qed.

Lemma claimed_events_kept db_now l locked n t evs t1 t2 :
  claim_batch db_now l locked n t = (evs, t1) ->
  (forall k, k ∉ evs.*1 -> t2 !! k = rows t1 !! k) ->
  (forall k, WebhookEvent.payload <$> t2 !! k = WebhookEvent.payload <$> rows t1 !! k) ->
  events_kept db_now locked (rows t) t2 /\
  (forall k e, rows t1 !! k = Some e -> exists e0, rows t !! k = Some e0 /\ WebhookEvent.payload e = WebhookEvent.payload e0 /\
     WebhookEvent.processed e = WebhookEvent.processed e0).
Proof.
  intros E Hout Hpl. pose proof (claim_batch_rows db_now l locked n t) as Hrows.
  pose proof (claim_batch_correct db_now l locked n t) as Hc. rewrite E in Hrows, Hc. cbn [snd] in Hrows.
  destruct Hc as (_ & Hin & Hsame & _ & _).
  assert (Hfrom : forall k, match rows t !! k, rows t1 !! k with
    | Some e, Some e' => WebhookEvent.payload e' = WebhookEvent.payload e /\ WebhookEvent.processed e' = WebhookEvent.processed e
    | None, None => True | _, _ => False end).
  { intros k. rewrite Hrows. destruct (rows t !! k) as [e|]; [|done]. cbn. by destruct (decide _). }
  split.
  - intros k. specialize (Hfrom k). specialize (Hpl k). specialize (Hout k).
    destruct (rows t !! k) as [e|] eqn:Et, (rows t1 !! k) as [e1|] eqn:Et1; try done; destruct (t2 !! k) as [e2|]; try done.
    injection Hpl as Hpl. split; [by rewrite Hpl; apply Hfrom|]. intros Hne.
    assert (Hk : k ∉ evs.*1).
    { intros ([k' e'] & -> & Hk')%list_elem_of_fmap. destruct (Hin k' e' Hk') as (e0 & H0k & He0 & Hl0 & _).
      cbn in Et, Hne. assert (e0 = e) as -> by congruence. by rewrite He0, Hl0 in Hne. }
    specialize (Hout Hk). specialize (Hsame k Hk). rewrite Et, Et1 in Hsame. congruence.
  - intros k e Hk. specialize (Hfrom k). rewrite Hk in Hfrom. destruct (rows t !! k) as [e0|]; [|done]. by exists e0.
Qed.

(** C3: Whatever the webhooks contain and whatever fails, a run of the processor comes to a normal
    end, loses nothing that is stored, touches only events that were due and keeps their payloads;
    and it preserves that every inbound message of a processed webhook is stored, under a contact
    whose service window covers it. *)
Theorem processPending_safe processing db_now locked n w (Hok : processed_stored w) :
  let '(r, w') := processPending WEBHOOK_PROCESSOR_LEASE_MS processing db_now locked n w in
  r = Ok tt /\ processed_stored w' /\ keeps w w' /\
  events_kept db_now locked (rows (webhookEvents w)) (rows (webhookEvents w')).
Proof.
  set (Q := fun (r : exec js_error unit) w' => r = Ok tt /\ processed_stored w' /\ keeps w w' /\
    events_kept db_now locked (rows (webhookEvents w)) (rows (webhookEvents w'))).
  assert (Hw : wp (processPending WEBHOOK_PROCESSOR_LEASE_MS processing db_now locked n) Q w).
  { unfold processPending. destruct processing.
    { apply wp_ret. split; [done|]. split; [done|]. split; [done|]. apply events_kept_refl. }
    apply wp_try, wp_bind, wp_bind, wp_now. intros t. apply wp_db.
    { intros x. apply wp_ret. split; [done|]. split; [exact Hok|]. split; [by apply same_keeps|]. apply events_kept_refl. }
    intros evs w1 E. change (webhookEvents (bump (bump w))) with (webhookEvents w) in E.
    destruct (claim_batch _ _ _ _ _) as [evs' t1] eqn:Ec. injection E as -> <-.
    set (w1 := bump (bump w) <| webhookEvents := t1 |>).
    assert (Hrows : forall k e, rows t1 !! k = Some e -> exists e0, rows (webhookEvents w) !! k = Some e0 /\
      WebhookEvent.payload e = WebhookEvent.payload e0 /\ WebhookEvent.processed e = WebhookEvent.processed e0).
    { apply (claimed_events_kept _ _ _ _ _ _ _ (rows t1) Ec); done. }
    assert (Hok1 : processed_stored w1).
    { destruct Hok as [Hok1 Hok2]. split; [exact Hok1|]. intros k e (e0 & H0k & -> & ->)%Hrows Hp. by eapply Hok2. }
    assert (Hend : forall r w2, r = Ok tt -> event_list_post evs.*1 w1 w2 -> Q r w2).
    { intros r w2 -> (V1 & V2 & V3 & V4). split; [done|]. split; [done|]. split; [exact V2|].
      by apply (claimed_events_kept _ _ _ _ _ _ _ _ Ec). }
    split; [intros x; apply wp_ret, Hend; [done|by split]|].
    eapply wp_mono; [apply process_events_spec; [exact Hok1|]|].
    - intros k e e' Hin He'. pose proof (claim_batch_claimed db_now (t + Z.max 5000 WEBHOOK_PROCESSOR_LEASE_MS) locked n (webhookEvents w) k e) as Hcl.
      rewrite Ec in Hcl. destruct (Hcl Hin) as (_ & _ & _ & _ & _ & Hk). cbn [snd] in Hk.
      change (rows t1 !! k = Some e') in He'. congruence.
    - intros r w2 [Hn Hp]. destruct r as [[]|x|]; [by apply Hend|by apply wp_ret, Hend|done]. }
  unfold wp in Hw. by destruct (processPending _ _ _ _ _ w).
Qed.
End processor_proofs.

(** ** A webhook worked off *)
Definition pending_webhook : WebhookEvent.t :=
  {| WebhookEvent.payload := hello_payload; WebhookEvent.processed := false; WebhookEvent.attemptCount := 0;
     WebhookEvent.nextAttemptAt := 0; WebhookEvent.processingLeaseUntil := None;
     WebhookEvent.lastError := None; WebhookEvent.receivedAt := 0; WebhookEvent.processedAt := None |}.
Definition processor_example : World (H := gmap_prisma) :=
  inbound_example <| webhookEvents := ({[ "e"%string := pending_webhook ]} : gmap string WebhookEvent.t) |>.

Lemma processor_example_ok : processed_stored processor_example.
Proof.
  split; [apply (window_ok_tables inbound_example processor_example eq_refl eq_refl inbound_example_ok)|].
  intros k e. change (rows (webhookEvents processor_example)) with ({[ "e"%string := pending_webhook ]} : gmap string WebhookEvent.t).
  intros [<- <-]%lookup_singleton_Some. discriminate.
Qed.

Lemma processPending_safe_witness :
  let '(r, w') := @processPending gmap_prisma (calm 5) 30000 false 5 (fun _ => false) 50 processor_example in
  r = Ok tt /\ processed_stored w' /\ keeps processor_example w' /\
  events_kept 5 (fun _ => false) (rows (webhookEvents processor_example)) (rows (webhookEvents w')).
Proof.
  apply (@processPending_safe gmap_prisma (calm 5) 30000 false 5 (fun _ => false) 50 processor_example), processor_example_ok.
Defined.

Example pending_webhook_done :
  let '(_, w') := @processPending gmap_prisma (calm 5) 30000 false 5 (fun _ => false) 50 processor_example in
  WebhookEvent.processed <$> rows (webhookEvents w') !! "e"%string = Some true.
Proof. vm_compute. reflexivity. Qed.
