(* ===== verification/Messages.v ===== *)
(** The message API ([messages/messages.service.ts], [messages/outbound-policy.service.ts]): checking
    that the recipient may be written to, and storing the message together with the outbox event
    that will get it sent. *)
From stdpp Require Import prelude gmap strings.
From Stdlib Require Import ZArith Lia.
From S2P Require Import Prelude Json Io Prisma Domain Frame Queue Dispatcher Outbox Contacts Conversations Senders Inbound Payload Secrets Graph Templates.
#[local] Open Scope Z_scope.

Module OutboundMessageType.
Inductive t := TEXT | TEMPLATE | IMAGE | VIDEO | AUDIO | DOCUMENT.
#[export] Instance eq_dec : EqDecision t.
Proof. solve_decision. Defined.
Definition name (x : t) : string :=
  match x with TEXT => "TEXT" | TEMPLATE => "TEMPLATE" | IMAGE => "IMAGE" | VIDEO => "VIDEO"
             | AUDIO => "AUDIO" | DOCUMENT => "DOCUMENT" end.
End OutboundMessageType.
Export (hints) OutboundMessageType.

Definition mapType (type : OutboundMessageType.t) : MessageType.t :=
  match type with
  | OutboundMessageType.TEXT => MessageType.TEXT
  | OutboundMessageType.TEMPLATE => MessageType.TEMPLATE
  | OutboundMessageType.IMAGE => MessageType.IMAGE
  | OutboundMessageType.VIDEO => MessageType.VIDEO
  | OutboundMessageType.AUDIO => MessageType.AUDIO
  | OutboundMessageType.DOCUMENT => MessageType.DOCUMENT
  end.

Module CreateMessageDto.
Record t := make {
  to : string;
  type : OutboundMessageType.t;
  senderId : option string;
  payload : json;
  idempotencyKey : option string
}.
End CreateMessageDto.

Section messages.
Context `{Prisma} `{Environment} `{UrlParser}.

Definition assertAllowed (tenantId to : string) (type : OutboundMessageType.t) : io World unit :=
  contact ← Contacts.findByPhone tenantId to;
  if bool_decide (type = OutboundMessageType.TEMPLATE) then
    match contact with
    | Some (_, c) =>
        if bool_decide (Contact.consentStatus c = ConsentStatus.OPTED_IN) then mret tt
        else throw (ForbiddenException "Template messages require explicit contact opt-in")
    | None => throw (ForbiddenException "Template messages require explicit contact opt-in")
    end
  else
    let closed := ForbiddenException "Free-form messages require an open 24-hour customer service window" in
    match contact ≫= fun kc => Contact.serviceWindowExpiresAt kc.2 with
    | None => throw closed
    | Some expires => now ← now; if expires <=? now then throw closed else mret tt
    end.

(** [findFirst({ where: { tenantId, idempotencyKey } })], with a key. *)
Definition has_idempotency_key (tenantId key : string) (_ : string) (m : Message.t) : bool :=
  bool_decide (Message.tenantId m = Some tenantId) && bool_decide (Message.idempotencyKey m = Some key).
Definition find_existing (tenantId : string) (key : option string) : io World (option (string * Message.t)) :=
  match truthy key with
  | Some key => db (fun w => Some (findFirst (has_idempotency_key tenantId key) (messages w), w))
  | None => mret None
  end.

Definition persisted_payload (dto : CreateMessageDto.t) : exec js_error json :=
  if isMediaMessageType (OutboundMessageType.name (CreateMessageDto.type dto)) then
    match normalizeMediaPayload (OutboundMessageType.name (CreateMessageDto.type dto)) (CreateMessageDto.payload dto) with
    | Throws (MediaPayloadError m) => Throws (BadRequestException m)
    | r => r
    end
  else Ok (CreateMessageDto.payload dto).

(** The category of the approved template; [None] for the other types. *)
Definition template_category (tenantId : string) (sender : Sender.t) (type : OutboundMessageType.t) (payload : json)
    : io World (option string) :=
  if bool_decide (type = OutboundMessageType.TEMPLATE) then
    match truthy (Sender.wabaId sender) with
    | None => throw (UnprocessableEntityException "The selected WhatsApp sender is missing its WABA ID")
    | Some waba => '(_, template) ← assertApproved tenantId waba payload; mret (Template.category template)
    end
  else mret None.

Definition outbound_row (tenantId senderId normalizedTo : string) (conversationId : option string)
    (trafficClass : MessageTrafficClass.t) (messageType : MessageType.t) (payload : json)
    (key : option string) (createdAt : Z) : Message.t :=
  {| Message.tenantId := Some tenantId; Message.senderId := Some senderId;
     Message.conversationId := truthy conversationId; Message.direction := MessageDirection.OUTBOUND;
     Message.trafficClass := trafficClass; Message.type := messageType; Message.status := MessageStatus.QUEUED;
     Message.to := Some normalizedTo; Message.from := None; Message.providerMessageId := None;
     Message.providerTimestamp := None; Message.idempotencyKey := key; Message.payload := payload;
     Message.providerResponse := None; Message.errorCode := None; Message.errorMessage := None;
     Message.attemptCount := 0; Message.lastAttemptAt := None; Message.processingLeaseUntil := None;
     Message.createdAt := createdAt; Message.submittedAt := None; Message.sentAt := None;
     Message.deliveredAt := None; Message.readAt := None; Message.failedAt := None |}.

Definition requested_event (messageId : string) (trafficClass : MessageTrafficClass.t) (trace : option json)
    (createdAt : Z) : OutboxEvent.t :=
  {| OutboxEvent.aggregateType := "Message"; OutboxEvent.aggregateId := messageId;
     OutboxEvent.eventType := OUTBOUND_REQUESTED_EVENT;
     OutboxEvent.payload := JObj ([("messageId", JStr messageId); ("trafficClass", JStr (MessageTrafficClass.name trafficClass))]%string ++
                                  match trace with Some t => [("trace"%string, t)] | None => [] end);
     OutboxEvent.attempts := 0; OutboxEvent.nextAttemptAt := createdAt; OutboxEvent.processingLeaseUntil := None;
     OutboxEvent.lastError := None; OutboxEvent.publishedAt := None; OutboxEvent.createdAt := createdAt |}.
Definition outbox_create (e : OutboxEvent.t) : io World unit :=
  db (fun w => '(_, t) ← Prisma.create unconstrained e (outboxEvents w); Some (tt, w <| outboxEvents := t |>)).

(** The transaction of [create]: the conversation, the message and its outbox event, or none. *)
Definition create_body (tenantId senderId normalizedTo : string) (dto : CreateMessageDto.t)
    (trafficClass : MessageTrafficClass.t) (payload : json) (trace : option json) (acceptedAt : Z)
    : io World (string * Message.t) :=
  let messageType := mapType (CreateMessageDto.type dto) in
  conversationId ← recordOutbound tenantId senderId normalizedTo messageType acceptedAt;
  createdAt ← now;
  let m := outbound_row tenantId senderId normalizedTo conversationId trafficClass messageType payload
             (CreateMessageDto.idempotencyKey dto) createdAt in
  id ← message_create m (fun id => status_event id MessageStatus.QUEUED None);
  _ ← outbox_create (requested_event id trafficClass trace createdAt);
  mret (id, m).

Definition create_attempt (tenantId senderId normalizedTo : string) (dto : CreateMessageDto.t)
    (trafficClass : MessageTrafficClass.t) (payload : json) (trace : option json) (acceptedAt : Z)
    : io World (string * Message.t) :=
  try_catch
    (transaction (create_body tenantId senderId normalizedTo dto trafficClass payload trace acceptedAt))
    (fun _ =>
       existing ← find_existing tenantId (CreateMessageDto.idempotencyKey dto);
       match existing with
       | Some row => mret row
       | None => throw (ConflictException "Unable to create outbound message")
       end).

(** [create]; [trace] is the carrier of the current trace. *)
Definition create (tenantId : string) (dto : CreateMessageDto.t) (trace : option json)
    : io World (string * Message.t) :=
  existing ← find_existing tenantId (CreateMessageDto.idempotencyKey dto);
  match existing with
  | Some row => mret row
  | None =>
      _ ← assertAllowed tenantId (CreateMessageDto.to dto) (CreateMessageDto.type dto);
      normalizedTo ← lift (normalizePhoneNumber (CreateMessageDto.to dto));
      sender ← Senders.resolveForTenant tenantId (CreateMessageDto.senderId dto);
      payload ← lift (persisted_payload dto);
      category ← template_category tenantId sender.2 (CreateMessageDto.type dto) payload;
      let trafficClass := deriveTrafficClass (mapType (CreateMessageDto.type dto)) category in
      acceptedAt ← now;
      create_attempt tenantId sender.1 normalizedTo dto trafficClass payload trace acceptedAt
  end.

Definition findById (tenantId id : string) : io World (option (string * Message.t)) :=
  db (fun w => Some (findFirst (fun k m => bool_decide (k = id) && bool_decide (Message.tenantId m = Some tenantId)) (messages w), w)).
End messages.

(** ** What [create] stores *)
Section create_proofs.
Context `{Prisma} `{Environment} `{UrlParser}.

(** The tables the request depends on and writes to. *)
Definition pipeline (w : World) := (messages w, outboxEvents w, contacts w, senders w, templates w).

(** The recipient may be written to: it has opted in, or its service window is open when looked at. *)
Definition may_write (T to : string) (type : OutboundMessageType.t) (w : World) : Prop :=
  exists k c p, normalizePhoneNumber to = Ok p /\ rows (contacts w) !! k = Some c /\
    Contact.tenantId c = T /\ Contact.phone c = p /\
    (type = OutboundMessageType.TEMPLATE -> Contact.consentStatus c = ConsentStatus.OPTED_IN) /\
    (type <> OutboundMessageType.TEMPLATE ->
       exists expires n, Contact.serviceWindowExpiresAt c = Some expires /\ clock n < expires).
(** The template of the message is approved for the sender's account. *)
Definition approved (T : string) (s : Sender.t) (payload : json) (category : option string) (w : World) : Prop :=
  exists waba n l k t, Sender.wabaId s = Some waba /\ extractTemplateIdentity payload = Ok (n, l) /\
    rows (templates w) !! k = Some t /\ has_key T waba n l k t = true /\ Template.status t = "APPROVED"%string /\
    category = Template.category t.

Lemma assertAllowed_spec T to type w :
  wp (assertAllowed T to type) (fun r w' => r <> OutOfFuel /\ pipeline w' = pipeline w /\ (r = Ok tt -> may_write T to type w)) w.
Proof.
  assert (Hreads : frames pipeline (assertAllowed T to type)).
  { unfold assertAllowed, Contacts.findByPhone, contact_by_phone. frame_steps. }
  assert (Hret : returns (assertAllowed T to type)).
  { unfold assertAllowed, Contacts.findByPhone, contact_by_phone. returns_steps.
    apply returns_lift. unfold normalizePhoneNumber. returns_lift_tac. }
  split; [apply Hret|]. split; [apply Hreads|]. change (wp (assertAllowed T to type) (fun r _ => r = Ok tt -> may_write T to type w) w).
  unfold assertAllowed, Contacts.findByPhone. apply wp_bind, wp_bind, wp_lift.
  destruct (normalizePhoneNumber to) as [p|e|] eqn:Ep; [|done|done].
  apply wp_db; [done|]. intros contact w1 [= <- <-]. split; [done|]. change (contacts (bump w)) with (contacts w).
  assert (Hc : forall k c, findFirst (has_phone T p) (contacts w) = Some (k, c) ->
    rows (contacts w) !! k = Some c /\ Contact.tenantId c = T /\ Contact.phone c = p).
  { intros k c [Hk [E1%bool_decide_eq_true E2%bool_decide_eq_true]%andb_true_iff]%findFirst_some. done. }
  case_bool_decide as Et.
  - destruct (findFirst _ _) as [[k c]|] eqn:Ef; [|done]. destruct (Hc k c eq_refl) as (Hk & HT & Hp).
    case_bool_decide as Eo; [|done]. apply wp_ret. intros _. exists k, c, p. by repeat split.
  - destruct (findFirst _ _) as [[k c]|] eqn:Ef; [|done]. destruct (Hc k c eq_refl) as (Hk & HT & Hp).
    cbn [mbind option_bind snd]. destruct (Contact.serviceWindowExpiresAt c) as [x|] eqn:Ex; [|done].
    apply wp_bind. unfold wp at 1, now. cbn [fst snd]. destruct (Z.leb_spec x (clock (tick (bump w)))); [done|].
    apply wp_ret. intros _. exists k, c, p. repeat split; try done. intros _. by exists x, (tick (bump w)).
Qed.

Lemma resolveForTenant_spec T s w :
  wp (Senders.resolveForTenant T s) (fun r w' => r <> OutOfFuel /\ pipeline w' = pipeline w /\
    forall k x, r = Ok (k, x) -> rows (senders w) !! k = Some x /\ Sender.tenantId x = T /\ Sender.active x = true) w.
Proof.
  split; [apply resolveForTenant_returns|]. split; [by apply (resolveForTenant_reads pipeline)|].
  change (wp (Senders.resolveForTenant T s) (fun r _ => forall k x, r = Ok (k, x) ->
    rows (senders w) !! k = Some x /\ Sender.tenantId x = T /\ Sender.active x = true) w).
  assert (Hact : forall k x, rows (senders w) !! k = Some x -> is_active T k x = true ->
    rows (senders w) !! k = Some x /\ Sender.tenantId x = T /\ Sender.active x = true).
  { intros k x Hk [Hb%belongs_eq Ha]%is_active_spec. done. }
  unfold Senders.resolveForTenant. apply wp_bind. destruct (truthy s) as [id|].
  - apply wp_db; [done|]. intros o w1 [= <- <-]. split; [done|]. change (senders (bump w)) with (senders w).
    destruct (findFirst _ _) as [[k x]|] eqn:Ef; [|done]. apply wp_ret. intros k' x' [= <- <-].
    apply findFirst_some in Ef as [Hk [_ Ha]%andb_true_iff]. by apply Hact.
  - apply wp_db; [done|]. intros o w1 [= <- <-]. split; [done|]. change (senders (bump w)) with (senders w).
    destruct (first_by _ _ _) as [[k x]|] eqn:Ef; [|done]. apply wp_ret. intros k' x' [= <- <-].
    apply first_by_some in Ef as [Ha Hk]. by apply Hact.
Qed.

Lemma template_category_spec T s type payload w :
  wp (template_category T s type payload) (fun r w' => r <> OutOfFuel /\ pipeline w' = pipeline w /\
    forall c, r = Ok c -> if bool_decide (type = OutboundMessageType.TEMPLATE) then approved T s payload c w else c = None) w.
Proof.
  assert (Hid : extractTemplateIdentity payload <> OutOfFuel) by (unfold extractTemplateIdentity; returns_lift_tac).
  split.
  { change (wp (template_category T s type payload) (fun r _ => r <> OutOfFuel) w).
    revert w. change (returns (template_category T s type payload)). unfold template_category, assertApproved, template_find, found. returns_steps. by apply returns_lift. }
  split.
  { revert w. change (frames pipeline (template_category T s type payload)). unfold template_category, assertApproved, template_find, found. frame_steps. }
  change (wp (template_category T s type payload) (fun r _ => forall c, r = Ok c ->
    if bool_decide (type = OutboundMessageType.TEMPLATE) then approved T s payload c w else c = None) w).
  unfold template_category. case_bool_decide; [|by intros c [= <-]].
  destruct (truthy (Sender.wabaId s)) as [waba|] eqn:Ew; [|done].
  assert (Hw : Sender.wabaId s = Some waba) by (destruct (Sender.wabaId s) as [[|]|]; cbn in Ew; congruence).
  unfold assertApproved. apply wp_bind, wp_bind, wp_lift.
  destruct (extractTemplateIdentity payload) as [[n l]|e|] eqn:Ei; [|done|done].
  apply wp_bind, wp_db; [done|]. intros o w1 [= <- <-]. split; [done|]. change (templates (bump w)) with (templates w).
  destruct (findFirst _ _) as [[k t]|] eqn:Ef; [|done]. apply wp_ret, wp_ret. intros c [= <-].
  apply findFirst_some in Ef as [Hk [Hp Hs%String.eqb_eq]%andb_true_iff]. by exists waba, n, l, k, t.
Qed.

(** A new message and the event that gets it sent. *)
Definition queued_row (T to : string) (dto : CreateMessageDto.t) (k : string) (category : option string) (payload : json)
    (m : Message.t) : Prop :=
  Message.tenantId m = Some T /\ Message.senderId m = Some k /\ Message.direction m = MessageDirection.OUTBOUND /\
  Message.status m = MessageStatus.QUEUED /\ Message.to m = Some to /\ Message.type m = mapType (CreateMessageDto.type dto) /\
  Message.payload m = payload /\ Message.idempotencyKey m = CreateMessageDto.idempotencyKey dto /\
  Message.trafficClass m = deriveTrafficClass (mapType (CreateMessageDto.type dto)) category.
(** The outbox publisher will send [id], with its class. *)
Definition requests (id : string) (m : Message.t) (e : OutboxEvent.t) : Prop :=
  OutboxEvent.eventType e = OUTBOUND_REQUESTED_EVENT /\ target e = id /\
  extractTrafficClass (OutboxEvent.payload e) = Some (Message.trafficClass m) /\ OutboxEvent.publishedAt e = None.

Definition added (P : Message.t -> Prop) (T : string) (key : option string) (w w' : World) (id : string) (m : Message.t) : Prop :=
  rows (messages w) !! id = None /\ rows (messages w') = <[id := m]> (rows (messages w)) /\ P m /\
  (exists ev e, rows (outboxEvents w) !! ev = None /\ rows (outboxEvents w') = <[ev := e]> (rows (outboxEvents w)) /\ requests id m e) /\
  (forall k, key = Some k -> forall id' m', rows (messages w) !! id' = Some m' -> has_idempotency_key T k id' m' = false).

Lemma requested_event_requests id m trace t :
  requests id m (requested_event id (Message.trafficClass m) trace t).
Proof.
  unfold requests, target, requested_event. split; [done|].
  unfold extractMessageId, extractTrafficClass. cbn. split; [|by destruct (Message.trafficClass m)].
  rewrite decide_True by done. by destruct (String.eqb_spec id "") as [->|].
Qed.

Lemma unique_key m m' T k id :
  Message.tenantId m = Some T -> Message.idempotencyKey m = Some k -> message_unique m m' = false ->
  has_idempotency_key T k id m' = false.
Proof.
  intros HT Hk. unfold message_unique, has_idempotency_key, same_some. rewrite HT, Hk. intros [_ Hu]%orb_false_iff.
  destruct (bool_decide (Message.tenantId m' = _)) eqn:E1; [|done].
  destruct (bool_decide (Message.idempotencyKey m' = _)) eqn:E2; [|done].
  apply bool_decide_eq_true in E1, E2. rewrite E1, E2, !bool_decide_true in Hu by (split; [by eexists|done]). done.
Qed.

Lemma create_message_body_spec T k to dto category payload trace acc w :
  let tc := deriveTrafficClass (mapType (CreateMessageDto.type dto)) category in
  wp (create_body T k to dto tc payload trace acc) (on_ok (fun r w' =>
    added (queued_row T to dto k category payload) T (CreateMessageDto.idempotencyKey dto) w w' r.1 r.2)) w.
Proof.
  intros tc. unfold create_body. apply wp_bind. eapply wp_mono.
  { apply (wp_frame pipeline); [unfold recordOutbound, Conversations.upsert; frame_steps|unfold recordOutbound, Conversations.upsert; returns_steps]. }
  intros [conv|e|] w1 [Hn Hp]; [|done|done]. injection Hp as Em Eo _ _ _.
  apply wp_bind, wp_now. intros createdAt. apply wp_bind.
  set (m := outbound_row T k to conv tc _ payload _ createdAt).
  apply wp_message_create; [done|]. intros tm evs id Hid Htm Hu. split; [done|].
  change (messages (bump w1)) with (messages w1) in *. rewrite Em in Hid, Htm, Hu.
  apply wp_bind, wp_db; [done|]. intros [] w2 Hf. apply bind_Some in Hf as ([ev tb] & Hc & [= <-]).
  split; [done|]. apply create_some in Hc as (Hev & Htb & _).
  change (outboxEvents (bump (bump (bump w1) <| messages := tm |> <| statusEvents := evs |>))) with (outboxEvents w1) in Hev, Htb.
  rewrite Eo in Hev, Htb. apply wp_ret. split; [exact Hid|]. split; [exact Htm|]. split; [done|]. split.
  - exists ev, (requested_event id tc trace createdAt). split; [exact Hev|]. split; [exact Htb|].
    apply (requested_event_requests id m trace).
  - intros key Hkey id' m' Hm'. eapply unique_key; [| |by eapply Hu]; done.
Qed.

(** The outcome of a request: nothing is stored, and the answer, if there is one, is the stored
    message of the same key; or one permitted message is stored with its outbox event. *)
Definition permitted (T : string) (dto : CreateMessageDto.t) (w : World) (k to : string) (category : option string)
    (payload : json) : Prop :=
  normalizePhoneNumber (CreateMessageDto.to dto) = Ok to /\
  may_write T (CreateMessageDto.to dto) (CreateMessageDto.type dto) w /\ persisted_payload dto = Ok payload /\
  exists s, rows (senders w) !! k = Some s /\ Sender.tenantId s = T /\ Sender.active s = true /\
    (CreateMessageDto.type dto = OutboundMessageType.TEMPLATE -> approved T s payload category w).
Definition create_outcome (T : string) (dto : CreateMessageDto.t) (w : World)
    (r : exec js_error (string * Message.t)) (w' : World) : Prop :=
  let key := CreateMessageDto.idempotencyKey dto in
  (rows (messages w') = rows (messages w) /\ rows (outboxEvents w') = rows (outboxEvents w) /\
   forall id m, r = Ok (id, m) -> rows (messages w) !! id = Some m /\
     exists k, truthy key = Some k /\ has_idempotency_key T k id m = true) \/
  exists id m k to category payload,
    permitted T dto w k to category payload /\ added (queued_row T to dto k category payload) T key w w' id m /\
    forall r', r = Ok r' -> r' = (id, m).

Definition tables_same (w w' : World) : Prop :=
  rows (messages w') = rows (messages w) /\ rows (outboxEvents w') = rows (outboxEvents w).
Lemma create_refused T dto w e w' : tables_same w w' -> create_outcome T dto w (Throws e) w'.
Proof. intros [Hm Ho]. left. done. Qed.

(** Looking for the message of the key. *)
Lemma wp_find_existing T key (Q : exec js_error (option (string * Message.t)) -> World -> Prop) w :
  (forall e w', pipeline w' = pipeline w -> Q (Throws e) w') ->
  (forall o w', pipeline w' = pipeline w ->
     match o with
     | Some (id, m) => rows (messages w) !! id = Some m /\ exists k, truthy key = Some k /\ has_idempotency_key T k id m = true
     | None => True
     end -> Q (Ok o) w') ->
  wp (find_existing T key) Q w.
Proof.
  intros He Ho. unfold find_existing. destruct (truthy key) as [k|]; [|by apply wp_ret, Ho].
  apply wp_db; [intros x; by apply He|]. intros o w1 [= <- <-]. split; [intros x; by apply He|]. apply Ho; [done|].
  destruct (findFirst _ _) as [[id m]|] eqn:Ef; [|done]. apply findFirst_some in Ef as [Hm Hk]. split; [done|]. by exists k.
Qed.

Lemma pipeline_same w w' : pipeline w' = pipeline w -> tables_same w w'.
Proof. intros E. injection E as E1 E2 _ _ _. unfold tables_same. by rewrite E1, E2. Qed.

(** An answer found again after a lost race or a failed commit. *)
Lemma found_again T dto w w1 id m P :
  let key := CreateMessageDto.idempotencyKey dto in
  added P T key w w1 id m -> forall id' m' k, rows (messages w1) !! id' = Some m' -> truthy key = Some k ->
  has_idempotency_key T k id' m' = true -> (id', m') = (id, m).
Proof.
  intros key (Hid & Hm & _ & _ & Hu) id' m' k Hm' Hk Hhas. rewrite Hm in Hm'.
  apply lookup_insert_Some in Hm' as [[<- <-]|[_ Hm']]; [done|].
  assert (Hkey : key = Some k) by (destruct key as [[|]|]; cbn in Hk; congruence).
  by rewrite (Hu k Hkey id' m' Hm') in Hhas.
Qed.

Lemma create_attempt_spec T k to dto category payload trace acc w0 w :
  let tc := deriveTrafficClass (mapType (CreateMessageDto.type dto)) category in
  pipeline w = pipeline w0 -> permitted T dto w0 k to category payload ->
  wp (create_attempt T k to dto tc payload trace acc) (create_outcome T dto w0) w.
Proof.
  intros tc Hp Hperm. pose proof (pipeline_same _ _ Hp) as [Hm0 Ho0]. apply wp_try, wp_transaction.
  set (key := CreateMessageDto.idempotencyKey dto).
  set (handler := find_existing T key ≫= _). 
  assert (Hold : forall n, wp handler (create_outcome T dto w0) (w <| tick := n |>)).
  { intros n. apply wp_bind, wp_find_existing.
    - intros e' w' E. apply create_refused, pipeline_same. exact (eq_trans E Hp).
    - intros [[id m]|] w' E Hfound; [|apply create_refused, pipeline_same; exact (eq_trans E Hp)].
      apply wp_ret. left. destruct (pipeline_same _ _ E) as [E1 E2].
      split; [by etrans|]. split; [by etrans|]. intros id' m' [= <- <-]. rewrite <- Hm0. exact Hfound. }
  eapply wp_mono; [by apply create_message_body_spec|]. intros [[id m]|e|] w1 Hw1; [|exact Hold|done].
  cbn [outcome fst snd] in Hw1.
  assert (Hadd : added (queued_row T to dto k category payload) T key w0 w1 id m).
  { unfold added in *. rewrite <- Hm0, <- Ho0. exact Hw1. }
  assert (Hnew : forall r w2, pipeline w2 = pipeline w1 -> (forall r', r = Ok r' -> r' = (id, m)) -> create_outcome T dto w0 r w2).
  { intros r w2 E Hr. right. exists id, m, k, to, category, payload. split; [done|]. split; [|done].
    destruct (pipeline_same _ _ E) as [E1 E2]. unfold added in *. rewrite E1, E2. exact Hadd. }
  split; [intros _; exact Hold|]. split.
  - intros e. apply wp_bind, wp_find_existing; [intros e' w' E; by apply Hnew|].
    intros [[id' m']|] w' E Hfound; [|by apply wp_throw, Hnew]. apply wp_ret, Hnew; [done|].
    intros r' [= <-]. destruct Hfound as [Hrow (key' & Hk' & Hhas)]. by eapply found_again.
  - apply Hnew; [done|]. by intros r' [= <-].
Qed.

Lemma persisted_payload_total dto : persisted_payload dto <> OutOfFuel.
Proof.
  unfold persisted_payload. destruct (isMediaMessageType _); [|done].
  pose proof (normalizeMediaPayload_total (OutboundMessageType.name (CreateMessageDto.type dto)) (CreateMessageDto.payload dto)) as Ht.
  destruct (normalizeMediaPayload _ _) as [|e|]; [done| |done]. by destruct e.
Qed.

Lemma create_spec T dto trace w : wp (create T dto trace) (create_outcome T dto w) w.
Proof.
  assert (Hstop : forall e w', pipeline w' = pipeline w -> create_outcome T dto w (Throws e) w').
  { intros e w' E. by apply create_refused, pipeline_same. }
  unfold create. apply wp_bind, wp_find_existing; [exact Hstop|]. intros o w1 E1 Ho.
  destruct o as [[id m]|].
  { apply wp_ret. left. destruct (pipeline_same _ _ E1) as [-> ->]. split; [done|]. split; [done|]. by intros id' m' [= <- <-]. }
  apply wp_bind. eapply wp_mono; [apply assertAllowed_spec|]. intros r w2 (Hn2 & E2 & Hmay). rewrite E1 in E2.
  destruct r as [[]|e|]; [|by apply Hstop|done]. specialize (Hmay eq_refl).
  apply wp_bind, wp_lift. destruct (normalizePhoneNumber _) as [to|e|] eqn:Eto; [|by apply Hstop|].
  2:{ exfalso. revert Eto. unfold normalizePhoneNumber. by destruct (E164_DIGITS _). }
  apply wp_bind. eapply wp_mono; [apply resolveForTenant_spec|]. intros r w3 (Hn3 & E3 & Hs). rewrite E2 in E3.
  destruct r as [[k s]|e|]; [|by apply Hstop|done]. specialize (Hs k s eq_refl).
  apply wp_bind, wp_lift. destruct (persisted_payload dto) as [payload|e|] eqn:Epay; [|by apply Hstop|].
  2:{ by apply persisted_payload_total in Epay. }
  apply wp_bind. eapply wp_mono; [apply template_category_spec|]. intros r w4 (Hn4 & E4 & Hcat). rewrite E3 in E4.
  destruct r as [category|e|]; [|by apply Hstop|done]. specialize (Hcat category eq_refl).
  apply wp_bind, wp_now. intros acc. apply create_attempt_spec; [exact E4|].
  assert (Ec : contacts w1 = contacts w) by (unfold pipeline in E1; congruence).
  assert (Es : senders w2 = senders w) by (unfold pipeline in E2; congruence).
  assert (Et : templates w3 = templates w) by (unfold pipeline in E3; congruence).
  split; [done|]. split; [unfold may_write in *; by rewrite <- Ec|]. split; [done|]. exists s. rewrite <- Es.
  destruct Hs as (S1 & S2 & S3). split; [done|]. split; [done|]. split; [done|]. intros Ht.
  rewrite bool_decide_true in Hcat by done. unfold approved in *. by rewrite <- Et.
Qed.

(** C1: A request to send either stores nothing, and what it answers, if anything, is the message
    stored before under the same idempotency key; or stores exactly one queued message, under a key
    the tenant had not used, together with the one outbox event that gets it sent with its class -
    and then the recipient had opted in (templates) or had an open service window (anything else),
    the sender is an active one of the tenant and a template was approved.  Nothing in between, whatever fails. *)
Theorem create_atomic T dto trace w :
  let '(r, w') := create T dto trace w in create_outcome T dto w r w'.
Proof. pose proof (create_spec T dto trace w) as Hw. unfold wp in Hw. by destruct (create T dto trace w). Qed.

(** *** From the API to the request to Meta *)
Lemma digits_of_digits s : forallb (digit_from 48) (String.list_ascii_of_string s) = true -> digits_of s = s.
Proof.
  induction s as [|c s IH]; [done|]. cbn. intros [Hc Hs]%andb_true_iff. unfold digit_from in Hc. rewrite Hc. by rewrite IH.
Qed.
Lemma normalizeRecipient_phone value p : normalizePhoneNumber value = Ok p -> normalizeRecipient (Some p) = Ok p.
Proof.
  intros Hp. apply normalizePhoneNumber_fixed in Hp as [He Hl]. unfold E164_DIGITS in He. destruct p as [|c rest]; [done|].
  apply andb_true_iff in He as [He _]. apply andb_true_iff in He as [He _]. apply andb_true_iff in He as [Hc Hr].
  assert (Hd : digits_of (String c rest) = String c rest).
  { apply digits_of_digits. cbn. rewrite Hr, andb_true_r. unfold digit_from in *.
    apply andb_true_iff in Hc as [L1%Z.leb_le L2%Z.leb_le]. apply andb_true_iff. split; apply Z.leb_le; lia. }
  unfold normalizeRecipient. cbn [truthy]. rewrite Hd.
  rewrite (proj2 (Z.ltb_ge _ 8)), (proj2 (Z.ltb_ge 15 _)) by lia. done.
Qed.

(** C33: A media message that the API accepts is one the dispatcher can send: its stored payload and
    recipient map to a request body that carries the stored payload unchanged. *)
Theorem accepted_media_maps dto to payload
    (Hmedia : isMediaMessageType (OutboundMessageType.name (CreateMessageDto.type dto)) = true)
    (Hto : normalizePhoneNumber (CreateMessageDto.to dto) = Ok to) (Hpay : persisted_payload dto = Ok payload) :
  let key := JsString.toLowerCase (OutboundMessageType.name (CreateMessageDto.type dto)) in
  mapMessageToMetaPayload (mapType (CreateMessageDto.type dto)) (Some to) payload = Ok (meta_body to key key payload).
Proof.
  unfold persisted_payload in Hpay. rewrite Hmedia in Hpay.
  destruct (normalizeMediaPayload _ _) as [q|e|] eqn:En; [|by destruct e|done]. injection Hpay as ->.
  destruct (normalizeMediaPayload_fixed _ _ _ En) as (fields & -> & Hfix).
  unfold mapMessageToMetaPayload. rewrite (normalizeRecipient_phone _ _ Hto), exec_bind_ok. cbn [asObject]. rewrite exec_bind_ok.
  destruct (CreateMessageDto.type dto); try discriminate; cbn [mapType OutboundMessageType.name] in *;
    unfold mapMediaMessage; by rewrite Hfix, exec_bind_ok.
Qed.
End create_proofs.

(** ** A document by link *)
Definition https_only : UrlParser := fun s =>
  if String.prefix "https://" s then Some (Url.make s "https:" "" "" "host" "host" "https://host" "/" "" "" []) else None.
Definition document_dto : CreateMessageDto.t :=
  CreateMessageDto.make "+34611111111" OutboundMessageType.DOCUMENT None
    (JObj [("link", JStr " https://host/a.pdf "); ("filename", JStr "a.pdf")])%string None.
Definition document_payload : json :=
  JObj [("link", JStr "https://host/a.pdf"); ("filename", JStr "a.pdf")]%string.

Lemma accepted_media_maps_witness :
  @mapMessageToMetaPayload https_only MessageType.DOCUMENT (Some "34611111111"%string) document_payload =
  Ok (meta_body "34611111111" "document" "document" document_payload).
Proof. apply (@accepted_media_maps https_only document_dto "34611111111" document_payload); reflexivity. Defined.

(** A customer that wrote a moment ago is answered: one message, one event. *)
Definition answer_dto : CreateMessageDto.t :=
  CreateMessageDto.make "+34611111111" OutboundMessageType.TEXT None (JObj [("body", JStr "hi")])%string (Some "k"%string).
Example answer_queued :
  let w := (@Inbound.process gmap_prisma (calm 1700000000000) hello_payload inbound_example).2 in
  let '(r, w1) := @create gmap_prisma (calm 1700000001000) https_only "t" answer_dto None w in
  let '(r2, w2) := @create gmap_prisma (calm 1700000001000) https_only "t" answer_dto None w1 in
  size (rows (outboxEvents w1)) = 1%nat /\ r2 = r /\ size (rows (outboxEvents w2)) = 1%nat.
Proof. vm_compute. auto. Qed.
