(* ===== verification/MediaUploads.v ===== *)
(** Uploads of media: the client of Meta's media endpoint ([meta/meta-media.client.ts]) and the service that
    checks a file, registers it, keeps it and hands it to Meta ([media/media.service.ts]).

    [fetch], the file to upload, [randomUUID] and the validator of UUIDs are parameters. *)
From stdpp Require Import prelude list gmap strings pretty.
From Stdlib Require Import Ascii ZArith Lia SpecFloat.
From S2P Require Import Prelude Float64 Json Numbers Buffers FileHandle Io Signature Prisma Domain Frame Tables Senders Dispatcher Payload Secrets.
From S2P Require Import MediaPolicy Scanner S3Signature Graph MediaStorage Templates Messages.
#[local] Open Scope Z_scope.

(** ** The client *)
Module MetaMediaUploadInput.
Record t := make { filePath : string; mimeType : string; providerFilename : string }.
End MetaMediaUploadInput.
Module MediaPost.
Record t := make { url : Url.t; authorization : string; file : MetaMediaUploadInput.t }.
End MediaPost.
Class MetaMedia := {
  open_blob : nat -> string -> option js_error;
  media_fetch : nat -> MediaPost.t -> js_error + GraphResponse.t
}.

Definition extractMediaId (value : json) : option string :=
  match as_string (prop "id" value) with
  | Some id => if String.eqb (JsString.trim id) "" then None else Some id
  | None => None
  end.

Section client.
Context `{Prisma} `{Environment} `{UrlParser} `{Host} `{GraphApi} `{MetaMedia}.
#[local] Open Scope string_scope.

Definition uploadTimeoutMs : exec js_error f64 :=
  let value := match config "META_MEDIA_UPLOAD_TIMEOUT_MS" with Some text => JsNumber.of_string text | None => f64_of_Z 120000 end in
  if negb (JsNumber.is_finite value) || SFltb value (f64_of_Z 1000) || SFltb (f64_of_Z 600000) value then
    Throws (Error "META_MEDIA_UPLOAD_TIMEOUT_MS must be between 1000 and 600000 milliseconds")
  else Ok value.

(** [fetch]: the file is on its way. *)
Definition post_media (post : MediaPost.t) : io World GraphResponse.t :=
  try_catch
    (fun w => (match media_fetch (tick w) post with inl e => Throws e | inr response => Ok response end,
               bump w <| uploads ::= fun l =>
                 (l ++ [(MetaMediaUploadInput.filePath (MediaPost.file post), MetaMediaUploadInput.mimeType (MediaPost.file post))])%list |>))
    (fun error => throw (MetaApiError (error_message (fun _ => "Meta media upload failed") error) true None None None None)).

Definition uploadMedia (input : MetaMediaUploadInput.t) (sender : MetaSenderContext) : io World string :=
  graphVersion ← lift (required "META_GRAPH_API_VERSION");
  _ ← lift uploadTimeoutMs;
  if negb (is_graph_version graphVersion) then throw (Error "META_GRAPH_API_VERSION must use the format vNN.N") else
  _ ← disk_unit (fun n => open_blob n (MetaMediaUploadInput.filePath input));
  url ← lift (metaGraphUrl (graphVersion ++ "/" ++ encodeURIComponent (phoneNumberId sender) ++ "/media"));
  response ← post_media (MediaPost.make url ("Bearer " ++ accessToken sender) input);
  let responseBody := readResponse response in
  let status := GraphResponse.status response in
  if negb (response_ok response) then
    let metaError := extractMetaError responseBody in
    throw (MetaApiError (default ("Meta API returned HTTP " ++ pretty status) (MetaError.message metaError))
             (isRetryable status (MetaError.code metaError)) (MetaError.code metaError) (MetaError.subcode metaError)
             (Some status) (Some responseBody))
  else
    match extractMediaId responseBody with
    | None => throw (MetaApiError "Meta API response did not include a media id" false None None (Some status) (Some responseBody))
    | Some mediaId => mret mediaId
    end.
End client.

(** ** The service *)
Definition DEFAULT_MEDIA_ASSET_TTL_DAYS : Z := 30.
Definition MAX_MEDIA_ASSET_TTL_DAYS : Z := 3650.
Definition MEDIA_ASSET_LIST_LIMIT : nat := 100.
Definition DAY_MS : Z := 24 * 60 * 60 * 1000.

Module StoredMediaUploadFile.
Record t := make { path : string; mimetype : string; size : Z }.
End StoredMediaUploadFile.

(** The uploaded file while it is checked, [node:crypto] and [class-validator]. *)
Class UploadHost := {
  upload_file : nat -> string -> js_error + FileHandle;
  randomUUID : nat -> string;
  isUUID4 : string -> bool
}.

(** [@@unique([tenantId, providerMediaId])], [@@unique([tenantId, storageKey])] *)
Definition same_some (a b : option string) : bool := match a, b with Some x, Some y => bool_decide (x = y) | _, _ => false end.
Definition media_unique : constraint MediaAsset.t := fun a b =>
  bool_decide (MediaAsset.tenantId a = MediaAsset.tenantId b) &&
  (same_some (MediaAsset.providerMediaId a) (MediaAsset.providerMediaId b) || same_some (MediaAsset.storageKey a) (MediaAsset.storageKey b)).

Module MediaAssetResponse.
Record t := make {
  assetId : string; mediaId : option string; senderId : string; category : string; mimeType : string; size : Z; scanMode : string;
  scanStatus : string; storageMode : string; binaryRetained : bool; storedAt : option Z; state : string; providerUploadedAt : option Z;
  expiresAt : option Z; failedAt : option Z; failureCode : option string; createdAt : Z }.
End MediaAssetResponse.
Module MediaUploadResult.
Record t := make { mediaId : option string; senderId : string; category : string; mimeType : string; size : Z }.
End MediaUploadResult.

(** [try { m } finally { f }] when [f] does not throw. *)
Definition finally {W A} (m : io W A) (f : io W ()) : io W A := fun w =>
  let '(r, w') := m w in
  match f w' with (Ok _, w'') => (r, w'') | (Throws e, w'') => (Throws e, w'') | (OutOfFuel, w'') => (OutOfFuel, w'') end.

Section service.
Context `{Prisma} `{Environment} `{UrlParser} `{Host} `{GraphApi} `{MetaMedia} `{MediaDisk} `{ObjectStore} `{ScannerNetwork} `{UploadHost}.
#[local] Open Scope string_scope.

Definition readSenderId (fields : list (string * json)) : exec js_error (option string) :=
  let unsupported := filter (fun key => key <> "senderId") fields.*1 in
  if (0 <? length unsupported)%nat then
    Throws (BadRequestException ("Unsupported multipart field" ++ (if (length unsupported =? 1)%nat then "" else "s") ++ ": " ++ join ", " unsupported))
  else
    match field "senderId" fields with
    | None | Some (JStr "") => Ok None
    | Some (JStr senderId) =>
        if isUUID4 senderId then Ok (Some senderId) else Throws (BadRequestException "senderId must be a UUID v4 when provided")
    | Some _ => Throws (BadRequestException "senderId must be a UUID v4 when provided")
    end.

Definition readAssetTtlDays : exec js_error Z :=
  read_integer (process_env "MEDIA_ASSET_TTL_DAYS") DEFAULT_MEDIA_ASSET_TTL_DAYS 1 MAX_MEDIA_ASSET_TTL_DAYS
    (ServiceUnavailableException "Media asset registry configuration is invalid").
Definition scanEvidence : string * string := if scan_mode =? "clamav" then ("CLAMAV", "CLEAN") else ("DISABLED", "NOT_SCANNED").
Definition metaFailureCode (code subcode httpStatus : option Z) : string :=
  match code, httpStatus with
  | Some code, _ => "META_" ++ pretty code ++ match subcode with Some s => "_" ++ pretty s | None => "" end
  | None, Some status => "HTTP_" ++ pretty status
  | None, None => "META_API_ERROR"
  end.

(** *** The errors of the checks, as answers *)
Definition policy_error (error : js_error) : js_error :=
  match error with
  | MediaUploadPolicyError message reason => if reason =? "FILE_TOO_LARGE" then PayloadTooLargeException message else BadRequestException message
  | _ => error
  end.
Definition signature_error (error : js_error) : js_error :=
  match error with MediaContentSignatureError _ => BadRequestException (error_message string_of error) | _ => error end.
Definition storage_error (error : js_error) : js_error :=
  match error with MediaBinaryStorageError _ => ServiceUnavailableException "Media binary storage is unavailable" | _ => error end.
Definition scan_error (error : js_error) : js_error :=
  match error with
  | MediaMalwareScanError reason _ =>
      if reason =? "MALWARE_DETECTED" then UnprocessableEntityException "Media file was rejected by security scanning"
      else ServiceUnavailableException "Media security scanning is unavailable"
  | _ => error
  end.
(** [try { m } catch (error) { throw f(error) }] *)
Definition or_throw {A} (f : js_error -> js_error) (m : io World A) : io World A := try_catch m (fun error => throw (f error)).

(** *** The checks before anything is stored *)
Record Admission := {
  admitted_policy : MediaUploadPolicy; admitted_id : string; admitted_target : MediaBinaryStorageTarget;
  admitted_until : Z; admitted_sender : MetaSenderContext; admitted_sender_id : string }.
Definition check_upload (tenantId : string) (fields : list (string * json)) (file : StoredMediaUploadFile.t) : io World Admission :=
  senderId ← lift (readSenderId fields);
  policy ← or_throw policy_error (lift (resolveMediaUploadPolicy (StoredMediaUploadFile.mimetype file) (StoredMediaUploadFile.size file)));
  match policy with
  | None => throw (Error "Cannot read properties of undefined (reading 'trim')")
  | Some policy =>
      _ ← or_throw signature_error
            (handle ← disk (fun n => upload_file n (StoredMediaUploadFile.path file));
             lift (assertMediaContentSignature handle (policy_mimeType policy)));
      assetId ← (fun w => (Ok (randomUUID (tick w)), bump w));
      storageTarget ← or_throw storage_error (lift (targetFor tenantId assetId));
      _ ← or_throw storage_error (assertCapacityFor (StoredMediaUploadFile.size file));
      _ ← or_throw scan_error (scan (StoredMediaUploadFile.path file));
      ttlDays ← lift readAssetTtlDays;
      now ← now;
      sender ← resolveContextForTenant tenantId senderId;
      match truthy (internalSenderId sender) with
      | None => throw (Error "Tenant-scoped Meta sender resolution did not return an internal sender ID")
      | Some id =>
          mret {| admitted_policy := policy; admitted_id := assetId; admitted_target := storageTarget;
                  admitted_until := (now + ttlDays * DAY_MS)%Z; admitted_sender := sender; admitted_sender_id := id |}
      end
  end.

(** *** The register *)
Definition new_asset (tenantId : string) (file : StoredMediaUploadFile.t) (a : Admission) (createdAt : Z) : MediaAsset.t :=
  {| MediaAsset.tenantId := tenantId; MediaAsset.senderId := admitted_sender_id a; MediaAsset.providerMediaId := None;
     MediaAsset.category := category_name (category (admitted_policy a)); MediaAsset.mimeType := policy_mimeType (admitted_policy a);
     MediaAsset.size := StoredMediaUploadFile.size file; MediaAsset.scanMode := scanEvidence.1; MediaAsset.scanStatus := scanEvidence.2;
     MediaAsset.storageMode := mode_name (target_mode (admitted_target a)); MediaAsset.storageKey := target_key (admitted_target a);
     MediaAsset.storedAt := None; MediaAsset.providerUploadedAt := None; MediaAsset.expiresAt := Some (admitted_until a);
     MediaAsset.failedAt := None; MediaAsset.failureCode := None; MediaAsset.createdAt := createdAt; MediaAsset.updatedAt := createdAt |}.
Definition asset_create (id : string) (asset : MediaAsset.t) : io World () :=
  db (fun w => t ← createAt media_unique id asset (mediaAssets w); Some (tt, w <| mediaAssets := t |>)).
Definition stored_data (storedAt updatedAt : Z) (a : MediaAsset.t) : MediaAsset.t :=
  a <| MediaAsset.storedAt := Some storedAt |> <| MediaAsset.updatedAt := updatedAt |>.
Definition failed_data (failureCode : string) (failedAt updatedAt : Z) (a : MediaAsset.t) : MediaAsset.t :=
  a <| MediaAsset.failedAt := Some failedAt |> <| MediaAsset.failureCode := Some failureCode |> <| MediaAsset.updatedAt := updatedAt |>.
Definition completed_data (mediaId : string) (uploadedAt updatedAt : Z) (a : MediaAsset.t) : MediaAsset.t :=
  a <| MediaAsset.providerMediaId := Some mediaId |> <| MediaAsset.providerUploadedAt := Some uploadedAt |>
    <| MediaAsset.failedAt := None |> <| MediaAsset.failureCode := None |> <| MediaAsset.updatedAt := updatedAt |>.
(** [where: { id, providerMediaId: null, failedAt: null }] of an [update]: refused when the row does not match. *)
Definition unfinished (a : MediaAsset.t) : bool :=
  bool_decide (MediaAsset.providerMediaId a = None) && bool_decide (MediaAsset.failedAt a = None).
Definition asset_complete (id : string) (f : MediaAsset.t -> MediaAsset.t) : io World MediaAsset.t :=
  db (fun w => if from_option unfinished false (row id w) then
                 t ← Prisma.update media_unique id f (mediaAssets w); a ← rows t !! id; Some (a, w <| mediaAssets := t |>)
               else None).

Definition markAssetFailed (assetId failureCode : string) : io World () :=
  try_catch (failedAt ← now; updatedAt ← now; _ ← update_row media_unique assetId (failed_data failureCode failedAt updatedAt); mret tt)
    (fun _ => mret tt).

Definition unavailable {A} (message : string) (m : io World A) : io World A := or_throw (fun _ => ServiceUnavailableException message) m.

(** *** Handing the file to Meta *)
Definition send_to_meta (a : Admission) (staged : StagedMediaBinary) : io World MediaUploadResult.t :=
  mediaId ← uploadMedia (MetaMediaUploadInput.make (filePath staged) (policy_mimeType (admitted_policy a)) (providerFilename (admitted_policy a)))
              (admitted_sender a);
  providerUploadedAt ← now;
  completed ← unavailable "Media asset registry finalization failed"
                (updatedAt ← now; asset_complete (admitted_id a) (completed_data mediaId providerUploadedAt updatedAt));
  mret (MediaUploadResult.make (MediaAsset.providerMediaId completed) (MediaAsset.senderId completed) (MediaAsset.category completed)
          (MediaAsset.mimeType completed) (MediaAsset.size completed)).
Definition send_failed (assetId : string) (error : js_error) : io World MediaUploadResult.t :=
  match error with
  | ServiceUnavailableException _ => throw error
  | MetaApiError _ retryable code subcode httpStatus _ =>
      _ ← markAssetFailed assetId (metaFailureCode code subcode httpStatus);
      throw (if retryable then ServiceUnavailableException "Meta media upload is temporarily unavailable"
             else BadGatewayException "Meta rejected the media upload")
  | _ => _ ← markAssetFailed assetId "UPLOAD_ERROR"; throw error
  end.

Definition stage_asset (a : Admission) (path : string) : io World StagedMediaBinary :=
  try_catch (stage path (admitted_target a))
    (fun error => _ ← markAssetFailed (admitted_id a) "STORAGE_ERROR"; throw (storage_error error)).
Definition record_stored (assetId : string) (staged : StagedMediaBinary) : io World () :=
  match storedAt staged with
  | None => mret tt
  | Some storedAt =>
      try_catch (updatedAt ← now; _ ← update_row media_unique assetId (stored_data storedAt updatedAt); mret tt)
        (fun _ => _ ← markAssetFailed assetId "STORAGE_METADATA_ERROR";
                  throw (ServiceUnavailableException "Media asset registry finalization failed"))
  end.

Definition register_and_send (tenantId : string) (file : StoredMediaUploadFile.t) (a : Admission) : io World MediaUploadResult.t :=
  _ ← unavailable "Media asset registry is temporarily unavailable"
        (createdAt ← now; asset_create (admitted_id a) (new_asset tenantId file a createdAt));
  staged ← stage_asset a (StoredMediaUploadFile.path file);
  _ ← record_stored (admitted_id a) staged;
  try_catch (send_to_meta a staged) (send_failed (admitted_id a)).

Definition has_path (file : option StoredMediaUploadFile.t) : option StoredMediaUploadFile.t :=
  match file with Some f => if StoredMediaUploadFile.path f =? "" then None else Some f | None => None end.
Definition upload (tenantId : string) (fields : list (string * json)) (file : option StoredMediaUploadFile.t) : io World MediaUploadResult.t :=
  match has_path file with
  | None => throw (BadRequestException "Multipart field 'file' is required")
  | Some file =>
      finally (a ← check_upload tenantId fields file; register_and_send tenantId file a)
        (try_catch (rm (StoredMediaUploadFile.path file)) (fun _ => mret tt))
  end.

(** *** Reading the register *)
Definition state_of (a : MediaAsset.t) (now : Z) : string :=
  match truthy (MediaAsset.failureCode a), truthy (MediaAsset.providerMediaId a) with
  | Some _, _ => "FAILED"
  | None, Some _ => match MediaAsset.expiresAt a with Some e => if e <=? now then "EXPIRED" else "ACTIVE" | None => "ACTIVE" end
  | None, None => "UPLOADING"
  end%Z.
Definition toResponse (asset : string * MediaAsset.t) (now : Z) : MediaAssetResponse.t :=
  let a := asset.2 in
  MediaAssetResponse.make asset.1 (MediaAsset.providerMediaId a) (MediaAsset.senderId a) (MediaAsset.category a) (MediaAsset.mimeType a)
    (MediaAsset.size a) (MediaAsset.scanMode a) (MediaAsset.scanStatus a) (MediaAsset.storageMode a)
    (bool_decide (is_Some (truthy (MediaAsset.storageKey a))) && bool_decide (is_Some (MediaAsset.storedAt a))) (MediaAsset.storedAt a)
    (state_of a now) (MediaAsset.providerUploadedAt a) (MediaAsset.expiresAt a) (MediaAsset.failedAt a) (MediaAsset.failureCode a)
    (MediaAsset.createdAt a).

Definition created_last (a b : string * MediaAsset.t) : Prop := (MediaAsset.createdAt b.2 <= MediaAsset.createdAt a.2)%Z.
#[export] Instance created_last_dec : RelDecision created_last.
Proof. intros a b. unfold created_last. apply _. Defined.
Definition list_assets (tenantId : string) : io World (list MediaAssetResponse.t) :=
  assets ← db (fun w => Some (findPage (fun _ a => bool_decide (MediaAsset.tenantId a = tenantId)) created_last None 0
                                MEDIA_ASSET_LIST_LIMIT (mediaAssets w), w));
  now ← now;
  mret ((fun a => toResponse a now) <$> assets).
Definition findById (tenantId assetId : string) : io World MediaAssetResponse.t :=
  if negb (isUUID4 assetId) then throw (NotFoundException "Media asset not found") else
  asset ← find_row (of_tenant MediaAsset.tenantId assetId tenantId);
  match asset with
  | None => throw (NotFoundException "Media asset not found")
  | Some asset => now ← now; mret (toResponse asset now)
  end.
End service.

(** ** What the checks grant *)
(** [w] differs from [w0] in nothing but its tick. *)
Definition still `{Prisma} (w0 w : World) : Prop := exists n, w = w0 <| tick := n |>.

Section grants.
Context `{Prisma} `{Environment} (w0 : World).

(** From such a state [m] comes back to one, and what it returns satisfies [P]. *)
Definition grants {A} (m : io World A) (P : A -> Prop) : Prop := forall w, still w0 w ->
  wp m (fun r w' => r <> OutOfFuel /\ still w0 w' /\ forall a, r = Ok a -> P a) w.

Lemma still_bump w : still w0 w -> still w0 (bump w).
Proof. intros [n ->]. by eexists. Qed.
Lemma grants_ret {A} (a : A) (P : A -> Prop) : P a -> grants (mret a) P.
Proof. intros HP w Hw. apply wp_ret. split; [done|]. split; [done|]. by intros b [= <-]. Qed.
Lemma grants_throw {A} e (P : A -> Prop) : grants (throw e) P.
Proof. intros w Hw. by apply wp_throw. Qed.
Lemma grants_lift {A} (x : exec js_error A) (P : A -> Prop) : x <> OutOfFuel -> (forall a, x = Ok a -> P a) -> grants (lift x) P.
Proof. intros Hx HP w Hw. by apply wp_lift. Qed.
Lemma grants_tick {A} (f : World -> exec js_error A) (P : A -> Prop) :
  (forall w, f w <> OutOfFuel) -> (forall w a, f w = Ok a -> P a) -> grants (fun w => (f w, bump w)) P.
Proof. intros Hx HP w Hw. split; [apply Hx|]. split; [by apply still_bump|]. apply HP. Qed.
Lemma grants_now (P : Z -> Prop) : (forall t, P t) -> grants now P.
Proof. intros HP. apply (grants_tick (fun w => Ok (clock (tick w)))); [done|]. intros w a _. apply HP. Qed.
Lemma grants_bind {A B} (m : io World A) (f : A -> io World B) (P : A -> Prop) Q :
  grants m P -> (forall a, P a -> grants (f a) Q) -> grants (m ≫= f) Q.
Proof.
  intros Hm Hf w Hw. apply wp_bind. eapply wp_mono; [by apply Hm|]. intros [a|e|] w1 (Hr & Hw1 & HP); [|by split|done].
  apply Hf; [by apply HP|done].
Qed.
Lemma grants_try {A} (m : io World A) h (P : A -> Prop) : grants m P -> (forall e, grants (h e) P) -> grants (try_catch m h) P.
Proof.
  intros Hm Hh w Hw. apply wp_try. eapply wp_mono; [by apply Hm|]. intros [a|e|] w1 (Hr & Hw1 & HP); [by split| |done]. by apply Hh.
Qed.
Lemma grants_or_throw {A} f (m : io World A) (P : A -> Prop) : grants m P -> grants (or_throw f m) P.
Proof. intros Hm. apply grants_try; [done|]. intros e. apply grants_throw. Qed.
Lemma grants_mono {A} (m : io World A) (P Q : A -> Prop) : grants m P -> (forall a, P a -> Q a) -> grants m Q.
Proof. intros Hm HPQ w Hw. eapply wp_mono; [by apply Hm|]. intros r w' (? & ? & HP). split; [done|]. split; [done|]. auto. Qed.
Lemma grants_wp {A} (m : io World A) (P : A -> Prop) w :
  grants m P -> w = w0 -> wp m (fun r w' => r <> OutOfFuel /\ still w w' /\ forall a, r = Ok a -> P a) w.
Proof. intros Hm ->. apply Hm. exists (tick w0). by destruct w0. Qed.
End grants.

Section checks.
Context `{Prisma} `{Environment} `{UrlParser} `{Host} `{GraphApi} `{MetaMedia} `{MediaDisk} `{ObjectStore} `{ScannerNetwork} `{UploadHost}.

(** The disk had room for the file when it was asked. *)
Definition has_room (size : Z) : Prop := mode = Ok FILESYSTEM ->
  exists n root fs, filesystemRoot = Ok root /\ disk_statfs n root = inr fs /\ 0 <= size <= bavail fs * bsize fs.

Lemma grants_disk {A} w0 (f : nat -> js_error + A) : grants w0 (disk f) (fun a => exists n, f n = inr a).
Proof.
  apply (grants_tick w0 (fun w => match f (tick w) with inl e => Throws e | inr a => Ok a end)); intros w; [by destruct (f _)|].
  intros a Ha. exists (tick w). destruct (f (tick w)); [done|]. by injection Ha as ->.
Qed.
Lemma grants_disk_unit w0 (f : nat -> option js_error) : grants w0 (disk_unit f) (fun _ => True).
Proof. apply (grants_tick w0 (fun w => match f (tick w) with Some e => Throws e | None => Ok tt end)); intros w; by destruct (f _). Qed.

Lemma mode_returns : mode <> OutOfFuel.
Proof. unfold mode. by repeat case_match. Qed.
Lemma percent_returns : readMinimumFreePercent <> OutOfFuel.
Proof. unfold readMinimumFreePercent. by repeat case_match. Qed.
Lemma targetFor_returns T id : targetFor T id <> OutOfFuel.
Proof.
  unfold targetFor. pose proof mode_returns. destruct mode as [m|e|]; cbn; [|done|done]. destruct m; [done| |].
  - pose proof filesystemRoot_returns. destruct filesystemRoot as [root|e|]; cbn; [|done|done].
    pose proof (pathForKey_returns root (T +:+ "/" +:+ id)). by destruct (pathForKey _ _).
  - pose proof configuration_returns. by destruct configuration.
Qed.

Lemma assertCapacityFor_grants w0 size : grants w0 (assertCapacityFor size) (fun _ => has_room size).
Proof.
  unfold assertCapacityFor. eapply grants_bind; [apply grants_lift; [apply mode_returns|intros m Hm; exact Hm]|].
  intros m Hm. destruct m; [apply grants_ret; unfold has_room; congruence| |apply grants_ret; unfold has_room; congruence].
  eapply grants_bind; [apply grants_lift; [apply filesystemRoot_returns|intros root Hr; exact Hr]|]. intros root Hr.
  eapply (grants_bind _ _ _ (fun _ => True)); [apply grants_lift; [apply read_integer_returns|done]|]. intros minBytes _.
  eapply (grants_bind _ _ _ (fun _ => True)); [apply grants_lift; [apply percent_returns|done]|]. intros minPercent _.
  apply grants_try; [|intros e; apply grants_throw].
  eapply (grants_bind _ _ _ (fun cd => allowed cd.2 = true -> has_room size)).
  2:{ intros [c d] Hd. destruct (allowed d) eqn:Ea; cbn [negb]; [apply grants_ret; by apply Hd|apply grants_throw]. }
  unfold measure. eapply grants_bind; [apply grants_disk|]. intros st _. destruct (negb (isDirectory st)); [apply grants_throw|].
  eapply grants_bind; [apply grants_disk_unit|]. intros [] _. eapply grants_bind; [apply grants_disk|]. intros fs [n Hfs].
  destruct (evaluateMediaStorageCapacity _) as [msg|d] eqn:Ed; [apply grants_throw|]. apply grants_ret. cbn [snd].
  intros Ha _. pose proof (allowed_fits _ _ Ed Ha) as (? & _). cbn in *. by exists n, root, fs.
Qed.

Lemma scan_grants w0 path : grants w0 (scan path) (fun _ => clean path).
Proof.
  intros w Hw. destruct (scan_spec path w) as (r & n & E & Hr & Hc). unfold wp. rewrite E. cbn. split; [done|].
  destruct Hw as [n0 ->]. split; [by exists n|]. intros [] ->. by apply Hc.
Qed.

Lemma still_view `(w' : World) w : w' <| tick := 0%nat |> = w <| tick := 0%nat |> -> still w w'.
Proof. intros E. exists (tick w'). destruct w, w'. unfold set in *. cbn in *. injection E. intros. by subst. Qed.

Lemma sender_grants w0 T s : grants w0 (resolveContextForTenant T s) (fun sender =>
  exists k x, internalSenderId sender = Some k /\ phoneNumberId sender = Sender.providerPhoneNumberId x /\
    rows (senders w0) !! k = Some x /\ Sender.tenantId x = T /\ Sender.active x = true).
Proof.
  unfold resolveContextForTenant. eapply (grants_bind _ _ _ (fun kx => rows (senders w0) !! kx.1 = Some kx.2 /\ Sender.tenantId kx.2 = T /\ Sender.active kx.2 = true)).
  - intros w [n ->]. pose proof (resolveForTenant_spec T s (w0 <| tick := n |>)) as (Hn & _ & Hs). split; [exact Hn|].
    split; [|intros [k x] E; exact (Hs k x E)].
    pose proof (resolveForTenant_reads (fun w => w <| tick := 0%nat |>) (fun _ _ => eq_refl) T s (w0 <| tick := n |>)) as Hf.
    apply still_view. exact Hf.
  - intros [k x] Hx. cbn [fst snd] in Hx. unfold toSenderContext.
    eapply (grants_bind _ _ _ (fun _ => True)); [|intros token _; apply grants_ret; exists k, x; by split].
    intros w [n ->]. split; [apply resolve_returns|]. split; [|done]. apply still_view.
    exact (resolve_reads (fun w => w <| tick := 0%nat |>) (fun _ _ => eq_refl) _ (w0 <| tick := n |>)).
Qed.

(** Everything a file went through before it is registered. *)
Definition admitted (T : string) (file : StoredMediaUploadFile.t) (w : World) (a : Admission) : Prop :=
  let p := admitted_policy a in
  resolveMediaUploadPolicy (StoredMediaUploadFile.mimetype file) (StoredMediaUploadFile.size file) = Ok (Some p) /\
  (exists n h, upload_file n (StoredMediaUploadFile.path file) = inr h /\ assertMediaContentSignature h (policy_mimeType p) = Ok tt) /\
  has_room (StoredMediaUploadFile.size file) /\ clean (StoredMediaUploadFile.path file) /\
  targetFor T (admitted_id a) = Ok (admitted_target a) /\
  exists s, rows (senders w) !! admitted_sender_id a = Some s /\ Sender.tenantId s = T /\ Sender.active s = true /\
    phoneNumberId (admitted_sender a) = Sender.providerPhoneNumberId s.

Lemma readSenderId_returns fields : readSenderId fields <> OutOfFuel.
Proof. unfold readSenderId. by repeat case_match. Qed.
Lemma resolveMediaUploadPolicy_returns mimeType size : resolveMediaUploadPolicy mimeType size <> OutOfFuel.
Proof. unfold resolveMediaUploadPolicy. by repeat case_match. Qed.
Lemma assertMediaContentSignature_returns h mimeType : assertMediaContentSignature h mimeType <> OutOfFuel.
Proof. destruct (assertMediaContentSignature_spec h mimeType) as (b & -> & _). by destruct b. Qed.

Lemma checks_grant w0 T fields file : grants w0 (check_upload T fields file) (admitted T file w0).
Proof.
  unfold check_upload. eapply (grants_bind _ _ _ (fun _ => True)); [apply grants_lift; [apply readSenderId_returns|done]|]. intros senderId _.
  eapply grants_bind; [apply grants_or_throw, grants_lift; [apply resolveMediaUploadPolicy_returns|intros p Hp; exact Hp]|].
  intros [p|] Hp; [|apply grants_throw].
  eapply (grants_bind _ _ _ (fun _ => exists n h, upload_file n (StoredMediaUploadFile.path file) = inr h /\
    assertMediaContentSignature h (policy_mimeType p) = Ok tt)).
  { apply grants_or_throw. eapply grants_bind; [apply grants_disk|]. intros h [n Hn].
    apply grants_lift; [apply assertMediaContentSignature_returns|]. intros [] Hs. by exists n, h. }
  cbn beta. intros [] Hsig. eapply (grants_bind _ _ _ (fun _ => True)); [by apply (grants_tick w0 (fun w => Ok (randomUUID (tick w))))|]. intros id _.
  eapply grants_bind; [apply grants_or_throw, grants_lift; [apply targetFor_returns|intros t Ht; exact Ht]|]. intros target Ht.
  eapply grants_bind; [apply grants_or_throw, assertCapacityFor_grants|]. intros [] Hroom.
  eapply grants_bind; [apply grants_or_throw, scan_grants|]. intros [] Hclean.
  eapply (grants_bind _ _ _ (fun _ => True)); [apply grants_lift; [apply read_integer_returns|done]|]. intros ttl _.
  eapply (grants_bind _ _ _ (fun _ => True)); [by apply grants_now|]. intros t _.
  eapply grants_bind; [apply sender_grants|]. intros sender (k & s & Hk & Hph & Hs & HT & Ha).
  rewrite Hk. destruct (truthy (Some k)) as [k'|] eqn:Ek; [|apply grants_throw]. apply truthy_key in Ek as [[= <-] _].
  apply grants_ret. unfold admitted. cbn. repeat (split; [done|]). by exists s.
Qed.
End checks.

(** ** The register *)
Section register.
Context `{Prisma} `{Environment} `{UrlParser} `{Host} `{GraphApi} `{MetaMedia} `{MediaDisk} `{ObjectStore} `{ScannerNetwork} `{UploadHost}.

(** An update that fails may have been made. *)
Lemma update_row_cases {R} `{!Table R} c k (f : R -> R) w :
  wp (update_row c k f) (fun r w' => exists n,
    (w' = w <| tick := n |> /\ exists e, r = Throws e) \/
    (exists t x, row k w = Some x /\ rows t = <[k := f x]> (rows (tbl w)) /\ w' = set_tbl t w <| tick := n |> /\
       (r = Ok (f x) \/ exists e, r = Throws e))) w.
Proof.
  match goal with |- wp _ ?Q _ => change (wp (db_known (match row k w with Some _ => "P2002"%string | None => "P2025"%string end)
    (fun w => t ← Prisma.update c k f (tbl w); r ← rows t !! k; Some (r, set_tbl t w))) Q w) end.
  apply wp_db_known; [intros e; exists (S (tick w)); left; by split; [|eexists]|intros _ e; exists (S (tick w)); left; by split; [|eexists]|].
  intros a w' Hu. apply bind_Some in Hu as (t & Hu & Ha). apply bind_Some in Ha as (x' & Ha & [= <- <-]).
  unfold bump in *. rewrite tbl_tick in Hu. apply update_some in Hu as (x & Hx & Ht & _).
  rewrite Ht, lookup_insert_eq in Ha. injection Ha as <-.
  split; [intros e|]; (exists (S (tick w)); right; exists t, x; rewrite set_tick; repeat (split; [done|])); [right; by eexists|by left].
Qed.

(** The assets and the uploads of a world, against those of [w0]: one asset more, and what was handed to Meta. *)
Definition entry (w0 : World) (id : string) (a : MediaAsset.t) (sent : list (string * string)) (w : World) : Prop :=
  rows (mediaAssets w) = <[id := a]> (rows (mediaAssets w0)) /\ uploads w = uploads w0 ++ sent.
(** What an upload decides about its asset once and for all. *)
Definition static (a : MediaAsset.t) :=
  (MediaAsset.tenantId a, MediaAsset.senderId a, MediaAsset.category a, MediaAsset.mimeType a, MediaAsset.size a, MediaAsset.scanMode a,
   MediaAsset.scanStatus a, MediaAsset.storageMode a, MediaAsset.storageKey a, MediaAsset.expiresAt a, MediaAsset.createdAt a).
(** The asset of [id], as far as it matters before Meta has answered. *)
Definition pending (w0 : World) (id : string) (a0 : MediaAsset.t) (sent : list (string * string)) (w : World) : Prop :=
  exists a, entry w0 id a sent w /\ static a = static a0 /\ MediaAsset.providerMediaId a = None.

Context (w0 : World) (id : string) (a0 : MediaAsset.t).

Lemma pending_tick sent w n : pending w0 id a0 sent w -> pending w0 id a0 sent (w <| tick := n |>).
Proof. done. Qed.
Lemma pending_update f sent w : (forall a, static (f a) = static a /\ MediaAsset.providerMediaId (f a) = MediaAsset.providerMediaId a) ->
  pending w0 id a0 sent w -> wp (update_row media_unique id f) (fun r w' => r <> OutOfFuel /\ pending w0 id a0 sent w') w.
Proof.
  intros Hf (a & [Ha Hu] & Hs & Hp). eapply wp_mono; [apply update_row_cases|].
  intros r w' [n [[-> [e ->]]|(t & x & Hx & Ht & -> & Hr)]]; [by split; [|exists a]|].
  split; [by destruct Hr as [->|[e ->]]|]. unfold row in Hx. cbn in Hx, Ht. rewrite Ha, lookup_insert_eq in Hx. injection Hx as <-.
  exists (f a). split; [split; [cbn; by rewrite Ht, Ha, insert_insert_eq|exact Hu]|]. destruct (Hf a) as [-> ->]. by split.
Qed.
Lemma markAssetFailed_pending code sent w : pending w0 id a0 sent w ->
  wp (markAssetFailed id code) (fun r w' => r = Ok tt /\ pending w0 id a0 sent w') w.
Proof.
  intros Hp. unfold markAssetFailed. apply wp_try, wp_bind, wp_now. intros t1. apply wp_bind, wp_now. intros t2.
  apply wp_bind. eapply wp_mono; [apply pending_update; [|exact Hp]; done|].
  intros [a|e|] w' (Hr & Hp'); [by apply wp_ret|by apply wp_ret|done].
Qed.

Lemma stage_pending sent source target w : pending w0 id a0 sent w ->
  wp (stage source target) (fun _ w' => pending w0 id a0 sent w') w.
Proof. intros Hp. pose proof (stage_at source target w) as [(f & o & n & E) _]. unfold wp. by rewrite E. Qed.

(** *** Staging, sending and completing *)
(** The file that goes to Meta: the stored copy when there is one, else the uploaded file. *)
Definition handed (target : MediaBinaryStorageTarget) (source path : string) : Prop :=
  match target_mode target with
  | FILESYSTEM => location "FILESYSTEM" (target_key target) = Some (inl path)
  | DISABLED | S3 => path = source
  end.
Lemma putObject_returns key path : returns (putObject key path).
Proof.
  unfold putObject, hashFile, signedRequest. returns_steps; try (apply returns_lift; first [apply configuration_returns|apply objectUrl_returns]).
  - intros w1. cbn. by destruct (disk_stat _ _).
  - intros w1. cbn. by destruct (disk_read _ _).
  - intros w1. unfold s3_fetch. cbn. by destruct (s3_answer _ _).
Qed.
Lemma stage_returns source target : returns (stage source target).
Proof.
  unfold stage. returns_steps; try (apply returns_lift; first [apply filesystemRoot_returns|apply pathForKey_returns]); try apply putObject_returns.
  - intros w1. cbn. by destruct (disk_mkdir _ _).
  - intros w1. unfold copy_exclusive. case_bool_decide; [done|]. by destruct (disk_copy _ _ _) as [b [e|]].
  - intros w1. unfold rm. by destruct (disk_rm _ _).
Qed.
Lemma stage_handed source target w :
  wp (stage source target) (fun r _ => r <> OutOfFuel /\ forall s, r = Ok s -> handed target source (filePath s)) w.
Proof.
  split; [apply stage_returns|]. intros s. destruct target as [m key]. unfold stage, handed. cbn [target_mode target_key]. destruct m.
  - by intros [= <-].
  - destruct (truthy key) as [k|] eqn:E; [|done]. apply truthy_key in E as [-> Hk]. unfold mbind, io_bind, lift.
    destruct filesystemRoot as [root|e|] eqn:Hr; [|done..]. destruct (pathForKey root k) as [path|e|] eqn:Hp; [|done..].
    rewrite (location_file _ _ _ Hk Hr Hp). destruct (try_catch _ _ w) as [[[]|e|] w1]; [|done..]. cbn. by intros [= <-].
  - destruct (truthy key) as [k|] eqn:E; [|done]. unfold try_catch, mbind, io_bind. destruct (putObject k source w) as [[t|e|] w1]; [|done..].
    cbn. by intros [= <-].
Qed.

Definition after_send (input : MetaMediaUploadInput.t) (w : World) : World :=
  w <| uploads ::= fun l => l ++ [(MetaMediaUploadInput.filePath input, MetaMediaUploadInput.mimeType input)] |>.
(** Meta is handed the file once, or not at all and then the upload fails. *)
Lemma uploadMedia_spec input sender w :
  wp (uploadMedia input sender) (fun r w' => r <> OutOfFuel /\
    ((still w w' /\ exists e, r = Throws e) \/ exists n, w' = after_send input w <| tick := n |>)) w.
Proof.
  assert (Hstop : forall e w', still w w' -> (Throws e : exec js_error string) <> OutOfFuel /\
    ((still w w' /\ exists e', (Throws e : exec js_error string) = Throws e') \/ exists n, w' = after_send input w <| tick := n |>)) by (intros e w' Hw'; split; [done|left; split; [done|by eexists]]).
  assert (Hw : still w w) by (exists (tick w); by destruct w).
  unfold uploadMedia. pose proof (required_total "META_GRAPH_API_VERSION") as Ht. apply wp_bind, wp_lift.
  destruct (required _) as [version|e|]; [|by apply Hstop|done].
  apply wp_bind, wp_lift. assert (Htm : uploadTimeoutMs <> OutOfFuel) by (unfold uploadTimeoutMs; by destruct (_ || _)).
  destruct uploadTimeoutMs as [tm|e|]; [|by apply Hstop|done].
  destruct (negb _); [by apply wp_throw, Hstop|]. apply wp_bind. unfold wp at 1, disk_unit. cbn [fst snd].
  destruct (open_blob _ _) as [e|]; [apply Hstop, still_bump, Hw|]. apply wp_bind, wp_lift.
  pose proof (metaGraphUrl_total (version +:+ "/" +:+ encodeURIComponent (phoneNumberId sender) +:+ "/media")) as Hg.
  destruct (metaGraphUrl _) as [url|e|]; [|apply Hstop, still_bump, Hw|done].
  apply wp_bind. unfold wp at 1, post_media, try_catch. cbn [fst snd].
  assert (Hsent : exists n, bump (bump w) <| uploads ::= fun l => l ++ [(MetaMediaUploadInput.filePath input, MetaMediaUploadInput.mimeType input)] |> = after_send input w <| tick := n |>) by (by eexists).
  destruct (media_fetch _ _) as [e|response]; cbn [fst snd]; [split; [done|by right]|].
  destruct (negb (response_ok response)); [apply wp_throw; split; [done|by right]|].
  destruct (extractMediaId _) as [mediaId|]; [apply wp_ret|apply wp_throw]; (split; [done|by right]).
Qed.

Lemma asset_complete_spec k f w :
  wp (asset_complete k f) (fun r w' => (still w w' /\ exists e, r = Throws e) \/
    exists t x n, rows (mediaAssets w) !! k = Some x /\ unfinished x = true /\ rows t = <[k := f x]> (rows (mediaAssets w)) /\
      w' = w <| mediaAssets := t |> <| tick := n |> /\ (r = Ok (f x) \/ exists e, r = Throws e)) w.
Proof.
  assert (Hw : still w (bump w)) by (by eexists).
  unfold asset_complete. apply wp_db; [intros e; left; split; [done|by eexists]|].
  intros a w' Hf. change (row k (bump w)) with (rows (mediaAssets w) !! k) in Hf. change (mediaAssets (bump w)) with (mediaAssets w) in Hf.
  destruct (rows (mediaAssets w) !! k) as [x|] eqn:Hx; cbn [from_option] in Hf; [|done]. destruct (unfinished x) eqn:Hu; [|done].
  apply bind_Some in Hf as (t & Ht & Hf). apply bind_Some in Hf as (x' & Hx' & [= <- <-]).
  apply update_some in Ht as (y & Hy & Ht & _). rewrite Hx in Hy. injection Hy as <-. rewrite Ht, lookup_insert_eq in Hx'. injection Hx' as <-.
  split; [intros e|]; (right; exists t, x, (S (tick w)); repeat (split; [done|])); [right; by eexists|by left].
Qed.

(** The asset of a finished upload, and its answer. *)
Definition finished (x : MediaAsset.t) : Prop :=
  is_Some (MediaAsset.providerMediaId x) /\ MediaAsset.failedAt x = None /\ MediaAsset.failureCode x = None.
Definition answer_of (x : MediaAsset.t) : MediaUploadResult.t :=
  MediaUploadResult.make (MediaAsset.providerMediaId x) (MediaAsset.senderId x) (MediaAsset.category x) (MediaAsset.mimeType x) (MediaAsset.size x).
(** How an upload stands once its asset is there: [sent] lists what Meta was handed. *)
Definition progress (sent : list (string * string)) (r : exec js_error MediaUploadResult.t) (w : World) : Prop :=
  (pending w0 id a0 sent w /\ exists e, r = Throws e) \/
  exists x, entry w0 id x sent w /\ static x = static a0 /\ finished x /\ sent <> [] /\
    (r = Ok (answer_of x) \/ exists m, r = Throws (ServiceUnavailableException m)).
Definition sent_or_not (input : MetaMediaUploadInput.t) (r : exec js_error MediaUploadResult.t) (w : World) : Prop :=
  progress [] r w \/ progress [(MetaMediaUploadInput.filePath input, MetaMediaUploadInput.mimeType input)] r w.

Lemma complete_progress mediaId t sent w : pending w0 id a0 sent w -> sent <> [] ->
  wp (completed ← unavailable "Media asset registry finalization failed"
        (updatedAt ← now; asset_complete id (completed_data mediaId t updatedAt));
      mret (MediaUploadResult.make (MediaAsset.providerMediaId completed) (MediaAsset.senderId completed) (MediaAsset.category completed)
          (MediaAsset.mimeType completed) (MediaAsset.size completed))) (progress sent) w.
Proof.
  intros Hp Hne. apply wp_bind. unfold unavailable, or_throw. apply wp_try, wp_bind, wp_now. intros t2.
  eapply wp_mono; [apply asset_complete_spec|]. intros r w' [[[n ->] [e ->]]|(tb & x & n & Hx & _ & Ht & -> & Hr)].
  { apply wp_throw. left. split; [exact Hp|by eexists]. }
  destruct Hp as (a & [Ha Hu] & Hs & Hpr). change (mediaAssets (bump w)) with (mediaAssets w) in *.
  rewrite Ha, lookup_insert_eq in Hx. injection Hx as <-.
  assert (He : entry w0 id (completed_data mediaId t t2 a) sent (bump w <| mediaAssets := tb |> <| tick := n |>)).
  { split; [cbn; by rewrite Ht, Ha, insert_insert_eq|exact Hu]. }
  assert (Hd : finished (completed_data mediaId t t2 a)) by (split; [by eexists|done]).
  destruct Hr as [->|[e ->]]; [apply wp_ret|apply wp_throw]; right; eexists; (split; [exact He|]; split; [exact Hs|]; split; [exact Hd|]; split; [done|]); [by left|right; by eexists].
Qed.

Lemma send_progress adm staged w : admitted_id adm = id -> pending w0 id a0 [] w ->
  let input := MetaMediaUploadInput.make (filePath staged) (policy_mimeType (admitted_policy adm)) (providerFilename (admitted_policy adm)) in
  wp (send_to_meta adm staged) (sent_or_not input) w.
Proof.
  intros Hid Hp input. unfold send_to_meta. rewrite Hid. apply wp_bind. eapply wp_mono; [apply uploadMedia_spec|].
  intros r w' (Hr & [[[n ->] [e ->]]|[n ->]]); [left; left; split; [exact Hp|by eexists]|].
  assert (Hp' : pending w0 id a0 [(MetaMediaUploadInput.filePath input, MetaMediaUploadInput.mimeType input)] (after_send input w <| tick := n |>)).
  { destruct Hp as (a & [Ha Hu] & Hs). exists a. split; [|done]. split; [exact Ha|]. cbn. by rewrite Hu, app_nil_r. }
  destruct r as [mediaId|e|]; [|right; left; split; [exact Hp'|by eexists]|done].
  apply wp_bind, wp_now. intros t. eapply wp_mono; [by apply complete_progress|]. by right.
Qed.

Lemma failed_progress sent e w : pending w0 id a0 sent w -> wp (send_failed id e) (progress sent) w.
Proof.
  intros Hp. assert (Hmark : forall code e', wp (_ ← markAssetFailed id code; throw e') (progress sent) w).
  { intros code e'. apply wp_bind. eapply wp_mono; [by apply markAssetFailed_pending|]. intros r w' [-> Hp']. left. split; [done|by eexists]. }
  destruct e; try apply Hmark; apply wp_throw; left; (split; [done|by eexists]).
Qed.

Lemma send_settled adm staged w : admitted_id adm = id -> pending w0 id a0 [] w ->
  let input := MetaMediaUploadInput.make (filePath staged) (policy_mimeType (admitted_policy adm)) (providerFilename (admitted_policy adm)) in
  wp (try_catch (send_to_meta adm staged) (send_failed id)) (sent_or_not input) w.
Proof.
  intros Hid Hp input. apply wp_try. eapply wp_mono; [by apply send_progress|].
  intros r w' Hs. destruct r as [res|e|]; [exact Hs| |by destruct Hs as [[[_ [? ?]]|(x & _ & _ & _ & _ & [?|[m ?]])]|[[_ [? ?]]|(x & _ & _ & _ & _ & [?|[m ?]])]]].
  destruct Hs as [[[Hp' _]|(x & He & Hst & Hf & Hne & [?|[m [= ->]]])]|[[Hp' _]|(x & He & Hst & Hf & Hne & [?|[m [= ->]]])]];
    [left; by apply failed_progress|done| |right; by apply failed_progress|done|];
    cbn [send_failed]; [left|right]; apply wp_throw; right; exists x; (repeat (split; [done|])); right; by eexists.
Qed.
End register.

(** ** Uploads *)
Section uploads.
Context `{Prisma} `{Environment} `{UrlParser} `{Host} `{GraphApi} `{MetaMedia} `{MediaDisk} `{ObjectStore} `{ScannerNetwork} `{UploadHost}.

(** The binary of an asset, and its place. *)
Definition place_of (a : MediaAsset.t) : option place := location (MediaAsset.storageMode a) (MediaAsset.storageKey a).

(** The file of an upload is at its own place; an upload registers one asset and may put a binary at its place. *)
Definition registered (T : string) (file : StoredMediaUploadFile.t) (adm : Admission) (t : Z) (w : World)
    (r : exec js_error MediaUploadResult.t) (w' : World) : Prop :=
  let a := new_asset T file adm t in
  exists sent, progress w (admitted_id adm) a sent r w' /\
    places_at (inl (StoredMediaUploadFile.path file) :: option_list (place_of a)) w w' /\
    (sent = [] \/ exists path, handed (admitted_target adm) (StoredMediaUploadFile.path file) path /\
       sent = [(path, policy_mimeType (admitted_policy adm))]).
(** What an upload does: nothing; or it registers one asset that passed every check, and hands its file to Meta at
    most once.  It returns only what the finished asset says, and a refused upload leaves no finished asset unless
    the database failed at the very end. *)
Definition upload_outcome (T : string) (file : StoredMediaUploadFile.t) (w : World) (r : exec js_error MediaUploadResult.t) (w' : World) : Prop :=
  (rows (mediaAssets w') = rows (mediaAssets w) /\ uploads w' = uploads w /\
    places_at [inl (StoredMediaUploadFile.path file)] w w' /\ exists e, r = Throws e) \/
  exists adm t, admitted T file w adm /\ rows (mediaAssets w) !! admitted_id adm = None /\ registered T file adm t w r w'.

Lemma update_row_places {R} `{!Table R} c k (f : R -> R) ls :
  (forall t w, files (set_tbl t w) = files w /\ objects (set_tbl t w) = objects w) -> preserves (places_at ls) (update_row c k f).
Proof. intros Hs. apply framed_places. apply frames_update_row; [done|]. intros t w. by destruct (Hs t w) as [-> ->]. Qed.
Lemma mark_places k code ls : preserves (places_at ls) (markAssetFailed k code).
Proof.
  unfold markAssetFailed. preserve_steps; try solve [apply framed_places; frame_steps]; by apply update_row_places.
Qed.
Lemma send_places adm staged ls : preserves (places_at ls) (send_to_meta adm staged).
Proof.
  apply framed_places. unfold send_to_meta, uploadMedia, post_media, unavailable, or_throw, asset_complete. frame_steps; by intros w1.
Qed.
Lemma failed_places k e ls : preserves (places_at ls) (send_failed k e).
Proof. unfold send_failed. destruct e; preserve_steps; apply mark_places. Qed.
Definition after_create (adm : Admission) (path : string) : io World MediaUploadResult.t :=
  staged ← stage_asset adm path;
  _ ← record_stored (admitted_id adm) staged;
  try_catch (send_to_meta adm staged) (send_failed (admitted_id adm)).
Lemma after_create_places adm path ls :
  (forall l, location (mode_name (target_mode (admitted_target adm))) (target_key (admitted_target adm)) = Some l -> l ∈ ls) ->
  preserves (places_at ls) (after_create adm path).
Proof.
  intros Hl. unfold after_create, stage_asset, record_stored. preserve_steps; try solve [apply mark_places|apply send_places|apply failed_places|by apply update_row_places].
  eapply only_places; [apply stage_at|exact Hl].
Qed.

Lemma after_create_spec T file adm t w0 w :
  let a0 := new_asset T file adm t in let id := admitted_id adm in
  pending w0 id a0 [] w ->
  wp (after_create adm (StoredMediaUploadFile.path file)) (fun r w' => exists sent, progress w0 id a0 sent r w' /\
    (sent = [] \/ exists path, handed (admitted_target adm) (StoredMediaUploadFile.path file) path /\
       sent = [(path, policy_mimeType (admitted_policy adm))])) w.
Proof.
  intros a0 id Hp. set (Q := fun (r : exec js_error MediaUploadResult.t) w' => exists sent, _).
  assert (Hfail : forall e w', pending w0 id a0 [] w' -> Q (Throws e) w') by (intros e w' Hp'; exists []; split; [left; split; [done|by eexists]|by left]).
  unfold after_create. apply wp_bind. unfold stage_asset. apply wp_try. eapply wp_mono; [apply wp_and; [by apply stage_pending|apply stage_handed]|].
  intros r w2 (Hp2 & Hr & Hh). destruct r as [staged|e|]; [|fold id|done].
  2:{ apply wp_bind. eapply wp_mono; [by apply markAssetFailed_pending|]. intros r w3 [-> Hp3]. by apply Hfail. }
  specialize (Hh staged eq_refl). apply wp_bind. fold id.
  assert (Hrec : wp (record_stored id staged) (fun r w' => pending w0 id a0 [] w' /\ r <> OutOfFuel) w2).
  { unfold record_stored. destruct (storedAt staged) as [st|]; [|by apply wp_ret]. apply wp_try, wp_bind, wp_now. intros t1. apply wp_bind.
    eapply wp_mono; [apply pending_update; [|exact Hp2]; done|]. intros r w' (Hr' & Hp'). destruct r as [x|e|]; [by apply wp_ret| |done].
    apply wp_bind. eapply wp_mono; [by apply markAssetFailed_pending|]. intros r w3 [-> Hp3]. by apply wp_throw. }
  eapply wp_mono; [exact Hrec|]. intros r w3 [Hp3 Hn]. destruct r as [[]|e|]; [|by apply Hfail|done].
  eapply wp_mono; [by apply send_settled|]. intros r4 w4 [Hs|Hs]; [exists []|eexists]; (split; [exact Hs|]); [by left|].
  right. by exists (filePath staged).
Qed.

Lemma register_outcome T file adm w0 w : still w0 w -> admitted T file w0 adm ->
  wp (register_and_send T file adm) (upload_outcome T file w0) w.
Proof.
  intros [n0 ->] Hadm. unfold register_and_send. apply wp_bind. unfold unavailable, or_throw. apply wp_try, wp_bind, wp_now. intros t.
  set (a0 := new_asset T file adm t). set (id := admitted_id adm).
  unfold asset_create. apply wp_db; [intros e; apply wp_throw; left; (split; [done|]); (split; [done|]); (split; [by intros []|by eexists])|].
  intros [] w1 Hc. apply bind_Some in Hc as (tb & Hc & [= <-]). apply createAt_some in Hc as (Hnew & Hrows & _).
  cbn in Hnew, Hrows. set (w1 := bump _ <| mediaAssets := tb |>).
  assert (Hp : pending w0 id a0 [] w1) by (exists a0; split; [split; [exact Hrows|cbn; by rewrite app_nil_r]|done]).
  assert (Hsame : places_at (inl (StoredMediaUploadFile.path file) :: option_list (place_of a0)) w0 w1) by (intros l _; by destruct l).
  clearbody w1. split.
  - intros e. apply wp_throw. right. exists adm, t. split; [done|]. split; [done|]. exists [].
    split; [left; split; [done|by eexists]|]. split; [done|by left].
  - fold id. change (wp (after_create adm (StoredMediaUploadFile.path file)) (upload_outcome T file w0) w1).
    destruct (after_create_spec T file adm t w0 w1 Hp) as (sent & Hpr & Hsent).
    right. exists adm, t. split; [done|]. split; [done|]. exists sent. split; [exact Hpr|]. split; [|exact Hsent].
    etrans; [exact Hsame|]. apply (after_create_places adm). intros l Hl. right.
    unfold place_of, a0, new_asset. cbn [MediaAsset.storageMode MediaAsset.storageKey]. rewrite Hl. left.
Qed.

(** Removing the uploaded file. *)
Lemma remove_upload path w :
  wp (try_catch (rm path) (fun _ => mret tt)) (fun r w' => r = Ok tt /\ mediaAssets w' = mediaAssets w /\ uploads w' = uploads w /\
    places_at [inl path] w w' /\ (path ∉ files w' \/ exists n e, disk_rm n path = Some e)) w.
Proof.
  pose proof (only_places _ _ [inl path] (rm_at path) ltac:(intros x [= <-]; left) w) as Hpl. revert Hpl.
  unfold wp, try_catch, rm. destruct (disk_rm (tick w) path) as [e|] eqn:E; cbn; intros Hpl.
  - repeat (split; [done|]). right. by exists (tick w), e.
  - repeat (split; [done|]). left. rewrite elem_of_difference, elem_of_singleton. tauto.
Qed.

Lemma upload_ends T fields f w :
  wp (finally (a ← check_upload T fields f; register_and_send T f a) (try_catch (rm (StoredMediaUploadFile.path f)) (fun _ => mret tt)))
    (fun r w' => upload_outcome T f w r w' /\
       (StoredMediaUploadFile.path f ∉ files w' \/ exists n e, disk_rm n (StoredMediaUploadFile.path f) = Some e)) w.
Proof.
  unfold finally. assert (Hm : wp (a ← check_upload T fields f; register_and_send T f a) (upload_outcome T f w) w).
  { apply wp_bind. eapply wp_mono; [apply (grants_wp w); [apply checks_grant|done]|]. intros r w1 (Hr & Hs & Ha).
    destruct r as [a|e|]; [|destruct Hs as [n ->]; left; (split; [done|]); (split; [done|]); (split; [by intros []|by eexists])|done]. apply register_outcome; [done|by apply Ha]. }
  unfold wp in *. destruct ((a ← check_upload T fields f; register_and_send T f a) w) as [r w1]. cbn [fst snd] in Hm.
  pose proof (remove_upload (StoredMediaUploadFile.path f) w1) as Hrm. unfold wp in Hrm.
  destruct (try_catch _ _ w1) as [r2 w2]. cbn [fst snd] in *. destruct Hrm as (-> & E1 & E2 & Hpl & Hgone). cbn [fst snd]. split; [|done].
  revert Hm. unfold upload_outcome, registered, progress, pending, entry. rewrite E1, E2.
  assert (Hafter : forall ls, places_at (inl (StoredMediaUploadFile.path f) :: ls) w w1 -> places_at (inl (StoredMediaUploadFile.path f) :: ls) w w2).
  { intros ls Hls l Hl. etrans; [apply Hpl|by apply Hls]. intros ->%list_elem_of_singleton. apply Hl. left. }
  intros [(Hr & Hu & Hp & He)|(adm & t & Hadm & Hnew & sent & Hpr & Hp & Hsent)]; [left|right].
  - repeat (split; [done|]). split; [by apply Hafter|done].
  - exists adm, t. repeat (split; [done|]). exists sent. split; [done|]. split; [by apply Hafter|done].
Qed.

(** C26: Whatever the database, the disk, the scanner, the bucket and Meta do, an upload changes nothing, or it registers one
    new asset that the policy admits, whose content has the structure of its type, which is clean or not to be scanned,
    for which there was room, and whose sender is an active one of the tenant; Meta is handed the file at most once, after all
    that; a normal end returns the media id of a finished asset, and the uploaded file is removed unless the disk refuses. *)
Theorem upload_contract (T : string) (fields : list (string * json)) (file : option StoredMediaUploadFile.t) (w : World) :
  let '(r, w') := upload T fields file w in
  match has_path file with
  | None => w' = w /\ exists e, r = Throws e
  | Some file =>
      upload_outcome T file w r w' /\
      (StoredMediaUploadFile.path file ∉ files w' \/ exists n e, disk_rm n (StoredMediaUploadFile.path file) = Some e)
  end.
Proof.
  unfold upload. destruct (has_path file) as [f|]; [|split; [done|by eexists]].
  pose proof (upload_ends T fields f w) as Hu. unfold wp in Hu. by destruct (finally _ _ w).
Qed.
End uploads.
