(* ===== verification/MediaRetention.v ===== *)
(** Retention of media assets ([media/media-asset-retention.service.ts]): uploads that never finished are
    marked and their binaries removed, expired assets are removed with theirs. *)
From stdpp Require Import prelude list gmap strings pretty.
From Stdlib Require Import ZArith Lia.
From S2P Require Import Prelude Json Io Prisma Domain Frame Tables Senders Payload Secrets MediaPolicy Scanner Graph Messages MediaStorage MediaUploads.
#[local] Open Scope Z_scope.

Definition DEFAULT_CLEANUP_INTERVAL_MS : Z := 60 * 60 * 1000.
Definition MIN_CLEANUP_INTERVAL_MS : Z := 60 * 1000.
Definition MAX_CLEANUP_INTERVAL_MS : Z := 24 * 60 * 60 * 1000.
Definition DEFAULT_STALE_UPLOAD_MS : Z := 2 * 60 * 60 * 1000.
Definition MIN_STALE_UPLOAD_MS : Z := 30 * 60 * 1000.
Definition MAX_STALE_UPLOAD_MS : Z := 24 * 60 * 60 * 1000.
Definition CLEANUP_BATCH_SIZE : nat := 200.
Definition ABANDONED_UPLOAD_FAILURE_CODE : string := "UPLOAD_ABANDONED".

Module MediaAssetReconciliationResult.
Record t := make { markedFailed : nat; binariesCleaned : nat; cleanupDeferred : nat }.
End MediaAssetReconciliationResult.
Import MediaAssetReconciliationResult.

(** [orderBy: [{ [first]: "asc" }, { createdAt: "asc" }]] *)
Definition oldest_by (first : MediaAsset.t -> Z) (a b : string * MediaAsset.t) : Prop :=
  first a.2 < first b.2 \/ (first a.2 = first b.2 /\ MediaAsset.createdAt a.2 <= MediaAsset.createdAt b.2).
#[export] Instance oldest_by_dec first : RelDecision (oldest_by first).
Proof. intros a b. unfold oldest_by. apply _. Defined.

Section retention.
Context `{Prisma} `{Environment} `{UrlParser} `{Host} `{MediaDisk} `{ObjectStore}.

Definition readCleanupIntervalMs : exec js_error Z :=
  read_integer (process_env "MEDIA_ASSET_CLEANUP_INTERVAL_MS") DEFAULT_CLEANUP_INTERVAL_MS MIN_CLEANUP_INTERVAL_MS MAX_CLEANUP_INTERVAL_MS
    (Error ("MEDIA_ASSET_CLEANUP_INTERVAL_MS must be an integer between " +:+ pretty MIN_CLEANUP_INTERVAL_MS +:+ " and " +:+ pretty MAX_CLEANUP_INTERVAL_MS)).
Definition readStaleUploadMs : exec js_error Z :=
  read_integer (process_env "MEDIA_ASSET_STALE_UPLOAD_MS") DEFAULT_STALE_UPLOAD_MS MIN_STALE_UPLOAD_MS MAX_STALE_UPLOAD_MS
    (Error ("MEDIA_ASSET_STALE_UPLOAD_MS must be an integer between " +:+ pretty MIN_STALE_UPLOAD_MS +:+ " and " +:+ pretty MAX_STALE_UPLOAD_MS)).

(** *** Uploads that never finished *)
Definition no_media (a : MediaAsset.t) : bool := bool_decide (MediaAsset.providerMediaId a = None).
(** [failedAt: null, updatedAt: { lte: staleBefore }] *)
Definition stale (staleBefore : Z) (a : MediaAsset.t) : bool :=
  bool_decide (MediaAsset.failedAt a = None) && (MediaAsset.updatedAt a <=? staleBefore).
Definition abandoned (a : MediaAsset.t) : bool := bool_decide (MediaAsset.failureCode a = Some ABANDONED_UPLOAD_FAILURE_CODE).
Definition to_reconcile (staleBefore : Z) (a : MediaAsset.t) : bool :=
  no_media a && (stale staleBefore a || (abandoned a && bool_decide (is_Some (MediaAsset.storageKey a)))).
Definition abandon_data (now updatedAt : Z) (a : MediaAsset.t) : MediaAsset.t :=
  a <| MediaAsset.failedAt := Some now |> <| MediaAsset.failureCode := Some ABANDONED_UPLOAD_FAILURE_CODE |> <| MediaAsset.updatedAt := updatedAt |>.
Definition clear_data (updatedAt : Z) (a : MediaAsset.t) : MediaAsset.t :=
  a <| MediaAsset.storageKey := None |> <| MediaAsset.storedAt := None |> <| MediaAsset.updatedAt := updatedAt |>.

Definition claim_stale (id : string) (now staleBefore : Z) : io World nat :=
  updatedAt ← Domain.now;
  updateMany_rows_of (fun k a => bool_decide (k = id) && (no_media a && stale staleBefore a)) (abandon_data now updatedAt).
Definition clear_binary (id storageKey : string) : io World nat :=
  updatedAt ← Domain.now;
  updateMany_rows_of (fun k a => bool_decide (k = id) &&
    (no_media a && abandoned a && bool_decide (MediaAsset.storageKey a = Some storageKey))) (clear_data updatedAt).
(** [try { await discard(...) } catch { ... }]: whether it came back. *)
Definition try_discard (a : MediaAsset.t) : io World bool :=
  try_catch (_ ← discard (MediaAsset.storageMode a) (MediaAsset.storageKey a); mret true) (fun _ => mret false).

(** One turn of the loop; [asset] is what the query found. *)
Definition reconcile_one (now staleBefore : Z) (asset : string * MediaAsset.t) (result : MediaAssetReconciliationResult.t)
    : io World MediaAssetReconciliationResult.t :=
  let '(id, a) := asset in
  claimed ← (if abandoned a then mret (Some result) else
             count ← claim_stale id now staleBefore;
             mret (if (count =? 1)%nat
                   then Some (make (S (markedFailed result)) (binariesCleaned result) (cleanupDeferred result)) else None));
  match claimed with
  | None => mret result
  | Some result =>
      match truthy (MediaAsset.storageKey a) with
      | None => mret result
      | Some storageKey =>
          removed ← try_discard a;
          if negb removed then mret (make (markedFailed result) (binariesCleaned result) (S (cleanupDeferred result))) else
          cleared ← clear_binary id storageKey;
          mret (make (markedFailed result) (binariesCleaned result + cleared) (cleanupDeferred result))
      end
  end.
Fixpoint fold_io {W X A} (f : X -> A -> io W A) (l : list X) (a : A) : io W A :=
  match l with [] => mret a | x :: l => a ← f x a; fold_io f l a end.
Definition reconcileStaleUploads (now : Z) : io World MediaAssetReconciliationResult.t :=
  staleMs ← lift readStaleUploadMs;
  let staleBefore := now - staleMs in
  assets ← db (fun w => Some (findPage (fun _ => to_reconcile staleBefore) (oldest_by MediaAsset.updatedAt) None 0 CLEANUP_BATCH_SIZE
                                (mediaAssets w), w));
  fold_io (reconcile_one now staleBefore) assets (make 0 0 0).

(** *** Expired assets *)
Definition expired (now : Z) (a : MediaAsset.t) : bool := match MediaAsset.expiresAt a with Some e => e <=? now | None => false end.
Definition purge_one (now : Z) (asset : string * MediaAsset.t) (deleted : nat) : io World nat :=
  let '(id, a) := asset in
  removed ← try_discard a;
  if negb removed then mret deleted else
  count ← deleteMany_rows_of (fun k x => bool_decide (k = id) && expired now x);
  mret (deleted + count)%nat.
Definition purgeExpired (now : Z) : io World nat :=
  assets ← db (fun w => Some (findPage (fun _ => expired now) (oldest_by (fun a => default 0 (MediaAsset.expiresAt a))) None 0 CLEANUP_BATCH_SIZE
                                (mediaAssets w), w));
  fold_io (purge_one now) assets 0%nat.

Definition runMaintenance : io World () :=
  _ ← try_catch (now ← Domain.now; _ ← reconcileStaleUploads now; mret tt) (fun _ => mret tt);
  try_catch (now ← Domain.now; _ ← purgeExpired now; mret tt) (fun _ => mret tt).
(** The interval of the timer that runs the maintenance again. *)
Definition onApplicationBootstrap : io World Z :=
  intervalMs ← lift readCleanupIntervalMs;
  _ ← lift readStaleUploadMs;
  _ ← runMaintenance;
  mret intervalMs.
End retention.

(** ** What the maintenance does to an asset *)
(** [oldest_by] is an order. *)
#[export] Instance oldest_by_transitive first : Transitive (oldest_by first).
Proof. intros a b c. unfold oldest_by. lia. Qed.
#[export] Instance oldest_by_total first : Total (oldest_by first).
Proof. intros a b. unfold oldest_by. lia. Qed.

(** Two worlds that differ at most in their assets, their binaries and their tick. *)
Definition media_only `{Prisma} (w w' : World) : Prop :=
  exists t f o n, w' = w <| mediaAssets := t |> <| files := f |> <| objects := o |> <| tick := n |>.
#[export] Instance media_only_preorder `{Prisma} : PreOrder media_only.
Proof.
  split.
  - intros w. exists (mediaAssets w), (files w), (objects w), (tick w). by destruct w.
  - intros w1 w2 w3 (t & f & o & n & ->) (t' & f' & o' & n' & ->). by exists t', f', o', n'.
Qed.

Section kept.
Context `{Prisma} `{Environment} `{UrlParser} `{Host} `{MediaDisk} `{ObjectStore}.

(** The binary of an asset is nowhere. *)
Definition gone (a : MediaAsset.t) (w : World) : Prop := forall l, place_of a = Some l -> ~ holds l w.
(** Discarding it works. *)
Definition removable (a : MediaAsset.t) : Prop := forall w, (discard (MediaAsset.storageMode a) (MediaAsset.storageKey a) w).1 = Ok tt.

(** Nothing but the asset of [k] and the binary at [l] may have changed, and no binary was added. *)
Definition touches (k : string) (l : option place) (w w' : World) : Prop :=
  media_only w w' /\ (forall k', k' <> k -> rows (mediaAssets w') !! k' = rows (mediaAssets w) !! k') /\
  (forall l', l <> Some l' -> holds l' w' <-> holds l' w) /\ (forall l', holds l' w' -> holds l' w).
#[export] Instance touches_preorder k l : PreOrder (touches k l).
Proof.
  split; [done|]. intros w1 w2 w3 (M1 & R1 & L1 & S1) (M2 & R2 & L2 & S2). split; [by etrans|]. split; [intros k' Hk; by rewrite R2, R1|].
  split; [intros l' Hl; by rewrite L2, L1|auto].
Qed.
Lemma touches_tick k l w n : touches k l w (w <| tick := n |>).
Proof. split; [|done]. exists (mediaAssets w), (files w), (objects w), n. by destruct w. Qed.

(** A call on one asset: its row becomes [o] and [i] is returned, or the call fails, and then too that may have happened. *)
Definition called (k : string) (o : option MediaAsset.t) (i : nat) (w : World) (r : exec js_error nat) (w' : World) : Prop :=
  r <> OutOfFuel /\ touches k None w w' /\
  (rows (mediaAssets w') !! k = rows (mediaAssets w) !! k \/ rows (mediaAssets w') !! k = o) /\
  (no_faults \/ (exists n, r = Ok n) -> r = Ok i /\ rows (mediaAssets w') !! k = o).
Lemma call_spec (g : World -> option (nat * World)) k o i t w :
  g (bump w) = Some (i, bump w <| mediaAssets := t |>) -> rows t !! k = o ->
  (forall k', k' <> k -> rows t !! k' = rows (mediaAssets w) !! k') -> wp (db g) (called k o i w) w.
Proof.
  intros Hg Ht Ho.
  assert (Hat : touches k None w (bump w <| mediaAssets := t |>)).
  { split; [exists t, (files w), (objects w), (S (tick w)); by destruct w|]. split; [exact Ho|]. split; intros [?|?]; done. }
  unfold wp, db. rewrite Hg. destruct (db_fault (tick w)) as [|e|e] eqn:Ef; cbn [fst snd].
  - split; [done|]. split; [done|]. split; [by right|done].
  - split; [done|]. split; [apply touches_tick|]. split; [by left|]. intros [Hn|[n ?]]; [by rewrite Hn in Ef|done].
  - split; [done|]. split; [done|]. split; [by right|]. intros [Hn|[n ?]]; [by rewrite Hn in Ef|done].
Qed.
Lemma update_id_spec (p : MediaAsset.t -> bool) f k y w : rows (mediaAssets w) !! k = Some y ->
  wp (updateMany_rows_of (fun k' a => bool_decide (k' = k) && p a) f)
    (called k (Some (if p y then f y else y)) (if p y then 1 else 0)%nat w) w.
Proof.
  intros Hy. pose proof (updateMany_id_count p f (mediaAssets w) k) as Hc. pose proof (updateMany_id p f (mediaAssets w) k) as Hr.
  rewrite Hy in Hc, Hr. eapply (call_spec _ _ _ _ (updateMany (fun k' a => bool_decide (k' = k) && p a) f (mediaAssets w)).2).
  - cbn. destruct (updateMany _ _ _) as [i t] eqn:E. cbn in Hc. by subst i.
  - by rewrite Hr, decide_True.
  - intros k' Hk. by rewrite Hr, decide_False.
Qed.
Lemma delete_id_spec (p : MediaAsset.t -> bool) k y w : rows (mediaAssets w) !! k = Some y ->
  exists i, wp (deleteMany_rows_of (fun k' a => bool_decide (k' = k) && p a)) (called k (if p y then None else Some y) i w) w.
Proof.
  intros Hy. set (q := fun k' a => bool_decide (k' = k) && p a). exists (deleteMany q (mediaAssets w)).1.
  eapply (call_spec _ _ _ _ (deleteMany q (mediaAssets w)).2).
  - cbn. by destruct (deleteMany _ _).
  - apply option_eq. intros x. rewrite deleteMany_lookup, Hy. unfold q. rewrite bool_decide_true by done. cbn.
    destruct (p y) eqn:E; split; [by intros [[= <-] ?]; congruence|done|by intros [? _]|by intros [= <-]].
  - intros k' Hk. apply option_eq. intros x. rewrite deleteMany_lookup. unfold q. rewrite bool_decide_false by done. cbn. tauto.
Qed.

(** Discarding the binary of an asset. *)
Lemma try_discard_spec k y w :
  wp (try_discard y) (fun r w' => touches k (place_of y) w w' /\ mediaAssets w' = mediaAssets w /\
    exists b, r = Ok b /\ (b = true -> gone y w') /\ (removable y -> b = true)) w.
Proof.
  pose proof (discard_spec (MediaAsset.storageMode y) (MediaAsset.storageKey y) w) as Hd. fold (place_of y) in Hd.
  unfold wp, try_discard, try_catch, mbind, io_bind in *. pose proof (fun Hr : removable y => Hr w) as Hrem.
  destruct (discard _ _ w) as [r w']. cbn [fst snd] in *. destruct Hd as (Hn & [(f & o & n & ->) Hl] & Hs & Hg).
  assert (Ht : touches k (place_of y) w (w <| files := f |> <| objects := o |> <| tick := n |>)).
  { split; [by exists (mediaAssets w), f, o, n; destruct w|]. by split. }
  destruct r as [[]|e|]; [| |done]; cbn [fst snd mret io_ret]; (split; [exact Ht|]; split; [done|]).
  - exists true. split; [done|]. split; [|done]. intros _ l Hl'. by apply Hg.
  - exists false. split; [done|]. split; [done|]. by intros Hr%Hrem.
Qed.
End kept.

(** ** Uploads that never finished *)
(** What giving up an upload leaves as it was. *)
Definition core (a : MediaAsset.t) :=
  (MediaAsset.tenantId a, MediaAsset.senderId a, MediaAsset.providerMediaId a, MediaAsset.category a, MediaAsset.mimeType a, MediaAsset.size a,
   MediaAsset.scanMode a, MediaAsset.scanStatus a, MediaAsset.storageMode a, MediaAsset.providerUploadedAt a, MediaAsset.expiresAt a, MediaAsset.createdAt a).
Definition given_up (y x : MediaAsset.t) : Prop :=
  core x = core y /\ abandoned x = true /\ (is_Some (MediaAsset.failedAt x) \/ MediaAsset.failedAt x = MediaAsset.failedAt y).

Section reconcile.
Context `{Prisma} `{Environment} `{UrlParser} `{Host} `{MediaDisk} `{ObjectStore}.

(** [x] is the asset [y], or [y] given up, and then [x] has forgotten its place only when the binary is not there. *)
Definition marked (y x : MediaAsset.t) (w : World) : Prop :=
  x = y \/ (given_up y x /\
    ((MediaAsset.storageKey x = MediaAsset.storageKey y /\ MediaAsset.storedAt x = MediaAsset.storedAt y) \/
     (MediaAsset.storageKey x = None /\ MediaAsset.storedAt x = None /\ gone y w))).
(** [y] is given up, and when the storage lets it its binary is gone. *)
Definition resolved (y x : MediaAsset.t) : Prop := abandoned x = true /\ (removable y -> truthy (MediaAsset.storageKey x) = None).

Lemma gone_mono y w w' : (forall l, holds l w' -> holds l w) -> gone y w -> gone y w'.
Proof. intros Hs Hg l Hl Hh. by apply (Hg l Hl), Hs. Qed.
Lemma marked_mono y x w w' : (forall l, holds l w' -> holds l w) -> marked y x w -> marked y x w'.
Proof. intros Hs [->|[Hu [Hk|(? & ? & Hg)]]]; [by left|right; split; [done|by left]|right; split; [done|right]]. repeat (split; [done|]). by eapply gone_mono. Qed.
Lemma stale_fresh y sb : to_reconcile sb y = true -> abandoned y = false -> no_media y && stale sb y = true.
Proof. unfold to_reconcile. intros [-> Ho]%andb_true_iff E. rewrite E in Ho. cbn in Ho. by rewrite orb_false_r in Ho. Qed.
Lemma marked_abandon y x w now t : marked y x w -> marked y (abandon_data now t x) w.
Proof.
  intros Hm. right. assert (Hc : core x = core y) by (by destruct Hm as [->|[[Hc _] _]]).
  split; [split; [exact Hc|]; split; [by apply bool_decide_true|left; by eexists]|].
  destruct Hm as [->|[_ Hk]]; [by left|exact Hk].
Qed.
Lemma marked_clear y x w t : marked y x w -> abandoned x = true -> gone y w -> marked y (clear_data t x) w.
Proof.
  intros Hm Ha Hg. right. split; [|by right].
  destruct Hm as [->|[(Hc & _ & Hf) _]]; (split; [done|]; split; [exact Ha|]); [by right|exact Hf].
Qed.

(** What one turn of the loop does to its asset. *)
Definition turned {A} (k : string) (y : MediaAsset.t) (w : World) (r : exec js_error A) (w' : World) : Prop :=
  r <> OutOfFuel /\ touches k (place_of y) w w' /\
  exists x, rows (mediaAssets w') !! k = Some x /\ marked y x w' /\ (no_faults -> (exists a, r = Ok a) /\ resolved y x).

Definition claim (now sb : Z) (k : string) (y : MediaAsset.t) (res : MediaAssetReconciliationResult.t) : io World (option MediaAssetReconciliationResult.t) :=
  if abandoned y then mret (Some res) else
  count ← claim_stale k now sb;
  mret (if (count =? 1)%nat then Some (make (S (markedFailed res)) (binariesCleaned res) (cleanupDeferred res)) else None).
Lemma claim_spec now sb k y res w : rows (mediaAssets w) !! k = Some y -> to_reconcile sb y = true ->
  wp (claim now sb k y res) (fun r w' => r <> OutOfFuel /\ touches k None w w' /\
    exists x, rows (mediaAssets w') !! k = Some x /\ marked y x w' /\ MediaAsset.storageKey x = MediaAsset.storageKey y /\
      (no_faults \/ (exists o, r = Ok o) -> (exists res', r = Ok (Some res')) /\ no_media x && abandoned x = true)) w.
Proof.
  intros Hy Hrec. assert (Hn : no_media y = true) by by apply andb_true_iff in Hrec as [? _].
  unfold claim. destruct (abandoned y) eqn:Ea.
  { apply wp_ret. split; [done|]. split; [reflexivity|]. exists y. split; [done|]. split; [by left|]. split; [done|]. intros _. split; [by eexists|by rewrite Hn]. }
  pose proof (stale_fresh y sb Hrec Ea) as Hst. apply wp_bind. unfold claim_stale. apply wp_bind, wp_now. intros t.
  eapply wp_mono; [by apply (update_id_spec (fun a => no_media a && stale sb a) _ k y)|]. cbn beta. rewrite Hst. intros r w' (Hr & Ht & Ho & Hok).
  assert (Ht' : touches k None w w') by (etrans; [apply (touches_tick k None w (S (tick w)))|exact Ht]).
  assert (Hm : marked y (abandon_data now t y) w') by by apply marked_abandon; left.
  assert (Hx : exists x, rows (mediaAssets w') !! k = Some x /\ marked y x w' /\ MediaAsset.storageKey x = MediaAsset.storageKey y)
    by (destruct Ho as [Ho|Ho]; rewrite Ho; [exists y; split; [done|by split; [left|]]|by eexists]).
  assert (Hd : no_media (abandon_data now t y) && abandoned (abandon_data now t y) = true)
    by (apply andb_true_iff; split; [exact Hn|by apply bool_decide_true]).
  destruct r as [i|e|]; [| |done].
  - destruct Hok as [[= ->] Hk]; [right; by eexists|]. apply wp_ret. split; [done|]. split; [done|]. eexists. split; [exact Hk|].
    split; [done|]. split; [done|]. intros _. by split; [eexists|].
  - split; [done|]. split; [done|]. destruct Hx as (x & Hx1 & Hx2 & Hx3). exists x. split; [done|]. split; [done|]. split; [done|].
    intros [Hf|[? ?]]; [|done]. by destruct Hok as [? _]; [left|].
Qed.

Definition cleanup (k : string) (y : MediaAsset.t) (res : MediaAssetReconciliationResult.t) : io World MediaAssetReconciliationResult.t :=
  match truthy (MediaAsset.storageKey y) with
  | None => mret res
  | Some key =>
      removed ← try_discard y;
      if negb removed then mret (make (markedFailed res) (binariesCleaned res) (S (cleanupDeferred res))) else
      cleared ← clear_binary k key;
      mret (make (markedFailed res) (binariesCleaned res + cleared) (cleanupDeferred res))
  end.
Lemma touches_none k l w w' : touches k None w w' -> touches k l w w'.
Proof. intros (M & R & L & S). split; [done|]. split; [done|]. split; [|done]. intros l' _. by apply L. Qed.
Lemma turned_after {A} k y w w1 (r : exec js_error A) w' : touches k (place_of y) w w1 -> turned k y w1 r w' -> turned k y w r w'.
Proof. intros Ht (Hr & Ht' & Hx). split; [done|]. split; [by etrans|done]. Qed.
Lemma cleanup_spec k y x res w : rows (mediaAssets w) !! k = Some x -> marked y x w -> MediaAsset.storageKey x = MediaAsset.storageKey y ->
  no_media x && abandoned x = true -> wp (cleanup k y res) (turned k y w) w.
Proof.
  intros Hx Hm Hk Hna. assert (Ha : abandoned x = true) by by apply andb_true_iff in Hna as [_ ?].
  unfold cleanup. destruct (truthy (MediaAsset.storageKey y)) as [key|] eqn:Ek.
  2:{ apply wp_ret. split; [done|]. split; [reflexivity|]. exists x. split; [done|]. split; [done|]. intros _. split; [by eexists|].
      split; [done|]. by rewrite Hk. }
  apply truthy_key in Ek as [Ek Hne]. apply wp_bind. eapply wp_mono; [apply (try_discard_spec k)|].
  intros r w1 (Ht & E & b & -> & Hg & Hrem). apply (wp_mono _ (turned k y w1)); [|intros r w'; by apply turned_after].
  rewrite <- E in Hx. apply (marked_mono _ _ w w1) in Hm; [|by apply Ht]. destruct b; cbn [negb].
  2:{ apply wp_ret. split; [done|]. split; [reflexivity|]. exists x. split; [done|]. split; [done|]. intros _. split; [by eexists|].
      split; [done|]. by intros ?%Hrem. }
  apply wp_bind. unfold clear_binary. apply wp_bind, wp_now. intros t.
  set (p := fun a => no_media a && abandoned a && bool_decide (MediaAsset.storageKey a = Some key)).
  eapply wp_mono; [by apply (update_id_spec p _ k x)|]. assert (Hp : p x = true) by (unfold p; by rewrite Hna, Hk, Ek, bool_decide_true).
  rewrite Hp. intros r w2 (Hr & Ht2 & Ho & Hok).
  assert (Ht2' : touches k (place_of y) w1 w2) by (etrans; [apply (touches_tick _ _ w1 (S (tick w1)))|by apply touches_none]).
  assert (Hm' : forall z, z = x \/ z = clear_data t x -> marked y z w2).
  { intros z Hz. apply (marked_mono _ _ w1); [by apply Ht2'|]. destruct Hz as [->| ->]; [done|]. apply marked_clear; [done|done|by apply Hg]. }
  assert (Hz : exists z, rows (mediaAssets w2) !! k = Some z /\ marked y z w2)
    by (destruct Ho as [Ho|Ho]; rewrite Ho; eexists; (split; [first [exact Hx|done]|]); apply Hm'; tauto).
  destruct r as [i|e|]; [apply wp_ret| |done]; (split; [done|]; split; [done|]); destruct Hz as (z & Hz & Hmz); exists z; (split; [done|]; split; [done|]); intros Hf; destruct Hok as [Hi Hcl]; [by left| |by left|done].
  split; [by eexists|]. rewrite Hz in Hcl. injection Hcl as ->. by split.
Qed.

Lemma reconcile_one_spec now sb k y res w : rows (mediaAssets w) !! k = Some y -> to_reconcile sb y = true ->
  wp (reconcile_one now sb (k, y) res) (turned k y w) w.
Proof.
  intros Hy Hrec. change (wp (o ← claim now sb k y res; match o with None => mret res | Some res => cleanup k y res end) (turned k y w) w).
  apply wp_bind. eapply wp_mono; [by apply claim_spec|]. intros r w1 (Hr & Ht & x & Hx & Hm & Hk & Hok). apply touches_none with (l := place_of y) in Ht.
  destruct r as [o|e|]; [| |done].
  - destruct Hok as [[res' [= ->]] Hna]; [right; by eexists|]. eapply wp_mono; [by apply (cleanup_spec k y x)|].
    intros r w'. by apply turned_after.
  - split; [done|]. split; [done|]. exists x. split; [done|]. split; [done|]. intros Hf. by destruct Hok as [[? ?] _]; [left|].
Qed.
End reconcile.

(** ** Going through a page of assets *)
Section sweep.
Context `{Prisma} `{Environment} `{UrlParser} `{Host} `{MediaDisk} `{ObjectStore}.
(** [S]: what may become of an asset that satisfies [P]; [L]: what becomes of it when the database is reliable. *)
Context (P : MediaAsset.t -> Prop) (S : MediaAsset.t -> option MediaAsset.t -> World -> Prop) (L : MediaAsset.t -> option MediaAsset.t -> Prop).
Context (S_refl : forall y w, S y (Some y) w).
Context (S_mono : forall y o w w', (forall l, holds l w' -> holds l w) -> S y o w -> S y o w').

(** One asset dealt with ... *)
Definition dealt {A} (k : string) (y : MediaAsset.t) (w : World) (r : exec js_error A) (w' : World) : Prop :=
  r <> OutOfFuel /\ touches k (place_of y) w w' /\ S y (rows (mediaAssets w') !! k) w' /\
  (no_faults -> (exists a, r = Ok a) /\ L y (rows (mediaAssets w') !! k)).
(** ... and those of [l], each on its own: the binaries that are gone were theirs. *)
Definition swept {A} (l : list (string * MediaAsset.t)) (w : World) (r : exec js_error A) (w' : World) : Prop :=
  r <> OutOfFuel /\ media_only w w' /\ (forall x, holds x w' -> holds x w) /\
  (forall x, holds x w -> holds x w' \/ exists k y, (k, y) ∈ l /\ place_of y = Some x) /\
  (forall k, k ∉ l.*1 -> rows (mediaAssets w') !! k = rows (mediaAssets w) !! k) /\
  (forall k y, (k, y) ∈ l -> S y (rows (mediaAssets w') !! k) w' /\ (no_faults -> L y (rows (mediaAssets w') !! k))) /\
  (no_faults -> exists a, r = Ok a).

Lemma dealt_places {A} k y w (r : exec js_error A) w' x : dealt k y w r w' -> holds x w -> holds x w' \/ place_of y = Some x.
Proof.
  intros (_ & (_ & _ & Hl & _) & _) Hx. destruct (decide (place_of y = Some x)) as [E|E]; [by right|left]. by apply Hl.
Qed.
Lemma swept_stop {A} k y l w e w' : NoDup ((k, y) :: l).*1 ->
  (forall k' y', (k', y') ∈ l -> rows (mediaAssets w) !! k' = Some y') ->
  dealt k y w (Throws e : exec js_error A) w' -> swept ((k, y) :: l) w (Throws e : exec js_error A) w'.
Proof.
  intros [Hk _]%NoDup_cons Hl Hd. pose proof (fun x => dealt_places k y w _ w' x Hd) as Hp. destruct Hd as (_ & (M & R & _ & Sh) & HS & HL).
  assert (Hf : ~ no_faults) by (intros Hf; by destruct (HL Hf) as [[? ?] _]).
  split; [done|]. split; [done|]. split; [done|]. split.
  { intros x [?|E]%Hp; [by left|]. right. exists k, y. split; [left|done]. }
  split; [intros k' Hk'; apply R; intros ->; apply Hk'; left|]. split; [|done].
  intros k' y' [[= -> ->]|Hin]%elem_of_cons; (split; [|done]); [done|]. rewrite R; [by rewrite (Hl _ _ Hin)|].
  intros ->. apply Hk. apply list_elem_of_fmap. by exists (k, y').
Qed.
Lemma swept_cons {A} k y l w w1 (a : A) r w' : k ∉ l.*1 -> dealt k y w (Ok a) w1 -> swept l w1 (r : exec js_error A) w' -> swept ((k, y) :: l) w r w'.
Proof.
  intros Hk Hd (Hr & M2 & S2 & L2 & O2 & E2 & N2). pose proof (fun x => dealt_places k y w _ w1 x Hd) as Hp.
  destruct Hd as (_ & (M1 & R1 & _ & S1) & HS & HL).
  split; [done|]. split; [by etrans|]. split; [auto|]. split.
  { intros x [Hx|E]%Hp; [|right; exists k, y; split; [left|done]]. apply L2 in Hx as [?|(k' & y' & ? & ?)]; [by left|]. right. exists k', y'. split; [by right|done]. }
  split. { intros k' Hk'. cbn in Hk'. apply not_elem_of_cons in Hk' as [Hn Hk']. by rewrite O2, R1. }
  split; [|done]. intros k' y' [[= -> ->]|Hin]%elem_of_cons; [|by apply E2].
  rewrite (O2 k Hk). split; [by eapply S_mono|]. intros Hf. by apply HL.
Qed.

Context {A : Type} (f : string * MediaAsset.t -> A -> io World A).
Context (turn : forall k y a w, rows (mediaAssets w) !! k = Some y -> P y -> wp (f (k, y) a) (dealt k y w) w).
Lemma sweep l a w : NoDup l.*1 -> (forall k y, (k, y) ∈ l -> rows (mediaAssets w) !! k = Some y /\ P y) ->
  wp (fold_io f l a) (swept l w) w.
Proof.
  revert a w. induction l as [|[k y] l IH]; intros a w Hnd Hl.
  { apply wp_ret. split; [done|]. split; [reflexivity|]. split; [done|]. split; [by left|]. split; [done|].
    split; [by intros k y ?%elem_of_nil|]. intros _. by eexists. }
  destruct (Hl k y) as [Hy HP]; [left|]. cbn [fold_io]. apply wp_bind. eapply wp_mono; [by apply turn|].
  assert (Hk : k ∉ l.*1) by (by apply NoDup_cons in Hnd as [? _]).
  intros [a1|e|] w1 Hd; [| |by destruct Hd].
  - eapply wp_mono; [apply (IH a1 w1)|].
    + by apply NoDup_cons in Hnd as [_ ?].
    + intros k' y' Hin. destruct (Hl k' y') as [Hy' HP']; [by right|]. split; [|done].
      destruct Hd as (_ & (_ & R & _) & _). rewrite R; [done|]. intros ->. apply Hk, list_elem_of_fmap. by exists (k, y').
    + intros r w'. by eapply swept_cons.
  - apply swept_stop; [done| |done]. intros k' y' Hin. by apply Hl; right.
Qed.
End sweep.

(** ** The maintenance *)
Section maintenance.
Context `{Prisma} `{Environment} `{UrlParser} `{Host} `{MediaDisk} `{ObjectStore}.

(** Assets that satisfy [rec] may have been given up, those that satisfy [pur] may be gone; the others are as they were.
    An asset is gone, or has forgotten its place, only when its binary is not there; no binary was added, and those that
    are gone belonged to such an asset. *)
Definition tended (rec pur : MediaAsset.t -> Prop) (w w' : World) : Prop :=
  media_only w w' /\ (forall l, holds l w' -> holds l w) /\
  (forall l, holds l w -> holds l w' \/ exists k y, rows (mediaAssets w) !! k = Some y /\ place_of y = Some l /\ (rec y \/ pur y)) /\
  (forall k, rows (mediaAssets w) !! k = None -> rows (mediaAssets w') !! k = None) /\
  (forall k y, rows (mediaAssets w) !! k = Some y ->
     match rows (mediaAssets w') !! k with Some x => x = y \/ (rec y /\ marked y x w') | None => pur y /\ gone y w' end).
Lemma tended_tick rec pur w n : tended rec pur w (w <| tick := n |>).
Proof.
  split; [exists (mediaAssets w), (files w), (objects w), n; by destruct w|]. split; [by intros []|]. split; [intros []; by left|]. split; [done|].
  intros k y Hy. cbn. rewrite Hy. by left.
Qed.
Lemma tended_refl rec pur w : tended rec pur w w.
Proof. pose proof (tended_tick rec pur w (tick w)) as Ht. by destruct w. Qed.
Lemma tended_bump rec pur w w' : tended rec pur (bump w) w' -> tended rec pur w w'.
Proof.
  intros (M & Sh & Lo & N & R). split; [|split; [|split; [|by split]]].
  - etrans; [|exact M]. exists (mediaAssets w), (files w), (objects w), (S (tick w)). by destruct w.
  - intros [x|x] Hx; [exact (Sh (inl x) Hx)|exact (Sh (inr x) Hx)].
  - intros [x|x] Hx; [exact (Lo (inl x) Hx)|exact (Lo (inr x) Hx)].
Qed.
Lemma marked_place y x w : x = y \/ marked y x w -> place_of x = place_of y \/ (place_of x = None /\ gone y w).
Proof.
  intros [->|[->|[(Hc & _) [[Hk _]|(Hk & _ & Hg)]]]]; [by left|by left| |]; unfold place_of.
  - left. assert (MediaAsset.storageMode x = MediaAsset.storageMode y) as -> by (unfold core in Hc; congruence). by rewrite Hk.
  - right. by rewrite Hk.
Qed.
Lemma tended_compose rec pur w w1 w2 : (forall x y, core x = core y -> pur x -> pur y) ->
  tended rec (fun _ => False) w w1 -> tended (fun _ => False) pur w1 w2 -> tended rec pur w w2.
Proof.
  intros Hpur (M1 & S1 & L1 & N1 & R1) (M2 & S2 & L2 & N2 & R2).
  assert (Hback : forall k x, rows (mediaAssets w1) !! k = Some x -> exists y, rows (mediaAssets w) !! k = Some y /\ core x = core y /\
    (x = y \/ (rec y /\ marked y x w1))).
  { intros k x Hx. destruct (rows (mediaAssets w) !! k) as [y|] eqn:Hy; [|by rewrite N1 in Hx]. exists y. specialize (R1 k y Hy). rewrite Hx in R1.
    split; [done|]. split; [|done]. by destruct R1 as [->|[_ [->|[[? _] _]]]]. }
  assert (Hplace : forall y x, x = y \/ (rec y /\ marked y x w1) -> place_of x = place_of y \/ (place_of x = None /\ gone y w1)).
  { intros y x Hx. apply marked_place. tauto. }
  split; [by etrans|]. split; [auto|]. split; [|split].
  - intros l Hl. apply L1 in Hl as [Hl|(k & y & ? & ? & [?|[]])]; [|right; exists k, y; tauto].
    apply L2 in Hl as [Hl|(k & x & Hx & Hp & [[]|Hpx])]; [by left|]. apply Hback in Hx as (y & Hy & Hc & Hm). right. exists k, y.
    apply Hplace in Hm as [E|[E _]]; [|congruence]. split; [done|]. split; [congruence|]. right. by eapply Hpur.
  - intros k Hk. auto.
  - intros k y Hy. pose proof (R1 k y Hy) as HR. destruct (rows (mediaAssets w1) !! k) as [x|] eqn:Hx; [|by destruct HR].
    pose proof (R2 k x Hx) as HR2. destruct (rows (mediaAssets w2) !! k) as [z|] eqn:Hz.
    + destruct HR2 as [->|[[] _]]. destruct HR as [->|[? ?]]; [by left|right]. split; [done|]. by eapply marked_mono.
    + destruct HR2 as [Hpx Hg]. destruct (Hback k x Hx) as (y' & Hy' & Hc & _). assert (y' = y) as -> by congruence.
      split; [by eapply Hpur|]. apply Hplace in HR as [E|[_ HG]]; [|by eapply gone_mono]. unfold gone in *. by rewrite <- E.
Qed.

(** *** Reading the page, and going through it *)
Lemma sweep_page {A} (S : MediaAsset.t -> option MediaAsset.t -> World -> Prop) L p (le : relation (string * MediaAsset.t))
    `{!RelDecision le, !Transitive le, !Total le} (f : string * MediaAsset.t -> A -> io World A) a w :
  (forall y w, S y (Some y) w) -> (forall y o w w', (forall l, holds l w' -> holds l w) -> S y o w -> S y o w') ->
  (forall k y a w, rows (mediaAssets w) !! k = Some y -> p y = true -> wp (f (k, y) a) (dealt S L k y w) w) ->
  wp (assets ← db (fun w => Some (findPage (fun _ => p) le None 0 CLEANUP_BATCH_SIZE (mediaAssets w), w)); fold_io f assets a) (fun r w' =>
    exists l, swept S L l w r w' /\ (forall k y, (k, y) ∈ l -> rows (mediaAssets w) !! k = Some y /\ p y = true) /\
      (no_faults -> (size (filter (fun kr => p kr.2 = true) (rows (mediaAssets w))) <= CLEANUP_BATCH_SIZE)%nat ->
         forall k y, rows (mediaAssets w) !! k = Some y -> p y = true -> (k, y) ∈ l)) w.
Proof.
  intros S1 S2 Hf. pose proof (findPage_first (fun _ => p) le CLEANUP_BATCH_SIZE (mediaAssets w)) as (Hnd & Hin & Hall).
  set (l := findPage _ _ _ _ _ _) in *.
  assert (Hs : wp (fold_io f l a) (swept S L l (bump w)) (bump w)) 
    by (apply (sweep (fun y => p y = true)); try done; intros k y Hk; change (mediaAssets (bump w)) with (mediaAssets w); apply Hin in Hk as [? ?]; done).
  assert (Hw : forall r w', swept S L l (bump w) r w' -> swept S L l w (r : exec js_error A) w').
  { intros r w' (? & M & ?). split; [done|]. split; [|done]. etrans; [|exact M]. exists (mediaAssets w), (files w), (objects w), (Datatypes.S (tick w)). by destruct w. }
  assert (Hno : ~ no_faults -> forall e, swept S L [] w (Throws e : exec js_error A) (bump w)).
  { intros Hn e. split; [done|]. split; [exists (mediaAssets w), (files w), (objects w), (Datatypes.S (tick w)); by destruct w|].
    split; [by intros []|]. split; [intros []; by left|]. split; [done|]. split; [by intros k y ?%elem_of_nil|done]. }
  unfold wp at 1, mbind, io_bind, db. destruct (db_fault (tick w)) eqn:Ef.
  - unfold wp in Hs. cbn [fst snd]. change (findPage _ _ _ _ _ (mediaAssets (bump w))) with l. exists l. split; [by apply Hw|]. split; [|by intros _].
    intros k y Hk. by apply Hin in Hk as [? ?].
  - assert (Hn : ~ no_faults) by (intros Hn; by rewrite Hn in Ef). exists []. split; [by apply Hno|]. split; [by intros k y ?%elem_of_nil|done].
  - assert (Hn : ~ no_faults) by (intros Hn; by rewrite Hn in Ef). exists []. split; [by apply Hno|]. split; [by intros k y ?%elem_of_nil|done].
Qed.

(** *** The two halves *)
Definition few (p : MediaAsset.t -> bool) (w : World) : Prop := (size (filter (fun kr => p kr.2 = true) (rows (mediaAssets w))) <= CLEANUP_BATCH_SIZE)%nat.

Lemma swept_tended {A} rec pur S L l w r w' :
  (forall k y, (k, y) ∈ l -> rows (mediaAssets w) !! k = Some y /\ (rec y \/ pur y)) ->
  (forall k y, (k, y) ∈ l -> S y (rows (mediaAssets w') !! k) w' ->
     match rows (mediaAssets w') !! k with Some x => x = y \/ (rec y /\ marked y x w') | None => pur y /\ gone y w' end) ->
  swept S L l w (r : exec js_error A) w' -> tended rec pur w w'.
Proof.
  intros Hl HS (_ & M & Sh & Lo & O & E & _). split; [done|]. split; [done|]. split; [|split].
  - intros x [?|(k & y & Hin & Hp)]%Lo; [by left|]. right. exists k, y. destruct (Hl k y Hin). tauto.
  - intros k Hk. rewrite O; [done|]. intros ([k' y] & -> & Hin)%list_elem_of_fmap. cbn in Hk. destruct (Hl _ _ Hin). congruence.
  - intros k y Hy. destruct (decide (k ∈ l.*1)) as [Hk|Hk]; [|rewrite O, Hy by done; by left].
    apply list_elem_of_fmap in Hk as ([k' y'] & -> & Hin). cbn in *. destruct (Hl _ _ Hin) as [Hy' _]. assert (y' = y) as -> by congruence.
    apply HS; [done|]. by apply E.
Qed.

Lemma readStaleUploadMs_returns : readStaleUploadMs <> OutOfFuel.
Proof. apply read_integer_returns. Qed.
(** The uploads that were stale at [now]. *)
Definition stale_at (now : Z) (y : MediaAsset.t) : Prop := exists staleMs, readStaleUploadMs = Ok staleMs /\ to_reconcile (now - staleMs) y = true.
Lemma reconcileStaleUploads_spec now w :
  wp (reconcileStaleUploads now) (fun r w' => r <> OutOfFuel /\ tended (stale_at now) (fun _ => False) w w' /\
    (no_faults -> forall staleMs, readStaleUploadMs = Ok staleMs -> few (to_reconcile (now - staleMs)) w ->
       forall k y, rows (mediaAssets w) !! k = Some y -> to_reconcile (now - staleMs) y = true ->
       exists x, rows (mediaAssets w') !! k = Some x /\ resolved y x)) w.
Proof.
  unfold reconcileStaleUploads. apply wp_bind, wp_lift. pose proof readStaleUploadMs_returns as Hr. unfold stale_at.
  destruct readStaleUploadMs as [ms|e|] eqn:Em; [| |done].
  2:{ split; [done|]. split; [apply tended_refl|done]. }
  set (p := to_reconcile (now - ms)).
  eapply wp_mono; [apply (sweep_page (fun y o w => exists x, o = Some x /\ marked y x w) (fun y o => exists x, o = Some x /\ resolved y x) p); [apply _..| | |]|].
  - intros y v. exists y. by split; [|left].
  - intros y o v v' Hs (x & -> & Hm). exists x. split; [done|]. by eapply marked_mono.
  - intros k y a v Hy Hp. eapply wp_mono; [by apply (reconcile_one_spec now (now - ms) k y)|].
    intros r v' (Hn & Ht & x & Hx & Hm & Hf). split; [done|]. split; [done|]. rewrite Hx. split; [by exists x|].
    intros Hnf. destruct (Hf Hnf) as [Ha Hres]. split; [done|]. by exists x.
  - intros r w' (l & Hs & Hl & Hall). split; [by destruct Hs|]. split.
    + eapply (swept_tended _ _ _ _ l); [| |exact Hs].
      * intros k y Hin. destruct (Hl k y Hin) as [? ?]. split; [done|]. left. by exists ms.
      * intros k y Hin (x & -> & Hm). right. split; [|done]. exists ms. split; [done|]. by apply (Hl k y).
    + intros Hnf ms' [= <-] Hfew k y Hy Hp. destruct Hs as (_ & _ & _ & _ & _ & E & _). by apply (E k y); [apply Hall|].
Qed.

(** *** Expired assets *)
Lemma purge_one_spec now k y n w : rows (mediaAssets w) !! k = Some y -> expired now y = true ->
  wp (purge_one now (k, y) n) (dealt (fun y o w => o = Some y \/ (o = None /\ gone y w)) (fun y o => removable y -> o = None) k y w) w.
Proof.
  intros Hy He. unfold purge_one. apply wp_bind. eapply wp_mono; [apply (try_discard_spec k)|].
  intros r w1 (Ht & E & b & -> & Hg & Hrem). rewrite <- E in Hy. destruct b; cbn [negb].
  2:{ apply wp_ret. split; [done|]. split; [done|]. rewrite Hy. split; [by left|]. intros _. split; [by eexists|]. by intros ?%Hrem. }
  apply wp_bind. destruct (delete_id_spec (expired now) k y w1 Hy) as [i Hd]. eapply wp_mono; [exact Hd|]. rewrite He.
  intros r w2 (Hr & Ht2 & Ho & Hok). assert (Ht2' : touches k (place_of y) w w2) by (etrans; [exact Ht|by apply touches_none]).
  assert (Hs : rows (mediaAssets w2) !! k = Some y \/ (rows (mediaAssets w2) !! k = None /\ gone y w2)).
  { destruct Ho as [->| ->]; [by left|right]. split; [done|]. eapply gone_mono; [apply Ht2|by apply Hg]. }
  destruct r as [j|e|]; [apply wp_ret| |done]; (split; [done|]; split; [done|]; split; [done|]); intros Hf; destruct Hok as [Hi Hk]; [by left| |by left|done].
  by split; [eexists|].
Qed.
Lemma purgeExpired_spec now w :
  wp (purgeExpired now) (fun r w' => r <> OutOfFuel /\ tended (fun _ => False) (fun y => expired now y = true) w w' /\
    (no_faults -> few (expired now) w -> forall k y, rows (mediaAssets w) !! k = Some y -> expired now y = true -> removable y ->
       rows (mediaAssets w') !! k = None)) w.
Proof.
  unfold purgeExpired. eapply wp_mono; [apply (sweep_page (fun y o w => o = Some y \/ (o = None /\ gone y w)) (fun y o => removable y -> o = None) (expired now)); [apply _..| | |]|].
  - intros y v. by left.
  - intros y o v v' Hs [->|[-> Hg]]; [by left|right]. split; [done|]. by eapply gone_mono.
  - intros k y a v Hy Hp. by apply purge_one_spec.
  - intros r w' (l & Hs & Hl & Hall). split; [by destruct Hs|]. split.
    + eapply (swept_tended _ _ _ _ l); [| |exact Hs].
      * intros k y Hin. destruct (Hl k y Hin) as [? ?]. split; [done|]. by right.
      * intros k y Hin [->|[-> Hg]]; [by left|]. split; [|done]. by apply (Hl k y).
    + intros Hnf Hfew k y Hy Hp Hrem. destruct Hs as (_ & _ & _ & _ & _ & E & _). destruct (E k y) as [_ HL]; [by apply Hall|]. by apply HL.
Qed.

(** *** Both *)
Lemma core_expired now x y : core x = core y -> expired now x = true -> expired now y = true.
Proof. unfold expired. intros Hc. assert (MediaAsset.expiresAt x = MediaAsset.expiresAt y) as -> by (unfold core in Hc; congruence). done. Qed.
Lemma marked_removable y x w : x = y \/ marked y x w -> removable y -> removable x.
Proof.
  intros [->|[->|[(Hc & _) [[Hk _]|(Hk & _)]]]]; [done|done| |]; unfold removable.
  - assert (MediaAsset.storageMode x = MediaAsset.storageMode y) as -> by (unfold core in Hc; congruence). by rewrite Hk.
  - by rewrite Hk.
Qed.
Lemma tended_marked rec w w' k y x : tended rec (fun _ => False) w w' -> rows (mediaAssets w) !! k = Some y -> rows (mediaAssets w') !! k = Some x ->
  core x = core y /\ (x = y \/ marked y x w').
Proof.
  intros (_ & _ & _ & _ & R) Hy Hx. specialize (R k y Hy). rewrite Hx in R. destruct R as [->|[_ Hm]]; [by split; [|left]|].
  split; [|by right]. by destruct Hm as [->|[[? _] _]].
Qed.
Lemma few_tended rec w w' now : tended rec (fun _ => False) w w' -> few (expired now) w -> few (expired now) w'.
Proof.
  unfold few. intros Ht Hf. etrans; [|exact Hf]. rewrite <- !size_dom. apply subseteq_size. intros k (x & [Hx He]%map_lookup_filter_Some)%elem_of_dom.
  apply elem_of_dom. destruct (rows (mediaAssets w) !! k) as [y|] eqn:Hy; [|destruct Ht as (_ & _ & _ & N & _); by rewrite N in Hx].
  exists y. apply map_lookup_filter_Some. split; [done|]. cbn. eapply core_expired; [|exact He]. by eapply tended_marked.
Qed.

(** What the maintenance does for sure, when the database is reliable and a page holds all there is to do: an upload that was
    stale is given up, and the binary of an expired asset is removed with it, unless the storage refuses. *)
Definition finishes (t1 t2 : Z) (w w' : World) : Prop :=
  (forall staleMs, readStaleUploadMs = Ok staleMs -> few (to_reconcile (t1 - staleMs)) w ->
     forall k y, rows (mediaAssets w) !! k = Some y -> to_reconcile (t1 - staleMs) y = true ->
       match rows (mediaAssets w') !! k with Some x => resolved y x | None => expired t2 y = true end) /\
  (few (expired t2) w -> forall k y, rows (mediaAssets w) !! k = Some y -> expired t2 y = true -> removable y -> rows (mediaAssets w') !! k = None).

Lemma maintenance_spec w :
  wp runMaintenance (fun r w' => r = Ok tt /\ exists n, let t1 := clock (tick w) in let t2 := clock n in
    tended (stale_at t1) (fun y => expired t2 y = true) w w' /\ (no_faults -> finishes t1 t2 w w')) w.
Proof.
  unfold runMaintenance. apply wp_bind. set (t1 := clock (tick w)).
  assert (Hr : wp (try_catch (now ← Domain.now; _ ← reconcileStaleUploads now; mret tt) (fun _ => mret tt)) (fun r w1 => r = Ok tt /\
    tended (stale_at t1) (fun _ => False) w w1 /\ (no_faults -> forall staleMs, readStaleUploadMs = Ok staleMs -> few (to_reconcile (t1 - staleMs)) w ->
       forall k y, rows (mediaAssets w) !! k = Some y -> to_reconcile (t1 - staleMs) y = true ->
       exists x, rows (mediaAssets w1) !! k = Some x /\ resolved y x)) w).
  { apply wp_try, wp_bind. change (wp now ?Q w) with (Q (Ok t1) (bump w)). cbn beta iota. apply wp_bind.
    eapply wp_mono; [apply reconcileStaleUploads_spec|]. intros r w1 (Hn & Ht%tended_bump & Hf).
    destruct r as [x|e|]; [apply wp_ret|apply wp_ret|done]; by split. }
  eapply wp_mono; [exact Hr|]. intros r w1 (-> & Ht1 & Hf1). apply wp_try, wp_bind. set (t2 := clock (tick w1)).
  change (wp now ?Q w1) with (Q (Ok t2) (bump w1)). cbn beta iota. apply wp_bind. eapply wp_mono; [apply purgeExpired_spec|].
  intros r w2 (Hn & Ht2%tended_bump & Hf2).
  assert (Hend : exists n, tended (stale_at t1) (fun y => expired (clock n) y = true) w w2 /\ (no_faults -> finishes t1 (clock n) w w2)).
  { exists (tick w1). fold t2. split; [eapply tended_compose; [|exact Ht1|exact Ht2]; intros x y; apply core_expired|]. intros Hnf. split.
    - intros ms Hms Hfew k y Hy Hp. destruct (Hf1 Hnf ms Hms Hfew k y Hy Hp) as (x & Hx & Hres). destruct (tended_marked _ _ _ _ _ _ Ht1 Hy Hx) as [Hc _].
      destruct Ht2 as (_ & _ & _ & _ & R). specialize (R k x Hx). destruct (rows (mediaAssets w2) !! k) as [z|]; [by destruct R as [->|[[] _]]|].
      destruct R as [He _]. by eapply core_expired.
    - intros Hfew k y Hy He Hrem. pose proof (few_tended _ _ _ _ Ht1 Hfew) as Hfew1.
      destruct (rows (mediaAssets w1) !! k) as [x|] eqn:Hx; [|destruct Ht2 as (_ & _ & _ & N & _); by apply N].
      destruct (tended_marked _ _ _ _ _ _ Ht1 Hy Hx) as [Hc Hm]. apply (Hf2 Hnf Hfew1 k x Hx); [by eapply core_expired|by eapply marked_removable]. }
  destruct r as [x|e|]; [apply wp_ret|apply wp_ret|done]; by split.
Qed.

End maintenance.
