(* ===== verification/MediaHistory.v ===== *)
(** Histories of the media assets: uploads and maintenance, in any order.  A binary is never kept without the asset
    it belongs to, a finished asset carries no failure, and it stays as it is until it has expired. *)
From stdpp Require Import prelude list gmap strings.
From Stdlib Require Import ZArith Lia.
From S2P Require Import Prelude Json Io Prisma Domain Frame Tables Senders Dispatcher Payload Secrets MediaPolicy Scanner Graph.
From S2P Require Import FileHandle Signature MediaStorage Messages MediaUploads MediaRetention.
#[local] Open Scope Z_scope.

Section history.
Context `{Prisma} `{Environment} `{UrlParser} `{Host} `{GraphApi} `{MetaMedia} `{MediaDisk} `{ObjectStore} `{ScannerNetwork} `{UploadHost}.

(** What happens to the media of the program. *)
Inductive media_event :=
| Uploaded (tenantId : string) (fields : list (string * json)) (file : option StoredMediaUploadFile.t)
| Maintained.
(** The file of an upload is on the disk before the request is served. *)
Definition arrived (file : option StoredMediaUploadFile.t) (w : World) : World :=
  match has_path file with Some f => w <| files ::= union {[StoredMediaUploadFile.path f]} |> | None => w end.
Definition handle_media (w : World) (e : media_event) : World :=
  match e with
  | Uploaded tenantId fields file => (upload tenantId fields file (arrived file w)).2
  | Maintained => (runMaintenance w).2
  end.

(** A place where assets have their binaries: an object, or a file under the root of the storage. *)
Definition in_storage (l : place) : Prop :=
  match l with
  | inl path => exists root, filesystemRoot = Ok root /\ String.prefix (root +:+ "/") path = true
  | inr _ => True
  end.
(** Uploads arrive elsewhere. *)
Definition arrives_outside (e : media_event) : Prop :=
  match e with
  | Uploaded _ _ file => match has_path file with Some f => ~ in_storage (inl (StoredMediaUploadFile.path f)) | None => True end
  | Maintained => True
  end.

(** Every binary in the storage belongs to an asset. *)
Definition owned (w : World) : Prop :=
  forall l, in_storage l -> holds l w -> exists k a, rows (mediaAssets w) !! k = Some a /\ place_of a = Some l.
(** An asset that Meta knows is finished. *)
Definition settled_assets (w : World) : Prop :=
  forall k a, rows (mediaAssets w) !! k = Some a -> is_Some (MediaAsset.providerMediaId a) -> finished a.
(** What an asset that Meta knows becomes: nothing, unless it has expired. *)
Definition lasting (w w' : World) : Prop :=
  forall k a, rows (mediaAssets w) !! k = Some a -> is_Some (MediaAsset.providerMediaId a) ->
    rows (mediaAssets w') !! k = Some a \/ exists n, expired (clock n) a = true.
#[export] Instance lasting_preorder : PreOrder lasting.
Proof.
  split; [by left|]. intros w1 w2 w3 L1 L2 k a Ha Hm. destruct (L1 k a Ha Hm) as [Ha1|?]; [by apply L2|by right].
Qed.

(** *** Uploads *)
Lemma upload_rows T file w r w' : upload_outcome T file w r w' ->
  rows (mediaAssets w') = rows (mediaAssets w) \/
  exists id x, rows (mediaAssets w) !! id = None /\ rows (mediaAssets w') = <[id := x]> (rows (mediaAssets w)) /\
    (MediaAsset.providerMediaId x = None \/ finished x).
Proof.
  intros [(E & _)|(adm & t & _ & Hnew & sent & [[(a & [Ha _] & _ & Hp) _]|(x & [Hx _] & _ & Hf & _)] & _)]; [by left|right..].
  - exists (admitted_id adm), a. split; [done|]. split; [done|]. by left.
  - exists (admitted_id adm), x. split; [done|]. split; [done|]. by right.
Qed.
Lemma static_place a b : static a = static b -> place_of a = place_of b.
Proof.
  intros E. unfold place_of. assert (MediaAsset.storageMode a = MediaAsset.storageMode b) as -> by (unfold static in E; congruence).
  by assert (MediaAsset.storageKey a = MediaAsset.storageKey b) as -> by (unfold static in E; congruence).
Qed.
(** The places that may have gained a binary: that of the upload, and that of the new asset. *)
Lemma upload_places T file w r w' l : upload_outcome T file w r w' -> holds l w' ->
  holds l w \/ l = inl (StoredMediaUploadFile.path file) \/ exists k a, rows (mediaAssets w') !! k = Some a /\ place_of a = Some l.
Proof.
  intros [(_ & _ & Hp & _)|(adm & t & _ & _ & sent & Hpr & Hp & _)] Hl.
  - destruct (decide (l = inl (StoredMediaUploadFile.path file))) as [->|Hn]; [by right; left|left]. apply Hp; [|done]. by intros ->%list_elem_of_singleton.
  - destruct (decide (l ∈ inl (StoredMediaUploadFile.path file) :: option_list (place_of (new_asset T file adm t)))) as [Hin|Hn]; [|left; by apply Hp].
    right. apply elem_of_cons in Hin as [->|Hin]; [by left|right].
    assert (Hpl : place_of (new_asset T file adm t) = Some l).
    { destruct (place_of _) as [l'|]; cbn in Hin; [|by apply elem_of_nil in Hin]. by apply list_elem_of_singleton in Hin as ->. }
    exists (admitted_id adm). destruct Hpr as [[(a & [Ha _] & Hs & _) _]|(x & [Hx _] & Hs & _)]; [exists a|exists x].
    + rewrite Ha, lookup_insert_eq. split; [done|]. by rewrite (static_place _ _ Hs).
    + rewrite Hx, lookup_insert_eq. split; [done|]. by rewrite (static_place _ _ Hs).
Qed.

Lemma uploaded_kept T file w r w' : ~ in_storage (inl (StoredMediaUploadFile.path file)) -> upload_outcome T file w r w' ->
  (owned w -> owned w') /\ (settled_assets w -> settled_assets w') /\ lasting w w'.
Proof.
  intros Hout Hu. pose proof (upload_rows _ _ _ _ _ Hu) as Hr.
  assert (Hk : forall k a, rows (mediaAssets w) !! k = Some a -> rows (mediaAssets w') !! k = Some a).
  { destruct Hr as [->|(id & x & Hn & -> & _)]; [done|]. intros k a Ha. rewrite lookup_insert_ne; [done|congruence]. }
  split; [|split].
  - intros Ho l Hl Hh. apply (upload_places _ _ _ _ _ l Hu) in Hh as [Hh|[->|?]]; [|done|done].
    destruct (Ho l Hl Hh) as (k & a & Ha & Hp). exists k, a. by split; [apply Hk|].
  - intros Hs k a Ha Hm. destruct Hr as [E|(id & x & _ & E & Hx)]; rewrite E in Ha; [by eapply Hs|].
    apply lookup_insert_Some in Ha as [[_ <-]|[_ Ha]]; [|by eapply Hs]. destruct Hx as [Hx|Hx]; [|done]. rewrite Hx in Hm. by destruct Hm.
  - intros k a Ha _. left. by apply Hk.
Qed.

(** *** Maintenance *)
Lemma core_media x y : core x = core y -> MediaAsset.providerMediaId x = MediaAsset.providerMediaId y.
Proof. unfold core. congruence. Qed.
Lemma stale_no_media t y : stale_at t y -> MediaAsset.providerMediaId y = None.
Proof. intros (ms & _ & [Hn _]%andb_true_iff). by apply bool_decide_eq_true in Hn. Qed.
Lemma tended_kept t n w w' : tended (stale_at t) (fun y => expired (clock n) y = true) w w' ->
  (owned w -> owned w') /\ (settled_assets w -> settled_assets w') /\ lasting w w'.
Proof.
  intros (_ & Sh & _ & N & R). split; [|split].
  - intros Ho l Hl Hh. destruct (Ho l Hl (Sh l Hh)) as (k & y & Hy & Hp). specialize (R k y Hy).
    destruct (rows (mediaAssets w') !! k) as [x|] eqn:Hx; [|destruct R as [_ Hg]; by destruct (Hg l Hp)].
    exists k, x. split; [done|]. destruct (marked_place y x w') as [->|[_ Hg]]; [tauto|done|by destruct (Hg l Hp)].
  - intros Hs k x Hx Hm. destruct (rows (mediaAssets w) !! k) as [y|] eqn:Hy; [|by rewrite N in Hx]. specialize (R k y Hy). rewrite Hx in R.
    destruct R as [->|[Hst [->|[(Hc & _) _]]]]; [by eapply Hs..|]. rewrite (core_media _ _ Hc), (stale_no_media _ _ Hst) in Hm. by destruct Hm.
  - intros k y Hy Hm. specialize (R k y Hy). destruct (rows (mediaAssets w') !! k) as [x|]; [|right; exists n; tauto].
    destruct R as [->|[Hst _]]; [by left|]. rewrite (stale_no_media _ _ Hst) in Hm. by destruct Hm.
Qed.

(** *** Histories *)
Lemma arrived_kept file w : (match has_path file with Some f => ~ in_storage (inl (StoredMediaUploadFile.path f)) | None => True end) ->
  mediaAssets (arrived file w) = mediaAssets w /\ (owned w -> owned (arrived file w)).
Proof.
  unfold arrived. destruct (has_path file) as [f|]; [|done]. intros Hout. split; [done|]. intros Ho [path|url] Hl Hh; [|by apply (Ho (inr url))].
  cbn in Hh. apply elem_of_union in Hh as [->%elem_of_singleton|Hh]; [done|by apply (Ho (inl path))].
Qed.
Lemma event_kept e w : arrives_outside e ->
  (owned w -> owned (handle_media w e)) /\ (settled_assets w -> settled_assets (handle_media w e)) /\ lasting w (handle_media w e).
Proof.
  intros Hout. destruct e as [T fields file|]; cbn [handle_media].
  - destruct (arrived_kept file w Hout) as [Ea Ho]. set (w1 := arrived file w) in *.
    assert (Hk : (owned w1 -> owned (upload T fields file w1).2) /\ (settled_assets w1 -> settled_assets (upload T fields file w1).2) /\
      lasting w1 (upload T fields file w1).2).
    { clearbody w1. unfold upload. cbn in Hout. destruct (has_path file) as [f|]; [|done].
      destruct (upload_ends T fields f w1) as [Hu _]. by eapply uploaded_kept. }
    destruct Hk as (K1 & K2 & K3). split; [auto|]. unfold settled_assets, lasting in *. rewrite Ea in K2, K3. done.
  - destruct (maintenance_spec w) as (_ & n & Ht & _). by eapply tended_kept.
Qed.

(** C27: Along every history of uploads that arrive outside the storage and of maintenance, whatever the database, the disk,
    the bucket, the scanner and Meta do: no binary is ever kept in the storage without an asset it belongs to, an asset Meta
    knows never carries a failure, and it stays exactly as it is until it has expired. *)
Theorem media_history (events : list media_event) (w : World) :
  Forall arrives_outside events -> owned w -> settled_assets w ->
  let w' := foldl handle_media w events in owned w' /\ settled_assets w' /\ lasting w w'.
Proof.
  intros Hall. revert w. induction Hall as [|e events He _ IH]; intros w Ho Hs; cbn [foldl]; [done|].
  destruct (event_kept e w He) as (K1 & K2 & K3). destruct (IH _ (K1 Ho) (K2 Hs)) as (J1 & J2 & J3).
  split; [done|]. split; [done|]. by etrans.
Qed.
End history.

(** ** An upload that expires *)
Section example.
#[local] Open Scope string_scope.
Definition media_host : Host :=
  {| process_env := fun name =>
       if name =? "MEDIA_BINARY_STORAGE_MODE" then Some "filesystem" else if name =? "MEDIA_FILESYSTEM_STORAGE_PATH" then Some "/var/media/"
       else if name =? "TOKEN" then Some "token" else None;
     realpath := fun _ _ => None; lstat := fun _ _ => None; open_nofollow := fun _ _ => None |}.
Definition media_graph : GraphApi :=
  {| config := fun name => if name =? "META_GRAPH_API_VERSION" then Some "v20.0" else None; fetch := fun _ _ => inl (Error "not used") |}.
(** Meta takes every file. *)
Definition media_meta : MetaMedia :=
  {| open_blob := fun _ _ => None;
     media_fetch := fun _ _ => inr (GraphResponse.make 200 "{}" (Some (JObj [("id", JStr "media-1")]))) |}.
Definition media_disk : MediaDisk :=
  {| disk_stat := fun _ _ => inr {| MediaStorage.isFile := false; isDirectory := true; MediaStorage.st_size := 0 |};
     disk_access := fun _ _ => None;
     disk_statfs := fun _ _ => inr {| blocks := 100000000; bavail := 90000000; bsize := 4096 |};
     disk_read := fun _ _ => inr []; disk_mkdir := fun _ _ => None; disk_copy := fun _ _ _ => (true, None); disk_rm := fun _ _ => None |}.
Program Definition no_bucket : ObjectStore :=
  {| s3_answer := fun _ _ => inl (Error "not used"); s3_applied := fun _ _ => false |}.
Solve All Obligations with done.
Definition no_scanner : ScannerNetwork := fun _ _ _ _ => [].
Definition media_uploads : UploadHost :=
  {| upload_file := fun _ _ => inr example_file; randomUUID := fun _ => "asset"; isUUID4 := fun _ => true |}.
(** The clock jumps by a year after the upload. *)
Definition year_later : Environment :=
  {| clock := fun n => if (n <? 20)%nat then 1700000000000%Z else 1731536000000%Z; db_fault := fun _ => Reliable |}.

Definition example_upload : media_event :=
  Uploaded "t" [] (Some (StoredMediaUploadFile.make "/tmp/upload-1" "audio/amr" 7)).
Abbreviation media_after := (foldl (@handle_media gmap_prisma year_later https_only media_host media_graph media_meta media_disk no_bucket no_scanner media_uploads)).

(** The file is stored, handed to Meta and removed from where it arrived; a year later nothing is left of it. *)
Example upload_expires :
  let w1 := media_after senders_example [example_upload] in
  let w2 := media_after senders_example [example_upload; Maintained] in
  files w1 = {["/var/media/t/asset"]} /\ uploads w1 = [("/var/media/t/asset", "audio/amr")] /\
  (fun a => (MediaAsset.providerMediaId a, MediaAsset.storageKey a)) <$> (rows (mediaAssets w1) !! "asset") = Some (Some "media-1", Some "t/asset") /\
  files w2 = ∅ /\ rows (mediaAssets w2) !! "asset" = None.
Proof. vm_compute. repeat split. Qed.

Lemma media_history_witness :
  let events := [example_upload; Maintained] in
  Forall (@arrives_outside media_host) events /\
  let w' := media_after senders_example events in
  @owned gmap_prisma https_only media_host w' /\ settled_assets w' /\ @lasting gmap_prisma year_later senders_example w'.
Proof.
  assert (Hout : Forall (@arrives_outside media_host) [example_upload; Maintained]).
  { repeat constructor. cbn. intros (root & Hr & Hp). assert (root = "/var/media") as -> by (vm_compute in Hr; congruence).
    vm_compute in Hp. discriminate. }
  split; [exact Hout|].
  refine (@media_history gmap_prisma year_later https_only media_host media_graph media_meta media_disk no_bucket no_scanner media_uploads
    [example_upload; Maintained] senders_example Hout _ _).
  - intros [path|url] _ Hh; cbn in Hh; by apply elem_of_empty in Hh.
  - intros k a Ha. cbn in Ha. by rewrite lookup_empty in Ha.
Defined.

(** An upload that was cut off: it is given up, and its binary goes. *)
Definition cut_off : MediaAsset.t :=
  {| MediaAsset.tenantId := "t"; MediaAsset.senderId := "a"; MediaAsset.providerMediaId := None; MediaAsset.category := "AUDIO";
     MediaAsset.mimeType := "audio/amr"; MediaAsset.size := 7; MediaAsset.scanMode := "DISABLED"; MediaAsset.scanStatus := "NOT_SCANNED";
     MediaAsset.storageMode := "FILESYSTEM"; MediaAsset.storageKey := Some "t/asset"; MediaAsset.storedAt := Some 1699990000000%Z;
     MediaAsset.providerUploadedAt := None; MediaAsset.expiresAt := Some 1702592000000%Z; MediaAsset.failedAt := None;
     MediaAsset.failureCode := None; MediaAsset.createdAt := 1699990000000%Z; MediaAsset.updatedAt := 1699990000000%Z |}.
Example cut_off_upload :
  let w := media_after (senders_example <| mediaAssets := ({["asset" := cut_off]} : gmap string MediaAsset.t) |> <| files := {["/var/media/t/asset"]} |>) [Maintained] in
  files w = ∅ /\
  (fun a => (MediaAsset.failureCode a, MediaAsset.failedAt a, MediaAsset.storageKey a)) <$> (rows (mediaAssets w) !! "asset") =
    Some (Some "UPLOAD_ABANDONED", Some 1700000000000%Z, None).
Proof. vm_compute. split; reflexivity. Qed.
End example.
