(* ===== verification/Segments.v ===== *)
(** Saved contact segments ([segments/segments.service.ts], [segments/segment-definition.util.ts]):
    criteria that select contacts, checked and normalised when they are saved and again whenever
    they are read. *)
From stdpp Require Import prelude gmap strings sorting pretty.
From Stdlib Require Import Ascii ZArith Lia.
From S2P Require Import Prelude Json Io Prisma Domain Frame AuditTrail Payload.
#[local] Open Scope Z_scope.

(** ** Definitions of segments *)
(** [SegmentDefinitionInput] and [NormalizedSegmentDefinition]. *)
Module SegmentDefinition.
Record t := make {
  language : option string;
  tagsAny : option (list string);
  tagsAll : option (list string)
}.
End SegmentDefinition.
Abbreviation definition_t := SegmentDefinition.t.

Definition MAX_TAGS_PER_FILTER : nat := 50.
Definition MAX_LANGUAGE_LENGTH : Z := 20.
Definition alphanumeric (c : Ascii.ascii) : bool :=
  let n := JsString.code_unit c in
  ((65 <=? n) && (n <=? 90)) || ((97 <=? n) && (n <=? 122)) || ((48 <=? n) && (n <=? 57)).
(** [/^[A-Za-z0-9][A-Za-z0-9:_-]{0,63}$/] *)
Definition tag_char (c : Ascii.ascii) : bool :=
  let n := JsString.code_unit c in alphanumeric c || (n =? 58) || (n =? 95) || (n =? 45).
Definition TAG_PATTERN (s : string) : bool :=
  match s with
  | EmptyString => false
  | String c s' => alphanumeric c && forallb tag_char (String.list_ascii_of_string s') && (JsString.len s' <=? 63)
  end.

Definition definition_error {A} (message : string) : exec js_error A := Throws (SegmentDefinitionError message).
Fixpoint check_tags (tags : list string) : exec js_error unit :=
  match tags with
  | [] => Ok tt
  | tag :: tags' => if TAG_PATTERN tag then check_tags tags' else definition_error ("Invalid segment tag '" +:+ tag +:+ "'")
  end.
Definition normalize_tag (tag : string) : string := JsString.toLowerCase (JsString.trim tag).
Definition distinct_tags (tags : list string) : list string :=
  filter (fun tag => tag <> ""%string) (set_of (normalize_tag <$> tags)).
Definition normalizeTags (tags : option (list string)) (fieldName : string) : exec js_error (list string) :=
  match tags with
  | None => Ok []
  | Some tags =>
      if (MAX_TAGS_PER_FILTER <? length tags)%nat then
        definition_error (fieldName +:+ " cannot contain more than " +:+ pretty (Z.of_nat MAX_TAGS_PER_FILTER) +:+ " tags")
      else
        _ ← check_tags (distinct_tags tags);
        Ok (merge_sort JsString.le (distinct_tags tags))
  end.

Definition some_tags (tags : list string) : option (list string) := match tags with [] => None | _ => Some tags end.
Definition normalizeSegmentDefinition (input : option definition_t) : exec js_error definition_t :=
  match input with
  | None => definition_error "Segment definition is required"
  | Some input =>
      let language := truthy (JsString.trim <$> SegmentDefinition.language input) in
      _ ← (match language with
           | Some l => if MAX_LANGUAGE_LENGTH <? JsString.len l then
               definition_error ("Segment language must be at most " +:+ pretty MAX_LANGUAGE_LENGTH +:+ " characters") else Ok tt
           | None => Ok tt
           end);
      tagsAny ← normalizeTags (SegmentDefinition.tagsAny input) "tagsAny";
      tagsAll ← normalizeTags (SegmentDefinition.tagsAll input) "tagsAll";
      match language, tagsAny, tagsAll with
      | None, [], [] => definition_error "Saved segment requires at least one criterion: language, tagsAny, or tagsAll"
      | _, _, _ => Ok (SegmentDefinition.make language (some_tags tagsAny) (some_tags tagsAll))
      end
  end.

Definition strings_only (l : list json) : list string := omap (fun v => as_string (Some v)) l.
Definition readPersistedSegmentDefinition (value : json) : exec js_error definition_t :=
  match value with
  | JObj candidate => normalizeSegmentDefinition (Some (SegmentDefinition.make
      (as_string (field "language" candidate))
      (strings_only <$> as_array (field "tagsAny" candidate))
      (strings_only <$> as_array (field "tagsAll" candidate))))
  | _ => definition_error "Persisted segment definition is invalid"
  end.

(** [toJson]: a definition as it is stored. *)
Definition tags_json (tags : list string) : json := JArr (JStr <$> tags).
Definition opt_field (key : string) (v : option json) : list (string * json) :=
  match v with Some v => [(key, v)] | None => [] end.
Definition definition_fields (d : definition_t) : list (string * json) :=
  opt_field "language" (JStr <$> SegmentDefinition.language d) ++
  opt_field "tagsAny" (tags_json <$> SegmentDefinition.tagsAny d) ++
  opt_field "tagsAll" (tags_json <$> SegmentDefinition.tagsAll d).
Definition definition_json (d : definition_t) : json := JObj (definition_fields d).

(** [segmentContactWhere] *)
Definition segmentContactWhere (tenantId : string) (d : definition_t) (_ : string) (c : Contact.t) : bool :=
  bool_decide (Contact.tenantId c = tenantId) && bool_decide (Contact.consentStatus c = ConsentStatus.OPTED_IN) &&
  match SegmentDefinition.language d with Some l => bool_decide (Contact.language c = Some l) | None => true end &&
  match SegmentDefinition.tagsAny d with Some l => bool_decide (Exists (fun t => t ∈ Contact.tags c) l) | None => true end &&
  match SegmentDefinition.tagsAll d with Some l => bool_decide (Forall (fun t => t ∈ Contact.tags c) l) | None => true end.

(** ** The service *)
Module CreateSegmentDto.
Record t := make { name : string; description : option string; definition : option definition_t }.
End CreateSegmentDto.
Module UpdateSegmentDto.
Record t := make { name : option string; description : option string; definition : option definition_t; active : option bool }.
End UpdateSegmentDto.

(** [@@unique([tenantId, name])] *)
Definition segment_unique : constraint ContactSegment.t := fun a b =>
  bool_decide (ContactSegment.tenantId a = ContactSegment.tenantId b /\ ContactSegment.name a = ContactSegment.name b).

Definition normalizeName (value : string) : exec js_error string :=
  match JsString.trim value with
  | EmptyString => Throws (BadRequestException "Segment name must contain non-whitespace characters")
  | name => Ok name
  end.
Definition normalizeDefinition (input : option definition_t) : exec js_error definition_t :=
  match normalizeSegmentDefinition input with
  | Throws (SegmentDefinitionError m) => Throws (BadRequestException m)
  | r => r
  end.
Definition readDefinition (value : json) : exec js_error definition_t :=
  match readPersistedSegmentDefinition value with
  | Throws (SegmentDefinitionError m) => Throws (UnprocessableEntityException m)
  | r => r
  end.
Definition definitionSummary (d : definition_t) : json :=
  JObj [("languageConfigured", JBool (bool_decide (is_Some (truthy (SegmentDefinition.language d)))));
        ("tagsAnyCount", JNum (Whole (Z.of_nat (length (default [] (SegmentDefinition.tagsAny d))))));
        ("tagsAllCount", JNum (Whole (Z.of_nat (length (default [] (SegmentDefinition.tagsAll d))))))]%string.

Section segments.
Context `{Prisma} `{Environment}.

Definition segment_find (p : string -> ContactSegment.t -> bool) : io World (option (string * ContactSegment.t)) :=
  db (fun w => Some (findFirst p (segments w), w)).
Definition assertNameAvailable (tenantId name : string) (excludingId : option string) : io World unit :=
  existing ← segment_find (fun k s => bool_decide (ContactSegment.tenantId s = tenantId) && bool_decide (ContactSegment.name s = name) &&
                                      match excludingId with Some id => negb (bool_decide (k = id)) | None => true end);
  match existing with
  | Some _ => throw (ConflictException "A contact segment with this name already exists for the tenant")
  | None => mret tt
  end.

Definition create_body (actor : MutationActor.t) (name : string) (dto : CreateSegmentDto.t) (definition : definition_t)
    (auditContext : option AuditRequestContext) : io World (string * ContactSegment.t) :=
  updatedAt ← now;
  let row := {| ContactSegment.tenantId := MutationActor.tenantId actor; ContactSegment.name := name;
                ContactSegment.description := truthy (JsString.trim <$> CreateSegmentDto.description dto);
                ContactSegment.definition := definition_json definition; ContactSegment.active := true;
                ContactSegment.updatedAt := updatedAt |} in
  id ← db (fun w => '(id, t) ← Prisma.create segment_unique row (segments w); Some (id, w <| segments := t |>));
  _ ← write_audit (auditLogData actor auditContext "contact_segment.created" "ContactSegment" (Some id)
         (Some (JObj [("name", JStr name); ("active", JBool true); ("criteria", definitionSummary definition)]%string)));
  mret (id, row).
Definition create (tenantOrPrincipal : TenantOrPrincipal) (dto : CreateSegmentDto.t)
    (auditContext : option AuditRequestContext) : io World (string * ContactSegment.t) :=
  let actor := mutationActor tenantOrPrincipal in
  name ← lift (normalizeName (CreateSegmentDto.name dto));
  _ ← assertNameAvailable (MutationActor.tenantId actor) name None;
  definition ← lift (normalizeDefinition (CreateSegmentDto.definition dto));
  transaction (create_body actor name dto definition auditContext).

Definition findById (tenantId id : string) : io World ContactSegment.t :=
  segment ← segment_find (fun k s => bool_decide (k = id) && bool_decide (ContactSegment.tenantId s = tenantId));
  match segment with
  | Some (_, s) => mret s
  | None => throw (NotFoundException "Contact segment not found")
  end.

Definition update_data (name : string) (dto : UpdateSegmentDto.t) (definition : option definition_t) (updatedAt : Z)
    (s : ContactSegment.t) : ContactSegment.t :=
  s <| ContactSegment.name := name |>
    <| ContactSegment.description ::= (fun old => match UpdateSegmentDto.description dto with
                                                  | Some d => truthy (Some (JsString.trim d)) | None => old end) |>
    <| ContactSegment.definition ::= (fun old => match definition with Some d => definition_json d | None => old end) |>
    <| ContactSegment.active ::= (fun old => default old (UpdateSegmentDto.active dto)) |>
    <| ContactSegment.updatedAt := updatedAt |>.
Definition changed (dto : UpdateSegmentDto.t) : list (string * bool) :=
  [("name", bool_decide (is_Some (UpdateSegmentDto.name dto))); ("description", bool_decide (is_Some (UpdateSegmentDto.description dto)));
   ("definition", match UpdateSegmentDto.definition dto with Some _ => true | None => false end);
   ("active", bool_decide (is_Some (UpdateSegmentDto.active dto)))]%string.
Definition update_body (actor : MutationActor.t) (id name : string) (dto : UpdateSegmentDto.t) (definition : option definition_t)
    (auditContext : option AuditRequestContext) : io World ContactSegment.t :=
  updatedAt ← now;
  updated ← db (fun w => t ← Prisma.update segment_unique id (update_data name dto definition updatedAt) (segments w);
                         s ← rows t !! id; Some (s, w <| segments := t |>));
  effective ← lift (match definition with Some d => Ok d | None => readDefinition (ContactSegment.definition updated) end);
  _ ← write_audit (auditLogData actor auditContext "contact_segment.updated" "ContactSegment" (Some id)
         (Some (JObj [("name", JStr (ContactSegment.name updated));
                      ("changedFields", JArr (JStr <$> changedFields (changed dto) (fun _ => None)));
                      ("active", JBool (ContactSegment.active updated));
                      ("definitionChanged", JBool (match UpdateSegmentDto.definition dto with Some _ => true | None => false end));
                      ("criteria", definitionSummary effective)]%string)));
  mret updated.
Definition update (tenantOrPrincipal : TenantOrPrincipal) (id : string) (dto : UpdateSegmentDto.t)
    (auditContext : option AuditRequestContext) : io World ContactSegment.t :=
  let actor := mutationActor tenantOrPrincipal in
  let tenantId := MutationActor.tenantId actor in
  existing ← findById tenantId id;
  name ← lift (match UpdateSegmentDto.name dto with None => Ok (ContactSegment.name existing) | Some n => normalizeName n end);
  _ ← (if String.eqb name (ContactSegment.name existing) then mret tt else assertNameAvailable tenantId name (Some id));
  definition ← lift (match UpdateSegmentDto.definition dto with
                     | None => Ok None
                     | Some d => r ← normalizeDefinition (Some d); Ok (Some r)
                     end);
  transaction (update_body actor id name dto definition auditContext).

(** [count]: whether the segment is active, the number of contacts, and when it was evaluated. *)
Definition count (tenantId id : string) : io World (bool * nat * Z) :=
  segment ← findById tenantId id;
  definition ← lift (readDefinition (ContactSegment.definition segment));
  n ← db (fun w => Some (length (findMany (segmentContactWhere tenantId definition) (contacts w)), w));
  evaluatedAt ← now;
  mret (ContactSegment.active segment, n, evaluatedAt).

Definition resolveActiveForCampaign (tenantId id : string) : io World (string * ContactSegment.t * definition_t) :=
  segment ← segment_find (fun k s => bool_decide (k = id) && bool_decide (ContactSegment.tenantId s = tenantId) && ContactSegment.active s);
  match segment with
  | None => throw (UnprocessableEntityException "Campaign contact segment was not found or is inactive")
  | Some (k, s) => definition ← lift (readDefinition (ContactSegment.definition s)); mret (k, s, definition)
  end.
End segments.

(** ** A stored definition reads back *)
Lemma merge_sort_sorted l : Sorted JsString.le l -> merge_sort JsString.le l = l.
Proof.
  intros Hs. apply (Sorted_unique JsString.le); [apply Sorted_merge_sort, _|done|apply merge_sort_Permutation].
Qed.

(** *** Sets *)
Lemma set_add_elem seen x y : y ∈ set_add seen x <-> y ∈ seen \/ y = x.
Proof.
  unfold set_add. case_bool_decide as E; [split; [by left|by intros [?| ->]]|].
  rewrite elem_of_app, list_elem_of_singleton. done.
Qed.
Lemma set_add_nodup seen x : NoDup seen -> NoDup (set_add seen x).
Proof.
  intros Hn. unfold set_add. case_bool_decide as E; [done|]. apply NoDup_app. split; [done|]. split; [|apply NoDup_singleton].
  intros y Hy ->%list_elem_of_singleton. done.
Qed.
Lemma set_of_app seen l : NoDup (seen ++ l) -> foldl set_add seen l = seen ++ l.
Proof.
  revert seen. induction l as [|x l IH]; intros seen Hn; cbn; [by rewrite app_nil_r|].
  assert (Hx : set_add seen x = seen ++ [x]).
  { unfold set_add. rewrite bool_decide_false; [done|]. intros Hx. apply NoDup_app in Hn as (_ & Hd & _). by apply (Hd x Hx); left. }
  rewrite Hx, IH, <- app_assoc; [done|]. by rewrite <- app_assoc.
Qed.
Lemma set_of_distinct l : NoDup l -> set_of l = l.
Proof. apply (set_of_app []). Qed.
Lemma set_of_elem l x : x ∈ set_of l <-> x ∈ l.
Proof.
  unfold set_of. assert (forall seen, x ∈ foldl set_add seen l <-> x ∈ seen \/ x ∈ l) as ->.
  { induction l as [|y l IH]; intros seen; cbn; [rewrite elem_of_nil; tauto|]. rewrite IH, set_add_elem, elem_of_cons. tauto. }
  rewrite elem_of_nil. tauto.
Qed.
Lemma set_of_nodup l : NoDup (set_of l).
Proof.
  unfold set_of. generalize (NoDup_nil_2 : NoDup (@nil string)). generalize (@nil string).
  induction l as [|y l IH]; intros seen Hn; cbn; [done|]. by apply IH, set_add_nodup.
Qed.
Lemma set_of_length l : (length (set_of l) <= length l)%nat.
Proof.
  unfold set_of. assert (Hg : forall seen, (length (foldl set_add seen l) <= length seen + length l)%nat); [|apply (Hg [])].
  induction l as [|y l IH]; intros seen; cbn; [lia|]. etrans; [apply IH|]. unfold set_add.
  case_bool_decide; [lia|]. rewrite length_app. cbn. lia.
Qed.

(** *** Tags *)
Lemma lower_char_again c : JsString.lower_char (JsString.lower_char c) = JsString.lower_char c.
Proof. destruct c as [[] [] [] [] [] [] [] []]; vm_compute; reflexivity. Qed.
Lemma toLowerCase_again s : JsString.toLowerCase (JsString.toLowerCase s) = JsString.toLowerCase s.
Proof. unfold JsString.toLowerCase. induction s as [|c s IH]; cbn; [done|]. by rewrite lower_char_again, IH. Qed.
Lemma space_lower c : JsString.is_space (JsString.lower_char c) = JsString.is_space c.
Proof. destruct c as [[] [] [] [] [] [] [] []]; vm_compute; reflexivity. Qed.
Lemma trimStart_lower s : JsString.trimStart (JsString.toLowerCase s) = JsString.toLowerCase (JsString.trimStart s).
Proof.
  unfold JsString.toLowerCase. induction s as [|c s IH]; cbn; [done|]. rewrite space_lower. by destruct (JsString.is_space c).
Qed.
Lemma reverse_lower s : JsString.reverse (JsString.toLowerCase s) = JsString.toLowerCase (JsString.reverse s).
Proof.
  assert (Ha : forall x, String.list_ascii_of_string (JsString.toLowerCase x) = map JsString.lower_char (String.list_ascii_of_string x)).
  { unfold JsString.toLowerCase. induction x as [|c x IH]; cbn; [done|by rewrite IH]. }
  assert (Hb : forall l, String.string_of_list_ascii (map JsString.lower_char l) = JsString.toLowerCase (String.string_of_list_ascii l)).
  { unfold JsString.toLowerCase. induction l as [|c l IH]; cbn; [done|by rewrite IH]. }
  unfold JsString.reverse. by rewrite Ha, <- map_rev, Hb.
Qed.
Lemma normalize_tag_again s : normalize_tag (normalize_tag s) = normalize_tag s.
Proof.
  unfold normalize_tag. assert (JsString.trim (JsString.toLowerCase (JsString.trim s)) = JsString.toLowerCase (JsString.trim s)) as ->.
  { unfold JsString.trim at 1, JsString.trimEnd. rewrite trimStart_lower, reverse_lower, trimStart_lower, reverse_lower.
    f_equal. apply (trim_again s). }
  apply toLowerCase_again.
Qed.
Lemma tag_char_visible c : tag_char c = true -> JsString.is_space c = false.
Proof. destruct c as [[] [] [] [] [] [] [] []]; vm_compute; done. Qed.
Lemma alphanumeric_tag c : alphanumeric c = true -> tag_char c = true.
Proof. unfold tag_char. by intros ->. Qed.
Lemma visible_trim s : forallb tag_char (String.list_ascii_of_string s) = true -> JsString.trim s = s.
Proof.
  intros Hs. assert (Hstart : forall x, forallb tag_char (String.list_ascii_of_string x) = true -> JsString.trimStart x = x).
  { intros [|c x] Hx; [done|]. cbn in Hx. apply andb_true_iff in Hx as [Hc _]. cbn. by rewrite (tag_char_visible _ Hc). }
  unfold JsString.trim. rewrite Hstart by done. unfold JsString.trimEnd. rewrite Hstart; [apply reverse_involutive|].
  unfold JsString.reverse. rewrite String.list_ascii_of_string_of_list_ascii. apply forallb_forall. intros c Hc.
  apply in_rev in Hc. by eapply forallb_forall in Hs.
Qed.
Lemma pattern_chars s : TAG_PATTERN s = true -> forallb tag_char (String.list_ascii_of_string s) = true.
Proof.
  destruct s as [|c s]; [done|]. cbn. intros [[Hc Hs]%andb_true_iff _]%andb_true_iff. by rewrite (alphanumeric_tag _ Hc), Hs.
Qed.

(** What normalised tags are. *)
Record normal_tags (l : list string) : Prop := {
  normal_sorted : Sorted JsString.le l;
  normal_distinct : NoDup l;
  normal_count : (length l <= MAX_TAGS_PER_FILTER)%nat;
  normal_each : Forall (fun t => TAG_PATTERN t = true /\ normalize_tag t = t) l
}.
Lemma check_tags_ok l : check_tags l = Ok tt <-> Forall (fun t => TAG_PATTERN t = true) l.
Proof.
  induction l as [|t l IH]; cbn; [done|]. rewrite Forall_cons. destruct (TAG_PATTERN t); [rewrite IH; tauto|split; [done|by intros [? _]]].
Qed.
Lemma normalizeTags_normal tags f l : normalizeTags tags f = Ok l -> normal_tags l.
Proof.
  unfold normalizeTags. destruct tags as [tags|]; [|intros [= <-]; split; [constructor|constructor|apply Nat.le_0_l|constructor]].
  destruct (Nat.ltb_spec MAX_TAGS_PER_FILTER (length tags)) as [|Hlen]; [done|].
  intros ([] & Hc%check_tags_ok & [= <-])%exec_bind_inv. pose proof (merge_sort_Permutation JsString.le (distinct_tags tags)) as Hp. split.
  - apply Sorted_merge_sort, _.
  - rewrite Hp. apply NoDup_filter, set_of_nodup.
  - rewrite Hp. unfold distinct_tags. etrans; [apply length_filter|]. etrans; [apply set_of_length|]. by rewrite length_fmap.
  - rewrite Hp. rewrite Forall_forall in *. intros t Ht. pose proof (Hc t Ht) as Hpat. split; [done|].
    apply list_elem_of_filter in Ht as [_ Ht]. apply set_of_elem, list_elem_of_fmap in Ht as (x & -> & _).
    unfold normalize_tag at 1. rewrite visible_trim by by apply pattern_chars. apply toLowerCase_again.
Qed.
Lemma filter_all {A} (P : A -> Prop) `{!forall x, Decision (P x)} l : Forall P l -> filter P l = l.
Proof. induction 1 as [|x l Hx _ IH]; [done|]. by rewrite filter_cons_True, IH. Qed.
Lemma normal_tags_fixed l f : normal_tags l -> normalizeTags (Some l) f = Ok l.
Proof.
  intros [Hs Hd Hc He]. unfold normalizeTags. rewrite (proj2 (Nat.ltb_ge _ _)) by done.
  assert (Hl : distinct_tags l = l).
  { unfold distinct_tags. assert (normalize_tag <$> l = l) as ->.
    { clear Hs Hd Hc. induction He as [|t l [_ Ht] _ IH]; [done|]. cbn. by rewrite Ht, IH. }
    rewrite set_of_distinct by done. apply filter_all. eapply Forall_impl; [exact He|]. by intros t [Ht _] ->. }
  rewrite Hl. replace (check_tags l) with (Ok tt : exec js_error unit); [by rewrite exec_bind_ok, merge_sort_sorted|].
  symmetry. apply check_tags_ok. eapply Forall_impl; [exact He|]. by intros t [? _].
Qed.

Lemma some_tags_ok tags f l : normalizeTags tags f = Ok l -> normalizeTags (some_tags l) f = Ok l.
Proof.
  intros Hn. destruct l as [|t l]; [done|]. by eapply normal_tags_fixed, normalizeTags_normal.
Qed.
Lemma strings_only_JStr l : strings_only (JStr <$> l) = l.
Proof. unfold strings_only. induction l as [|s l IH]; [done|]. cbn. f_equal. exact IH. Qed.
Lemma definition_fields_read d :
  as_string (field "language" (definition_fields d)) = SegmentDefinition.language d /\
  strings_only <$> as_array (field "tagsAny" (definition_fields d)) = SegmentDefinition.tagsAny d /\
  strings_only <$> as_array (field "tagsAll" (definition_fields d)) = SegmentDefinition.tagsAll d.
Proof.
  destruct d as [[l|] [a|] [b|]]; repeat split; try reflexivity; apply (f_equal Some), strings_only_JStr.
Qed.
Lemma truthy_trim_again o : truthy (JsString.trim <$> truthy (JsString.trim <$> o)) = truthy (JsString.trim <$> o).
Proof. destruct o as [s|]; [|done]. cbn [fmap option_fmap option_map]. destruct (JsString.trim s) as [|c x] eqn:E; [done|].
  cbn [truthy fmap option_fmap option_map]. rewrite <- E, trim_again. by rewrite E.
Qed.

(** What a definition is once normalised. *)
Definition normalized (d : definition_t) : Prop := normalizeSegmentDefinition (Some d) = Ok d.
Lemma normalize_again input d : normalizeSegmentDefinition input = Ok d -> normalized d.
Proof.
  unfold normalized, normalizeSegmentDefinition. destruct input as [[lang any all]|]; [|done]. cbn [SegmentDefinition.language SegmentDefinition.tagsAny SegmentDefinition.tagsAll].
  set (language := truthy (JsString.trim <$> lang)). intros ([] & Hl & (a & Ha & (b & Hb & Hd)%exec_bind_inv)%exec_bind_inv)%exec_bind_inv.
  assert (d = SegmentDefinition.make language (some_tags a) (some_tags b)) as ->.
  { revert Hd. destruct language; [by intros [= <-]|]. destruct a; [|by intros [= <-]]. destruct b; [done|by intros [= <-]]. }
  cbn [SegmentDefinition.language SegmentDefinition.tagsAny SegmentDefinition.tagsAll].
  assert (Hlang : truthy (JsString.trim <$> language) = language) by apply truthy_trim_again.
  clearbody language. cbv zeta. rewrite Hlang, Hl, exec_bind_ok.
  rewrite (some_tags_ok _ _ _ Ha), exec_bind_ok, (some_tags_ok _ _ _ Hb), exec_bind_ok.
  revert Hd. by destruct language, a, b.
Qed.
Lemma normalized_reads d : normalized d -> readPersistedSegmentDefinition (definition_json d) = Ok d.
Proof.
  intros Hd. unfold readPersistedSegmentDefinition, definition_json. destruct (definition_fields_read d) as (-> & -> & ->).
  by destruct d.
Qed.
Lemma read_normalized v d : readPersistedSegmentDefinition v = Ok d -> normalized d.
Proof. unfold readPersistedSegmentDefinition. destruct v; try done. apply normalize_again. Qed.
Lemma normalized_shape d : normalized d -> exists a b,
  normal_tags a /\ normal_tags b /\ SegmentDefinition.language d = truthy (SegmentDefinition.language d) /\
  SegmentDefinition.tagsAny d = some_tags a /\ SegmentDefinition.tagsAll d = some_tags b.
Proof.
  unfold normalized, normalizeSegmentDefinition. destruct d as [lang any all].
  intros ([] & _ & (a & Ha & (b & Hb & Hd)%exec_bind_inv)%exec_bind_inv)%exec_bind_inv. exists a, b.
  split; [by eapply normalizeTags_normal|]. split; [by eapply normalizeTags_normal|].
  cbn [SegmentDefinition.language SegmentDefinition.tagsAny SegmentDefinition.tagsAll] in *.
  assert (Hl : truthy (JsString.trim <$> lang) = lang /\ some_tags a = any /\ some_tags b = all).
  { destruct (truthy (JsString.trim <$> lang)); [by injection Hd|]. destruct a; [|by injection Hd]. destruct b; [done|by injection Hd]. }
  destruct Hl as (Hl & <- & <-). split; [|done]. rewrite <- Hl. by destruct (JsString.trim <$> lang) as [[|]|].
Qed.
Lemma normalizeSegmentDefinition_total input : normalizeSegmentDefinition input <> OutOfFuel.
Proof.
  assert (Hc : forall l, check_tags l <> OutOfFuel) by (intros l; induction l as [|t l IH]; cbn; [done|by destruct (TAG_PATTERN t)]).
  assert (Ht : forall o f, normalizeTags o f <> OutOfFuel).
  { intros [l|] f; [|done]. unfold normalizeTags. destruct (_ <? _)%nat; [done|]. specialize (Hc (distinct_tags l)). by destruct (check_tags _). }
  unfold normalizeSegmentDefinition. destruct input as [d|]; [|done]. cbv zeta. destruct (truthy _) as [l|].
  - destruct (_ <? _); [done|]. rewrite exec_bind_ok. specialize (Ht (SegmentDefinition.tagsAny d) "tagsAny") as Ha.
    specialize (Ht (SegmentDefinition.tagsAll d) "tagsAll") as Hb.
    destruct (normalizeTags _ "tagsAny"); [|done|done]. rewrite exec_bind_ok. by destruct (normalizeTags _ "tagsAll").
  - rewrite exec_bind_ok. specialize (Ht (SegmentDefinition.tagsAny d) "tagsAny") as Ha.
    specialize (Ht (SegmentDefinition.tagsAll d) "tagsAll") as Hb.
    destruct (normalizeTags _ "tagsAny") as [[]| |]; [| |done|done]; rewrite exec_bind_ok; by destruct (normalizeTags _ "tagsAll") as [[]| |].
Qed.

(** ** Every stored segment can be read *)
Section segment_proofs.
Context `{Prisma} `{Environment}.

Definition readable (s : ContactSegment.t) : Prop := exists d, ContactSegment.definition s = definition_json d /\ normalized d.
Definition segments_ok (w : World) : Prop := forall k s, rows (segments w) !! k = Some s -> readable s.
Lemma readable_read s : readable s -> exists d, readDefinition (ContactSegment.definition s) = Ok d.
Proof. intros (d & E & Hd). exists d. unfold readDefinition. by rewrite E, normalized_reads. Qed.
Lemma normalizeDefinition_ok input d : normalizeDefinition input = Ok d -> normalized d.
Proof.
  unfold normalizeDefinition. destruct (normalizeSegmentDefinition input) as [x|e|] eqn:E; [|by destruct e|done].
  intros [= ->]. by eapply normalize_again.
Qed.

Definition keeps_readable (w w' : World) : Prop := segments_ok w -> segments_ok w'.
#[local] Instance keeps_readable_preorder : PreOrder keeps_readable.
Proof. split; [by intros w Hok|]. intros w1 w2 w3 H12 H23 Hok. by apply H23, H12. Qed.
Lemma readable_same w w' : segments w' = segments w -> keeps_readable w w'.
Proof. intros E Hok k s. rewrite E. apply Hok. Qed.
Lemma readable_tick w n : keeps_readable w (w <| tick := n |>).
Proof. by apply readable_same. Qed.
Lemma write_audit_readable a : preserves keeps_readable (write_audit a).
Proof. apply (preserves_reads _ _ segments); [apply readable_same|]. unfold write_audit. frame_steps. Qed.
Lemma assertNameAvailable_readable T name x : preserves keeps_readable (assertNameAvailable T name x).
Proof. apply (preserves_reads _ _ segments); [apply readable_same|]. unfold assertNameAvailable, segment_find. frame_steps. Qed.
Lemma findById_readable T id : preserves keeps_readable (findById T id).
Proof. apply (preserves_reads _ _ segments); [apply readable_same|]. unfold findById, segment_find. frame_steps. Qed.

Lemma create_segment_body_readable actor name dto d ctx : normalized d -> preserves keeps_readable (create_body actor name dto d ctx).
Proof.
  intros Hd. unfold create_body. preserve_steps; [apply preserves_now, readable_tick| |apply write_audit_readable].
  apply preserves_db; [apply _|apply readable_tick|]. intros w x w' ([k t] & Hc & [= _ <-])%bind_Some Hok.
  apply create_some in Hc as (_ & Ht & _). intros k' s. cbn. rewrite Ht. intros [[_ <-]|[_ Hs]]%lookup_insert_Some; [by exists d|by eapply Hok].
Qed.
Lemma create_segment_readable actor dto ctx : preserves keeps_readable (create actor dto ctx).
Proof.
  unfold create. cbv zeta. preserve_step; [preserve_step|]. preserve_step; [apply assertNameAvailable_readable|].
  intros w. unfold mbind, io_bind, lift. destruct (normalizeDefinition _) as [d|e|] eqn:E; cbn; [|done|done].
  apply preserves_transaction; [apply _|apply readable_tick|]. by eapply create_segment_body_readable, normalizeDefinition_ok.
Qed.
Lemma update_segment_body_readable actor id name dto o ctx :
  (forall d, o = Some d -> normalized d) -> preserves keeps_readable (update_body actor id name dto o ctx).
Proof.
  intros Hd. unfold update_body. preserve_steps; [apply preserves_now, readable_tick| |apply write_audit_readable].
  apply preserves_db; [apply _|apply readable_tick|].
  intros w x w' (t & Ht & (s' & _ & [= _ <-])%bind_Some)%bind_Some Hok.
  apply update_some in Ht as (r & Hr & Ht & _). intros k' s. cbn. rewrite Ht.
  intros [[_ <-]|[_ Hs]]%lookup_insert_Some; [|by eapply Hok]. destruct o as [d|]; [exists d; split; [done|by apply Hd]|by eapply (Hok id r)].
Qed.
Lemma update_segment_readable actor id dto ctx : preserves keeps_readable (update actor id dto ctx).
Proof.
  unfold update. cbv zeta. preserve_step; [apply findById_readable|]. preserve_step; [preserve_step|].
  preserve_step; [destruct (String.eqb _ _); [preserve_step|apply assertNameAvailable_readable]|].
  intros w. unfold mbind at 1, io_bind at 1, lift at 1.
  destruct (match UpdateSegmentDto.definition dto with Some _ => _ | None => _ end) as [o|e|] eqn:E; cbn; [|done|done].
  apply preserves_transaction; [apply _|apply readable_tick|]. apply update_segment_body_readable. intros d ->.
  destruct (UpdateSegmentDto.definition dto) as [x|]; [|done]. apply exec_bind_inv in E as (r & Hr & [= ->]). by eapply normalizeDefinition_ok.
Qed.

(** C31: Whatever is requested and whatever fails, the definitions that are stored can be read back:
    a segment saved once can always be counted and given to a campaign, with exactly the criteria it was saved with. *)
Theorem segments_stay_readable actor id cdto udto ctx w (Hok : segments_ok w) :
  segments_ok (create actor cdto ctx w).2 /\ segments_ok (update actor id udto ctx w).2 /\
  forall k s, rows (segments w) !! k = Some s ->
    exists d, readDefinition (ContactSegment.definition s) = Ok d /\ ContactSegment.definition s = definition_json d.
Proof.
  split; [by apply create_segment_readable|]. split; [by apply update_segment_readable|].
  intros k s Hk. destruct (Hok k s Hk) as (d & E & Hd). exists d. split; [|done]. unfold readDefinition. by rewrite E, normalized_reads.
Qed.

Lemma resolveActive_spec T id w : segments_ok w ->
  wp (resolveActiveForCampaign T id) (fun r w' => r <> OutOfFuel /\ (exists n, w' = w <| tick := n |>) /\
    forall k s d, r = Ok (k, s, d) -> k = id /\ rows (segments w) !! k = Some s /\ ContactSegment.tenantId s = T /\ ContactSegment.active s = true /\
      ContactSegment.definition s = definition_json d /\ normalized d) w.
Proof.
  intros Hok. unfold resolveActiveForCampaign, segment_find. apply wp_bind, wp_db.
  { intros e. split; [done|]. split; [by eexists|done]. }
  intros o w1 [= <- <-]. split; [intros e; split; [done|]; split; [by eexists|done]|].
  change (segments (bump w)) with (segments w). destruct (findFirst _ _) as [[k s]|] eqn:Ef.
  2:{ apply wp_throw. split; [done|]. split; [by eexists|done]. }
  apply findFirst_some in Ef as [Hk [[Hid%bool_decide_eq_true HT%bool_decide_eq_true]%andb_true_iff Ha]%andb_true_iff].
  destruct (Hok k s Hk) as (d & E & Hd). apply wp_bind, wp_lift. unfold readDefinition. rewrite E, normalized_reads by done.
  apply wp_ret. split; [done|]. split; [by eexists|]. intros k' s' d' [= <- <- <-]. done.
Qed.
End segment_proofs.

Definition vip_definition : definition_t := SegmentDefinition.make None None (Some [" VIP "; "vip"; "renewal:2026"])%string.
Example vip_normalized : normalizeSegmentDefinition (Some vip_definition) =
  Ok (SegmentDefinition.make None None (Some ["renewal:2026"; "vip"]))%string.
Proof. vm_compute. reflexivity. Qed.

Definition vip_segment : CreateSegmentDto.t := CreateSegmentDto.make " VIPs " None (Some vip_definition).
Lemma segments_stay_readable_witness :
  let w := @Dispatcher.world_with ∅ in
  segments_ok (@create gmap_prisma (calm 5) (Tenant "t") vip_segment None w).2.
Proof.
  intros w. apply (@segments_stay_readable gmap_prisma (calm 5) (Tenant "t") "s" vip_segment
    (UpdateSegmentDto.make None None None (Some false)) None w).
  intros k s. change (rows (segments w)) with (∅ : gmap string ContactSegment.t). by rewrite lookup_empty.
Defined.
