(* ===== verification/Personalization.v ===== *)
(** Personalised template components ([campaigns/campaign-personalization.util.ts]): checking them
    when a campaign is created and filling in a contact's values when a message is sent. *)
From stdpp Require Import prelude gmap strings pretty.
From Stdlib Require Import Ascii ZArith Lia.
From S2P Require Import Prelude Json Numbers Io Secrets.
#[local] Open Scope Z_scope.

Module CampaignPersonalizationContact.
Record t := make {
  name : option string;
  phone : string;
  language : option string;
  timezone : option string;
  metadata : option json
}.
End CampaignPersonalizationContact.
Abbreviation contact_t := CampaignPersonalizationContact.t.

Definition MAX_COMPONENT_NODES : Z := 1000.
Definition MAX_PERSONALIZATION_TOKENS : Z := 50.
Definition MAX_DEPTH : Z := 20.

(** The text between a prefix and a suffix. *)
Definition between (prefix suffix s : string) : option string :=
  rest ← after_prefix prefix s;
  rev_rest ← after_prefix (JsString.reverse suffix) (JsString.reverse rest);
  Some (JsString.reverse rev_rest).

(** [/^\{\{contact\.(name|phone|language|timezone)\}\}$/] *)
Definition DIRECT_TOKEN (s : string) : option string :=
  field ← between "{{contact." "}}" s;
  if bool_decide (field ∈ ["name"; "phone"; "language"; "timezone"]%string) then Some field else None.
Definition metadata_char (c : Ascii.ascii) : bool :=
  let n := JsString.code_unit c in
  ((65 <=? n) && (n <=? 90)) || ((97 <=? n) && (n <=? 122)) || ((48 <=? n) && (n <=? 57)) || (n =? 95) || (n =? 45).
(** [/^\{\{contact\.metadata\.([A-Za-z0-9_-]{1,64})\}\}$/] *)
Definition METADATA_TOKEN (s : string) : option string :=
  key ← between "{{contact.metadata." "}}" s;
  if forallb metadata_char (String.list_ascii_of_string key) && (1 <=? JsString.len key) && (JsString.len key <=? 64)
  then Some key else None.
(** [/\{\{|\}\}/.test(s)] *)
Fixpoint PLACEHOLDER_MARKER (s : string) : bool :=
  match s with
  | EmptyString => false
  | String _ s' => String.prefix "{{" s || String.prefix "}}" s || PLACEHOLDER_MARKER s'
  end.

Definition template_error {A} (message : string) : exec js_error A := Throws (PersonalizationTemplateError message).
Definition too_deep {A} : exec js_error A :=
  template_error ("Campaign components exceed the maximum nesting depth of " +:+ pretty MAX_DEPTH).
Definition unsupported {A} (value : string) : exec js_error A :=
  template_error ("Unsupported personalization token '" +:+ value +:+ "'. Tokens must occupy the entire string value.").

(** *** Checking *)
Definition is_token (s : string) : bool :=
  bool_decide (is_Some (DIRECT_TOKEN s)) || bool_decide (is_Some (METADATA_TOKEN s)).

(** [state = { nodes, tokens }] is updated as the walk goes. *)
Fixpoint visit (value : json) (depth : Z) (state : Z * Z) {struct value} : exec js_error (Z * Z) :=
  if MAX_DEPTH <? depth then too_deep else
  let nodes := state.1 + 1 in
  if MAX_COMPONENT_NODES <? nodes then
    template_error ("Campaign components exceed the maximum node count of " +:+ pretty MAX_COMPONENT_NODES) else
  match value with
  | JStr s =>
      if is_token s then
        let tokens := state.2 + 1 in
        if MAX_PERSONALIZATION_TOKENS <? tokens then
          template_error ("Campaign components exceed the maximum personalization token count of " +:+
                          pretty MAX_PERSONALIZATION_TOKENS)
        else Ok (nodes, tokens)
      else if PLACEHOLDER_MARKER s then unsupported s
      else Ok (nodes, state.2)
  | JArr items =>
      (fix go l state := match l with
                         | [] => Ok state
                         | item :: l' => state ← visit item (depth + 1) state; go l' state
                         end) items (nodes, state.2)
  | JObj fields =>
      (fix go l state := match l with
                         | [] => Ok state
                         | (_, nested) :: l' => state ← visit nested (depth + 1) state; go l' state
                         end) fields (nodes, state.2)
  | _ => Ok (nodes, state.2)
  end.
Definition validateCampaignComponents (value : json) : exec js_error unit :=
  _ ← visit value 0 (0, 0); Ok tt.

(** *** Rendering *)
Definition missing {A} (token : string) : exec js_error A :=
  Throws (PersonalizationValueError ("Missing personalization value for " +:+ token)).
Definition requireScalar (value : option json) (token : string) : exec js_error string :=
  match value with
  | Some (JStr s) => if JsString.len s =? 0 then missing token else Ok s
  | Some (JNum n) => Ok (JsNumber.to_string n)
  | Some (JBool b) => Ok (if b then "true" else "false")
  | _ => missing token
  end.

(** [contact[field]] *)
Definition contact_field (contact : contact_t) (field : string) : option json :=
  let text o := JStr <$> o in
  if String.eqb field "name" then text (CampaignPersonalizationContact.name contact)
  else if String.eqb field "phone" then text (Some (CampaignPersonalizationContact.phone contact))
  else if String.eqb field "language" then text (CampaignPersonalizationContact.language contact)
  else if String.eqb field "timezone" then text (CampaignPersonalizationContact.timezone contact)
  else None.

(** The value a token stands for. *)
Definition token_value (contact : contact_t) (s : string) : option (option json) :=
  match DIRECT_TOKEN s with
  | Some field => Some (contact_field contact field)
  | None =>
      match METADATA_TOKEN s with
      | Some key => Some (match CampaignPersonalizationContact.metadata contact with
                          | Some (JObj source) => Json.field key source
                          | _ => None
                          end)
      | None => None
      end
  end.
Definition render_text (contact : contact_t) (s : string) : exec js_error json :=
  match token_value contact s with
  | Some v => r ← requireScalar v s; Ok (JStr r)
  | None => if PLACEHOLDER_MARKER s then unsupported s else Ok (JStr s)
  end.

Fixpoint render (value : json) (contact : contact_t) (depth : Z) {struct value} : exec js_error json :=
  if MAX_DEPTH <? depth then too_deep else
  match value with
  | JStr s => render_text contact s
  | JArr items =>
      l ← (fix go l := match l with
                       | [] => Ok []
                       | item :: l' => r ← render item contact (depth + 1); rs ← go l'; Ok (r :: rs)
                       end) items;
      Ok (JArr l)
  | JObj fields =>
      l ← (fix go l := match l with
                       | [] => Ok []
                       | (key, nested) :: l' => r ← render nested contact (depth + 1); rs ← go l'; Ok ((key, r) :: rs)
                       end) fields;
      Ok (JObj l)
  | v => Ok v
  end.
Definition renderCampaignComponents (value : json) (contact : contact_t) : exec js_error json := render value contact 0.

(** ** A validated value renders *)
(** What rendering does: every token becomes the contact's value, the rest stays. *)
#[warnings="-register-all"]
Inductive rendered (contact : contact_t) : json -> json -> Prop :=
| rendered_token s v r : token_value contact s = Some v -> requireScalar v s = Ok r -> rendered contact (JStr s) (JStr r)
| rendered_text s : token_value contact s = None -> rendered contact (JStr s) (JStr s)
| rendered_array l l' : Forall2 (rendered contact) l l' -> rendered contact (JArr l) (JArr l')
| rendered_object l l' :
    Forall2 (fun a b => a.1 = b.1 /\ rendered contact a.2 b.2) l l' -> rendered contact (JObj l) (JObj l')
| rendered_other v : (forall s, v <> JStr s) -> is_object v = false -> rendered contact v v.

(** A value of the components that the contact does not have. *)
Definition has_missing (contact : contact_t) (e : js_error) : Prop :=
  exists token, is_token token = true /\ e = PersonalizationValueError ("Missing personalization value for " +:+ token).
Definition renders (contact : contact_t) (value : json) (r : exec js_error json) : Prop :=
  (exists v', r = Ok v' /\ rendered contact value v') \/ exists e, r = Throws e /\ has_missing contact e.

Lemma is_token_value contact s : is_token s = true <-> is_Some (token_value contact s).
Proof.
  unfold is_token, token_value. destruct (DIRECT_TOKEN s); [split; [by eexists|done]|].
  rewrite bool_decide_false by (intros [? ?]; done). cbn [orb].
  destruct (METADATA_TOKEN s); [split; [by eexists|by intros _; rewrite bool_decide_true by (by eexists)]|].
  rewrite bool_decide_false by (intros [? ?]; done). split; [done|by intros [? ?]].
Qed.

Lemma requireScalar_cases v token : (exists r, requireScalar v token = Ok r) \/ requireScalar v token = missing token.
Proof. destruct v as [[| | |s| |]|]; cbn; eauto. destruct (_ =? 0); eauto. Qed.

Lemma render_text_ok contact s :
  (is_token s = false -> PLACEHOLDER_MARKER s = false) -> renders contact (JStr s) (render_text contact s).
Proof.
  intros Hm. unfold render_text. pose proof (is_token_value contact s) as Ht.
  destruct (token_value contact s) as [v|] eqn:Ev.
  - assert (Hs : is_token s = true) by (apply Ht; by eexists).
    destruct (requireScalar_cases v s) as [[r Er]|Er]; rewrite Er.
    + left. exists (JStr r). split; [done|]. by eapply rendered_token.
    + right. eexists. split; [done|]. by exists s.
  - rewrite Hm; [left; exists (JStr s); split; [done|by apply rendered_text]|].
    destruct (is_token s); [|done]. by destruct (proj1 Ht eq_refl).
Qed.

(** A list renders element by element. *)
Lemma render_list_ok {A} (P : A -> A -> Prop) contact (f : A -> exec js_error A) (go : list A -> exec js_error (list A)) l :
  (forall x, x ∈ l -> (exists y, f x = Ok y /\ P x y) \/ exists e, f x = Throws e /\ has_missing contact e) ->
  go [] = Ok [] -> (forall x l', go (x :: l') = (r ← f x; rs ← go l'; Ok (r :: rs))) ->
  (exists l', go l = Ok l' /\ Forall2 P l l') \/ exists e, go l = Throws e /\ has_missing contact e.
Proof.
  intros Hf H0 Hgo. induction l as [|x l IH]; [left; by exists []|].
  rewrite Hgo. destruct (Hf x) as [(y & -> & Hy)|(e & -> & He)]; [left| |right; by exists e].
  destruct IH as [(l' & -> & Hl')|(e & -> & He)]; [by intros z Hz; apply Hf; right| |right; by exists e].
  left. exists (y :: l'). split; [done|by constructor].
Qed.

(** Checking a list checks every element. *)
Lemma visit_list_ok {A} (f : A -> Z * Z -> exec js_error (Z * Z)) (go : list A -> Z * Z -> exec js_error (Z * Z)) l s s' :
  (forall x l' s, go (x :: l') s = (s1 ← f x s; go l' s1)) -> go l s = Ok s' ->
  forall x, x ∈ l -> exists s1 s2, f x s1 = Ok s2.
Proof.
  intros Hgo. revert s. induction l as [|y l IH]; intros s Hl x; [by intros ?%elem_of_nil|].
  rewrite Hgo in Hl. apply exec_bind_inv in Hl as (s1 & Hy & Hl). intros [->|Hx]%elem_of_cons; [by exists s, s1|].
  by eapply IH.
Qed.

Lemma visited_renders v contact depth s s' : visit v depth s = Ok s' -> renders contact v (render v contact depth).
Proof.
  revert depth s s'. induction v as [|b|n|x|items IH|fields IH] using json_nested_ind; intros depth s s' Hv;
    cbn [visit] in Hv; cbn [render]; destruct (MAX_DEPTH <? depth); try discriminate;
    destruct (MAX_COMPONENT_NODES <? _); try discriminate.
  1-3: left; eexists; split; [reflexivity|by apply rendered_other].
  - apply render_text_ok. intros Hx. rewrite Hx in Hv. by destruct (PLACEHOLDER_MARKER x).
  - set (go := fix go l := match l with [] => Ok [] | item :: l' => _ end).
    rewrite Forall_forall in IH.
    destruct (render_list_ok (rendered contact) contact (fun item => render item contact (depth + 1)) go items)
      as [(l' & -> & Hl)|(e & -> & He)]; [|done|done| |right; by exists e].
    + intros x Hx. eapply (visit_list_ok (fun item => visit item (depth + 1))) in Hv as (s1 & s2 & Hs); [|reflexivity|exact Hx].
      by apply (IH x Hx _ _ _ Hs).
    + left. eexists. split; [done|by constructor].
  - set (go := fix go l := match l with [] => Ok [] | (key, nested) :: l' => _ end).
    rewrite Forall_forall in IH.
    destruct (render_list_ok (fun a b => a.1 = b.1 /\ rendered contact a.2 b.2) contact
      (fun kv => r ← render kv.2 contact (depth + 1); Ok (kv.1, r)) go fields)
      as [(l' & -> & Hl)|(e & -> & He)]; [|done| | |right; by exists e].
    + intros [k x] Hx. eapply (visit_list_ok (fun kv => visit kv.2 (depth + 1))) in Hv as (s1 & s2 & Hs); [|by intros [? ?]|exact Hx].
      destruct (IH (k, x) Hx _ _ _ Hs) as [(y & Ey & Hy)|(e & Ee & He)]; cbn [snd fst] in *.
      * left. exists (k, y). by rewrite Ey.
      * right. exists e. by rewrite Ee.
    + intros [k x] l'. cbn [fst snd]. change (go ((k, x) :: l')) with (r ← render x contact (depth + 1); rs ← go l'; Ok ((k, r) :: rs)).
      by destruct (render x contact (depth + 1)).
    + left. eexists. split; [done|by constructor].
Qed.

Lemma visit_total v depth s : visit v depth s <> OutOfFuel.
Proof.
  revert depth s. induction v as [|b|n|x|items IH|fields IH] using json_nested_ind; intros depth s; cbn [visit];
    destruct (MAX_DEPTH <? depth); try done; destruct (MAX_COMPONENT_NODES <? s.1 + 1); try done.
  - destruct (is_token x); [by destruct (_ <? _)|by destruct (PLACEHOLDER_MARKER x)].
  - generalize (s.1 + 1, s.2). set (go := fix go l state := match l with [] => Ok state | item :: l' => _ end).
    induction IH as [|item l Hi _ IHl]; intros s1; [done|].
    change (go (item :: l) s1) with (s2 ← visit item (depth + 1) s1; go l s2). specialize (Hi (depth + 1) s1).
    destruct (visit item (depth + 1) s1); [apply IHl|done|done].
  - generalize (s.1 + 1, s.2). set (go := fix go l state := match l with [] => Ok state | (_, nested) :: l' => _ end).
    induction IH as [|[key item] l Hi _ IHl]; intros s1; [done|]. cbn [snd] in Hi.
    change (go ((key, item) :: l) s1) with (s2 ← visit item (depth + 1) s1; go l s2). specialize (Hi (depth + 1) s1).
    destruct (visit item (depth + 1) s1); [apply IHl|done|done].
Qed.
Lemma validate_total v : validateCampaignComponents v <> OutOfFuel.
Proof. unfold validateCampaignComponents. pose proof (visit_total v 0 (0, 0)) as Hv. by destruct (visit v 0 (0, 0)). Qed.


(** ** A greeting *)
Definition greeting : json :=
  (JArr [JObj [("type", JStr "body"); ("parameters", JArr [JStr "{{contact.name}}"; JStr "{{contact.metadata.plan}}"])]])%string.
Definition ana : contact_t :=
  CampaignPersonalizationContact.make (Some "Ana"%string) "34611111111" None None
    (Some (JObj [("plan", JNum (Whole 3))]))%string.
Example greeting_rendered : renderCampaignComponents greeting ana =
  Ok (JArr [JObj [("type", JStr "body"); ("parameters", JArr [JStr "Ana"; JStr "3"])]])%string.
Proof. vm_compute. reflexivity. Qed.

