(* ===== verification/Pages.v ===== *)
(** Cursor pagination, as every list endpoint of the program does it: a page is one row more than the
    limit, the extra row says that there is a next page, and the last row shown is the next cursor.
    Following the cursors gives every matching row once, in order. *)
From stdpp Require Import prelude gmap strings sorting.
From Stdlib Require Import ZArith Lia.
From S2P Require Import Prelude Json Io Prisma Domain Frame Tables AuditTrail Senders.
#[local] Open Scope Z_scope.

Module Page.
Record t (R : Type) := make { items : list (string * R); nextCursor : option string }.
Arguments make {R} items nextCursor.
Arguments items {R} _.
Arguments nextCursor {R} _.
End Page.

(** [rows.length > limit], the rows shown, and [items.at(-1)?.id ?? null]. *)
Definition page_of {R} (limit : Z) (rows : list (string * R)) : Page.t R :=
  let hasMore := limit <? Z.of_nat (length rows) in
  let items := if hasMore then take (Z.to_nat limit) rows else rows in
  Page.make items (if hasMore then fst <$> last items else None).

(** [orderBy: [{ time: "desc" }, { id: "desc" }]] and its reverse. *)
Definition newest_first {R} (time : R -> Z) (a b : string * R) : Prop :=
  time b.2 < time a.2 \/ (time a.2 = time b.2 /\ JsString.le b.1 a.1).
Definition oldest_first {R} (time : R -> Z) : relation (string * R) := flip (newest_first time).
Section orders.
Context {R : Type} (time : R -> Z).
#[export] Instance newest_first_dec : RelDecision (newest_first time).
Proof. intros a b. unfold newest_first. apply _. Defined.
#[export] Instance oldest_first_dec : RelDecision (oldest_first time).
Proof. intros a b. unfold oldest_first, flip. apply _. Defined.
#[export] Instance newest_first_trans : Transitive (newest_first time).
Proof. intros a b c [?|[? H1]] [?|[? H2]]; [left; lia..|]. right. split; [lia|by etrans]. Qed.
#[export] Instance newest_first_total : Total (newest_first time).
Proof.
  intros a b. unfold newest_first. destruct (Z.lt_trichotomy (time a.2) (time b.2)) as [?|[?|?]]; [by right; left| |by left; left].
  destruct (JsString.le_total a.1 b.1); [right|left]; by right.
Qed.
#[export] Instance oldest_first_trans : Transitive (oldest_first time) := flip_Transitive newest_first_trans.
#[export] Instance oldest_first_total : Total (oldest_first time).
Proof. intros a b. destruct (newest_first_total a b); [by right|by left]. Qed.
Lemma newest_first_antisym a b : newest_first time a b -> newest_first time b a -> a.1 = b.1.
Proof. intros [?|[? H1]] [?|[? H2]]; try lia. by apply JsString.le_antisym. Qed.
End orders.

Section pages.
Context `{Prisma} `{Environment}.

(** A filter may look at related rows. *)
Definition find_page {R} `{!Table R} (p : World -> string -> R -> bool) (le : relation (string * R)) `{!RelDecision le}
    (cursor : option string) (skip n : nat) : io World (list (string * R)) :=
  db (fun w => Some (findPage (p w) le cursor skip n (tbl w), w)).
(** [take: limit + 1, ...(cursor ? { cursor: { id: cursor }, skip: 1 } : {})] *)
Definition page_rows {R} `{!Table R} (p : World -> string -> R -> bool) (le : relation (string * R)) `{!RelDecision le}
    (cursor : option string) (limit : Z) : io World (list (string * R)) :=
  find_page p le cursor (match cursor with Some _ => 1%nat | None => 0%nat end) (Z.to_nat (limit + 1)).
(** A cursor must be the id of a row the caller may see. *)
Definition check_cursor {R} `{!Table R} (cursor : option string) (visible : World -> R -> bool) (message : string) : io World unit :=
  match cursor with
  | None => mret tt
  | Some c =>
      row ← db (fun w => Some (findFirst (fun k r => bool_decide (k = c) && visible w r) (tbl w), w));
      _ ← found (BadRequestException message) row;
      mret tt
  end.

(** All pages, one after the other. *)
Fixpoint follow {R} (fetch : option string -> io World (Page.t R)) (fuel : nat) (cursor : option string)
    : io World (list (string * R)) :=
  match fuel with
  | O => lift OutOfFuel
  | S fuel =>
      page ← fetch cursor;
      match Page.nextCursor page with
      | None => mret (Page.items page)
      | Some c => rest ← follow fetch fuel (Some c); mret (Page.items page ++ rest)
      end
  end.

(** ** What a page shows *)
(** An exception is the database's. *)
Definition reads {A} (w : World) (P : A -> Prop) (r : exec js_error A) (w' : World) : Prop :=
  (exists n, w' = w <| tick := n |>) /\
  match r with Ok a => P a | Throws _ => exists n, db_fault n <> Reliable | OutOfFuel => False end.

Lemma reads_ret {A} (a : A) (P : A -> Prop) w n : P a -> wp (mret a : io World A) (reads w P) (w <| tick := n |>).
Proof. intros HP. split; [by exists n|done]. Qed.
Lemma reads_bind {A B} (m : io World A) (f : A -> io World B) P Q w n :
  wp m (reads w Q) (w <| tick := n |>) -> (forall a n, Q a -> wp (f a) (reads w P) (w <| tick := n |>)) ->
  wp (m ≫= f) (reads w P) (w <| tick := n |>).
Proof.
  intros Hm Hf. apply wp_bind. eapply wp_mono; [exact Hm|]. intros [a|e|] w' [[n' ->] Hr]; [by apply Hf| |done].
  split; [by exists n'|done].
Qed.
Lemma reads_db {A} (g : World -> A) (P : A -> Prop) w n :
  (forall n, g (w <| tick := n |>) = g w) -> P (g w) -> wp (db (fun w => Some (g w, w))) (reads w P) (w <| tick := n |>).
Proof.
  intros Hg HP. unfold wp, db. destruct (db_fault (tick (w <| tick := n |>))) eqn:E; cbn [fst snd].
  - split; [by exists (S n)|]. change (bump (w <| tick := n |>)) with (w <| tick := S n |>). by rewrite Hg.
  - split; [by exists (S n)|]. exists (tick (w <| tick := n |>)). congruence.
  - split; [by exists (S n)|]. exists (tick (w <| tick := n |>)). congruence.
Qed.
Lemma reads_found {A} e (o : option A) (P : A -> Prop) w n :
  (exists a, o = Some a /\ P a) -> wp (found e o) (reads w P) (w <| tick := n |>).
Proof. intros (a & -> & HP). by apply reads_ret. Qed.

Section rows.
Context {R : Type} `{!Table R} (p : World -> string -> R -> bool) (le : relation (string * R)) `{!RelDecision le, !Transitive le, !Total le}.
Hypothesis p_tick : forall w n, p (w <| tick := n |>) = p w.
Hypothesis le_antisym : forall a b, le a b -> le b a -> a.1 = b.1.

(** The matching rows in order. *)
Definition listed (w : World) : list (string * R) := merge_sort le (findMany (p w) (tbl w)).
Lemma listed_elem w k r : (k, r) ∈ listed w <-> p w k r = true /\ row k w = Some r.
Proof. unfold listed. by rewrite merge_sort_Permutation, findMany_elem. Qed.
Lemma listed_antisym w a b : a ∈ listed w -> b ∈ listed w -> le a b -> le b a -> a = b.
Proof.
  destruct a as [k r], b as [k' r']. rewrite !listed_elem. intros [_ Ha] [_ Hb] Hab Hba.
  pose proof (le_antisym _ _ Hab Hba) as Hk. cbn in Hk. subst k'. unfold row in *. congruence.
Qed.

Lemma reads_page_start limit w n :
  wp (page_rows p le None limit) (reads w (fun rows => rows = take (Z.to_nat (limit + 1)) (listed w))) (w <| tick := n |>).
Proof.
  apply (reads_db (fun w => findPage (p w) le None 0 (Z.to_nat (limit + 1)) (tbl w))); [intros m; by rewrite tbl_tick, p_tick|].
  rewrite (findPage_start (p w) le 0 _ (tbl w) (listed w)); [by rewrite drop_0|by unfold listed; rewrite merge_sort_Permutation| |].
  - by apply StronglySorted_merge_sort; apply _.
  - intros a b. apply listed_antisym.
Qed.
Lemma reads_page_next limit w n l1 k r l2 :
  listed w = l1 ++ (k, r) :: l2 ->
  wp (page_rows p le (Some k) limit) (reads w (fun rows => rows = take (Z.to_nat (limit + 1)) l2)) (w <| tick := n |>).
Proof.
  intros El. apply (reads_db (fun w => findPage (p w) le (Some k) 1 (Z.to_nat (limit + 1)) (tbl w))); [intros m; by rewrite tbl_tick, p_tick|].
  rewrite (findPage_cursor R (p w) le 1 _ (tbl w) l1 k r l2); [done|rewrite <- El; by unfold listed; rewrite merge_sort_Permutation| |].
  - rewrite <- El. by apply StronglySorted_merge_sort; apply _.
  - rewrite <- El. intros a b. apply listed_antisym.
Qed.
Lemma reads_check_cursor visible message w n l1 k r l2 :
  (forall w n, visible (w <| tick := n |>) = visible w) ->
  listed w = l1 ++ (k, r) :: l2 -> (forall k r, p w k r = true -> visible w r = true) ->
  wp (check_cursor (R := R) (Some k) visible message) (reads w (fun _ => True)) (w <| tick := n |>).
Proof.
  intros Ht El Hv. assert (Hk : p w k r = true /\ row k w = Some r).
  { apply listed_elem. rewrite El. apply elem_of_app. right. by left. }
  destruct Hk as [Hp Hk]. unfold check_cursor.
  apply (reads_bind _ _ _ (fun o => exists r, o = Some (k, r))).
  - apply (reads_db (fun w => findFirst (fun k0 r => bool_decide (k0 = k) && visible w r) (tbl w))); [intros m; by rewrite tbl_tick, Ht|].
    exists r. apply findFirst_unique; [exact Hk|by rewrite bool_decide_true, (Hv k r) by done|].
    by intros k' r' _ [?%bool_decide_eq_true _]%andb_true_iff.
  - intros o m [r' ->]. by apply reads_ret.
Qed.
End rows.

(** ** All of them *)
Lemma page_of_split {R} limit (l : list (string * R)) :
  1 <= limit ->
  (Page.items (page_of limit (take (Z.to_nat (limit + 1)) l)) = l /\
   Page.nextCursor (page_of limit (take (Z.to_nat (limit + 1)) l)) = None) \/
  exists l1 k r l2, l = l1 ++ (k, r) :: l2 /\ Page.items (page_of limit (take (Z.to_nat (limit + 1)) l)) = l1 ++ [(k, r)] /\
    Page.nextCursor (page_of limit (take (Z.to_nat (limit + 1)) l)) = Some k.
Proof.
  intros Hl. unfold page_of. cbn [Page.items Page.nextCursor]. rewrite length_take.
  destruct (Z.ltb_spec limit (Z.of_nat (Nat.min (Z.to_nat (limit + 1)) (length l)))) as [Hm|Hm].
  - right. rewrite take_take. replace (Nat.min _ _) with (Z.to_nat limit) by lia.
    set (n := Z.to_nat limit) in *. assert (Hn : (n < length l)%nat) by lia.
    destruct (lookup_lt_is_Some_2 l (pred n)) as [[k r] Hk]; [lia|].
    exists (take (pred n) l), k, r, (drop n l). split.
    + rewrite <- (take_drop_middle l (pred n) (k, r) Hk) at 1. do 2 f_equal. f_equal. lia.
    + rewrite <- (take_S_r l (pred n) (k, r) Hk). replace (S (pred n)) with n by lia. split; [done|].
      assert (Hx : last (take n l) = Some (k, r)).
      { replace n with (S (pred n)) by lia. by rewrite (take_S_r l (pred n) (k, r) Hk), last_snoc. }
      by rewrite Hx.
  - left. split; [|done]. apply take_ge. lia.
Qed.

Section follow.
Context {R : Type} (fetch : option string -> io World (Page.t R)) (l : list (string * R)) (limit : Z) (w : World).
Hypothesis Hlimit : 1 <= limit.
Hypothesis fetch_start : forall n,
  wp (fetch None) (reads w (fun page => page = page_of limit (take (Z.to_nat (limit + 1)) l))) (w <| tick := n |>).
Hypothesis fetch_next : forall l1 k r l2 n, l = l1 ++ (k, r) :: l2 ->
  wp (fetch (Some k)) (reads w (fun page => page = page_of limit (take (Z.to_nat (limit + 1)) l2))) (w <| tick := n |>).

Lemma follow_rest fuel l1 l2 cursor n :
  (length l2 < fuel)%nat -> l = l1 ++ l2 ->
  (forall n, wp (fetch cursor) (reads w (fun page => page = page_of limit (take (Z.to_nat (limit + 1)) l2))) (w <| tick := n |>)) ->
  wp (follow fetch fuel cursor) (reads w (eq l2)) (w <| tick := n |>).
Proof.
  revert l1 l2 cursor n. induction fuel as [|fuel IH]; intros l1 l2 cursor n Hf El Hp; [lia|].
  cbn [follow]. eapply reads_bind; [apply Hp|]. intros page m ->.
  destruct (page_of_split limit l2 Hlimit) as [[Ei En]|(l3 & k & r & l4 & El2 & Ei & En)]; rewrite En, Ei.
  - by apply reads_ret.
  - assert (El' : l = (l1 ++ l3) ++ (k, r) :: l4) by (rewrite El, El2; by rewrite <- app_assoc).
    eapply reads_bind.
    + apply (IH ((l1 ++ l3) ++ [(k, r)]) l4); [rewrite El2, length_app in Hf; cbn in Hf; lia|by rewrite <- (app_assoc _ [_])|].
      intros n'. by eapply fetch_next.
    + intros rest n' <-. apply reads_ret. rewrite El2, <- app_assoc. done.
Qed.
End follow.

(** The pages of a listing are all its rows in order; an exception only comes from the database. *)
Definition enumerates {R} (fetch : option string -> io World (Page.t R)) (l : list (string * R)) (w : World) : Prop :=
  wp (follow fetch (S (length l)) None) (reads w (eq l)) w.
Lemma enumerate {R} (fetch : option string -> io World (Page.t R)) (l : list (string * R)) limit w :
  1 <= limit ->
  (forall n, wp (fetch None) (reads w (fun page => page = page_of limit (take (Z.to_nat (limit + 1)) l))) (w <| tick := n |>)) ->
  (forall l1 k r l2 n, l = l1 ++ (k, r) :: l2 ->
     wp (fetch (Some k)) (reads w (fun page => page = page_of limit (take (Z.to_nat (limit + 1)) l2))) (w <| tick := n |>)) ->
  enumerates fetch l w.
Proof.
  intros Hl Hs Hn. apply start. intros n. by apply (follow_rest fetch l limit w Hl Hn (S (length l)) [] l); [lia|..].
Qed.

(** The shape of an endpoint: something is looked up, the cursor is checked, then the page is read. *)
Lemma enumerate_rows {R A} `{!Table R} (p : World -> string -> R -> bool) (le : relation (string * R))
    `{!RelDecision le, !Transitive le, !Total le} (visible : World -> R -> bool) message limit w (pre : io World A)
    (fetch : option string -> io World (Page.t R)) :
  (forall w n, p (w <| tick := n |>) = p w) -> (forall a b, le a b -> le b a -> a.1 = b.1) ->
  (forall w n, visible (w <| tick := n |>) = visible w) -> (forall k r, p w k r = true -> visible w r = true) ->
  row (R := R) "" w = None -> 1 <= limit ->
  (forall n, wp pre (reads w (fun _ => True)) (w <| tick := n |>)) ->
  (forall cursor, cursor <> Some ""%string ->
     fetch cursor = (_ ← pre;
                     _ ← check_cursor (R := R) cursor visible message;
                     rows ← page_rows p le cursor limit;
                     mret (page_of limit rows))) ->
  enumerates fetch (listed p le w) w.
Proof.
  intros Hp Ha Hvt Hv Hn Hl Hpre Hf. apply (enumerate fetch _ limit w Hl).
  - intros n. rewrite (Hf None) by done. eapply reads_bind; [apply Hpre|]. intros a m0 _.
    eapply reads_bind; [by apply (reads_ret tt (fun _ => True))|]. intros [] m _.
    eapply reads_bind; [by apply reads_page_start|]. intros rows m' ->. by apply reads_ret.
  - intros l1 k r l2 n El. rewrite Hf.
    2: { intros [= ->]. assert (Hin : (""%string, r) ∈ listed p le w) by (rewrite El; apply elem_of_app; right; by left).
         apply listed_elem in Hin as [_ Hin]. congruence. }
    eapply reads_bind; [apply Hpre|]. intros a m0 _.
    eapply reads_bind; [by eapply (reads_check_cursor p le)|]. intros [] m _.
    eapply reads_bind; [by eapply (reads_page_next p le)|]. intros rows m' ->. by apply reads_ret.
Qed.

(** ** What a client sees *)
(** The pages together: every row that matches, once, in order. *)
Definition shows_all {R} `{!Table R} (p : World -> string -> R -> bool) (le : relation (string * R))
    (fetch : option string -> io World (Page.t R)) (w : World) : Prop :=
  exists l, StronglySorted le l /\ NoDup l.*1 /\ (forall k r, (k, r) ∈ l <-> p w k r = true /\ row k w = Some r) /\
    enumerates fetch l w.

Lemma listed_NoDup {R} `{!Table R} (p : World -> string -> R -> bool) (le : relation (string * R)) `{!RelDecision le} w :
  NoDup (listed p le w).*1.
Proof.
  unfold listed. rewrite merge_sort_Permutation. unfold findMany.
  eapply sublist_NoDup; [apply (NoDup_fst_map_to_list (rows (tbl w)))|]. apply fmap_sublist, sublist_filter.
Qed.
Lemma listed_complete {R} `{!Table R} (p : World -> string -> R -> bool) (le : relation (string * R))
    `{!RelDecision le, !Transitive le, !Total le} fetch w :
  enumerates fetch (listed p le w) w -> shows_all p le fetch w.
Proof.
  intros He. exists (listed p le w). split; [apply StronglySorted_merge_sort; apply _|]. split; [apply listed_NoDup|].
  by split; [apply listed_elem|].
Qed.

Lemma StronglySorted_filter {A} (le : relation A) (P : A -> Prop) `{!forall x, Decision (P x)} l :
  StronglySorted le l -> StronglySorted le (filter P l).
Proof.
  induction 1 as [|x l _ IH Hx]; [constructor|]. rewrite filter_cons. destruct (decide (P x)); [|done].
  constructor; [done|]. apply Forall_forall. intros y [_ Hy]%list_elem_of_filter. by eapply Forall_forall.
Qed.
Lemma filter_none {A} (f : A -> bool) (l : list A) : (forall x, x ∈ l -> f x = false) -> filter (fun x => f x = true) l = [].
Proof.
  induction l as [|x l IH]; intros Hf; [done|]. rewrite filter_cons_False, IH; [done| |by rewrite Hf by left].
  intros y Hy. apply Hf. by right.
Qed.
(** A filter that selects more is a filter of the list. *)
Lemma listed_filter {R} `{!Table R} (p q : World -> string -> R -> bool) (le : relation (string * R))
    `{!RelDecision le, !Transitive le, !Total le} w :
  (forall a b, le a b -> le b a -> a.1 = b.1) ->
  listed (fun w k r => p w k r && q w k r) le w = filter (fun kr => q w kr.1 kr.2 = true) (listed p le w).
Proof.
  intros Ha. apply (StronglySorted_unique_strong le).
  - intros [k r] [k' r'] H1%listed_elem H2%list_elem_of_filter Hab Hba. destruct H2 as [_ H2%listed_elem].
    pose proof (Ha _ _ Hab Hba) as Hk. cbn in Hk. subst k'. destruct H1 as [_ H1], H2 as [_ H2]. congruence.
  - apply StronglySorted_merge_sort; apply _.
  - apply StronglySorted_filter, StronglySorted_merge_sort; apply _.
  - unfold listed. rewrite !merge_sort_Permutation. unfold findMany. rewrite list_filter_filter.
    apply reflexive_eq, list_filter_iff. intros [k r]. cbn. by rewrite andb_true_iff, (comm and).
Qed.

(** The end of the endpoints that follow a cursor by its row. *)
Definition list_page {R} `{!Table R} (p : World -> string -> R -> bool) (le : relation (string * R)) `{!RelDecision le}
    (visible : World -> R -> bool) (message : string) (cursor : option string) (limit : Z) : io World (Page.t R) :=
  _ ← check_cursor (R := R) cursor visible message;
  rows ← page_rows p le cursor limit;
  mret (page_of limit rows).
End pages.
