(* ===== verification/Auth.v ===== *)
(** API keys: how a request is authenticated and authorised ([auth/]).  The guards run before every
    handler; what Nest's reflector finds on a handler or its class is an argument. *)
From stdpp Require Import prelude gmap strings sorting.
From Stdlib Require Import ZArith Lia.
From S2P Require Import Prelude Json Digest Buffers Io Prisma Domain Tables AuditTrail Senders.
#[local] Open Scope Z_scope.

Module ApiScope.
Inductive t :=
| MESSAGES_READ | MESSAGES_WRITE | MEDIA_READ | MEDIA_WRITE | CONTACTS_READ | CONTACTS_WRITE
| PHONE_NUMBERS_READ | PHONE_NUMBERS_WRITE | TEMPLATES_READ | TEMPLATES_WRITE | CAMPAIGNS_READ | CAMPAIGNS_WRITE
| SEGMENTS_READ | SEGMENTS_WRITE | INBOX_READ | INBOX_WRITE | OPERATIONS_READ | API_KEYS_READ | API_KEYS_WRITE
| AUDIT_READ.
#[export] Instance eq_dec : EqDecision t.
Proof. solve_decision. Defined.
Definition value (s : t) : string :=
  match s with
  | MESSAGES_READ => "messages:read" | MESSAGES_WRITE => "messages:write"
  | MEDIA_READ => "media:read" | MEDIA_WRITE => "media:write"
  | CONTACTS_READ => "contacts:read" | CONTACTS_WRITE => "contacts:write"
  | PHONE_NUMBERS_READ => "phone_numbers:read" | PHONE_NUMBERS_WRITE => "phone_numbers:write"
  | TEMPLATES_READ => "templates:read" | TEMPLATES_WRITE => "templates:write"
  | CAMPAIGNS_READ => "campaigns:read" | CAMPAIGNS_WRITE => "campaigns:write"
  | SEGMENTS_READ => "segments:read" | SEGMENTS_WRITE => "segments:write"
  | INBOX_READ => "inbox:read" | INBOX_WRITE => "inbox:write"
  | OPERATIONS_READ => "operations:read"
  | API_KEYS_READ => "api_keys:read" | API_KEYS_WRITE => "api_keys:write"
  | AUDIT_READ => "audit:read"
  end.
End ApiScope.
Export (hints) ApiScope.

(** [ApiPrincipal]: the API key that makes a request. *)
Module Principal.
Record t := make { tenantId : string; apiKeyId : string; scopes : list string }.
Definition actor (p : t) : MutationActor.t := mutationActor (ApiPrincipal (tenantId p) (apiKeyId p)).
End Principal.

(** A header is a text, or several when it is repeated. *)
Inductive Header := One (value : string) | Many (values : list string).
Record Request := { apiKeyHeader : option Header; principal : option Principal.t }.
#[export] Instance settable_Request : Settable Request := fun r => Build_Request (apiKeyHeader r) (principal r).

Definition LAST_USED_WRITE_INTERVAL_MS : Z := 15 * 60 * 1000.

(** ** Keys *)
(** [randomBytes(size)]: what the n-th effect draws. *)
Class Randomness := {
  randomBytes : nat -> Z -> list Z;
  randomBytes_len : forall n size, 0 <= size -> len (randomBytes n size) = size
}.

Definition KEY_PREFIX : string := "wapi".
Definition hashApiKey (rawKey hashSecret : string) : string :=
  hex (Sha256.hmac (ascii_bytes hashSecret) (ascii_bytes rawKey)).
#[global] Arguments hashApiKey : simpl never.

Definition rawKey (request : Request) : option string :=
  match apiKeyHeader request with
  | None => None
  | Some (One key) => Some key
  | Some (Many keys) => head keys
  end.

(** [l.join(", ")] *)
Definition join_commas (l : list string) : string := String.concat ", " l.

Section auth.
Context `{Prisma} `{Environment} `{Randomness}.
(** [process.env.API_KEY_HASH_SECRET] *)
Context (API_KEY_HASH_SECRET : option string).

Definition random_bytes (size : Z) : io World (list Z) := fun w => (Ok (randomBytes (tick w) size), bump w).
Definition generateApiKey : io World (string * string) :=
  p ← random_bytes 6;
  let prefix := hex p in
  s ← random_bytes 32;
  let secret := base64url s in
  mret (KEY_PREFIX +:+ "_" +:+ prefix +:+ "_" +:+ secret, prefix).

(** [findUnique({ where: { keyHash }, include: { tenant: true } })]; the tenant of a key exists. *)
Definition find_key (keyHash : string) : io World (option (string * ApiKey.t * Tenant.t)) :=
  db (fun w => match findFirst (fun _ k => bool_decide (ApiKey.keyHash k = keyHash)) (apiKeys w) with
               | None => Some (None, w)
               | Some (id, key) => tenant ← row (ApiKey.tenantId key) w; Some (Some (id, key, tenant), w)
               end).
(** [!apiKey.active || apiKey.revokedAt || apiKey.tenant.status !== ACTIVE] *)
Definition unusable (key : ApiKey.t) (tenant : Tenant.t) : bool :=
  negb (ApiKey.active key) || bool_decide (is_Some (ApiKey.revokedAt key)) ||
  negb (bool_decide (Tenant.status tenant = TenantStatus.ACTIVE)).

(** [ApiKeyGuard.canActivate]: the request with its principal, instead of [true]. *)
Definition authenticate (isPublic : option bool) (request : Request) : io World Request :=
  if default false isPublic then mret request else
  rawKey ← found (UnauthorizedException "X-API-Key header is required") (truthy (rawKey request));
  hashSecret ← found (Error "API_KEY_HASH_SECRET is required") (truthy API_KEY_HASH_SECRET);
  apiKey ← find_key (hashApiKey rawKey hashSecret);
  match apiKey with
  | None => throw (UnauthorizedException "Invalid or inactive API key")
  | Some (id, key, tenant) =>
      if unusable key tenant then throw (UnauthorizedException "Invalid or inactive API key") else
      let request := request <| principal := Some (Principal.make (ApiKey.tenantId key) id (ApiKey.scopes key)) |> in
      stale ← (match ApiKey.lastUsedAt key with
               | None => mret true
               | Some lastUsedAt => t ← now; mret (LAST_USED_WRITE_INTERVAL_MS <=? t - lastUsedAt)
               end);
      if (stale : bool) then
        t ← now;
        _ ← update_row apiKey_unique id (fun k => k <| ApiKey.lastUsedAt := Some t |>);
        mret request
      else mret request
  end.

(** [ScopesGuard.canActivate] *)
Definition authorize (isPublic : option bool) (requiredScopes : option (list ApiScope.t)) (request : Request)
    : exec js_error unit :=
  if default false isPublic then Ok tt else
  match default [] requiredScopes with
  | [] => Ok tt
  | requiredScopes =>
      match principal request with
      | None => Throws (UnauthorizedException "Authenticated principal is required")
      | Some p =>
          let missingScopes := filter (fun s => s ∉ Principal.scopes p) (ApiScope.value <$> requiredScopes) in
          match missingScopes with
          | [] => Ok tt
          | _ => Throws (ForbiddenException ("Missing required API scopes: " +:+ join_commas missingScopes))
          end
      end
  end.

(** [@CurrentPrincipal()] *)
Definition currentPrincipal (request : Request) : exec js_error Principal.t :=
  match principal request with
  | Some p => Ok p
  | None => Throws (Error "Authenticated principal is not available")
  end.

(** A handler behind the two guards of [AuthModule], in their order. *)
Definition endpoint {A} (requiredScopes : option (list ApiScope.t)) (handler : Principal.t -> io World A)
    (request : Request) : io World A :=
  request ← authenticate None request;
  _ ← lift (authorize None requiredScopes request);
  p ← lift (currentPrincipal request);
  handler p.
End auth.

(** ** What the guards let through *)
Section guards.
Context `{Prisma} `{Environment} `{Randomness}.
Context (API_KEY_HASH_SECRET : option string).

(** The key whose hash the request carries. *)
Definition presents (request : Request) (w : World) (id : string) (key : ApiKey.t) : Prop :=
  exists raw secret, truthy (rawKey request) = Some raw /\ truthy API_KEY_HASH_SECRET = Some secret /\
    row id w = Some key /\ ApiKey.keyHash key = hashApiKey raw secret.
Definition usable (key : ApiKey.t) (w : World) : Prop :=
  ApiKey.active key = true /\ ApiKey.revokedAt key = None /\
  exists tenant, row (ApiKey.tenantId key) w = Some tenant /\ Tenant.status tenant = TenantStatus.ACTIVE.
(** At most the time of the last use changes, and that only when the recorded one is old. *)
Definition used (id : string) (key : ApiKey.t) (w w' : World) : Prop :=
  (exists n, w' = w <| tick := n |>) \/
  exists tb t n,
    match ApiKey.lastUsedAt key with None => True | Some l => exists t, LAST_USED_WRITE_INTERVAL_MS <= t - l end /\
    rows tb = <[id := key <| ApiKey.lastUsedAt := Some t |>]> (rows (apiKeys w)) /\
    w' = w <| apiKeys := tb |> <| tick := n |>.

Lemma unusable_spec key w tenant :
  row (ApiKey.tenantId key) w = Some tenant -> unusable key tenant = false <-> usable key w.
Proof.
  intros Ht. unfold unusable, usable. rewrite Ht, !orb_false_iff, !negb_false_iff, bool_decide_eq_true, bool_decide_eq_false.
  rewrite <- eq_None_not_Some. split; [intros [[? ?] ?]; by eauto|]. by intros (? & ? & ? & [= <-] & ?).
Qed.
Lemma presents_once request w id id' key key' :
  unique_in apiKey_unique (rows (apiKeys w)) -> presents request w id key -> presents request w id' key' -> id = id' /\ key = key'.
Proof.
  intros Hu (raw & sec & Ea & Eb & Ec & Ed) (raw' & sec' & Ea' & Eb' & Ec' & Ed').
  assert (raw' = raw) as -> by congruence. assert (sec' = sec) as -> by congruence.
  assert (id = id') as <-.
  { apply (Hu id id' key key' Ec Ec'). apply bool_decide_eq_true. congruence. }
  split; [done|]. unfold row in *. congruence.
Qed.

Definition authenticated (request : Request) (w : World) (r : exec js_error Request) (w' : World) : Prop :=
  match r with
  | Ok request' => exists id key, presents request w id key /\ usable key w /\ used id key w w' /\
      request' = request <| principal := Some (Principal.make (ApiKey.tenantId key) id (ApiKey.scopes key)) |>
  | Throws (UnauthorizedException _) =>
      (exists n, w' = w <| tick := n |>) /\ forall id key, presents request w id key -> ~ usable key w
  | Throws (Error _) =>
      (exists n, w' = w <| tick := n |>) \/ exists id key, presents request w id key /\ usable key w /\ used id key w w'
  | _ => False
  end.

Lemma authenticate_live request w :
  unique_in apiKey_unique (rows (apiKeys w)) ->
  wp (authenticate API_KEY_HASH_SECRET None request) (authenticated request w) w.
Proof.
  intros Hu. unfold authenticate. cbn [default from_option].
  apply wp_bind. destruct (truthy (rawKey request)) as [raw|] eqn:Er; cbn [found].
  2:{ apply wp_throw. split; [by exists (tick w); destruct w|]. intros id key (? & ? & ? & _). congruence. }
  apply wp_ret, wp_bind. destruct (truthy API_KEY_HASH_SECRET) as [sec|] eqn:Es; cbn [found].
  2:{ apply wp_throw. left. by exists (tick w); destruct w. }
  apply wp_ret, wp_bind, wp_db; [by intros e; left; eexists|].
  intros found w1 Hf. change (apiKeys (bump w)) with (apiKeys w) in Hf. change (bump w) with (w <| tick := S (tick w) |>) in Hf.
  destruct (findFirst _ _) as [[id key]|] eqn:Ef.
  2:{ injection Hf as <- <-. split; [by intros e; left; eexists|]. apply wp_throw. split; [by eexists|].
      intros id key (raw' & sec' & E1 & E2 & E3 & E4). pose proof (findFirst_none _ _ _ _ Ef E3) as Hn. cbn in Hn. apply bool_decide_eq_false in Hn. congruence. }
  apply bind_Some in Hf as (tenant & Ht & [= <- <-]). split; [by intros e; left; eexists|].
  apply findFirst_some in Ef as [Hk Hh]. apply bool_decide_eq_true in Hh.
  change (row (ApiKey.tenantId key) w = Some tenant) in Ht.
  assert (Hp : presents request w id key) by (exists raw, sec; done).
  destruct (unusable key tenant) eqn:Eu.
  { apply wp_throw. split; [by eexists|]. intros id' key' Hp' Hus.
    destruct (presents_once _ _ _ _ _ _ Hu Hp Hp') as [<- <-]. apply (unusable_spec key w tenant Ht) in Hus. congruence. }
  apply (unusable_spec key w tenant Ht) in Eu.
  assert (Hdone : forall n, used id key w (w <| tick := n |>)) by (intros n; left; by exists n).
  apply wp_bind.
  assert (Hold : forall n, (match ApiKey.lastUsedAt key with None => True | Some l => exists t, LAST_USED_WRITE_INTERVAL_MS <= t - l end) ->
    wp (t ← now; _ ← update_row apiKey_unique id (fun k => k <| ApiKey.lastUsedAt := Some t |>);
        mret (request <| principal := Some (Principal.make (ApiKey.tenantId key) id (ApiKey.scopes key)) |>))
      (authenticated request w) (w <| tick := n |>)).
  { intros n Hl. apply wp_bind, wp_now. intros t. apply wp_bind, (wp_update_found _ _ _ key); [done| | |].
    - intros k' r' Hne Hr'. apply bool_decide_eq_false. cbn. intros E. apply Hne. symmetry.
      apply (Hu id k' key r' Hk Hr'). by apply bool_decide_eq_true.
    - intros e. right. exists id, key. split; [done|]. split; [done|]. apply Hdone.
    - intros tb Htb. assert (Hus : used id key w (set_tbl tb (bump (bump (w <| tick := n |>))))).
      { right. by exists tb, t, (S (S n)). }
      split; [by intros e; right; exists id, key|]. apply wp_ret. by exists id, key. }
  destruct (ApiKey.lastUsedAt key) as [l|] eqn:El; [|by apply wp_ret, Hold].
  apply wp_bind, wp_now. intros t. apply wp_ret. destruct (Z.leb_spec LAST_USED_WRITE_INTERVAL_MS (t - l)).
  - apply Hold. by exists t.
  - apply wp_ret. exists id, key. split; [done|]. split; [done|]. split; [left; by eexists|done].
Qed.

(** C13: The guard lets a request through only with a key that is stored under the hash of the one it carries, active,
    not revoked and of an active tenant, and makes it a principal of exactly that key's tenant and
    scopes.  At most the time of the key's last use is written, and that at most every quarter of an
    hour.  It turns a request away only when there is no such key. *)
Theorem authenticate_correct request w (Hu : unique_in apiKey_unique (rows (apiKeys w))) :
  let '(r, w') := authenticate API_KEY_HASH_SECRET None request w in authenticated request w r w'.
Proof.
  pose proof (authenticate_live request w Hu) as Hl. unfold wp in Hl. by destruct (authenticate _ _ _ w) as [r w'].
Qed.

(** A usable key gets in while nothing fails. *)
Lemma authenticate_reliable request w id key :
  unique_in apiKey_unique (rows (apiKeys w)) -> no_faults -> presents request w id key -> usable key w ->
  wp (authenticate API_KEY_HASH_SECRET None request) (fun r _ =>
    r = Ok (request <| principal := Some (Principal.make (ApiKey.tenantId key) id (ApiKey.scopes key)) |>)) w.
Proof.
  intros Hu Hr (raw & sec & Eraw & Esec & Hk & Hh) Hus. pose proof Hus as (_ & _ & tenant & Ht & _).
  unfold authenticate. cbn [default from_option]. rewrite Eraw. apply wp_bind, wp_ret. rewrite Esec. apply wp_bind, wp_ret, wp_bind.
  assert (Hf : findFirst (fun _ k => bool_decide (ApiKey.keyHash k = hashApiKey raw sec)) (apiKeys w) = Some (id, key)).
  { apply findFirst_unique; [exact Hk|by apply bool_decide_eq_true|]. intros k' r' Hk' E%bool_decide_eq_true.
    apply (Hu k' id r' key Hk' Hk). apply bool_decide_eq_true. congruence. }
  apply (wp_db_reliable _ _ _ (Some (id, key, tenant)) (bump w) Hr).
  { change (apiKeys (bump w)) with (apiKeys w). rewrite Hf.
    change (row (ApiKey.tenantId key) (bump w)) with (row (R := Tenant.t) (ApiKey.tenantId key) w). by rewrite Ht. }
  apply (unusable_spec key w tenant Ht) in Hus. rewrite Hus. cbv zeta. apply wp_bind.
  assert (Hold : forall n,
    wp (t ← now; _ ← update_row apiKey_unique id (fun k => k <| ApiKey.lastUsedAt := Some t |>);
        mret (request <| principal := Some (Principal.make (ApiKey.tenantId key) id (ApiKey.scopes key)) |>))
      (fun r _ => r = Ok (request <| principal := Some (Principal.make (ApiKey.tenantId key) id (ApiKey.scopes key)) |>))
      (w <| tick := n |>)).
  { intros n. apply wp_bind, wp_now. intros t. apply wp_bind, (wp_update_reliable _ _ _ key); [done|exact Hk| |done].
    intros k' r' Hne Hr'. apply bool_decide_eq_false. cbn. intros E. apply Hne. symmetry.
    apply (Hu id k' key r' Hk Hr'). by apply bool_decide_eq_true. }
  destruct (ApiKey.lastUsedAt key) as [l|]; [|by apply wp_ret, Hold].
  apply wp_bind, wp_now. intros t. apply wp_ret. destruct (_ <=? _); [apply Hold|by apply wp_ret].
Qed.

(** The second guard: exactly the requests whose principal has every required scope. *)
Lemma authorize_ok required request p :
  principal request = Some p ->
  authorize None (Some required) request = Ok tt <-> forall s, s ∈ required -> ApiScope.value s ∈ Principal.scopes p.
Proof.
  intros Hp. unfold authorize. cbn [default from_option]. rewrite Hp. destruct required as [|s0 l].
  { split; [|done]. intros _ s Hs. by apply elem_of_nil in Hs. }
  set (missing := filter (fun s => s ∉ Principal.scopes p) (ApiScope.value <$> s0 :: l)). assert (Hm : missing = [] <-> forall s, s ∈ s0 :: l -> ApiScope.value s ∈ Principal.scopes p).
  { unfold missing. split.
    - intros E s Hs. destruct (decide (ApiScope.value s ∈ Principal.scopes p)) as [|Hn]; [done|].
      assert (Hin : ApiScope.value s ∈ filter (fun x => x ∉ Principal.scopes p) (ApiScope.value <$> s0 :: l)).
      { apply list_elem_of_filter. split; [done|]. by apply list_elem_of_fmap_2. }
      rewrite E in Hin. by apply elem_of_nil in Hin.
    - intros Hall. destruct (filter _ _) as [|x l'] eqn:E; [done|]. exfalso.
      assert (Hx : x ∈ filter (fun x => x ∉ Principal.scopes p) (ApiScope.value <$> s0 :: l)) by (rewrite E; by left).
      apply list_elem_of_filter in Hx as [Hn (s & -> & Hs)%list_elem_of_fmap]. by apply Hn, Hall. }
  rewrite <- Hm. unfold id. fold missing. by destruct missing.
Qed.
End guards.
