(* ===== verification/ApiKeys.v ===== *)
(** Managing API keys ([api-keys/api-keys.service.ts] and its controller). *)
From stdpp Require Import prelude gmap strings sorting.
From Stdlib Require Import ZArith Lia.
From S2P Require Import Prelude Json Digest Buffers Io Prisma Domain Frame Tables AuditTrail Senders Auth.
#[local] Open Scope Z_scope.

Module CreateApiKeyDto.
Record t := make { name : string; scopes : list ApiScope.t }.
End CreateApiKeyDto.

(** What a caller gets to see of a key: not its hash. *)
Module SafeApiKey.
Record t := make {
  id : string;
  name : string;
  prefix : string;
  scopes : list string;
  active : bool;
  lastUsedAt : option Z;
  createdAt : Z;
  revokedAt : option Z
}.
End SafeApiKey.
Definition safeApiKey (id : string) (k : ApiKey.t) : SafeApiKey.t :=
  SafeApiKey.make id (ApiKey.name k) (ApiKey.prefix k) (ApiKey.scopes k) (ApiKey.active k) (ApiKey.lastUsedAt k)
    (ApiKey.createdAt k) (ApiKey.revokedAt k).

(** [orderBy: [{ active: "desc" }, { createdAt: "desc" }]] *)
Definition newest_active_first (a b : string * ApiKey.t) : Prop :=
  (ApiKey.active a.2 = true /\ ApiKey.active b.2 = false) \/
  (ApiKey.active a.2 = ApiKey.active b.2 /\ ApiKey.createdAt b.2 <= ApiKey.createdAt a.2).
#[export] Instance newest_active_first_dec : RelDecision newest_active_first.
Proof. intros a b. unfold newest_active_first. apply _. Defined.

Section keys.
Context `{Prisma} `{Environment} `{Randomness}.
Context (API_KEY_HASH_SECRET : option string).

Definition key_audit (principal : Principal.t) (context : AuditRequestContext) (action id : string) (k : ApiKey.t)
    : io World unit :=
  write_audit (Some
    {| AuditData.tenantId := Principal.tenantId principal; AuditData.actorApiKeyId := Principal.apiKeyId principal;
       AuditData.action := action; AuditData.entityType := "ApiKey"; AuditData.entityId := Some id;
       AuditData.metadata := Some (JObj [("name", JStr (ApiKey.name k)); ("prefix", JStr (ApiKey.prefix k));
                                        ("scopes", JArr (JStr <$> ApiKey.scopes k))]%string);
       AuditData.ipAddress := ipAddress context; AuditData.userAgent := userAgent context |}).

Definition create_body (principal : Principal.t) (context : AuditRequestContext) (name prefix keyHash : string)
    (requestedScopes : list string) : io World (string * ApiKey.t) :=
  createdAt ← now;
  created ← create_row apiKey_unique
    {| ApiKey.tenantId := Principal.tenantId principal; ApiKey.name := JsString.trim name; ApiKey.prefix := prefix;
       ApiKey.keyHash := keyHash; ApiKey.scopes := requestedScopes; ApiKey.active := true; ApiKey.lastUsedAt := None;
       ApiKey.createdAt := createdAt; ApiKey.revokedAt := None |};
  _ ← key_audit principal context "api_key.created" created.1 created.2;
  mret created.
Definition create (principal : Principal.t) (context : AuditRequestContext) (dto : CreateApiKeyDto.t)
    : io World (string * SafeApiKey.t) :=
  let requestedScopes := set_of (ApiScope.value <$> CreateApiKeyDto.scopes dto) in
  let unauthorizedScopes := filter (fun s => s ∉ Principal.scopes principal) requestedScopes in
  match unauthorizedScopes with
  | _ :: _ => throw (ForbiddenException
                 ("Cannot grant scopes not held by the current API key: " +:+ join_commas unauthorizedScopes))
  | [] =>
      hashSecret ← found (Error "API_KEY_HASH_SECRET is required") (truthy API_KEY_HASH_SECRET);
      '(rawKey, prefix) ← generateApiKey;
      apiKey ← transaction (create_body principal context (CreateApiKeyDto.name dto) prefix
                 (hashApiKey rawKey hashSecret) requestedScopes);
      mret (rawKey, safeApiKey apiKey.1 apiKey.2)
  end.

Definition list_keys (tenantId : string) : io World (list SafeApiKey.t) :=
  keys ← find_rows (fun _ k => bool_decide (ApiKey.tenantId k = tenantId));
  mret ((fun k => safeApiKey k.1 k.2) <$> merge_sort newest_active_first keys).

Definition revoke_data (revokedAt : Z) (k : ApiKey.t) : ApiKey.t :=
  k <| ApiKey.active := false |> <| ApiKey.revokedAt := Some revokedAt |>.
Definition revoke_body (principal : Principal.t) (context : AuditRequestContext) (id : string)
    : io World SafeApiKey.t :=
  existing ← find_row (fun k key => bool_decide (k = id) && bool_decide (ApiKey.tenantId key = Principal.tenantId principal));
  existing ← found (NotFoundException "API key not found") existing;
  if negb (ApiKey.active existing.2) || bool_decide (is_Some (ApiKey.revokedAt existing.2)) then
    mret (safeApiKey existing.1 existing.2)
  else
    revokedAt ← now;
    revoked ← update_row apiKey_unique id (revoke_data revokedAt);
    _ ← key_audit principal context "api_key.revoked" id revoked;
    mret (safeApiKey id revoked).
Definition revoke (principal : Principal.t) (context : AuditRequestContext) (id : string) : io World SafeApiKey.t :=
  transaction (revoke_body principal context id).

(** *** The controller *)
Definition createEndpoint (context : AuditRequestContext) (dto : CreateApiKeyDto.t) : Request -> io World (string * SafeApiKey.t) :=
  endpoint API_KEY_HASH_SECRET (Some [ApiScope.API_KEYS_WRITE]) (fun principal => create principal context dto).
Definition listEndpoint : Request -> io World (list SafeApiKey.t) :=
  endpoint API_KEY_HASH_SECRET (Some [ApiScope.API_KEYS_READ]) (fun principal => list_keys (Principal.tenantId principal)).
Definition revokeEndpoint (context : AuditRequestContext) (id : string) : Request -> io World SafeApiKey.t :=
  endpoint API_KEY_HASH_SECRET (Some [ApiScope.API_KEYS_WRITE]) (fun principal => revoke principal context id).
End keys.
