(* ===== verification/KeyHistory.v ===== *)
(** What becomes of API keys through any history of requests: no key gets more rights than the keys
    of its tenant had, and a revoked key stays out. *)
From stdpp Require Import prelude gmap strings sorting.
From Stdlib Require Import ZArith Lia.
From S2P Require Import Prelude Json Digest Buffers Io Prisma Domain Frame Tables AuditTrail Senders Auth ApiKeys.
#[local] Open Scope Z_scope.

(** The same key later: its rights are what they were, and a revocation is final. *)
Record same_key (k k' : ApiKey.t) : Prop := {
  same_tenant : ApiKey.tenantId k' = ApiKey.tenantId k;
  same_hash : ApiKey.keyHash k' = ApiKey.keyHash k;
  same_scopes : ApiKey.scopes k' = ApiKey.scopes k;
  same_active : ApiKey.active k' = true -> ApiKey.active k = true;
  same_revoked : ApiKey.revokedAt k' = None -> ApiKey.revokedAt k = None
}.
(** The rights to make the key [k'] with the key [k]. *)
Record can_grant (k k' : ApiKey.t) : Prop := {
  grant_tenant : ApiKey.tenantId k' = ApiKey.tenantId k;
  grant_active : ApiKey.active k = true;
  grant_revoked : ApiKey.revokedAt k = None;
  grant_write : ApiScope.value ApiScope.API_KEYS_WRITE ∈ ApiKey.scopes k;
  grant_scopes : ApiKey.scopes k' ⊆ ApiKey.scopes k
}.
#[export] Instance same_key_refl : Reflexive same_key.
Proof. by intros k; split. Qed.

Section growth.
Context `{PR : Prisma}.
Definition key_row (id : string) (w : World) : option ApiKey.t := row id w.

Record keys_grow (w w' : World) : Prop := {
  grow_kept : forall id k, key_row id w = Some k -> exists k', key_row id w' = Some k' /\ same_key k k';
  grow_new : forall id k', key_row id w' = Some k' -> key_row id w = None ->
    exists id0 k0, key_row id0 w = Some k0 /\ can_grant k0 k'
}.

Lemma same_key_trans k1 k2 k3 : same_key k1 k2 -> same_key k2 k3 -> same_key k1 k3.
Proof. intros [] []; split; try congruence; eauto. Qed.
Lemma can_grant_same k k' k'' : can_grant k k' -> same_key k' k'' -> can_grant k k''.
Proof. intros Hg [Ht _ Hs _ _]. destruct Hg. by split; rewrite ?Ht, ?Hs. Qed.
Lemma same_can_grant k0 k k' : same_key k0 k -> can_grant k k' -> can_grant k0 k'.
Proof. intros [Ht _ Hs Ha Hr] []. split; rewrite <- ?Ht, <- ?Hs; auto. Qed.
Lemma can_grant_trans k0 k k' : can_grant k0 k -> can_grant k k' -> can_grant k0 k'.
Proof. intros [] []. split; [congruence|done|done|done|]. by etrans. Qed.

#[export] Instance keys_grow_preorder : PreOrder keys_grow.
Proof.
  split.
  - intros w. split; [intros id k Hk; by exists k|]. intros id k Hk Hn. congruence.
  - intros w1 w2 w3 [Hk Hn] [Hk' Hn']. split.
    + intros id k Hr. destruct (Hk id k Hr) as (k2 & Hr2 & Hs). destruct (Hk' id k2 Hr2) as (k3 & Hr3 & Hs').
      exists k3. split; [done|]. by eapply same_key_trans.
    + intros id k3 Hr3 Hno. destruct (key_row id w2) as [k2|] eqn:Hr2.
      * destruct (Hn id k2 Hr2 Hno) as (id0 & k0 & Hr0 & Hg). exists id0, k0. split; [done|].
        destruct (Hk' id k2 Hr2) as (k3' & Hr3' & Hs). rewrite Hr3 in Hr3'. injection Hr3' as <-. by eapply can_grant_same.
      * destruct (Hn' id k3 Hr3 Hr2) as (id2 & k2 & Hr2' & Hg). destruct (key_row id2 w1) as [k1|] eqn:Hr1.
        -- destruct (Hk id2 k1 Hr1) as (k2' & Hx & Hs). rewrite Hr2' in Hx. injection Hx as <-.
           exists id2, k1. split; [done|]. by eapply same_can_grant.
        -- destruct (Hn id2 k2 Hr2' Hr1) as (id0 & k0 & Hr0 & Hg'). exists id0, k0. split; [done|]. by eapply can_grant_trans.
Qed.

(** ... and the hashes stay different. *)
Definition keys_ok (w : World) : Prop := unique_in apiKey_unique (rows (apiKeys w)).
Definition keys_step (w w' : World) : Prop := keys_grow w w' /\ (keys_ok w -> keys_ok w').
#[export] Instance keys_step_preorder : PreOrder keys_step.
Proof. split; [intros w; by split|]. intros w1 w2 w3 [Ha Hb] [Hc Hd]. split; [by etrans|auto]. Qed.

Lemma keys_step_same w w' : rows (apiKeys w') = rows (apiKeys w) -> keys_step w w'.
Proof.
  intros E. assert (Hr : forall id, key_row id w' = key_row id w) by (intros id; unfold key_row, row; cbn; by rewrite E).
  split; [split|unfold keys_ok; by rewrite E].
  - intros id k Hk. exists k. by rewrite Hr.
  - intros id k Hk Hn. rewrite Hr in Hk. congruence.
Qed.
Lemma apiKey_unique_sym a b : apiKey_unique a b = apiKey_unique b a.
Proof. unfold apiKey_unique. by apply bool_decide_ext. Qed.
Lemma keys_step_update w w' id k k' :
  key_row id w = Some k -> same_key k k' -> rows (apiKeys w') = <[id := k']> (rows (apiKeys w)) -> keys_step w w'.
Proof.
  intros Hk Hs E. assert (Hr : forall x, key_row x w' = if decide (id = x) then Some k' else key_row x w).
  { intros x. unfold key_row, row. cbn. rewrite E. by apply lookup_insert. }
  split; [split|].
  - intros x kx Hx. rewrite Hr. destruct (decide (id = x)) as [<-|]; [|by exists kx].
    exists k'. rewrite Hk in Hx. by injection Hx as <-.
  - intros x kx Hx Hn. rewrite Hr in Hx. destruct (decide (id = x)) as [<-|]; congruence.
  - unfold keys_ok. rewrite E. intros Hu. eapply unique_update; [apply apiKey_unique_sym|exact Hu|exact Hk|].
    intros x. unfold apiKey_unique. by rewrite (same_hash _ _ Hs).
Qed.
Lemma keys_step_create w w' id k :
  key_row id w = None -> (exists id0 k0, key_row id0 w = Some k0 /\ can_grant k0 k) ->
  (forall x r, key_row x w = Some r -> apiKey_unique k r = false) ->
  rows (apiKeys w') = <[id := k]> (rows (apiKeys w)) -> keys_step w w'.
Proof.
  intros Hk Hg Hc E. assert (Hr : forall x, key_row x w' = if decide (id = x) then Some k else key_row x w).
  { intros x. unfold key_row, row. cbn. rewrite E. by apply lookup_insert. }
  split; [split|].
  - intros x kx Hx. rewrite Hr. exists kx. rewrite decide_False; [done|]. intros <-. congruence.
  - intros x kx Hx Hn. rewrite Hr in Hx. destruct (decide (id = x)) as [<-|]; [|congruence]. by injection Hx as <-.
  - unfold keys_ok. rewrite E. intros Hu. by apply unique_create; [apply apiKey_unique_sym|..].
Qed.
End growth.

Section steps.
Context `{PR : Prisma} `{EN : Environment} `{RA : Randomness}.
Context (API_KEY_HASH_SECRET : option string).

(** The principal is that of a key in use. *)
Definition granted (w : World) (p : Principal.t) : Prop :=
  exists key, key_row (Principal.apiKeyId p) w = Some key /\ Principal.tenantId p = ApiKey.tenantId key /\
    Principal.scopes p = ApiKey.scopes key /\ ApiKey.active key = true /\ ApiKey.revokedAt key = None.

Lemma used_step id key w w' :
  key_row id w = Some key -> used id key w w' -> keys_step w w' /\
    exists key', key_row id w' = Some key' /\ ApiKey.tenantId key' = ApiKey.tenantId key /\ ApiKey.scopes key' = ApiKey.scopes key /\
      ApiKey.active key' = ApiKey.active key /\ ApiKey.revokedAt key' = ApiKey.revokedAt key.
Proof.
  intros Hk [[n ->]|(tb & t & n & _ & Htb & ->)].
  - split; [by apply keys_step_same|]. by exists key.
  - split.
    + by eapply (keys_step_update _ _ id key (key <| ApiKey.lastUsedAt := Some t |>)).
    + exists (key <| ApiKey.lastUsedAt := Some t |>). split; [|done]. unfold key_row, row. cbn. rewrite Htb. apply lookup_insert_eq.
Qed.

Lemma authenticate_step request w :
  keys_ok w ->
  wp (authenticate API_KEY_HASH_SECRET None request) (fun r w' => keys_step w w' /\
    match r with Ok request' => exists p, principal request' = Some p /\ granted w' p | _ => True end) w.
Proof.
  intros Hok. eapply wp_mono; [by apply authenticate_live|]. intros r w' Ha. destruct r as [request'|e|]; [| |done].
  - destruct Ha as (id & key & (raw & sec & _ & _ & Hk & _) & (Hact & Hrev & _) & Hu & ->).
    destruct (used_step id key w w' Hk Hu) as (Hs & key' & Hk' & H1 & H2 & H3 & H4). split; [done|].
    eexists. split; [done|]. exists key'. cbn. split; [done|]. by rewrite H1, H2, H3, H4.
  - split; [|done]. destruct e; try done; [destruct Ha as [[n ->] _]; by apply keys_step_same|].
    destruct Ha as [[n ->]|(id & key & (raw & sec & _ & _ & Hk & _) & _ & Hu)]; [by apply keys_step_same|].
    by eapply used_step.
Qed.

(** What a handler may do when the guards let it run. *)
Definition key_safe {A} (required : list ApiScope.t) (handler : Principal.t -> io World A) : Prop :=
  forall p w, keys_ok w -> granted w p -> (forall s, s ∈ required -> ApiScope.value s ∈ Principal.scopes p) ->
    wp (handler p) (fun _ w' => keys_step w w') w.
Lemma endpoint_step {A} required (handler : Principal.t -> io World A) request w :
  key_safe required handler -> keys_ok w ->
  wp (endpoint API_KEY_HASH_SECRET (Some required) handler request) (fun _ w' => keys_step w w') w.
Proof.
  intros Hh Hok. unfold endpoint. apply wp_bind. eapply wp_mono; [by apply authenticate_step|].
  intros [request'|e|] w1 [Hs Hp]; [|done|done]. destruct Hp as (p & Hp & Hg).
  apply wp_bind, wp_lift. destruct (authorize None (Some required) request') as [[]|e|] eqn:Ea; [|done|done].
  rewrite (authorize_ok required request' p Hp) in Ea.
  apply wp_bind, wp_lift. unfold currentPrincipal. rewrite Hp.
  eapply wp_mono; [apply Hh; [by apply Hs|done|done]|]. intros r w2 Hs2. by etrans.
Qed.

(** *** Making a key *)
Definition created (w : World) (p : Principal.t) (requested : list string) (hash : string) (a : string * ApiKey.t) (w' : World) : Prop :=
  keys_step w w' /\ key_row a.1 w' = Some a.2 /\ ApiKey.keyHash a.2 = hash /\ ApiKey.scopes a.2 = requested /\
  ApiKey.tenantId a.2 = Principal.tenantId p /\ ApiKey.active a.2 = true /\ ApiKey.revokedAt a.2 = None /\
  ApiKey.lastUsedAt a.2 = None /\ tenants w' = tenants w.
Lemma create_body_live p ctx name prefix hash requested w :
  granted w p -> ApiScope.value ApiScope.API_KEYS_WRITE ∈ Principal.scopes p -> requested ⊆ Principal.scopes p ->
  wp (create_body p ctx name prefix hash requested) (on_ok (created w p requested hash)) w.
Proof.
  intros (key & Hk & Ht & Hsc & Ha & Hr) Hw Hreq. apply start. intros n. unfold create_body, key_audit. ok_steps.
  apply ok_create_row; [|done]. intros id tb m Hne Hid Htb Hc. cbn [fst snd]. ok_steps.
  set (k := ApiKey.make _ _ _ _ _ _ _ _ _) in *.
  split; [|split; [|by repeat split]].
  - apply (keys_step_create _ _ id k); [done| |exact Hc|exact Htb].
    exists (Principal.apiKeyId p), key. split; [done|]. split; cbn; try done; by rewrite <- ?Hsc.
  - unfold key_row, row. cbn. rewrite Htb. apply lookup_insert_eq.
Qed.

Lemma key_create_live p ctx dto w :
  granted w p -> ApiScope.value ApiScope.API_KEYS_WRITE ∈ Principal.scopes p ->
  wp (create API_KEY_HASH_SECRET p ctx dto) (fun r w' => keys_step w w' /\
    match r with
    | Ok (raw, safe) => exists sec k, truthy API_KEY_HASH_SECRET = Some sec /\ truthy (Some raw) = Some raw /\
        safe = safeApiKey (SafeApiKey.id safe) k /\
        created w p (set_of (ApiScope.value <$> CreateApiKeyDto.scopes dto)) (hashApiKey raw sec) (SafeApiKey.id safe, k) w'
    | _ => True
    end) w.
Proof.
  intros Hg Hw. unfold create. cbv zeta. set (requested := set_of _).
  destruct (filter _ _) as [|x l] eqn:Ef; [|by apply wp_throw].
  assert (Hreq : requested ⊆ Principal.scopes p).
  { intros s Hs. destruct (decide (s ∈ Principal.scopes p)) as [|Hn]; [done|].
    assert (Hin : s ∈ filter (fun s => s ∉ Principal.scopes p) requested) by by apply list_elem_of_filter.
    rewrite Ef in Hin. by apply elem_of_nil in Hin. }
  apply wp_bind. destruct (truthy API_KEY_HASH_SECRET) as [sec|]; cbn [found]; [|by apply wp_throw].
  apply wp_ret, wp_bind. unfold generateApiKey. apply wp_bind. unfold random_bytes at 1. unfold wp at 1. cbn [fst snd].
  apply wp_bind. unfold random_bytes. unfold wp at 1. cbn [fst snd]. apply wp_ret.
  apply wp_bind. set (raw := (KEY_PREFIX +:+ _)%string). set (w1 := bump (bump w)).
  eapply wp_mono.
  { apply (transaction_settled (F := fun _ => True) _ (created w p requested (hashApiKey raw sec))).
    { intros a w2 n (Hs & Hx). split; [|exact Hx]. etrans; [exact Hs|by apply keys_step_same]. }
    eapply ok_mono; [by apply (create_body_live _ _ _ _ _ requested w1)|]. intros a w2 (Hs & Hx).
    split; [|exact Hx]. etrans; [by apply (keys_step_same w w1)|exact Hs]. }
  intros [[id k]|e|] w2 Hset; [|split; [|done]|done].
  - apply wp_ret. split; [apply Hset|]. exists sec, k. by destruct Hset as (Hs & Hx).
  - destruct Hset as [[_ [n ->]]|[_ (a & Hs & _)]]; [by apply keys_step_same|exact Hs].
Qed.

(** *** Taking it away *)
Definition revoked (w : World) (p : Principal.t) (id : string) (safe : SafeApiKey.t) (w' : World) : Prop :=
  keys_step w w' /\ exists k, key_row id w' = Some k /\ (ApiKey.active k = false \/ ApiKey.revokedAt k <> None) /\
    ApiKey.tenantId k = Principal.tenantId p /\ safe = safeApiKey id k.
Lemma revoke_live p ctx id w :
  wp (revoke p ctx id) (fun r w' => keys_step w w' /\ match r with Ok safe => revoked w p id safe w' | _ => True end) w.
Proof.
  eapply wp_mono.
  { apply (transaction_settled (F := fun _ => True) _ (revoked w p id)).
    { intros safe w1 n (Hs & k & Hk). split; [etrans; [exact Hs|by apply keys_step_same]|by exists k]. }
    apply start. intros n. unfold revoke_body, key_audit. ok_steps.
    destruct (findFirst _ _) as [[k0 k]|] eqn:Ef; cbn [found]; [|by apply ok_throw].
    apply findFirst_some in Ef as [Hk [->%bool_decide_eq_true Ht%bool_decide_eq_true]%andb_true_iff].
    apply ok_ret. cbn [fst snd]. change (key_row id w = Some k) in Hk.
    destruct (negb (ApiKey.active k) || bool_decide (is_Some (ApiKey.revokedAt k))) eqn:Ea.
    - apply ok_ret. split; [by apply keys_step_same|]. exists k. split; [done|]. split; [|done].
      apply orb_true_iff in Ea as [Ea%negb_true_iff|[x Ex]%bool_decide_eq_true]; [by left|right; congruence].
    - apply orb_false_iff in Ea as [Ea%negb_false_iff Er%bool_decide_eq_false]. ok_steps.
      apply ok_update_row; [|done|done]. intros tb r m Hr Htb Hc. ok_steps. change (key_row id w = Some r) in Hr.
      rewrite Hk in Hr. injection Hr as <-. rename t into revokedAt.
      assert (Hnew : key_row id (set_tbl tb w <| auditLogs := t0 |> <| tick := n1 |>) = Some (revoke_data revokedAt k)).
      { unfold key_row, row. cbn. rewrite Htb. apply lookup_insert_eq. }
      split; [|exists (revoke_data revokedAt k); split; [exact Hnew|by split; [left|]]].
      apply (keys_step_update _ _ id k (revoke_data revokedAt k)); [done| |exact Htb]. by split. }
  intros [safe|e|] w1 Hset; [by split; [apply Hset|]|split; [|done]|done].
  destruct Hset as [[_ [n ->]]|[_ (a & Hs & _)]]; [by apply keys_step_same|exact Hs].
Qed.
End steps.

(** ** Histories of requests *)
Section histories.
Context `{PR : Prisma} `{EN : Environment} `{RA : Randomness}.
Context (API_KEY_HASH_SECRET : option string).

(** A call of the API: the key endpoints, or any other endpoint, whose handler leaves keys alone. *)
Inductive key_call :=
| CreateKey (context : AuditRequestContext) (dto : CreateApiKeyDto.t)
| ListKeys
| RevokeKey (context : AuditRequestContext) (id : string)
| OtherCall (required : list ApiScope.t) (handler : Principal.t -> io World unit).
Definition valid_call (c : Request * key_call) : Prop :=
  match c.2 with OtherCall _ handler => forall p, frames apiKeys (handler p) | _ => True end.
Definition serve (w : World) (c : Request * key_call) : World :=
  match c.2 with
  | CreateKey context dto => (createEndpoint API_KEY_HASH_SECRET context dto c.1 w).2
  | ListKeys => (listEndpoint API_KEY_HASH_SECRET c.1 w).2
  | RevokeKey context id => (revokeEndpoint API_KEY_HASH_SECRET context id c.1 w).2
  | OtherCall required handler => (endpoint API_KEY_HASH_SECRET (Some required) handler c.1 w).2
  end.

Lemma frames_key_safe {A} required (handler : Principal.t -> io World A) :
  (forall p, frames apiKeys (handler p)) -> key_safe required handler.
Proof. intros Hf p w _ _ _. apply keys_step_same. by rewrite (Hf p w). Qed.
Lemma serve_step w c : keys_ok w -> valid_call c -> keys_step w (serve w c).
Proof.
  intros Hok Hv. destruct c as [request []]; cbn [serve fst snd].
  - apply (endpoint_step API_KEY_HASH_SECRET [ApiScope.API_KEYS_WRITE]); [|done]. intros p w' _ Hg Hs.
    eapply wp_mono; [apply key_create_live; [done|apply Hs; by left]|]. by intros r w2 [? _].
  - apply (endpoint_step API_KEY_HASH_SECRET [ApiScope.API_KEYS_READ]); [|done]. apply frames_key_safe. intros p.
    unfold list_keys, find_rows. frame_steps.
  - apply (endpoint_step API_KEY_HASH_SECRET [ApiScope.API_KEYS_WRITE]); [|done]. intros p w' _ _ _.
    eapply wp_mono; [apply revoke_live|]. by intros r w2 [? _].
  - apply (endpoint_step API_KEY_HASH_SECRET required); [|done]. by apply frames_key_safe.
Qed.
Lemma serve_all l w : keys_ok w -> Forall valid_call l -> keys_step w (foldl serve w l).
Proof.
  intros Hok Hv. revert w Hok. induction Hv as [|c l Hc _ IH]; intros w Hok; cbn; [reflexivity|].
  pose proof (serve_step w c Hok Hc) as Hs. etrans; [exact Hs|]. by apply IH, Hs.
Qed.

(** C11: No escalation: through any sequence of requests, whatever headers they carry and whatever fails, the keys
    there were keep their tenant, their scopes and their hash and are never reactivated, and every new key
    belongs to a tenant that had an active key allowed to write keys, whose scopes include all of
    the new key's. *)
Theorem no_escalation l w (Hok : keys_ok w) (Hv : Forall valid_call l) :
  keys_grow w (foldl serve w l) /\ keys_ok (foldl serve w l).
Proof. destruct (serve_all l w Hok Hv) as [Hg Hu]. auto. Qed.

(** C12: A revocation is final: after a key has been revoked, whatever requests come in between, no request that
    carries it reaches a handler. *)
Theorem revocation_is_final p context id safe w w1 l request raw sec required {A} (handler : Principal.t -> io World A) (key : ApiKey.t)
    (Hok : keys_ok w) (Hrun : revoke p context id w = (Ok safe, w1)) (Hv : Forall valid_call l)
    (Hraw : rawKey request = Some raw) (Hsec : truthy API_KEY_HASH_SECRET = Some sec)
    (Hkey : row id w = Some key) (Hhash : ApiKey.keyHash key = hashApiKey raw sec) :
  let w2 := foldl serve w1 l in
  exists e n, endpoint API_KEY_HASH_SECRET required handler request w2 = (Throws e, w2 <| tick := n |>).
Proof.
  intros w2. pose proof (wp_run _ _ _ _ _ (revoke_live p context id w) Hrun) as [Hs1 [_ (k1 & Hk1 & Hdead & _)]].
  assert (Hok1 : keys_ok w1) by by apply Hs1. pose proof (serve_all l w1 Hok1 Hv) as Hs2. fold w2 in Hs2.
  assert (Hok2 : keys_ok w2) by by apply Hs2.
  destruct (grow_kept _ _ (proj1 Hs1) id key Hkey) as (k1' & E1 & Hsame1). rewrite Hk1 in E1. injection E1 as <-.
  destruct (grow_kept _ _ (proj1 Hs2) id k1 Hk1) as (k2 & Hk2 & Hsame2).
  pose proof (authenticate_live API_KEY_HASH_SECRET request w2 Hok2) as Ha. unfold wp in Ha.
  assert (Hno : forall id' key', presents API_KEY_HASH_SECRET request w2 id' key' -> ~ usable key' w2).
  { intros id' key' (raw' & sec' & E1 & E2 & E3 & E4) (Hact & Hrev & _).
    assert (raw' = raw) as -> by (rewrite Hraw in E1; destruct raw; cbn in E1; congruence). assert (sec' = sec) as -> by congruence.
    assert (id = id') as <-.
    { apply (Hok2 id id' k2 key' Hk2 E3). apply bool_decide_eq_true. rewrite (same_hash _ _ Hsame2), (same_hash _ _ Hsame1). congruence. }
    unfold key_row in Hk2. assert (key' = k2) as -> by congruence.
    destruct Hdead as [Hd|Hd].
    - apply (same_active _ _ Hsame2) in Hact. congruence.
    - by apply Hd, (same_revoked _ _ Hsame2). }
  unfold endpoint, mbind, io_bind. destruct (authenticate _ _ _ w2) as [r w3]. cbn [fst snd] in Ha. destruct r as [request'|e|]; [| |done].
  - destruct Ha as (id' & key' & Hp & Hus & _). by destruct (Hno id' key' Hp).
  - exists e. destruct e; try done; [destruct Ha as [[n ->] _]; by exists n|].
    destruct Ha as [[n ->]|(id' & key' & Hp & Hus & _)]; [by exists n|]. by destruct (Hno id' key' Hp).
Qed.

(** C34: A key that was just made works: while the database does not fail, the text returned to its maker authenticates as
    the maker's tenant with exactly the scopes asked for. *)
Theorem created_key_works p context dto raw safe w w1 (tenant : Tenant.t)
    (Hok : keys_ok w) (Hg : granted w p) (Hw : ApiScope.value ApiScope.API_KEYS_WRITE ∈ Principal.scopes p)
    (Hrun : create API_KEY_HASH_SECRET p context dto w = (Ok (raw, safe), w1))
    (Ht : row (Principal.tenantId p) w = Some tenant) (Hact : Tenant.status tenant = TenantStatus.ACTIVE) (Hr : no_faults) :
  exists request w2,
    authenticate API_KEY_HASH_SECRET None {| apiKeyHeader := Some (One raw); principal := None |} w1 = (Ok request, w2) /\
    principal request = Some (Principal.make (Principal.tenantId p) (SafeApiKey.id safe)
                                (set_of (ApiScope.value <$> CreateApiKeyDto.scopes dto))).
Proof.
  pose proof (wp_run _ _ _ _ _ (key_create_live API_KEY_HASH_SECRET p context dto w Hg Hw) Hrun) as [Hs Hc].
  destruct Hc as (sec & k & Hsec & Hraw & Hsafe & _ & Hk & Hh & Hsc & Hten & Ha & Hrev & Hlast & Htn). cbn [fst snd] in *.
  assert (Hok1 : keys_ok w1) by by apply Hs. set (id := SafeApiKey.id safe) in *.
  assert (Htw : row (ApiKey.tenantId k) w1 = Some tenant) by (unfold row in *; cbn in *; rewrite Htn, Hten; exact Ht).
  set (request := {| apiKeyHeader := Some (One raw); principal := None |}).
  assert (Hp : presents API_KEY_HASH_SECRET request w1 id k) by by exists raw, sec.
  assert (Hus : usable k w1) by by repeat split; [..|exists tenant].
  pose proof (authenticate_reliable API_KEY_HASH_SECRET request w1 id k Hok1 Hr Hp Hus) as Hau. unfold wp in Hau.
  destruct (authenticate _ _ request w1) as [r w2]. cbn [fst snd] in Hau. subst r.
  eexists _, w2. split; [done|]. cbn. by rewrite Hten, Hsc.
Qed.
End histories.
