(* ===== verification/KeyExamples.v ===== *)
(** An administrator's key at work: the theorems about API keys on a concrete database. *)
From stdpp Require Import prelude gmap strings sorting.
From Stdlib Require Import ZArith Lia.
From S2P Require Import Prelude Json Digest Buffers Io Prisma Domain Frame Tables AuditTrail Dispatcher Senders Auth ApiKeys KeyHistory.
#[local] Open Scope Z_scope.
#[local] Open Scope string_scope.

(** Random bytes that are always 7. *)
Program Definition sevens : Randomness := {| randomBytes := fun _ size => repeat 7 (Z.to_nat size) |}.
Next Obligation. intros. unfold len. rewrite repeat_length. lia. Qed.

Definition key_row_of (raw : string) (scopes : list ApiScope.t) : ApiKey.t :=
  {| ApiKey.tenantId := "t"; ApiKey.name := "key"; ApiKey.prefix := "p"; ApiKey.keyHash := hashApiKey raw "pepper";
     ApiKey.scopes := ApiScope.value <$> scopes; ApiKey.active := true; ApiKey.lastUsedAt := None; ApiKey.createdAt := 0;
     ApiKey.revokedAt := None |}.
(** The tenant [t] has a key for administrators and one for reading. *)
Definition key_world : World (H := gmap_prisma) :=
  world_with ∅
    <| tenants := ({[ "t" := Tenant.make "Acme" "acme" TenantStatus.ACTIVE ]} : gmap string Tenant.t) |>
    <| apiKeys := ({[ "admin" := key_row_of "wapi_admin" [ApiScope.API_KEYS_WRITE; ApiScope.MESSAGES_READ];
                      "reader" := key_row_of "wapi_reader" [ApiScope.MESSAGES_READ] ]} : gmap string ApiKey.t) |>.
Definition with_key (raw : string) : Request := {| apiKeyHeader := Some (Many [raw]); principal := None |}.
Definition no_context : AuditRequestContext := {| ipAddress := None; userAgent := None |}.
Definition admin : Principal.t := Principal.make "t" "admin" ["api_keys:write"; "messages:read"].
Definition reading : CreateApiKeyDto.t := CreateApiKeyDto.make " app " [ApiScope.MESSAGES_READ].

(** Hashes are compared by computation only. *)
#[local] Opaque hashApiKey.
Lemma key_world_ok : keys_ok key_world.
Proof.
  assert (Hd : bool_decide (hashApiKey "wapi_admin" "pepper" = hashApiKey "wapi_reader" "pepper") = false) by by vm_compute.
  apply bool_decide_eq_false in Hd.
  intros k k' r r' Hr Hr' Hc%bool_decide_eq_true. some_row Hr; some_row Hr'; first [reflexivity|by destruct Hd].
Qed.

Lemma authenticate_witness :
  let run := @authenticate gmap_prisma (calm 5) (Some "pepper") None (with_key "wapi_reader") key_world in
  (match run.1 with Ok r => principal r | _ => None end) = Some (Principal.make "t" "reader" ["messages:read"]) /\
  let '(r, w') := run in authenticated (Some "pepper") (with_key "wapi_reader") key_world r w'.
Proof.
  split; [vm_compute; reflexivity|].
  exact (@authenticate_correct gmap_prisma (calm 5) (Some "pepper") (with_key "wapi_reader") key_world key_world_ok).
Defined.

(** A day of requests: the reader tries to make a key and may not, the administrator makes one, with less than
    it has, and takes the reader's away. *)
Definition key_day : list (Request * key_call) :=
  [(with_key "wapi_reader", CreateKey no_context reading); (with_key "wapi_admin", CreateKey no_context reading);
   (with_key "wapi_admin", CreateKey no_context (CreateApiKeyDto.make "more" [ApiScope.MEDIA_WRITE]));
   (with_key "wapi_admin", RevokeKey no_context "reader"); (with_key "wapi_reader", ListKeys)].
Lemma no_escalation_witness :
  let w' := foldl (@serve gmap_prisma (calm 5) sevens (Some "pepper")) key_world key_day in
  size (rows (apiKeys w')) = 3%nat /\ (ApiKey.active <$> row "reader" w') = Some false /\
  (keys_grow key_world w' /\ keys_ok w').
Proof.
  split; [vm_compute; reflexivity|]. split; [vm_compute; reflexivity|].
  assert (Hv : Forall valid_call key_day) by (repeat (apply Forall_cons; split; [done|]); by apply Forall_nil).
  exact (@no_escalation gmap_prisma (calm 5) sevens (Some "pepper") key_day key_world key_world_ok Hv).
Defined.

Lemma revocation_is_final_witness :
  let '(r, w1) := @revoke gmap_prisma (calm 5) admin no_context "reader" key_world in
  let w2 := foldl (@serve gmap_prisma (calm 5) sevens (Some "pepper")) w1 key_day in
  exists e n, @endpoint gmap_prisma (calm 5) (Some "pepper") unit None (fun _ => mret tt) (with_key "wapi_reader") w2
    = (Throws e, w2 <| tick := n |>).
Proof.
  destruct (@revoke gmap_prisma (calm 5) admin no_context "reader" key_world) as [r w1] eqn:E.
  assert (Hr : exists safe, r = Ok safe).
  { apply (f_equal fst) in E. cbn [fst] in E. rewrite <- E. vm_compute. by eexists. }
  destruct Hr as [safe ->].
  assert (Hv : Forall valid_call key_day) by (repeat (apply Forall_cons; split; [done|]); by apply Forall_nil).
  exact (@revocation_is_final gmap_prisma (calm 5) sevens (Some "pepper") admin no_context "reader" safe key_world w1 key_day
           (with_key "wapi_reader") "wapi_reader" "pepper" None unit (fun _ => mret tt)
           (key_row_of "wapi_reader" [ApiScope.MESSAGES_READ]) key_world_ok E Hv eq_refl eq_refl eq_refl eq_refl).
Defined.

Lemma created_key_works_witness :
  match @create gmap_prisma (calm 5) sevens (Some "pepper") admin no_context reading key_world with
  | (Ok (raw, safe), w1) =>
      raw = "wapi_070707070707_BwcHBwcHBwcHBwcHBwcHBwcHBwcHBwcHBwcHBwcHBwc" /\
      exists request w2,
        @authenticate gmap_prisma (calm 5) (Some "pepper") None {| apiKeyHeader := Some (One raw); principal := None |} w1 = (Ok request, w2) /\
        principal request = Some (Principal.make (Principal.tenantId admin) (SafeApiKey.id safe)
                                    (set_of (ApiScope.value <$> CreateApiKeyDto.scopes reading)))
  | _ => False
  end.
Proof.
  destruct (@create gmap_prisma (calm 5) sevens (Some "pepper") admin no_context reading key_world) as [r w1] eqn:E.
  assert (Hr : exists safe, r = Ok ("wapi_070707070707_BwcHBwcHBwcHBwcHBwcHBwcHBwcHBwcHBwcHBwcHBwc", safe)).
  { apply (f_equal fst) in E. cbn [fst] in E. rewrite <- E. vm_compute. by eexists. }
  destruct Hr as [safe ->]. split; [done|].
  assert (Hg : granted key_world admin).
  { exists (key_row_of "wapi_admin" [ApiScope.API_KEYS_WRITE; ApiScope.MESSAGES_READ]).
    split; [vm_compute; reflexivity|]. split; [reflexivity|]. split; [reflexivity|]. split; reflexivity. }
  assert (Hw : ApiScope.value ApiScope.API_KEYS_WRITE ∈ Principal.scopes admin) by by left.
  assert (Ht : row (Principal.tenantId admin) key_world = Some (Tenant.make "Acme" "acme" TenantStatus.ACTIVE)) by by vm_compute.
  exact (@created_key_works gmap_prisma (calm 5) sevens (Some "pepper") admin no_context reading _ safe key_world w1
           (Tenant.make "Acme" "acme" TenantStatus.ACTIVE) key_world_ok Hg Hw E Ht eq_refl (fun _ => eq_refl)).
Defined.
