(* ===== verification/CannedResponses.v ===== *)
(** Canned responses of the inbox: the checks of [canned-responses/canned-response.policy.ts] and the
    operations of [canned-responses/canned-responses.service.ts], with updates guarded by a revision. *)
From stdpp Require Import prelude gmap strings sorting pretty.
From Stdlib Require Import ZArith Lia.
From S2P Require Import Prelude Json Io Prisma Domain Frame Tables AuditTrail Senders Pages Auth Inbound.
#[local] Open Scope Z_scope.

(** ** The policy *)
Definition MAX_REVISION : Z := 2147483646.
Definition small_letter (c : Ascii.ascii) : bool := let n := JsString.code_unit c in (97 <=? n) && (n <=? 122).
Definition shortcut_char (c : Ascii.ascii) : bool :=
  let n := JsString.code_unit c in small_letter c || ((48 <=? n) && (n <=? 57)) || (n =? 95) || (n =? 45).
(** [/^[a-z][a-z0-9_-]{0,31}$/] *)
Definition SHORTCUT_PATTERN (s : string) : bool :=
  match String.list_ascii_of_string s with
  | c :: l => small_letter c && forallb shortcut_char l && (length l <=? 31)%nat
  | [] => false
  end.

Module CannedResponseContent.
Record t := make { shortcut : string; title : string; body : string }.
End CannedResponseContent.
(** The fields of a patch that are given. *)
Module Changes.
Record t := make { shortcut : option string; title : option string; body : option string; active : option bool }.
Definition keys (c : t) : list string :=
  (if bool_decide (is_Some (shortcut c)) then ["shortcut"] else []) ++ (if bool_decide (is_Some (title c)) then ["title"] else []) ++
  (if bool_decide (is_Some (body c)) then ["body"] else []) ++ (if bool_decide (is_Some (active c)) then ["active"] else []).
End Changes.

Definition reject {A} (message : string) : exec js_error A := Throws (CannedResponseInputError message).
(** A plain object with nothing but the allowed keys. *)
Definition record (value : json) (allowed : list string) : exec js_error (list (string * json)) :=
  match value with
  | JObj input =>
      if existsb (fun kv => bool_decide (kv.1 ∉ allowed)) input then reject "Unknown canned response field" else Ok input
  | _ => reject "A canned response object is required"
  end.
(** In ASCII the only character that is refused is NUL. *)
Definition text (value : option json) (label : string) (maximum : Z) : exec js_error string :=
  match value with
  | Some (JStr value) =>
      let normalized := JsString.trim value in
      let characters := String.list_ascii_of_string normalized in
      if bool_decide (characters = []) || (maximum <? Z.of_nat (length characters)) then
        reject (label +:+ " must contain 1-" +:+ pretty maximum +:+ " characters")
      else if existsb (fun c => JsString.code_unit c =? 0) characters then
        reject (label +:+ " contains unsupported characters")
      else Ok normalized
  | _ => reject (label +:+ " must be text")
  end.
Definition normalizeShortcut (value : option json) : exec js_error string :=
  shortcut ← text value "Shortcut" 32;
  let shortcut := JsString.toLowerCase shortcut in
  if SHORTCUT_PATTERN shortcut then Ok shortcut
  else reject "Shortcut must start with a letter and contain only a-z, 0-9, _ or -".

Definition prepareCannedResponseCreate (value : json) : exec js_error CannedResponseContent.t :=
  input ← record value ["shortcut"; "title"; "body"]%string;
  shortcut ← normalizeShortcut (field "shortcut" input);
  title ← text (field "title" input) "Title" 100;
  body ← text (field "body" input) "Body" 4096;
  Ok (CannedResponseContent.make shortcut title body).

(** [if (input.key !== undefined) changes.key = check(input.key)] *)
Definition when_given {A} (v : option json) (check : option json -> exec js_error A) : exec js_error (option A) :=
  match v with None => Ok None | Some _ => a ← check v; Ok (Some a) end.
Definition boolean (v : option json) : exec js_error bool :=
  match v with Some (JBool b) => Ok b | _ => reject "active must be a boolean" end.
Definition prepareCannedResponsePatch (value : json) : exec js_error (Z * Changes.t) :=
  input ← record value ["shortcut"; "title"; "body"; "active"; "expectedRevision"]%string;
  match field "expectedRevision" input with
  | Some (JNum (Whole expectedRevision)) =>
      if (expectedRevision <? 1) || (MAX_REVISION <? expectedRevision) then
        reject "expectedRevision must be a positive supported integer"
      else
        shortcut ← when_given (field "shortcut" input) normalizeShortcut;
        title ← when_given (field "title" input) (fun v => text v "Title" 100);
        body ← when_given (field "body" input) (fun v => text v "Body" 4096);
        active ← when_given (field "active" input) boolean;
        let changes := Changes.make shortcut title body active in
        if bool_decide (Changes.keys changes = []) then reject "At least one mutable field is required"
        else Ok (expectedRevision, changes)
  | _ => reject "expectedRevision must be a positive supported integer"
  end.

(** ** The service *)
Module ListCannedResponsesQueryDto.
Record t := make { status : string; shortcut : option string; cursor : option string; limit : Z }.
Definition at_cursor (q : t) (c : option string) : t := make (status q) (shortcut q) c (limit q).
End ListCannedResponsesQueryDto.
Section canned.
Context `{Prisma} `{Environment}.

Definition rethrow {A} (error : js_error) : io World A :=
  match error with
  | CannedResponseInputError message => throw (BadRequestException message)
  | KnownRequestError "P2002" _ => throw (ConflictException "Canned response shortcut already exists in this tenant")
  | _ => throw error
  end.

Definition announce_response (tenantId type : string) (id : string) (item : CannedResponse.t) : io World unit :=
  realtime_publish {| RealtimeEvent.tenantId := tenantId; RealtimeEvent.type := type;
    RealtimeEvent.data := [("cannedResponseId", JStr id); ("revision", JNum (Whole (CannedResponse.revision item)));
                           ("active", JBool (CannedResponse.active item))]%string |}.

Definition new_response (tenantId : string) (content : CannedResponseContent.t) (now : Z) : CannedResponse.t :=
  {| CannedResponse.tenantId := tenantId; CannedResponse.shortcut := CannedResponseContent.shortcut content;
     CannedResponse.title := CannedResponseContent.title content; CannedResponse.body := CannedResponseContent.body content;
     CannedResponse.active := true; CannedResponse.revision := 1; CannedResponse.createdAt := now;
     CannedResponse.updatedAt := now |}.
Definition create_body (principal : Principal.t) (content : CannedResponseContent.t) (context : option AuditRequestContext)
    : io World (string * CannedResponse.t) :=
  now ← now;
  created ← create_row canned_unique (new_response (Principal.tenantId principal) content now);
  _ ← write_audit (auditLogData (Principal.actor principal) context "inbox.canned_response.created" "InboxCannedResponse"
         (Some created.1) (Some (JObj [("revision", JNum (Whole (CannedResponse.revision created.2)));
                                       ("active", JBool (CannedResponse.active created.2))]%string)));
  mret created.
Definition create (principal : Principal.t) (dto : json) (context : option AuditRequestContext)
    : io World (string * CannedResponse.t) :=
  try_catch
    (content ← lift (prepareCannedResponseCreate dto);
     item ← transaction (create_body principal content context);
     _ ← announce_response (Principal.tenantId principal) "canned_response.created" item.1 item.2;
     mret item)
    rethrow.

Definition find (tenantId id : string) : io World (string * CannedResponse.t) :=
  item ← find_row (of_tenant CannedResponse.tenantId id tenantId);
  found (NotFoundException "Canned response not found") item.

Definition update_data (changes : Changes.t) (now : Z) (r : CannedResponse.t) : CannedResponse.t :=
  r <| CannedResponse.shortcut ::= given (Changes.shortcut changes) |>
    <| CannedResponse.title ::= given (Changes.title changes) |>
    <| CannedResponse.body ::= given (Changes.body changes) |>
    <| CannedResponse.active ::= given (Changes.active changes) |>
    <| CannedResponse.revision ::= Z.succ |> <| CannedResponse.updatedAt := now |>.
Definition update_body (principal : Principal.t) (id : string) (expectedRevision : Z) (changes : Changes.t)
    (context : option AuditRequestContext) : io World (string * CannedResponse.t) :=
  let tenantId := Principal.tenantId principal in
  now ← now;
  count ← updateMany_unique canned_unique id
            (fun r => bool_decide (CannedResponse.tenantId r = tenantId) && (CannedResponse.revision r =? expectedRevision))
            (update_data changes now);
  if Nat.eqb count 0 then
    exists_ ← find_row (of_tenant CannedResponse.tenantId id tenantId);
    _ ← found (NotFoundException "Canned response not found") exists_;
    throw (ConflictException "Canned response revision has changed; reload before updating")
  else
    updated ← find_row (of_tenant CannedResponse.tenantId id tenantId);
    updated ← found (KnownRequestError "P2025" "No InboxCannedResponse found") updated;
    _ ← write_audit (auditLogData (Principal.actor principal) context "inbox.canned_response.updated" "InboxCannedResponse"
           (Some id) (Some (JObj [("changedFields", JArr (JStr <$> merge_sort JsString.le (Changes.keys changes)));
                                  ("revision", JNum (Whole (CannedResponse.revision updated.2)));
                                  ("active", JBool (CannedResponse.active updated.2))]%string)));
    mret updated.
Definition update (principal : Principal.t) (id : string) (dto : json) (context : option AuditRequestContext)
    : io World (string * CannedResponse.t) :=
  try_catch
    ('(expectedRevision, changes) ← lift (prepareCannedResponsePatch dto);
     item ← transaction (update_body principal id expectedRevision changes context);
     _ ← announce_response (Principal.tenantId principal) "canned_response.updated" item.1 item.2;
     mret item)
    rethrow.

(** *** Pages by key set *)
Definition after_anchor (anchor : option (string * CannedResponse.t)) (k : string) (r : CannedResponse.t) : bool :=
  match anchor with
  | None => true
  | Some (id, a) =>
      (CannedResponse.createdAt r <? CannedResponse.createdAt a) ||
      ((CannedResponse.createdAt r =? CannedResponse.createdAt a) && negb (String.leb id k))
  end.
Definition in_list (tenantId status : string) (shortcut : option string) (r : CannedResponse.t) : bool :=
  bool_decide (CannedResponse.tenantId r = tenantId) &&
  (bool_decide (status = "all"%string) || Bool.eqb (CannedResponse.active r) (bool_decide (status = "active"%string))) &&
  match shortcut with None => true | Some s => bool_decide (CannedResponse.shortcut r = s) end.
Definition find_anchor (tenantId : string) (cursor : option string) : io World (option (string * CannedResponse.t)) :=
  match cursor with
  | None => mret None
  | Some c =>
      anchor ← find_row (of_tenant CannedResponse.tenantId c tenantId);
      anchor ← found (BadRequestException "Canned response cursor is invalid for this tenant") anchor;
      mret (Some anchor)
  end.
Definition list_responses (tenantId : string) (query : ListCannedResponsesQueryDto.t) : io World (Page.t CannedResponse.t) :=
  let limit := ListCannedResponsesQueryDto.limit query in
  let status := ListCannedResponsesQueryDto.status query in
  if (limit <? 1) || (100 <? limit) || bool_decide (status ∉ ["active"; "inactive"; "all"]%string) then
    throw (BadRequestException "Invalid canned response page parameters")
  else
    shortcut ← (match ListCannedResponsesQueryDto.shortcut query with
                | None => mret None
                | Some s => try_catch (s ← lift (normalizeShortcut (Some (JStr s))); mret (Some s)) rethrow
                end);
    anchor ← find_anchor tenantId (ListCannedResponsesQueryDto.cursor query);
    rows ← page_rows (fun _ k r => in_list tenantId status shortcut r && after_anchor anchor k r)
             (newest_first CannedResponse.createdAt) None limit;
    mret (page_of limit rows).

(** *** The controller *)
Context (API_KEY_HASH_SECRET : option string).
Definition createEndpoint (context : option AuditRequestContext) (dto : json) : Request -> io World (string * CannedResponse.t) :=
  endpoint API_KEY_HASH_SECRET (Some [ApiScope.INBOX_WRITE]) (fun principal => create principal dto context).
Definition listEndpoint (query : ListCannedResponsesQueryDto.t) : Request -> io World (Page.t CannedResponse.t) :=
  endpoint API_KEY_HASH_SECRET (Some [ApiScope.INBOX_READ]) (fun principal => list_responses (Principal.tenantId principal) query).
Definition findEndpoint (id : string) : Request -> io World (string * CannedResponse.t) :=
  endpoint API_KEY_HASH_SECRET (Some [ApiScope.INBOX_READ]) (fun principal => find (Principal.tenantId principal) id).
Definition updateEndpoint (context : option AuditRequestContext) (id : string) (dto : json) : Request -> io World (string * CannedResponse.t) :=
  endpoint API_KEY_HASH_SECRET (Some [ApiScope.INBOX_WRITE]) (fun principal => update principal id dto context).
End canned.
