(* ===== verification/CannedHistory.v ===== *)
(** Canned responses through any history of requests: a revision stands for one content, so an update
    that succeeds was made on what its author last read. *)
From stdpp Require Import prelude gmap strings sorting pretty.
From Stdlib Require Import ZArith Lia.
From S2P Require Import Prelude Json Io Prisma Domain Frame Tables AuditTrail Dispatcher Senders Pages Auth Inbound CannedResponses.
#[local] Open Scope Z_scope.

(** ** What the checks let through *)
(** The policy's functions throw nothing but its own error. *)
Definition checked {A} (P : A -> Prop) (x : exec js_error A) : Prop :=
  match x with Ok a => P a | Throws e => exists m, e = CannedResponseInputError m | OutOfFuel => False end.
Lemma checked_bind {A B} (P : A -> Prop) (Q : B -> Prop) (x : exec js_error A) (f : A -> exec js_error B) :
  checked P x -> (forall a, P a -> checked Q (f a)) -> checked Q (x ≫= f).
Proof. destruct x as [a|e|]; cbn; auto. Qed.
Lemma checked_reject {A} (P : A -> Prop) m : checked P (reject m).
Proof. by exists m. Qed.
Lemma checked_mono {A} (P Q : A -> Prop) x : (forall a, P a -> Q a) -> checked P x -> checked Q x.
Proof. destruct x; cbn; auto. Qed.
Create HintDb canned.
#[export] Hint Resolve checked_reject : canned.

Lemma record_checked value allowed : checked (fun _ => True) (record value allowed).
Proof. unfold record. destruct value; auto with canned. destruct (existsb _ _); [auto with canned|done]. Qed.
Lemma text_checked value label maximum :
  checked (fun s => s <> ""%string /\ Z.of_nat (length (String.list_ascii_of_string s)) <= maximum) (text value label maximum).
Proof.
  unfold text. destruct value as [[]|]; auto with canned.
  destruct (_ || _) eqn:E; [auto with canned|]. destruct (existsb _ _); [auto with canned|].
  apply orb_false_iff in E as [E1%bool_decide_eq_false E2%Z.ltb_ge]. cbn. split; [|done].
  intros E. apply E1. by rewrite E.
Qed.
Lemma shortcut_checked value : checked (fun s => SHORTCUT_PATTERN s = true) (normalizeShortcut value).
Proof.
  eapply checked_bind; [apply text_checked|]. intros s _. cbv zeta.
  destruct (SHORTCUT_PATTERN _) eqn:E; [done|auto with canned].
Qed.
Lemma when_given_checked {A} (P : A -> Prop) v check :
  checked P (check v) -> checked (fun o => forall a, o = Some a -> P a) (when_given v check).
Proof.
  intros Hc. destruct v as [j|]; cbn; [|done]. eapply checked_bind; [exact Hc|].
  intros a Ha b [= <-]. done.
Qed.

(** A patch changes something, and its revision leaves room for the next. *)
Definition patch_ok (patch : Z * Changes.t) : Prop :=
  1 <= patch.1 <= MAX_REVISION /\ (forall s, Changes.shortcut patch.2 = Some s -> SHORTCUT_PATTERN s = true) /\
  Changes.keys patch.2 <> [].
Lemma patch_checked value : checked patch_ok (prepareCannedResponsePatch value).
Proof.
  unfold prepareCannedResponsePatch. eapply checked_bind; [apply record_checked|]. intros input _.
  destruct (field "expectedRevision" input) as [[]|]; auto with canned. destruct n; auto with canned.
  destruct (_ || _) eqn:Er; [auto with canned|]. apply orb_false_iff in Er as [H1%Z.ltb_ge H2%Z.ltb_ge].
  eapply checked_bind; [apply when_given_checked, shortcut_checked|]. intros s Hs.
  eapply checked_bind; [apply when_given_checked, text_checked|]. intros t _.
  eapply checked_bind; [apply when_given_checked, text_checked|]. intros b _.
  eapply checked_bind.
  { apply (when_given_checked (fun _ => True)). destruct (field "active" input) as [[]|]; cbn; auto with canned; by eexists. }
  intros a _. cbv zeta. destruct (bool_decide _) eqn:Ek; [auto with canned|].
  apply bool_decide_eq_false in Ek. by repeat split.
Qed.
Lemma content_checked value :
  checked (fun c => SHORTCUT_PATTERN (CannedResponseContent.shortcut c) = true) (prepareCannedResponseCreate value).
Proof.
  unfold prepareCannedResponseCreate. eapply checked_bind; [apply record_checked|]. intros input _.
  eapply checked_bind; [apply shortcut_checked|]. intros s Hs.
  eapply checked_bind; [apply text_checked|]. intros t _. eapply checked_bind; [apply text_checked|]. by intros b _.
Qed.

(** ** Revisions *)
(** The same response later: the same revision means the same content. *)
Record follows (r r' : CannedResponse.t) : Prop := {
  follows_tenant : CannedResponse.tenantId r' = CannedResponse.tenantId r;
  follows_created : CannedResponse.createdAt r' = CannedResponse.createdAt r;
  follows_revision : CannedResponse.revision r <= CannedResponse.revision r';
  follows_content : CannedResponse.revision r' = CannedResponse.revision r -> r' = r
}.
#[export] Instance follows_preorder : PreOrder follows.
Proof.
  split; [by intros r; split|]. intros r1 r2 r3 [T1 C1 R1 S1] [T2 C2 R2 S2]. split; [congruence|congruence|lia|].
  intros E. rewrite S2 by lia. apply S1. lia.
Qed.
(** In the column's 32 bits, under a shortcut of the right form. *)
Definition response_ok (r : CannedResponse.t) : Prop :=
  1 <= CannedResponse.revision r < 2 ^ 31 /\ SHORTCUT_PATTERN (CannedResponse.shortcut r) = true.

Lemma canned_unique_sym a b : canned_unique a b = canned_unique b a.
Proof. unfold canned_unique. apply bool_decide_ext. split; by intros []. Qed.

Section growth.
Context `{PR : Prisma}.
Definition response_row (id : string) (w : World) : option CannedResponse.t := row id w.
Record canned_ok (w : World) : Prop := {
  canned_once : unique_in canned_unique (rows (cannedResponses w));
  canned_rows : forall id r, response_row id w = Some r -> response_ok r
}.
Definition canned_step (w w' : World) : Prop :=
  (forall id r, response_row id w = Some r -> exists r', response_row id w' = Some r' /\ follows r r') /\
  (canned_ok w -> canned_ok w').
#[export] Instance canned_step_preorder : PreOrder canned_step.
Proof.
  split; [intros w; split; [|done]; intros id r Hr; by exists r|]. intros w1 w2 w3 [H1 O1] [H2 O2]. split; [|auto].
  intros id r Hr. destruct (H1 id r Hr) as (r2 & Hr2 & F1). destruct (H2 id r2 Hr2) as (r3 & Hr3 & F2).
  exists r3. split; [done|]. by etrans.
Qed.

Lemma canned_step_same w w' : rows (cannedResponses w') = rows (cannedResponses w) -> canned_step w w'.
Proof.
  intros E. assert (Hr : forall id, response_row id w' = response_row id w) by (intros id; unfold response_row, row; cbn; by rewrite E).
  split.
  - intros id r Hid. exists r. by rewrite Hr.
  - intros [Ho Hc]. split; [by rewrite E|]. intros id r. rewrite Hr. apply Hc.
Qed.
(** One row is written, free of conflicts. *)
Lemma canned_step_write w w' id r :
  (forall old, response_row id w = Some old -> follows old r) -> (canned_ok w -> response_ok r) ->
  (forall k' r', k' <> id -> response_row k' w = Some r' -> canned_unique r r' = false) ->
  rows (cannedResponses w') = <[id := r]> (rows (cannedResponses w)) -> canned_step w w'.
Proof.
  intros Hf Hok Hc E. assert (Hr : forall x, response_row x w' = if decide (id = x) then Some r else response_row x w).
  { intros x. unfold response_row, row. cbn. rewrite E. by apply lookup_insert. }
  split.
  - intros x rx Hx. rewrite Hr. destruct (decide (id = x)) as [<-|]; [exists r; auto|by exists rx].
  - intros Hall. pose proof (Hok Hall) as Hr0. destruct Hall as [Ho Hrows]. split.
    + rewrite E. intros k1 k2 r1 r2 [[<- <-]|[N1 H1]]%lookup_insert_Some [[<- <-]|[N2 H2]]%lookup_insert_Some Ec; [done| | |by eapply Ho].
      * by rewrite (Hc k2 r2) in Ec by done.
      * rewrite canned_unique_sym, (Hc k1 r1) in Ec by done. done.
    + intros x rx. rewrite Hr. destruct (decide (id = x)) as [<-|]; [by intros [= <-]|apply Hrows].
Qed.
End growth.

Section steps.
Context `{PR : Prisma} `{EN : Environment}.

(** How an update ends. *)
Definition of_this_tenant (p : Principal.t) (id : string) (w : World) (old : CannedResponse.t) : Prop :=
  response_row id w = Some old /\ CannedResponse.tenantId old = Principal.tenantId p.
(** Somebody changed it since, or has taken its new shortcut. *)
Definition outdated (p : Principal.t) (id : string) (expected : Z) (changes : Changes.t) (w : World) : Prop :=
  exists old, of_this_tenant p id w old /\
    (CannedResponse.revision old <> expected \/
     exists now id' r', id' <> id /\ response_row id' w = Some r' /\ canned_unique (update_data changes now old) r' = true).
Definition update_refused (p : Principal.t) (id : string) (expected : Z) (changes : Changes.t) (w : World) (e : js_error) : Prop :=
  match e with
  | NotFoundException _ => ~ exists old, of_this_tenant p id w old
  | ConflictException _ => outdated p id expected changes w
  | KnownRequestError code _ => code = "P2002"%string /\ outdated p id expected changes w
  | Error _ => True
  | _ => False
  end.
#[local] Instance update_refused_faulty p id expected changes w : Faulty (update_refused p id expected changes w).
Proof. done. Qed.
Definition response_updated (p : Principal.t) (id : string) (expected : Z) (changes : Changes.t) (w : World)
    (events : list RealtimeEvent.t) (item : string * CannedResponse.t) (w' : World) : Prop :=
  exists old now, of_this_tenant p id w old /\ CannedResponse.revision old = expected /\
    item = (id, update_data changes now old) /\ rows (cannedResponses w') = <[id := item.2]> (rows (cannedResponses w)) /\
    (forall k' r', k' <> id -> response_row k' w = Some r' -> canned_unique item.2 r' = false) /\ realtime w' = realtime w ++ events.

Lemma update_body_live p id expected changes ctx w :
  wp (update_body p id expected changes ctx)
     (outcome (update_refused p id expected changes w) (response_updated p id expected changes w [])) w.
Proof.
  apply start. intros n. unfold update_body. ok_steps.
  assert (Hown : forall old, response_row id w = Some old -> CannedResponse.tenantId old = Principal.tenantId p -> of_this_tenant p id w old) by done.
  apply ok_updateMany_unique.
  - intros tb old m Hr [Ht%bool_decide_eq_true Hrev%Z.eqb_eq]%andb_true_iff Htb Hc. cbn [Nat.eqb]. ok_steps.
    rewrite tbl_set. set (new := update_data changes _ old) in *.
    assert (Hnew : rows tb !! id = Some new) by by rewrite Htb, lookup_insert_eq.
    rewrite (findFirst_unique _ tb id new Hnew).
    2: { unfold of_tenant. by rewrite bool_decide_true, bool_decide_true. }
    2: { by intros k' r' _ [?%bool_decide_eq_true _]%andb_true_iff. }
    cbn [found]. ok_steps. exists old. eexists. repeat split; try done. by rewrite app_nil_r.
  - intros m Hno. cbn [Nat.eqb]. ok_steps. destruct (findFirst _ _) as [[k old]|] eqn:Ef; cbn [found].
    + apply findFirst_some in Ef as [Hk [->%bool_decide_eq_true Ht%bool_decide_eq_true]%andb_true_iff]. ok_steps. cbn.
      exists old. split; [done|]. left. intros Hrev. specialize (Hno old Hk). cbn in Hno.
      by rewrite bool_decide_true, Hrev, Z.eqb_refl in Hno.
    + apply ok_throw. cbn. intros (old & Hk & Ht). pose proof (findFirst_none _ _ _ _ Ef Hk) as Hx.
      unfold of_tenant in Hx. by rewrite !bool_decide_true in Hx.
  - intros m old k' r' Hr [Ht%bool_decide_eq_true Hrev%Z.eqb_eq]%andb_true_iff Hne Hk' Hc. cbn.
    split; [done|]. exists old. split; [done|]. right. by eexists _, k', r'.
Qed.

Definition response_event (tenantId type : string) (item : string * CannedResponse.t) : RealtimeEvent.t :=
  {| RealtimeEvent.tenantId := tenantId; RealtimeEvent.type := type;
     RealtimeEvent.data := [("cannedResponseId", JStr item.1); ("revision", JNum (Whole (CannedResponse.revision item.2)));
                            ("active", JBool (CannedResponse.active item.2))]%string |}.
Definition update_spec (p : Principal.t) (id : string) (dto : json) (w : World)
    (r : exec js_error (string * CannedResponse.t)) (w' : World) : Prop :=
  match prepareCannedResponsePatch dto with
  | Ok (expected, changes) =>
      match r with
      | Ok item =>
          response_updated p id expected changes w [response_event (Principal.tenantId p) "canned_response.updated" item] item w'
      | Throws (Error _) => (exists n, w' = w <| tick := n |>) \/ exists item, response_updated p id expected changes w [] item w'
      | Throws ((NotFoundException _ | ConflictException _) as e) =>
          (exists n, w' = w <| tick := n |>) /\ update_refused p id expected changes w e
      | _ => False
      end
  | _ => w' = w /\ exists m, r = Throws (BadRequestException m)
  end.
Lemma canned_update_live p id dto ctx w : wp (update p id dto ctx) (update_spec p id dto w) w.
Proof.
  unfold update, update_spec. pose proof (patch_checked dto) as Hc. apply wp_try, wp_bind, wp_lift.
  destruct (prepareCannedResponsePatch dto) as [[expected changes]|e|]; [|destruct Hc as [m ->]|done].
  2: { apply wp_throw. split; [done|by eexists]. }
  apply wp_bind. eapply wp_mono.
  { apply transaction_settled; [|by apply update_body_live]. by intros item w1 n (old & t & Hx); exists old, t. }
  intros [item|e|] w1 Hs; [| |done]; cbn [settled] in Hs.
  - apply wp_bind. unfold announce_response, realtime_publish, modify, wp; cbn [fst snd mret io_ret].
    destruct Hs as (old & t & H1 & H2 & H3 & H4 & H5 & H6). exists old, t. repeat split; try done; try apply H1.
    change (realtime w1 ++ [response_event (Principal.tenantId p) "canned_response.updated" item] =
            realtime w ++ [response_event (Principal.tenantId p) "canned_response.updated" item]).
    by rewrite H6, app_nil_r.
  - destruct Hs as [[Hf Hw]|[[m ->] Ha]]; [|by apply wp_throw; right].
    destruct e; try done; try (by apply wp_throw); [|by apply wp_throw; left].
    destruct Hf as [-> Hf]. by apply wp_throw.
Qed.

Lemma updated_step p id expected changes events item w w' :
  patch_ok (expected, changes) -> response_updated p id expected changes w events item w' -> canned_step w w'.
Proof.
  intros ([Hb1 Hb2] & Hsc & _) (old & t & [Hk _] & Hrev & -> & Hrows & Hc & _). cbn [fst snd] in *. unfold MAX_REVISION in *.
  apply (canned_step_write w w' id (update_data changes t old)); [| |done|done].
  - intros o Ho. rewrite Hk in Ho. injection Ho as <-. split; cbn; try done; lia.
  - intros Hok. destruct (canned_rows w Hok id old Hk) as [_ Hold]. split; cbn; [lia|].
    unfold given. destruct (Changes.shortcut changes) as [s|] eqn:E; cbn; [by apply Hsc|done].
Qed.
Lemma update_step p id dto ctx w : wp (update p id dto ctx) (fun _ w' => canned_step w w') w.
Proof.
  eapply wp_mono; [apply canned_update_live|]. intros r w' Hu. unfold update_spec in Hu. pose proof (patch_checked dto) as Hp.
  destruct (prepareCannedResponsePatch dto) as [[expected changes]|e|]; [|destruct Hu as [-> _]; done..].
  destruct r as [item|e|]; [by eapply updated_step| |done].
  destruct e; try done; [by destruct Hu as [[n ->] _]; apply canned_step_same..|].
  destruct Hu as [[n ->]|[item Hu]]; [by apply canned_step_same|by eapply updated_step].
Qed.

Lemma rethrow_throws {A} e : exists e', rethrow e = throw e' :> io World A.
Proof. unfold rethrow. destruct e; try (by eexists). repeat (case_match; try by eexists). Qed.
Lemma create_step p dto ctx w : wp (create p dto ctx) (fun _ w' => canned_step w w') w.
Proof.
  unfold create. pose proof (content_checked dto) as Hc. apply wp_try, wp_bind, wp_lift.
  destruct (prepareCannedResponseCreate dto) as [content|e|]; [|destruct Hc as [m ->]; by apply wp_throw|done].
  apply wp_bind. eapply wp_mono.
  { apply (transaction_settled (F := fun _ => True) _ (fun _ w' => canned_step w w')).
    - intros a w1 n Hs. etrans; [exact Hs|by apply canned_step_same].
    - apply start. intros n. unfold create_body. ok_steps. apply ok_create_row; [|done].
      intros k tb m Hne Hk Htb Hno. ok_steps. eapply (canned_step_write _ _ k (new_response _ content _)); [| | |exact Htb].
      + intros old Ho. unfold response_row in Ho. congruence.
      + intros _. split; [cbn; lia|exact Hc].
      + intros k' r' _. apply Hno. }
  intros [item|e|] w1 Hs; [| |done]; cbn [settled] in Hs.
  - apply wp_bind. unfold announce_response, realtime_publish, modify, wp; cbn [fst snd mret io_ret].
    etrans; [exact Hs|by apply canned_step_same].
  - assert (Hstep : canned_step w w1) by (destruct Hs as [[_ [n ->]]|[_ [_ Hs]]]; [by apply canned_step_same|done]).
    destruct (rethrow_throws (A := string * CannedResponse.t) e) as [e' ->]. by apply wp_throw.
Qed.
End steps.

(** ** Histories *)
Section histories.
Context `{PR : Prisma} `{EN : Environment}.

Inductive canned_call :=
| CreateResponse (p : Principal.t) (dto : json) (context : option AuditRequestContext)
| UpdateResponse (p : Principal.t) (id : string) (dto : json) (context : option AuditRequestContext).
Definition perform (w : World) (c : canned_call) : World :=
  match c with
  | CreateResponse p dto context => (create p dto context w).2
  | UpdateResponse p id dto context => (update p id dto context w).2
  end.
Lemma perform_all calls w : canned_step w (foldl perform w calls).
Proof.
  revert w. induction calls as [|c calls IH]; intros w; cbn; [done|]. etrans; [|apply IH].
  destruct c; [exact (create_step p dto context w)|exact (update_step p id dto context w)].
Qed.

(** An update of a canned response answers to what the request says: malformed requests change nothing; an update that
    succeeds found the response of this tenant at the expected revision, changed the given fields and nothing else, moved the
    revision by one and announced it; 404 and 409 mean what they say and change nothing; and when the database fails
    either nothing happened or the whole update did, unannounced. *)
Theorem update_correct p id dto ctx w :
  let '(r, w') := update p id dto ctx w in update_spec p id dto w r w'.
Proof.
  pose proof (canned_update_live p id dto ctx w) as Hu. unfold wp in Hu. by destruct (update p id dto ctx w).
Qed.

(** C14: No update is lost: when a client read a response, anything was done to the tenant's responses since then, and its
    update with the revision it read succeeds, then the response was still the one it read.  The result is that response with the
    client's changes, shortcuts remain unique in every tenant and revisions stay within the column's 32 bits. *)
Theorem no_lost_update p id dto ctx expected changes (old : CannedResponse.t) item calls w w'
    (Hok : canned_ok w) (Hread : response_row id w = Some old)
    (Hdto : prepareCannedResponsePatch dto = Ok (expected, changes)) (Hrev : expected = CannedResponse.revision old)
    (Hrun : update p id dto ctx (foldl perform w calls) = (Ok item, w')) :
  CannedResponse.tenantId old = Principal.tenantId p /\ response_row id (foldl perform w calls) = Some old /\
  (exists now, item = (id, update_data changes now old)) /\ response_row id w' = Some item.2 /\ canned_ok w'.
Proof.
  set (w1 := foldl perform w calls) in *. pose proof (perform_all calls w) as [Hg Hok1]. fold w1 in Hg, Hok1.
  pose proof (wp_run _ _ _ _ _ (canned_update_live p id dto ctx w1) Hrun) as Hu. unfold update_spec in Hu. rewrite Hdto in Hu.
  pose proof (patch_checked dto) as Hp. rewrite Hdto in Hp.
  pose proof (updated_step _ _ _ _ _ _ _ _ Hp Hu) as [_ Hok2].
  destruct Hu as (now1 & t & [Hk Ht] & Hr1 & -> & Hrows & _). destruct (Hg id old Hread) as (old' & Hk' & Hf).
  unfold response_row in Hk, Hk'. assert (now1 = old') as -> by congruence.
  assert (old' = old) as -> by (apply (follows_content _ _ Hf); congruence).
  split; [done|]. split; [exact Hk|]. split; [by exists t|]. split; [|by apply Hok2, Hok1].
  unfold response_row, row. cbn in *. rewrite Hrows. apply lookup_insert_eq.
Qed.
End histories.

(** ** Two agents and one response *)
#[local] Open Scope string_scope.
Definition hello : CannedResponse.t :=
  {| CannedResponse.tenantId := "t"; CannedResponse.shortcut := "hello"; CannedResponse.title := "Greeting";
     CannedResponse.body := "Hi!"; CannedResponse.active := true; CannedResponse.revision := 1;
     CannedResponse.createdAt := 0; CannedResponse.updatedAt := 0 |}.
Definition canned_world : World (H := gmap_prisma) :=
  world_with ∅ <| cannedResponses := ({[ "hello" := hello ]} : gmap string CannedResponse.t) |>.
Definition writer : Principal.t := Principal.make "t" "writer" ["inbox:write"].
Definition patch (revision : Z) (title : string) : json :=
  JObj [("title", JStr title); ("expectedRevision", JNum (Whole revision))].
Definition bye : json := JObj [("shortcut", JStr " Bye "); ("title", JStr "Bye"); ("body", JStr "See you")].

Lemma canned_world_ok : canned_ok canned_world.
Proof.
  split.
  - intros k k' r r' Hr Hr' _. by some_row Hr; some_row Hr'.
  - intros id r Hr. unfold response_row in Hr. some_row Hr. split; [cbn; lia|by vm_compute].
Qed.
(** While one reads, another makes a response and fails to rename the first one after it; then the reader's
    update succeeds, and a second one with the same revision does not. *)
Definition meanwhile : list canned_call :=
  [CreateResponse writer bye None;
   UpdateResponse writer "hello" (JObj [("shortcut", JStr "bye"); ("expectedRevision", JNum (Whole 1))]) None].
Lemma no_lost_update_witness :
  match @update gmap_prisma (calm 5) writer "hello" (patch 1 "Welcome") None (foldl (@perform gmap_prisma (calm 5)) canned_world meanwhile) with
  | (Ok item, w') =>
      CannedResponse.title item.2 = "Welcome" /\ CannedResponse.revision item.2 = 2 /\ size (rows (cannedResponses w')) = 2%nat /\
      (@update gmap_prisma (calm 5) writer "hello" (patch 1 "Howdy") None w').1 =
        Throws (ConflictException "Canned response revision has changed; reload before updating") /\
      response_row "hello" (foldl (@perform gmap_prisma (calm 5)) canned_world meanwhile) = Some hello
  | _ => False
  end.
Proof.
  destruct (@update gmap_prisma (calm 5) writer "hello" (patch 1 "Welcome") None (foldl (@perform gmap_prisma (calm 5)) canned_world meanwhile))
    as [r w'] eqn:E.
  assert (Hr : exists item, r = Ok item).
  { apply (f_equal fst) in E. cbn [fst] in E. rewrite <- E. vm_compute. by eexists. }
  destruct Hr as [item ->].
  pose proof (@no_lost_update gmap_prisma (calm 5) writer "hello" (patch 1 "Welcome") None 1
    (Changes.make None (Some "Welcome") None None) hello item meanwhile canned_world w' canned_world_ok eq_refl eq_refl eq_refl E) as Hn.
  destruct Hn as (_ & Hsame & _). 
  pose proof (f_equal fst E) as Ei. pose proof (f_equal snd E) as Ew. cbn [fst snd] in Ei, Ew. clear E.
  assert (Hi : CannedResponse.title item.2 = "Welcome" /\ CannedResponse.revision item.2 = 2).
  { revert Ei. vm_compute. intros [= <-]. by split. }
  destruct Hi as [H1 H2]. rewrite <- Ew. split; [exact H1|]. split; [exact H2|]. split; [vm_compute; reflexivity|].
  split; [vm_compute; reflexivity|exact Hsame].
Defined.
