(* ===== verification/Realtime.v ===== *)
(** Realtime events of the inbox: [inbox-events/inbox-realtime.service.ts] cleans events, publishes
    them through Redis and hands them to the listeners of a tenant; [inbox-events.controller.ts] is a
    listener that writes them to an event stream. *)
From stdpp Require Import prelude gmap strings.
From Stdlib Require Import ZArith Lia.
From S2P Require Import Prelude Json Numbers JsonText Io.
#[local] Open Scope Z_scope.

(** ** Events *)
Definition INBOX_EVENT_TYPES : list string :=
  ["conversation.created"; "conversation.updated"; "conversation.message.created"; "conversation.note.created";
   "canned_response.created"; "canned_response.updated"]%string.
Definition CONVERSATION_STATUSES : list string := ["OPEN"; "PENDING"; "RESOLVED"]%string.
Definition CONVERSATION_PRIORITIES : list string := ["LOW"; "NORMAL"; "HIGH"; "URGENT"]%string.

Module InboxRealtimeEvent.
Record t := make { id : string; type : string; occurredAt : string; data : list (string * json) }.
End InboxRealtimeEvent.

(** [/^[0-9a-f]{8}-[0-9a-f]{4}-[1-5][0-9a-f]{3}-[89ab][0-9a-f]{3}-[0-9a-f]{12}$/i] *)
Definition hex_char (c : Ascii.ascii) : bool :=
  let n := JsString.code_unit c in ((48 <=? n) && (n <=? 57)) || ((97 <=? n) && (n <=? 102)) || ((65 <=? n) && (n <=? 70)).
Definition dash (c : Ascii.ascii) : bool := JsString.code_unit c =? 45.
Definition version_char (c : Ascii.ascii) : bool := let n := JsString.code_unit c in (49 <=? n) && (n <=? 53).
Definition variant_char (c : Ascii.ascii) : bool :=
  bool_decide (JsString.code_unit (JsString.lower_char c) ∈ [56; 57; 97; 98]).
Definition UUID_CHARS : list (Ascii.ascii -> bool) :=
  replicate 8 hex_char ++ [dash] ++ replicate 4 hex_char ++ [dash; version_char] ++ replicate 3 hex_char ++
  [dash; variant_char] ++ replicate 3 hex_char ++ [dash] ++ replicate 12 hex_char.
Fixpoint matches_chars (tests : list (Ascii.ascii -> bool)) (s : string) : bool :=
  match tests, s with
  | [], EmptyString => true
  | f :: tests, String c s => f c && matches_chars tests s
  | _, _ => false
  end.
Definition UUID (s : string) : bool := matches_chars UUID_CHARS s.

Definition uuid (value : option json) : option string :=
  match value with Some (JStr s) => if UUID s then Some s else None | _ => None end.

(** What [safeData] keeps of a field. *)
Definition keep_uuid (v : option json) : option json := JStr <$> uuid v.
Definition keep_uuid_or_null (v : option json) : option json :=
  match v with Some JNull => Some JNull | _ => keep_uuid v end.
Definition keep_text (allowed : list string) (v : option json) : option json :=
  match v with Some (JStr s) => if bool_decide (s ∈ allowed) then Some (JStr s) else None | _ => None end.
Definition keep_integer (minimum : Z) (v : option json) : option json :=
  match v with Some (JNum (Whole n)) => if minimum <=? n then Some (JNum (Whole n)) else None | _ => None end.
Definition keep_boolean (v : option json) : option json := match v with Some (JBool b) => Some (JBool b) | _ => None end.
Definition SAFE_FIELDS : list (string * (option json -> option json)) :=
  [("conversationId", keep_uuid); ("messageId", keep_uuid); ("noteId", keep_uuid); ("cannedResponseId", keep_uuid);
   ("status", keep_text CONVERSATION_STATUSES); ("priority", keep_text CONVERSATION_PRIORITIES);
   ("assignedAgentId", keep_uuid_or_null); ("assignedTeamId", keep_uuid_or_null);
   ("unreadCount", keep_integer 0); ("revision", keep_integer 1); ("active", keep_boolean)]%string.
Definition kept_fields (fields : list (string * (option json -> option json))) (data : list (string * json)) : list (string * json) :=
  omap (fun f => (fun v => (f.1, v)) <$> f.2 (field f.1 data)) fields.
Definition safeData (value : option json) : list (string * json) :=
  match value with Some (JObj data) => kept_fields SAFE_FIELDS data | _ => [] end.

Definition envelope (tenantId : string) (event : InboxRealtimeEvent.t) : json :=
  JObj [("tenantId", JStr tenantId);
        ("event", JObj [("id", JStr (InboxRealtimeEvent.id event)); ("type", JStr (InboxRealtimeEvent.type event));
                        ("occurredAt", JStr (InboxRealtimeEvent.occurredAt event)); ("data", JObj (InboxRealtimeEvent.data event))])]%string.

Section events.
(** [Date.parse]: the time value of a text, unless it is NaN. *)
Context (Date_parse : string -> option Z).

Definition safeEnvelope (value : json) : option (string * InboxRealtimeEvent.t) :=
  match value with
  | JObj candidate =>
      match uuid (field "tenantId" candidate), field "event" candidate with
      | Some tenantId, Some (JObj event) =>
          let id := uuid (field "id" event) in
          let type := match field "type" event with
                      | Some (JStr t) => if bool_decide (t ∈ INBOX_EVENT_TYPES) then Some t else None
                      | _ => None
                      end in
          let occurredAt := match field "occurredAt" event with
                            | Some (JStr t) => if bool_decide (is_Some (Date_parse t)) then Some t else None
                            | _ => None
                            end in
          match id, type, truthy occurredAt with
          | Some id, Some type, Some occurredAt =>
              Some (tenantId, InboxRealtimeEvent.make id type occurredAt (safeData (field "data" event)))
          | _, _, _ => None
          end
      | _, _ => None
      end
  | _ => None
  end.
End events.

(** An event of the stream. *)
Definition newline : string := String (JsString.of_unit 10) EmptyString.
Definition frame (event : InboxRealtimeEvent.t) : string :=
  "id: " +:+ InboxRealtimeEvent.id event +:+ newline +:+
  "event: " +:+ InboxRealtimeEvent.type event +:+ newline +:+
  "data: " +:+ stringify (JObj (("occurredAt"%string, JStr (InboxRealtimeEvent.occurredAt event)) :: InboxRealtimeEvent.data event)) +:+
  newline +:+ newline.

(** ** Publishing *)
Inductive RedisStatus := Waiting | Connected | Ended.
(** The publishing client: its status, what it sent on which channel, how often it was used. *)
Module Publisher.
Record t := make { status : RedisStatus; sent : list (string * string); uses : nat }.
End Publisher.
Definition CHANNEL : string := "api-whatsapp:inbox-events:v1".

Section publishing.
(** Redis may refuse a connection and a command; ids and times come from outside. *)
Context (connects publishes : nat -> bool) (randomUUID : nat -> string) (Date_now : nat -> Z).

Definition used (p : Publisher.t) (status : RedisStatus) (sent : list (string * string)) : Publisher.t :=
  Publisher.make status sent (S (Publisher.uses p)).
Definition connect : io Publisher.t unit := fun p =>
  if connects (Publisher.uses p) then (Ok tt, used p Connected (Publisher.sent p))
  else (Throws (Error "Connection is closed."), used p Ended (Publisher.sent p)).
Definition ensurePublisher : io Publisher.t unit :=
  p ← get;
  _ ← (match Publisher.status p with Waiting => connect | _ => mret tt end);
  p ← get;
  match Publisher.status p with Ended => throw (Error "Realtime inbox publisher is closed") | _ => mret tt end.
Definition redis_publish (channel payload : string) : io Publisher.t unit := fun p =>
  if publishes (Publisher.uses p) then (Ok tt, used p (Publisher.status p) (Publisher.sent p ++ [(channel, payload)]))
  else (Throws (Error "Stream isn't writeable and enableOfflineQueue options is false"), used p (Publisher.status p) (Publisher.sent p)).
Definition new_event (type : string) (data : list (string * json)) (n : nat) : InboxRealtimeEvent.t :=
  InboxRealtimeEvent.make (randomUUID n) type (JsDate.toISOString (Date_now n)) (safeData (Some (JObj data))).
Definition publish (tenantId type : string) (data : list (string * json)) : io Publisher.t unit :=
  p ← get;
  let event := new_event type data (Publisher.uses p) in
  try_catch (_ ← ensurePublisher; redis_publish CHANNEL (stringify (envelope tenantId event)))
    (fun _ => mret tt).
End publishing.

(** ** What the cleaning keeps *)
(** The checks look at one value and let through what they have let through. *)
Definition steady (check : option json -> option json) : Prop := check None = None /\ forall v, check (check v) = check v.
Lemma uuid_steady : steady keep_uuid.
Proof.
  split; [done|]. unfold keep_uuid, uuid. intros [[]|]; try done. destruct (UUID s) eqn:E; [|done].
  change (JStr <$> (if UUID s then Some s else None) = Some (JStr s)). by rewrite E.
Qed.
Lemma uuid_or_null_steady : steady keep_uuid_or_null.
Proof.
  split; [done|]. intros [[]|]; try done. unfold keep_uuid_or_null, keep_uuid, uuid. destruct (UUID s) eqn:E; [|done].
  change (JStr <$> (if UUID s then Some s else None) = Some (JStr s)). by rewrite E.
Qed.
Lemma text_steady allowed : steady (keep_text allowed).
Proof. split; [done|]. unfold keep_text. intros [[]|]; try done. by destruct (bool_decide (s ∈ allowed)) eqn:E; rewrite ?E. Qed.
Lemma integer_steady minimum : steady (keep_integer minimum).
Proof.
  split; [done|]. unfold keep_integer. intros [[| |n| | |]|]; try done. destruct n as [z|]; [|done].
  by destruct (minimum <=? z) eqn:E; rewrite ?E.
Qed.
Lemma boolean_steady : steady keep_boolean.
Proof. split; [done|]. by intros [[]|]. Qed.
Create HintDb steady.
#[export] Hint Resolve uuid_steady uuid_or_null_steady text_steady integer_steady boolean_steady : steady.

Lemma kept_cons k c fields data :
  kept_fields ((k, c) :: fields) data = match c (field k data) with Some v => (k, v) :: kept_fields fields data | None => kept_fields fields data end.
Proof. unfold kept_fields. cbn. by destruct (c (field k data)). Qed.
Lemma field_absent k fields data : k ∉ fields.*1 -> field k (kept_fields fields data) = None.
Proof.
  induction fields as [|[k0 c0] fields IH]; [done|]. rewrite fmap_cons, not_elem_of_cons. cbn [fst]. intros [Hne Hn]. rewrite kept_cons.
  destruct (c0 (field k0 data)); [rewrite field_ne by done|]; by apply IH.
Qed.
Lemma field_kept k c fields data : NoDup fields.*1 -> (k, c) ∈ fields -> field k (kept_fields fields data) = c (field k data).
Proof.
  induction fields as [|[k0 c0] fields IH]; [by intros _ ?%elem_of_nil|]. rewrite fmap_cons. cbn [fst]. intros [Hk Hnd]%NoDup_cons Hin. rewrite kept_cons.
  apply elem_of_cons in Hin as [[= <- <-]|Hin].
  - destruct (c (field k data)); [by rewrite field_eq|by apply field_absent].
  - assert (Hne : k0 <> k) by (intros ->; apply Hk; by apply (list_elem_of_fmap_2 fst _ (k, c))).
    destruct (c0 (field k0 data)); [rewrite field_ne by done|]; by apply IH.
Qed.
Lemma kept_same fields data data' :
  (forall f, f ∈ fields -> f.2 (field f.1 data) = f.2 (field f.1 data')) -> kept_fields fields data = kept_fields fields data'.
Proof.
  induction fields as [|[k c] fields IH]; [done|]. intros Hs. rewrite !kept_cons, IH by (intros f Hf; apply Hs; by right).
  pose proof (Hs (k, c) ltac:(by left)) as Hk. cbn [fst snd] in Hk. by rewrite Hk.
Qed.
Lemma SAFE_FIELDS_once : NoDup SAFE_FIELDS.*1.
Proof. apply (bool_decide_unpack _). by vm_compute. Qed.
Lemma SAFE_FIELDS_steady f : f ∈ SAFE_FIELDS -> steady f.2.
Proof. intros Hf. repeat (apply elem_of_cons in Hf as [->|Hf]; [cbn; auto with steady|]). by apply elem_of_nil in Hf. Qed.
(** Cleaning twice changes nothing more. *)
Lemma safeData_idem v : safeData (Some (JObj (safeData v))) = safeData v.
Proof.
  assert (Hk : forall data, kept_fields SAFE_FIELDS (kept_fields SAFE_FIELDS data) = kept_fields SAFE_FIELDS data).
  { intros data. apply kept_same. intros [k c] Hf. rewrite (field_kept k c) by (done || apply SAFE_FIELDS_once).
    by apply (SAFE_FIELDS_steady (k, c)). }
  assert (H0 : safeData (Some (JObj [])) = []) by (vm_compute; reflexivity).
  destruct v as [[| | | | |data]|]; first [exact H0|apply Hk].
Qed.

(** ** Round trip *)
Lemma safeEnvelope_envelope Date_parse tenantId e :
  UUID tenantId = true -> UUID (InboxRealtimeEvent.id e) = true -> InboxRealtimeEvent.type e ∈ INBOX_EVENT_TYPES ->
  is_Some (Date_parse (InboxRealtimeEvent.occurredAt e)) -> InboxRealtimeEvent.occurredAt e <> ""%string ->
  safeData (Some (JObj (InboxRealtimeEvent.data e))) = InboxRealtimeEvent.data e ->
  safeEnvelope Date_parse (envelope tenantId e) = Some (tenantId, e).
Proof.
  intros Ht Hi Hty Hd Hne Hs. destruct e as [id type occurredAt data]. unfold safeEnvelope, envelope, uuid.
  cbn [InboxRealtimeEvent.id InboxRealtimeEvent.type InboxRealtimeEvent.occurredAt InboxRealtimeEvent.data] in *.
  set (event := [_; _; _; _]). 
  assert (F1 : field "id" event = Some (JStr id)) by done. assert (F2 : field "type" event = Some (JStr type)) by done.
  assert (F3 : field "occurredAt" event = Some (JStr occurredAt)) by done. assert (F4 : field "data" event = Some (JObj data)) by done.
  set (candidate := [_; _]). assert (G1 : field "tenantId" candidate = Some (JStr tenantId)) by done.
  assert (G2 : field "event" candidate = Some (JObj event)) by done.
  rewrite G1, G2, Ht, F1, F2, F3, F4, Hi, !bool_decide_true, Hs by done. by destruct occurredAt.
Qed.
(** What [publish] makes of an event is as clean as what arrives. *)
Lemma published_roundtrip Date_parse randomUUID Date_now tenantId type data n :
  let event := new_event randomUUID Date_now type data n in
  UUID tenantId = true -> UUID (randomUUID n) = true -> type ∈ INBOX_EVENT_TYPES ->
  is_Some (Date_parse (InboxRealtimeEvent.occurredAt event)) -> InboxRealtimeEvent.occurredAt event <> ""%string ->
  safeEnvelope Date_parse (envelope tenantId event) = Some (tenantId, event).
Proof. intros event Ht Hu Hty Hd Hne. apply safeEnvelope_envelope; try done. apply safeData_idem. Qed.

(** ** Frames *)
(** One event of a stream: lines that are not empty and an empty one. *)
Definition one_event (text : string) : Prop :=
  exists l1 l2 l3, text = l1 +:+ newline +:+ l2 +:+ newline +:+ l3 +:+ newline +:+ newline /\
    is_line l1 = true /\ is_line l2 = true /\ is_line l3 = true /\ l1 <> ""%string /\ l2 <> ""%string /\ l3 <> ""%string.
Lemma matches_chars_line tests s :
  Forall (fun f => forall c, f c = true -> is_line (String c "") = true) tests -> matches_chars tests s = true -> is_line s = true.
Proof.
  intros Ht. revert s. induction Ht as [|f tests Hf _ IH]; intros [|c s]; try done. cbn [matches_chars].
  intros [Hc Hs]%andb_true_iff. rewrite is_line_cons, (IH s Hs), andb_true_r. apply Hf in Hc.
  by rewrite is_line_cons, andb_true_r in Hc.
Qed.
Lemma UUID_line s : UUID s = true -> is_line s = true.
Proof.
  apply matches_chars_line. unfold UUID_CHARS.
  assert (H1 : forall c, hex_char c = true -> is_line (String c "") = true) by (intros [[] [] [] [] [] [] [] []]; vm_compute; congruence).
  assert (H2 : forall c, dash c = true -> is_line (String c "") = true) by (intros [[] [] [] [] [] [] [] []]; vm_compute; congruence).
  assert (H3 : forall c, version_char c = true -> is_line (String c "") = true) by (intros [[] [] [] [] [] [] [] []]; vm_compute; congruence).
  assert (H4 : forall c, variant_char c = true -> is_line (String c "") = true) by (intros [[] [] [] [] [] [] [] []]; vm_compute; congruence).
  repeat (apply Forall_app; split); repeat (apply Forall_cons; split; [assumption|]); try apply Forall_nil_2; apply Forall_replicate; assumption.
Qed.
Lemma frame_one_event e :
  UUID (InboxRealtimeEvent.id e) = true -> InboxRealtimeEvent.type e ∈ INBOX_EVENT_TYPES -> one_event (frame e).
Proof.
  intros Hu Hty. unfold frame.
  exists ("id: " +:+ InboxRealtimeEvent.id e)%string, ("event: " +:+ InboxRealtimeEvent.type e)%string,
    ("data: " +:+ stringify (JObj (("occurredAt"%string, JStr (InboxRealtimeEvent.occurredAt e)) :: InboxRealtimeEvent.data e)))%string.
  split; [done|]. rewrite !is_line_app, is_line_stringify, (UUID_line (InboxRealtimeEvent.id e)) by done.
  assert (Ht : Forall (fun t => is_line t = true) INBOX_EVENT_TYPES) by (repeat (apply Forall_cons; split; [by vm_compute|]); apply Forall_nil_2).
  rewrite Forall_forall in Ht. rewrite (Ht _ Hty). by split_and!.
Qed.
Lemma safeEnvelope_clean Date_parse v T e :
  safeEnvelope Date_parse v = Some (T, e) -> UUID (InboxRealtimeEvent.id e) = true /\ InboxRealtimeEvent.type e ∈ INBOX_EVENT_TYPES.
Proof.
  unfold safeEnvelope. destruct v as [| | | | |candidate]; try done.
  destruct (uuid (field "tenantId" candidate)); [|done]. destruct (field "event" candidate) as [[| | | | |event]|]; try done.
  destruct (uuid (field "id" event)) as [id|] eqn:Hi; [|done].
  destruct (match field "type" event with Some (JStr t) => _ | _ => None end) as [type|] eqn:Ht; [|done].
  destruct (truthy _); [|done]. intros [= _ <-]. cbn. split.
  - unfold uuid in Hi. destruct (field "id" event) as [[| | |x| |]|]; try done. by destruct (UUID x) eqn:E; simplify_eq.
  - destruct (field "type" event) as [[| | |x| |]|]; try done. case_bool_decide; by simplify_eq.
Qed.

(** Publishing ends normally and sends at most the one message. *)
Lemma publish_ends connects publishes randomUUID Date_now tenantId type data p r p' :
  publish connects publishes randomUUID Date_now tenantId type data p = (r, p') ->
  r = Ok tt /\ (Publisher.sent p' = Publisher.sent p \/
    Publisher.sent p' = Publisher.sent p ++
      [(CHANNEL, stringify (envelope tenantId (new_event randomUUID Date_now type data (Publisher.uses p))))]).
Proof.
  unfold publish, ensurePublisher, connect, redis_publish, try_catch, get, throw, mbind, io_bind, mret, io_ret.
  destruct p as [[] sent uses]; cbn [Publisher.status Publisher.uses Publisher.sent].
  - destruct (connects uses); cbn [Publisher.status]; [|by intros [= <- <-]; split; [|left]].
    cbn. destruct (publishes (S uses)); intros [= <- <-]; (split; [done|]); [by right|by left].
  - destruct (publishes uses); intros [= <- <-]; (split; [done|]); [by right|by left].
  - by intros [= <- <-]; split; [|left].
Qed.
