(* ===== verification/EventStreams.v ===== *)
(** The event streams of the inbox as a state machine: the connections of
    [inbox-events/inbox-events.controller.ts] with the listeners, closers and connection count of
    [inbox-events/inbox-realtime.service.ts].

    Between two of the events below the program runs to its next [await]; what follows an [await] runs as
    promise jobs, which nothing but other promise jobs can precede.  A [Set] of listeners is an object the map of the
    tenants and the [unsubscribe] of each of its listeners share. *)
From stdpp Require Import prelude gmap strings.
From Stdlib Require Import ZArith Lia.
From S2P Require Import Prelude Json Numbers JsonText Io Realtime.
#[local] Open Scope Z_scope.

(** Where the body of [stream] stands. *)
Module Phase.
Inductive t := Subscribing | Returned.
#[export] Instance eq_dec : EqDecision t.
Proof. solve_decision. Defined.
End Phase.
Export (hints) Phase.
Module Connection.
Record t := make {
  tenantId : string;
  phase : Phase.t;
  closed : bool;
  heartbeat : bool;            (** the interval is running *)
  unsubscribe : option nat;    (** the [Set] it deletes its listener from *)
  ended : bool;                (** [response.writableEnded] *)
  status : option Z;           (** of the answer, once its head is sent: [response.headersSent] *)
  sent : list string           (** the frames given to [response.write] *)
}.
#[export] Instance settable : Settable t := fun x =>
  make (tenantId x) (phase x) (closed x) (heartbeat x) (unsubscribe x) (ended x) (status x) (sent x).
End Connection.
Export (hints) Connection.
Module Service.
Record t := make {
  listeners : gmap string nat;        (** the map from tenants to [Set] objects *)
  sets : gmap nat (list nat);         (** their elements in order of insertion *)
  connectionClosers : list nat;
  subscribed : bool;
  activeConnections : Z;
  connections : gmap nat Connection.t;
  writes : nat                        (** the calls of [response.write] so far *)
}.
#[export] Instance settable : Settable t := fun x =>
  make (listeners x) (sets x) (connectionClosers x) (subscribed x) (activeConnections x) (connections x) (writes x).
End Service.
Export (hints) Service.
Import Service.

(** [Set] *)
Definition add_to (c : nat) (l : list nat) : list nat := if bool_decide (c ∈ l) then l else l ++ [c].
Definition delete_from (c : nat) (l : list nat) : list nat := filter (fun x => x <> c) l.

Section streams.
(** [Date.parse], the settings as numbers, and the answer of each [response.write]. *)
Context (Date_parse : string -> option Z) (setting : string -> option number) (accepts : nat -> bool).

Definition DEFAULT_MAX_CONNECTIONS : Z := 500.
Definition boundedInteger (name : string) (fallback minimum maximum : Z) : Z :=
  match default (Whole fallback) (setting name) with
  | Whole n => if (minimum <=? n) && (n <=? maximum) then n else fallback
  | Other _ => fallback
  end.
Definition maxConnections : Z := boundedInteger "INBOX_SSE_MAX_CONNECTIONS" DEFAULT_MAX_CONNECTIONS 1 100000.
Definition heartbeatMs : Z := boundedInteger "INBOX_SSE_HEARTBEAT_MS" 15000 5000 60000.

Definition on (c : nat) (f : Connection.t -> Connection.t) (s : Service.t) : Service.t :=
  s <| connections ::= alter f c |>.

(** ** The service *)
Definition tryAcquireConnection (s : Service.t) : option Service.t :=
  if maxConnections <=? activeConnections s then None else Some (s <| activeConnections ::= Z.succ |>).
Definition releaseConnection (s : Service.t) : Service.t := s <| activeConnections ::= fun n => Z.max 0 (n - 1) |>.
Definition registerConnectionCloser (c : nat) (s : Service.t) : Service.t := s <| connectionClosers ::= add_to c |>.
Definition unregisterCloser (c : nat) (s : Service.t) : Service.t := s <| connectionClosers ::= delete_from c |>.

(** The part of [subscribe] after the subscriber is ready; it returns the [Set]. *)
Definition subscribe (tenantId : string) (c : nat) (s : Service.t) : nat * Service.t :=
  let '(tenantListeners, s) :=
    match listeners s !! tenantId with
    | Some set => (set, s)
    | None => let set := fresh (dom (sets s)) in (set, s <| sets ::= <[set := []]> |> <| listeners ::= <[tenantId := set]> |>)
    end in
  (tenantListeners, s <| sets ::= alter (add_to c) tenantListeners |>).
Definition unsubscribe (tenantId : string) (c set : nat) (s : Service.t) : Service.t :=
  let s := s <| sets ::= alter (delete_from c) set |> in
  if bool_decide (sets s !! set = Some []) then s <| listeners ::= delete tenantId |> else s.

(** ** The controller *)
(** [response.end()] sends the head of the answer if that has not happened. *)
Definition end_response (conn : Connection.t) : Connection.t :=
  conn <| Connection.ended := true |> <| Connection.status ::= (fun st => Some (default 200 st)) |>.
Definition close (c : nat) (s : Service.t) : Service.t :=
  match connections s !! c with
  | Some conn =>
      if Connection.closed conn then s
      else
        let s := on c (fun x => x <| Connection.closed := true |> <| Connection.heartbeat := false |>) s in
        let s := match Connection.unsubscribe conn with
                 | Some set => unsubscribe (Connection.tenantId conn) c set s
                 | None => s
                 end in
        let s := releaseConnection (unregisterCloser c s) in
        on c (fun x => if Connection.ended x then x else end_response x) s
  | None => s
  end.
Definition write (c : nat) (text : string) (s : Service.t) : Service.t :=
  match connections s !! c with
  | Some conn =>
      if Connection.closed conn || Connection.ended conn then close c s
      else
        let answer := accepts (writes s) in
        let s := on c (fun x => x <| Connection.sent ::= (fun l => l ++ [text]) |>) s <| writes ::= S |> in
        if answer then s else close c s
  | None => s
  end.

Definition connected : string := ": connected" +:+ newline +:+ newline.
Definition heartbeat_frame : string := ": heartbeat" +:+ newline +:+ newline.

(** The start of [stream], up to the subscription; [None] is the answer 503. *)
Definition new_connection (tenantId : string) : Connection.t :=
  Connection.make tenantId Phase.Subscribing false false None false None [].
Definition open (tenantId : string) (s : Service.t) : option (nat * Service.t) :=
  s ← tryAcquireConnection s;
  let c := fresh (dom (connections s)) in
  Some (c, registerConnectionCloser c (s <| connections ::= <[c := new_connection tenantId]> |>)).
(** The rest of it, once the subscriber is ready or has failed; in the end the body has returned or thrown. *)
Definition resume (c : nat) (ready : bool) (s : Service.t) : Service.t :=
  match connections s !! c with
  | Some conn =>
      match Connection.phase conn with
      | Phase.Returned => s
      | Phase.Subscribing =>
          if ready then
            let '(set, s) := subscribe (Connection.tenantId conn) c (s <| subscribed := true |>) in
            let s := on c (fun x => x <| Connection.unsubscribe := Some set |> <| Connection.phase := Phase.Returned |>) s in
            if Connection.closed conn then unsubscribe (Connection.tenantId conn) c set s
            else
              let s := on c (fun x => x <| Connection.status := Some 200 |>) s in
              let s := write c connected s in
              on c (fun x => x <| Connection.heartbeat := true |>) s
          else
            (** [if (!response.headersSent) throw new HttpException(..., 503)] *)
            on c (fun x => x <| Connection.status ::= (fun st => Some (default 503 st)) |> <| Connection.phase := Phase.Returned |>) (close c s)
      end
  | None => s
  end.

(** ** Events from outside *)
(** A message on the channel, as [JSON.parse] reads it; [None] is no JSON. *)
Definition dispatch (payload : option json) (s : Service.t) : Service.t :=
  match payload ≫= safeEnvelope Date_parse with
  | Some (tenantId, event) =>
      match listeners s !! tenantId with
      | Some set =>
          (** The loop over a [Set] passes over elements deleted before their turn. *)
          foldl (fun s c => if bool_decide (c ∈ default [] (sets s !! set)) then write c (frame event) s else s)
            s (default [] (sets s !! set))
      | None => s
      end
  | None => s
  end.
Definition tick_heartbeat (c : nat) (s : Service.t) : Service.t :=
  match connections s !! c with
  | Some conn => if Connection.heartbeat conn then write c heartbeat_frame s else s
  | None => s
  end.
Definition onModuleDestroy (s : Service.t) : Service.t :=
  foldl (fun s c => close c s) s (connectionClosers s) <| connectionClosers := [] |> <| listeners := ∅ |>.

Inductive event :=
| Open (tenantId : string)
| Resume (c : nat) (ready : bool)
| RequestClosed (c : nat)
| Message (payload : option json)
| Heartbeat (c : nat)
| ModuleDestroy.
Definition step (s : Service.t) (e : event) : Service.t :=
  match e with
  | Open tenantId => match open tenantId s with Some (_, s) => s | None => s end
  | Resume c ready => resume c ready s
  | RequestClosed c => close c s
  | Message payload => dispatch payload s
  | Heartbeat c => tick_heartbeat c s
  | ModuleDestroy => onModuleDestroy s
  end.
Definition started : Service.t := make ∅ ∅ [] false 0 ∅ 0.

(** ** The invariant *)
Definition streaming (conn : Connection.t) : Prop := Connection.phase conn = Phase.Returned /\ Connection.closed conn = false.
(** The listener of a streaming connection is in the set of its tenant. *)
Definition listening (s : Service.t) (c : nat) (conn : Connection.t) : Prop :=
  exists set l, Connection.unsubscribe conn = Some set /\ listeners s !! Connection.tenantId conn = Some set /\
    sets s !! set = Some l /\ c ∈ l.
Record streams_ok (s : Service.t) : Prop := {
  counted : activeConnections s = Z.of_nat (length (connectionClosers s));
  bounded : activeConnections s <= maxConnections;
  closers_once : NoDup (connectionClosers s);
  closers_open : forall c, c ∈ connectionClosers s <-> exists conn, connections s !! c = Some conn /\ Connection.closed conn = false;
  ended_closed : forall c conn, connections s !! c = Some conn -> Connection.ended conn = Connection.closed conn;
  waiting : forall c conn, connections s !! c = Some conn -> Connection.phase conn = Phase.Subscribing -> Connection.unsubscribe conn = None;
  heard : forall c conn, connections s !! c = Some conn -> streaming conn -> listening s c conn;
  sets_once : forall set l, sets s !! set = Some l -> NoDup l;
  sets_live : forall set l c, sets s !! set = Some l -> c ∈ l ->
    exists conn, connections s !! c = Some conn /\ streaming conn /\ Connection.unsubscribe conn = Some set;
  named : forall T set, listeners s !! T = Some set -> exists l, sets s !! set = Some l /\ l <> [] /\
    forall c conn, c ∈ l -> connections s !! c = Some conn -> Connection.tenantId conn = T
}.

Lemma delete_from_elem x c l : x ∈ delete_from c l <-> x <> c /\ x ∈ l.
Proof. unfold delete_from. by rewrite list_elem_of_filter. Qed.
Lemma add_to_new c l : c ∉ l -> add_to c l = l ++ [c].
Proof. intros Hc. unfold add_to. by rewrite bool_decide_false. Qed.
Lemma delete_from_NoDup c l : NoDup l -> NoDup (delete_from c l).
Proof. apply NoDup_filter. Qed.
Lemma delete_from_length c l : NoDup l -> c ∈ l -> Z.of_nat (length (delete_from c l)) = Z.of_nat (length l) - 1.
Proof.
  intros Hn Hc. assert (Hp : l ≡ₚ c :: delete_from c l).
  { apply NoDup_Permutation; [done|apply NoDup_cons; split; [rewrite delete_from_elem; tauto|by apply delete_from_NoDup]|].
    intros x. rewrite elem_of_cons, delete_from_elem. destruct (decide (x = c)) as [->|Hx]; [tauto|]. split; intros Ha; [right; by split|]. by destruct Ha as [->|[_ Ha]]. }
  rewrite Hp at 2. cbn [length]. lia.
Qed.

Lemma alter_some {A} (f : A -> A) (m : gmap nat A) k x : m !! k = Some x -> alter f k m = <[k := f x]> m.
Proof.
  intros Hk. apply map_eq. intros j. destruct (decide (k = j)) as [<-|Hj].
  - by rewrite lookup_alter_eq, lookup_insert_eq, Hk.
  - by rewrite lookup_alter_ne, lookup_insert_ne.
Qed.

(** *** Closing *)
Definition closed_connection (conn : Connection.t) : Connection.t :=
  conn <| Connection.closed := true |> <| Connection.heartbeat := false |> <| Connection.ended := true |>
       <| Connection.status ::= (fun st => Some (default 200 st)) |>.
Lemma close_open c conn s :
  connections s !! c = Some conn -> Connection.closed conn = false -> Connection.ended conn = false ->
  let s' := close c s in
  connections s' = <[c := closed_connection conn]> (connections s) /\ connectionClosers s' = delete_from c (connectionClosers s) /\
  activeConnections s' = Z.max 0 (activeConnections s - 1) /\ writes s' = writes s /\ subscribed s' = subscribed s /\
  match Connection.unsubscribe conn with
  | None => sets s' = sets s /\ listeners s' = listeners s
  | Some set => sets s' = alter (delete_from c) set (sets s) /\
      listeners s' = if bool_decide (alter (delete_from c) set (sets s) !! set = Some []) then delete (Connection.tenantId conn) (listeners s) else listeners s
  end.
Proof.
  intros Hc Hcl Hen. unfold close. rewrite Hc, Hcl. cbv zeta. unfold unsubscribe, on.
  assert (Ha : forall m : gmap nat Connection.t, m = <[c := conn <| Connection.closed := true |> <| Connection.heartbeat := false |>]> (connections s) ->
            alter (fun x => if Connection.ended x then x else end_response x) c m = <[c := closed_connection conn]> (connections s)).
  { intros m ->. erewrite alter_some by apply lookup_insert_eq. rewrite insert_insert_eq. f_equal. cbn. by rewrite Hen. }
  destruct (Connection.unsubscribe conn) as [set|]; [destruct (bool_decide _) eqn:Eb|]; cbn in *;
    (split; [apply Ha; exact (alter_some _ _ _ _ Hc)|]); repeat split; by rewrite Eb.
Qed.

(** The state after one open connection was closed. *)
Section closing.
Variables (s s' : Service.t) (c : nat) (conn : Connection.t).
Hypotheses (Hok : streams_ok s) (Hc : connections s !! c = Some conn) (Hcl : Connection.closed conn = false).
Hypotheses (Ec : connections s' = <[c := closed_connection conn]> (connections s))
  (Ek : connectionClosers s' = delete_from c (connectionClosers s)) (Ea : activeConnections s' = Z.max 0 (activeConnections s - 1)).

Lemma closed_lookup x : connections s' !! x = if decide (c = x) then Some (closed_connection conn) else connections s !! x.
Proof. rewrite Ec. apply lookup_insert. Qed.
Lemma close_closers :
  activeConnections s' = Z.of_nat (length (connectionClosers s')) /\ activeConnections s' <= maxConnections /\
  NoDup (connectionClosers s') /\
  forall x, x ∈ connectionClosers s' <-> exists cx, connections s' !! x = Some cx /\ Connection.closed cx = false.
Proof.
  assert (Hin : c ∈ connectionClosers s) by (apply (closers_open s Hok); by exists conn).
  pose proof (delete_from_length c _ (closers_once s Hok) Hin) as Hlen. pose proof (counted s Hok). pose proof (bounded s Hok).
  rewrite Ea, Ek, Ec. split; [lia|]. split; [lia|]. split; [by apply delete_from_NoDup, (closers_once s Hok)|].
  intros x. rewrite delete_from_elem, (closers_open s Hok). destruct (decide (c = x)) as [<-|Hx].
  - rewrite lookup_insert_eq. split; [by intros [? _]|]. intros (cx & [= <-] & Hx). discriminate Hx.
  - rewrite lookup_insert_ne by done. naive_solver.
Qed.
Lemma close_ended x cx : connections s' !! x = Some cx -> Connection.ended cx = Connection.closed cx.
Proof. rewrite closed_lookup. destruct (decide (c = x)); [intros [= <-]; reflexivity|]. apply (ended_closed s Hok). Qed.
Lemma close_waiting x cx : connections s' !! x = Some cx -> Connection.phase cx = Phase.Subscribing -> Connection.unsubscribe cx = None.
Proof.
  rewrite closed_lookup. destruct (decide (c = x)) as [<-|]; [intros [= <-]; exact (waiting s Hok c conn Hc)|apply (waiting s Hok)].
Qed.
#[local] Hint Resolve close_ended close_waiting : core.

Lemma close_waiting_ok :
  Connection.phase conn = Phase.Subscribing -> sets s' = sets s -> listeners s' = listeners s -> streams_ok s'.
Proof.
  intros Hp Es El. destruct close_closers as (H1 & H2 & H3 & H4). pose proof closed_lookup as Hl. split; eauto.
  + intros x cx Hx [Hph Hx']. rewrite Hl in Hx. destruct (decide (c = x)) as [<-|]; [injection Hx as <-; discriminate Hx'|].
    destruct (heard s Hok x cx Hx) as (set & l & Hh); [done|]. exists set, l. by rewrite El, Es.
  + rewrite Es. apply (sets_once s Hok).
  + intros set l x. rewrite Es. intros Hset Hx. destruct (sets_live s Hok set l x Hset Hx) as (cx & Hcx & Hst & Hu).
    exists cx. rewrite Hl. destruct (decide (c = x)) as [<-|]; [|done]. destruct Hst. congruence.
  + intros T set. rewrite El, Es. intros Hset. destruct (named s Hok T set Hset) as (l & Hset' & Hne & Hn). exists l.
    split; [done|]. split; [done|]. intros x cx Hx. rewrite Hl. destruct (decide (c = x)) as [<-|]; [|by apply Hn].
    intros [= <-]. exact (Hn c conn Hx Hc).
Qed.
Lemma close_streaming_ok set l :
  streaming conn -> listeners s !! Connection.tenantId conn = Some set -> sets s !! set = Some l -> c ∈ l ->
  Connection.unsubscribe conn = Some set -> sets s' = <[set := delete_from c l]> (sets s) ->
  listeners s' = (if bool_decide (Some (delete_from c l) = Some []) then delete (Connection.tenantId conn) (listeners s) else listeners s) ->
  streams_ok s'.
Proof.
  intros Hst HT Hset Hin Hu Es El. destruct close_closers as (H1 & H2 & H3 & H4). pose proof closed_lookup as Hl.
  pose proof (sets_once s Hok set l Hset) as Hnd.
  assert (Hother : forall x cx set' l', connections s !! x = Some cx -> x <> c -> Connection.unsubscribe cx = Some set' ->
            sets s !! set' = Some l' -> x ∈ l' -> exists l'', sets s' !! set' = Some l'' /\ x ∈ l'').
  { intros x cx set' l' _ Hne _ Hl' Hx. rewrite Es. destruct (decide (set = set')) as [<-|].
    - exists (delete_from c l). rewrite lookup_insert_eq, delete_from_elem. split; [done|]. split; [done|]. congruence.
    - exists l'. by rewrite lookup_insert_ne. }
  split; eauto.
  + intros x cx Hx Hstx. rewrite Hl in Hx. destruct (decide (c = x)) as [<-|Hne]; [injection Hx as <-; by destruct Hstx as [_ [=]]|].
    destruct (heard s Hok x cx Hx Hstx) as (set' & l' & Hu' & HT' & Hset' & Hin').
    destruct (Hother x cx set' l' Hx ltac:(done) Hu' Hset' Hin') as (l'' & Hl'' & Hx''). exists set', l''. split; [done|].
    split; [|done]. rewrite El. destruct (bool_decide _) eqn:Eb; [|done]. apply bool_decide_eq_true in Eb.
    rewrite lookup_delete_ne; [done|]. intros E. rewrite <- E, HT in HT'. injection HT' as <-.
    rewrite Es, lookup_insert_eq in Hl''. injection Hl'' as <-. injection Eb as Eb. rewrite Eb in Hx''. by apply elem_of_nil in Hx''.
  + intros set' l'. rewrite Es. destruct (decide (set = set')) as [<-|]; [rewrite lookup_insert_eq; intros [= <-]; by apply delete_from_NoDup|].
    rewrite lookup_insert_ne by done. apply (sets_once s Hok).
  + intros set' l' x Hl' Hx. assert (Hx' : x <> c /\ exists l0, sets s !! set' = Some l0 /\ x ∈ l0).
    { rewrite Es in Hl'. destruct (decide (set = set')) as [<-|].
      - rewrite lookup_insert_eq in Hl'. injection Hl' as <-. apply delete_from_elem in Hx as [? ?]. split; [done|by exists l].
      - rewrite lookup_insert_ne in Hl' by done. split; [|by exists l']. intros ->.
        destruct (sets_live s Hok set' l' c Hl' Hx) as (cx & Hcx & _ & Hux). congruence. }
    destruct Hx' as (Hne & l0 & Hl0 & Hx0). destruct (sets_live s Hok set' l0 x Hl0 Hx0) as (cx & Hcx & Hh).
    exists cx. rewrite Hl, decide_False by done. done.
  + intros T set' HT'. assert (Hb : listeners s !! T = Some set' /\ (set' = set -> delete_from c l <> [])).
    { rewrite El in HT'. destruct (bool_decide _) eqn:Eb.
      - apply lookup_delete_Some in HT' as [Hne HT']. split; [done|]. intros ->. exfalso. apply Hne.
        destruct (named s Hok T set HT') as (l0 & Hl0 & _ & Hn). rewrite Hset in Hl0. injection Hl0 as <-. by apply (Hn c conn).
      - apply bool_decide_eq_false in Eb. split; [done|]. intros _ E. apply Eb. by rewrite E. }
    destruct Hb as [HTs Hne]. destruct (named s Hok T set' HTs) as (l0 & Hl0 & Hne0 & Hn). rewrite Es.
    destruct (decide (set = set')) as [<-|Hd].
    * exists (delete_from c l). rewrite lookup_insert_eq. split; [done|]. split; [by apply Hne|]. rewrite Hset in Hl0. injection Hl0 as <-.
      intros x cx [Hxc Hx]%delete_from_elem. rewrite Hl, decide_False by done. by apply Hn.
    * exists l0. rewrite lookup_insert_ne by done. split; [done|]. split; [done|]. intros x cx Hx. rewrite Hl.
      destruct (decide (c = x)) as [<-|]; [|by apply Hn]. intros [= <-]. exact (Hn c conn Hx Hc).
Qed.
End closing.

Lemma close_ok c s : streams_ok s -> streams_ok (close c s).
Proof.
  intros Hok. destruct (connections s !! c) as [conn|] eqn:Hc; [|by unfold close; rewrite Hc].
  destruct (Connection.closed conn) eqn:Hcl; [by unfold close; rewrite Hc, Hcl|].
  pose proof (ended_closed s Hok c conn Hc) as Hen. rewrite Hcl in Hen.
  destruct (close_open c conn s Hc Hcl Hen) as (Ec & Ek & Ea & _ & _ & Es).
  destruct (decide (Connection.phase conn = Phase.Subscribing)) as [Hp|Hp].
  - rewrite (waiting s Hok c conn Hc Hp) in Es. destruct Es. by eapply close_waiting_ok.
  - assert (Hst : streaming conn) by (split; [by destruct (Connection.phase conn)|done]).
    destruct (heard s Hok c conn Hc Hst) as (set & l & Hu & HT & Hset & Hin). rewrite Hu in Es. destruct Es as [Es El].
    rewrite (alter_some _ _ _ _ Hset) in Es, El. rewrite lookup_insert_eq in El. by eapply close_streaming_ok.
Qed.

(** *** Writing *)
(** What the invariant does not look at. *)
Definition same_role (x y : Connection.t) : Prop :=
  Connection.tenantId y = Connection.tenantId x /\ (Connection.phase y = Phase.Subscribing -> Connection.phase x = Phase.Subscribing) /\
  (streaming y <-> streaming x) /\ Connection.closed y = Connection.closed x /\
  Connection.unsubscribe y = Connection.unsubscribe x /\ Connection.ended y = Connection.ended x.
Lemma same_role_ok s s' :
  streams_ok s -> (forall c, connections s' !! c = None /\ connections s !! c = None \/
                     exists x y, connections s !! c = Some x /\ connections s' !! c = Some y /\ same_role x y) ->
  connectionClosers s' = connectionClosers s -> activeConnections s' = activeConnections s -> sets s' = sets s -> listeners s' = listeners s ->
  streams_ok s'.
Proof.
  intros Hok Hsame Ek Ea Es El.
  assert (Hback : forall c y, connections s' !! c = Some y -> exists x, connections s !! c = Some x /\ same_role x y).
  { intros c y Hy. destruct (Hsame c) as [[? _]|(x & y' & Hx & Hy' & Hr)]; [congruence|]. exists x. split; [done|]. congruence. }
  assert (Hforth : forall c x, connections s !! c = Some x -> exists y, connections s' !! c = Some y /\ same_role x y).
  { intros c x Hx. destruct (Hsame c) as [[_ ?]|(x' & y & Hx' & Hy & Hr)]; [congruence|]. exists y. split; [done|]. congruence. }
  split; rewrite ?Ek, ?Ea, ?Es; try apply Hok.
  - intros c. rewrite (closers_open s Hok). split.
    + intros (x & Hx & Hcl). destruct (Hforth c x Hx) as (y & Hy & _ & _ & _ & Hc & _). exists y. by rewrite Hc.
    + intros (y & Hy & Hcl). destruct (Hback c y Hy) as (x & Hx & _ & _ & _ & Hc & _). exists x. by rewrite <- Hc.
  - intros c y Hy. destruct (Hback c y Hy) as (x & Hx & _ & _ & _ & -> & _ & ->). by apply (ended_closed s Hok c).
  - intros c y Hy Hp. destruct (Hback c y Hy) as (x & Hx & _ & Hph & _ & _ & -> & _). by apply (waiting s Hok c x Hx), Hph.
  - intros c y Hy Hst. destruct (Hback c y Hy) as (x & Hx & HT & _ & Hs & _ & Hu & _). unfold listening. rewrite HT, Hu, El, Es.
    by apply (heard s Hok c x Hx), Hs.
  - intros set l c Hl Hc. destruct (sets_live s Hok set l c Hl Hc) as (x & Hx & Hs & Hu).
    destruct (Hforth c x Hx) as (y & Hy & _ & _ & Hs' & _ & Hu' & _). exists y. split; [done|]. rewrite Hu'. by split; [apply Hs'|].
  - intros T set. rewrite El. intros HT. destruct (named s Hok T set HT) as (l & Hl & Hne & Hn). exists l. split; [done|]. split; [done|].
    intros c y Hc Hy. destruct (Hback c y Hy) as (x & Hx & -> & _). by apply (Hn c).
Qed.
Lemma same_role_refl x : same_role x x.
Proof. unfold same_role. by split_and!. Qed.
Lemma on_ok c f s : (forall x, connections s !! c = Some x -> same_role x (f x)) -> streams_ok s -> streams_ok (on c f s).
Proof.
  intros Hf Hok. apply (same_role_ok s); try done. intros c'. unfold on. cbn.
  destruct (connections s !! c') as [x|] eqn:Hx.
  - right. exists x. destruct (decide (c = c')) as [<-|].
    + exists (f x). rewrite lookup_alter_eq, Hx. auto.
    + exists x. rewrite lookup_alter_ne, Hx by done. auto using same_role_refl.
  - left. split; [|done]. destruct (decide (c = c')) as [<-|]; [by rewrite lookup_alter_eq, Hx|by rewrite lookup_alter_ne].
Qed.
Lemma same_fields_ok s s' :
  connections s' = connections s -> connectionClosers s' = connectionClosers s -> activeConnections s' = activeConnections s ->
  sets s' = sets s -> listeners s' = listeners s -> streams_ok s -> streams_ok s'.
Proof.
  intros Ec Ek Ea Es El Hok. apply (same_role_ok s); try done. intros c. rewrite Ec.
  destruct (connections s !! c) as [x|]; [right|by left]. exists x, x. auto using same_role_refl.
Qed.
Lemma write_ok c text s : streams_ok s -> streams_ok (write c text s).
Proof.
  intros Hok. unfold write. destruct (connections s !! c) as [conn|]; [|done].
  destruct (Connection.closed conn || Connection.ended conn); [by apply close_ok|]. cbv zeta.
  assert (Hs : streams_ok (on c (fun x => x <| Connection.sent ::= (fun l => l ++ [text]) |>) s <| writes ::= S |>)).
  { eapply same_fields_ok; [..|apply (on_ok c (fun x => x <| Connection.sent ::= (fun l => l ++ [text]) |>)); [intros x _; exact (same_role_refl x)|exact Hok]]; done. }
  destruct (accepts (writes s)); [done|by apply close_ok].
Qed.

(** *** Opening and subscribing *)
Lemma boundedInteger_range name fallback minimum maximum :
  minimum <= fallback <= maximum -> minimum <= boundedInteger name fallback minimum maximum <= maximum.
Proof.
  intros Hf. unfold boundedInteger. destruct (default _ _); [|done]. destruct (_ && _) eqn:E; [|done].
  apply andb_true_iff in E as [?%Z.leb_le ?%Z.leb_le]. lia.
Qed.
Lemma open_ok T s c s' : streams_ok s -> open T s = Some (c, s') ->
  streams_ok s' /\ connections s !! c = None /\ connections s' = <[c := new_connection T]> (connections s) /\
  sets s' = sets s /\ listeners s' = listeners s.
Proof.
  intros Hok. unfold open, tryAcquireConnection. destruct (Z.leb_spec maxConnections (activeConnections s)) as [|Hmax]; [done|].
  cbn. intros [= <- <-]. set (c := fresh _).
  assert (Hc : connections s !! c = None) by (apply not_elem_of_dom, is_fresh).
  assert (Hk : c ∉ connectionClosers s).
  { rewrite (closers_open s Hok). intros (conn & Hx & _). congruence. }
  pose proof (add_to_new c _ Hk) as Ek. split; [|done].
  assert (Hl : forall x, <[c := new_connection T]> (connections s) !! x = if decide (c = x) then Some (new_connection T) else connections s !! x)
    by (intros x; apply lookup_insert).
  split; cbn [registerConnectionCloser connectionClosers]; cbn; rewrite ?Ek.
  - rewrite length_app. cbn. pose proof (counted s Hok). lia.
  - lia.
  - apply NoDup_app. split; [apply (closers_once s Hok)|]. split; [|by apply NoDup_singleton].
    intros x Hx ->%list_elem_of_singleton. done.
  - intros x. rewrite elem_of_app, list_elem_of_singleton, (closers_open s Hok), Hl. destruct (decide (c = x)) as [<-|Hne].
    + split; [by eexists|]. by right.
    + split; [by intros [?|<-]|by left].
  - intros x conn. rewrite Hl. destruct (decide (c = x)); [by intros [= <-]|apply (ended_closed s Hok)].
  - intros x conn. rewrite Hl. destruct (decide (c = x)); [by intros [= <-]|apply (waiting s Hok)].
  - intros x conn. rewrite Hl. destruct (decide (c = x)); [by intros [= <-] []|apply (heard s Hok)].
  - apply (sets_once s Hok).
  - intros set l x Hset Hx. destruct (sets_live s Hok set l x Hset Hx) as (conn & Hconn & Hh). exists conn. rewrite Hl.
    destruct (decide (c = x)) as [<-|]; [congruence|done].
  - intros T' set HT'. destruct (named s Hok T' set HT') as (l & Hset & Hne & Hn). exists l. split; [done|]. split; [done|].
    intros x conn Hx. rewrite Hl. destruct (decide (c = x)) as [<-|]; [|by apply Hn].
    destruct (sets_live s Hok set l c Hset Hx) as (? & ? & _). congruence.
Qed.

Lemma service_eq (s s' : Service.t) :
  listeners s = listeners s' -> sets s = sets s' -> connectionClosers s = connectionClosers s' -> subscribed s = subscribed s' ->
  activeConnections s = activeConnections s' -> connections s = connections s' -> writes s = writes s' -> s = s'.
Proof. destruct s, s'. cbn. by intros -> -> -> -> -> -> ->. Qed.
(** What [subscribe] finds: the set of the tenant, without the connection, or none. *)
Definition found_set (s : Service.t) (T : string) (set : nat) (l : list nat) : Prop :=
  (listeners s !! T = Some set /\ sets s !! set = Some l /\ l <> []) \/ (listeners s !! T = None /\ sets s !! set = None /\ l = []).
Lemma subscribe_finds s T c :
  (forall set, listeners s !! T = Some set -> exists l, sets s !! set = Some l /\ l <> [] /\ c ∉ l) ->
  exists set l, found_set s T set l /\ (c ∉ l) /\
    subscribe T c s = (set, (s <| sets := (<[set := l ++ [c]]> (sets s)) |> <| listeners := (<[T := set]> (listeners s)) |>)).
Proof.
  intros Hs. unfold subscribe. destruct (listeners s !! T) as [set|] eqn:HT.
  - destruct (Hs set eq_refl) as (l & Hset & Hne & Hn). exists set, l. split; [by left|]. split; [done|]. f_equal.
    apply service_eq; cbn; [by rewrite insert_id|by rewrite (alter_some _ _ _ _ Hset), add_to_new|done..].
  - set (k := fresh (dom (sets s))). exists k, []. split; [right|split; [by apply not_elem_of_nil|]].
    + split; [done|]. split; [|done]. apply not_elem_of_dom, is_fresh.
    + f_equal. apply service_eq; cbn; [done| |done..]. erewrite alter_some by apply lookup_insert_eq. by rewrite insert_insert_eq.
Qed.
Lemma not_in_sets s c conn :
  streams_ok s -> connections s !! c = Some conn -> ~ streaming conn -> forall set l, sets s !! set = Some l -> c ∉ l.
Proof. intros Hok Hc Hns set l Hl Hin. destruct (sets_live s Hok set l c Hl Hin) as (x & Hx & Hst & _). congruence. Qed.

Section listening.
Variables (s s' : Service.t) (c : nat) (conn conn' : Connection.t) (set : nat) (l : list nat).
Hypotheses (Hok : streams_ok s) (Hc : connections s !! c = Some conn) (Hp : Connection.phase conn = Phase.Subscribing).
Hypotheses (Hset : found_set s (Connection.tenantId conn) set l) (Hcl : c ∉ l).
Hypotheses (Ec : connections s' = <[c := conn']> (connections s)) (Ek : connectionClosers s' = connectionClosers s)
  (Ea : activeConnections s' = activeConnections s).
Hypotheses (Hp' : Connection.phase conn' = Phase.Returned) (HT' : Connection.tenantId conn' = Connection.tenantId conn)
  (Hcl' : Connection.closed conn' = Connection.closed conn) (He' : Connection.ended conn' = Connection.ended conn).

Lemma listen_lookup x : connections s' !! x = if decide (c = x) then Some conn' else connections s !! x.
Proof. rewrite Ec. apply lookup_insert. Qed.
Lemma listen_closers x : x ∈ connectionClosers s' <-> exists cx, connections s' !! x = Some cx /\ Connection.closed cx = false.
Proof.
  rewrite Ek, listen_lookup, (closers_open s Hok). destruct (decide (c = x)) as [<-|]; [|done].
  rewrite Hc. split; intros (cx & [= <-] & Hx); eexists; (split; [done|congruence]).
Qed.
Lemma listen_ended x cx : connections s' !! x = Some cx -> Connection.ended cx = Connection.closed cx.
Proof.
  rewrite listen_lookup. destruct (decide (c = x)) as [<-|]; [|apply (ended_closed s Hok)].
  intros [= <-]. rewrite He', Hcl'. by apply (ended_closed s Hok c).
Qed.
Lemma listen_waiting x cx : connections s' !! x = Some cx -> Connection.phase cx = Phase.Subscribing -> Connection.unsubscribe cx = None.
Proof. rewrite listen_lookup. destruct (decide (c = x)) as [<-|]; [intros [= <-]; congruence|apply (waiting s Hok)]. Qed.
#[local] Hint Resolve listen_closers listen_ended listen_waiting : core.

(** The connection is still open: it listens now. *)
Lemma listen_open_ok :
  Connection.unsubscribe conn' = Some set -> sets s' = <[set := l ++ [c]]> (sets s) ->
  listeners s' = <[Connection.tenantId conn := set]> (listeners s) -> Connection.closed conn = false -> streams_ok s'.
Proof.
  intros Hu Es El Hopen. pose proof listen_lookup as Hl.
  assert (Hold : forall x set0 l0, sets s !! set0 = Some l0 -> x ∈ l0 -> exists l1, sets s' !! set0 = Some l1 /\ x ∈ l1).
  { intros x set0 l0 Hs0 Hx. rewrite Es. destruct (decide (set = set0)) as [<-|]; [|exists l0; by rewrite lookup_insert_ne].
    exists (l ++ [c]). rewrite lookup_insert_eq. split; [done|]. destruct Hset as [(_ & Hs1 & _)|(_ & Hs1 & _)]; [|congruence].
    apply elem_of_app. left. congruence. }
  split; eauto; rewrite ?Ek, ?Ea; try apply Hok.
  - intros x cx. rewrite Hl. destruct (decide (c = x)) as [<-|Hne].
    + intros [= <-] _. exists set, (l ++ [c]). rewrite HT', Es, El, !lookup_insert_eq. repeat split; try done. apply elem_of_app. right. by left.
    + intros Hx Hst. destruct (heard s Hok x cx Hx Hst) as (set0 & l0 & Hu0 & HT0 & Hs0 & Hin). destruct (Hold x set0 l0 Hs0 Hin) as (l1 & Hs1 & Hin1).
      exists set0, l1. split; [done|]. split; [|done]. rewrite El. destruct (decide (Connection.tenantId conn = Connection.tenantId cx)) as [E|].
      * rewrite E, lookup_insert_eq. rewrite <- E in HT0. destruct Hset as [(HTs & _)|(HTs & _)]; congruence.
      * by rewrite lookup_insert_ne.
  - intros set0 l0. rewrite Es. destruct (decide (set = set0)) as [<-|]; [|rewrite lookup_insert_ne by done; apply (sets_once s Hok)].
    rewrite lookup_insert_eq. intros [= <-]. apply NoDup_app. split; [|split; [by intros x Hx ->%list_elem_of_singleton|by apply NoDup_singleton]].
    destruct Hset as [(_ & Hs1 & _)|(_ & _ & ->)]; [by apply (sets_once s Hok set)|apply NoDup_nil_2].
  - intros set0 l0 x. rewrite Es, Hl. destruct (decide (set = set0)) as [<-|Hd].
    + rewrite lookup_insert_eq. intros [= <-] [Hx| ->%list_elem_of_singleton]%elem_of_app.
      * rewrite decide_False by (intros ->; done). destruct Hset as [(_ & Hs1 & _)|(_ & _ & ->)]; [by apply (sets_live s Hok set l)|by apply elem_of_nil in Hx].
      * rewrite decide_True by done. exists conn'. split; [done|]. split; [split; congruence|done].
    + rewrite lookup_insert_ne by done. intros Hs0 Hx. destruct (sets_live s Hok set0 l0 x Hs0 Hx) as (cx & Hcx & Hst & Hux).
      exists cx. rewrite decide_False; [done|]. intros <-. destruct Hst. congruence.
  - intros T set0. rewrite El. destruct (decide (Connection.tenantId conn = T)) as [<-|Hd].
    + rewrite lookup_insert_eq. intros [= <-]. exists (l ++ [c]). rewrite Es, lookup_insert_eq. split; [done|]. split; [by destruct l|].
      intros x cx Hx. rewrite Hl. destruct (decide (c = x)) as [<-|]; [by intros [= <-]|].
      apply elem_of_app in Hx as [Hx|Hx]; [|apply list_elem_of_singleton in Hx; congruence].
      destruct Hset as [(HTs & Hs1 & _)|(_ & _ & ->)]; [|by apply elem_of_nil in Hx].
      destruct (named s Hok _ set HTs) as (l1 & Hs2 & _ & Hn). assert (l1 = l) as -> by congruence. by apply Hn.
    + rewrite lookup_insert_ne by done. intros HT0. destruct (named s Hok T set0 HT0) as (l1 & Hs1 & Hne & Hn).
      assert (Hd' : set <> set0).
      { intros <-. destruct Hset as [(HTs & Hs2 & _)|(_ & ? & _)]; [|congruence].
        destruct (named s Hok _ set HTs) as (l2 & Hs3 & Hne2 & Hn2). destruct l2 as [|y l2]; [done|].
        destruct (sets_live s Hok set _ y Hs3 ltac:(by left)) as (cy & Hcy & _).
        apply Hd. rewrite <- (Hn2 y cy ltac:(by left) Hcy). apply (Hn y cy); [|done]. replace l1 with (y :: l2) by congruence. by left. }
      exists l1. rewrite Es, lookup_insert_ne by done. split; [done|]. split; [done|]. intros x cx Hx. rewrite Hl.
      destruct (decide (c = x)) as [<-|]; [|by apply Hn]. destruct (sets_live s Hok set0 l1 c Hs1 Hx) as (cy & Hcy & [? _] & _). congruence.
Qed.
(** It was closed meanwhile: nothing listens. *)
Lemma listen_closed_ok :
  sets s' = <[set := l]> (sets s) -> listeners s' = listeners s -> Connection.closed conn = true -> streams_ok s'.
Proof.
  intros Es El Hclosed. pose proof listen_lookup as Hl.
  assert (Hset0 : forall k l0, sets s' !! k = Some l0 -> sets s !! k = Some l0 \/ l0 = []).
  { intros k l0. rewrite Es. destruct (decide (set = k)) as [<-|]; [|rewrite lookup_insert_ne by done; by left].
    rewrite lookup_insert_eq. intros [= <-]. destruct Hset as [(_ & ? & _)|(_ & _ & ?)]; [by left|by right]. }
  assert (Hkeep : forall k l0, sets s !! k = Some l0 -> sets s' !! k = Some l0).
  { intros k l0 Hk. rewrite Es. destruct (decide (set = k)) as [<-|]; [|by rewrite lookup_insert_ne].
    rewrite lookup_insert_eq. destruct Hset as [(_ & ? & _)|(_ & ? & _)]; congruence. }
  split; eauto; rewrite ?Ek, ?Ea; try apply Hok.
  - intros x cx. rewrite Hl. destruct (decide (c = x)) as [<-|]; [intros [= <-] [_ Hx]; congruence|].
    intros Hx Hst. destruct (heard s Hok x cx Hx Hst) as (k & l0 & Hu & HT & Hk & Hin). exists k, l0. rewrite El. eauto.
  - intros k l0 Hk. destruct (Hset0 k l0 Hk) as [Hk'| ->]; [by apply (sets_once s Hok k)|apply NoDup_nil_2].
  - intros k l0 x Hk Hx. destruct (Hset0 k l0 Hk) as [Hk'| ->]; [|by apply elem_of_nil in Hx].
    destruct (sets_live s Hok k l0 x Hk' Hx) as (cx & Hcx & Hst & Hu). exists cx. rewrite Hl.
    destruct (decide (c = x)) as [<-|]; [destruct Hst; congruence|done].
  - intros T k. rewrite El. intros HT. destruct (named s Hok T k HT) as (l0 & Hk & Hne & Hn). exists l0.
    split; [by apply Hkeep|]. split; [done|]. intros x cx Hx. rewrite Hl.
    destruct (decide (c = x)) as [<-|]; [|by apply Hn]. intros [= <-]. rewrite HT'. by apply (Hn c).
Qed.
End listening.

Lemma delete_from_new c l : c ∉ l -> delete_from c (l ++ [c]) = l.
Proof.
  intros Hc. unfold delete_from. rewrite filter_app, filter_cons_False, app_nil_r by (intros Hn; by apply Hn).
  induction l as [|x l IH]; [done|]. rewrite filter_cons_True, IH; [done| |]; intros Hx; apply Hc; [by right|subst; by left].
Qed.

Lemma unsubscribe_fields T c set s :
  let s' := unsubscribe T c set s in
  connections s' = connections s /\ connectionClosers s' = connectionClosers s /\ activeConnections s' = activeConnections s /\
  sets s' = alter (delete_from c) set (sets s) /\
  listeners s' = if bool_decide (alter (delete_from c) set (sets s) !! set = Some []) then delete T (listeners s) else listeners s.
Proof. unfold unsubscribe. cbv zeta. by destruct (bool_decide _) eqn:E; cbn in *; rewrite ?E. Qed.

(** *** Every step *)
Lemma subscribed_ok c conn s set s0 :
  streams_ok s -> connections s !! c = Some conn -> Connection.phase conn = Phase.Subscribing ->
  subscribe (Connection.tenantId conn) c (s <| subscribed := true |>) = (set, s0) ->
  let s1 := on c (fun x => x <| Connection.unsubscribe := Some set |> <| Connection.phase := Phase.Returned |>) s0 in
  connections s1 = <[c := conn <| Connection.unsubscribe := Some set |> <| Connection.phase := Phase.Returned |>]> (connections s) /\
  streams_ok (if Connection.closed conn then unsubscribe (Connection.tenantId conn) c set s1 else s1).
Proof.
  intros Hok Hc Hp Hsub. destruct (subscribe_finds (s <| subscribed := true |>) (Connection.tenantId conn) c) as (set' & l & Hset & Hcl & Hs).
  { intros k Hs. destruct (named s Hok _ k Hs) as (l & Hl & Hne & _). exists l. split; [done|]. split; [done|].
    apply (not_in_sets s c conn Hok Hc) with (set := k); [|done]. intros [? _]. congruence. }
  rewrite Hs in Hsub. injection Hsub as -> <-. set (conn' := conn <| Connection.unsubscribe := Some set |> <| Connection.phase := Phase.Returned |>).
  intros s1. assert (Ec : connections s1 = <[c := conn']> (connections s)) by exact (alter_some _ _ _ _ Hc). split; [done|].
  destruct (Connection.closed conn) eqn:Hcl'; [|by apply (listen_open_ok s s1 c conn conn' set l)].
  destruct (unsubscribe_fields (Connection.tenantId conn) c set s1) as (F1 & F2 & F3 & F4 & F5).
  change (sets s1) with (<[set := l ++ [c]]> (sets s)) in F4, F5. change (listeners s1) with (<[Connection.tenantId conn := set]> (listeners s)) in F5.
  erewrite alter_some in F4, F5 by apply lookup_insert_eq. rewrite delete_from_new, insert_insert_eq in F4, F5 by done.
  rewrite lookup_insert_eq in F5. apply (listen_closed_ok s _ c conn conn' set l); try done; [by rewrite F1|].
  rewrite F5. destruct Hset as [(HT & _ & Hne)|(HT & _ & ->)].
  - rewrite bool_decide_false by congruence. by apply insert_id.
  - rewrite bool_decide_true by done. by rewrite delete_insert_eq, delete_id.
Qed.
Lemma resume_ok c ready s : streams_ok s -> streams_ok (resume c ready s).
Proof.
  intros Hok. unfold resume. destruct (connections s !! c) as [conn|] eqn:Hc; [|done].
  destruct (Connection.phase conn) eqn:Hp; [|done]. destruct ready.
  - destruct (subscribe _ _ _) as [set s0] eqn:Hs. destruct (subscribed_ok c conn s set s0 Hok Hc Hp Hs) as [_ Hok1].
    cbv zeta. destruct (Connection.closed conn); [exact Hok1|].
    apply on_ok; [intros x _; exact (same_role_refl x)|]. by apply write_ok, on_ok; [intros x _; exact (same_role_refl x)|].
  - apply on_ok; [|by apply close_ok]. intros x Hx.
    assert (Hxc : Connection.closed x = true).
    { destruct (Connection.closed conn) eqn:Hcl; [unfold close in Hx; rewrite Hc, Hcl, Hc in Hx; congruence|].
      pose proof (ended_closed s Hok c conn Hc) as He. rewrite Hcl in He. destruct (close_open c conn s Hc Hcl He) as (Ec & _).
      rewrite Ec, lookup_insert_eq in Hx. by injection Hx as <-. }
    unfold same_role, streaming. cbn. rewrite Hxc. split_and!; try done. split; by intros [].
Qed.
Lemma dispatch_ok payload s : streams_ok s -> streams_ok (dispatch payload s).
Proof.
  intros Hok. unfold dispatch. destruct (payload ≫= _) as [[T e]|]; [|done]. destruct (listeners s !! T) as [set|]; [|done].
  generalize (default [] (sets s !! set)) at 1. intros l. revert s Hok. induction l as [|c l IH]; intros s Hok; [done|]. cbn [foldl].
  apply IH. case_match; [by apply write_ok|done].
Qed.
Lemma close_all_ok l s : streams_ok s -> streams_ok (foldl (fun s c => close c s) s l).
Proof. revert s. induction l as [|c l IH]; intros s Hok; [done|]. by apply IH, close_ok. Qed.

(** *** Shutting down *)
Lemma delete_from_absent c l : c ∉ l -> delete_from c l = l.
Proof.
  intros Hc. unfold delete_from. induction l as [|x l IH]; [done|]. rewrite filter_cons_True, IH; [done| |]; intros Hx; apply Hc; [by right|subst; by left].
Qed.
Lemma close_removes c s : streams_ok s -> connectionClosers (close c s) = delete_from c (connectionClosers s).
Proof.
  intros Hok. destruct (connections s !! c) as [conn|] eqn:Hc.
  - destruct (Connection.closed conn) eqn:Hcl.
    + unfold close. rewrite Hc, Hcl, delete_from_absent; [done|]. rewrite (closers_open s Hok). intros (x & Hx & Hx'). congruence.
    + pose proof (ended_closed s Hok c conn Hc) as He. rewrite Hcl in He. by destruct (close_open c conn s Hc Hcl He) as (_ & Ek & _).
  - unfold close. rewrite Hc, delete_from_absent; [done|]. rewrite (closers_open s Hok). intros (x & Hx & Hx'). congruence.
Qed.
Lemma close_all_closers l s x :
  streams_ok s -> x ∈ connectionClosers (foldl (fun s c => close c s) s l) <-> x ∈ connectionClosers s /\ x ∉ l.
Proof.
  revert s. induction l as [|c l IH]; intros s Hok; cbn [foldl].
  - split; [intros Hx; split; [done|by apply not_elem_of_nil]|tauto].
  - rewrite IH by by apply close_ok. rewrite close_removes, delete_from_elem, not_elem_of_cons by done. tauto.
Qed.
(** Without open connections nothing is left behind. *)
Lemma nobody_listens s : streams_ok s -> connectionClosers s = [] -> activeConnections s = 0 /\ listeners s = ∅.
Proof.
  intros Hok Hk. split; [by rewrite (counted s Hok), Hk|]. apply map_eq. intros T. rewrite lookup_empty.
  destruct (listeners s !! T) as [set|] eqn:HT; [|done]. destruct (named s Hok T set HT) as (l & Hl & Hne & _).
  destruct l as [|c l]; [done|]. destruct (sets_live s Hok set _ c Hl ltac:(by left)) as (conn & Hc & [_ Hcl] & _).
  assert (Hin : c ∈ connectionClosers s) by (apply (closers_open s Hok); by exists conn). rewrite Hk in Hin. by apply elem_of_nil in Hin.
Qed.
Lemma destroy_ok s : streams_ok s -> streams_ok (onModuleDestroy s) /\ connectionClosers (onModuleDestroy s) = [].
Proof.
  intros Hok. split; [|done]. unfold onModuleDestroy. set (s1 := foldl _ _ _).
  assert (Hok1 : streams_ok s1) by by apply close_all_ok.
  assert (Hk : connectionClosers s1 = []).
  { destruct (connectionClosers s1) as [|x l] eqn:E; [done|]. exfalso. assert (Hx : x ∈ connectionClosers s1) by (rewrite E; by left).
    apply close_all_closers in Hx; [tauto|done]. }
  destruct (nobody_listens s1 Hok1 Hk) as [_ Hl]. by apply (same_fields_ok s1).
Qed.
Lemma step_ok s e : streams_ok s -> streams_ok (step s e).
Proof.
  intros Hok. destruct e as [T|c ready|c|payload|c|]; cbn [step].
  - destruct (open T s) as [[c s']|] eqn:Ho; [|done]. by apply (open_ok T s c s').
  - by apply resume_ok.
  - by apply close_ok.
  - by apply dispatch_ok.
  - unfold tick_heartbeat. repeat case_match; [by apply write_ok|done..].
  - by apply destroy_ok.
Qed.
Lemma started_ok : streams_ok started.
Proof.
  assert (Hm : 1 <= maxConnections <= 100000) by (apply boundedInteger_range; unfold DEFAULT_MAX_CONNECTIONS; lia).
  split; cbn; try done; [lia|apply NoDup_nil_2|].
  intros c. rewrite lookup_empty. split; [by intros ?%elem_of_nil|by intros (? & ? & _)].
Qed.
Lemma steps_ok events s : streams_ok s -> streams_ok (foldl step s events).
Proof. revert s. induction events as [|e events IH]; intros s Hok; [done|]. by apply IH, step_ok. Qed.
End streams.
