(* ===== verification/StreamHistory.v ===== *)
(** What the clients of the inbox's event streams get: every event of their tenant once, nothing of other
    tenants, whatever the order in which clients come and go. *)
From stdpp Require Import prelude gmap strings.
From Stdlib Require Import ZArith Lia.
From S2P Require Import Prelude Json Numbers JsonText Io Realtime EventStreams.
#[local] Open Scope Z_scope.
Import Service.

Section history.
Context (Date_parse : string -> option Z) (setting : string -> option number) (accepts : nat -> bool).
#[local] Abbreviation streams_ok := (streams_ok setting).
#[local] Abbreviation step := (step Date_parse setting accepts).
#[local] Abbreviation dispatch := (dispatch Date_parse accepts).
#[local] Abbreviation write := (write accepts).
#[local] Abbreviation resume := (resume accepts).

(** ** Delivery *)
Lemma write_open c text s conn :
  streams_ok s -> connections s !! c = Some conn -> Connection.closed conn = false ->
  exists conn', connections (write c text s) = <[c := conn']> (connections s) /\
    Connection.sent conn' = Connection.sent conn ++ [text] /\ Connection.tenantId conn' = Connection.tenantId conn.
Proof.
  intros Hok Hc Hcl. pose proof (ended_closed _ s Hok c conn Hc) as He. rewrite Hcl in He.
  unfold EventStreams.write. rewrite Hc, Hcl, He. cbv zeta. cbn [orb].
  set (conn1 := conn <| Connection.sent ::= (fun l => l ++ [text]) |>). set (s1 := on c _ s <| writes ::= S |>).
  assert (Ec : connections s1 = <[c := conn1]> (connections s)) by exact (alter_some _ _ _ _ Hc).
  destruct (accepts (writes s)); [by exists conn1|].
  assert (Hc1 : connections s1 !! c = Some conn1) by (rewrite Ec; apply lookup_insert_eq).
  destruct (close_open c conn1 s1 Hc1 Hcl He) as (Ec2 & _). exists (closed_connection conn1). split; [|done].
  by rewrite Ec2, Ec, insert_insert_eq.
Qed.

(** The listeners [l] are in the set and have not had their turn. *)
Lemma dispatch_loop text set l s :
  streams_ok s -> NoDup l ->
  (forall c, c ∈ l -> exists conn, connections s !! c = Some conn /\ streaming conn /\ Connection.unsubscribe conn = Some set) ->
  let s' := foldl (fun s c => if bool_decide (c ∈ default [] (sets s !! set)) then write c text s else s) s l in
  forall c, ((c ∉ l) /\ connections s' !! c = connections s !! c) \/
    (c ∈ l /\ exists conn conn', connections s !! c = Some conn /\ connections s' !! c = Some conn' /\
       Connection.sent conn' = Connection.sent conn ++ [text] /\ Connection.tenantId conn' = Connection.tenantId conn).
Proof.
  revert s. induction l as [|x l IH]; intros s Hok Hnd Hl s' c; cbn [foldl] in s'; [left; split; [apply not_elem_of_nil|done]|].
  apply NoDup_cons in Hnd as [Hx Hnd]. destruct (Hl x ltac:(by left)) as (conn & Hc & Hst & Hu).
  destruct (heard _ s Hok x conn Hc Hst) as (set' & l' & Hu' & _ & Hset & Hin). assert (set' = set) as -> by congruence.
  subst s'. rewrite Hset, bool_decide_true by done.
  destruct (write_open x text s conn Hok Hc (proj2 Hst)) as (conn1 & Ec & Es & Et). set (s1 := write x text s) in *.
  assert (Hother : forall y, y <> x -> connections s1 !! y = connections s !! y) by (intros y Hy; rewrite Ec; by apply lookup_insert_ne).
  assert (Hl1 : forall y, y ∈ l -> exists cy, connections s1 !! y = Some cy /\ streaming cy /\ Connection.unsubscribe cy = Some set).
  { intros y Hy. rewrite Hother by congruence. apply Hl. by right. }
  destruct (IH s1 ltac:(by apply write_ok) Hnd Hl1 c) as [[Hn E]|(Hcl & c0 & c1 & H1 & H2 & H3)].
  - destruct (decide (c = x)) as [->|Hne].
    + right. split; [by left|]. exists conn, conn1. rewrite E, Ec, lookup_insert_eq. done.
    + left. split; [by rewrite not_elem_of_cons|]. by rewrite E, Hother.
  - right. split; [by right|]. exists c0, c1. rewrite <- Hother by congruence. done.
Qed.

Definition delivered (T text : string) (s s' : Service.t) : Prop :=
  (forall c, connections s !! c = None -> connections s' !! c = None) /\
  forall c conn, connections s !! c = Some conn ->
    exists conn', connections s' !! c = Some conn' /\ Connection.tenantId conn' = Connection.tenantId conn /\
      ((streaming conn /\ Connection.tenantId conn = T /\ Connection.sent conn' = Connection.sent conn ++ [text]) \/
       (~ (streaming conn /\ Connection.tenantId conn = T) /\ conn' = conn)).
Lemma dispatch_live payload T e s :
  streams_ok s -> payload ≫= safeEnvelope Date_parse = Some (T, e) -> delivered T (frame e) s (dispatch payload s).
Proof.
  intros Hok Hp. unfold EventStreams.dispatch. rewrite Hp. destruct (listeners s !! T) as [set|] eqn:HT.
  - destruct (named _ s Hok T set HT) as (l & Hset & _ & Hn). rewrite Hset. change (default [] (Some l)) with l.
    assert (Hl : forall x, x ∈ l -> exists cx, connections s !! x = Some cx /\ streaming cx /\ Connection.unsubscribe cx = Some set)
      by (intros x Hx; by apply (sets_live _ s Hok set l)).
    pose proof (dispatch_loop (frame e) set l s Hok (sets_once _ s Hok set l Hset) Hl) as Hd. split.
    + intros c Hc. destruct (Hd c) as [[_ ->]|(_ & c0 & _ & Hc0 & _)]; congruence.
    + intros c conn Hc. destruct (Hd c) as [[Hnin E]|(Hin & c0 & c1 & H1 & H2 & H3 & H4)].
      * exists conn. rewrite E. split; [done|]. split; [done|]. right. split; [|done]. intros [Hst Ht].
        destruct (heard _ s Hok c conn Hc Hst) as (set' & l' & _ & HT' & Hset' & Hin). congruence.
      * assert (c0 = conn) as -> by congruence. exists c1. split; [done|]. split; [done|]. left.
        destruct (Hl c Hin) as (cx & Hcx & Hst & _). assert (cx = conn) as -> by congruence. split; [done|]. split; [|done]. by apply (Hn c).
  - split; [done|]. intros c conn Hc. exists conn. split; [done|]. split; [done|]. right. split; [|done]. intros [Hst Ht].
    destruct (heard _ s Hok c conn Hc Hst) as (set & l & _ & HT' & _). congruence.
Qed.

(** An event for a tenant that arrives on the channel is written exactly once to each open stream of that tenant, and no
    other stream sees anything of it; a stream whose client does not take the frame is closed without keeping the
    others from theirs. *)
Theorem dispatch_delivers events payload T e (Hp : payload ≫= safeEnvelope Date_parse = Some (T, e)) :
  let s := foldl step started events in delivered T (frame e) s (step s (Message payload)).
Proof. intros s. by apply dispatch_live; [apply steps_ok, started_ok|]. Qed.

(** ** Isolation *)
(** What arrived on the channel for whom. *)
Definition arrived (events : list event) : list (string * string) :=
  omap (fun e => match e with
                 | Message payload => prod_map id frame <$> payload ≫= safeEnvelope Date_parse
                 | _ => None
                 end) events.
Definition own_frame (log : list (string * string)) (T f : string) : Prop := f = connected \/ f = heartbeat_frame \/ (T, f) ∈ log.
Definition isolated (log : list (string * string)) (s : Service.t) : Prop :=
  forall c conn f, connections s !! c = Some conn -> f ∈ Connection.sent conn -> own_frame log (Connection.tenantId conn) f.

Lemma isolated_connections log s s' : connections s' = connections s -> isolated log s -> isolated log s'.
Proof. intros E Hi c conn f. rewrite E. apply Hi. Qed.
Lemma isolated_on log c f s :
  (forall x, Connection.sent (f x) = Connection.sent x /\ Connection.tenantId (f x) = Connection.tenantId x) ->
  isolated log s -> isolated log (on c f s).
Proof.
  intros Hf Hi x conn text. unfold on. cbn. destruct (decide (c = x)) as [<-|]; [rewrite lookup_alter_eq|rewrite lookup_alter_ne by done; exact (Hi x conn text)].
  destruct (connections s !! c) as [y|] eqn:Hy; [|done]. cbn. intros [= <-]. destruct (Hf y) as [-> ->]. exact (Hi c y text Hy).
Qed.
Lemma isolated_close log c s : streams_ok s -> isolated log s -> isolated log (close c s).
Proof.
  intros Hok Hi. destruct (connections s !! c) as [conn|] eqn:Hc; [|by unfold close; rewrite Hc].
  destruct (Connection.closed conn) eqn:Hcl; [by unfold close; rewrite Hc, Hcl|].
  pose proof (ended_closed _ s Hok c conn Hc) as He. rewrite Hcl in He. destruct (close_open c conn s Hc Hcl He) as (Ec & _).
  intros x cx f. rewrite Ec. intros [[<- <-]|[_ Hx]]%lookup_insert_Some; [exact (Hi c conn f Hc)|exact (Hi x cx f Hx)].
Qed.
Lemma isolated_write log c text s :
  streams_ok s -> (forall conn, connections s !! c = Some conn -> own_frame log (Connection.tenantId conn) text) ->
  isolated log s -> isolated log (write c text s).
Proof.
  intros Hok Ht Hi. destruct (connections s !! c) as [conn|] eqn:Hc; [|by unfold EventStreams.write; rewrite Hc].
  destruct (Connection.closed conn) eqn:Hcl.
  - unfold EventStreams.write. rewrite Hc, Hcl. cbn [orb]. by apply isolated_close.
  - destruct (write_open c text s conn Hok Hc Hcl) as (conn' & Ec & Es & Et). intros x cx f. rewrite Ec.
    intros [[<- <-]|[_ Hx]]%lookup_insert_Some; [|exact (Hi x cx f Hx)]. rewrite Es, Et. intros [Hf| ->%list_elem_of_singleton]%elem_of_app; [by apply (Hi c conn)|by apply Ht].
Qed.
Lemma isolated_resume log c ready s : streams_ok s -> isolated log s -> isolated log (resume c ready s).
Proof.
  intros Hok Hi. unfold EventStreams.resume. destruct (connections s !! c) as [conn|] eqn:Hc; [|done].
  destruct (Connection.phase conn) eqn:Hp; [|done]. destruct ready; [|by apply isolated_on, isolated_close].
  destruct (subscribe _ _ _) as [set s0] eqn:Hs. destruct (subscribed_ok setting c conn s set s0 Hok Hc Hp Hs) as [Ec Hok1].
  cbv zeta. set (s1 := on c _ s0) in *. assert (Hi1 : isolated log s1).
  { intros x cx f. rewrite Ec. intros [[<- <-]|[_ Hx]]%lookup_insert_Some; [exact (Hi c conn f Hc)|exact (Hi x cx f Hx)]. }
  destruct (Connection.closed conn).
  - destruct (unsubscribe_fields (Connection.tenantId conn) c set s1) as (F & _). by eapply isolated_connections.
  - apply isolated_on; [done|]. apply isolated_write; [by apply on_ok; [intros x _; exact (same_role_refl x)|]|by left|by apply isolated_on].
Qed.
Lemma isolated_mono log log' s : log ⊆ log' -> isolated log s -> isolated log' s.
Proof. intros Hl Hi c conn f Hc Hf. destruct (Hi c conn f Hc Hf) as [?|[?|?]]; [by left|by right; left|right; right; by apply Hl]. Qed.
Lemma isolated_step log s e :
  streams_ok s -> isolated log s -> isolated (log ++ arrived [e]) (step s e).
Proof.
  intros Hok Hi. assert (Hi' : isolated (log ++ arrived [e]) s) by by apply (isolated_mono log); [apply list_subseteq_app_l|].
  destruct e as [T|c ready|c|payload|c|]; cbn [EventStreams.step].
  - destruct (open setting T s) as [[c s']|] eqn:Ho; [|done]. destruct (open_ok setting T s c s' Hok Ho) as (_ & Hc & Ec & _).
    intros x cx f. rewrite Ec. intros [[<- <-]|[_ Hx]]%lookup_insert_Some; [by intros ?%elem_of_nil|exact (Hi' x cx f Hx)].
  - by apply isolated_resume.
  - by apply isolated_close.
  - destruct (payload ≫= safeEnvelope Date_parse) as [[T e]|] eqn:Hp; [|by unfold EventStreams.dispatch; rewrite Hp].
    destruct (dispatch_live payload T e s Hok Hp) as [Hd0 Hd]. intros c conn' f Hc' Hf. destruct (connections s !! c) as [conn|] eqn:Hc.
    + destruct (Hd c conn Hc) as (conn1 & Hc1 & Ht & Hd1). assert (conn1 = conn') as -> by congruence. rewrite Ht.
      destruct Hd1 as [(_ & HT & Es)|[_ ->]]; [|by apply (Hi' c)]. rewrite Es in Hf.
      apply elem_of_app in Hf as [Hf| ->%list_elem_of_singleton]; [by apply (Hi' c)|]. right; right. rewrite HT. apply elem_of_app. right.
      unfold arrived. cbn. rewrite Hp. by left.
    + rewrite (Hd0 c Hc) in Hc'. done.
  - unfold tick_heartbeat. destruct (connections s !! c) as [conn|] eqn:Hc; [|done]. destruct (Connection.heartbeat conn); [|done].
    apply isolated_write; [done|by right; left|done].
  - unfold onModuleDestroy. eapply isolated_connections with (s := foldl (fun s c => close c s) s (connectionClosers s)); [done|].
    generalize (connectionClosers s) as l. intros l. revert s Hok Hi Hi'. induction l as [|c l IH]; intros s Hok Hi Hi'; [done|].
    cbn [foldl]. apply IH; [by apply close_ok|by apply isolated_close..].
Qed.
Lemma isolated_steps events s log :
  streams_ok s -> isolated log s -> isolated (log ++ arrived events) (foldl step s events).
Proof.
  revert s log. induction events as [|e events IH]; intros s log Hok Hi; cbn [foldl]; [by rewrite app_nil_r|].
  replace (log ++ arrived (e :: events)) with ((log ++ arrived [e]) ++ arrived events).
  - apply IH; [by apply step_ok|by apply isolated_step].
  - rewrite <- app_assoc. f_equal. unfold arrived. cbn. by case_match.
Qed.

Lemma arrived_one_event events T f : (T, f) ∈ arrived events -> one_event f.
Proof.
  unfold arrived. intros (e & _ & He)%list_elem_of_omap. destruct e as [| | |payload| |]; try done.
  destruct payload as [v|]; cbn in He; [|done]. destruct (safeEnvelope Date_parse v) as [[T' e]|] eqn:E; cbn in He; [|done].
  injection He as _ <-. apply safeEnvelope_clean in E as [? ?]. by apply frame_one_event.
Qed.

(** C16: Whatever the order in which clients connect, subscribe, fail to, leave or stop reading, in which events arrive and
    the service is shut down: the count of connections is that of the open ones and never beyond the maximum, exactly the open
    ones are closed at shutdown, an open stream listens in the one set of its tenant and nothing else does; without open
    connections no listener and no count is left; and a client was only ever sent comments and the
    events that arrived for its own tenant. *)
Theorem stream_history events :
  let s := foldl step started events in
  streams_ok s /\ activeConnections s = Z.of_nat (length (connectionClosers s)) /\ activeConnections s <= maxConnections setting /\
  ((forall c conn, connections s !! c = Some conn -> Connection.closed conn = true) -> activeConnections s = 0 /\ listeners s = ∅) /\
  forall c conn f, connections s !! c = Some conn -> f ∈ Connection.sent conn ->
    f = connected \/ f = heartbeat_frame \/ ((Connection.tenantId conn, f) ∈ arrived events /\ one_event f).
Proof.
  intros s. pose proof (started_ok setting) as H0. assert (Hok : streams_ok s) by by apply steps_ok.
  split; [done|]. split; [apply (counted _ s Hok)|]. split; [apply (bounded _ s Hok)|]. split.
  - intros Hcl. apply (nobody_listens setting s Hok). destruct (connectionClosers s) as [|c l] eqn:E; [done|].
    destruct (proj1 (closers_open _ s Hok c) ltac:(rewrite E; by left)) as (conn & Hc & Ho). by rewrite (Hcl c conn Hc) in Ho.
  - intros c conn f Hc Hf. assert (Hi : isolated (arrived events) s).
    { apply (isolated_steps events started []); [done|]. intros c0 conn0 f0 Hc0. cbn in Hc0. by rewrite lookup_empty in Hc0. }
    destruct (Hi c conn f Hc Hf) as [?|[?|Ha]]; [by left|by right; left|right; right]. split; [done|]. by eapply arrived_one_event.
Qed.

(** ** From the publisher to the client *)
(** C17: Publishing never fails its caller.  What it sends, if anything, is one message; when that arrives and JSON.parse reads
    back what JSON.stringify wrote, every open stream of the tenant gets exactly the published event once, cleaned to the allowed
    fields, and no other stream gets anything, whatever happened to the streams before. *)
Theorem published_is_dispatched connects publishes randomUUID Date_now (JSON_parse : string -> option json) events tenantId type data (p : Publisher.t)
    (Ht : UUID tenantId = true) (Hu : forall n, UUID (randomUUID n) = true) (Hty : type ∈ INBOX_EVENT_TYPES)
    (Hd : forall n, is_Some (Date_parse (JsDate.toISOString (Date_now n))) /\ JsDate.toISOString (Date_now n) <> ""%string)
    (Hj : forall n, let v := envelope tenantId (new_event randomUUID Date_now type data n) in JSON_parse (stringify v) = Some v) :
  let s := foldl step started events in
  let '(r, p') := publish connects publishes randomUUID Date_now tenantId type data p in
  r = Ok tt /\
  (Publisher.sent p' = Publisher.sent p \/
   exists payload event, Publisher.sent p' = Publisher.sent p ++ [(CHANNEL, payload)] /\
     InboxRealtimeEvent.type event = type /\ InboxRealtimeEvent.data event = safeData (Some (JObj data)) /\
     delivered tenantId (frame event) s (step s (Message (JSON_parse payload)))).
Proof.
  intros s. set (event := new_event randomUUID Date_now type data (Publisher.uses p)).
  assert (Hsent : JSON_parse (stringify (envelope tenantId event)) ≫= safeEnvelope Date_parse = Some (tenantId, event)).
  { pose proof (Hj (Publisher.uses p)) as Hjp. cbv zeta in Hjp. fold event in Hjp. rewrite Hjp. destruct (Hd (Publisher.uses p)).
    by apply published_roundtrip. }
  assert (Hdel : delivered tenantId (frame event) s (step s (Message (JSON_parse (stringify (envelope tenantId event)))))).
  { by apply dispatch_live; [apply steps_ok, started_ok|]. }
  destruct (publish _ _ _ _ _ _ _ p) as [r p'] eqn:Hp. apply publish_ends in Hp as [-> [Hp|Hp]]; (split; [done|]); [by left|right].
  exists (stringify (envelope tenantId event)), event. by rewrite Hp.
Qed.
End history.

(** ** A day of streams *)
#[local] Open Scope string_scope.
Definition tenant_t : string := "11111111-1111-4111-8111-111111111111".
Definition tenant_u : string := "22222222-2222-4222-8222-222222222222".
Definition some_id (_ : nat) : string := "33333333-3333-4333-8333-333333333333".
Definition unread : list (string * json) := [("unreadCount", JNum (Whole 2)); ("body", JStr "secret")].
Definition updated_event : InboxRealtimeEvent.t := new_event some_id (fun _ => 0) "conversation.updated" unread 0.
(** A parser that knows one text. *)
Definition parse_it (s : string) : option json :=
  if bool_decide (s = stringify (envelope tenant_t updated_event)) then Some (envelope tenant_t updated_event) else None.
Definition iso_date (s : string) : option Z := if bool_decide (s = JsDate.toISOString 0) then Some 0 else None.
(** Two clients of one tenant and one of another; the first leaves while it is waiting. *)
Definition morning : list event :=
  [Open tenant_t; Open tenant_t; Open tenant_u; RequestClosed 0; Resume 0 true; Resume 1 true; Resume 2 true].
Definition no_setting (_ : string) : option number := None.

Lemma dispatch_delivers_witness :
  let s := foldl (step iso_date no_setting (fun _ => true)) started morning in
  let s' := step iso_date no_setting (fun _ => true) s (Message (Some (envelope tenant_t updated_event))) in
  (Connection.sent <$> connections s' !! 1%nat) = Some [connected; frame updated_event] /\
  (Connection.sent <$> connections s' !! 2%nat) = Some [connected] /\ activeConnections s' = 2%Z /\
  delivered tenant_t (frame updated_event) s s'.
Proof.
  assert (Hp : Some (envelope tenant_t updated_event) ≫= safeEnvelope iso_date = Some (tenant_t, updated_event)) by (vm_compute; reflexivity).
  intros s s'. split; [vm_compute; reflexivity|]. split; [vm_compute; reflexivity|]. split; [vm_compute; reflexivity|].
  exact (dispatch_delivers iso_date no_setting (fun _ => true) morning (Some (envelope tenant_t updated_event)) tenant_t updated_event Hp).
Defined.
Lemma published_is_dispatched_witness :
  let '(r, p') := publish (fun _ => true) (fun _ => true) some_id (fun _ => 0%Z) tenant_t "conversation.updated" unread (Publisher.make Waiting [] 0) in
  r = Ok tt /\ length (Publisher.sent p') = 1%nat.
Proof.
  assert (Ht : UUID tenant_t = true) by (vm_compute; reflexivity).
  assert (Hu : forall n, UUID (some_id n) = true) by (intros n; vm_compute; reflexivity).
  assert (Hty : "conversation.updated" ∈ INBOX_EVENT_TYPES) by (apply (bool_decide_unpack _); vm_compute; exact I).
  assert (Hd : forall n : nat, is_Some (iso_date (JsDate.toISOString ((fun _ => 0%Z) n))) /\ JsDate.toISOString ((fun _ => 0%Z) n) <> "").
  { intros n. split; [apply (bool_decide_unpack _); vm_compute; exact I|vm_compute; discriminate]. }
  assert (Hj : forall n, let v := envelope tenant_t (new_event some_id (fun _ => 0%Z) "conversation.updated" unread n) in parse_it (stringify v) = Some v)
    by (intros n; vm_compute; reflexivity).
  pose proof (published_is_dispatched iso_date no_setting (fun _ => true) (fun _ => true) (fun _ => true) some_id (fun _ => 0%Z) parse_it morning
    tenant_t "conversation.updated" unread (Publisher.make Waiting [] 0) Ht Hu Hty Hd Hj) as Hp.
  cbv zeta in Hp.
  destruct (publish _ _ _ _ _ _ _ _) as [r p'] eqn:E. destruct Hp as [Hr _]. split; [exact Hr|].
  apply (f_equal snd) in E. cbn [snd] in E. rewrite <- E. vm_compute. reflexivity.
Defined.

(** When the subscriber is not ready the client is answered 200, not the 503 the code throws: [close] has
    ended the response, and that sent its head. *)
Example subscription_failure_answers_200 :
  let s := foldl (step iso_date no_setting (fun _ => true)) started [Open tenant_t; Resume 0 false] in
  (Connection.status <$> connections s !! 0%nat) = Some (Some 200%Z).
Proof. vm_compute. reflexivity. Qed.
(** A stream whose first write is not taken is closed, but its heartbeat is started after that and never stopped. *)
Example heartbeat_after_close :
  let s := foldl (step iso_date no_setting (fun _ => false)) started [Open tenant_t; Resume 0 true; Heartbeat 0; RequestClosed 0; ModuleDestroy] in
  (fun x => (Connection.closed x, Connection.heartbeat x)) <$> connections s !! 0%nat = Some (true, true).
Proof. vm_compute. reflexivity. Qed.
