(* ===== verification/InboxAgents.v ===== *)
(** The agents of the inbox: [createAgent], [listAgents] and [updateAgent] of [inbox/inbox.service.ts],
    with the text checks the inbox services share. *)
From stdpp Require Import prelude gmap strings sorting.
From Stdlib Require Import ZArith Lia.
From S2P Require Import Prelude Json Io Prisma Domain Tables AuditTrail Segments Senders Auth.
#[local] Open Scope Z_scope.

Definition requiredText (value label : string) : exec js_error string :=
  match JsString.trim value with
  | EmptyString => Throws (BadRequestException (label +:+ " cannot be blank"))
  | normalized => Ok normalized
  end.
Definition optionalText (value : option string) : option string := truthy (JsString.trim <$> value).
(** [value === undefined ? {} : { column: this.requiredText(value, label) }] *)
Definition givenText (value : option string) (label : string) : exec js_error (option string) :=
  match value with None => Ok None | Some v => normalized ← requiredText v label; Ok (Some normalized) end.
(** [value === undefined ? {} : { column: value }], where the value may be [null]. *)
Definition given_null {A} (v : option (option A)) (old : option A) : option A := default old v.

(** The fields of a request that are not [undefined]. *)
Definition set_fields (source : list (string * bool)) : list string := changedFields source (fun _ => None).
Definition is_given {A} (v : option A) : bool := match v with Some _ => true | None => false end.

Module CreateInboxAgentDto.
Record t := make {
  name : string;
  externalId : option string;
  email : option string;
  presenceStatus : option InboxAgentPresenceStatus.t;
  maxConcurrentConversations : option (option Z);
  metadata : option json
}.
End CreateInboxAgentDto.
Module UpdateInboxAgentDto.
Record t := make {
  name : option string;
  externalId : option string;
  email : option string;
  active : option bool;
  presenceStatus : option InboxAgentPresenceStatus.t;
  maxConcurrentConversations : option (option Z);
  metadata : option json
}.
Definition fields (d : t) : list (string * bool) :=
  [("name", is_given (name d)); ("externalId", is_given (externalId d)); ("email", is_given (email d));
   ("active", is_given (active d)); ("presenceStatus", is_given (presenceStatus d));
   ("maxConcurrentConversations", is_given (maxConcurrentConversations d)); ("metadata", is_given (metadata d))]%string.
End UpdateInboxAgentDto.

(** [orderBy: [{ active: "desc" }, { name: "asc" }, { id: "asc" }]] *)
Definition active_first {R} (active : R -> bool) (name : R -> string) (a b : string * R) : Prop :=
  (active a.2 = true /\ active b.2 = false) \/
  (active a.2 = active b.2 /\ JsString.le (name a.2) (name b.2) /\ (name a.2 = name b.2 -> JsString.le a.1 b.1)).
#[export] Instance active_first_dec {R} (active : R -> bool) (name : R -> string) : RelDecision (active_first active name).
Proof. intros a b. unfold active_first. apply _. Defined.

Section agents.
Context `{Prisma} `{Environment}.

(** The handler of P2002. *)
Definition or_conflict {A} (message : string) (m : io World A) : io World A :=
  try_catch m (fun error => match error with
                            | KnownRequestError "P2002" _ => throw (ConflictException message)
                            | _ => throw error
                            end).

Abbreviation agent_of := (of_tenant InboxAgent.tenantId).

Definition createAgent_body (actor : MutationActor.t) (name : string) (externalId email : option string)
    (dto : CreateInboxAgentDto.t) (context : option AuditRequestContext) : io World (string * InboxAgent.t) :=
  presenceUpdatedAt ← now;
  agent ← create_row agent_unique
    {| InboxAgent.tenantId := MutationActor.tenantId actor; InboxAgent.externalId := externalId;
       InboxAgent.name := name; InboxAgent.email := email; InboxAgent.active := true;
       InboxAgent.presenceStatus := default InboxAgentPresenceStatus.AVAILABLE (CreateInboxAgentDto.presenceStatus dto);
       InboxAgent.presenceUpdatedAt := presenceUpdatedAt;
       InboxAgent.maxConcurrentConversations := default None (CreateInboxAgentDto.maxConcurrentConversations dto);
       InboxAgent.metadata := CreateInboxAgentDto.metadata dto |};
  _ ← write_audit (auditLogData actor context "inbox.agent.created" "InboxAgent" (Some agent.1) (Some (JObj
         [("hasExternalId", JBool (bool_decide (is_Some externalId))); ("hasEmail", JBool (bool_decide (is_Some email)));
          ("hasMetadata", JBool (is_given (CreateInboxAgentDto.metadata dto)))]%string)));
  mret agent.
Definition createAgent (principal : Principal.t) (dto : CreateInboxAgentDto.t) (context : option AuditRequestContext)
    : io World (string * InboxAgent.t) :=
  name ← lift (requiredText (CreateInboxAgentDto.name dto) "Agent name");
  let externalId := optionalText (CreateInboxAgentDto.externalId dto) in
  let email := JsString.toLowerCase <$> optionalText (CreateInboxAgentDto.email dto) in
  or_conflict "An inbox agent with that external ID already exists"
    (transaction (createAgent_body (Principal.actor principal) name externalId email dto context)).

Definition listAgents (tenantId : string) (active : option bool) : io World (list (string * InboxAgent.t)) :=
  agents ← find_rows (fun _ a => bool_decide (InboxAgent.tenantId a = tenantId) &&
                                 match active with None => true | Some b => Bool.eqb (InboxAgent.active a) b end);
  mret (merge_sort (active_first InboxAgent.active InboxAgent.name) agents).

Definition agent_data (dto : UpdateInboxAgentDto.t) (name externalId email : option string) (presenceUpdatedAt : Z)
    (a : InboxAgent.t) : InboxAgent.t :=
  let a := a <| InboxAgent.name ::= given name |>
             <| InboxAgent.externalId ::= given_some externalId |>
             <| InboxAgent.email ::= given_some (JsString.toLowerCase <$> email) |>
             <| InboxAgent.active ::= given (UpdateInboxAgentDto.active dto) |>
             <| InboxAgent.maxConcurrentConversations ::= given_null (UpdateInboxAgentDto.maxConcurrentConversations dto) |>
             <| InboxAgent.metadata ::= given_some (UpdateInboxAgentDto.metadata dto) |> in
  match UpdateInboxAgentDto.presenceStatus dto with
  | None => a
  | Some s => a <| InboxAgent.presenceStatus := s |> <| InboxAgent.presenceUpdatedAt := presenceUpdatedAt |>
  end.
Definition updateAgent_body (actor : MutationActor.t) (id : string) (dto : UpdateInboxAgentDto.t)
    (context : option AuditRequestContext) : io World InboxAgent.t :=
  existing ← find_row (agent_of id (MutationActor.tenantId actor));
  _ ← found (NotFoundException "Inbox agent not found") existing;
  name ← lift (givenText (UpdateInboxAgentDto.name dto) "Agent name");
  externalId ← lift (givenText (UpdateInboxAgentDto.externalId dto) "External ID");
  email ← lift (givenText (UpdateInboxAgentDto.email dto) "Email");
  presenceUpdatedAt ← now;
  agent ← update_row agent_unique id (agent_data dto name externalId email presenceUpdatedAt);
  _ ← write_audit (auditLogData actor context "inbox.agent.updated" "InboxAgent" (Some id) (Some (JObj
         [("changedFields", JArr (JStr <$> set_fields (UpdateInboxAgentDto.fields dto)));
          ("active", JBool (InboxAgent.active agent))]%string)));
  mret agent.
Definition updateAgent (principal : Principal.t) (id : string) (dto : UpdateInboxAgentDto.t)
    (context : option AuditRequestContext) : io World InboxAgent.t :=
  if bool_decide (set_fields (UpdateInboxAgentDto.fields dto) = []) then
    throw (BadRequestException "At least one agent field must be provided")
  else or_conflict "An inbox agent with that external ID already exists"
         (transaction (updateAgent_body (Principal.actor principal) id dto context)).
End agents.
