(* ===== verification/InboxTeams.v ===== *)
(** The teams of the inbox and their members ([inbox/inbox-teams.service.ts]). *)
From stdpp Require Import prelude gmap strings sorting.
From Stdlib Require Import ZArith Lia.
From S2P Require Import Prelude Json Io Prisma Domain Tables AuditTrail Segments Senders Auth InboxAgents.
#[local] Open Scope Z_scope.

Module CreateInboxTeamDto.
Record t := make { name : string; description : option string; responseSlaMinutes : option (option Z) }.
End CreateInboxTeamDto.
Module UpdateInboxTeamDto.
Record t := make {
  name : option string;
  description : option string;
  active : option bool;
  responseSlaMinutes : option (option Z)
}.
Definition fields (d : t) : list (string * bool) :=
  [("name", is_given (name d)); ("description", is_given (description d)); ("active", is_given (active d));
   ("responseSlaMinutes", is_given (responseSlaMinutes d))]%string.
End UpdateInboxTeamDto.

(** A number of the audit metadata, or [null]. *)
Definition nullable_json (v : option Z) : json := match v with Some n => JNum (Whole n) | None => JNull end.
(** [`${a}:${b}`], the id of a pair in the audit trail. *)
Definition pair_id (a b : string) : string := a +:+ ":" +:+ b.

(** [orderBy: [{ createdAt: "asc" }, { agentId: "asc" }]] *)
Definition joined_first (a b : InboxTeamMember.t) : Prop :=
  InboxTeamMember.createdAt a < InboxTeamMember.createdAt b \/
  (InboxTeamMember.createdAt a = InboxTeamMember.createdAt b /\
   JsString.le (InboxTeamMember.agentId a) (InboxTeamMember.agentId b)).
#[export] Instance joined_first_dec : RelDecision joined_first.
Proof. intros a b. unfold joined_first. apply _. Defined.

Section teams.
Context `{Prisma} `{Environment}.
Abbreviation team_of := (of_tenant InboxTeam.tenantId).
Abbreviation agent_of := (of_tenant InboxAgent.tenantId).

Definition createTeam_body (actor : MutationActor.t) (name : string) (description : option string)
    (dto : CreateInboxTeamDto.t) (context : option AuditRequestContext) : io World (string * InboxTeam.t) :=
  team ← create_row team_unique
    {| InboxTeam.tenantId := MutationActor.tenantId actor; InboxTeam.name := name; InboxTeam.description := description;
       InboxTeam.active := true;
       InboxTeam.responseSlaMinutes := default None (CreateInboxTeamDto.responseSlaMinutes dto) |};
  _ ← write_audit (auditLogData actor context "inbox.team.created" "InboxTeam" (Some team.1) (Some (JObj
         [("hasDescription", JBool (bool_decide (is_Some description)));
          ("responseSlaMinutes", nullable_json (InboxTeam.responseSlaMinutes team.2))]%string)));
  mret team.
Definition createTeam (principal : Principal.t) (dto : CreateInboxTeamDto.t) (context : option AuditRequestContext)
    : io World (string * InboxTeam.t) :=
  name ← lift (requiredText (CreateInboxTeamDto.name dto) "Team name");
  let description := optionalText (CreateInboxTeamDto.description dto) in
  or_conflict "An inbox team with that name already exists"
    (transaction (createTeam_body (Principal.actor principal) name description dto context)).

Definition listTeams (tenantId : string) (active : option bool) : io World (list (string * InboxTeam.t)) :=
  teams ← find_rows (fun _ t => bool_decide (InboxTeam.tenantId t = tenantId) &&
                                match active with None => true | Some b => Bool.eqb (InboxTeam.active t) b end);
  mret (merge_sort (active_first InboxTeam.active InboxTeam.name) teams).

(** A team with its members: a membership whose agent is not found is left out. *)
Definition findTeam (tenantId id : string)
    : io World (InboxTeam.t * list (InboxTeamMember.t * InboxAgent.t)) :=
  team ← find_row (team_of id tenantId);
  team ← found (NotFoundException "Inbox team not found") team;
  memberships ← find_rows (fun _ m => bool_decide (InboxTeamMember.tenantId m = tenantId) &&
                                      bool_decide (InboxTeamMember.teamId m = id));
  let memberships := merge_sort joined_first memberships.*2 in
  agents ← (match memberships with
            | [] => mret []
            | _ => find_rows (fun k a => bool_decide (InboxAgent.tenantId a = tenantId) &&
                                         bool_decide (k ∈ InboxTeamMember.agentId <$> memberships))
            end);
  let agentsById : gmap string InboxAgent.t := list_to_map agents in
  mret (team.2, omap (fun m => agent ← agentsById !! InboxTeamMember.agentId m; Some (m, agent)) memberships).

Definition team_data (dto : UpdateInboxTeamDto.t) (name : option string) (t : InboxTeam.t) : InboxTeam.t :=
  t <| InboxTeam.name ::= given name |>
    <| InboxTeam.description ::= given_null (optionalText ∘ Some <$> UpdateInboxTeamDto.description dto) |>
    <| InboxTeam.active ::= given (UpdateInboxTeamDto.active dto) |>
    <| InboxTeam.responseSlaMinutes ::= given_null (UpdateInboxTeamDto.responseSlaMinutes dto) |>.
Definition updateTeam_body (actor : MutationActor.t) (id : string) (dto : UpdateInboxTeamDto.t)
    (context : option AuditRequestContext) : io World InboxTeam.t :=
  existing ← find_row (team_of id (MutationActor.tenantId actor));
  _ ← found (NotFoundException "Inbox team not found") existing;
  name ← lift (givenText (UpdateInboxTeamDto.name dto) "Team name");
  team ← update_row team_unique id (team_data dto name);
  _ ← write_audit (auditLogData actor context "inbox.team.updated" "InboxTeam" (Some id) (Some (JObj
         [("changedFields", JArr (JStr <$> set_fields (UpdateInboxTeamDto.fields dto)));
          ("active", JBool (InboxTeam.active team));
          ("responseSlaMinutes", nullable_json (InboxTeam.responseSlaMinutes team))]%string)));
  mret team.
Definition updateTeam (principal : Principal.t) (id : string) (dto : UpdateInboxTeamDto.t)
    (context : option AuditRequestContext) : io World InboxTeam.t :=
  if bool_decide (set_fields (UpdateInboxTeamDto.fields dto) = []) then
    throw (BadRequestException "At least one team field must be provided")
  else or_conflict "An inbox team with that name already exists"
         (transaction (updateTeam_body (Principal.actor principal) id dto context)).

Definition addMember_body (actor : MutationActor.t) (teamId agentId : string) (context : option AuditRequestContext)
    : io World unit :=
  let tenantId := MutationActor.tenantId actor in
  team ← find_row (team_of teamId tenantId);
  _ ← found (NotFoundException "Inbox team not found") team;
  agent ← find_row (agent_of agentId tenantId);
  agent ← found (UnprocessableEntityException "Inbox agent is not in this tenant") agent;
  if negb (InboxAgent.active agent.2) then
    throw (UnprocessableEntityException "Inbox agent must be active to join a team")
  else
    createdAt ← now;
    inserted ← createMany_row member_unique (InboxTeamMember.make tenantId teamId agentId createdAt);
    if Nat.eqb inserted 0 then mret tt else
    write_audit (auditLogData actor context "inbox.team.member.added" "InboxTeamMember"
                   (Some (pair_id teamId agentId)) None).
Definition addMember (principal : Principal.t) (teamId agentId : string) (context : option AuditRequestContext)
    : io World (InboxTeam.t * list (InboxTeamMember.t * InboxAgent.t)) :=
  _ ← transaction (addMember_body (Principal.actor principal) teamId agentId context);
  findTeam (Principal.tenantId principal) teamId.

Definition is_member (tenantId teamId agentId : string) (_ : string) (m : InboxTeamMember.t) : bool :=
  bool_decide (InboxTeamMember.tenantId m = tenantId) && bool_decide (InboxTeamMember.teamId m = teamId) &&
  bool_decide (InboxTeamMember.agentId m = agentId).
Definition removeMember_body (actor : MutationActor.t) (teamId agentId : string) (context : option AuditRequestContext)
    : io World unit :=
  let tenantId := MutationActor.tenantId actor in
  team ← find_row (team_of teamId tenantId);
  _ ← found (NotFoundException "Inbox team not found") team;
  removed ← deleteMany_rows_of (is_member tenantId teamId agentId);
  if Nat.eqb removed 0 then mret tt else
  write_audit (auditLogData actor context "inbox.team.member.removed" "InboxTeamMember"
                 (Some (pair_id teamId agentId)) None).
Definition removeMember (principal : Principal.t) (teamId agentId : string) (context : option AuditRequestContext)
    : io World (InboxTeam.t * list (InboxTeamMember.t * InboxAgent.t)) :=
  _ ← transaction (removeMember_body (Principal.actor principal) teamId agentId context);
  findTeam (Principal.tenantId principal) teamId.
End teams.
