(* ===== verification/InboxSkills.v ===== *)
(** The skills of the inbox and the levels at which agents have them ([inbox/inbox-skills.service.ts]),
    and the skills a conversation asks for ([inbox/inbox-conversation-skills.service.ts]). *)
From stdpp Require Import prelude gmap strings sorting.
From Stdlib Require Import ZArith Lia.
From S2P Require Import Prelude Json Io Prisma Domain Tables AuditTrail Segments Senders Auth InboxAgents InboxTeams.
#[local] Open Scope Z_scope.

Module CreateInboxSkillDto.
Record t := make { name : string; description : option string }.
End CreateInboxSkillDto.
Module UpdateInboxSkillDto.
Record t := make { name : option string; description : option string; active : option bool }.
Definition fields (d : t) : list (string * bool) :=
  [("name", is_given (name d)); ("description", is_given (description d)); ("active", is_given (active d))]%string.
End UpdateInboxSkillDto.

(** [orderBy: [{ level: "desc" }, { createdAt: "asc" }, { agentId: "asc" }]] *)
Definition best_first (a b : InboxAgentSkill.t) : Prop :=
  InboxAgentSkill.level b < InboxAgentSkill.level a \/
  (InboxAgentSkill.level a = InboxAgentSkill.level b /\
   (InboxAgentSkill.createdAt a < InboxAgentSkill.createdAt b \/
    (InboxAgentSkill.createdAt a = InboxAgentSkill.createdAt b /\
     JsString.le (InboxAgentSkill.agentId a) (InboxAgentSkill.agentId b)))).
#[export] Instance best_first_dec : RelDecision best_first.
Proof. intros a b. unfold best_first. apply _. Defined.
(** [orderBy: [{ skill: { name: "asc" } }, { skillId: "asc" }]] *)
Definition skill_name_first (a b : SkillRequirement.t * InboxSkill.t) : Prop :=
  JsString.le (InboxSkill.name a.2) (InboxSkill.name b.2) /\
  (InboxSkill.name a.2 = InboxSkill.name b.2 ->
   JsString.le (SkillRequirement.skillId a.1) (SkillRequirement.skillId b.1)).
#[export] Instance skill_name_first_dec : RelDecision skill_name_first.
Proof. intros a b. unfold skill_name_first. apply _. Defined.

Section skills.
Context `{Prisma} `{Environment}.
Abbreviation agent_of := (of_tenant InboxAgent.tenantId).
Abbreviation skill_of := (of_tenant InboxSkill.tenantId).
Abbreviation conversation_of := (of_tenant Conversation.tenantId).

Definition createSkill_body (actor : MutationActor.t) (name : string) (description : option string)
    (context : option AuditRequestContext) : io World (string * InboxSkill.t) :=
  skill ← create_row skill_unique (InboxSkill.make (MutationActor.tenantId actor) name description true);
  _ ← write_audit (auditLogData actor context "inbox.skill.created" "InboxSkill" (Some skill.1) (Some (JObj
         [("hasDescription"%string, JBool (bool_decide (is_Some description)))])));
  mret skill.
Definition createSkill (principal : Principal.t) (dto : CreateInboxSkillDto.t) (context : option AuditRequestContext)
    : io World (string * InboxSkill.t) :=
  name ← lift (requiredText (CreateInboxSkillDto.name dto) "Skill name");
  let description := optionalText (CreateInboxSkillDto.description dto) in
  or_conflict "An inbox skill with that name already exists"
    (transaction (createSkill_body (Principal.actor principal) name description context)).

Definition listSkills (tenantId : string) (active : option bool) : io World (list (string * InboxSkill.t)) :=
  skills ← find_rows (fun _ s => bool_decide (InboxSkill.tenantId s = tenantId) &&
                                 match active with None => true | Some b => Bool.eqb (InboxSkill.active s) b end);
  mret (merge_sort (active_first InboxSkill.active InboxSkill.name) skills).

(** A skill with the agents that have it: one query over the relation [assignments]. *)
Definition assignments_of (skillId : string) (skill : InboxSkill.t) (w : World)
    : list (InboxAgentSkill.t * InboxAgent.t) :=
  omap (fun s => agent ← row (InboxAgentSkill.agentId s) w; Some (s, agent))
    (merge_sort best_first (findMany (fun _ s => bool_decide (InboxAgentSkill.tenantId s = InboxSkill.tenantId skill) &&
                                                 bool_decide (InboxAgentSkill.skillId s = skillId)) (agentSkills w)).*2).
Definition findSkill (tenantId id : string) : io World (InboxSkill.t * list (InboxAgentSkill.t * InboxAgent.t)) :=
  skill ← db (fun w => Some (match findFirst (skill_of id tenantId) (skills w) with
                             | Some (k, s) => Some (s, assignments_of k s w)
                             | None => None
                             end, w));
  found (NotFoundException "Inbox skill not found") skill.

Definition skill_data (dto : UpdateInboxSkillDto.t) (name : option string) (s : InboxSkill.t) : InboxSkill.t :=
  s <| InboxSkill.name ::= given name |>
    <| InboxSkill.description ::= given_null (optionalText ∘ Some <$> UpdateInboxSkillDto.description dto) |>
    <| InboxSkill.active ::= given (UpdateInboxSkillDto.active dto) |>.
Definition updateSkill_body (actor : MutationActor.t) (id : string) (dto : UpdateInboxSkillDto.t)
    (context : option AuditRequestContext) : io World InboxSkill.t :=
  existing ← find_row (skill_of id (MutationActor.tenantId actor));
  _ ← found (NotFoundException "Inbox skill not found") existing;
  name ← lift (givenText (UpdateInboxSkillDto.name dto) "Skill name");
  skill ← update_row skill_unique id (skill_data dto name);
  _ ← write_audit (auditLogData actor context "inbox.skill.updated" "InboxSkill" (Some id) (Some (JObj
         [("changedFields", JArr (JStr <$> set_fields (UpdateInboxSkillDto.fields dto)));
          ("active", JBool (InboxSkill.active skill))]%string)));
  mret skill.
Definition updateSkill (principal : Principal.t) (id : string) (dto : UpdateInboxSkillDto.t)
    (context : option AuditRequestContext) : io World InboxSkill.t :=
  if bool_decide (set_fields (UpdateInboxSkillDto.fields dto) = []) then
    throw (BadRequestException "At least one skill field must be provided")
  else or_conflict "An inbox skill with that name already exists"
         (transaction (updateSkill_body (Principal.actor principal) id dto context)).

(** *** The skills of agents *)
Definition agent_skill_key (skillId agentId : string) (_ : string) (s : InboxAgentSkill.t) : bool :=
  bool_decide (InboxAgentSkill.skillId s = skillId) && bool_decide (InboxAgentSkill.agentId s = agentId).
Definition set_level (level : Z) (s : InboxAgentSkill.t) : InboxAgentSkill.t := s <| InboxAgentSkill.level := level |>.
Definition levels (ls : list (string * Z)) : option json := Some (JObj (prod_map id (fun n => JNum (Whole n)) <$> ls)).

Definition setAgentSkill_body (actor : MutationActor.t) (skillId agentId : string) (level : Z)
    (context : option AuditRequestContext) : io World unit :=
  let tenantId := MutationActor.tenantId actor in
  let audit action metadata :=
    write_audit (auditLogData actor context action "InboxAgentSkill" (Some (pair_id skillId agentId)) metadata) in
  skill ← find_row (skill_of skillId tenantId);
  skill ← found (NotFoundException "Inbox skill not found") skill;
  agent ← find_row (agent_of agentId tenantId);
  agent ← found (UnprocessableEntityException "Inbox agent is not in this tenant") agent;
  existing ← find_row (agent_skill_key skillId agentId);
  match existing with
  | Some (k, e) =>
      if InboxAgentSkill.level e =? level then mret tt else
      _ ← update_row unconstrained k (set_level level);
      audit "inbox.skill.agent.level.updated"%string
        (levels [("fromLevel"%string, InboxAgentSkill.level e); ("toLevel"%string, level)])
  | None =>
      if negb (InboxSkill.active skill.2) then
        throw (UnprocessableEntityException "Inbox skill must be active for a new assignment")
      else if negb (InboxAgent.active agent.2) then
        throw (UnprocessableEntityException "Inbox agent must be active for a new skill assignment")
      else
        createdAt ← now;
        inserted ← createMany_row agentSkill_unique (InboxAgentSkill.make tenantId skillId agentId level createdAt);
        if Nat.eqb inserted 1 then audit "inbox.skill.agent.assigned"%string (levels [("level"%string, level)]) else
        changed ← updateMany_rows_of (fun k s => bool_decide (InboxAgentSkill.tenantId s = tenantId) &&
                     agent_skill_key skillId agentId k s && negb (InboxAgentSkill.level s =? level)) (set_level level);
        if Nat.eqb changed 1 then
          audit "inbox.skill.agent.level.updated"%string (levels [("toLevel"%string, level)])
        else mret tt
  end.
Definition setAgentSkill (principal : Principal.t) (skillId agentId : string) (level : Z)
    (context : option AuditRequestContext) : io World (InboxSkill.t * list (InboxAgentSkill.t * InboxAgent.t)) :=
  _ ← transaction (setAgentSkill_body (Principal.actor principal) skillId agentId level context);
  findSkill (Principal.tenantId principal) skillId.

Definition removeAgentSkill_body (actor : MutationActor.t) (skillId agentId : string)
    (context : option AuditRequestContext) : io World unit :=
  let tenantId := MutationActor.tenantId actor in
  skill ← find_row (skill_of skillId tenantId);
  _ ← found (NotFoundException "Inbox skill not found") skill;
  removed ← deleteMany_rows_of (fun k s => bool_decide (InboxAgentSkill.tenantId s = tenantId) &&
                                           agent_skill_key skillId agentId k s);
  if Nat.eqb removed 0 then mret tt else
  write_audit (auditLogData actor context "inbox.skill.agent.removed" "InboxAgentSkill"
                 (Some (pair_id skillId agentId)) None).
Definition removeAgentSkill (principal : Principal.t) (skillId agentId : string) (context : option AuditRequestContext)
    : io World (InboxSkill.t * list (InboxAgentSkill.t * InboxAgent.t)) :=
  _ ← transaction (removeAgentSkill_body (Principal.actor principal) skillId agentId context);
  findSkill (Principal.tenantId principal) skillId.

(** *** The skills a conversation asks for *)
(** [SELECT ... FOR UPDATE]: the row is held, nothing changes. *)
Definition lockConversation (tenantId conversationId : string) : io World unit := db (fun w => Some (tt, w)).

Definition listRequirements (tenantId conversationId : string) : io World (list (SkillRequirement.t * InboxSkill.t)) :=
  db (fun w => Some (merge_sort skill_name_first
    (omap (fun r : string * SkillRequirement.t => skill ← row (SkillRequirement.skillId r.2) w; Some (r.2, skill))
       (findMany (fun _ r => bool_decide (SkillRequirement.tenantId r = tenantId) &&
                             bool_decide (SkillRequirement.conversationId r = conversationId)) (skillRequirements w))), w)).

Definition requirement_key (conversationId skillId : string) (_ : string) (r : SkillRequirement.t) : bool :=
  bool_decide (SkillRequirement.conversationId r = conversationId) && bool_decide (SkillRequirement.skillId r = skillId).
Definition set_minLevel (minLevel : Z) (r : SkillRequirement.t) : SkillRequirement.t :=
  r <| SkillRequirement.minLevel := minLevel |>.

Definition setRequirement_body (actor : MutationActor.t) (conversationId skillId : string) (minLevel : Z)
    (context : option AuditRequestContext) : io World unit :=
  let tenantId := MutationActor.tenantId actor in
  let audit action metadata :=
    write_audit (auditLogData actor context action "ConversationSkillRequirement"
                   (Some (pair_id conversationId skillId)) metadata) in
  _ ← lockConversation tenantId conversationId;
  conversation ← find_row (conversation_of conversationId tenantId);
  _ ← found (NotFoundException "Conversation not found") conversation;
  skill ← find_row (skill_of skillId tenantId);
  skill ← found (NotFoundException "Inbox skill not found") skill;
  existing ← find_row (requirement_key conversationId skillId);
  match existing with
  | Some (k, e) =>
      if SkillRequirement.minLevel e =? minLevel then mret tt else
      _ ← update_row unconstrained k (set_minLevel minLevel);
      audit "inbox.conversation.skill.level.updated"%string
        (levels [("fromLevel"%string, SkillRequirement.minLevel e); ("toLevel"%string, minLevel)])
  | None =>
      if negb (InboxSkill.active skill.2) then
        throw (UnprocessableEntityException "Inbox skill must be active for a new conversation requirement")
      else
        _ ← create_row requirement_unique (SkillRequirement.make tenantId conversationId skillId minLevel);
        audit "inbox.conversation.skill.required"%string (levels [("minLevel"%string, minLevel)])
  end.
Definition setRequirement (principal : Principal.t) (conversationId skillId : string) (minLevel : Z)
    (context : option AuditRequestContext) : io World (list (SkillRequirement.t * InboxSkill.t)) :=
  _ ← transaction (setRequirement_body (Principal.actor principal) conversationId skillId minLevel context);
  listRequirements (Principal.tenantId principal) conversationId.

Definition removeRequirement_body (actor : MutationActor.t) (conversationId skillId : string)
    (context : option AuditRequestContext) : io World unit :=
  let tenantId := MutationActor.tenantId actor in
  _ ← lockConversation tenantId conversationId;
  conversation ← find_row (conversation_of conversationId tenantId);
  _ ← found (NotFoundException "Conversation not found") conversation;
  removed ← deleteMany_rows_of (fun k r => bool_decide (SkillRequirement.tenantId r = tenantId) &&
                                           requirement_key conversationId skillId k r);
  if Nat.eqb removed 0 then mret tt else
  write_audit (auditLogData actor context "inbox.conversation.skill.removed" "ConversationSkillRequirement"
                 (Some (pair_id conversationId skillId)) None).
Definition removeRequirement (principal : Principal.t) (conversationId skillId : string)
    (context : option AuditRequestContext) : io World (list (SkillRequirement.t * InboxSkill.t)) :=
  _ ← transaction (removeRequirement_body (Principal.actor principal) conversationId skillId context);
  listRequirements (Principal.tenantId principal) conversationId.
End skills.
