(* ===== verification/InboxAdmission.v ===== *)
(** Which agents may take a conversation: capacity and presence ([inbox/inbox-capacity-admission.ts])
    and skills ([inbox/inbox-skill-admission.ts]). *)
From stdpp Require Import prelude gmap strings sorting.
From Stdlib Require Import ZArith Lia.
From S2P Require Import Prelude Json Io Prisma Domain Tables AuditTrail Segments Senders Auth InboxAgents InboxTeams InboxSkills.
#[local] Open Scope Z_scope.

(** [new Map(entries)]: a later entry replaces an earlier one with the same key. *)
Definition map_of {A} (entries : list (string * A)) : gmap string A :=
  foldl (fun m kv => <[kv.1 := kv.2]> m) ∅ entries.

Record LockedAgentCapacity := {
  agentId : string;
  presenceStatus : InboxAgentPresenceStatus.t;
  maxConcurrentConversations : option Z
}.
(** A row of [lockRequirements]. *)
Module Requirement.
Record t := make { skillId : string; minLevel : Z; active : bool }.
End Requirement.

(** [ORDER BY "skillId" ASC] and [ORDER BY "agentId" ASC, "skillId" ASC] *)
Definition skill_first (a b : Requirement.t) : Prop := JsString.le (Requirement.skillId a) (Requirement.skillId b).
#[export] Instance skill_first_dec : RelDecision skill_first.
Proof. intros a b. unfold skill_first. apply _. Defined.
Definition agent_first (a b : InboxAgentSkill.t) : Prop :=
  JsString.le (InboxAgentSkill.agentId a) (InboxAgentSkill.agentId b) /\
  (InboxAgentSkill.agentId a = InboxAgentSkill.agentId b ->
   JsString.le (InboxAgentSkill.skillId a) (InboxAgentSkill.skillId b)).
#[export] Instance agent_first_dec : RelDecision agent_first.
Proof. intros a b. unfold agent_first. apply _. Defined.

Section admission.
Context `{Prisma} `{Environment}.

(** ** Capacity *)
Definition lockActiveAgentCapacity (tenantId agentId inactiveMessage : string) : io World LockedAgentCapacity :=
  _ ← db (fun w => Some (tt, w));
  agent ← find_row (fun k a => of_tenant InboxAgent.tenantId agentId tenantId k a && InboxAgent.active a);
  agent ← found (UnprocessableEntityException inactiveMessage) agent;
  mret {| agentId := agent.1; presenceStatus := InboxAgent.presenceStatus agent.2;
          maxConcurrentConversations := InboxAgent.maxConcurrentConversations agent.2 |}.

Definition assertAgentAvailableForConversation (agent : LockedAgentCapacity) (presenceMessage : string)
    : exec js_error unit :=
  if bool_decide (presenceStatus agent = InboxAgentPresenceStatus.AVAILABLE) then Ok tt
  else Throws (UnprocessableEntityException presenceMessage).

(** [status: { in: [OPEN, PENDING] }] *)
Definition is_open (s : ConversationStatus.t) : bool :=
  bool_decide (s = ConversationStatus.OPEN) || bool_decide (s = ConversationStatus.PENDING).
(** The conversations that count towards the load of an agent. *)
Definition holds (tenantId agentId : string) (_ : string) (c : Conversation.t) : bool :=
  bool_decide (Conversation.tenantId c = tenantId) && bool_decide (Conversation.assignedAgentId c = Some agentId) &&
  is_open (Conversation.status c).

Definition assertAgentHasConversationCapacity (tenantId : string) (agent : LockedAgentCapacity)
    (capacityMessage : string) : io World (option nat) :=
  match maxConcurrentConversations agent with
  | None => mret None
  | Some limit =>
      load ← count_rows (holds tenantId (agentId agent));
      if limit <=? Z.of_nat load then throw (UnprocessableEntityException capacityMessage) else mret (Some load)
  end.

(** ** Skills *)
Definition requirements_of (tenantId conversationId : string) (w : World) : list Requirement.t :=
  merge_sort skill_first
    (omap (fun r : string * SkillRequirement.t =>
             skill ← row (SkillRequirement.skillId r.2) w;
             if bool_decide (InboxSkill.tenantId skill = SkillRequirement.tenantId r.2) then
               Some (Requirement.make (SkillRequirement.skillId r.2) (SkillRequirement.minLevel r.2) (InboxSkill.active skill))
             else None)
       (findMany (fun _ r => bool_decide (SkillRequirement.tenantId r = tenantId) &&
                             bool_decide (SkillRequirement.conversationId r = conversationId)) (skillRequirements w))).
Definition lockRequirements (tenantId conversationId : string) : io World (list Requirement.t) :=
  db (fun w => Some (requirements_of tenantId conversationId w, w)).

Definition proficient (tenantId : string) (agentIds skillIds : list string) (_ : string) (s : InboxAgentSkill.t) : bool :=
  bool_decide (InboxAgentSkill.tenantId s = tenantId) && bool_decide (InboxAgentSkill.agentId s ∈ agentIds) &&
  bool_decide (InboxAgentSkill.skillId s ∈ skillIds).
Definition lockProficiencies (tenantId : string) (agentIds skillIds : list string) : io World (list InboxAgentSkill.t) :=
  match agentIds, skillIds with
  | [], _ | _, [] => mret []
  | _, _ => rows ← find_rows (proficient tenantId agentIds skillIds); mret (merge_sort agent_first rows.*2)
  end.

Definition assertRequirementsActive (requirements : list Requirement.t) : exec js_error unit :=
  if existsb (fun r => negb (Requirement.active r)) requirements then
    Throws (UnprocessableEntityException "Conversation has inactive required inbox skills")
  else Ok tt.

Definition assertAgentMeetsConversationSkills (tenantId conversationId agentId mismatchMessage : string)
    : io World nat :=
  requirements ← lockRequirements tenantId conversationId;
  match requirements with
  | [] => mret O
  | _ =>
      _ ← lift (assertRequirementsActive requirements);
      proficiencies ← lockProficiencies tenantId [agentId] (Requirement.skillId <$> requirements);
      let bySkill := map_of ((fun s => (InboxAgentSkill.skillId s, InboxAgentSkill.level s)) <$> proficiencies) in
      if existsb (fun r => default 0 (bySkill !! Requirement.skillId r) <? Requirement.minLevel r) requirements then
        throw (UnprocessableEntityException mismatchMessage)
      else mret (length requirements)
  end.

(** [byAgent]: the levels of each agent. *)
Definition levels_by_agent (proficiencies : list InboxAgentSkill.t) : gmap string (gmap string Z) :=
  foldl (fun byAgent s =>
           <[InboxAgentSkill.agentId s :=
               <[InboxAgentSkill.skillId s := InboxAgentSkill.level s]> (default ∅ (byAgent !! InboxAgentSkill.agentId s))]> byAgent)
    ∅ proficiencies.
(** The agents that meet the requirements, and how many there are of these. *)
Definition filterAgentsByConversationSkills (tenantId conversationId : string) (agentIds : list string)
    : io World (list string * nat) :=
  requirements ← lockRequirements tenantId conversationId;
  match requirements with
  | [] => mret (agentIds, O)
  | _ =>
      _ ← lift (assertRequirementsActive requirements);
      match agentIds with
      | [] => mret ([], length requirements)
      | _ =>
          proficiencies ← lockProficiencies tenantId agentIds (Requirement.skillId <$> requirements);
          let byAgent := levels_by_agent proficiencies in
          mret (filter (fun agentId =>
                  let skills := byAgent !! agentId in
                  forallb (fun r => Requirement.minLevel r <=? default 0 (skills ≫= (.!! Requirement.skillId r))) requirements = true)
                  agentIds, length requirements)
      end
  end.

(** ** What they decide *)
(** How many open conversations an agent has. *)
Definition load (tenantId agentId : string) (w : World) : nat := length (findMany (holds tenantId agentId) (conversations w)).
Definition below_limit (tenantId id : string) (limit : option Z) (w : World) : Prop :=
  match limit with None => True | Some l => Z.of_nat (load tenantId id w) < l end.

(** The level of an agent at a skill, 0 when it does not have it. *)
Definition proficiency (tenantId agentId skillId : string) (w : World) : Z :=
  match findFirst (fun _ s => bool_decide (InboxAgentSkill.tenantId s = tenantId) &&
                              bool_decide (InboxAgentSkill.agentId s = agentId) &&
                              bool_decide (InboxAgentSkill.skillId s = skillId)) (agentSkills w) with
  | Some (_, s) => InboxAgentSkill.level s
  | None => 0
  end.
(** A requirement of the conversation, with its skill. *)
Definition requires (tenantId conversationId : string) (w : World) (skillId : string) (minLevel : Z) (active : bool) : Prop :=
  exists k r skill, row k w = Some r /\ SkillRequirement.tenantId r = tenantId /\
    SkillRequirement.conversationId r = conversationId /\ SkillRequirement.skillId r = skillId /\
    SkillRequirement.minLevel r = minLevel /\ row skillId w = Some skill /\ InboxSkill.tenantId skill = tenantId /\
    InboxSkill.active skill = active.
Definition skills_active (tenantId conversationId : string) (w : World) : Prop :=
  forall s n b, requires tenantId conversationId w s n b -> b = true.
Definition qualified (tenantId conversationId agentId : string) (w : World) : Prop :=
  forall s n b, requires tenantId conversationId w s n b -> n <= proficiency tenantId agentId s w.

(** An agent has a skill once. *)
Definition skills_once (w : World) : Prop :=
  forall k k' s s', row (R := InboxAgentSkill.t) k w = Some s -> row k' w = Some s' ->
    agentSkill_unique s s' = true -> k = k'.
End admission.

(** ** The maps of the code *)
Lemma map_of_snoc {A} (l : list (string * A)) k v : map_of (l ++ [(k, v)]) = <[k := v]> (map_of l).
Proof. unfold map_of. by rewrite foldl_app. Qed.
Lemma map_of_some {A} (l : list (string * A)) k v : map_of l !! k = Some v -> (k, v) ∈ l.
Proof.
  induction l as [|[k' v'] l IH] using rev_ind; [done|]. rewrite map_of_snoc, elem_of_app, list_elem_of_singleton.
  intros [[<- <-]|[_ Hk]]%lookup_insert_Some; [by right|left; by apply IH].
Qed.
Lemma map_of_none {A} (l : list (string * A)) k v : map_of l !! k = None -> (k, v) ∉ l.
Proof.
  induction l as [|[k' v'] l IH] using rev_ind; [intros _ ?%elem_of_nil; done|].
  rewrite map_of_snoc, elem_of_app, list_elem_of_singleton. intros [Hk Hne]%lookup_insert_None [Hin|[= <- <-]]; [|done].
  by apply IH.
Qed.
(** With one entry for each key, the map is the list. *)
Lemma map_of_lookup {A} (l : list (string * A)) k v :
  (forall v v', (k, v) ∈ l -> (k, v') ∈ l -> v = v') -> (k, v) ∈ l -> map_of l !! k = Some v.
Proof.
  intros Hu Hin. destruct (map_of l !! k) as [v'|] eqn:E; [|by destruct (map_of_none _ _ v E)].
  f_equal. apply map_of_some in E. by apply Hu.
Qed.

Definition level_in (l : list InboxAgentSkill.t) (a s : string) (n : Z) : Prop :=
  exists r, r ∈ l /\ InboxAgentSkill.agentId r = a /\ InboxAgentSkill.skillId r = s /\ InboxAgentSkill.level r = n.
Lemma levels_by_agent_snoc l r :
  levels_by_agent (l ++ [r]) =
    <[InboxAgentSkill.agentId r := <[InboxAgentSkill.skillId r := InboxAgentSkill.level r]>
        (default ∅ (levels_by_agent l !! InboxAgentSkill.agentId r))]> (levels_by_agent l).
Proof. unfold levels_by_agent. by rewrite foldl_app. Qed.
Lemma levels_by_agent_spec l a s :
  match levels_by_agent l !! a ≫= (.!! s) with
  | Some n => level_in l a s n
  | None => forall n, ~ level_in l a s n
  end.
Proof.
  induction l as [|r l IH] using rev_ind; [unfold levels_by_agent; cbn; rewrite lookup_empty; intros n (r & Hr & _); by apply elem_of_nil in Hr|].
  rewrite levels_by_agent_snoc. destruct (decide (InboxAgentSkill.agentId r = a)) as [<-|Ha].
  - rewrite lookup_insert_eq. cbn. destruct (decide (InboxAgentSkill.skillId r = s)) as [<-|Hs].
    + rewrite lookup_insert_eq. exists r. split; [apply elem_of_app; right; by left|done].
    + rewrite lookup_insert_ne by done.
      assert (default ∅ (levels_by_agent l !! InboxAgentSkill.agentId r) !! s =
              levels_by_agent l !! InboxAgentSkill.agentId r ≫= (.!! s)) as ->
        by (by destruct (levels_by_agent l !! InboxAgentSkill.agentId r)).
      destruct (_ ≫= _).
      * destruct IH as (r' & Hr & IH). exists r'. split; [apply elem_of_app; by left|done].
      * intros n (r' & [Hr| ->%list_elem_of_singleton]%elem_of_app & H1 & H2 & H3); [|done]. apply (IH n). by exists r'.
  - rewrite lookup_insert_ne by done. destruct (_ ≫= _).
    + destruct IH as (r' & Hr & IH). exists r'. split; [apply elem_of_app; by left|done].
    + intros n (r' & [Hr| ->%list_elem_of_singleton]%elem_of_app & H1 & H2 & H3); [|done]. apply (IH n). by exists r'.
Qed.
Lemma map_of_levels_spec l a s :
  Forall (fun r => InboxAgentSkill.agentId r = a) l ->
  match map_of ((fun r => (InboxAgentSkill.skillId r, InboxAgentSkill.level r)) <$> l) !! s with
  | Some n => level_in l a s n
  | None => forall n, ~ level_in l a s n
  end.
Proof.
  intros Hall. rewrite Forall_forall in Hall. destruct (_ !! s) as [n|] eqn:E.
  - apply map_of_some, list_elem_of_fmap in E as (r & [= -> ->] & Hr). exists r. auto.
  - intros n (r & Hr & _ & Hs & Hn). apply (map_of_none _ _ n E). apply list_elem_of_fmap. exists r. by rewrite Hs, Hn.
Qed.

Section admission_proofs.
Context `{Prisma} `{Environment}.

Lemma requirements_elem T id w r :
  r ∈ requirements_of T id w <->
  requires T id w (Requirement.skillId r) (Requirement.minLevel r) (Requirement.active r).
Proof.
  unfold requirements_of. rewrite (merge_sort_Permutation skill_first), list_elem_of_omap. split.
  - intros ([k q] & Hq & Ho). apply findMany_elem in Hq as [[Ht Hc]%andb_true_iff Hk]. apply bool_decide_eq_true in Ht, Hc.
    apply bind_Some in Ho as (skill & Hs & Ho). case_bool_decide as Htt; [|done]. injection Ho as <-. cbn in *.
    exists k, q, skill. repeat split; try done. congruence.
  - intros (k & q & skill & Hk & Ht & Hc & Hs & Hm & Hsk & Htt & Ha). exists (k, q). split.
    + apply findMany_elem. split; [|exact Hk]. by rewrite !bool_decide_true.
    + cbn. rewrite Hs, Hsk. cbn. rewrite bool_decide_true by congruence. by destruct r; cbn in *; subst.
Qed.

Lemma requirements_active T id w :
  existsb (fun r => negb (Requirement.active r)) (requirements_of T id w) = false <-> skills_active T id w.
Proof.
  rewrite <- not_true_iff_false, existsb_exists. split.
  - intros Hn s n b Hr. destruct b; [done|]. destruct Hn. exists (Requirement.make s n false). split; [|done].
    apply list_elem_of_In, requirements_elem, Hr.
  - intros Ha (r & Hr%list_elem_of_In%requirements_elem & Hn). by rewrite (Ha _ _ _ Hr) in Hn.
Qed.

(** What the query finds for agents and skills it asks for is the level. *)
Lemma level_is_proficiency T agents skills l a s w (o : option Z) :
  skills_once w -> a ∈ agents -> s ∈ skills ->
  (forall r, r ∈ l <-> exists k, (k, r) ∈ findMany (proficient T agents skills) (agentSkills w)) ->
  match o with Some n => level_in l a s n | None => forall n, ~ level_in l a s n end ->
  default 0 o = proficiency T a s w.
Proof.
  intros Hu Ha Hs Hl Ho. unfold proficiency. destruct (findFirst _ _) as [[k q]|] eqn:E.
  - apply findFirst_some in E as [Hk [[Ht Hqa]%andb_true_iff Hqs]%andb_true_iff].
    apply bool_decide_eq_true in Ht, Hqa, Hqs.
    assert (Hin : q ∈ l).
    { apply Hl. exists k. apply findMany_elem. split; [|done]. unfold proficient. rewrite Hqa, Hqs. by rewrite !bool_decide_true. }
    destruct o as [n|]; [|destruct (Ho (InboxAgentSkill.level q)); by exists q].
    destruct Ho as (r & Hr & Hra & Hrs & <-). apply Hl in Hr as (k' & [_ Hk']%findMany_elem). cbn.
    assert (k = k') as <-; [|congruence]. eapply Hu; [exact Hk|exact Hk'|]. apply bool_decide_eq_true. split; congruence.
  - destruct o as [n|]; [|done]. destruct Ho as (r & Hr & Hra & Hrs & _). apply Hl in Hr as (k & [Hp Hk]%findMany_elem).
    unfold proficient in Hp. apply andb_true_iff in Hp as [[Ht _]%andb_true_iff _].
    pose proof (findFirst_none _ _ _ _ E Hk) as Hn. cbn in Hn. rewrite Ht, !bool_decide_true in Hn by done. done.
Qed.

Lemma proficient_rows T agents skills w r :
  r ∈ merge_sort agent_first (findMany (proficient T agents skills) (agentSkills w)).*2 <->
  exists k, (k, r) ∈ findMany (proficient T agents skills) (agentSkills w).
Proof.
  rewrite (merge_sort_Permutation agent_first), list_elem_of_fmap. split.
  - intros ([k r'] & -> & Hin). by exists k.
  - intros [k Hin]. by exists (k, r).
Qed.

(** The requirements of a list, met by an agent. *)
Definition meets_all (T id a : string) (w : World) : bool :=
  forallb (fun r => Requirement.minLevel r <=? proficiency T a (Requirement.skillId r) w) (requirements_of T id w).
Lemma meets_all_spec T id a w : meets_all T id a w = true <-> qualified T id a w.
Proof.
  unfold meets_all. rewrite forallb_forall. split.
  - intros Ha s n b Hr. specialize (Ha (Requirement.make s n b)). apply Z.leb_le, Ha.
    apply list_elem_of_In, requirements_elem, Hr.
  - intros Hq r Hr%list_elem_of_In%requirements_elem. apply Z.leb_le. by eapply Hq.
Qed.
Lemma no_requirements T id w : requirements_of T id w = [] -> forall s n b, ~ requires T id w s n b.
Proof.
  intros E s n b Hr. apply (requirements_elem T id w (Requirement.make s n b)) in Hr. rewrite E in Hr. by apply elem_of_nil in Hr.
Qed.

(** ** The checks, as rules *)
Context {F : js_error -> Prop} `{!Faulty F}.

Lemma of_tenant_spec {R} (tenant : R -> string) id T k r :
  of_tenant tenant id T k r = true <-> k = id /\ tenant r = T.
Proof. unfold of_tenant. by rewrite andb_true_iff, !bool_decide_eq_true. Qed.
Lemma ok_found {A} e (o : option A) P w :
  (forall a, o = Some a -> P a w) -> (o = None -> F e) -> wp (found e o : io World A) (outcome F P) w.
Proof. intros HP HF. destruct o as [a|]; [by apply ok_ret, HP|by apply ok_throw, HF]. Qed.
(** A row of the tenant, by its id. *)
Lemma find_tenant {R} `{!Table R} (tenant : R -> string) id T (extra : R -> bool) w :
  match findFirst (fun k r => of_tenant tenant id T k r && extra r) (tbl w) with
  | Some (k, r) => k = id /\ row id w = Some r /\ tenant r = T /\ extra r = true
  | None => forall r, row id w = Some r -> tenant r = T -> extra r = false
  end.
Proof.
  destruct (findFirst _ _) as [[k r]|] eqn:E.
  - by apply findFirst_some in E as [Hk [[-> Ht]%of_tenant_spec He]%andb_true_iff].
  - intros r Hr Ht. pose proof (findFirst_none _ _ _ _ E Hr) as Hn. cbn in Hn.
    rewrite (proj2 (of_tenant_spec tenant id T id r)) in Hn; done.
Qed.
Lemma find_of_tenant {R} `{!Table R} (tenant : R -> string) id T w :
  match findFirst (of_tenant tenant id T) (tbl w) with
  | Some (k, r) => k = id /\ row id w = Some r /\ tenant r = T
  | None => forall r, row id w = Some r -> tenant r <> T
  end.
Proof.
  destruct (findFirst _ _) as [[k r]|] eqn:E.
  - by apply findFirst_some in E as [Hk [-> Ht]%of_tenant_spec].
  - intros r Hr Ht. pose proof (findFirst_none _ _ _ _ E Hr) as Hn. by rewrite (proj2 (of_tenant_spec tenant id T id r)) in Hn.
Qed.

Lemma ok_lockActiveAgentCapacity T id msg P w n :
  (forall a n, row id w = Some a -> InboxAgent.tenantId a = T -> InboxAgent.active a = true ->
     P {| agentId := id; presenceStatus := InboxAgent.presenceStatus a;
          maxConcurrentConversations := InboxAgent.maxConcurrentConversations a |} (w <| tick := n |>)) ->
  ((forall a, row id w = Some a -> InboxAgent.tenantId a = T -> InboxAgent.active a = false) ->
     F (UnprocessableEntityException msg)) ->
  wp (lockActiveAgentCapacity T id msg) (outcome F P) (w <| tick := n |>).
Proof.
  intros HP HF. unfold lockActiveAgentCapacity. apply ok_bind, ok_db. intros [] w' n' [= <-]. ok_steps.
  pose proof (find_tenant InboxAgent.tenantId id T InboxAgent.active w) as Hf.
  destruct (findFirst _ _) as [[k a]|]; apply ok_found; try done.
  - destruct Hf as (-> & Hk & Ht & Ha). intros x [= <-]. apply ok_ret. by apply HP.
  - intros _. by apply HF.
Qed.
Lemma ok_available c msg (P : unit -> World -> Prop) w :
  (presenceStatus c = InboxAgentPresenceStatus.AVAILABLE -> P tt w) ->
  (presenceStatus c <> InboxAgentPresenceStatus.AVAILABLE -> F (UnprocessableEntityException msg)) ->
  wp (lift (assertAgentAvailableForConversation c msg)) (outcome F P) w.
Proof. intros HP HF. unfold assertAgentAvailableForConversation. case_bool_decide; apply ok_lift; auto. Qed.
Lemma ok_capacity T c msg P w n :
  (below_limit T (agentId c) (maxConcurrentConversations c) w -> forall r n, P r (w <| tick := n |>)) ->
  (~ below_limit T (agentId c) (maxConcurrentConversations c) w -> F (UnprocessableEntityException msg)) ->
  wp (assertAgentHasConversationCapacity T c msg) (outcome F P) (w <| tick := n |>).
Proof.
  unfold assertAgentHasConversationCapacity, below_limit. intros HP HF.
  destruct (maxConcurrentConversations c) as [l|]; [|apply ok_ret; by apply HP]. ok_steps.
  unfold load in *. change (tbl w) with (conversations w).
  destruct (Z.leb_spec l (Z.of_nat (length (findMany (holds T (agentId c)) (conversations w))))); ok_steps.
  - apply HF. lia.
  - by apply HP.
Qed.

(** The levels that the query of the code reads. *)
Lemma ok_lockProficiencies T agents skills P w n :
  (forall l n, (forall r, r ∈ l <-> exists k, (k, r) ∈ findMany (proficient T agents skills) (agentSkills w)) ->
     P l (w <| tick := n |>)) ->
  wp (lockProficiencies T agents skills) (outcome F P) (w <| tick := n |>).
Proof.
  intros HP. unfold lockProficiencies.
  assert (Hnil : agents = [] \/ skills = [] -> forall n, P [] (w <| tick := n |>)).
  { intros He n'. apply HP. intros r. split; [by intros ?%elem_of_nil|]. intros (k & [Hp _]%findMany_elem).
    unfold proficient in Hp. apply andb_true_iff in Hp as [[_ Ha]%andb_true_iff Hs]. apply bool_decide_eq_true in Ha, Hs.
    destruct He as [-> | ->]; [by apply elem_of_nil in Ha|by apply elem_of_nil in Hs]. }
  destruct agents as [|a agents]; [apply ok_ret; destruct skills; apply Hnil; by left|].
  destruct skills as [|s skills]; [apply ok_ret, Hnil; by right|]. ok_steps. apply HP. intros r. apply proficient_rows.
Qed.

Lemma proficient_agent T a skills w l :
  (forall r, r ∈ l <-> exists k, (k, r) ∈ findMany (proficient T [a] skills) (agentSkills w)) ->
  Forall (fun r => InboxAgentSkill.agentId r = a) l.
Proof.
  intros Hl. apply Forall_forall. intros r (k & [Hp _]%findMany_elem)%Hl. unfold proficient in Hp.
  apply andb_true_iff in Hp as [[_ Ha]%andb_true_iff _]. apply bool_decide_eq_true in Ha. by apply list_elem_of_singleton in Ha.
Qed.

Lemma ok_requirements_active T id (P : unit -> World -> Prop) w w0 :
  (skills_active T id w0 -> P tt w) ->
  (~ skills_active T id w0 -> forall msg, F (UnprocessableEntityException msg)) ->
  wp (lift (assertRequirementsActive (requirements_of T id w0))) (outcome F P) w.
Proof.
  intros HP HF. unfold assertRequirementsActive. pose proof (requirements_active T id w0) as Hr.
  destruct (existsb _ _); apply ok_lift.
  - apply HF. by intros ?%Hr.
  - by apply HP, Hr.
Qed.

Lemma ok_meets T id a msg P w n :
  skills_once w ->
  (skills_active T id w -> qualified T id a w -> forall m n, P m (w <| tick := n |>)) ->
  (~ (skills_active T id w /\ qualified T id a w) -> forall msg, F (UnprocessableEntityException msg)) ->
  wp (assertAgentMeetsConversationSkills T id a msg) (outcome F P) (w <| tick := n |>).
Proof.
  intros Hu HP HF. unfold assertAgentMeetsConversationSkills. apply ok_bind, ok_db. intros rs w' n' [= <- <-].
  change (requirements_of T id (w <| tick := n' |>)) with (requirements_of T id w).
  destruct (requirements_of T id w) as [|r0 rs0] eqn:Er.
  { pose proof (no_requirements _ _ _ Er) as Hn. apply ok_ret, HP; [intros s m b Hr|intros s m b Hr]; by destruct (Hn s m b). }
  rewrite <- Er. apply ok_bind, ok_requirements_active; [|intros Hn; apply HF; tauto]. intros Ha.
  apply ok_bind, ok_lockProficiencies. intros l n1 Hl.
  set (met := fun r => default 0 _ <? Requirement.minLevel r).
  assert (Hm : forall r, r ∈ requirements_of T id w -> met r = (proficiency T a (Requirement.skillId r) w <? Requirement.minLevel r)).
  { intros r Hr. pose proof (map_of_levels_spec l a (Requirement.skillId r) (proficient_agent _ _ _ _ _ Hl)) as Hm.
    assert (Hs : Requirement.skillId r ∈ Requirement.skillId <$> requirements_of T id w) by (apply list_elem_of_fmap; by exists r).
    assert (Hself : a ∈ [a]) by by left.
    unfold met. by rewrite (level_is_proficiency _ _ _ _ _ _ _ _ Hu Hself Hs Hl Hm). }
  destruct (existsb met (requirements_of T id w)) eqn:Ex; ok_steps.
  - apply HF. intros [_ Hq%meets_all_spec]. apply existsb_exists in Ex as (r & Hr & Hlt).
    unfold meets_all in Hq. rewrite forallb_forall in Hq. specialize (Hq r Hr). apply Z.leb_le in Hq.
    rewrite Hm in Hlt by by apply list_elem_of_In. apply Z.ltb_lt in Hlt. lia.
  - apply HP; [done|]. apply meets_all_spec. apply forallb_forall. intros r Hr. apply Z.leb_le, Z.nlt_ge. intros Hlt.
    apply not_true_iff_false in Ex. apply Ex, existsb_exists. exists r. split; [done|].
    rewrite Hm by by apply list_elem_of_In. by apply Z.ltb_lt.
Qed.

Lemma ok_filter T id ids P w n :
  skills_once w ->
  (skills_active T id w -> forall m n, P (filter (fun a => meets_all T id a w = true) ids, m) (w <| tick := n |>)) ->
  (~ skills_active T id w -> forall msg, F (UnprocessableEntityException msg)) ->
  wp (filterAgentsByConversationSkills T id ids) (outcome F P) (w <| tick := n |>).
Proof.
  intros Hu HP HF. unfold filterAgentsByConversationSkills. apply ok_bind, ok_db. intros rs w' n' [= <- <-].
  change (requirements_of T id (w <| tick := n' |>)) with (requirements_of T id w).
  destruct (requirements_of T id w) as [|r0 rs0] eqn:Er.
  { pose proof (no_requirements _ _ _ Er) as Hn. apply ok_ret.
    assert (Hf : filter (fun a => meets_all T id a w = true) ids = ids); [|rewrite <- Hf].
    { apply (filter_id_elem (fun a => meets_all T id a w)). intros a _. unfold meets_all. by rewrite Er. }
    apply HP. intros s m b Hr. by destruct (Hn s m b). }
  rewrite <- Er. apply ok_bind, ok_requirements_active; [|done]. intros Ha.
  destruct ids as [|a0 ids0] eqn:Ei; [apply ok_ret, (HP Ha)|]. rewrite <- Ei in *. clear Ei.
  apply ok_bind, ok_lockProficiencies. intros l n1 Hl. apply ok_ret.
  assert (Hf : forall a, a ∈ ids -> forallb (fun r => Requirement.minLevel r <=?
      default 0 ((levels_by_agent l !! a) ≫= (.!! Requirement.skillId r))) (requirements_of T id w) = meets_all T id a w).
  { intros a Hin. unfold meets_all. apply forallb_ext_elem. intros r Hr. cbv beta zeta.
    pose proof (levels_by_agent_spec l a (Requirement.skillId r)) as Hm.
    assert (Hs : Requirement.skillId r ∈ Requirement.skillId <$> requirements_of T id w) by (apply list_elem_of_fmap; by exists r).
    by rewrite (level_is_proficiency _ _ _ _ _ _ _ _ Hu Hin Hs Hl Hm). }
  rewrite (filter_ext_elem _ (fun a => meets_all T id a w) ids Hf). by apply HP.
Qed.
End admission_proofs.
