(* ===== verification/Inbox.v ===== *)
(** The conversations of the inbox ([inbox/inbox.service.ts]): changes by an administrator, claims,
    automatic routing, releases and notes.

    [FOR UPDATE] keeps other transactions away from the rows a transaction decides on; a transaction
    is one step here, so the locks read nothing and change nothing. *)
From stdpp Require Import prelude gmap strings sorting.
From Stdlib Require Import ZArith Lia.
From S2P Require Import Prelude Json Io Prisma Domain Tables AuditTrail Segments Senders Auth InboxAgents InboxTeams InboxSkills InboxAdmission.
#[local] Open Scope Z_scope.
Import ConversationStatus.

Module UpdateConversationDto.
Record t := make {
  status : option ConversationStatus.t;
  priority : option ConversationPriority.t;
  assignedAgentId : option (option string);
  assignedTeamId : option (option string)
}.
Definition fields (d : t) : list (string * bool) :=
  [("status", is_given (status d)); ("priority", is_given (priority d));
   ("assignedAgentId", is_given (assignedAgentId d)); ("assignedTeamId", is_given (assignedTeamId d))]%string.
End UpdateConversationDto.

(** A candidate for routing. *)
Module Candidate.
Record t := make {
  agentId : string;
  presenceStatus : InboxAgentPresenceStatus.t;
  maxConcurrentConversations : option Z
}.
End Candidate.
Definition candidate_first (a b : Candidate.t) : Prop := JsString.le (Candidate.agentId a) (Candidate.agentId b).
#[export] Instance candidate_first_dec : RelDecision candidate_first.
Proof. intros a b. unfold candidate_first. apply _. Defined.

(** The loop that keeps the agent with the smaller load. *)
Definition least_loaded (loadOf : string -> nat) (first : string) (rest : list string) : string * nat :=
  foldl (fun selected candidateId =>
           let load := loadOf candidateId in
           if (load <? selected.2)%nat then (candidateId, load) else selected)
    (first, loadOf first) rest.

Section inbox.
Context `{Prisma} `{Environment}.
Abbreviation conversation_of := (of_tenant Conversation.tenantId).
Abbreviation agent_of := (of_tenant InboxAgent.tenantId).

(** [include: { teamAssignment }] *)
Definition assigned_team (id : string) (c : Conversation.t) (w : World) : option string :=
  match findFirst (fun _ a => bool_decide (TeamAssignment.tenantId a = Conversation.tenantId c) &&
                              bool_decide (TeamAssignment.conversationId a = id)) (teamAssignments w) with
  | Some (_, a) => Some (TeamAssignment.teamId a)
  | None => None
  end.
Definition find_conversation (tenantId id : string) : io World (option (Conversation.t * option string)) :=
  db (fun w => Some (match findFirst (conversation_of id tenantId) (conversations w) with
                     | Some (k, c) => Some (c, assigned_team k c w)
                     | None => None
                     end, w)).
(** [findFirstOrThrow] *)
Definition conversation_again (tenantId id : string) : io World Conversation.t :=
  c ← find_row (conversation_of id tenantId);
  c ← found (KnownRequestError "P2025" "No Conversation found") c;
  mret c.2.

Definition assertAgentTeamMembership (tenantId teamId agentId message : string) : io World unit :=
  membership ← find_row (is_member tenantId teamId agentId);
  _ ← found (UnprocessableEntityException message) membership;
  mret tt.

(** *** Changes by an administrator *)
Definition final {A} (given : option (option A)) (old : option A) : option A := default old given.
Definition upsert_team (tenantId id teamId : string) : io World unit :=
  db (fun w =>
    match findFirst (fun _ a => bool_decide (TeamAssignment.conversationId a = id)) (teamAssignments w) with
    | Some (k, _) =>
        t ← Prisma.update unconstrained k (fun a => a <| TeamAssignment.teamId := teamId |>) (teamAssignments w);
        Some (tt, w <| teamAssignments := t |>)
    | None =>
        '(_, t) ← Prisma.create assignment_unique (TeamAssignment.make tenantId id teamId) (teamAssignments w);
        Some (tt, w <| teamAssignments := t |>)
    end).
Definition assign_team (tenantId id : string) (team : option (option string)) : io World unit :=
  match team with
  | None => mret tt
  | Some None =>
      _ ← deleteMany_rows_of (fun _ a => bool_decide (TeamAssignment.tenantId a = tenantId) &&
                                         bool_decide (TeamAssignment.conversationId a = id));
      mret tt
  | Some (Some teamId) => upsert_team tenantId id teamId
  end.
Definition conversation_data (dto : UpdateConversationDto.t) (now : Z) (c : Conversation.t) : Conversation.t :=
  let c := match UpdateConversationDto.status dto with
           | None => c
           | Some s => c <| Conversation.status := s |>
                         <| Conversation.resolvedAt := if bool_decide (s = RESOLVED) then Some now else None |>
           end in
  c <| Conversation.priority ::= given (UpdateConversationDto.priority dto) |>
    <| Conversation.assignedAgentId ::= given_null (UpdateConversationDto.assignedAgentId dto) |>.

(** The checks of an assignment, before anything is written. *)
Definition check_assignment (tenantId id : string) (dto : UpdateConversationDto.t) (existing : Conversation.t)
    (existingTeam : option string) : io World unit :=
  assignedAgentCapacity ←
    (match truthy (final (UpdateConversationDto.assignedAgentId dto) None) with
     | None => mret None
     | Some a => c ← lockActiveAgentCapacity tenantId a "Assigned inbox agent is not active in this tenant"; mret (Some c)
     end);
  _ ← (match truthy (final (UpdateConversationDto.assignedTeamId dto) None) with
       | None => mret tt
       | Some t =>
           team ← find_row (fun k r => of_tenant InboxTeam.tenantId t tenantId k r && InboxTeam.active r);
           _ ← found (UnprocessableEntityException "Assigned inbox team is not active in this tenant") team;
           mret tt
       end);
  let agentGiven := is_given (UpdateConversationDto.assignedAgentId dto) in
  let assignmentChanged := agentGiven || is_given (UpdateConversationDto.assignedTeamId dto) in
  let finalAgentId := final (UpdateConversationDto.assignedAgentId dto) (Conversation.assignedAgentId existing) in
  let finalTeamId := final (UpdateConversationDto.assignedTeamId dto) existingTeam in
  let newAgentAdmission := agentGiven && bool_decide (finalAgentId <> None) &&
                           bool_decide (finalAgentId <> Conversation.assignedAgentId existing) in
  _ ← (match truthy finalAgentId, truthy finalTeamId with
       | Some a, Some t =>
           if assignmentChanged then
             assertAgentTeamMembership tenantId t a "Assigned inbox agent is not a member of the assigned team"
           else mret tt
       | _, _ => mret tt
       end);
  _ ← (match truthy finalAgentId with
       | Some a =>
           if agentGiven then
             _ ← assertAgentMeetsConversationSkills tenantId id a
                   "Assigned inbox agent does not satisfy conversation skill requirements";
             mret tt
           else mret tt
       | None => mret tt
       end);
  match assignedAgentCapacity with
  | Some agent =>
      if newAgentAdmission then
        _ ← lift (assertAgentAvailableForConversation agent "Assigned inbox agent is not available for new conversations");
        _ ← assertAgentHasConversationCapacity tenantId agent "Assigned inbox agent has no remaining conversation capacity";
        mret tt
      else mret tt
  | None => mret tt
  end.

Definition updateConversation_body (actor : MutationActor.t) (id : string) (dto : UpdateConversationDto.t)
    (context : option AuditRequestContext) : io World Conversation.t :=
  let tenantId := MutationActor.tenantId actor in
  _ ← lockConversation tenantId id;
  existing ← find_conversation tenantId id;
  '(existing, existingTeam) ← found (NotFoundException "Conversation not found") existing;
  _ ← check_assignment tenantId id dto existing existingTeam;
  _ ← assign_team tenantId id (UpdateConversationDto.assignedTeamId dto);
  now ← now;
  updated ← update_row unconstrained id (conversation_data dto now);
  team ← db (fun w => Some (assigned_team id updated w, w));
  _ ← write_audit (auditLogData actor context "inbox.conversation.updated" "Conversation" (Some id) (Some (JObj
         [("changedFields", JArr (JStr <$> set_fields (UpdateConversationDto.fields dto)));
          ("status", JStr (ConversationStatus.name (Conversation.status updated)));
          ("priority", JStr (ConversationPriority.name (Conversation.priority updated)));
          ("assigned", JBool (bool_decide (is_Some (truthy (Conversation.assignedAgentId updated)))));
          ("teamAssigned", JBool (bool_decide (is_Some team)))]%string)));
  mret updated.
Definition updateConversation (principal : Principal.t) (id : string) (dto : UpdateConversationDto.t)
    (context : option AuditRequestContext) : io World Conversation.t :=
  if bool_decide (set_fields (UpdateConversationDto.fields dto) = []) then
    throw (BadRequestException "At least one conversation field must be provided")
  else transaction (updateConversation_body (Principal.actor principal) id dto context).

(** *** Claims *)
Definition assign (agentId : option string) (c : Conversation.t) : Conversation.t :=
  c <| Conversation.assignedAgentId := agentId |>.

Definition claimConversation_body (actor : MutationActor.t) (id agentId : string) (context : option AuditRequestContext)
    : io World (Conversation.t * bool) :=
  let tenantId := MutationActor.tenantId actor in
  _ ← lockConversation tenantId id;
  existing ← find_conversation tenantId id;
  '(existing, assignedTeamId) ← found (NotFoundException "Conversation not found") existing;
  agentCapacity ← lockActiveAgentCapacity tenantId agentId "Inbox agent is not active in this tenant";
  if bool_decide (Conversation.assignedAgentId existing = Some agentId) then
    conversation ← conversation_again tenantId id;
    mret (conversation, false)
  else if bool_decide (is_Some (truthy (Conversation.assignedAgentId existing))) then
    throw (ConflictException "Conversation is already assigned to another inbox agent")
  else
    _ ← lift (assertAgentAvailableForConversation agentCapacity "Inbox agent is not available for new conversations");
    _ ← (match truthy assignedTeamId with
         | Some t => assertAgentTeamMembership tenantId t agentId "Inbox agent is not a member of the assigned team"
         | None => mret tt
         end);
    _ ← assertAgentMeetsConversationSkills tenantId id agentId
          "Inbox agent does not satisfy conversation skill requirements";
    _ ← assertAgentHasConversationCapacity tenantId agentCapacity "Inbox agent has no remaining conversation capacity";
    conversation ← update_row unconstrained id (assign (Some agentId));
    _ ← write_audit (auditLogData actor context "inbox.conversation.claimed" "Conversation" (Some id)
           (Some (JObj [("assigned"%string, JBool true)])));
    mret (conversation, true).
Definition claimConversation (principal : Principal.t) (id agentId : string) (context : option AuditRequestContext)
    : io World (Conversation.t * bool) :=
  transaction (claimConversation_body (Principal.actor principal) id agentId context).

(** *** Automatic routing *)
Definition candidates_of (tenantId teamId : string) (w : World) : list Candidate.t :=
  merge_sort candidate_first
    (omap (fun m : string * InboxTeamMember.t =>
             agent ← row (InboxTeamMember.agentId m.2) w;
             if bool_decide (InboxAgent.tenantId agent = InboxTeamMember.tenantId m.2) && InboxAgent.active agent then
               Some (Candidate.make (InboxTeamMember.agentId m.2) (InboxAgent.presenceStatus agent)
                       (InboxAgent.maxConcurrentConversations agent))
             else None)
       (findMany (fun _ m => bool_decide (InboxTeamMember.tenantId m = tenantId) &&
                             bool_decide (InboxTeamMember.teamId m = teamId)) (teamMembers w))).
(** [groupBy({ by: ["assignedAgentId"], _count })]: a group for each agent with a conversation. *)
Definition groupedLoads (tenantId : string) (candidateIds : list string) (w : World) : list (string * nat) :=
  omap (fun id => match load tenantId id w with O => None | n => Some (id, n) end) (remove_dups candidateIds).
Definition available (c : Candidate.t) : bool :=
  bool_decide (Candidate.presenceStatus c = InboxAgentPresenceStatus.AVAILABLE).

(** The agents that have room, given the loads. *)
Definition with_capacity (available : list Candidate.t) (loadOf : string -> nat) (candidateIds : list string) : list string :=
  let capacityByAgent := map_of ((fun c => (Candidate.agentId c, Candidate.maxConcurrentConversations c)) <$> available) in
  filter (fun id => match default None (capacityByAgent !! id) with
                    | None => true
                    | Some limit => Z.of_nat (loadOf id) <? limit
                    end = true) candidateIds.

Definition routed_metadata (available candidates candidateIds capacityEligibleIds requiredSkills selectedLoad : nat)
    : option json :=
  let num n := JNum (Whole (Z.of_nat n)) in
  Some (JObj [("strategy", JStr "least_open_pending"); ("availableAgents", num available);
              ("presenceUnavailableAgents", num (candidates - available)%nat);
              ("eligibleAgents", num capacityEligibleIds);
              ("capacityLimitedAgents", num (candidateIds - capacityEligibleIds)%nat);
              ("requiredSkills", num requiredSkills); ("selectedLoad", num selectedLoad);
              ("assigned", JBool true)]%string).

(** The agent that [routeConversation] chooses for a conversation of a team, its load before, and
    the metadata of the audit entry. *)
Definition select_agent (tenantId id teamId : string) : io World (string * option json) :=
  lockedTeam ← find_row (fun k t => of_tenant InboxTeam.tenantId teamId tenantId k t && InboxTeam.active t);
  _ ← found (UnprocessableEntityException "Assigned inbox team is not active in this tenant") lockedTeam;
  candidates ← db (fun w => Some (candidates_of tenantId teamId w, w));
  if Nat.eqb (length (candidates : list Candidate.t)) 0 then
    throw (UnprocessableEntityException "Assigned inbox team has no active routing members") else
  let availableCandidates := filter (fun c => available c = true) candidates in
  if Nat.eqb (length availableCandidates) 0 then
    throw (UnprocessableEntityException "Assigned inbox team has no available routing members") else
  '(candidateIds, requiredSkills) ← filterAgentsByConversationSkills tenantId id (Candidate.agentId <$> availableCandidates);
  if Nat.eqb (length candidateIds) 0 then
    throw (UnprocessableEntityException "Assigned inbox team has no available members satisfying required skills") else
  groupedLoads ← db (fun w => Some (groupedLoads tenantId candidateIds w, w));
  let loadByAgent := map_of (filter (fun r => r.1 <> ""%string) groupedLoads) in
  let loadOf candidateId := default O (loadByAgent !! candidateId) in
  match with_capacity availableCandidates loadOf candidateIds with
  | [] => throw (UnprocessableEntityException "Assigned inbox team has no routing members with remaining conversation capacity")
  | first :: rest =>
      let selected := least_loaded loadOf first rest in
      mret (selected.1, routed_metadata (length availableCandidates) (length candidates) (length candidateIds)
                          (S (length rest)) requiredSkills selected.2)
  end.

Definition routeConversation_body (actor : MutationActor.t) (id : string) (context : option AuditRequestContext)
    : io World (Conversation.t * bool) :=
  let tenantId := MutationActor.tenantId actor in
  _ ← lockConversation tenantId id;
  existing ← find_conversation tenantId id;
  '(existing, team) ← found (NotFoundException "Conversation not found") existing;
  if bool_decide (is_Some (truthy (Conversation.assignedAgentId existing))) then
    conversation ← conversation_again tenantId id;
    mret (conversation, false)
  else
    teamId ← found (UnprocessableEntityException
                      "Conversation must be assigned to an inbox team before automatic routing") (truthy team);
    '(selectedAgentId, metadata) ← select_agent tenantId id teamId;
    conversation ← update_row unconstrained id (assign (Some selectedAgentId));
    _ ← write_audit (auditLogData actor context "inbox.conversation.routed" "Conversation" (Some id) metadata);
    mret (conversation, true).
Definition routeConversation (principal : Principal.t) (id : string) (context : option AuditRequestContext)
    : io World (Conversation.t * bool) :=
  transaction (routeConversation_body (Principal.actor principal) id context).

(** *** Releases, reading and notes *)
Definition releaseConversation_body (actor : MutationActor.t) (id agentId : string) (context : option AuditRequestContext)
    : io World (Conversation.t * bool) :=
  let tenantId := MutationActor.tenantId actor in
  _ ← lockConversation tenantId id;
  existing ← find_row (conversation_of id tenantId);
  existing ← found (NotFoundException "Conversation not found") existing;
  agent ← find_row (agent_of agentId tenantId);
  _ ← found (UnprocessableEntityException "Inbox agent is not in this tenant") agent;
  if bool_decide (Conversation.assignedAgentId existing.2 = None) then
    conversation ← conversation_again tenantId id;
    mret (conversation, false)
  else if negb (bool_decide (Conversation.assignedAgentId existing.2 = Some agentId)) then
    throw (ConflictException "Conversation is assigned to another inbox agent")
  else
    conversation ← update_row unconstrained id (assign None);
    _ ← write_audit (auditLogData actor context "inbox.conversation.released" "Conversation" (Some id)
           (Some (JObj [("assigned"%string, JBool false)])));
    mret (conversation, true).
Definition releaseConversation (principal : Principal.t) (id agentId : string) (context : option AuditRequestContext)
    : io World (Conversation.t * bool) :=
  transaction (releaseConversation_body (Principal.actor principal) id agentId context).

Definition markRead_body (tenantId id : string) : io World Conversation.t :=
  _ ← lockConversation tenantId id;
  existing ← find_row (conversation_of id tenantId);
  _ ← found (NotFoundException "Conversation not found") existing;
  update_row unconstrained id (fun c => c <| Conversation.unreadCount := 0 |>).
Definition markRead (principal : Principal.t) (id : string) : io World Conversation.t :=
  transaction (markRead_body (Principal.tenantId principal) id).

Definition addNote_body (principal : Principal.t) (id body : string) : io World (string * ConversationNote.t) :=
  conversation ← find_row (conversation_of id (Principal.tenantId principal));
  _ ← found (NotFoundException "Conversation not found") conversation;
  createdAt ← now;
  create_row unconstrained
    {| ConversationNote.tenantId := Principal.tenantId principal; ConversationNote.conversationId := id;
       ConversationNote.createdByApiKeyId := Some (Principal.apiKeyId principal); ConversationNote.body := body;
       ConversationNote.createdAt := createdAt |}.
Definition addNote (principal : Principal.t) (id body : string) : io World (string * ConversationNote.t) :=
  body ← lift (requiredText body "Note");
  transaction (addNote_body principal id body).
End inbox.
