(* ===== verification/InboxAssignment.v ===== *)
(** Which agent a conversation goes to: what claims, automatic routing and changes by an administrator
    promise, and the limits of the agents. *)
From stdpp Require Import prelude gmap strings sorting.
From Stdlib Require Import ZArith Lia.
From S2P Require Import Prelude Json Io Prisma Domain Frame Tables AuditTrail Segments Senders Pages Auth InboxAgents InboxTeams InboxSkills InboxAdmission Inbox.
#[local] Open Scope Z_scope.
Import ConversationStatus.

(** ** The loop of the routing *)
Lemma least_loaded_spec f x l :
  StronglySorted JsString.le (x :: l) ->
  let '(a, n) := least_loaded f x l in
  n = f a /\ a ∈ x :: l /\ forall b, b ∈ x :: l -> (f a < f b)%nat \/ (f a = f b /\ JsString.le a b).
Proof.
  unfold least_loaded.
  enough (Hg : forall seen a, a ∈ seen -> StronglySorted JsString.le (seen ++ l) ->
    (forall b, b ∈ seen -> (f a < f b)%nat \/ (f a = f b /\ JsString.le a b)) ->
    let '(a', n) := foldl (fun s c => let load := f c in if (load <? s.2)%nat then (c, load) else s) (a, f a) l in
    n = f a' /\ a' ∈ seen ++ l /\ forall b, b ∈ seen ++ l -> (f a' < f b)%nat \/ (f a' = f b /\ JsString.le a' b)).
  { intros Hs. apply (Hg [x] x); [by left|done|]. intros b ->%list_elem_of_singleton. right. split; [done|]. by destruct (JsString.le_total x x). }
  induction l as [|c l IH]; intros seen a Ha Hs Hmin; [by rewrite app_nil_r|].
  cbn [foldl]. cbv zeta. cbn [snd]. rewrite (cons_middle c seen l), (assoc_L (++)) in *.
  destruct (Nat.ltb_spec (f c) (f a)) as [Hlt|Hge].
  - apply IH; [apply elem_of_app; right; by left|done|]. intros b [Hb| ->%list_elem_of_singleton]%elem_of_app.
    + left. destruct (Hmin b Hb); lia.
    + right. split; [done|]. by destruct (JsString.le_total c c).
  - apply IH; [apply elem_of_app; by left|done|]. intros b [Hb| ->%list_elem_of_singleton]%elem_of_app; [by apply Hmin|].
    destruct (Nat.lt_trichotomy (f a) (f c)) as [?|[?|?]]; [by left| |lia]. right. split; [done|].
    rewrite <- (assoc_L (++)) in Hs. cbn in Hs. apply (StronglySorted_app_1_elem_of JsString.le seen (c :: l)); [done|done|by left].
Qed.

Section assignment.
Context `{Prisma} `{Environment} {F : js_error -> Prop} `{!Faulty F}.

(** ** Candidates *)
#[local] Instance candidate_first_trans : Transitive candidate_first.
Proof. intros a b c. apply JsString.le_trans. Qed.
#[local] Instance candidate_first_total : Total candidate_first.
Proof. intros a b. apply JsString.le_total. Qed.

(** An active member of the team, with what the query reads of it. *)
Definition routing_member (T team : string) (w : World) (c : Candidate.t) : Prop :=
  (exists k m, row k w = Some m /\ is_member T team (Candidate.agentId c) k m = true) /\
  exists a, row (Candidate.agentId c) w = Some a /\ InboxAgent.tenantId a = T /\ InboxAgent.active a = true /\
    InboxAgent.presenceStatus a = Candidate.presenceStatus c /\
    InboxAgent.maxConcurrentConversations a = Candidate.maxConcurrentConversations c.

Lemma routing_candidates_elem T team w c : c ∈ candidates_of T team w <-> routing_member T team w c.
Proof.
  unfold candidates_of, routing_member. rewrite (merge_sort_Permutation candidate_first), list_elem_of_omap. split.
  - intros ([k m] & Hm & Ho). apply findMany_elem in Hm as [[Ht Htm]%andb_true_iff Hk].
    apply bind_Some in Ho as (a & Ha & Ho). destruct (_ && _) eqn:E in Ho; [|done]. injection Ho as <-.
    apply andb_true_iff in E as [Hta%bool_decide_eq_true Hact]. apply bool_decide_eq_true in Ht as Ht'.
    cbn in *. split.
    + exists k, m. split; [exact Hk|]. unfold is_member. by rewrite Ht, Htm, bool_decide_true.
    + exists a. split; [done|]. split; [congruence|]. done.
  - intros [(k & m & Hk & Hm) (a & Ha & Hta & Hact & Hp & Hl)].
    unfold is_member in Hm. apply andb_true_iff in Hm as [[Ht Htm]%andb_true_iff Hma%bool_decide_eq_true].
    exists (k, m). split; [apply findMany_elem; by rewrite Ht, Htm|]. cbn. rewrite Hma, Ha. cbn.
    apply bool_decide_eq_true in Ht. rewrite bool_decide_true, Hact, Hp, Hl by congruence. cbn. by destruct c.
Qed.
Lemma candidates_sorted T team w : StronglySorted JsString.le (Candidate.agentId <$> candidates_of T team w).
Proof.
  apply (StronglySorted_fmap _ candidate_first); [done|]. apply (StronglySorted_merge_sort candidate_first).
Qed.

(** An agent that may get a conversation of the team. *)
Definition eligible (T id team : string) (w : World) (a : string) : Prop :=
  exists agent, row a w = Some agent /\ InboxAgent.tenantId agent = T /\ InboxAgent.active agent = true /\
    InboxAgent.presenceStatus agent = InboxAgentPresenceStatus.AVAILABLE /\
    (exists k m, row k w = Some m /\ is_member T team a k m = true) /\
    qualified T id a w /\ below_limit T a (InboxAgent.maxConcurrentConversations agent) w.

(** No agent has the empty id: ids are UUIDs. *)
Definition agents_named (w : World) : Prop := row (R := InboxAgent.t) "" w = None.

Lemma grouped_load T ids w id :
  id ∈ ids -> id <> ""%string -> default O (map_of (filter (fun r => r.1 <> ""%string) (groupedLoads T ids w)) !! id) = load T id w.
Proof.
  intros Hin Hne. set (l := filter _ _).
  assert (Hl : forall n, (id, n) ∈ l <-> n = load T id w /\ n <> O).
  { intros n. unfold l, groupedLoads. rewrite list_elem_of_filter, list_elem_of_omap. split.
    - intros [_ (i & _ & Ho)]. destruct (load T i w) eqn:E; [done|]. injection Ho as -> <-. by rewrite E.
    - intros [-> Hn]. split; [done|]. exists id. split; [by apply elem_of_remove_dups|]. by destruct (load T id w). }
  destruct (load T id w) as [|n] eqn:E.
  - destruct (map_of l !! id) as [n|] eqn:Em; [|done]. by apply map_of_some, Hl in Em as [-> ?].
  - rewrite (map_of_lookup l id (S n)); [done| |by apply Hl]. intros v v' [-> _]%Hl [-> _]%Hl. done.
Qed.

(** Those of the candidates the code keeps are the eligible agents, in the order of their ids. *)
Definition shortlist (T id team : string) (w : World) : list string :=
  let av := filter (fun c => available c = true) (candidates_of T team w) in
  let ids := filter (fun a => meets_all T id a w = true) (Candidate.agentId <$> av) in
  with_capacity av (fun a => default O (map_of (filter (fun r => r.1 <> ""%string) (groupedLoads T ids w)) !! a)) ids.

Lemma capacity_lookup T team w c :
  c ∈ filter (fun c => available c = true) (candidates_of T team w) ->
  map_of ((fun c => (Candidate.agentId c, Candidate.maxConcurrentConversations c)) <$>
            filter (fun c => available c = true) (candidates_of T team w)) !! Candidate.agentId c =
  Some (Candidate.maxConcurrentConversations c).
Proof.
  intros Hin. apply map_of_lookup; [|apply list_elem_of_fmap; by exists c].
  assert (Hrow : forall l, (Candidate.agentId c, l) ∈ (fun c => (Candidate.agentId c, Candidate.maxConcurrentConversations c)) <$>
            filter (fun c => available c = true) (candidates_of T team w) ->
          exists a, row (Candidate.agentId c) w = Some a /\ InboxAgent.maxConcurrentConversations a = l).
  { intros l (c' & [= E ->] & [_ Hc]%list_elem_of_filter)%list_elem_of_fmap.
    apply routing_candidates_elem in Hc as [_ (a & Ha & _ & _ & _ & Hl)]. exists a. split; [congruence|done]. }
  intros l l' (a & Ha & <-)%Hrow (a' & Ha' & <-)%Hrow. congruence.
Qed.

Lemma shortlist_elem T id team w a : agents_named w -> a ∈ shortlist T id team w <-> eligible T id team w a.
Proof.
  intros Hn. unfold shortlist. cbv zeta. set (av := filter _ (candidates_of T team w)).
  set (ids := filter (fun a => meets_all T id a w = true) (Candidate.agentId <$> av)).
  unfold with_capacity. cbv zeta. rewrite list_elem_of_filter.
  assert (Hids : a ∈ ids <-> qualified T id a w /\ exists c, Candidate.agentId c = a /\ available c = true /\ routing_member T team w c).
  { unfold ids. rewrite list_elem_of_filter, meets_all_spec, list_elem_of_fmap. split; intros [Hq Hc]; (split; [done|]).
    - destruct Hc as (c & -> & [Hav Hc]%list_elem_of_filter). exists c. split; [done|]. split; [done|]. by apply routing_candidates_elem.
    - destruct Hc as (c & <- & Hav & Hc). exists c. split; [done|]. apply list_elem_of_filter. split; [done|]. by apply routing_candidates_elem. }
  assert (Hcap : forall c, available c = true -> routing_member T team w c -> Candidate.agentId c ∈ ids ->
    match default None (map_of ((fun c => (Candidate.agentId c, Candidate.maxConcurrentConversations c)) <$> av) !! Candidate.agentId c) with
    | None => true
    | Some limit => Z.of_nat (default O (map_of (filter (fun r => r.1 <> ""%string) (groupedLoads T ids w)) !! Candidate.agentId c)) <? limit
    end = true <-> below_limit T (Candidate.agentId c) (Candidate.maxConcurrentConversations c) w).
  { intros c Hav Hc Hin. unfold av. rewrite capacity_lookup by (apply list_elem_of_filter; split; [done|by apply routing_candidates_elem]).
    cbn. unfold below_limit. destruct (Candidate.maxConcurrentConversations c); [|done]. rewrite grouped_load; [apply Z.ltb_lt|done|].
    intros E. destruct Hc as (_ & x & Hx & _). rewrite E in Hx. by rewrite Hn in Hx. }
  split.
  - intros [Hl Hin]. pose proof Hin as (Hq & c & <- & Hav & Hc)%Hids. apply (Hcap c Hav Hc Hin) in Hl.
    destruct Hc as [Hm (x & Hx & Ht & Hact & Hp & Hmax)]. exists x. repeat (split; [try done|]).
    + rewrite Hp. by apply bool_decide_eq_true in Hav.
    + by rewrite Hmax.
  - intros (x & Hx & Ht & Hact & Hp & Hm & Hq & Hl).
    set (c := Candidate.make a (InboxAgent.presenceStatus x) (InboxAgent.maxConcurrentConversations x)).
    assert (Hc : routing_member T team w c) by (split; [done|exists x; done]).
    assert (Hav : available c = true) by by apply bool_decide_eq_true.
    assert (Hin : a ∈ ids) by (apply Hids; split; [done|exists c; done]).
    split; [|done]. by apply (Hcap c Hav Hc Hin).
Qed.
Lemma shortlist_sorted T id team w : StronglySorted JsString.le (shortlist T id team w).
Proof.
  unfold shortlist, with_capacity. apply StronglySorted_filter, StronglySorted_filter.
  apply (StronglySorted_fmap _ candidate_first); [done|]. apply StronglySorted_filter.
  apply (StronglySorted_merge_sort candidate_first).
Qed.

(** The choice: the least loaded of the eligible agents, the first by id among equals. *)
Definition chosen (T id team : string) (w : World) (a : string) : Prop :=
  eligible T id team w a /\
  forall b, eligible T id team w b -> (load T a w < load T b w)%nat \/ (load T a w = load T b w /\ JsString.le a b).

Lemma ok_select_agent T id team P w n :
  skills_once w -> agents_named w ->
  ((exists t, row team w = Some t /\ InboxTeam.tenantId t = T /\ InboxTeam.active t = true) -> skills_active T id w ->
   forall a md n, chosen T id team w a -> P (a, md) (w <| tick := n |>)) ->
  ((forall t, row team w = Some t -> InboxTeam.tenantId t = T -> InboxTeam.active t = false) \/
   ~ skills_active T id w \/ (forall a, ~ eligible T id team w a) -> forall m, F (UnprocessableEntityException m)) ->
  wp (select_agent T id team) (outcome F P) (w <| tick := n |>).
Proof.
  intros Hu Hn HP HF. unfold select_agent. ok_steps.
  pose proof (find_tenant InboxTeam.tenantId team T InboxTeam.active w) as Ht.
  destruct (findFirst _ _) as [[kt t]|]; apply ok_found; try done; [|intros _; apply HF; by left].
  destruct Ht as (-> & Hkt & Htt & Hta). intros x [= <-].
  apply ok_bind, ok_db. intros cs w' n1 [= <- <-]. change (candidates_of T team (w <| tick := n1 |>)) with (candidates_of T team w).
  set (av := filter (fun c => available c = true) (candidates_of T team w)).
  assert (Hav : av = [] -> forall a, ~ eligible T id team w a).
  { intros E a He%(shortlist_elem T id team w a Hn). unfold shortlist, with_capacity in He. fold av in He. rewrite E in He.
    by apply list_elem_of_filter in He as [_ ?%elem_of_nil]. }
  destruct (Nat.eqb_spec (length (candidates_of T team w)) 0) as [E|_].
  { apply ok_throw, HF. right. right. apply Hav. apply nil_length_inv in E. unfold av. by rewrite E. }
  destruct (Nat.eqb_spec (length av) 0) as [E|_].
  { apply ok_throw, HF. right. right. apply Hav. by apply nil_length_inv in E. }
  apply ok_bind, ok_filter; [done| |intros Hna; apply HF; auto]. intros Hact m n2. cbv beta.
  set (ids := filter (fun a => meets_all T id a w = true) (Candidate.agentId <$> av)).
  destruct (Nat.eqb_spec (length ids) 0) as [E|_].
  { apply ok_throw, HF. right. right. intros a He%(shortlist_elem T id team w a Hn). apply nil_length_inv in E.
    unfold shortlist, with_capacity in He. fold av in He. fold ids in He. rewrite E in He. by apply list_elem_of_filter in He as [_ ?%elem_of_nil]. }
  apply ok_bind, ok_db. intros gs w' n3 [= <- <-]. change (groupedLoads T ids (w <| tick := n3 |>)) with (groupedLoads T ids w).
  unfold ids, av. cbv zeta. fold (shortlist T id team w). destruct (shortlist T id team w) as [|x l] eqn:Es.
  { apply ok_throw, HF. right. right. intros a He%(shortlist_elem T id team w a Hn). rewrite Es in He. by apply elem_of_nil in He. }
  apply ok_ret. clear Hav.
  match goal with |- context [least_loaded ?f x l] => pose proof (least_loaded_spec f x l) as Hl; set (loadOf := f) in * end.
  rewrite <- Es in Hl. specialize (Hl (shortlist_sorted T id team w)). destruct (least_loaded loadOf x l) as [a k].
  destruct Hl as (_ & Ha & Hmin). apply HP; [by exists t|done|].
  assert (Hload : forall b, b ∈ shortlist T id team w -> loadOf b = load T b w).
  { intros b Hb. pose proof Hb as He. apply (shortlist_elem T id team w b Hn) in He as (xb & Hx & _).
    unfold loadOf. apply grouped_load; [|intros ->; by rewrite Hn in Hx].
    unfold shortlist, with_capacity in Hb. by apply list_elem_of_filter in Hb as [_ Hb]. }
  split; [by apply (shortlist_elem T id team w a Hn)|]. intros b Hb%(shortlist_elem T id team w b Hn).
  rewrite <- !Hload by done. by apply Hmin.
Qed.

(** ** Claims and routes *)
(** The one row that an operation rewrites; beside it only the audit trail grows. *)
Definition rewrote (id : string) (c' : Conversation.t) (w w' : World) : Prop :=
  exists t al n, rows t = <[id := c']> (rows (conversations w)) /\
    w' = w <| conversations := t |> <| auditLogs := al |> <| tick := n |>.
Definition untouched (w w' : World) : Prop := exists n, w' = w <| tick := n |>.
Lemma rewrote_tick id c' w w' n : rewrote id c' w w' -> rewrote id c' w (w' <| tick := n |>).
Proof. intros (t & al & n' & Ht & ->). by exists t, al, n. Qed.
Lemma untouched_tick w w' n : untouched w w' -> untouched w (w' <| tick := n |>).
Proof. intros [n' ->]. by exists n. Qed.

(** No conversation of the tenant has this id. *)
Definition no_conversation (T id : string) (w : World) : Prop := forall c, row id w = Some c -> Conversation.tenantId c <> T.

Lemma ok_find_conversation T id P w n :
  (forall n, no_conversation T id w -> P None (w <| tick := n |>)) ->
  (forall c n, row id w = Some c -> Conversation.tenantId c = T -> P (Some (c, assigned_team id c w)) (w <| tick := n |>)) ->
  wp (find_conversation T id) (outcome F P) (w <| tick := n |>).
Proof.
  intros HN HS. apply ok_db. intros o w' n' [= <- <-]. change (conversations (w <| tick := n' |>)) with (conversations w).
  pose proof (find_of_tenant Conversation.tenantId id T w) as Hf. cbn in Hf.
  destruct (findFirst _ _) as [[k c]|]; [|by apply HN]. destruct Hf as (-> & Hk & Ht). by apply HS.
Qed.
Lemma ok_conversation_again T id P w n c :
  row id w = Some c -> Conversation.tenantId c = T -> (forall n, P c (w <| tick := n |>)) ->
  wp (conversation_again T id) (outcome F P) (w <| tick := n |>).
Proof.
  intros Hc Ht HP. unfold conversation_again. ok_steps. pose proof (find_of_tenant Conversation.tenantId id T w) as Hf.
  destruct (findFirst _ _) as [[k c']|]; apply ok_found; try done; [|by destruct (Hf c)].
  destruct Hf as (-> & Hk & _). intros x [= <-]. apply ok_ret. cbn. rewrite Hc in Hk. injection Hk as <-. apply HP.
Qed.
Lemma ok_membership T team a msg P w n :
  (forall n, (exists k m, row k w = Some m /\ is_member T team a k m = true) -> P tt (w <| tick := n |>)) ->
  (~ (exists k m, row k w = Some m /\ is_member T team a k m = true) -> F (UnprocessableEntityException msg)) ->
  wp (assertAgentTeamMembership T team a msg) (outcome F P) (w <| tick := n |>).
Proof.
  intros HP HF. unfold assertAgentTeamMembership. ok_steps. apply ok_found.
  - intros [k m] E. apply findFirst_some in E as [Hk Hm]. ok_steps. apply HP. by exists k, m.
  - intros E. apply HF. intros (k & m & Hk & Hm). by rewrite (findFirst_none _ _ _ _ E Hk) in Hm.
Qed.
(** A member of the team, if there is one. *)
Definition of_team (T : string) (team : option string) (a : string) (w : World) : Prop :=
  forall t, truthy team = Some t -> exists k m, row k w = Some m /\ is_member T t a k m = true.
Lemma ok_team_member T team a msg P w n :
  (forall n, of_team T team a w -> P tt (w <| tick := n |>)) ->
  (~ of_team T team a w -> F (UnprocessableEntityException msg)) ->
  wp (match truthy team with Some t => assertAgentTeamMembership T t a msg | None => mret tt end) (outcome F P)
    (w <| tick := n |>).
Proof.
  intros HP HF. unfold of_team in *. destruct (truthy team) as [t|]; [|apply ok_ret, HP; done].
  apply ok_membership; [intros n1 Hm; apply HP; by intros ? [= <-]|]. intros Hn. apply HF. intros Hm. by apply Hn, Hm.
Qed.
(** The last two statements of an assignment. *)
Lemma ok_rewrite {A} id f (res : Conversation.t -> A) audit (P : A -> World -> Prop) w n c :
  row id w = Some c -> (forall w', rewrote id (f c) w w' -> P (res (f c)) w') ->
  wp (conversation ← update_row unconstrained id f; _ ← write_audit audit; mret (res conversation)) (outcome F P)
    (w <| tick := n |>).
Proof.
  intros Hc HP. apply ok_bind, (ok_update_found id f _ _ _ c Hc). intros t n1 Ht.
  ok_steps. apply HP. eexists t, _, _. split; [exact Ht|reflexivity].
Qed.
End assignment.

Section contracts.
Context `{Prisma} `{Environment}.

(** Why an agent may take a conversation: who it is, and that it may have one more. *)
Definition admitted (T id : string) (c : Conversation.t) (a : string) (w : World) : Prop :=
  exists agent, row a w = Some agent /\ InboxAgent.tenantId agent = T /\ InboxAgent.active agent = true /\
    InboxAgent.presenceStatus agent = InboxAgentPresenceStatus.AVAILABLE /\
    of_team T (assigned_team id c w) a w /\
    skills_active T id w /\ qualified T id a w /\ below_limit T a (InboxAgent.maxConcurrentConversations agent) w.
Definition claimed (T id a : string) (w : World) (res : Conversation.t * bool) (w' : World) : Prop :=
  exists c, row id w = Some c /\ Conversation.tenantId c = T /\
    if res.2 then truthy (Conversation.assignedAgentId c) = None /\ admitted T id c a w /\
                  res.1 = assign (Some a) c /\ rewrote id (assign (Some a) c) w w'
    else Conversation.assignedAgentId c = Some a /\ res.1 = c /\ untouched w w'.
(** What a refusal tells of the state, by its class; an [Error] is a failure of the database. *)
Definition claim_refused (T id a : string) (w : World) (e : js_error) : Prop :=
  match e with
  | NotFoundException _ => no_conversation T id w
  | UnprocessableEntityException _ => exists c, row id w = Some c /\ Conversation.tenantId c = T /\ ~ admitted T id c a w
  | ConflictException _ => exists c b, row id w = Some c /\ Conversation.tenantId c = T /\
      Conversation.assignedAgentId c = Some b /\ b <> a
  | Error _ => True
  | _ => False
  end.
#[export] Instance claim_faulty T id a w : Faulty (claim_refused T id a w).
Proof. done. Qed.

Lemma claim_live actor id a ctx w :
  skills_once w ->
  wp (claimConversation_body actor id a ctx)
    (outcome (claim_refused (MutationActor.tenantId actor) id a w) (claimed (MutationActor.tenantId actor) id a w)) w.
Proof.
  intros Hu. apply start. intros n. unfold claimConversation_body. cbv zeta. generalize (MutationActor.tenantId actor). intros T.
  apply ok_bind, ok_db. intros [] w' n1 [= <-]. apply ok_bind, ok_find_conversation; [by intros n2 Hno; apply ok_throw|].
  intros c n2 Hc Ht. apply ok_bind, ok_ret.
  assert (HF : ~ admitted T id c a w -> forall m, claim_refused T id a w (UnprocessableEntityException m)) by (intros Hn m; by exists c).
  apply ok_bind, ok_lockActiveAgentCapacity.
  2:{ intros Hin. apply HF. intros (x & Hx & Htx & Hax & _). by rewrite (Hin x Hx Htx) in Hax. }
  intros agent n3 Ha Hta Hact. case_bool_decide as Hsame.
  { apply ok_bind, (ok_conversation_again T id _ _ _ c Hc Ht). intros n4. apply ok_ret.
    exists c. split; [done|]. split; [done|]. cbn. split; [done|]. split; [done|]. by eexists. }
  assert (Hadm : admitted T id c a w -> InboxAgent.presenceStatus agent = InboxAgentPresenceStatus.AVAILABLE /\
    of_team T (assigned_team id c w) a w /\ (skills_active T id w /\ qualified T id a w) /\ below_limit T a (InboxAgent.maxConcurrentConversations agent) w).
  { intros (x & Hx & _ & _ & H1 & H2 & H3 & H4 & H5). rewrite Ha in Hx. injection Hx as <-. done. }
  case_bool_decide as Hfree.
  { apply ok_throw. exists c. destruct (Conversation.assignedAgentId c) as [b|] eqn:Eb; [|by destruct Hfree]. exists b.
    split; [done|]. split; [done|]. split; [done|]. congruence. }
  apply ok_bind, ok_available; [intros Hav|intros Hn; apply HF; intros Had; by apply Hn, Hadm]. cbn in Hav.
  apply ok_bind, ok_team_member; [intros n4 Hm|intros Hn; apply HF; intros Had; by apply Hn, Hadm].
  apply ok_bind, ok_meets; [done|intros Hsk Hq _ n5|intros Hn; apply HF; intros Had; by apply Hn, Hadm].
  apply ok_bind, ok_capacity; [intros Hl _ n6|intros Hn; apply HF; intros Had; by apply Hn, Hadm].
  apply (ok_rewrite id _ (fun c => (c, true)) _ _ _ _ c Hc). intros w' Hw'. exists c. split; [done|]. split; [done|].
  split; [|split; [by exists agent|split; [done|exact Hw']]].
  destruct (truthy _); [|done]. destruct Hfree. by eexists.
Qed.

Definition routed (T id : string) (w : World) (res : Conversation.t * bool) (w' : World) : Prop :=
  exists c, row id w = Some c /\ Conversation.tenantId c = T /\
    if res.2 then truthy (Conversation.assignedAgentId c) = None /\
                  exists team t a, truthy (assigned_team id c w) = Some team /\ row team w = Some t /\
                    InboxTeam.tenantId t = T /\ InboxTeam.active t = true /\ skills_active T id w /\
                    chosen T id team w a /\ res.1 = assign (Some a) c /\ rewrote id (assign (Some a) c) w w'
    else is_Some (truthy (Conversation.assignedAgentId c)) /\ res.1 = c /\ untouched w w'.
(** A route is refused only for want of a conversation, of an active team, of active skills, or of an
    agent. *)
Definition route_refused (T id : string) (w : World) (e : js_error) : Prop :=
  match e with
  | NotFoundException _ => no_conversation T id w
  | UnprocessableEntityException _ => exists c, row id w = Some c /\ Conversation.tenantId c = T /\
      forall team, truthy (assigned_team id c w) = Some team ->
        (forall t, row team w = Some t -> InboxTeam.tenantId t = T -> InboxTeam.active t = false) \/
        ~ skills_active T id w \/ forall a, ~ eligible T id team w a
  | Error _ => True
  | _ => False
  end.
#[export] Instance route_faulty T id w : Faulty (route_refused T id w).
Proof. done. Qed.

Lemma route_live actor id ctx w :
  skills_once w -> agents_named w ->
  wp (routeConversation_body actor id ctx)
    (outcome (route_refused (MutationActor.tenantId actor) id w) (routed (MutationActor.tenantId actor) id w)) w.
Proof.
  intros Hu Hn. apply start. intros n. unfold routeConversation_body. cbv zeta. generalize (MutationActor.tenantId actor). intros T.
  apply ok_bind, ok_db. intros [] w' n1 [= <-]. apply ok_bind, ok_find_conversation; [by intros n2 Hno; apply ok_throw|].
  intros c n2 Hc Ht. apply ok_bind, ok_ret. case_bool_decide as Hfree.
  { apply ok_bind, (ok_conversation_again T id _ _ _ c Hc Ht). intros n4. apply ok_ret.
    exists c. split; [done|]. split; [done|]. cbn. split; [done|]. split; [done|]. by eexists. }
  apply ok_bind, ok_found; [|intros Hno; exists c; split; [done|]; split; [done|congruence]]. intros team Hteam.
  apply ok_bind, ok_select_agent; [done|done| |].
  2:{ intros Hr m. exists c. split; [done|]. split; [done|]. intros team' Hteam'. rewrite Hteam in Hteam'. by injection Hteam' as <-. }
  intros (t & Hrow & Htt & Hta) Hsk a md n3 Ha.
  apply (ok_rewrite id _ (fun c => (c, true)) _ _ _ _ c Hc). intros w' Hw'. exists c. split; [done|]. split; [done|].
  split; [destruct (truthy (Conversation.assignedAgentId c)); [destruct Hfree; by eexists|done]|].
  exists team, t, a. done.
Qed.

(** ** Changes by an administrator *)
Abbreviation dto_agent := UpdateConversationDto.assignedAgentId.
Abbreviation dto_team := UpdateConversationDto.assignedTeamId.

(** What an assignment needs: an agent that is given is active and has the skills, and if it is new to
    the conversation it is available and has room; a team that is given is active; and when either
    is given, the agent in the end belongs to the team in the end. *)
Record assignment_ok (T id : string) (dto : UpdateConversationDto.t) (c : Conversation.t) (w : World) : Prop := {
  ok_given_agent : forall a, truthy (final (dto_agent dto) None) = Some a ->
    exists agent, row a w = Some agent /\ InboxAgent.tenantId agent = T /\ InboxAgent.active agent = true /\
      (skills_active T id w /\ qualified T id a w) /\
      (Conversation.assignedAgentId c <> Some a ->
       InboxAgent.presenceStatus agent = InboxAgentPresenceStatus.AVAILABLE /\
       below_limit T a (InboxAgent.maxConcurrentConversations agent) w);
  ok_given_team : forall t, truthy (final (dto_team dto) None) = Some t ->
    exists team, row t w = Some team /\ InboxTeam.tenantId team = T /\ InboxTeam.active team = true;
  ok_member : is_given (dto_agent dto) || is_given (dto_team dto) = true ->
    forall a, truthy (final (dto_agent dto) (Conversation.assignedAgentId c)) = Some a ->
    of_team T (final (dto_team dto) (assigned_team id c w)) a w
}.

(** The team assignments after a change of the team. *)
Definition team_changed (T id : string) (team : option (option string)) (m m' : gmap string TeamAssignment.t) : Prop :=
  match team with
  | None => m' = m
  | Some None => forall k r, m' !! k = Some r <->
      m !! k = Some r /\ ~ (TeamAssignment.tenantId r = T /\ TeamAssignment.conversationId r = id)
  | Some (Some t) => exists k,
      (m !! k = None /\ (forall k' r, m !! k' = Some r -> TeamAssignment.conversationId r <> id) /\
       m' = <[k := TeamAssignment.make T id t]> m) \/
      (exists r, m !! k = Some r /\ TeamAssignment.conversationId r = id /\
       m' = <[k := r <| TeamAssignment.teamId := t |>]> m)
  end.
(** The fields of a changed conversation, one by one. *)
Definition as_asked (dto : UpdateConversationDto.t) (now : Z) (c c' : Conversation.t) : Prop :=
  c' = Conversation.make (Conversation.tenantId c) (Conversation.contactId c) (Conversation.senderId c)
         (match UpdateConversationDto.assignedAgentId dto with Some a => a | None => Conversation.assignedAgentId c end)
         (match UpdateConversationDto.status dto with Some s => s | None => Conversation.status c end)
         (match UpdateConversationDto.priority dto with Some p => p | None => Conversation.priority c end)
         (Conversation.unreadCount c) (Conversation.lastMessageAt c) (Conversation.lastInboundAt c)
         (Conversation.lastOutboundAt c)
         (match UpdateConversationDto.status dto with
          | None => Conversation.resolvedAt c | Some RESOLVED => Some now | Some _ => None end)
         (Conversation.responseSlaStartedAt c) (Conversation.responseSlaDueAt c)
         (Conversation.responseSlaRespondedAt c) (Conversation.responseSlaEscalatedAt c).
Lemma as_asked_data dto now c c' : as_asked dto now c c' <-> c' = conversation_data dto now c.
Proof. unfold as_asked. by destruct dto as [[[]|] [|] [|] ?], c. Qed.

Definition updated (T id : string) (dto : UpdateConversationDto.t) (w : World) (c' : Conversation.t) (w' : World) : Prop :=
  exists c now ct tt al n, row id w = Some c /\ Conversation.tenantId c = T /\ assignment_ok T id dto c w /\
    as_asked dto now c c' /\ rows ct = <[id := c']> (rows (conversations w)) /\
    team_changed T id (dto_team dto) (rows (teamAssignments w)) (rows tt) /\
    w' = w <| teamAssignments := tt |> <| conversations := ct |> <| auditLogs := al |> <| tick := n |>.
Definition update_refused (T id : string) (dto : UpdateConversationDto.t) (w : World) (e : js_error) : Prop :=
  match e with
  | NotFoundException _ => no_conversation T id w
  | UnprocessableEntityException _ => exists c, row id w = Some c /\ Conversation.tenantId c = T /\ ~ assignment_ok T id dto c w
  | Error _ => True
  | _ => False
  end.
#[export] Instance update_faulty T id dto w : Faulty (update_refused T id dto w).
Proof. done. Qed.

Lemma ok_assign_team {F : js_error -> Prop} `{!Faulty F} T id team (P : unit -> World -> Prop) w n :
  (forall t n, team_changed T id team (rows (teamAssignments w)) (rows t) -> P tt (w <| teamAssignments := t |> <| tick := n |>)) ->
  wp (assign_team T id team) (outcome F P) (w <| tick := n |>).
Proof.
  intros HP. destruct team as [[t|]|]; cbn [assign_team].
  - apply ok_db. intros [] w' n1 Hu. change (teamAssignments (w <| tick := n1 |>)) with (teamAssignments w) in Hu.
    destruct (findFirst _ _) as [[k r]|] eqn:Ef.
    + apply bind_Some in Hu as (tb & Hu & [= <-]). apply update_some in Hu as (r' & Hr & Ht & _).
      apply findFirst_some in Ef as [Hk Hc%bool_decide_eq_true]. rewrite Hk in Hr. injection Hr as <-.
      apply (HP tb n1). exists k. right. by exists r.
    + apply bind_Some in Hu as ([k tb] & Hu & [= <-]). apply create_some in Hu as (Hk & Ht & _).
      apply (HP tb n1). exists k. left. split; [done|]. split; [|done]. intros k' r Hr.
      by pose proof (findFirst_none _ _ _ _ Ef Hr) as Hn%bool_decide_eq_false.
  - apply ok_bind, ok_deleteMany_rows_of. intros i t n1 Ht _. apply ok_ret. apply (HP t n1). intros k r. rewrite Ht.
    unfold row. cbn. by rewrite andb_false_iff, !bool_decide_eq_false, not_and_l.
  - apply ok_ret. replace (w <| tick := n |>) with (w <| teamAssignments := teamAssignments w |> <| tick := n |>) by by destruct w.
    by apply HP.
Qed.

Lemma truthy_some (o : option string) a : truthy o = Some a -> o = Some a.
Proof. by destruct o as [[]|]. Qed.

(** *** The checks, one after the other *)
Section checks.
Context (T id : string) (dto : UpdateConversationDto.t) (c : Conversation.t) (w : World).
Context {F : js_error -> Prop} `{!Faulty F}.
Context (HF : ~ assignment_ok T id dto c w -> forall m, F (UnprocessableEntityException m)).

Definition capacity_of (a : string) (agent : InboxAgent.t) : LockedAgentCapacity :=
  {| agentId := a; presenceStatus := InboxAgent.presenceStatus agent;
     maxConcurrentConversations := InboxAgent.maxConcurrentConversations agent |}.
(** What the check of the given agent finds. *)
Definition checked_agent (cap : option LockedAgentCapacity) : Prop :=
  match truthy (final (dto_agent dto) None) with
  | None => cap = None
  | Some a => exists agent, row a w = Some agent /\ InboxAgent.tenantId agent = T /\ InboxAgent.active agent = true /\
      cap = Some (capacity_of a agent)
  end.

Lemma ok_check_agent P n :
  (forall cap n, checked_agent cap -> P cap (w <| tick := n |>)) ->
  wp (match truthy (final (dto_agent dto) None) with
      | None => mret None
      | Some a => c ← lockActiveAgentCapacity T a "Assigned inbox agent is not active in this tenant"; mret (Some c)
      end) (outcome F P) (w <| tick := n |>).
Proof.
  intros HP. unfold checked_agent in HP. destruct (truthy (final (dto_agent dto) None)) as [a|] eqn:Ea; [|apply ok_ret; by apply HP].
  apply ok_bind, ok_lockActiveAgentCapacity.
  - intros agent n1 Ha Ht Hact. apply ok_ret, HP. by exists agent.
  - intros Hin. apply HF. intros Hok. destruct (ok_given_agent _ _ _ _ _ Hok a Ea) as (x & Hx & Htx & Hax & _).
    by rewrite (Hin x Hx Htx) in Hax.
Qed.
Lemma ok_check_team (P : unit -> World -> Prop) n :
  ((forall t, truthy (final (dto_team dto) None) = Some t ->
     exists team, row t w = Some team /\ InboxTeam.tenantId team = T /\ InboxTeam.active team = true) ->
   forall n, P tt (w <| tick := n |>)) ->
  wp (match truthy (final (dto_team dto) None) with
      | None => mret tt
      | Some t => team ← find_row (fun k r => of_tenant InboxTeam.tenantId t T k r && InboxTeam.active r);
                  _ ← found (UnprocessableEntityException "Assigned inbox team is not active in this tenant") team; mret tt
      end) (outcome F P) (w <| tick := n |>).
Proof.
  intros HP. destruct (truthy (final (dto_team dto) None)) as [t|] eqn:Et; [|apply ok_ret; by apply HP].
  ok_steps. pose proof (find_tenant InboxTeam.tenantId t T InboxTeam.active w) as Hf.
  destruct (findFirst _ _) as [[k team]|]; apply ok_found; try done.
  - destruct Hf as (-> & Hk & Ht & Ha). intros x _. apply ok_ret, HP. intros t' [= <-]. by exists team.
  - intros _. apply HF. intros Hok. destruct (ok_given_team _ _ _ _ _ Hok t Et) as (x & Hx & Htx & Hax). by rewrite (Hf x Hx Htx) in Hax.
Qed.
Lemma ok_check_member (P : unit -> World -> Prop) n :
  let finalAgentId := final (dto_agent dto) (Conversation.assignedAgentId c) in
  let finalTeamId := final (dto_team dto) (assigned_team id c w) in
  ((is_given (dto_agent dto) || is_given (dto_team dto) = true ->
    forall a, truthy finalAgentId = Some a -> of_team T finalTeamId a w) -> forall n, P tt (w <| tick := n |>)) ->
  wp (match truthy finalAgentId, truthy finalTeamId with
      | Some a, Some t =>
          if is_given (dto_agent dto) || is_given (dto_team dto) then
            assertAgentTeamMembership T t a "Assigned inbox agent is not a member of the assigned team"
          else mret tt
      | _, _ => mret tt
      end) (outcome F P) (w <| tick := n |>).
Proof.
  intros finalAgentId finalTeamId HP.
  assert (Hm : assignment_ok T id dto c w -> is_given (dto_agent dto) || is_given (dto_team dto) = true ->
    forall a, truthy finalAgentId = Some a -> of_team T finalTeamId a w) by by intros [].
  unfold of_team in *. destruct (truthy finalAgentId) as [a|]; [|by apply ok_ret, HP].
  destruct (truthy finalTeamId) as [t|]; [|by apply ok_ret, HP].
  destruct (is_given (dto_agent dto) || is_given (dto_team dto)); [|by apply ok_ret, HP].
  apply ok_membership; [intros n1 Hin; apply HP; by intros _ ? [= <-] ? [= <-]|].
  intros Hn. apply HF. intros Hok. apply Hn. by apply (Hm Hok eq_refl a eq_refl t).
Qed.
End checks.

Lemma ok_check_assignment {F : js_error -> Prop} `{!Faulty F} T id dto c (P : unit -> World -> Prop) w n :
  skills_once w -> (~ assignment_ok T id dto c w -> forall m, F (UnprocessableEntityException m)) ->
  (assignment_ok T id dto c w -> forall n, P tt (w <| tick := n |>)) ->
  wp (check_assignment T id dto c (assigned_team id c w)) (outcome F P) (w <| tick := n |>).
Proof.
  intros Hu HF HP. unfold check_assignment.
  apply ok_bind, (ok_check_agent T id dto c w HF). intros cap n1 Hcap.
  apply ok_bind, (ok_check_team T id dto c w HF). intros Hteam n2. cbv zeta.
  apply ok_bind, (ok_check_member T id dto c w HF). intros Hmem n3.
  unfold checked_agent in Hcap.
  destruct (truthy (final (dto_agent dto) None)) as [a|] eqn:Ea.
  - pose proof (truthy_some _ _ Ea) as Ef. destruct (dto_agent dto) as [o|] eqn:Ed; [|done]. cbn in Ef. subst o. cbn [final is_given default].
    cbn [final default] in Ea. rewrite Ea. destruct Hcap as (agent & Ha & Hta & Hact & ->). cbn [andb].
    assert (Hadm : assignment_ok T id dto c w -> (skills_active T id w /\ qualified T id a w) /\ (Conversation.assignedAgentId c <> Some a ->
       InboxAgent.presenceStatus agent = InboxAgentPresenceStatus.AVAILABLE /\
       below_limit T a (InboxAgent.maxConcurrentConversations agent) w)).
    { intros Hok. destruct (ok_given_agent _ _ _ _ _ Hok a) as (x & Hx & _ & _ & Hsk & Hnew); [by rewrite Ed|].
      rewrite Ha in Hx. injection Hx as <-. done. }
    assert (Hok : (skills_active T id w /\ qualified T id a w) -> (Conversation.assignedAgentId c <> Some a ->
       InboxAgent.presenceStatus agent = InboxAgentPresenceStatus.AVAILABLE /\
       below_limit T a (InboxAgent.maxConcurrentConversations agent) w) -> assignment_ok T id dto c w).
    { intros Hsk Hnew. split; rewrite ?Ed; [|done|].
      - intros a' Ha'. cbn [final default] in Ha'. assert (a' = a) as -> by congruence. by exists agent.
      - exact Hmem. }
    apply ok_bind, ok_bind, ok_meets; [done|intros Hsk Hq _ n4|intros Hn; apply HF; intros Had; by apply Hn, Hadm]. apply ok_ret.
    rewrite (bool_decide_true (Some a <> None)) by done. cbn [andb]. case_bool_decide as Hnew.
    + apply ok_bind, ok_available; [intros Hav|intros Hn; apply HF; intros Had; apply Hn, Hadm; [done|intros E; by destruct Hnew]].
      apply ok_bind, ok_capacity; [intros Hl _ n5|intros Hn; apply HF; intros Had; apply Hn, Hadm; [done|intros E; by destruct Hnew]].
      apply ok_ret, HP, Hok; done.
    + apply ok_ret, HP, Hok; [done|]. intros Hne. by destruct Hnew.
  - subst cap. apply ok_bind.
    assert (Hend : P tt (w <| tick := n3 |>)).
    { apply HP. split; [|done|exact Hmem]. intros a Ha. by rewrite Ea in Ha. }
    assert (Hbody : wp (match truthy (final (dto_agent dto) (Conversation.assignedAgentId c)) with
       | Some a => if is_given (dto_agent dto) then
           _ ← assertAgentMeetsConversationSkills T id a "Assigned inbox agent does not satisfy conversation skill requirements"; mret tt
         else mret tt
       | None => mret tt end) (outcome F (fun _ => P tt)) (w <| tick := n3 |>)); [|exact Hbody].
    destruct (dto_agent dto) as [o|] eqn:Ed; cbn [final default is_given] in *.
    + rewrite Ea. by apply ok_ret.
    + destruct (truthy (Conversation.assignedAgentId c)); by apply ok_ret.
Qed.

Lemma update_live actor id dto ctx w :
  skills_once w ->
  wp (updateConversation_body actor id dto ctx)
    (outcome (update_refused (MutationActor.tenantId actor) id dto w) (updated (MutationActor.tenantId actor) id dto w)) w.
Proof.
  intros Hu. apply start. intros n. unfold updateConversation_body. cbv zeta. generalize (MutationActor.tenantId actor). intros T.
  apply ok_bind, ok_db. intros [] w' n1 [= <-]. apply ok_bind, ok_find_conversation; [by intros n2 Hno; apply ok_throw|].
  intros c n2 Hc Ht. apply ok_bind, ok_ret.
  apply ok_bind, ok_check_assignment; [done|intros Hn m; by exists c|]. intros Hok n3.
  apply ok_bind, ok_assign_team. intros tt n4 Htt.
  apply ok_bind, ok_now. intros now n5.
  apply ok_bind, (ok_update_found id _ _ _ _ c); [exact Hc|]. intros ct n6 Hct.
  apply ok_bind, ok_db. intros team w' n7 [= <- <-]. ok_steps.
  exists c, now, ct, tt. do 2 eexists. split; [done|]. split; [done|]. split; [done|].
  split; [by apply as_asked_data|]. split; [exact Hct|]. split; [exact Htt|]. reflexivity.
Qed.
End contracts.

Section theorems.
Context `{Prisma} `{Environment}.

(** A claim that succeeds gives an unassigned conversation of the tenant to an agent of the tenant
    that is active, available, a member of the conversation's team, has every required skill at
    its level and has room for one more, and changes nothing else but the audit trail; a claim
    by the agent that has the conversation changes nothing.  It is refused only for one of these
    reasons, and then nothing changes; only a failure reported after the commit leaves a claim done. *)
Theorem claimConversation_correct principal id a ctx w (Hu : skills_once w) :
  let T := Principal.tenantId principal in
  let '(r, w') := claimConversation principal id a ctx w in
  settled (F := claim_refused T id a w) (claimed T id a w) w r w'.
Proof.
  cbv zeta. pose proof (transaction_settled (claimConversation_body (Principal.actor principal) id a ctx)
    (claimed (Principal.tenantId principal) id a w) w (F := claim_refused (Principal.tenantId principal) id a w)) as Ht.
  unfold claimConversation. unfold wp in Ht. destruct (transaction _ w) as [r w']. apply Ht; [|by apply claim_live].
  intros [c b] w1 n (c0 & Hc & HT & Hb). exists c0. split; [done|]. split; [done|]. destruct b; cbn in *.
  - destruct Hb as (H1 & H2 & H3 & H4). by eauto using rewrote_tick.
  - destruct Hb as (H1 & H2 & H3). by eauto using untouched_tick.
Qed.

(** C7: Automatic routing picks the least-loaded agent: among the eligible agents (active, available, in the
    conversation's team, with every required skill at its level and below its limit) one with
    the fewest open conversations, the first by id among equals, and only that assignment and the
    audit trail change.  A conversation that has an agent stays as it is.  Routing is refused only when
    the conversation has no active team, a required skill is inactive, or no agent is eligible. *)
Theorem routeConversation_correct principal id ctx w (Hu : skills_once w) (Hn : agents_named w) :
  let T := Principal.tenantId principal in
  let '(r, w') := routeConversation principal id ctx w in
  settled (F := route_refused T id w) (routed T id w) w r w'.
Proof.
  cbv zeta. pose proof (transaction_settled (routeConversation_body (Principal.actor principal) id ctx)
    (routed (Principal.tenantId principal) id w) w (F := route_refused (Principal.tenantId principal) id w)) as Ht.
  unfold routeConversation. unfold wp in Ht. destruct (transaction _ w) as [r w']. apply Ht; [|by apply route_live].
  intros [c b] w1 n (c0 & Hc & HT & Hb). exists c0. split; [done|]. split; [done|]. destruct b; cbn in *.
  - destruct Hb as (Hf & team & t & a & H1 & H2 & H3 & H4 & H5 & H6 & H7 & H8). split; [done|]. exists team, t, a.
    by eauto 10 using rewrote_tick.
  - destruct Hb as (H1 & H2 & H3). by eauto using untouched_tick.
Qed.

Lemma updateConversation_live principal id dto ctx w :
  skills_once w ->
  wp (updateConversation principal id dto ctx) (fun r w' =>
    (set_fields (UpdateConversationDto.fields dto) = [] /\ w' = w /\ exists m, r = Throws (BadRequestException m)) \/
    settled (F := update_refused (Principal.tenantId principal) id dto w) (updated (Principal.tenantId principal) id dto w) w r w') w.
Proof.
  intros Hu. unfold updateConversation. case_bool_decide as He.
  - apply wp_throw. left. split; [done|]. split; [done|]. by eexists.
  - eapply wp_mono; [|intros r w'; right; eassumption].
    apply (transaction_settled (F := update_refused (Principal.tenantId principal) id dto w)); [|by apply update_live].
    intros c w1 n (c0 & now & ct & tt & al & n' & H1 & H2 & H3 & H4 & H5 & H6 & ->).
    exists c0, now, ct, tt, al, n. done.
Qed.

End theorems.
