(* ===== verification/InboxCapacity.v ===== *)
(** The limits of the agents through any sequence of operations on conversations: only reopening a
    conversation can take an agent past its limit. *)
From stdpp Require Import prelude gmap strings sorting.
From Stdlib Require Import ZArith Lia.
From S2P Require Import Prelude Json Io Prisma Domain Frame Tables AuditTrail Segments Senders Auth InboxAgents InboxTeams InboxSkills InboxAdmission Inbox InboxAssignment.
#[local] Open Scope Z_scope.
Import ConversationStatus.

(** ** Counting *)
Section counting.
Context `{Prisma} {R : Type}.

Lemma findMany_count (p : string -> R -> bool) (t : table R) :
  length (findMany p t) = size (filter (fun kr => p kr.1 kr.2 = true) (rows t)).
Proof.
  unfold findMany. rewrite <- length_map_to_list. apply Permutation_length.
  apply NoDup_Permutation; [apply NoDup_filter, NoDup_map_to_list|apply NoDup_map_to_list|].
  intros [k r]. rewrite list_elem_of_filter, !elem_of_map_to_list, map_lookup_filter_Some. cbn. tauto.
Qed.
Lemma filter_size_insert (p : string -> R -> bool) (m : gmap string R) k r :
  size (filter (fun kr => p kr.1 kr.2 = true) (<[k := r]> m)) =
    (size (filter (fun kr => p kr.1 kr.2 = true) (delete k m)) + Nat.b2n (p k r))%nat.
Proof.
  rewrite map_filter_insert. case_decide as E; cbn in E.
  - rewrite E, <- insert_delete_eq, <- map_filter_delete.
    rewrite map_size_insert_None by (apply map_lookup_filter_None_2; left; apply lookup_delete_eq). cbn. lia.
  - apply not_true_iff_false in E. rewrite E. cbn. lia.
Qed.
(** Rewriting one row moves the count by what it is worth before and after. *)
Lemma findMany_insert (p : string -> R -> bool) (t t' : table R) k r r' :
  rows t !! k = Some r -> rows t' = <[k := r']> (rows t) ->
  (length (findMany p t') + Nat.b2n (p k r) = length (findMany p t) + Nat.b2n (p k r'))%nat.
Proof.
  intros Hk Ht. rewrite !findMany_count, Ht, filter_size_insert.
  rewrite <- (insert_delete_id (rows t) k r Hk) at 2. rewrite filter_size_insert, delete_delete_eq. lia.
Qed.
End counting.

Section capacity.
Context `{Prisma} `{Environment}.

(** The operations on conversations, by whom they are made. *)
Inductive operation :=
| Update (principal : Principal.t) (id : string) (dto : UpdateConversationDto.t) (ctx : option AuditRequestContext)
| Claim (principal : Principal.t) (id agentId : string) (ctx : option AuditRequestContext)
| Route (principal : Principal.t) (id : string) (ctx : option AuditRequestContext)
| Release (principal : Principal.t) (id agentId : string) (ctx : option AuditRequestContext)
| MarkRead (principal : Principal.t) (id : string)
| AddNote (principal : Principal.t) (id body : string)
| SetRequirement (principal : Principal.t) (id skillId : string) (minLevel : Z) (ctx : option AuditRequestContext)
| RemoveRequirement (principal : Principal.t) (id skillId : string) (ctx : option AuditRequestContext).
Definition perform (o : operation) (w : World) : World :=
  match o with
  | Update p id dto ctx => (updateConversation p id dto ctx w).2
  | Claim p id a ctx => (claimConversation p id a ctx w).2
  | Route p id ctx => (routeConversation p id ctx w).2
  | Release p id a ctx => (releaseConversation p id a ctx w).2
  | MarkRead p id => (markRead p id w).2
  | AddNote p id body => (addNote p id body w).2
  | SetRequirement p id s n ctx => (setRequirement p id s n ctx w).2
  | RemoveRequirement p id s ctx => (removeRequirement p id s ctx w).2
  end.

(** A change that opens a conversation: to OPEN or PENDING, whatever it was. *)
Definition reopens (o : operation) : Prop :=
  match o with
  | Update _ _ dto _ => match UpdateConversationDto.status dto with Some s => is_open s = true | None => False end
  | _ => False
  end.

(** No agent gets past its limit, unless it was already, and then it gets no more. *)
Record within_limits (w w' : World) : Prop := {
  lim_agents : inboxAgents w' = inboxAgents w;
  lim_skills : agentSkills w' = agentSkills w;
  lim_load : forall a agent l, row a w = Some agent -> InboxAgent.maxConcurrentConversations agent = Some l ->
    Z.of_nat (load (InboxAgent.tenantId agent) a w') <= Z.max (Z.of_nat (load (InboxAgent.tenantId agent) a w)) l
}.
#[export] Instance within_limits_preorder : PreOrder within_limits.
Proof.
  split; [split; [done|done|intros; lia]|]. intros w1 w2 w3 [A1 A2 A3] [B1 B2 B3]. split; [congruence|congruence|].
  intros a agent l Ha Hl. specialize (A3 a agent l Ha Hl).
  assert (Ha2 : row a w2 = Some agent) by (unfold row; cbn; by rewrite A1). specialize (B3 a agent l Ha2 Hl). lia.
Qed.
Lemma within_limits_tick w n : within_limits w (w <| tick := n |>).
Proof. split; [done|done|]. intros a agent l _ _. change (load ?T a (w <| tick := n |>)) with (load T a w). lia. Qed.
Lemma within_limits_same w w' :
  inboxAgents w' = inboxAgents w -> agentSkills w' = agentSkills w -> conversations w' = conversations w -> within_limits w w'.
Proof. intros H1 H2 H3. split; [done|done|]. intros a agent l _ _. unfold load. rewrite H3. lia. Qed.

(** One conversation rewritten: whom it counts for after, it counted for before, or there was room. *)
Lemma within_limits_rewrite id c c' w w' :
  inboxAgents w' = inboxAgents w -> agentSkills w' = agentSkills w ->
  row id w = Some c -> rows (conversations w') = <[id := c']> (rows (conversations w)) ->
  (forall a agent l, row a w = Some agent -> InboxAgent.maxConcurrentConversations agent = Some l ->
     holds (InboxAgent.tenantId agent) a id c' = true -> holds (InboxAgent.tenantId agent) a id c = true \/
     Z.of_nat (load (InboxAgent.tenantId agent) a w) < l) ->
  within_limits w w'.
Proof.
  intros H1 H2 Hc Hr Hh. split; [done|done|]. intros a agent l Ha Hl. specialize (Hh a agent l Ha Hl). unfold load in *.
  pose proof (findMany_insert (holds (InboxAgent.tenantId agent) a) _ _ id c c' Hc Hr) as Hn.
  change (tbl w) with (conversations w) in Hn.
  destruct (holds (InboxAgent.tenantId agent) a id c') eqn:E'; cbn [Nat.b2n] in Hn; [|lia].
  destruct (Hh eq_refl) as [E|Hlt]; [rewrite E in Hn; cbn [Nat.b2n] in Hn; lia|lia].
Qed.

Lemma holds_spec T a id c :
  holds T a id c = true <-> Conversation.tenantId c = T /\ Conversation.assignedAgentId c = Some a /\ is_open (Conversation.status c) = true.
Proof. unfold holds. rewrite !andb_true_iff, !bool_decide_eq_true. tauto. Qed.

(** A settled transaction whose effect keeps the limits keeps them. *)
Lemma settled_within {A} (F : js_error -> Prop) (P : A -> World -> Prop) w r w' :
  (forall a w', P a w' -> within_limits w w') -> settled (F := F) P w r w' -> within_limits w w'.
Proof.
  intros HP Hs. destruct r as [a|e|]; [by eapply HP| |done].
  destruct Hs as [[_ [n ->]]|[_ [a Ha]]]; [apply within_limits_tick|by eapply HP].
Qed.

(** One conversation gets another agent, or none. *)
Lemma within_limits_assign id c a w w' :
  row id w = Some c -> rewrote id (assign a c) w w' ->
  (forall b agent l, a = Some b -> row b w = Some agent -> InboxAgent.maxConcurrentConversations agent = Some l ->
     InboxAgent.tenantId agent = Conversation.tenantId c -> Z.of_nat (load (InboxAgent.tenantId agent) b w) < l) ->
  within_limits w w'.
Proof.
  intros Hc (t & al & n & Ht & ->) Hl. apply (within_limits_rewrite id c (assign a c)); [done|done|done|exact Ht|].
  intros b agent l Hb Hmax (HT & Ha & Ho)%holds_spec. right. by eapply Hl.
Qed.
(** A transaction whose body keeps the limits when it ends normally. *)
Lemma transaction_within {A} (F : js_error -> Prop) `{!Faulty F} (m : io World A) w :
  wp m (outcome F (fun _ => within_limits w)) w -> within_limits w (transaction m w).2.
Proof.
  intros Hm. eapply (settled_within F (fun _ => within_limits w)); [done|].
  apply (transaction_settled (F := F) m (fun _ => within_limits w) w); [|done].
  intros a w1 n Hw. by etrans; [|apply within_limits_tick].
Qed.

Lemma claim_within principal id a ctx w : skills_once w -> within_limits w (claimConversation principal id a ctx w).2.
Proof.
  intros Hu. eapply (transaction_within (claim_refused (Principal.tenantId principal) id a w)), wp_mono; [by apply claim_live|].
  intros [[c b]|e|] w' Hr; [|done|done]. destruct Hr as (c0 & Hc & HT & Hb). destruct b; cbn in Hb.
  - destruct Hb as (_ & (agent & Ha & _ & _ & _ & _ & _ & _ & Hl) & -> & Hw). eapply within_limits_assign; [done|exact Hw|].
    intros b agent' l [= <-] Ha' Hmax Htt. rewrite Ha in Ha'. injection Ha' as <-. unfold below_limit in Hl. rewrite Hmax in Hl.
    by rewrite Htt, HT.
  - destruct Hb as (_ & _ & [n ->]). apply within_limits_tick.
Qed.
Lemma route_within principal id ctx w :
  skills_once w -> agents_named w -> within_limits w (routeConversation principal id ctx w).2.
Proof.
  intros Hu Hn. eapply (transaction_within (route_refused (Principal.tenantId principal) id w)), wp_mono; [by apply route_live|].
  intros [[c b]|e|] w' Hr; [|done|done]. destruct Hr as (c0 & Hc & HT & Hb). destruct b; cbn in Hb.
  - destruct Hb as (_ & team & t & a & _ & _ & _ & _ & _ & [(agent & Ha & _ & _ & _ & _ & _ & Hl) _] & -> & Hw).
    eapply within_limits_assign; [done|exact Hw|].
    intros b agent' l [= <-] Ha' Hmax Htt. rewrite Ha in Ha'. injection Ha' as <-. unfold below_limit in Hl. rewrite Hmax in Hl.
    by rewrite Htt, HT.
  - destruct Hb as (_ & _ & [n ->]). apply within_limits_tick.
Qed.
Lemma update_within principal id dto ctx w :
  skills_once w -> agents_named w -> ~ reopens (Update principal id dto ctx) ->
  within_limits w (updateConversation principal id dto ctx w).2.
Proof.
  intros Hu Hn Hre. pose proof (updateConversation_live principal id dto ctx w Hu) as Hl. unfold wp in Hl.
  destruct (updateConversation principal id dto ctx w) as [r w']. cbn [fst snd] in *.
  destruct Hl as [(_ & -> & _)|Hl]; [reflexivity|]. eapply settled_within; [|exact Hl]. clear Hl r w'.
  intros c' w' (c & now & ct & tt & al & n & Hc & HT & Hok & ->%as_asked_data & Hct & _ & ->).
  apply (within_limits_rewrite id c (conversation_data dto now c)); [done|done|done|exact Hct|].
  intros a agent l Ha Hmax (HT' & Has & Ho)%holds_spec. cbn in HT', Has, Ho.
  assert (Htt : Conversation.tenantId c = InboxAgent.tenantId agent).
  { rewrite <- HT'. by destruct (UpdateConversationDto.status dto). }
  assert (Hopen : is_open (Conversation.status c) = true).
  { cbn in Hre. destruct (UpdateConversationDto.status dto) as [s|]; [|done]. by cbn in Ho. }
  destruct (decide (Conversation.assignedAgentId c = Some a)) as [E|Hne]; [left; by apply holds_spec|right].
  assert (Hg : UpdateConversationDto.assignedAgentId dto = Some (Some a)).
  { unfold given_null in Has. destruct (UpdateConversationDto.assignedAgentId dto) as [o|]; cbn in Has; [congruence|].
    destruct Hne. rewrite <- Has. by destruct (UpdateConversationDto.status dto). }
  assert (Hne' : a <> ""%string) by (intros ->; by rewrite Hn in Ha).
  destruct (ok_given_agent _ _ _ _ _ Hok a) as (x & Hx & _ & _ & _ & Hnew).
  { rewrite Hg. cbn. by destruct a. }
  rewrite Ha in Hx. injection Hx as <-. destruct (Hnew Hne) as [_ Hl]. unfold below_limit in Hl. rewrite Hmax in Hl.
  by rewrite <- Htt, HT.
Qed.
Lemma release_within principal id a ctx w : within_limits w (releaseConversation principal id a ctx w).2.
Proof.
  apply (transaction_within (fun _ => True)), start. intros n. unfold releaseConversation_body. cbv zeta.
  generalize (MutationActor.tenantId (Principal.actor principal)). intros T.
  apply ok_bind, ok_db. intros [] w' n1 [= <-]. ok_steps.
  pose proof (find_of_tenant Conversation.tenantId id T w) as Hf.
  destruct (findFirst _ _) as [[k c]|]; apply ok_found; try done. destruct Hf as (-> & Hc & HT). intros x [= <-].
  ok_steps. apply ok_found; [|done]. intros x _. case_bool_decide.
  { apply ok_bind, (ok_conversation_again T id _ _ _ c Hc HT). intros n4. apply ok_ret, within_limits_tick. }
  case_bool_decide; [|by apply ok_throw]. cbn [negb].
  apply (ok_rewrite id _ (fun c => (c, true)) _ _ _ _ c Hc). intros w' Hw'. by eapply within_limits_assign.
Qed.
Lemma markRead_within principal id w : within_limits w (markRead principal id w).2.
Proof.
  apply (transaction_within (fun _ => True)), start. intros n. unfold markRead_body.
  generalize (Principal.tenantId principal). intros T.
  apply ok_bind, ok_db. intros [] w' n1 [= <-]. ok_steps.
  pose proof (find_of_tenant Conversation.tenantId id T w) as Hf.
  destruct (findFirst _ _) as [[k c]|]; apply ok_found; try done. destruct Hf as (-> & Hc & HT). intros x _.
  apply (ok_update_found id _ _ _ _ c Hc). intros t n2 Ht.
  eapply (within_limits_rewrite id c); [done|done|done|exact Ht|].
  intros a agent l _ _ Hh%holds_spec. left. by apply holds_spec.
Qed.
(** What the limits depend on. *)
Definition limits_view (w : World) := (inboxAgents w, agentSkills w, conversations w).
Lemma frames_within {A} (m : io World A) w : frames limits_view m -> within_limits w (m w).2.
Proof. intros Hf. specialize (Hf w). injection Hf as H1 H2 H3. by apply within_limits_same. Qed.
Lemma frames_audit audit : frames limits_view (write_audit audit).
Proof. unfold write_audit. frame_steps. Qed.

Lemma perform_within o w :
  skills_once w -> agents_named w -> ~ reopens o -> within_limits w (perform o w).
Proof.
  intros Hu Hn Hre. destruct o; cbn [perform].
  - by apply update_within.
  - by apply claim_within.
  - by apply route_within.
  - apply release_within.
  - apply markRead_within.
  - apply frames_within. unfold addNote, addNote_body, find_row, found, create_row. frame_steps.
  - apply frames_within. unfold setRequirement, setRequirement_body, lockConversation, listRequirements, find_row, found, create_row.
    frame_steps; try apply frames_audit. by apply frames_update_row.
  - apply frames_within. unfold removeRequirement, removeRequirement_body, lockConversation, listRequirements, find_row, found, deleteMany_rows_of.
    frame_steps; try apply frames_audit.
Qed.

(** C9: However many changes, claims, routes and releases are made, in whatever order and whatever fails, no agent
    ends up with more open conversations than its limit, or than it had before if that was more, as
    long as no change by an administrator sets a conversation to OPEN or PENDING. *)
Theorem capacity_history l w (Hu : skills_once w) (Hn : agents_named w) (Hre : Forall (fun o => ~ reopens o) l) a (agent : InboxAgent.t) limit
    (Ha : row a w = Some agent) (Hl : InboxAgent.maxConcurrentConversations agent = Some limit) :
  let w' := foldl (fun w o => perform o w) w l in
  row a w' = Some agent /\
  Z.of_nat (load (InboxAgent.tenantId agent) a w') <= Z.max (Z.of_nat (load (InboxAgent.tenantId agent) a w)) limit.
Proof.
  intros w'. assert (Hw : within_limits w w').
  { unfold w'. clear -Hu Hn Hre. revert w Hu Hn. induction Hre as [|o l Ho _ IH]; intros w Hu Hn; cbn; [reflexivity|].
    pose proof (perform_within o w Hu Hn Ho) as Hp. etrans; [exact Hp|]. destruct Hp as [H1 H2 _].
    apply IH; [unfold skills_once, row in *|unfold agents_named, row in *]; cbn in *; by rewrite ?H1, ?H2. }
  destruct Hw as [H1 _ H3]. split; [unfold row in *; cbn in *; by rewrite H1|]. by apply H3.
Qed.
End capacity.
