(* ===== verification/InboxTenancy.v ===== *)
(** What holds of the tables of the inbox whatever is done to it: nothing refers to a row of another
    tenant, keys are unique, and a conversation has a time of resolution exactly when it is resolved. *)
From stdpp Require Import prelude gmap strings sorting.
From Stdlib Require Import ZArith Lia.
From S2P Require Import Prelude Json Io Prisma Domain Frame Tables AuditTrail Conversations Segments Senders Auth InboxAgents InboxTeams InboxSkills InboxAdmission Inbox InboxAssignment InboxCapacity.
#[local] Open Scope Z_scope.
Import ConversationStatus.

(** ** Tables *)
(** The row [k] is there and belongs to the tenant [T]. *)
Definition owned {R} (tenant : R -> string) (m : gmap string R) (T k : string) : Prop :=
  exists r, m !! k = Some r /\ tenant r = T.
Definition keeps {R} (tenant : R -> string) (m m' : gmap string R) : Prop :=
  forall T k, owned tenant m T k -> owned tenant m' T k.
Lemma keeps_refl {R} (tenant : R -> string) m : keeps tenant m m.
Proof. by intros T k. Qed.
Lemma keeps_create {R} (tenant : R -> string) m k r : m !! k = None -> keeps tenant m (<[k := r]> m).
Proof. intros Hk T k' (r' & Hr & Ht). exists r'. split; [|done]. rewrite lookup_insert_ne; [done|]. intros <-. congruence. Qed.
Lemma keeps_update {R} (tenant : R -> string) m k r r' :
  m !! k = Some r -> tenant r' = tenant r -> keeps tenant m (<[k := r']> m).
Proof.
  intros Hk Ht T k' (r1 & Hr & HT). destruct (decide (k = k')) as [<-|Hne].
  - exists r'. rewrite lookup_insert_eq. split; [done|]. congruence.
  - exists r1. by rewrite lookup_insert_ne.
Qed.

Lemma member_unique_sym a b : member_unique a b = member_unique b a.
Proof. unfold member_unique. apply bool_decide_ext. split; by intros []. Qed.
Lemma agentSkill_unique_sym a b : agentSkill_unique a b = agentSkill_unique b a.
Proof. unfold agentSkill_unique. apply bool_decide_ext. split; by intros []. Qed.
Lemma requirement_unique_sym a b : requirement_unique a b = requirement_unique b a.
Proof. unfold requirement_unique. apply bool_decide_ext. split; by intros []. Qed.
Lemma assignment_unique_sym a b : assignment_unique a b = assignment_unique b a.
Proof. unfold assignment_unique. by apply bool_decide_ext. Qed.

(** ** The invariant *)
Section tenancy.
Context `{Prisma} `{Environment}.

Abbreviation agents_own w := (owned InboxAgent.tenantId (rows (inboxAgents w))).
Abbreviation teams_own w := (owned InboxTeam.tenantId (rows (teams w))).
Abbreviation skills_own w := (owned InboxSkill.tenantId (rows (skills w))).
Abbreviation conversations_own w := (owned Conversation.tenantId (rows (conversations w))).

(** Its agent is its tenant's, and it has a time of resolution exactly when it is resolved. *)
Definition conversation_ok (w : World) (c : Conversation.t) : Prop :=
  (forall a, Conversation.assignedAgentId c = Some a -> agents_own w (Conversation.tenantId c) a) /\
  (Conversation.status c = RESOLVED <-> is_Some (Conversation.resolvedAt c)).
Definition assignment_row_ok (w : World) (a : TeamAssignment.t) : Prop :=
  conversations_own w (TeamAssignment.tenantId a) (TeamAssignment.conversationId a) /\
  teams_own w (TeamAssignment.tenantId a) (TeamAssignment.teamId a).
Definition member_row_ok (w : World) (m : InboxTeamMember.t) : Prop :=
  teams_own w (InboxTeamMember.tenantId m) (InboxTeamMember.teamId m) /\
  agents_own w (InboxTeamMember.tenantId m) (InboxTeamMember.agentId m).
Definition agentSkill_row_ok (w : World) (s : InboxAgentSkill.t) : Prop :=
  skills_own w (InboxAgentSkill.tenantId s) (InboxAgentSkill.skillId s) /\
  agents_own w (InboxAgentSkill.tenantId s) (InboxAgentSkill.agentId s).
Definition requirement_row_ok (w : World) (r : SkillRequirement.t) : Prop :=
  conversations_own w (SkillRequirement.tenantId r) (SkillRequirement.conversationId r) /\
  skills_own w (SkillRequirement.tenantId r) (SkillRequirement.skillId r).
Definition note_row_ok (w : World) (n : ConversationNote.t) : Prop :=
  conversations_own w (ConversationNote.tenantId n) (ConversationNote.conversationId n).

Record inbox_ok (w : World) : Prop := {
  conversations_ok : forall k c, row k w = Some c -> conversation_ok w c;
  assignments_ok : forall k a, row k w = Some a -> assignment_row_ok w a;
  members_ok : forall k m, row k w = Some m -> member_row_ok w m;
  agentSkills_ok : forall k s, row k w = Some s -> agentSkill_row_ok w s;
  requirements_ok : forall k r, row k w = Some r -> requirement_row_ok w r;
  notes_ok : forall k n, row k w = Some n -> note_row_ok w n;
  assignments_once : unique_in assignment_unique (rows (teamAssignments w));
  members_once : unique_in member_unique (rows (teamMembers w));
  agentSkills_once : unique_in agentSkill_unique (rows (agentSkills w));
  requirements_once : unique_in requirement_unique (rows (skillRequirements w));
  agents_are_named : agents_named w
}.

(** The tables that others refer to lose nothing. *)
Record all_kept (w w' : World) : Prop := {
  kept_agents : keeps InboxAgent.tenantId (rows (inboxAgents w)) (rows (inboxAgents w'));
  kept_teams : keeps InboxTeam.tenantId (rows (teams w)) (rows (teams w'));
  kept_skills : keeps InboxSkill.tenantId (rows (skills w)) (rows (skills w'));
  kept_conversations : keeps Conversation.tenantId (rows (conversations w)) (rows (conversations w'))
}.
(** A row that was not there before is in order. *)
Definition new_ok {R} `{!Table R} (P : World -> R -> Prop) (w w' : World) : Prop :=
  forall k r, row k w' = Some r -> row k w = Some r \/ P w' r.

Lemma inbox_step w w' :
  inbox_ok w -> all_kept w w' ->
  new_ok conversation_ok w w' -> new_ok assignment_row_ok w w' -> new_ok member_row_ok w w' ->
  new_ok agentSkill_row_ok w w' -> new_ok requirement_row_ok w w' -> new_ok note_row_ok w w' ->
  unique_in assignment_unique (rows (teamAssignments w')) -> unique_in member_unique (rows (teamMembers w')) ->
  unique_in agentSkill_unique (rows (agentSkills w')) -> unique_in requirement_unique (rows (skillRequirements w')) ->
  agents_named w' -> inbox_ok w'.
Proof.
  intros Hok [K1 K2 K3 K4] N1 N2 N3 N4 N5 N6 U1 U2 U3 U4 Hn. split; try done.
  - intros k r Hr. destruct (N1 k r Hr) as [Ho|]; [|done]. destruct (conversations_ok w Hok k r Ho) as [Ha Hs].
    split; [|done]. intros a E. by apply K1, Ha.
  - intros k r Hr. destruct (N2 k r Hr) as [Ho|]; [|done]. destruct (assignments_ok w Hok k r Ho). split; [by apply K4|by apply K2].
  - intros k r Hr. destruct (N3 k r Hr) as [Ho|]; [|done]. destruct (members_ok w Hok k r Ho). split; [by apply K2|by apply K1].
  - intros k r Hr. destruct (N4 k r Hr) as [Ho|]; [|done]. destruct (agentSkills_ok w Hok k r Ho). split; [by apply K3|by apply K1].
  - intros k r Hr. destruct (N5 k r Hr) as [Ho|]; [|done]. destruct (requirements_ok w Hok k r Ho). split; [by apply K4|by apply K3].
  - intros k r Hr. destruct (N6 k r Hr) as [Ho|]; [|done]. by apply K4, (notes_ok w Hok k r Ho).
Qed.
End tenancy.

(** Use [inbox_step]; what did not change is settled. *)
Ltac inbox_step Hok :=
  apply (inbox_step _ _ Hok);
  [split; try (apply keeps_refl) | try (intros ? ? ?; left; assumption) .. ];
  try exact (assignments_once _ Hok); try exact (members_once _ Hok); try exact (agentSkills_once _ Hok);
  try exact (requirements_once _ Hok); try exact (agents_are_named _ Hok).

Section steps.
Context `{Prisma} `{Environment}.

Lemma inbox_ok_tick w n : inbox_ok w -> inbox_ok (w <| tick := n |>).
Proof. intros Hok. inbox_step Hok. Qed.
Lemma inbox_ok_audit w al n : inbox_ok w -> inbox_ok (w <| auditLogs := al |> <| tick := n |>).
Proof. intros Hok. inbox_step Hok. Qed.

(** *** Agents, teams and skills *)
Lemma inbox_ok_agents w t :
  inbox_ok w -> keeps InboxAgent.tenantId (rows (inboxAgents w)) (rows t) -> rows t !! ""%string = None ->
  inbox_ok (w <| inboxAgents := t |>).
Proof. intros Hok Hk Hn. inbox_step Hok; [exact Hk|exact Hn]. Qed.
Lemma inbox_ok_teams w t :
  inbox_ok w -> keeps InboxTeam.tenantId (rows (teams w)) (rows t) -> inbox_ok (w <| teams := t |>).
Proof. intros Hok Hk. inbox_step Hok. exact Hk. Qed.
Lemma inbox_ok_skills w t :
  inbox_ok w -> keeps InboxSkill.tenantId (rows (skills w)) (rows t) -> inbox_ok (w <| skills := t |>).
Proof. intros Hok Hk. inbox_step Hok. exact Hk. Qed.

(** *** Members, levels, requirements and notes: a row is added, changed or removed *)
Lemma inbox_ok_members w t :
  inbox_ok w -> (forall k m, rows t !! k = Some m -> rows (teamMembers w) !! k = Some m \/ member_row_ok w m) ->
  unique_in member_unique (rows t) -> inbox_ok (w <| teamMembers := t |>).
Proof. intros Hok Hr Hu. inbox_step Hok; [exact Hr|exact Hu]. Qed.
Lemma inbox_ok_agentSkills w t :
  inbox_ok w -> (forall k m, rows t !! k = Some m -> rows (agentSkills w) !! k = Some m \/ agentSkill_row_ok w m) ->
  unique_in agentSkill_unique (rows t) -> inbox_ok (w <| agentSkills := t |>).
Proof. intros Hok Hr Hu. inbox_step Hok; [exact Hr|exact Hu]. Qed.
Lemma inbox_ok_requirements w t :
  inbox_ok w -> (forall k m, rows t !! k = Some m -> rows (skillRequirements w) !! k = Some m \/ requirement_row_ok w m) ->
  unique_in requirement_unique (rows t) -> inbox_ok (w <| skillRequirements := t |>).
Proof. intros Hok Hr Hu. inbox_step Hok; [exact Hr|exact Hu]. Qed.
Lemma inbox_ok_assignments w t :
  inbox_ok w -> (forall k m, rows t !! k = Some m -> rows (teamAssignments w) !! k = Some m \/ assignment_row_ok w m) ->
  unique_in assignment_unique (rows t) -> inbox_ok (w <| teamAssignments := t |>).
Proof. intros Hok Hr Hu. inbox_step Hok; [exact Hr|exact Hu]. Qed.
Lemma inbox_ok_notes w t :
  inbox_ok w -> (forall k m, rows t !! k = Some m -> rows (conversationNotes w) !! k = Some m \/ note_row_ok w m) ->
  inbox_ok (w <| conversationNotes := t |>).
Proof. intros Hok Hr. inbox_step Hok. exact Hr. Qed.

(** *** Conversations *)
Lemma inbox_ok_conversations w t :
  inbox_ok w -> keeps Conversation.tenantId (rows (conversations w)) (rows t) ->
  (forall k c, rows t !! k = Some c -> rows (conversations w) !! k = Some c \/ conversation_ok w c) ->
  inbox_ok (w <| conversations := t |>).
Proof. intros Hok Hk Hr. inbox_step Hok; [exact Hk|exact Hr]. Qed.
Lemma inbox_ok_conversation_update w t k c c' :
  inbox_ok w -> row k w = Some c -> rows t = <[k := c']> (rows (conversations w)) ->
  Conversation.tenantId c' = Conversation.tenantId c -> conversation_ok w c' -> inbox_ok (w <| conversations := t |>).
Proof.
  intros Hok Hc Ht HT Hc'. apply inbox_ok_conversations; [done|rewrite Ht; by eapply keeps_update|].
  intros k' x. rewrite Ht. intros [[<- <-]|[_ Hx]]%lookup_insert_Some; [by right|by left].
Qed.
End steps.

Section soundness.
Context `{Prisma} `{Environment}.

(** An operation keeps the invariant. *)
Definition keeps_ok (w w' : World) : Prop := inbox_ok w -> inbox_ok w'.
#[export] Instance keeps_ok_preorder : PreOrder keeps_ok.
Proof. split; unfold keeps_ok; [by intros w|intros w1 w2 w3; auto]. Qed.
Lemma keeps_ok_tick w n : keeps_ok w (w <| tick := n |>).
Proof. intros Hok. by apply inbox_ok_tick. Qed.
Lemma sound_reads {A} (f : World -> A) : preserves keeps_ok (db (fun w => Some (f w, w))).
Proof. apply preserves_db; [apply _|apply keeps_ok_tick|]. by intros w a w' [= <- <-]. Qed.
Lemma sound_transaction {A} (m : io World A) :
  (forall w, inbox_ok w -> wp m (on_ok (fun _ w' => inbox_ok w')) w) -> preserves keeps_ok (transaction m).
Proof.
  intros Hm w Hok.
  pose proof (transaction_settled (F := fun _ => True) m (fun _ w' => inbox_ok w') w) as Hs.
  specialize (Hs (fun a w' n Hw' => inbox_ok_tick w' n Hw') (Hm w Hok)).
  unfold wp in Hs. destruct (transaction m w) as [[a|e|] w']; cbn in *; [done| |done].
  destruct Hs as [[_ [n ->]]|[_ [a Ha]]]; [by apply inbox_ok_tick|done].
Qed.
Lemma sound_or_conflict {A} msg (m : io World A) : preserves keeps_ok m -> preserves keeps_ok (or_conflict msg m).
Proof. intros Hm. unfold or_conflict. apply preserves_try; [apply _|done|]. intros e. by destruct e; preserve_steps. Qed.

(** *** Agents, teams and skills *)
Lemma createAgent_sound p dto ctx : preserves keeps_ok (createAgent p dto ctx).
Proof.
  unfold createAgent. preserve_steps. apply sound_or_conflict, sound_transaction. intros w Hok. apply start. intros n.
  unfold createAgent_body. ok_steps. apply ok_create_row; [|done]. intros k t ? Hn Hk Ht _. ok_steps.
  apply inbox_ok_audit, (inbox_ok_agents _ _ Hok).
  - rewrite Ht. by apply keeps_create.
  - rewrite Ht, lookup_insert_ne by done. apply (agents_are_named w Hok).
Qed.
Lemma createTeam_sound p dto ctx : preserves keeps_ok (createTeam p dto ctx).
Proof.
  unfold createTeam. preserve_steps. apply sound_or_conflict, sound_transaction. intros w Hok. apply start. intros n.
  unfold createTeam_body. ok_steps. apply ok_create_row; [|done]. intros k t ? Hn Hk Ht _. ok_steps.
  apply inbox_ok_audit, (inbox_ok_teams _ _ Hok). rewrite Ht. by apply keeps_create.
Qed.
Lemma createSkill_sound p dto ctx : preserves keeps_ok (createSkill p dto ctx).
Proof.
  unfold createSkill. preserve_steps. apply sound_or_conflict, sound_transaction. intros w Hok. apply start. intros n.
  unfold createSkill_body. ok_steps. apply ok_create_row; [|done]. intros k t ? Hn Hk Ht _. ok_steps.
  apply inbox_ok_audit, (inbox_ok_skills _ _ Hok). rewrite Ht. by apply keeps_create.
Qed.

Lemma ok_given_text v label (P : option string -> World -> Prop) w :
  (forall x, P x w) -> wp (lift (givenText v label)) (on_ok P) w.
Proof.
  intros HP. apply ok_lift. unfold givenText, requiredText. destruct v as [v|]; [|apply HP]. destruct (JsString.trim v); [done|apply HP].
Qed.
Lemma updateAgent_sound p id dto ctx : preserves keeps_ok (updateAgent p id dto ctx).
Proof.
  unfold updateAgent. preserve_steps. apply sound_or_conflict, sound_transaction. intros w Hok. apply start. intros n.
  unfold updateAgent_body. ok_steps. apply ok_found; [|done]. intros _ _.
  do 3 (apply ok_bind, ok_given_text; intros ?). ok_steps. apply ok_update_row; [|done|done]. intros u r ? Hr Ht _. ok_steps.
  apply inbox_ok_audit, (inbox_ok_agents _ _ Hok); rewrite Ht.
  - eapply keeps_update; [exact Hr|]. unfold agent_data. by destruct (UpdateInboxAgentDto.presenceStatus dto).
  - rewrite lookup_insert_ne; [apply (agents_are_named w Hok)|]. intros ->. pose proof (agents_are_named w Hok) as Hn.
    unfold agents_named in Hn. congruence.
Qed.
Lemma updateTeam_sound p id dto ctx : preserves keeps_ok (updateTeam p id dto ctx).
Proof.
  unfold updateTeam. preserve_steps. apply sound_or_conflict, sound_transaction. intros w Hok. apply start. intros n.
  unfold updateTeam_body. ok_steps. apply ok_found; [|done]. intros _ _. apply ok_bind, ok_given_text; intros ?. ok_steps.
  apply ok_update_row; [|done|done]. intros u r ? Hr Ht _. ok_steps.
  apply inbox_ok_audit, (inbox_ok_teams _ _ Hok). rewrite Ht. by eapply keeps_update.
Qed.
Lemma updateSkill_sound p id dto ctx : preserves keeps_ok (updateSkill p id dto ctx).
Proof.
  unfold updateSkill. preserve_steps. apply sound_or_conflict, sound_transaction. intros w Hok. apply start. intros n.
  unfold updateSkill_body. ok_steps. apply ok_found; [|done]. intros _ _. apply ok_bind, ok_given_text; intros ?. ok_steps.
  apply ok_update_row; [|done|done]. intros u r ? Hr Ht _. ok_steps.
  apply inbox_ok_audit, (inbox_ok_skills _ _ Hok). rewrite Ht. by eapply keeps_update.
Qed.

(** *** Members and skills *)
Lemma sound_found {A} e (o : option A) : preserves keeps_ok (found e o : io World A).
Proof. destruct o; cbn; [by apply preserves_ret; apply _|by apply preserves_throw; apply _]. Qed.
Lemma findTeam_sound T id : preserves keeps_ok (findTeam T id).
Proof.
  unfold findTeam. preserve_steps; try apply sound_reads; apply sound_found.
Qed.
Lemma findSkill_sound T id : preserves keeps_ok (findSkill T id).
Proof. unfold findSkill. preserve_steps; [apply sound_reads|apply sound_found]. Qed.

(** A row of the tenant that was found owns its id. *)
Lemma found_owned {R} `{!Table R} (tenant : R -> string) id T w k r :
  findFirst (of_tenant tenant id T) (tbl w) = Some (k, r) -> owned tenant (rows (tbl w)) T id.
Proof. intros Hf. pose proof (find_of_tenant tenant id T w) as Hs. rewrite Hf in Hs. destruct Hs as (-> & Hr & Ht). by exists r. Qed.

Lemma addMember_sound p team agent ctx : preserves keeps_ok (addMember p team agent ctx).
Proof.
  unfold addMember. preserve_steps; [|apply findTeam_sound]. apply sound_transaction. intros w Hok. apply start. intros n.
  unfold addMember_body. ok_steps. apply ok_found; [|done]. intros [kt t] Ht%found_owned. ok_steps.
  apply ok_found; [|done]. intros [ka a] Ha%found_owned. destruct (negb _); [by apply ok_throw|]. ok_steps.
  apply ok_createMany_row; [|intros; ok_steps; by apply inbox_ok_tick]. intros k tb ? Hk Htb Hc. cbn [Nat.eqb]. ok_steps.
  apply inbox_ok_audit, (inbox_ok_members _ _ Hok); rewrite Htb.
  - intros k' m [[<- <-]|[_ Hm]]%lookup_insert_Some; [right|by left]. done.
  - apply unique_create; [apply member_unique_sym|apply (members_once w Hok)|exact Hc].
Qed.
Lemma removeMember_sound p team agent ctx : preserves keeps_ok (removeMember p team agent ctx).
Proof.
  unfold removeMember. preserve_steps; [|apply findTeam_sound]. apply sound_transaction. intros w Hok. apply start. intros n.
  unfold removeMember_body. ok_steps. apply ok_found; [|done]. intros _ _. ok_steps.
  apply ok_deleteMany_rows_of. intros i tb n1 Htb _.
  assert (Hok' : inbox_ok (w <| teamMembers := tb |>)).
  { apply (inbox_ok_members _ _ Hok); [intros k m Hm; left; by apply Htb|].
    eapply unique_sub; [|apply (members_once w Hok)]. intros k m Hm. by apply Htb. }
  destruct (Nat.eqb i 0); ok_steps; [by apply inbox_ok_tick|by apply inbox_ok_audit].
Qed.

Lemma setAgentSkill_sound p skill agent level ctx : preserves keeps_ok (setAgentSkill p skill agent level ctx).
Proof.
  unfold setAgentSkill. preserve_steps; [|apply findSkill_sound]. apply sound_transaction. intros w Hok. apply start. intros n.
  unfold setAgentSkill_body. ok_steps. apply ok_found; [|done]. intros [ks s] Hs%found_owned. ok_steps.
  apply ok_found; [|done]. intros [ka a] Ha%found_owned. ok_steps.
  destruct (findFirst (agent_skill_key skill agent) (tbl w)) as [[k e]|] eqn:Ef.
  - apply findFirst_some in Ef as [Hk _]. destruct (InboxAgentSkill.level e =? level); ok_steps; [by apply inbox_ok_tick|].
    apply (ok_update_found k _ _ _ _ e Hk). intros tb ? Htb. ok_steps.
    apply inbox_ok_audit, (inbox_ok_agentSkills _ _ Hok); rewrite Htb.
    + intros k' m [[<- <-]|[_ Hm]]%lookup_insert_Some; [right|by left]. by apply (agentSkills_ok w Hok k e).
    + by eapply unique_update; [apply agentSkill_unique_sym|apply (agentSkills_once w Hok)|exact Hk|].
  - destruct (negb (InboxSkill.active _)); [by apply ok_throw|]. destruct (negb _); [by apply ok_throw|]. ok_steps.
    apply ok_createMany_row.
    + intros k tb ? Hk Htb Hc. cbn [Nat.eqb]. ok_steps. apply inbox_ok_audit, (inbox_ok_agentSkills _ _ Hok); rewrite Htb.
      * intros k' m [[<- <-]|[_ Hm]]%lookup_insert_Some; [right|by left]. done.
      * apply unique_create; [apply agentSkill_unique_sym|apply (agentSkills_once w Hok)|exact Hc].
    + intros k r ? Hk Hc. exfalso. pose proof (findFirst_none _ _ _ _ Ef Hk) as Hn. unfold agent_skill_key in Hn.
      apply bool_decide_eq_true in Hc as [H1 H2]. cbn in H1, H2. rewrite !bool_decide_true in Hn by done. done.
Qed.
Lemma removeAgentSkill_sound p skill agent ctx : preserves keeps_ok (removeAgentSkill p skill agent ctx).
Proof.
  unfold removeAgentSkill. preserve_steps; [|apply findSkill_sound]. apply sound_transaction. intros w Hok. apply start. intros n.
  unfold removeAgentSkill_body. ok_steps. apply ok_found; [|done]. intros _ _. ok_steps.
  apply ok_deleteMany_rows_of. intros i tb n1 Htb _.
  assert (Hok' : inbox_ok (w <| agentSkills := tb |>)).
  { apply (inbox_ok_agentSkills _ _ Hok); [intros k m Hm; left; by apply Htb|].
    eapply unique_sub; [|apply (agentSkills_once w Hok)]. intros k m Hm. by apply Htb. }
  destruct (Nat.eqb i 0); ok_steps; [by apply inbox_ok_tick|by apply inbox_ok_audit].
Qed.

Lemma setRequirement_sound p id skill level ctx : preserves keeps_ok (setRequirement p id skill level ctx).
Proof.
  unfold setRequirement. preserve_steps; [|apply sound_reads]. apply sound_transaction. intros w Hok. apply start. intros n.
  unfold setRequirement_body. apply ok_bind, ok_db. intros [] w' n1 [= <-]. ok_steps. apply ok_found; [|done]. intros [kc c] Hc%found_owned.
  ok_steps. apply ok_found; [|done]. intros [ks s] Hs%found_owned. ok_steps.
  destruct (findFirst (requirement_key id skill) (tbl w)) as [[k e]|] eqn:Ef.
  - apply findFirst_some in Ef as [Hk _]. destruct (SkillRequirement.minLevel e =? level); ok_steps; [by apply inbox_ok_tick|].
    apply (ok_update_found k _ _ _ _ e Hk). intros tb ? Htb. ok_steps.
    apply inbox_ok_audit, (inbox_ok_requirements _ _ Hok); rewrite Htb.
    + intros k' m [[<- <-]|[_ Hm]]%lookup_insert_Some; [right|by left]. by apply (requirements_ok w Hok k e).
    + by eapply unique_update; [apply requirement_unique_sym|apply (requirements_once w Hok)|exact Hk|].
  - destruct (negb (InboxSkill.active _)); [by apply ok_throw|]. ok_steps.
    apply ok_create_row; [|done]. intros k tb ? Hn Hk Htb Hu. ok_steps. apply inbox_ok_audit, (inbox_ok_requirements _ _ Hok); rewrite Htb.
    + intros k' m [[<- <-]|[_ Hm]]%lookup_insert_Some; [right|by left]. done.
    + apply unique_create; [apply requirement_unique_sym|apply (requirements_once w Hok)|exact Hu].
Qed.
Lemma removeRequirement_sound p id skill ctx : preserves keeps_ok (removeRequirement p id skill ctx).
Proof.
  unfold removeRequirement. preserve_steps; [|apply sound_reads]. apply sound_transaction. intros w Hok. apply start. intros n.
  unfold removeRequirement_body. apply ok_bind, ok_db. intros [] w' n1 [= <-]. ok_steps. apply ok_found; [|done]. intros _ _. ok_steps.
  apply ok_deleteMany_rows_of. intros i tb n2 Htb _.
  assert (Hok' : inbox_ok (w <| skillRequirements := tb |>)).
  { apply (inbox_ok_requirements _ _ Hok); [intros k m Hm; left; by apply Htb|].
    eapply unique_sub; [|apply (requirements_once w Hok)]. intros k m Hm. by apply Htb. }
  destruct (Nat.eqb i 0); ok_steps; [by apply inbox_ok_tick|by apply inbox_ok_audit].
Qed.

(** *** Conversations *)
Lemma inbox_skills_once w : inbox_ok w -> skills_once w.
Proof. intros Hok. exact (agentSkills_once w Hok). Qed.
Lemma conversation_ok_of w id c : inbox_ok w -> row id w = Some c -> conversation_ok w c.
Proof. intros Hok Hc. by apply (conversations_ok w Hok id). Qed.

Lemma rewrote_ok id c c' w w' :
  inbox_ok w -> row id w = Some c -> rewrote id c' w w' -> Conversation.tenantId c' = Conversation.tenantId c ->
  conversation_ok w c' -> inbox_ok w'.
Proof.
  intros Hok Hc (t & al & n & Ht & ->) HT Hc'. apply inbox_ok_audit.
  apply (inbox_ok_conversation_update w t id c c'); [done|exact Hc|exact Ht|done|done].
Qed.
Lemma assigned_ok id c a w w' :
  inbox_ok w -> row id w = Some c -> rewrote id (assign a c) w w' ->
  (forall b, a = Some b -> exists agent, row b w = Some agent /\ InboxAgent.tenantId agent = Conversation.tenantId c) ->
  inbox_ok w'.
Proof.
  intros Hok Hc Hw Ha. destruct (conversation_ok_of w id c Hok Hc) as [_ Hs].
  eapply rewrote_ok; [done|exact Hc|exact Hw|done|]. split; [|exact Hs]. intros b Hb. exact (Ha b Hb).
Qed.

Lemma claim_sound p id a ctx : preserves keeps_ok (claimConversation p id a ctx).
Proof.
  apply sound_transaction. intros w Hok. eapply wp_mono; [apply claim_live; by apply inbox_skills_once|].
  intros [[c b]|e|] w' Hr; [|done|done]. destruct Hr as (c0 & Hc & HT & Hb). destruct b; cbn in Hb.
  - destruct Hb as (_ & (agent & Ha & Hta & _) & _ & Hw). eapply assigned_ok; [done|exact Hc|exact Hw|].
    intros b [= <-]. exists agent. split; [done|]. by rewrite Hta, HT.
  - destruct Hb as (_ & _ & [n ->]). by apply inbox_ok_tick.
Qed.
Lemma route_sound p id ctx : preserves keeps_ok (routeConversation p id ctx).
Proof.
  apply sound_transaction. intros w Hok.
  eapply wp_mono; [apply route_live; [by apply inbox_skills_once|apply (agents_are_named w Hok)]|].
  intros [[c b]|e|] w' Hr; [|done|done]. destruct Hr as (c0 & Hc & HT & Hb). destruct b; cbn in Hb.
  - destruct Hb as (_ & team & t & a & _ & _ & _ & _ & _ & [(agent & Ha & Hta & _) _] & _ & Hw).
    eapply assigned_ok; [done|exact Hc|exact Hw|]. intros b [= <-]. exists agent. split; [done|]. by rewrite Hta, HT.
  - destruct Hb as (_ & _ & [n ->]). by apply inbox_ok_tick.
Qed.
Lemma release_sound p id a ctx : preserves keeps_ok (releaseConversation p id a ctx).
Proof.
  apply sound_transaction. intros w Hok. apply start. intros n. unfold releaseConversation_body. cbv zeta.
  generalize (MutationActor.tenantId (Principal.actor p)). intros T.
  apply ok_bind, ok_db. intros [] w' n1 [= <-]. ok_steps.
  pose proof (find_of_tenant Conversation.tenantId id T w) as Hf.
  destruct (findFirst _ _) as [[k c]|]; apply ok_found; try done. destruct Hf as (-> & Hc & HT). intros x [= <-].
  ok_steps. apply ok_found; [|done]. intros x _. case_bool_decide.
  { apply ok_bind, (ok_conversation_again T id _ _ _ c Hc HT). intros n4. by apply ok_ret, inbox_ok_tick. }
  case_bool_decide; [|by apply ok_throw]. cbn [negb].
  apply (ok_rewrite id _ (fun c => (c, true)) _ _ _ _ c Hc). intros w' Hw'. by eapply assigned_ok.
Qed.
Lemma markRead_sound p id : preserves keeps_ok (markRead p id).
Proof.
  apply sound_transaction. intros w Hok. apply start. intros n. unfold markRead_body. generalize (Principal.tenantId p). intros T.
  apply ok_bind, ok_db. intros [] w' n1 [= <-]. ok_steps.
  pose proof (find_of_tenant Conversation.tenantId id T w) as Hf.
  destruct (findFirst _ _) as [[k c]|]; apply ok_found; try done. destruct Hf as (-> & Hc & HT). intros x _.
  apply (ok_update_found id _ _ _ _ c Hc). intros t n2 Ht. apply inbox_ok_tick.
  eapply (inbox_ok_conversation_update w t id c); [done|exact Hc|exact Ht|done|]. by apply (conversation_ok_of w id c Hok).
Qed.
Lemma addNote_sound p id body : preserves keeps_ok (addNote p id body).
Proof.
  unfold addNote. preserve_steps. apply sound_transaction. intros w Hok. apply start. intros n. unfold addNote_body. ok_steps.
  apply ok_found; [|done]. intros [k c] Hc%found_owned. ok_steps. apply ok_create_row; [|done]. intros kn t ? _ Hk Ht _.
  apply inbox_ok_tick, (inbox_ok_notes _ _ Hok). intros k' m. rewrite Ht.
  intros [[<- <-]|[_ Hm]]%lookup_insert_Some; [right; exact Hc|by left].
Qed.

(** [@IsUUID()] on the ids of a change. *)
Definition valid_dto (dto : UpdateConversationDto.t) : Prop :=
  UpdateConversationDto.assignedAgentId dto <> Some (Some ""%string) /\ UpdateConversationDto.assignedTeamId dto <> Some (Some ""%string).
Lemma truthy_id (a : string) : a <> ""%string -> truthy (Some a) = Some a.
Proof. by destruct a. Qed.

Lemma team_changed_ok T id team c w t :
  inbox_ok w -> row id w = Some c -> Conversation.tenantId c = T ->
  (forall x, team = Some (Some x) -> exists r, row x w = Some r /\ InboxTeam.tenantId r = T) ->
  team_changed T id team (rows (teamAssignments w)) (rows t) -> inbox_ok (w <| teamAssignments := t |>).
Proof.
  intros Hok Hc HT Hteam Ht. apply (inbox_ok_assignments w t Hok).
  - destruct team as [[x|]|]; cbn in Ht; [|intros k m Hm; left; by apply Ht|intros k m Hm; left; by rewrite <- Ht].
    destruct (Hteam x eq_refl) as (tm & Hx & Htm). destruct Ht as (k0 & [(Hk & _ & ->)|(r & Hr & Hid & ->)]);
      intros k m [[<- <-]|[_ Hm]]%lookup_insert_Some; try (by left); right.
    + split; [by exists c|by exists tm].
    + destruct (assignments_ok w Hok _ _ Hr) as [(c1 & Hc1 & Ht1) _]. rewrite Hid in Hc1. assert (c1 = c) as -> by (unfold row in Hc; cbn in Hc; congruence).
      split; cbn; [exists c; by rewrite Hid|exists tm; split; [exact Hx|congruence]].
  - destruct team as [[x|]|]; cbn in Ht.
    + destruct Ht as (k0 & [(Hk & Hno & ->)|(r & Hr & Hid & ->)]).
      * apply unique_create; [apply assignment_unique_sym|apply (assignments_once w Hok)|].
        intros k' r' Hr'. unfold assignment_unique. cbn. apply bool_decide_eq_false. intros E. by apply (Hno k' r' Hr').
      * by eapply unique_update; [apply assignment_unique_sym|apply (assignments_once w Hok)|exact Hr|].
    + eapply unique_sub; [|apply (assignments_once w Hok)]. intros k m Hm. by apply Ht.
    + rewrite Ht. apply (assignments_once w Hok).
Qed.
Lemma update_sound p id dto ctx : valid_dto dto -> preserves keeps_ok (updateConversation p id dto ctx).
Proof.
  intros [Hva Hvt]. unfold updateConversation. preserve_steps. apply sound_transaction. intros w Hok.
  eapply wp_mono; [apply update_live; by apply inbox_skills_once|]. intros [c'|e|] w' Hr; [|done|done].
  destruct Hr as (c & now & ct & tt & al & n & Hc & HT & Has & ->%as_asked_data & Hct & Htt & ->).
  set (T := MutationActor.tenantId (Principal.actor p)) in *. apply inbox_ok_audit.
  assert (Hw1 : inbox_ok (w <| teamAssignments := tt |>)).
  { eapply team_changed_ok; [done|exact Hc|exact HT| |exact Htt]. intros x Ex.
    destruct (ok_given_team _ _ _ _ _ Has x) as (r & Hx & Hr & _); [|by exists r].
    rewrite Ex. cbn. apply truthy_id. congruence. }
  destruct (conversation_ok_of w id c Hok Hc) as [Ha Hs].
  apply (inbox_ok_conversation_update _ ct id c (conversation_data dto now c) Hw1); [exact Hc|exact Hct| |].
  - unfold conversation_data. by destruct (UpdateConversationDto.status dto).
  - split.
    + intros a Hca. assert (Conversation.tenantId (conversation_data dto now c) = T) as ->.
      { unfold conversation_data. by destruct (UpdateConversationDto.status dto). }
      assert (Hca' : given_null (UpdateConversationDto.assignedAgentId dto) (Conversation.assignedAgentId c) = Some a).
      { unfold conversation_data in Hca. by destruct (UpdateConversationDto.status dto). }
      unfold given_null in Hca'. destruct (UpdateConversationDto.assignedAgentId dto) as [o|] eqn:Eo; cbn in Hca'.
      * subst o. destruct (ok_given_agent _ _ _ _ _ Has a) as (x & Hx & Htx & _); [|by exists x].
        rewrite Eo. cbn. apply truthy_id. congruence.
      * rewrite <- HT. by apply Ha.
    + unfold conversation_data. destruct (UpdateConversationDto.status dto) as [s|]; [|exact Hs]. cbn.
      destruct s; cbn; split; try done; try (by intros [? ?]); intros _; by eexists.
Qed.

(** *** Messages and escalations *)
Lemma upsert_sound row f :
  Conversation.assignedAgentId row = None -> Conversation.status row <> RESOLVED -> Conversation.resolvedAt row = None ->
  (forall id w c, Conversation.tenantId (f id w c) = Conversation.tenantId c /\
     Conversation.assignedAgentId (f id w c) = Conversation.assignedAgentId c /\
     Conversation.status (f id w c) = OPEN /\ Conversation.resolvedAt (f id w c) = None) ->
  preserves keeps_ok (upsert row f).
Proof.
  intros Ha Hs Hr Hf. apply preserves_db; [apply _|apply keeps_ok_tick|]. intros w i w' Hu Hok.
  destruct (findFirst _ _) as [[id c]|].
  - apply bind_Some in Hu as (t & Hu & [= <- <-]). apply update_some in Hu as (c0 & Hc & Ht & _).
    destruct (Hf id w c0) as (F1 & F2 & F3 & F4).
    apply (inbox_ok_conversation_update w t id c0 (f id w c0) Hok Hc Ht F1).
    destruct (conversation_ok_of w id c0 Hok Hc) as [Hca _]. split; [rewrite F1, F2; exact Hca|]. rewrite F3, F4.
    split; [done|by intros [? ?]].
  - apply bind_Some in Hu as ([id t] & Hu & [= <- <-]). apply create_some in Hu as (Hk & Ht & _).
    apply (inbox_ok_conversations w t Hok); [rewrite Ht; by apply keeps_create|]. intros k x. rewrite Ht.
    intros [[<- <-]|[_ Hx]]%lookup_insert_Some; [right|by left]. split; [by rewrite Ha|]. rewrite Hr. split; [done|by intros [? ?]].
Qed.
Lemma recordInbound_sound T sender contact t : preserves keeps_ok (recordInbound T sender contact t).
Proof. by apply upsert_sound. Qed.
Lemma recordOutbound_sound T sender phone type t : preserves keeps_ok (recordOutbound T sender phone type t).
Proof.
  unfold recordOutbound. preserve_steps; [apply sound_reads|]. by apply upsert_sound.
Qed.
Lemma escalateOverdue_sound locked t : preserves keeps_ok (escalateOverdue locked t).
Proof.
  apply preserves_db; [apply _|apply keeps_ok_tick|]. intros w n w' Hu Hok.
  cbv zeta beta in Hu. match type of Hu with context [updateMany ?p ?f ?tb] =>
    pose proof (updateMany_rows _ p f tb) as Hr; destruct (updateMany p f tb) as [i tb'] end.
  injection Hu as <- <-. cbn [snd] in Hr. apply (inbox_ok_conversations w tb' Hok).
  - intros T k (c & Hc & HT). specialize (Hr k). rewrite Hc in Hr. eexists. split; [exact Hr|]. cbn. by destruct (_ && _).
  - intros k x Hx. specialize (Hr k). rewrite Hx in Hr.
    destruct (rows (conversations w) !! k) as [c|] eqn:Hc; [|done]. cbn in Hr. injection Hr as ->. right.
    destruct (conversation_ok_of w k c Hok Hc) as [H1 H2]. by destruct (_ && _).
Qed.
End soundness.

(** ** Histories *)
Inductive inbox_operation :=
| CreateAgent (principal : Principal.t) (dto : CreateInboxAgentDto.t) (ctx : option AuditRequestContext)
| UpdateAgent (principal : Principal.t) (id : string) (dto : UpdateInboxAgentDto.t) (ctx : option AuditRequestContext)
| CreateTeam (principal : Principal.t) (dto : CreateInboxTeamDto.t) (ctx : option AuditRequestContext)
| UpdateTeam (principal : Principal.t) (id : string) (dto : UpdateInboxTeamDto.t) (ctx : option AuditRequestContext)
| AddMember (principal : Principal.t) (teamId agentId : string) (ctx : option AuditRequestContext)
| RemoveMember (principal : Principal.t) (teamId agentId : string) (ctx : option AuditRequestContext)
| CreateSkill (principal : Principal.t) (dto : CreateInboxSkillDto.t) (ctx : option AuditRequestContext)
| UpdateSkill (principal : Principal.t) (id : string) (dto : UpdateInboxSkillDto.t) (ctx : option AuditRequestContext)
| SetAgentSkill (principal : Principal.t) (skillId agentId : string) (level : Z) (ctx : option AuditRequestContext)
| RemoveAgentSkill (principal : Principal.t) (skillId agentId : string) (ctx : option AuditRequestContext)
| OnConversation (o : operation)
| RecordInbound (tenantId senderId contactId : string) (occurredAt : Z)
| RecordOutbound (tenantId senderId phone : string) (messageType : MessageType.t) (occurredAt : Z)
| EscalateOverdue (locked : string -> bool) (now : Z).

Section history.
Context `{Prisma} `{Environment}.

Definition perform_inbox (o : inbox_operation) (w : World) : World :=
  match o with
  | CreateAgent p dto ctx => (createAgent p dto ctx w).2
  | UpdateAgent p id dto ctx => (updateAgent p id dto ctx w).2
  | CreateTeam p dto ctx => (createTeam p dto ctx w).2
  | UpdateTeam p id dto ctx => (updateTeam p id dto ctx w).2
  | AddMember p team agent ctx => (addMember p team agent ctx w).2
  | RemoveMember p team agent ctx => (removeMember p team agent ctx w).2
  | CreateSkill p dto ctx => (createSkill p dto ctx w).2
  | UpdateSkill p id dto ctx => (updateSkill p id dto ctx w).2
  | SetAgentSkill p skill agent level ctx => (setAgentSkill p skill agent level ctx w).2
  | RemoveAgentSkill p skill agent ctx => (removeAgentSkill p skill agent ctx w).2
  | OnConversation o => perform o w
  | RecordInbound T sender contact t => (recordInbound T sender contact t w).2
  | RecordOutbound T sender phone type t => (recordOutbound T sender phone type t w).2
  | EscalateOverdue locked t => (escalateOverdue locked t w).2
  end.
(** The request passed the validation of its ids. *)
Definition valid (o : inbox_operation) : Prop :=
  match o with OnConversation (Update _ _ dto _) => valid_dto dto | _ => True end.

Lemma perform_inbox_sound o w : valid o -> inbox_ok w -> inbox_ok (perform_inbox o w).
Proof.
  intros Hv Hok. destruct o as [| | | | | | | | | |[]| | |]; cbn [perform_inbox perform];
    [apply createAgent_sound|apply updateAgent_sound|apply createTeam_sound|apply updateTeam_sound|apply addMember_sound
    |apply removeMember_sound|apply createSkill_sound|apply updateSkill_sound|apply setAgentSkill_sound
    |apply removeAgentSkill_sound|apply update_sound|apply claim_sound|apply route_sound|apply release_sound
    |apply markRead_sound|apply addNote_sound|apply setRequirement_sound|apply removeRequirement_sound
    |apply recordInbound_sound|apply recordOutbound_sound|apply escalateOverdue_sound]; done.
Qed.

(** C8: The tables of the inbox stay well-formed through any sequence of operations, whatever fails: an assigned
    agent, the team of a conversation, the members of a team, the skills of agents and those that
    conversations ask for, and notes never cross tenants; no pair of keys is twice in its table;
    and a conversation has a time of resolution exactly when it is resolved. *)
Theorem inbox_history l w (Hv : Forall valid l) (Hok : inbox_ok w) :
  inbox_ok (foldl (fun w o => perform_inbox o w) w l).
Proof.
  revert w Hok. induction Hv as [|o l Ho _ IH]; intros w Hok; cbn; [done|]. by apply IH, perform_inbox_sound.
Qed.
End history.
