(* ===== verification/InboxExamples.v ===== *)
(** A team of three agents and a conversation waiting for one of them: the theorems of the inbox at work. *)
From stdpp Require Import prelude gmap strings sorting.
From Stdlib Require Import ZArith Lia.
From S2P Require Import Prelude Json Io Prisma Domain Frame Tables AuditTrail Dispatcher Conversations Segments Senders Auth InboxAgents InboxTeams InboxSkills InboxAdmission Inbox InboxAssignment InboxCapacity InboxTenancy.
#[local] Open Scope Z_scope.
#[local] Open Scope string_scope.
Import ConversationStatus InboxAgentPresenceStatus.

Definition staff (name : string) (presence : InboxAgentPresenceStatus.t) (limit : option Z) : InboxAgent.t :=
  {| InboxAgent.tenantId := "t"; InboxAgent.externalId := None; InboxAgent.name := name; InboxAgent.email := None;
     InboxAgent.active := true; InboxAgent.presenceStatus := presence; InboxAgent.presenceUpdatedAt := 0;
     InboxAgent.maxConcurrentConversations := limit; InboxAgent.metadata := None |}.
Definition waiting (contact : string) : Conversation.t := new_conversation "t" contact "s" 1 0 (Some 0%Z) None.

(** Ana has one conversation and takes two; Bea is free and has no limit; Carla is away.  The conversation
    [k] of the team asks for billing at level 2. *)
Definition inbox_example : World (H := gmap_prisma) :=
  world_with ∅
    <| inboxAgents := ({[ "a" := staff "Ana" AVAILABLE (Some 2%Z); "b" := staff "Bea" AVAILABLE None;
                          "c" := staff "Carla" AWAY None ]} : gmap string InboxAgent.t) |>
    <| teams := ({[ "T" := InboxTeam.make "t" "Support" None true (Some 30%Z) ]} : gmap string InboxTeam.t) |>
    <| teamMembers := ({[ "1" := InboxTeamMember.make "t" "T" "a" 0; "2" := InboxTeamMember.make "t" "T" "b" 0;
                          "3" := InboxTeamMember.make "t" "T" "c" 0 ]} : gmap string InboxTeamMember.t) |>
    <| skills := ({[ "s" := InboxSkill.make "t" "Billing" None true ]} : gmap string InboxSkill.t) |>
    <| agentSkills := ({[ "1" := InboxAgentSkill.make "t" "s" "a" 3 0; "2" := InboxAgentSkill.make "t" "s" "b" 2 0 ]}
                       : gmap string InboxAgentSkill.t) |>
    <| skillRequirements := ({[ "1" := SkillRequirement.make "t" "k" "s" 2 ]} : gmap string SkillRequirement.t) |>
    <| teamAssignments := ({[ "1" := TeamAssignment.make "t" "k" "T" ]} : gmap string TeamAssignment.t) |>
    <| conversations := ({[ "k" := waiting "x"; "l" := assign (Some "a") (waiting "y") ]} : gmap string Conversation.t) |>.
Definition operator : Principal.t := Principal.make "t" "key" [].

Ltac owns := eexists; split; [vm_compute; reflexivity|reflexivity].

Lemma inbox_example_ok : inbox_ok inbox_example.
Proof.
  split.
  - intros k c Hc. some_row Hc; (split; [intros a [= <-]; owns || intros a Ha; discriminate Ha|split; [done|by intros [? ?]]]).
  - intros k c Hc. some_row Hc; split; owns.
  - intros k c Hc. some_row Hc; split; owns.
  - intros k c Hc. some_row Hc; split; owns.
  - intros k c Hc. some_row Hc; split; owns.
  - intros k c Hc. some_row Hc.
  - intros k k' r r' Hr Hr'. some_row Hr; some_row Hr'; done.
  - intros k k' r r' Hr Hr'. some_row Hr; some_row Hr'; done.
  - intros k k' r r' Hr Hr'. some_row Hr; some_row Hr'; done.
  - intros k k' r r' Hr Hr'. some_row Hr; some_row Hr'; done.
  - reflexivity.
Qed.

(** Routing gives [k] to Bea, who has nothing to do; Ana may claim it too, Carla may not. *)
Definition outcome_of (r : exec js_error (Conversation.t * bool)) : option (option string * bool) :=
  match r with Ok (c, changed) => Some (Conversation.assignedAgentId c, changed) | _ => None end.
Lemma routeConversation_witness :
  let run := @routeConversation gmap_prisma (calm 5) operator "k" None inbox_example in
  outcome_of run.1 = Some (Some "b", true) /\
  let '(r, w') := run in
  settled (F := route_refused "t" "k" inbox_example) (routed "t" "k" inbox_example) inbox_example r w'.
Proof.
  split; [vm_compute; reflexivity|].
  exact (@routeConversation_correct gmap_prisma (calm 5) operator "k" None inbox_example
           (inbox_skills_once _ inbox_example_ok) eq_refl).
Defined.
Lemma claimConversation_witness :
  let claim a := @claimConversation gmap_prisma (calm 5) operator "k" a None inbox_example in
  outcome_of (claim "a").1 = Some (Some "a", true) /\
  (claim "c").1 = Throws (UnprocessableEntityException "Inbox agent is not available for new conversations") /\
  let '(r, w') := claim "a" in
  settled (F := claim_refused "t" "k" "a" inbox_example) (claimed "t" "k" "a" inbox_example) inbox_example r w'.
Proof.
  split; [vm_compute; reflexivity|]. split; [vm_compute; reflexivity|].
  exact (@claimConversation_correct gmap_prisma (calm 5) operator "k" "a" None inbox_example
           (inbox_skills_once _ inbox_example_ok)).
Defined.

(** An administrator resolves [k] and gives it to Bea. *)
Definition resolve_to_bea : UpdateConversationDto.t :=
  UpdateConversationDto.make (Some RESOLVED) None (Some (Some "b")) None.

(** Ana takes two conversations and is refused a third. *)
Definition busy_day : list operation :=
  [Claim operator "k" "a" None; Claim operator "l" "a" None; MarkRead operator "k";
   Update operator "k" (UpdateConversationDto.make None (Some ConversationPriority.HIGH) None None) None].
Lemma capacity_history_witness :
  let w' := foldl (fun w o => @perform gmap_prisma (calm 5) o w) inbox_example busy_day in
  load "t" "a" inbox_example = 1%nat /\ load "t" "a" w' = 2%nat /\
  (row "a" w' = Some (staff "Ana" AVAILABLE (Some 2%Z)) /\ (Z.of_nat (load "t" "a" w') <= Z.max 1 2)%Z).
Proof.
  split; [vm_compute; reflexivity|]. split; [vm_compute; reflexivity|].
  assert (Hre : Forall (fun o => ~ reopens o) busy_day) by (repeat (apply Forall_cons; split; [by intros []|]); by apply Forall_nil).
  exact (@capacity_history gmap_prisma (calm 5) busy_day inbox_example (inbox_skills_once _ inbox_example_ok) eq_refl Hre
           "a" (staff "Ana" AVAILABLE (Some 2%Z)) 2%Z eq_refl eq_refl).
Defined.
(** Reopening is not checked against the limit: with both of her conversations resolved Ana takes a
    third, and an administrator opens the others again. *)
Definition status_of (s : ConversationStatus.t) : UpdateConversationDto.t := UpdateConversationDto.make (Some s) None None None.
Definition reopened : World (H := gmap_prisma) :=
  foldl (fun w o => @perform gmap_prisma (calm 5) o w)
    (inbox_example <| conversations := (<["m" := waiting "z"]> (<["l" := assign (Some "a") (waiting "y")]>
        {[ "k" := waiting "x" ]}) : gmap string Conversation.t) |>)
    [Claim operator "k" "a" None; Update operator "k" (status_of RESOLVED) None; Claim operator "m" "a" None;
     Update operator "k" (status_of OPEN) None].
Example reopened_past_limit : load "t" "a" reopened = 3%nat.
Proof. vm_compute. reflexivity. Qed.

Definition working_day : list inbox_operation :=
  [AddMember operator "T" "a" None; SetAgentSkill operator "s" "c" 4 None;
   OnConversation (SetRequirement operator "l" "s" 5 None); OnConversation (Claim operator "k" "a" None);
   OnConversation (AddNote operator "k" " called back "); OnConversation (Update operator "k" resolve_to_bea None);
   RecordInbound "t" "s" "x" 7; RemoveMember operator "T" "b" None].
Lemma inbox_history_witness :
  let w' := foldl (fun w o => @perform_inbox gmap_prisma (calm 5) o w) inbox_example working_day in
  (fun c => (Conversation.status c, Conversation.resolvedAt c, Conversation.assignedAgentId c)) <$> row "k" w' =
    Some (OPEN, None, Some "b") /\
  inbox_ok w'.
Proof.
  split; [vm_compute; reflexivity|].
  assert (Hv : Forall valid working_day) by (repeat (apply Forall_cons; split; [done|]); by apply Forall_nil).
  exact (@inbox_history gmap_prisma (calm 5) working_day inbox_example Hv inbox_example_ok).
Defined.
