(* ===== verification/Campaigns.v ===== *)
(** Campaigns ([campaigns/campaigns.service.ts]): launching one takes a snapshot of its audience;
    from then on it is paused, resumed, cancelled, failed and completed.

    [FOR UPDATE] and the isolation level only exclude interleavings; a transaction is one step here. *)
From stdpp Require Import prelude gmap strings sorting pretty.
From Stdlib Require Import ZArith Lia.
From S2P Require Import Prelude Json Io Prisma Domain Frame Queue Contacts AuditTrail Segments Senders Outbox Payload Messages Personalization.
#[local] Open Scope Z_scope.
Import CampaignStatus.

(** [@unique] on [messageId], [@@unique([campaignId, contactId])] *)
Definition recipient_unique : constraint CampaignRecipient.t := fun a b =>
  same_some (CampaignRecipient.messageId a) (CampaignRecipient.messageId b) ||
  bool_decide (CampaignRecipient.campaignId a = CampaignRecipient.campaignId b /\
               CampaignRecipient.contactId a = CampaignRecipient.contactId b).

(** [NormalizedCampaignAudience] *)
Module Audience.
Record t := make {
  allOptedIn : bool;
  contactIds : option (list string);
  segmentId : option string;
  segmentName : option string;
  segmentUpdatedAt : option string;
  language : option string;
  tagsAny : option (list string);
  tagsAll : option (list string)
}.
End Audience.

Definition readStringArray (value : option json) : list string :=
  match value with Some (JArr l) => Contacts.normalizeTags (strings_only l) | _ => [] end.
Definition non_empty {A} (l : list A) : option (list A) := match l with [] => None | _ => Some l end.

Definition readAudience (value : json) : exec js_error Audience.t :=
  match value with
  | JObj candidate =>
      let allOptedIn := match field "allOptedIn" candidate with Some (JBool true) => true | _ => false end in
      let contactIds := match field "contactIds" candidate with Some (JArr l) => non_empty (strings_only l) | _ => None end in
      let segmentId := truthy (as_string (field "segmentId" candidate)) in
      let modeCount := (Nat.b2n allOptedIn + Nat.b2n (bool_decide (is_Some contactIds)) +
                        Nat.b2n (bool_decide (is_Some segmentId)))%nat in
      if negb (Nat.eqb modeCount 1) then
        Throws (UnprocessableEntityException "Campaign audience configuration is ambiguous")
      else Ok {| Audience.allOptedIn := allOptedIn; Audience.contactIds := contactIds; Audience.segmentId := segmentId;
                 Audience.segmentName := as_string (field "segmentName" candidate);
                 Audience.segmentUpdatedAt := as_string (field "segmentUpdatedAt" candidate);
                 Audience.language := truthy (as_string (field "language" candidate));
                 Audience.tagsAny := non_empty (readStringArray (field "tagsAny" candidate));
                 Audience.tagsAll := non_empty (readStringArray (field "tagsAll" candidate)) |}
  | _ => Throws (UnprocessableEntityException "Campaign audience snapshot configuration is invalid")
  end.

(** [tagFilter]: [hasSome] and [hasEvery]. *)
Definition tagFilter (audience : Audience.t) (tags : list string) : bool :=
  match Audience.tagsAny audience with Some l => bool_decide (Exists (fun t => t ∈ tags) l) | None => true end &&
  match Audience.tagsAll audience with Some l => bool_decide (Forall (fun t => t ∈ tags) l) | None => true end.
(** The [where] of the snapshot. *)
Definition in_audience (tenantId : string) (audience : Audience.t) (id : string) (c : Contact.t) : bool :=
  bool_decide (Contact.tenantId c = tenantId) &&
  bool_decide (Contact.consentStatus c = ConsentStatus.OPTED_IN) &&
  match Audience.language audience with Some l => bool_decide (Contact.language c = Some l) | None => true end &&
  match Audience.contactIds audience with Some l => bool_decide (id ∈ l) | None => true end &&
  tagFilter audience (Contact.tags c).

Definition assertMarketingTemplate (template : Template.t) (senderWabaId : string) : exec js_error unit :=
  if negb (String.eqb (Template.wabaId template) senderWabaId) then
    Throws (UnprocessableEntityException "Campaign template does not belong to the selected sender WABA")
  else if negb (String.eqb (JsString.toUpperCase (Template.status template)) "APPROVED") then
    Throws (UnprocessableEntityException "Campaign template must be APPROVED")
  else if negb (bool_decide (JsString.toUpperCase <$> Template.category template = Some "MARKETING"%string)) then
    Throws (UnprocessableEntityException "Campaigns require a MARKETING template")
  else Ok tt.

(** [contactIds.slice(offset, offset + 1000)] for each offset; [fuel] bounds their number. *)
Fixpoint batches (fuel : nat) (l : list string) : list (list string) :=
  match fuel, l with
  | S fuel, _ :: _ => take 1000 l :: batches fuel (drop 1000 l)
  | _, _ => []
  end.

Definition pending_recipient (campaignId contactId : string) (createdAt : Z) : CampaignRecipient.t :=
  {| CampaignRecipient.campaignId := campaignId; CampaignRecipient.contactId := contactId;
     CampaignRecipient.messageId := None; CampaignRecipient.status := CampaignRecipientStatus.PENDING;
     CampaignRecipient.attemptCount := 0; CampaignRecipient.nextAttemptAt := createdAt;
     CampaignRecipient.processingLeaseUntil := None; CampaignRecipient.lastError := None;
     CampaignRecipient.queuedAt := None; CampaignRecipient.createdAt := createdAt |}.

(** By id, as [orderBy: { id: "asc" }]. *)
Definition id_first (a b : string * Contact.t) : Prop := JsString.le a.1 b.1.
#[export] Instance id_first_dec : RelDecision id_first.
Proof. intros a b. unfold id_first. apply _. Defined.

Section campaigns.
Context `{Prisma} `{Environment}.
(** The number a setting converts to; NaN when it is not set. *)
Context (setting : string -> number).

Definition maxRecipients : Z := Z.min (positiveInteger (setting "CAMPAIGN_MAX_RECIPIENTS") 50000) 50000.

Definition campaign_of (tenantId id : string) (k : string) (c : Campaign.t) : bool :=
  bool_decide (k = id) && bool_decide (Campaign.tenantId c = tenantId).
Definition campaign_find (tenantId id : string) : io World (option (string * Campaign.t)) :=
  db (fun w => Some (findFirst (campaign_of tenantId id) (campaigns w), w)).
Definition findById (tenantId id : string) : io World Campaign.t :=
  campaign ← campaign_find tenantId id;
  match campaign with Some (_, c) => mret c | None => throw (NotFoundException "Campaign not found") end.

(** [include: { sender: true, template: true }]; the foreign keys keep both rows. *)
Definition campaign_relations (c : Campaign.t) : io World (Sender.t * Template.t) :=
  db (fun w => s ← rows (senders w) !! Campaign.senderId c; t ← rows (templates w) !! Campaign.templateId c; Some ((s, t), w)).

(** [createMany({ skipDuplicates: true })]: one statement. *)
Definition insert_recipient (campaignId : string) (createdAt : Z) (t : table CampaignRecipient.t) (contactId : string)
    : table CampaignRecipient.t :=
  match Prisma.create recipient_unique (pending_recipient campaignId contactId createdAt) t with
  | Some (_, t') => t'
  | None => t
  end.
Definition recipients_createMany (campaignId : string) (createdAt : Z) (contactIds : list string) : io World unit :=
  db (fun w => Some (tt, w <| recipients ::= (fun t => foldl (insert_recipient campaignId createdAt) t contactIds) |>)).

Definition campaign_update (id : string) (f : Campaign.t -> Campaign.t) : io World Campaign.t :=
  db (fun w => t ← Prisma.update unconstrained id f (campaigns w); c ← rows t !! id; Some (c, w <| campaigns := t |>)).
Definition campaign_updateMany (p : string -> Campaign.t -> bool) (f : Campaign.t -> Campaign.t) : io World nat :=
  db (fun w => let '(n, t) := updateMany p f (campaigns w) in Some (n, w <| campaigns := t |>)).
Definition recipients_updateMany (p : string -> CampaignRecipient.t -> bool) (f : CampaignRecipient.t -> CampaignRecipient.t)
    : io World nat :=
  db (fun w => let '(n, t) := updateMany p f (recipients w) in Some (n, w <| recipients := t |>)).

(** The state a launched campaign starts in. *)
Definition launched_status (recipients : nat) (scheduledAt : option Z) (now : Z) : CampaignStatus.t :=
  if Nat.eqb recipients 0 then COMPLETED
  else if match scheduledAt with Some s => now <? s | None => false end then SCHEDULED else RUNNING.
Definition launched_data (recipients : nat) (now : Z) (c : Campaign.t) : Campaign.t :=
  let status := launched_status recipients (Campaign.scheduledAt c) now in
  let c := c <| Campaign.status := status |> <| Campaign.snapshotAt := Some now |>
             <| Campaign.totalRecipients := Z.of_nat recipients |> in
  let c := if bool_decide (status = RUNNING) then c <| Campaign.startedAt := Some now |> else c in
  if bool_decide (status = COMPLETED) then c <| Campaign.completedAt := Some now |> else c.

Definition launch_body (tenantId id : string) : io World Campaign.t :=
  campaign ← findById tenantId id;
  if bool_decide (is_Some (Campaign.snapshotAt campaign)) &&
     bool_decide (Campaign.status campaign ∈ [SCHEDULED; RUNNING; COMPLETED]) then mret campaign
  else if negb (bool_decide (Campaign.status campaign = DRAFT)) then
    throw (ConflictException ("Campaign in " +:+ name (Campaign.status campaign) +:+ " state cannot be launched"))
  else
    '(sender, template) ← campaign_relations campaign;
    waba ← (match truthy (Sender.wabaId sender) with
            | Some waba => if Sender.active sender then mret waba else
                throw (UnprocessableEntityException "Campaign sender is inactive or missing its WABA ID")
            | None => throw (UnprocessableEntityException "Campaign sender is inactive or missing its WABA ID")
            end);
    _ ← lift (assertMarketingTemplate template waba);
    audience ← lift (readAudience (Campaign.audience campaign));
    found ← db (fun w => Some (take (S (Z.to_nat maxRecipients))
        (merge_sort id_first (findMany (in_audience tenantId audience) (contacts w))), w));
    let contactIds := (found : list (string * Contact.t)).*1 in
    if maxRecipients <? Z.of_nat (length contactIds) then
      throw (BadRequestException ("Campaign audience exceeds CAMPAIGN_MAX_RECIPIENTS (" +:+ pretty maxRecipients +:+ ")"))
    else
      createdAt ← now;
      _ ← for_each (batches (length contactIds) contactIds) (recipients_createMany id createdAt);
      now ← now;
      campaign_update id (launched_data (length contactIds) now).
Definition launch (tenantId id : string) : io World Campaign.t := transaction (launch_body tenantId id).

Definition pause (tenantId id : string) : io World Campaign.t :=
  count ← campaign_updateMany (fun k c => campaign_of tenantId id k c && bool_decide (Campaign.status c ∈ [RUNNING; SCHEDULED]))
            (fun c => c <| Campaign.status := PAUSED |>);
  if Nat.eqb count 0 then
    campaign ← findById tenantId id;
    if bool_decide (Campaign.status campaign = PAUSED) then mret campaign
    else throw (ConflictException ("Campaign in " +:+ name (Campaign.status campaign) +:+ " state cannot be paused"))
  else findById tenantId id.

(** The state a paused campaign goes on in. *)
Definition resumed_status (scheduledAt : option Z) (now : Z) : CampaignStatus.t :=
  if match scheduledAt with Some s => now <? s | None => false end then SCHEDULED else RUNNING.
Definition resumed_data (status : CampaignStatus.t) (startedAt : option Z) (now : Z) (c : Campaign.t) : Campaign.t :=
  let c := c <| Campaign.status := status |> in
  if bool_decide (status = RUNNING) && bool_decide (startedAt = None) then c <| Campaign.startedAt := Some now |> else c.

Definition resume (tenantId id : string) : io World Campaign.t :=
  campaign ← findById tenantId id;
  if negb (bool_decide (Campaign.status campaign = PAUSED)) then
    throw (ConflictException ("Campaign in " +:+ name (Campaign.status campaign) +:+ " state cannot be resumed"))
  else
    now ← now;
    let status := resumed_status (Campaign.scheduledAt campaign) now in
    count ← campaign_updateMany (fun k c => campaign_of tenantId id k c && bool_decide (Campaign.status c = PAUSED))
              (resumed_data status (Campaign.startedAt campaign) now);
    if Nat.eqb count 0 then
      current ← findById tenantId id;
      throw (ConflictException ("Campaign in " +:+ name (Campaign.status current) +:+ " state cannot be resumed"))
    else findById tenantId id.

(** [groupBy] and the counts by status. *)
Definition count_status (campaignId : string) (s : CampaignRecipientStatus.t) (t : table CampaignRecipient.t) : nat :=
  length (findMany (fun _ r => bool_decide (CampaignRecipient.campaignId r = campaignId) &&
                               bool_decide (CampaignRecipient.status r = s)) t).
Definition stats_data (counts : CampaignRecipientStatus.t -> nat) (c : Campaign.t) : Campaign.t :=
  c <| Campaign.queuedRecipients := Z.of_nat (counts CampaignRecipientStatus.QUEUED) |>
    <| Campaign.skippedRecipients := Z.of_nat (counts CampaignRecipientStatus.SKIPPED) |>
    <| Campaign.failedRecipients := Z.of_nat (counts CampaignRecipientStatus.FAILED) |>
    <| Campaign.cancelledRecipients := Z.of_nat (counts CampaignRecipientStatus.CANCELLED) |>.

Definition refreshStats (campaignId : string) : io World unit :=
  counts ← db (fun w => Some ((fun s => count_status campaignId s (recipients w)), w));
  updated ← campaign_updateMany (fun k _ => bool_decide (k = campaignId)) (stats_data counts);
  if Nat.eqb updated 0 then mret tt else
  if Nat.eqb (counts CampaignRecipientStatus.PENDING) 0 && Nat.eqb (counts CampaignRecipientStatus.PROCESSING) 0 then
    completedAt ← now;
    _ ← campaign_updateMany (fun k c => bool_decide (k = campaignId) && bool_decide (Campaign.status c = RUNNING))
          (fun c => c <| Campaign.status := COMPLETED |> <| Campaign.completedAt := Some completedAt |>);
    mret tt
  else mret tt.

Definition close_pending (campaignId : string) (status : CampaignRecipientStatus.t) (reason : string) : io World nat :=
  recipients_updateMany (fun _ r => bool_decide (CampaignRecipient.campaignId r = campaignId) &&
                                    bool_decide (CampaignRecipient.status r = CampaignRecipientStatus.PENDING))
    (fun r => r <| CampaignRecipient.status := status |> <| CampaignRecipient.processingLeaseUntil := None |>
                <| CampaignRecipient.lastError := Some reason |>).

Definition cancel_body (tenantId id : string) (cancelledAt : Z) : io World bool :=
  count ← campaign_updateMany (fun k c => campaign_of tenantId id k c &&
              bool_decide (Campaign.status c ∈ [DRAFT; SCHEDULED; RUNNING; PAUSED]))
            (fun c => c <| Campaign.status := CANCELLED |> <| Campaign.cancelledAt := Some cancelledAt |>);
  if Nat.eqb count 0 then mret false else
  _ ← close_pending id CampaignRecipientStatus.CANCELLED "Campaign cancelled before recipient processing";
  mret true.
Definition cancel (tenantId id : string) : io World Campaign.t :=
  existing ← findById tenantId id;
  if bool_decide (Campaign.status existing = CANCELLED) then mret existing
  else if bool_decide (Campaign.status existing ∈ [COMPLETED; FAILED]) then
    throw (ConflictException ("Campaign in " +:+ name (Campaign.status existing) +:+ " state cannot be cancelled"))
  else
    cancelledAt ← now;
    transitioned ← transaction (cancel_body tenantId id cancelledAt);
    if negb transitioned then
      current ← findById tenantId id;
      if bool_decide (Campaign.status current = CANCELLED) then mret current
      else throw (ConflictException ("Campaign in " +:+ name (Campaign.status current) +:+ " state cannot be cancelled"))
    else
      _ ← refreshStats id;
      findById tenantId id.

Definition fail_body (campaignId failureReason : string) : io World bool :=
  count ← campaign_updateMany (fun k c => bool_decide (k = campaignId) && bool_decide (Campaign.status c ∈ [RUNNING; SCHEDULED]))
            (fun c => c <| Campaign.status := FAILED |> <| Campaign.failureReason := Some failureReason |>);
  if Nat.eqb count 0 then mret false else
  _ ← close_pending campaignId CampaignRecipientStatus.FAILED failureReason;
  mret true.
Definition failCampaign (campaignId reason : string) : io World bool :=
  transaction (fail_body campaignId (JsString.slice0 2000 reason)).
End campaigns.

(** ** The life of a campaign *)
(** The transitions of the status; COMPLETED, CANCELLED and FAILED have none. *)
Inductive allowed : CampaignStatus.t -> CampaignStatus.t -> Prop :=
| launch_scheduled : allowed DRAFT SCHEDULED
| launch_running : allowed DRAFT RUNNING
| launch_empty : allowed DRAFT COMPLETED
| promote : allowed SCHEDULED RUNNING
| pause_scheduled : allowed SCHEDULED PAUSED
| pause_running : allowed RUNNING PAUSED
| resume_scheduled : allowed PAUSED SCHEDULED
| resume_running : allowed PAUSED RUNNING
| complete : allowed RUNNING COMPLETED
| cancel_draft : allowed DRAFT CANCELLED
| cancel_scheduled : allowed SCHEDULED CANCELLED
| cancel_running : allowed RUNNING CANCELLED
| cancel_paused : allowed PAUSED CANCELLED
| fail_scheduled : allowed SCHEDULED FAILED
| fail_running : allowed RUNNING FAILED.
#[export] Hint Constructors allowed : core.

Lemma allowed_left s s' : rtc allowed s s' -> s <> DRAFT -> s' <> DRAFT.
Proof. induction 1 as [|s s1 s' Hs _ IH]; [done|]. intros _. apply IH. by inversion Hs. Qed.
Definition final (s : CampaignStatus.t) : bool := match s with COMPLETED | CANCELLED | FAILED => true | _ => false end.
Lemma allowed_final s s' : rtc allowed s s' -> final s = true -> s' = s.
Proof. destruct 1 as [|s s1 s' Hs _]; [done|]. by inversion Hs. Qed.

(** What a campaign keeps: whose it is and what it sends, and its snapshot once it is launched. *)
Record lifecycle (c c' : Campaign.t) : Prop := {
  life_status : rtc allowed (Campaign.status c) (Campaign.status c');
  life_owner : Campaign.tenantId c' = Campaign.tenantId c /\ Campaign.senderId c' = Campaign.senderId c /\
    Campaign.templateId c' = Campaign.templateId c /\ Campaign.components c' = Campaign.components c /\
    Campaign.audience c' = Campaign.audience c;
  life_snapshot : Campaign.status c <> DRAFT ->
    Campaign.snapshotAt c' = Campaign.snapshotAt c /\ Campaign.totalRecipients c' = Campaign.totalRecipients c
}.
#[export] Instance lifecycle_preorder : PreOrder lifecycle.
Proof.
  split; [by split|]. intros a b c [A1 (A2 & A3 & A4 & A5 & A6) A7] [B1 (B2 & B3 & B4 & B5 & B6) B7]. split.
  - by etrans.
  - repeat split; congruence.
  - intros Hd. destruct (A7 Hd) as [E1 E2]. pose proof (allowed_left _ _ A1 Hd) as Hd'.
    destruct (B7 Hd'). split; congruence.
Qed.

(** What a recipient keeps: whom it is for, and everything once it is closed. *)
Definition closed (s : CampaignRecipientStatus.t) : bool :=
  match s with CampaignRecipientStatus.PENDING | CampaignRecipientStatus.PROCESSING => false | _ => true end.
Record recipient_life (r r' : CampaignRecipient.t) : Prop := {
  recipient_campaign : CampaignRecipient.campaignId r' = CampaignRecipient.campaignId r;
  recipient_contact : CampaignRecipient.contactId r' = CampaignRecipient.contactId r;
  recipient_attempts : CampaignRecipient.attemptCount r <= CampaignRecipient.attemptCount r';
  recipient_closed : closed (CampaignRecipient.status r) = true -> r' = r
}.
#[export] Instance recipient_life_preorder : PreOrder recipient_life.
Proof.
  split; [by split|]. intros a b c [A1 A2 A3 A4] [B1 B2 B3 B4]. split; [congruence|congruence|lia|].
  intros Ha. pose proof (A4 Ha) as ->. by apply B4.
Qed.

(** The idempotency key of the message to a contact, which ties the two together. *)
Definition recipientIdempotencyKey (campaignId contactId : string) : string :=
  "campaign:" +:+ campaignId +:+ ":contact:" +:+ contactId.

Section lifecycle_proofs.
Context `{Prisma} `{Environment}.
Context (setting : string -> number).

(** The message is the campaign's to the recipient's contact. *)
Definition carries (w : World) (r : CampaignRecipient.t) (mid : string) : Prop := exists m c,
  rows (messages w) !! mid = Some m /\ rows (campaigns w) !! CampaignRecipient.campaignId r = Some c /\
  Message.tenantId m = Some (Campaign.tenantId c) /\
  Message.idempotencyKey m = Some (recipientIdempotencyKey (CampaignRecipient.campaignId r) (CampaignRecipient.contactId r)).
(** Every recipient marked as queued has its message. *)
Definition queued_carried (w : World) : Prop := forall k r, rows (recipients w) !! k = Some r ->
  CampaignRecipient.status r = CampaignRecipientStatus.QUEUED ->
  exists mid, CampaignRecipient.messageId r = Some mid /\ carries w r mid.
(** Only launched campaigns have recipients. *)
Definition recipients_launched (w : World) : Prop := forall k r, rows (recipients w) !! k = Some r ->
  exists c, rows (campaigns w) !! CampaignRecipient.campaignId r = Some c /\ Campaign.status c <> DRAFT.
(** No two messages of a tenant share a key; so no contact gets a campaign twice. *)
Definition keys_unique (w : World) : Prop := forall T key k1 m1 k2 m2,
  rows (messages w) !! k1 = Some m1 -> rows (messages w) !! k2 = Some m2 ->
  has_idempotency_key T key k1 m1 = true -> has_idempotency_key T key k2 m2 = true -> k1 = k2.

Definition campaigns_live (w w' : World) : Prop := forall k c, rows (campaigns w) !! k = Some c ->
  exists c', rows (campaigns w') !! k = Some c' /\ lifecycle c c'.
Definition recipients_live (w w' : World) : Prop := forall k r, rows (recipients w) !! k = Some r ->
  exists r', rows (recipients w') !! k = Some r' /\ recipient_life r r'.
(** How the campaign tables go on, whatever is done and whatever fails. *)
Record progress (w w' : World) : Prop := {
  prog_campaigns : campaigns_live w w';
  prog_recipients : recipients_live w w';
  prog_new : forall k r' c, rows (recipients w') !! k = Some r' -> rows (recipients w) !! k = None ->
    rows (campaigns w) !! CampaignRecipient.campaignId r' = Some c -> Campaign.status c = DRAFT;
  prog_messages : rows (messages w) ⊆ rows (messages w');
  prog_outbox : rows (outboxEvents w) ⊆ rows (outboxEvents w');
  prog_requested : forall id m, rows (messages w') !! id = Some m -> rows (messages w) !! id = None ->
    exists ev e, rows (outboxEvents w') !! ev = Some e /\ requests id m e;
  prog_keys : keys_unique w -> keys_unique w';
  prog_launched : recipients_launched w -> recipients_launched w';
  prog_queued : queued_carried w -> queued_carried w'
}.

#[export] Instance campaigns_live_preorder : PreOrder campaigns_live.
Proof.
  split; [intros w k c Hk; by exists c|]. intros w1 w2 w3 H12 H23 k c Hk.
  destruct (H12 k c Hk) as (c2 & Hk2 & L1). destruct (H23 k c2 Hk2) as (c3 & Hk3 & L2). exists c3. split; [done|]. by etrans.
Qed.
#[export] Instance recipients_live_preorder : PreOrder recipients_live.
Proof.
  split; [intros w k c Hk; by exists c|]. intros w1 w2 w3 H12 H23 k c Hk.
  destruct (H12 k c Hk) as (c2 & Hk2 & L1). destruct (H23 k c2 Hk2) as (c3 & Hk3 & L2). exists c3. split; [done|]. by etrans.
Qed.
#[export] Instance progress_preorder : PreOrder progress.
Proof.
  split.
  - intros w. split; try done; try reflexivity; intros; congruence.
  - intros w1 w2 w3 [A1 A2 A3 A4 A5 A6 A7 A8 A9] [B1 B2 B3 B4 B5 B6 B7 B8 B9].
    split; [by etrans|by etrans| |by etrans|by etrans| |by auto|by auto|by auto].
    + intros k r' c Hr' Hk Hc. destruct (rows (recipients w2) !! k) as [r2|] eqn:E2.
      * destruct (B2 k r2 E2) as (r3 & E3 & L). rewrite Hr' in E3. injection E3 as <-.
        rewrite (recipient_campaign _ _ L) in Hc. by eapply A3.
      * destruct (A1 _ c Hc) as (c2 & Hc2 & L). pose proof (B3 k r' c2 Hr' E2 Hc2) as Hd.
        destruct (decide (Campaign.status c = DRAFT)) as [|Hn]; [done|].
        by destruct (allowed_left _ _ (life_status _ _ L) Hn).
    + intros id m Hm Hid. destruct (rows (messages w2) !! id) as [m2|] eqn:E2; [|by eapply B6].
      pose proof (lookup_weaken _ _ _ _ E2 B4) as E3. rewrite Hm in E3. injection E3 as <-.
      destruct (A6 id m E2 Hid) as (ev & e & He & Hr). exists ev, e. split; [by eapply lookup_weaken|done].
Qed.

(** What has its part in [progress]. *)
Definition campaign_tables (w : World) := (campaigns w, recipients w, messages w, outboxEvents w).
Lemma progress_rows w w' :
  rows (campaigns w') = rows (campaigns w) -> rows (recipients w') = rows (recipients w) ->
  rows (messages w') = rows (messages w) -> rows (outboxEvents w') = rows (outboxEvents w) -> progress w w'.
Proof.
  intros E1 E2 E3 E4.
  split; unfold campaigns_live, recipients_live, keys_unique, recipients_launched, queued_carried, carries; rewrite ?E1, ?E2, ?E3, ?E4; try done.
  - intros k c Hk. by exists c.
  - intros k c Hk. by exists c.
  - intros k r c Hr Hn. congruence.
  - intros k m Hr Hn. congruence.
Qed.
Lemma progress_same w w' : campaign_tables w' = campaign_tables w -> progress w w'.
Proof. intros [= E1 E2 E3 E4]. apply progress_rows; by rewrite ?E1, ?E2, ?E3, ?E4. Qed.
Lemma progress_tick w n : progress w (w <| tick := n |>).
Proof. by apply progress_same. Qed.
Lemma carries_progress w w' r r' mid : progress w w' -> recipient_life r r' -> carries w r mid -> carries w' r' mid.
Proof.
  intros P [R1 R2 _ _] (m & c & Hm & Hc & HT & Hk). destruct (prog_campaigns _ _ P _ _ Hc) as (c' & Hc' & L).
  exists m, c'. rewrite R1, R2. destruct (life_owner _ _ L) as [-> _].
  split; [exact (lookup_weaken _ _ _ _ Hm (prog_messages _ _ P))|done].
Qed.

(** A step on the campaigns alone; on the recipients alone. *)
Lemma progress_of_campaigns w t : campaigns_live w (w <| campaigns := t |>) -> progress w (w <| campaigns := t |>).
Proof.
  intros L. split; try done; try reflexivity.
  - intros k r Hk. by exists r.
  - intros k r c Hr Hn. cbn in Hr. congruence.
  - intros id m Hm Hn. cbn in Hm. congruence.
  - intros Q k r Hr. destruct (Q k r Hr) as (c & Hc & Hd). destruct (L _ _ Hc) as (c' & Hc' & Lc). exists c'. split; [done|].
    by eapply allowed_left, Hd; apply life_status.
  - intros Q k r Hr Hs. destruct (Q k r Hr Hs) as (mid & Hm & m & c & H1 & H2 & H3 & H4). exists mid. split; [done|].
    destruct (L _ _ H2) as (c' & Hc' & Lc). exists m, c'. by destruct (life_owner _ _ Lc) as [-> _].
Qed.
Lemma progress_of_recipients w t :
  (forall k r', rows t !! k = Some r' -> match rows (recipients w) !! k with
     | Some r => recipient_life r r' /\
         (CampaignRecipient.status r' = CampaignRecipientStatus.QUEUED ->
          r' = r \/ exists mid, CampaignRecipient.messageId r' = Some mid /\ carries w r' mid)
     | None => False
     end) ->
  (forall k, is_Some (rows (recipients w) !! k) -> is_Some (rows t !! k)) ->
  progress w (w <| recipients := t |>).
Proof.
  intros Hr Hdom. split; try done; try reflexivity.
  - intros k c Hk. by exists c.
  - intros k r Hk. destruct (Hdom k) as [r' Hk']; [by eexists|]. exists r'. split; [done|]. specialize (Hr k r' Hk').
    rewrite Hk in Hr. apply Hr.
  - intros k r' c Hk' Hk. specialize (Hr k r' Hk'). by rewrite Hk in Hr.
  - intros id m Hm Hn. cbn in Hm. congruence.
  - intros Q k r' Hk'. specialize (Hr k r' Hk'). destruct (rows (recipients w) !! k) as [r|] eqn:Hk; [|done].
    rewrite (recipient_campaign _ _ (proj1 Hr)). by apply (Q k r).
  - intros Q k r' Hk' Hs. specialize (Hr k r' Hk'). destruct (rows (recipients w) !! k) as [r|] eqn:Hk; [|done].
    destruct Hr as [L Hm]. destruct (Hm Hs) as [->|Hc]; [by eapply Q|done].
Qed.

(** One message more, under a new key, and its event. *)
Lemma progress_of_message w w' id m ev e T key :
  rows (campaigns w') = rows (campaigns w) -> rows (recipients w') = rows (recipients w) ->
  rows (messages w) !! id = None -> rows (messages w') = <[id := m]> (rows (messages w)) ->
  rows (outboxEvents w) !! ev = None -> rows (outboxEvents w') = <[ev := e]> (rows (outboxEvents w)) -> requests id m e ->
  Message.tenantId m = Some T -> Message.idempotencyKey m = key ->
  (forall k, key = Some k -> forall id' m', rows (messages w) !! id' = Some m' -> has_idempotency_key T k id' m' = false) ->
  progress w w'.
Proof.
  intros Ec Er Hid Em Hev Eo Hreq HT Hk Hu.
  assert (Hself : forall T' key', has_idempotency_key T' key' id m = true -> T' = T /\ key = Some key').
  { intros T' key' [H1%bool_decide_eq_true H2%bool_decide_eq_true]%andb_true_iff. split; congruence. }
  split; unfold campaigns_live, recipients_live, recipients_launched; rewrite ?Ec, ?Er.
  - intros k c Hc. by exists c.
  - intros k r Hr. by exists r.
  - intros k r c Hr Hn. congruence.
  - rewrite Em. by apply insert_subseteq.
  - rewrite Eo. by apply insert_subseteq.
  - intros i x Hx Hn. rewrite Em in Hx. apply lookup_insert_Some in Hx as [[<- <-]|[_ Hx]]; [|congruence].
    exists ev, e. by rewrite Eo, lookup_insert_eq.
  - intros Q T' key' k1 m1 k2 m2. rewrite Em. intros [[<- <-]|[_ H1]]%lookup_insert_Some [[<- <-]|[_ H2]]%lookup_insert_Some K1 K2; [done| | |by eapply Q].
    + destruct (Hself _ _ K1) as [-> E]. by rewrite (Hu key' E k2 m2 H2) in K2.
    + destruct (Hself _ _ K2) as [-> E]. by rewrite (Hu key' E k1 m1 H1) in K1.
  - done.
  - intros Q k r Hr Hs. rewrite Er in Hr. destruct (Q k r Hr Hs) as (mid & Hm & x & c & H1 & H2 & H3 & H4). exists mid. split; [done|].
    exists x, c. rewrite Em, Ec. split; [|done]. rewrite lookup_insert_ne; [done|]. intros <-. congruence.
Qed.

Lemma updateMany_live p f :
  (forall k c, p k c = true -> lifecycle c (f c)) -> preserves progress (campaign_updateMany p f).
Proof.
  intros Hf. apply preserves_db; [apply _|apply progress_tick|]. intros w n w' E.
  pose proof (updateMany_rows Campaign.t p f (campaigns w)) as Hr. destruct (updateMany p f (campaigns w)) as [n' tb].
  injection E as <- <-. cbn [snd] in Hr. apply progress_of_campaigns. intros k c Hk. cbn. rewrite Hr, Hk. cbn.
  eexists. split; [done|]. destruct (p k c) eqn:Ep; [by eapply Hf|done].
Qed.
Lemma findById_live T id : preserves progress (findById T id).
Proof. apply (preserves_reads _ _ campaign_tables); [apply progress_same|]. unfold findById, campaign_find. frame_steps. Qed.
(** Recipients change only while they are open, and are marked as queued only with their message. *)
Lemma recipients_updateMany_step p f w :
  (forall k r, rows (recipients w) !! k = Some r -> p k r = true -> recipient_life r (f r) /\
     (CampaignRecipient.status (f r) = CampaignRecipientStatus.QUEUED ->
      exists mid, CampaignRecipient.messageId (f r) = Some mid /\ carries w (f r) mid)) ->
  progress w (w <| recipients := (updateMany p f (recipients w)).2 |>).
Proof.
  intros Hf. apply progress_of_recipients.
  - intros k r' Hk'. rewrite updateMany_rows in Hk'. destruct (rows (recipients w) !! k) as [r|] eqn:Hk; [|done].
    cbn in Hk'. injection Hk' as <-. destruct (p k r) eqn:Ep; [|split; [done|by left]].
    destruct (Hf k r Hk Ep) as [L Hq]. split; [done|]. intros Hs. right. by apply Hq.
  - intros k [r Hk]. rewrite updateMany_rows, Hk. by eexists.
Qed.
Lemma recipients_updateMany_live p f :
  (forall k r, p k r = true -> recipient_life r (f r) /\ CampaignRecipient.status (f r) <> CampaignRecipientStatus.QUEUED) ->
  preserves progress (recipients_updateMany p f).
Proof.
  intros Hf. apply preserves_db; [apply _|apply progress_tick|]. intros w n w' E.
  pose proof (recipients_updateMany_step p f w) as Hs. destruct (updateMany p f (recipients w)) as [n' tb].
  injection E as <- <-. apply Hs. intros k r _ Hp. by destruct (Hf k r Hp).
Qed.

(** One transition of the status leaves the rest alone. *)
Lemma lifecycle_status c c' :
  allowed (Campaign.status c) (Campaign.status c') \/ Campaign.status c = Campaign.status c' ->
  Campaign.tenantId c' = Campaign.tenantId c -> Campaign.senderId c' = Campaign.senderId c ->
  Campaign.templateId c' = Campaign.templateId c -> Campaign.components c' = Campaign.components c ->
  Campaign.audience c' = Campaign.audience c -> Campaign.snapshotAt c' = Campaign.snapshotAt c ->
  Campaign.totalRecipients c' = Campaign.totalRecipients c -> lifecycle c c'.
Proof. intros Hs. split; [|by repeat split|done]. destruct Hs as [Hs|Hs]; [by apply rtc_once|by rewrite Hs]. Qed.

Lemma pause_live T id : preserves progress (pause T id).
Proof.
  unfold pause. preserve_steps; try apply findById_live; try (apply updateMany_live); try apply progress_tick.
  intros k c [_ Hs%bool_decide_eq_true]%andb_true_iff. apply lifecycle_status; try done. cbn.
  rewrite !elem_of_cons, elem_of_nil in Hs. destruct Hs as [->|[->|[]]]; auto.
Qed.
Lemma resumed_status_cases s n : resumed_status s n = SCHEDULED \/ resumed_status s n = RUNNING.
Proof. unfold resumed_status. destruct s as [s|]; [destruct (n <? s)|]; auto. Qed.
Lemma resume_live T id : preserves progress (resume T id).
Proof.
  unfold resume. preserve_steps; try apply findById_live; try apply updateMany_live; try (by apply preserves_now; apply progress_tick).
  intros k c [_ Hs%bool_decide_eq_true]%andb_true_iff. unfold resumed_data.
  destruct (bool_decide (_ = RUNNING) && _); cbn -[resumed_status];
    apply lifecycle_status; try done; left; cbn -[resumed_status]; rewrite Hs;
    by destruct (resumed_status_cases (Campaign.scheduledAt a) a0) as [-> | ->].
Qed.
Lemma refreshStats_live id : preserves progress (refreshStats id).
Proof.
  unfold refreshStats. preserve_steps; try (by apply preserves_now; apply progress_tick).
  - apply preserves_db; [apply _|apply progress_tick|]. intros w a w' [= <- <-]. reflexivity.
  - apply updateMany_live. intros k c _. apply lifecycle_status; try done. by right.
  - apply updateMany_live. intros k c [_ Hs%bool_decide_eq_true]%andb_true_iff. apply lifecycle_status; try done. left. cbn. rewrite Hs. auto.
Qed.
Lemma close_pending_live id s reason : s <> CampaignRecipientStatus.QUEUED -> preserves progress (close_pending id s reason).
Proof.
  intros Hs. apply recipients_updateMany_live. intros k r [_ Hp%bool_decide_eq_true]%andb_true_iff.
  split; [|done]. split; try done. cbn. rewrite Hp. done.
Qed.
Lemma cancel_live T id : preserves progress (cancel T id).
Proof.
  unfold cancel. preserve_steps; try apply findById_live; try apply refreshStats_live; try (by apply preserves_now; apply progress_tick).
  apply preserves_transaction; [apply _|apply progress_tick|]. unfold cancel_body. preserve_steps; [|by apply close_pending_live].
  apply updateMany_live. intros k c [_ Hs%bool_decide_eq_true]%andb_true_iff. apply lifecycle_status; try done. left. cbn.
  rewrite !elem_of_cons, elem_of_nil in Hs. destruct Hs as [->|[->|[->|[->|[]]]]]; auto.
Qed.
Lemma failCampaign_live id reason : preserves progress (failCampaign id reason).
Proof.
  unfold failCampaign. apply preserves_transaction; [apply _|apply progress_tick|]. unfold fail_body.
  preserve_steps; [|by apply close_pending_live].
  apply updateMany_live. intros k c [_ Hs%bool_decide_eq_true]%andb_true_iff. apply lifecycle_status; try done. left. cbn.
  rewrite !elem_of_cons, elem_of_nil in Hs. destruct Hs as [->|[->|[]]]; auto.
Qed.

(** *** The snapshot *)
Definition recipient_of (campaignId contactId : string) (w : World) : Prop := exists k r,
  rows (recipients w) !! k = Some r /\ CampaignRecipient.campaignId r = campaignId /\ CampaignRecipient.contactId r = contactId.

(** Recipients are added for some contacts, and nothing else happens. *)
Record grows (id : string) (ids : list string) (w w' : World) : Prop := {
  grow_same : campaigns w' = campaigns w /\ contacts w' = contacts w /\ messages w' = messages w /\
    outboxEvents w' = outboxEvents w;
  grow_old : rows (recipients w) ⊆ rows (recipients w');
  grow_new : forall k r, rows (recipients w') !! k = Some r -> rows (recipients w) !! k = None ->
    exists contactId t, contactId ∈ ids /\ r = pending_recipient id contactId t;
  grow_once : forall k1 k2 r1 r2, rows (recipients w') !! k1 = Some r1 -> rows (recipients w) !! k1 = None ->
    rows (recipients w') !! k2 = Some r2 -> CampaignRecipient.campaignId r2 = CampaignRecipient.campaignId r1 ->
    CampaignRecipient.contactId r2 = CampaignRecipient.contactId r1 -> k1 = k2
}.
#[export] Instance grows_preorder id ids : PreOrder (grows id ids).
Proof.
  split; [intros w; split; try done; intros; congruence|].
  intros w1 w2 w3 [(A1 & A2 & A3 & A4) A5 A6 A7] [(B1 & B2 & B3 & B4) B5 B6 B7]. split.
  - repeat split; congruence.
  - by etrans.
  - intros k r Hr Hk. destruct (rows (recipients w2) !! k) as [r2|] eqn:E2; [|by eapply B6].
    pose proof (lookup_weaken _ _ _ _ E2 B5) as E3. rewrite Hr in E3. injection E3 as <-. by eapply A6.
  - intros k1 k2 r1 r2 H1 Hn H2 Hc Hct. destruct (rows (recipients w2) !! k1) as [r1'|] eqn:E1; [|by eapply B7].
    pose proof (lookup_weaken _ _ _ _ E1 B5) as E1'. rewrite H1 in E1'. injection E1' as <-.
    destruct (rows (recipients w2) !! k2) as [r2'|] eqn:E2; [|symmetry; by eapply B7].
    pose proof (lookup_weaken _ _ _ _ E2 B5) as E2'. rewrite H2 in E2'. injection E2' as <-. by eapply A7.
Qed.
Lemma recipient_of_grows id ids c x w w' : grows id ids w w' -> recipient_of c x w -> recipient_of c x w'.
Proof. intros G (k & r & Hr & E). exists k, r. split; [exact (lookup_weaken _ _ _ _ Hr (grow_old _ _ _ _ G))|done]. Qed.

(** One row: added unless the contact is there already. *)
Lemma pending_conflict id x t r :
  recipient_unique (pending_recipient id x t) r = true ->
  CampaignRecipient.campaignId r = id /\ CampaignRecipient.contactId r = x.
Proof.
  intros Hs%orb_true_iff. destruct Hs as [Hs%bool_decide_eq_true|Hs%bool_decide_eq_true].
  - by destruct Hs as [[? ?] _].
  - by destruct Hs as [<- <-].
Qed.
Lemma insert_recipient_grows id t x ids w :
  x ∈ ids -> let w' := w <| recipients := insert_recipient id t (recipients w) x |> in
  grows id ids w w' /\ recipient_of id x w'.
Proof.
  intros Hx w'. unfold w', insert_recipient. set (row := pending_recipient id x t).
  destruct (Prisma.create recipient_unique row (recipients w)) as [[k tb]|] eqn:E.
  - apply create_some in E as (Hk & Htb & Hu). split.
    + split; [done|cbn; rewrite Htb; by apply insert_subseteq| |].
      * cbn. intros k' r Hr Hn. rewrite Htb in Hr. apply lookup_insert_Some in Hr as [[_ <-]|[_ Hr]]; [by exists x, t|congruence].
      * cbn. intros k1 k2 r1 r2. rewrite Htb. intros H1 Hn H2 Hc Hct.
        apply lookup_insert_Some in H1 as [[<- <-]|[_ H1]]; [|congruence].
        apply lookup_insert_Some in H2 as [[<- <-]|[_ H2]]; [done|]. specialize (Hu _ _ H2).
        unfold recipient_unique in Hu. apply orb_false_iff in Hu as [_ Hu%bool_decide_eq_false].
        destruct Hu. by rewrite Hc, Hct.
    + exists k, row. cbn. by rewrite Htb, lookup_insert_eq.
  - split; [split; try done; intros; cbn in *; congruence|].
    destruct (decide (recipient_of id x w)) as [Hr|Hr]; [exact Hr|]. exfalso.
    destruct (create_total _ recipient_unique row (recipients w)) as [y Ey]; [|congruence].
    intros k' r' Hr'. apply not_true_iff_false. intros Hc. apply pending_conflict in Hc. apply Hr. by exists k', r'.
Qed.
Lemma insert_recipients_grow id t l ids w :
  l ⊆ ids -> let w' := w <| recipients ::= (fun tb => foldl (insert_recipient id t) tb l) |> in
  grows id ids w w' /\ forall x, x ∈ l -> recipient_of id x w'.
Proof.
  revert w. induction l as [|x l IH]; intros w Hl; [split; [by destruct w|by intros x ?%elem_of_nil]|].
  destruct (insert_recipient_grows id t x ids w) as [G1 R1]; [apply Hl; left|].
  destruct (IH (w <| recipients := insert_recipient id t (recipients w) x |>)) as [G2 R2]; [intros y Hy; apply Hl; by right|].
  split; [by etrans|]. intros y [->|Hy]%elem_of_cons; [by eapply recipient_of_grows|by apply R2].
Qed.

Lemma batches_concat n l : (length l <= n)%nat -> concat (batches n l) = l.
Proof.
  revert l. induction n as [|n IH]; intros [|x l] Hl; try done; [cbn in Hl; lia|].
  change (take 1000 (x :: l) ++ concat (batches n (drop 1000 (x :: l))) = x :: l).
  rewrite IH; [apply take_drop|]. rewrite length_drop. cbn in *. lia.
Qed.
Lemma snapshot_inserted id t ids w :
  wp (for_each (batches (length ids) ids) (recipients_createMany id t))
     (fun r w' => r <> OutOfFuel /\ grows id ids w w' /\ (r = Ok tt -> forall x, x ∈ ids -> recipient_of id x w')) w.
Proof.
  pose proof (batches_concat (length ids) ids (le_n _)) as Hb.
  eapply wp_mono; [apply (wp_for_each_all (fun _ => True) (grows id ids) (fun b w' => forall x, x ∈ b -> recipient_of id x w'))|].
  - intros b w1 w2 Hd G x Hx. eapply recipient_of_grows; [exact G|by apply Hd].
  - done.
  - intros b w1 Hbin _.
    assert (Hsub : b ⊆ ids).
    { intros x Hx. rewrite <- Hb. apply list_elem_of_In, in_concat. exists b. by rewrite <- !list_elem_of_In. }
    assert (Ht : grows id ids w1 (bump w1)) by (split; try done; intros; cbn in *; congruence).
    apply wp_db; [intros e; by split; [|split]|]. intros [] w2 [= <-].
    destruct (insert_recipients_grow id t b ids (bump w1) Hsub) as [G R].
    split; [intros e|]; (split; [done|]; split; [done|]; split; [by etrans|]); [done|by intros _].
  - intros r w' (Hn & _ & G & Hall). split; [done|]. split; [exact G|]. intros Hr x Hx. rewrite <- Hb in Hx.
    apply list_elem_of_In, in_concat in Hx as (b & Hb1 & Hb2). apply (Hall Hr b); by apply list_elem_of_In.
Qed.

(** What a launch does: the recipients are the contacts of the audience, and the campaign starts. *)
Definition launched (T id : string) (w : World) (c : Campaign.t) (w' : World) : Prop := exists c0 audience ids t w1,
  rows (campaigns w) !! id = Some c0 /\ Campaign.tenantId c0 = T /\ Campaign.status c0 = DRAFT /\
  readAudience (Campaign.audience c0) = Ok audience /\
  (forall k, k ∈ ids <-> exists x, rows (contacts w) !! k = Some x /\ in_audience T audience k x = true) /\
  NoDup ids /\ Z.of_nat (length ids) <= maxRecipients setting /\
  c = launched_data (length ids) t c0 /\ rows (campaigns w') = <[id := c]> (rows (campaigns w)) /\
  grows id ids w w1 /\ (forall x, x ∈ ids -> recipient_of id x w1) /\
  recipients w' = recipients w1 /\ messages w' = messages w1 /\ outboxEvents w' = outboxEvents w1.
Definition launched_before (T id : string) (w : World) (c : Campaign.t) : Prop :=
  rows (campaigns w) !! id = Some c /\ Campaign.tenantId c = T /\ is_Some (Campaign.snapshotAt c) /\
  Campaign.status c ∈ [SCHEDULED; RUNNING; COMPLETED].

(** The audience: as many contacts as there are, because one more than allowed is asked for. *)
Lemma audience_ids T audience (w : World) n :
  let found := take (S n) (merge_sort id_first (findMany (in_audience T audience) (contacts w))) in
  (length found <= n)%nat ->
  NoDup found.*1 /\
  (forall k, k ∈ found.*1 <-> exists x, rows (contacts w) !! k = Some x /\ in_audience T audience k x = true).
Proof.
  intros found Hn. set (l := findMany (in_audience T audience) (contacts w)) in *.
  assert (Hp : found ≡ₚ l).
  { unfold found in *. rewrite length_take in Hn. rewrite take_ge by lia. apply merge_sort_Permutation. }
  split.
  - rewrite Hp. eapply sublist_NoDup; [apply (NoDup_fst_map_to_list (rows (contacts w)))|].
    apply fmap_sublist, sublist_filter.
  - intros k. rewrite Hp, list_elem_of_fmap. split.
    + intros ([k' x] & -> & Hin). apply findMany_elem in Hin as [Hi Hk]. by exists x.
    + intros (x & Hk & Hi). exists (k, x). split; [done|]. by apply findMany_elem.
Qed.

Lemma readAudience_total v : readAudience v <> OutOfFuel.
Proof. unfold readAudience. returns_lift_tac. Qed.
Lemma assertMarketingTemplate_total t waba : assertMarketingTemplate t waba <> OutOfFuel.
Proof. unfold assertMarketingTemplate. returns_lift_tac. Qed.

Lemma launch_body_spec T id w :
  wp (launch_body setting T id) (on_ok (fun c w' =>
    (launched_before T id w c /\ campaign_tables w' = campaign_tables w) \/ launched T id w c w')) w.
Proof.
  unfold launch_body, findById, campaign_find. apply wp_bind, wp_bind, wp_db; [done|].
  intros o w1 [= <- <-]. split; [done|]. change (campaigns (bump w)) with (campaigns w).
  destruct (findFirst _ _) as [[k c0]|] eqn:Ef; [|done]. apply findFirst_some in Ef as [Hc0 [E1 E2]%andb_true_iff].
  apply bool_decide_eq_true in E1 as ->. apply bool_decide_eq_true in E2. apply wp_ret.
  destruct (bool_decide (is_Some (Campaign.snapshotAt c0)) && _) eqn:Eb.
  { apply wp_ret. left. apply andb_true_iff in Eb as [Es%bool_decide_eq_true El%bool_decide_eq_true]. done. }
  clear Eb. case_bool_decide as Ed; cbn [negb]; [|done].
  apply wp_bind, wp_db; [done|]. intros [s t] w2 (_ & _ & (_ & _ & [= _ _ <-])%bind_Some)%bind_Some.
  split; [done|]. apply wp_bind. destruct (truthy (Sender.wabaId s)) as [waba|]; [|done].
  destruct (Sender.active s); [|done]. apply wp_ret, wp_bind, wp_lift.
  destruct (assertMarketingTemplate t waba) as [[]|e|] eqn:Em; [|done|by apply assertMarketingTemplate_total in Em].
  apply wp_bind, wp_lift. destruct (readAudience (Campaign.audience c0)) as [audience|e|] eqn:Ea; [|done|by apply readAudience_total in Ea].
  apply wp_bind, wp_db; [done|]. intros found w3 [= <- <-]. split; [done|].
  pose proof (audience_ids T audience w (Z.to_nat (maxRecipients setting))) as Hids. revert Hids.
  change (contacts (bump (bump (bump w)))) with (contacts w). set (found := take _ _). intros Hids.
  destruct (Z.ltb_spec (maxRecipients setting) (Z.of_nat (length found.*1))) as [|Hmax]; [done|].
  rewrite length_fmap in Hmax. destruct Hids as [Hnd Hin]; [lia|].
  apply wp_bind, wp_now. intros createdAt. apply wp_bind. eapply wp_mono; [apply snapshot_inserted|].
  intros [[]|e|] w4 (Hn & G & Hall); [|done|done]. specialize (Hall eq_refl).
  apply wp_bind, wp_now. intros n. apply wp_db; [done|]. intros c w5 (tb & Htb & (c' & Hc' & [= <- <-])%bind_Some)%bind_Some.
  split; [done|]. apply update_some in Htb as (c1 & Hc1 & Htb & _).
  destruct (grow_same _ _ _ _ G) as (G1 & _ & _ & _). change (campaigns (bump (bump w4))) with (campaigns w4) in *.
  change (campaigns (bump (bump (bump (bump w))))) with (campaigns w) in G1. rewrite G1 in Hc1, Htb.
  rewrite Hc0 in Hc1. injection Hc1 as <-. rewrite Htb, lookup_insert_eq in Hc'. injection Hc' as <-.
  right. exists c0, audience, found.*1, n, w4. split; [done|]. split; [done|]. split; [done|]. split; [done|]. split; [exact Hin|].
  split; [done|]. split; [by rewrite length_fmap|]. split; [done|]. split; [exact Htb|].
  split; [|done]. destruct G as [A1 A2 A3 A4]. split; [exact A1|exact A2|exact A3|exact A4].
Qed.

Lemma launched_started n s t : launched_status n s t <> DRAFT.
Proof. unfold launched_status. destruct (Nat.eqb n 0); [done|]. destruct s as [x|]; [destruct (t <? x)|]; done. Qed.
Lemma launched_data_status n t c : Campaign.status (launched_data n t c) = launched_status n (Campaign.scheduledAt c) t.
Proof. unfold launched_data. cbn zeta. repeat case_bool_decide; done. Qed.
Lemma launched_lifecycle n t c : Campaign.status c = DRAFT -> lifecycle c (launched_data n t c).
Proof.
  intros Hd. split; [| |done].
  - rewrite launched_data_status, Hd. apply rtc_once. unfold launched_status.
    destruct (Nat.eqb n 0); [done|]. destruct (Campaign.scheduledAt c) as [x|]; [destruct (t <? x)|]; done.
  - unfold launched_data. cbn zeta. repeat case_bool_decide; done.
Qed.

Lemma launched_progress T id w c w' : launched T id w c w' -> progress w w'.
Proof.
  intros (c0 & audience & ids & t & w1 & Hc0 & HT & Hd & Ha & Hin & Hnd & Hmax & -> & Hc & [(G1 & _ & G3 & G4) G5 G6 G7] & Hall & Er & Em & Eo).
  assert (L : campaigns_live w w').
  { intros k x Hk. rewrite Hc. destruct (decide (k = id)) as [->|Hne]; [|rewrite lookup_insert_ne by done; by exists x].
    rewrite lookup_insert_eq. eexists. split; [done|]. rewrite Hc0 in Hk. injection Hk as <-. by apply launched_lifecycle. }
  assert (Hnew : forall k r, rows (recipients w') !! k = Some r -> rows (recipients w) !! k = None ->
    CampaignRecipient.campaignId r = id /\ CampaignRecipient.status r = CampaignRecipientStatus.PENDING).
  { intros k r Hr Hk. rewrite Er in Hr. by destruct (G6 k r Hr Hk) as (x & tx & _ & ->). }
  assert (Hold : forall k r r', rows (recipients w') !! k = Some r' -> rows (recipients w) !! k = Some r -> r' = r).
  { intros k r r' Hr' Hr. rewrite Er in Hr'. pose proof (lookup_weaken _ _ _ _ Hr G5). congruence. }
  split; rewrite ?Em, ?Eo, ?G3, ?G4; try done.
  - intros k r Hr. exists r. rewrite Er. split; [by eapply lookup_weaken|done].
  - intros k r x Hr Hk Hx. destruct (Hnew k r Hr Hk) as [E _]. rewrite E in Hx. congruence.
  - intros i m Hm Hn. congruence.
  - intros Q T' key k1 m1 k2 m2 H1 H2. rewrite Em, G3 in H1, H2. by eapply Q.
  - intros Q k r Hr. destruct (rows (recipients w) !! k) as [r0|] eqn:Ek.
    + rewrite (Hold _ _ _ Hr Ek). destruct (Q k r0 Ek) as (x & Hx & Hs). destruct (L _ _ Hx) as (x' & Hx' & Lx).
      exists x'. split; [done|]. by eapply allowed_left, Hs; apply life_status.
    + destruct (Hnew k r Hr Ek) as [-> _]. eexists. rewrite Hc, lookup_insert_eq. split; [done|].
      rewrite launched_data_status. apply launched_started.
  - intros Q k r Hr Hs. destruct (rows (recipients w) !! k) as [r0|] eqn:Ek; [|by destruct (Hnew k r Hr Ek); congruence].
    rewrite (Hold _ _ _ Hr Ek) in *. destruct (Q k r0 Ek Hs) as (mid & Hm & m & x & H1 & H2 & H3 & H4). exists mid. split; [done|].
    destruct (L _ _ H2) as (x' & Hx' & Lx). exists m, x'. rewrite Em, G3. by destruct (life_owner _ _ Lx) as [-> _].
Qed.
Lemma launch_live T id : preserves progress (launch setting T id).
Proof.
  apply preserves_transaction_ok; [apply _|apply progress_tick|]. intros w. eapply wp_mono; [apply launch_body_spec|].
  intros [c|e|] w' Hw; [|done|done]. cbn in *. destruct Hw as [[_ E]|Hw]; [by apply progress_same|by eapply launched_progress].
Qed.

(** The state after a launch from [w]: the recipients are the audience, one row for each contact. *)
Definition snapshot (T id : string) (w : World) (r : exec js_error Campaign.t) (w' : World) : Prop := exists c0 audience ids t,
  rows (campaigns w) !! id = Some c0 /\ Campaign.tenantId c0 = T /\ Campaign.status c0 = DRAFT /\
  readAudience (Campaign.audience c0) = Ok audience /\
  NoDup ids /\ (forall k, k ∈ ids <-> exists x, rows (contacts w) !! k = Some x /\ in_audience T audience k x = true) /\
  (forall k x, k ∈ ids -> rows (contacts w) !! k = Some x ->
     Contact.tenantId x = T /\ Contact.consentStatus x = ConsentStatus.OPTED_IN) /\
  Z.of_nat (length ids) <= maxRecipients setting /\
  (forall c, r = Ok c -> c = launched_data (length ids) t c0) /\
  rows (campaigns w') = <[id := launched_data (length ids) t c0]> (rows (campaigns w)) /\
  rows (recipients w) ⊆ rows (recipients w') /\
  (forall x, recipient_of id x w' <-> x ∈ ids) /\
  (forall k r, rows (recipients w') !! k = Some r -> CampaignRecipient.campaignId r = id ->
     exists t, r = pending_recipient id (CampaignRecipient.contactId r) t) /\
  forall k1 k2 r1 r2, rows (recipients w') !! k1 = Some r1 -> rows (recipients w') !! k2 = Some r2 ->
    CampaignRecipient.campaignId r1 = id -> CampaignRecipient.campaignId r2 = id ->
    CampaignRecipient.contactId r1 = CampaignRecipient.contactId r2 -> k1 = k2.

Lemma launched_snapshot T id w c w1 w' r :
  recipients_launched w -> launched T id w c w1 -> campaigns w' = campaigns w1 -> recipients w' = recipients w1 ->
  (forall x, r = Ok x -> x = c) -> snapshot T id w r w'.
Proof.
  intros Hl (c0 & audience & ids & t & w2 & Hc0 & HT & Hd & Ha & Hin & Hnd & Hmax & -> & Hc & [_ G2 G3 G4] & Hall & Er & _) E1 E2 Hr.
  exists c0, audience, ids, t. rewrite E1, E2, Er. unfold recipient_of in *. rewrite E2, Er.
  assert (Hnone : forall k x, rows (recipients w2) !! k = Some x -> CampaignRecipient.campaignId x = id ->
    rows (recipients w) !! k = None).
  { intros k x Hk Hx. destruct (rows (recipients w) !! k) as [x0|] eqn:Ek; [|done].
    pose proof (lookup_weaken _ _ _ _ Ek G2) as E. rewrite Hk in E. injection E as <-.
    destruct (Hl k x Ek) as (y & Hy & Hs). rewrite Hx in Hy. congruence. }
  do 6 (split; [done|]). split.
  { intros k x Hk Hx. apply Hin in Hk as (x' & Hx' & Hi). rewrite Hx in Hx'. injection Hx' as <-. unfold in_audience in Hi.
    rewrite !andb_true_iff, !bool_decide_eq_true in Hi. tauto. }
  do 4 (split; [done|]). split; [|split].
  - intros x. split; [|by apply Hall]. intros (k & y & Hk & Hi & <-).
    destruct (G3 k y Hk (Hnone k y Hk Hi)) as (x' & tx & Hx' & ->). done.
  - intros k y Hk Hi. destruct (G3 k y Hk (Hnone k y Hk Hi)) as (x & tx & _ & ->). by exists tx.
  - intros k1 k2 r1 r2 H1 H2 I1 I2 Hct. eapply G4; [exact H1|by eapply Hnone|exact H2|congruence|done].
Qed.

(** C5: A launch either changes nothing - and then it fails, or the campaign had been launched before
    and is given back - or takes the draft's snapshot, exactly: one pending recipient for each
    contact of the tenant that has opted in and is in the campaign's audience, and no others, no
    more than the configured maximum; the campaign is completed when there are none, scheduled when
    its time is still to come and running otherwise.  Nothing in between, whatever fails. *)
Theorem launch_snapshot T id w (Hl : recipients_launched w) :
  let '(r, w') := launch setting T id w in
  r <> OutOfFuel /\
  ((campaigns w' = campaigns w /\ recipients w' = recipients w /\ forall c, r = Ok c -> launched_before T id w c) \/
   snapshot T id w r w').
Proof.
  unfold launch, transaction. pose proof (launch_body_spec T id w) as Hw. unfold wp in Hw.
  destruct (launch_body setting T id w) as [[c|e|] w1]; cbn in Hw; [|split; [done|by left]|done].
  destruct Hw as [[Hb E]|Hw].
  - injection E as E1 E2 _ _. by destruct (db_fault (tick w1)); cbn; (split; [done|left]); (split; [done|]); (split; [done|]);
      intros x [= <-].
  - destruct (db_fault (tick w1)); cbn; (split; [done|]); [right|by left|right].
    + eapply launched_snapshot; [done|exact Hw|done|done|by intros x [= <-]].
    + by eapply launched_snapshot.
Qed.
End lifecycle_proofs.

(** ** A draft for everybody who has opted in *)
Definition promo : Template.t :=
  {| Template.tenantId := "t"; Template.wabaId := "w"; Template.providerTemplateId := "1"; Template.name := "promo";
     Template.language := "es"; Template.category := Some "MARKETING"%string; Template.status := "APPROVED";
     Template.components := None; Template.qualityScore := None; Template.rejectionReason := None;
     Template.providerPayload := None; Template.lastSyncedAt := None |}.
Definition draft : Campaign.t :=
  {| Campaign.tenantId := "t"; Campaign.senderId := "a"; Campaign.templateId := "p"; Campaign.name := "Promo";
     Campaign.status := DRAFT; Campaign.audience := JObj [("allOptedIn"%string, JBool true)];
     Campaign.components := None; Campaign.personalizationEnabled := false; Campaign.scheduledAt := None;
     Campaign.snapshotAt := None; Campaign.startedAt := None; Campaign.completedAt := None; Campaign.cancelledAt := None;
     Campaign.failureReason := None; Campaign.totalRecipients := 0; Campaign.queuedRecipients := 0;
     Campaign.skippedRecipients := 0; Campaign.failedRecipients := 0; Campaign.cancelledRecipients := 0; Campaign.createdAt := 0 |}.
Definition campaign_example : World (H := gmap_prisma) :=
  senders_example <| templates := ({[ "p"%string := promo ]} : gmap string Template.t) |>
                  <| contacts := ({[ "c"%string := Contacts.example_contact ]} : gmap string Contact.t) |>
                  <| campaigns := ({[ "k"%string := draft ]} : gmap string Campaign.t) |>.
Definition no_settings (name : string) : number := Whole 0.

Example launch_runs :
  let '(r, w') := @launch gmap_prisma (calm 5) no_settings "t" "k" campaign_example in
  (exists c, r = Ok c /\ Campaign.status c = RUNNING /\ Campaign.totalRecipients c = 1) /\
  (fun x => (CampaignRecipient.campaignId x, CampaignRecipient.contactId x)) <$> (map_to_list (rows (recipients w'))).*2 =
    [("k", "c")]%string.
Proof. vm_compute. split; [eexists|]; auto. Qed.

Lemma campaign_example_launched : recipients_launched campaign_example.
Proof. intros k r. change (rows (recipients campaign_example)) with (∅ : gmap string CampaignRecipient.t). by rewrite lookup_empty. Qed.
Lemma launch_snapshot_witness :
  let '(r, w') := @launch gmap_prisma (calm 5) no_settings "t" "k" campaign_example in
  r <> OutOfFuel /\
  ((campaigns w' = campaigns campaign_example /\ recipients w' = recipients campaign_example /\
    forall c, r = Ok c -> launched_before "t" "k" campaign_example c) \/
   @snapshot gmap_prisma no_settings "t" "k" campaign_example r w').
Proof. apply (@launch_snapshot gmap_prisma (calm 5)), campaign_example_launched. Defined.
