(* ===== verification/CampaignDrafts.v ===== *)
(** Creating a campaign ([create] of [campaigns/campaigns.service.ts]): the audience that is asked for,
    by criteria, by contacts or by a saved segment, is normalised and stored with the draft. *)
From stdpp Require Import prelude gmap strings sorting.
From Stdlib Require Import Ascii ZArith Lia.
From S2P Require Import Prelude Json Numbers Io Prisma Domain Frame Queue Contacts AuditTrail Segments Senders Payload Templates Messages Personalization Campaigns.
#[local] Open Scope Z_scope.
Import CampaignStatus.

Module CampaignAudienceDto.
Record t := make {
  allOptedIn : option bool;
  contactIds : option (list string);
  segmentId : option string;
  language : option string;
  tagsAny : option (list string);
  tagsAll : option (list string)
}.
End CampaignAudienceDto.
Module CreateCampaignDto.
Record t := make {
  name : string;
  senderId : option string;
  templateId : string;
  audience : CampaignAudienceDto.t;
  personalizationEnabled : option bool;
  components : option (list json);
  scheduledAt : option string
}.
End CreateCampaignDto.

(** [toJson(audience)] *)
Definition audience_fields (a : Audience.t) : list (string * json) :=
  [("allOptedIn"%string, JBool (Audience.allOptedIn a))] ++
  opt_field "contactIds" (tags_json <$> Audience.contactIds a) ++
  opt_field "segmentId" (JStr <$> Audience.segmentId a) ++
  opt_field "segmentName" (JStr <$> Audience.segmentName a) ++
  opt_field "segmentUpdatedAt" (JStr <$> Audience.segmentUpdatedAt a) ++
  opt_field "language" (JStr <$> Audience.language a) ++
  opt_field "tagsAny" (tags_json <$> Audience.tagsAny a) ++
  opt_field "tagsAll" (tags_json <$> Audience.tagsAll a) ++ [].
Definition audience_json (a : Audience.t) : json := JObj (audience_fields a).

Definition assertComponentsValid (components : json) : exec js_error unit :=
  match validateCampaignComponents components with
  | Throws (PersonalizationTemplateError m) => Throws (BadRequestException m)
  | r => r
  end.

Section drafts.
Context `{Prisma} `{Environment}.
(** [new Date(text).getTime()], [None] for NaN: the formats beyond ISO 8601 are the engine's. *)
Context (Date_parse : string -> option Z).

Definition segment_audience (id : string) (segment : ContactSegment.t) (d : definition_t) : Audience.t :=
  {| Audience.allOptedIn := false; Audience.contactIds := None; Audience.segmentId := Some id;
     Audience.segmentName := Some (ContactSegment.name segment);
     Audience.segmentUpdatedAt := Some (JsDate.toISOString (ContactSegment.updatedAt segment));
     Audience.language := SegmentDefinition.language d; Audience.tagsAny := SegmentDefinition.tagsAny d;
     Audience.tagsAll := SegmentDefinition.tagsAll d |}.
Definition normalizeAudience (tenantId : string) (audience : CampaignAudienceDto.t) : io World Audience.t :=
  let allOptedIn := bool_decide (CampaignAudienceDto.allOptedIn audience = Some true) in
  let contactIds := filter (fun id => id <> ""%string) (default [] (CampaignAudienceDto.contactIds audience)) in
  let segmentId := truthy (CampaignAudienceDto.segmentId audience) in
  let modeCount := (Nat.b2n allOptedIn + Nat.b2n (negb (bool_decide (contactIds = []))) +
                    Nat.b2n (bool_decide (is_Some segmentId)))%nat in
  if negb (Nat.eqb modeCount 1) then
    throw (BadRequestException
      "Campaign audience must specify exactly one of allOptedIn=true, a non-empty contactIds list, or segmentId")
  else
    let language := truthy (JsString.trim <$> CampaignAudienceDto.language audience) in
    let tagsAny := Contacts.normalizeTags (default [] (CampaignAudienceDto.tagsAny audience)) in
    let tagsAll := Contacts.normalizeTags (default [] (CampaignAudienceDto.tagsAll audience)) in
    match segmentId with
    | Some id =>
        if bool_decide (is_Some language) || negb (bool_decide (tagsAny = [])) || negb (bool_decide (tagsAll = [])) then
          throw (BadRequestException "Campaign audience cannot combine segmentId with language, tagsAny, or tagsAll")
        else
          '(k, segment, definition) ← resolveActiveForCampaign tenantId id;
          mret (segment_audience k segment definition)
    | None => mret {| Audience.allOptedIn := allOptedIn; Audience.contactIds := non_empty contactIds; Audience.segmentId := None;
                      Audience.segmentName := None; Audience.segmentUpdatedAt := None; Audience.language := language;
                      Audience.tagsAny := non_empty tagsAny; Audience.tagsAll := non_empty tagsAll |}
    end.

Definition draft_row (tenantId senderId templateId name : string) (audience : Audience.t) (components : option (list json))
    (personalizationEnabled : bool) (scheduledAt : option Z) (createdAt : Z) : Campaign.t :=
  {| Campaign.tenantId := tenantId; Campaign.senderId := senderId; Campaign.templateId := templateId; Campaign.name := name;
     Campaign.status := DRAFT; Campaign.audience := audience_json audience; Campaign.components := JArr <$> components;
     Campaign.personalizationEnabled := personalizationEnabled; Campaign.scheduledAt := scheduledAt;
     Campaign.snapshotAt := None; Campaign.startedAt := None; Campaign.completedAt := None; Campaign.cancelledAt := None;
     Campaign.failureReason := None; Campaign.totalRecipients := 0; Campaign.queuedRecipients := 0;
     Campaign.skippedRecipients := 0; Campaign.failedRecipients := 0; Campaign.cancelledRecipients := 0;
     Campaign.createdAt := createdAt |}.
(** The database fills in [createdAt]. *)
Definition campaign_create (row : Z -> Campaign.t) : io World (string * Campaign.t) :=
  db (fun w => let c := row (clock (tick w)) in
               '(id, t) ← Prisma.create unconstrained c (campaigns w); Some ((id, c), w <| campaigns := t |>)).

Definition create (tenantId : string) (dto : CreateCampaignDto.t) : io World (string * Campaign.t) :=
  let personalizationEnabled := bool_decide (CreateCampaignDto.personalizationEnabled dto = Some true) in
  audience ← normalizeAudience tenantId (CreateCampaignDto.audience dto);
  match JsString.trim (CreateCampaignDto.name dto) with
  | EmptyString => throw (BadRequestException "Campaign name must contain non-whitespace characters")
  | name =>
      _ ← lift (match CreateCampaignDto.components dto with
                | Some components => if personalizationEnabled then assertComponentsValid (JArr components) else Ok tt
                | None => Ok tt
                end);
      sender ← Senders.resolveForTenant tenantId (CreateCampaignDto.senderId dto);
      match truthy (Sender.wabaId sender.2) with
      | None => throw (UnprocessableEntityException "The selected WhatsApp sender is missing its WABA ID")
      | Some waba =>
          template ← Templates.findById tenantId (CreateCampaignDto.templateId dto);
          _ ← lift (assertMarketingTemplate template.2 waba);
          scheduledAt ← lift (match truthy (CreateCampaignDto.scheduledAt dto) with
                              | None => Ok None
                              | Some text => match Date_parse text with
                                             | Some t => Ok (Some t)
                                             | None => Throws (BadRequestException "scheduledAt must be a valid ISO date-time")
                                             end
                              end);
          campaign_create (draft_row tenantId sender.1 template.1 name audience (CreateCampaignDto.components dto)
                             personalizationEnabled scheduledAt)
      end
  end.
End drafts.

(** ** What is stored reads back *)
Lemma field_opt_ne key k v l : k <> key -> field key (opt_field k v ++ l) = field key l.
Proof. intros Hk. destruct v; [|done]. cbn. by rewrite decide_False. Qed.
Lemma field_opt_eq key v l : field key l = None -> field key (opt_field key v ++ l) = v.
Proof. intros Hl. destruct v; [|done]. cbn. by rewrite decide_True. Qed.
Ltac opt_fields := repeat (rewrite field_opt_ne by discriminate);
  first [reflexivity|rewrite field_opt_eq; [reflexivity|]; opt_fields].

Definition fixed_tags (o : option (list string)) : Prop := forall l, o = Some l -> l <> [] /\ Contacts.normalizeTags l = l.
Lemma remove_dups_distinct (l : list string) : NoDup l -> remove_dups l = l.
Proof.
  induction 1 as [|x l Hx _ IH]; cbn; [done|]. destruct (decide_rel _ x l); [done|]. by rewrite IH.
Qed.
Lemma contact_tags_fixed l :
  Sorted JsString.le l -> NoDup l -> Forall (fun t => normalize_tag t = t) l -> Contacts.normalizeTags l = l.
Proof.
  intros Hs Hd He. unfold Contacts.normalizeTags. change (fun tag => JsString.toLowerCase (JsString.trim tag)) with normalize_tag.
  assert (normalize_tag <$> l = l) as ->.
  { clear Hs Hd. induction He as [|t l Ht _ IH]; [done|]. cbn. by rewrite Ht, IH. }
  by rewrite remove_dups_distinct, merge_sort_sorted.
Qed.
Lemma contact_tags_again l : Contacts.normalizeTags (Contacts.normalizeTags l) = Contacts.normalizeTags l.
Proof.
  set (n := Contacts.normalizeTags l). assert (Hp : n ≡ₚ remove_dups (normalize_tag <$> l)) by apply merge_sort_Permutation.
  apply contact_tags_fixed.
  - apply Sorted_merge_sort, _.
  - rewrite Hp. apply NoDup_remove_dups.
  - rewrite Hp, Forall_forall. intros t Ht. apply elem_of_remove_dups, list_elem_of_fmap in Ht as (x & -> & _). apply normalize_tag_again.
Qed.
Lemma non_empty_tags l : fixed_tags (non_empty (Contacts.normalizeTags l)).
Proof.
  intros l'. destruct (Contacts.normalizeTags l) as [|t n] eqn:E; [done|]. intros [= <-]. split; [done|]. rewrite <- E. apply contact_tags_again.
Qed.
Lemma segment_tags d : normalized d ->
  fixed_tags (SegmentDefinition.tagsAny d) /\ fixed_tags (SegmentDefinition.tagsAll d) /\
  SegmentDefinition.language d = truthy (SegmentDefinition.language d).
Proof.
  intros (a & b & Ha & Hb & Hl & -> & ->)%normalized_shape.
  assert (Hn : forall l, normal_tags l -> fixed_tags (some_tags l)).
  { intros l [N1 N2 _ N4] l' Hl'. destruct l as [|t l]; [done|]. injection Hl' as <-. split; [done|].
    apply contact_tags_fixed; [done|done|]. eapply Forall_impl; [exact N4|]. by intros x [_ ?]. }
  split; [by apply Hn|]. split; [by apply Hn|done].
Qed.

(** An audience as [normalizeAudience] leaves it. *)
Record normal_audience (a : Audience.t) : Prop := {
  normal_mode : (Nat.b2n (Audience.allOptedIn a) + Nat.b2n (bool_decide (is_Some (Audience.contactIds a))) +
                 Nat.b2n (bool_decide (is_Some (Audience.segmentId a))))%nat = 1%nat;
  normal_contacts : forall l, Audience.contactIds a = Some l -> l <> [];
  normal_segment : Audience.segmentId a = truthy (Audience.segmentId a);
  normal_language : Audience.language a = truthy (Audience.language a);
  normal_any : fixed_tags (Audience.tagsAny a);
  normal_all : fixed_tags (Audience.tagsAll a)
}.
Lemma read_tags o : fixed_tags o -> non_empty (readStringArray (tags_json <$> o)) = o.
Proof.
  intros Ho. destruct o as [l|]; [|done]. destruct (Ho l eq_refl) as [Hne Hf]. cbn [fmap option_fmap option_map tags_json readStringArray].
  rewrite strings_only_JStr, Hf. by destruct l.
Qed.
Lemma audience_fields_read a :
  field "allOptedIn" (audience_fields a) = Some (JBool (Audience.allOptedIn a)) /\
  field "contactIds" (audience_fields a) = tags_json <$> Audience.contactIds a /\
  field "segmentId" (audience_fields a) = JStr <$> Audience.segmentId a /\
  field "segmentName" (audience_fields a) = JStr <$> Audience.segmentName a /\
  field "segmentUpdatedAt" (audience_fields a) = JStr <$> Audience.segmentUpdatedAt a /\
  field "language" (audience_fields a) = JStr <$> Audience.language a /\
  field "tagsAny" (audience_fields a) = tags_json <$> Audience.tagsAny a /\
  field "tagsAll" (audience_fields a) = tags_json <$> Audience.tagsAll a.
Proof.
  unfold audience_fields. cbn [app]. split; [by rewrite field_eq|].
  rewrite !field_ne by discriminate. repeat split; opt_fields.
Qed.
Lemma as_string_JStr o : as_string (JStr <$> o) = o.
Proof. by destruct o. Qed.
Lemma audience_reads a : normal_audience a -> readAudience (audience_json a) = Ok a.
Proof.
  intros [Hm Hc Hs Hl Hany Hall]. unfold readAudience, audience_json.
  destruct (audience_fields_read a) as (-> & -> & -> & -> & -> & -> & -> & ->). rewrite !as_string_JStr, !read_tags by done.
  assert (match Audience.allOptedIn a with true => true | false => false end = Audience.allOptedIn a) as -> by by destruct (Audience.allOptedIn a).
  assert (match tags_json <$> Audience.contactIds a with Some (JArr l) => non_empty (strings_only l) | _ => None end = Audience.contactIds a) as ->.
  { destruct (Audience.contactIds a) as [l|]; [|done]. cbn [fmap option_fmap option_map tags_json]. rewrite strings_only_JStr.
    specialize (Hc l eq_refl). by destruct l. }
  rewrite <- Hs, <- Hl, Hm. cbn. by destruct a.
Qed.

(** ** Drafts can be launched *)
Section draft_proofs.
Context `{Prisma} `{Environment}.
Context (Date_parse : string -> option Z).

(** The stored audience reads back, and a segment's audience selects the segment's contacts. *)
Definition readable_audience (T : string) (v : json) (w : World) : Prop := exists a,
  readAudience v = Ok a /\
  forall id, Audience.segmentId a = Some id -> exists s d, rows (segments w) !! id = Some s /\
    ContactSegment.tenantId s = T /\ ContactSegment.active s = true /\ readDefinition (ContactSegment.definition s) = Ok d /\
    forall T' k c, in_audience T' a k c = segmentContactWhere T' d k c.

Lemma normalizeAudience_spec T dto w : segments_ok w ->
  wp (normalizeAudience T dto) (fun r w' => r <> OutOfFuel /\ (exists n, w' = w <| tick := n |>) /\
    forall a, r = Ok a -> readable_audience T (audience_json a) w) w.
Proof.
  intros Hok. assert (Hsame : exists n, w = w <| tick := n |>) by (exists (tick w); by destruct w).
  unfold normalizeAudience. set (contactIds := filter _ _). set (allOptedIn := bool_decide (CampaignAudienceDto.allOptedIn dto = _)).
  destruct (Nat.eqb_spec (Nat.b2n allOptedIn + Nat.b2n (negb (bool_decide (contactIds = []))) +
    Nat.b2n (bool_decide (is_Some (truthy (CampaignAudienceDto.segmentId dto)))))%nat 1%nat) as [Hm|]; cbn [negb]; [|by apply wp_throw].
  destruct (truthy (CampaignAudienceDto.segmentId dto)) as [id|] eqn:Eid.
  - destruct (_ || _); [by apply wp_throw|]. apply wp_bind. eapply wp_mono; [by apply resolveActive_spec|].
    intros r w1 (Hn & Ht & Hr). destruct r as [[[k s] d]|e|]; [|by split|done].
    destruct (Hr k s d eq_refl) as (-> & Hk & HT & Ha & E & Hd). apply wp_ret. split; [done|]. split; [done|]. intros a [= <-].
    destruct (segment_tags d Hd) as (Fany & Fall & Fl).
    exists (segment_audience id s d). split.
    + apply audience_reads. split; try done. cbn. by destruct (CampaignAudienceDto.segmentId dto) as [[|]|]; cbn in Eid; simplify_eq.
    + cbn. intros id' [= <-]. exists s, d. split; [done|]. split; [done|]. split; [done|].
      split; [unfold readDefinition; by rewrite E, normalized_reads|]. intros T' k c. unfold in_audience, tagFilter, segmentContactWhere, segment_audience. cbn.
      by rewrite !andb_true_r, !andb_assoc.
  - apply wp_ret. split; [done|]. split; [done|]. intros a [= <-]. eexists. split; [apply audience_reads|done].
    split; cbn; try done; try apply non_empty_tags.
    + rewrite <- Hm. by destruct contactIds.
    + intros l. by destruct contactIds; [|intros [= <-]].
    + by destruct (JsString.trim <$> CampaignAudienceDto.language dto) as [[|]|].
Qed.

(** What every stored draft is. *)
Definition launchable (T : string) (w : World) (c : Campaign.t) : Prop :=
  Campaign.tenantId c = T /\ Campaign.status c = DRAFT /\ Campaign.snapshotAt c = None /\
  (exists s waba t, rows (senders w) !! Campaign.senderId c = Some s /\ Sender.tenantId s = T /\ Sender.active s = true /\
     Sender.wabaId s = Some waba /\ rows (templates w) !! Campaign.templateId c = Some t /\ Template.tenantId t = T /\
     assertMarketingTemplate t waba = Ok tt) /\
  readable_audience T (Campaign.audience c) w /\
  (Campaign.personalizationEnabled c = true -> forall v, Campaign.components c = Some v -> validateCampaignComponents v = Ok tt).

Definition draft_outcome (T : string) (w : World) (r : exec js_error (string * Campaign.t)) (w' : World) : Prop :=
  (rows (campaigns w') = rows (campaigns w) /\ forall x, r <> Ok x) \/
  exists id c, rows (campaigns w) !! id = None /\ rows (campaigns w') = <[id := c]> (rows (campaigns w)) /\
    launchable T w c /\ forall x, r = Ok x -> x = (id, c).


Lemma draft_refused T w e w' : campaigns w' = campaigns w -> draft_outcome T w (Throws e) w'.
Proof. intros E. left. by rewrite E. Qed.
Lemma create_draft_spec T dto w : segments_ok w ->
  wp (create Date_parse T dto) (fun r w' => r <> OutOfFuel /\ draft_outcome T w r w' /\
    (recipients w', messages w', outboxEvents w') = (recipients w, messages w, outboxEvents w)) w.
Proof.
  intros Hok. set (same := fun w1 : World => campaigns w1 = campaigns w /\ senders w1 = senders w /\ templates w1 = templates w /\
    (recipients w1, messages w1, outboxEvents w1) = (recipients w, messages w, outboxEvents w)).
  assert (Hstop : forall e w1, same w1 -> (Throws e : exec js_error (string * Campaign.t)) <> OutOfFuel /\ draft_outcome T w (Throws e) w1 /\
    (recipients w1, messages w1, outboxEvents w1) = (recipients w, messages w, outboxEvents w)).
  { intros e w1 (E & _ & _ & E'). split; [done|]. split; [by apply draft_refused|done]. }
  unfold create. apply wp_bind. eapply wp_mono; [by apply normalizeAudience_spec|]. intros r w1 (Hn1 & [n ->] & Haud).
  destruct r as [a|e|]; [|by apply Hstop|done]. specialize (Haud a eq_refl).
  destruct (JsString.trim (CreateCampaignDto.name dto)) as [|ch name]; [by apply wp_throw, Hstop|].
  apply wp_bind, wp_lift. set (check := match CreateCampaignDto.components dto with Some _ => _ | None => _ end).
  assert (Hcheck : check <> OutOfFuel /\ (check = Ok tt -> bool_decide (CreateCampaignDto.personalizationEnabled dto = Some true) = true ->
    forall v, JArr <$> CreateCampaignDto.components dto = Some v -> validateCampaignComponents v = Ok tt)).
  { unfold check. destruct (CreateCampaignDto.components dto) as [l|]; [|by split]. destruct (bool_decide _); [|by split].
    unfold assertComponentsValid. pose proof (validate_total (JArr l)) as Hv. destruct (validateCampaignComponents (JArr l)) as [[]|e|] eqn:E; [|by destruct e|done].
    split; [done|]. by intros _ _ v [= <-]. }
  destruct check as [[]|e|]; [|by apply Hstop|by destruct Hcheck]. destruct Hcheck as [_ Hcheck]. specialize (Hcheck eq_refl).
  apply wp_bind. eapply wp_mono.
  { apply wp_and; [apply resolveForTenant_spec|apply (wp_frame (fun w => (campaigns w, recipients w)))].
    - by apply (resolveForTenant_reads (fun w => (campaigns w, recipients w))).
    - apply resolveForTenant_returns. }
  intros r w2 [(Hn2 & Ep & Hs) [_ Ef]]. assert (Hsame2 : same w2).
  { injection Ep as P1 P2 P3 P4 P5. injection Ef as F1 F2. unfold same. by rewrite P1, P2, P4, P5, F1, F2. }
  destruct r as [[k s]|e|]; [|by apply Hstop|done]. specialize (Hs k s eq_refl) as (Hk & HsT & Hact). cbn [fst snd].
  destruct (truthy (Sender.wabaId s)) as [waba|] eqn:Ew; [|by apply wp_throw, Hstop].
  apply wp_bind. unfold Templates.findById, template_find. apply wp_bind, wp_db; [intros e; by apply Hstop|].
  intros o w3 [= <- <-]. split; [intros e; by apply Hstop|]. change (templates (bump w2)) with (templates w2).
  destruct (findFirst _ _) as [[kt t]|] eqn:Ef3; [|by apply wp_throw, Hstop].
  apply findFirst_some in Ef3 as [Ht [_ HtT%bool_decide_eq_true]%andb_true_iff]. apply wp_ret, wp_bind, wp_lift. cbn [fst snd].
  destruct (assertMarketingTemplate t waba) as [[]|e|] eqn:Em; [|by apply Hstop|by apply assertMarketingTemplate_total in Em].
  apply wp_bind, wp_lift. destruct (match truthy (CreateCampaignDto.scheduledAt dto) with Some _ => _ | None => _ end) as [sched|e|] eqn:Esch.
  2: by apply Hstop.
  2: { destruct (truthy (CreateCampaignDto.scheduledAt dto)) as [x|]; [by destruct (Date_parse x)|done]. }
  apply wp_db; [intros e; by apply Hstop|]. intros [id c] w4 ([id' tb] & Hc & [= <- <- <-])%bind_Some.
  apply create_some in Hc as (Hid & Htb & _). destruct Hsame2 as (S1 & S2 & S3 & S4). change (campaigns (bump (bump w2))) with (campaigns w2) in *.
  rewrite S1 in Hid, Htb. set (row := draft_row _ _ _ _ _ _ _ _ _) in *.
  assert (HL : launchable T w row).
  { split; [done|]. split; [done|]. split; [done|]. split; [|split; [exact Haud|exact Hcheck]].
    exists s, waba, t. rewrite <- S3. split; [exact Hk|]. split; [done|]. split; [done|].
    split; [by destruct (Sender.wabaId s) as [[|]|]|]. done. }
  assert (Hout : forall r, (forall x, r = Ok x -> x = (id', row)) -> draft_outcome T w r (bump (bump w2) <| campaigns := tb |>)).
  { intros r Hr. right. by exists id', row. }
  split; [intros e; split; [done|]; split; [by apply Hout|done]|]. split; [done|]. split; [apply Hout; by intros x [= <-]|done].
Qed.


Lemma campaign_create_live c : preserves progress (campaign_create c).
Proof.
  apply preserves_db; [apply _|apply progress_tick|]. intros w x w' ([id tb] & Hc & [= _ <-])%bind_Some.
  apply create_some in Hc as (Hid & Htb & _). apply progress_of_campaigns. intros k y Hk. cbn. rewrite Htb.
  exists y. rewrite lookup_insert_ne by congruence. done.
Qed.
Lemma normalizeAudience_live T dto : preserves progress (normalizeAudience T dto).
Proof.
  apply (preserves_reads _ _ campaign_tables); [apply progress_same|].
  unfold normalizeAudience, resolveActiveForCampaign, segment_find. frame_steps.
Qed.
Lemma create_draft_live T dto : preserves progress (create Date_parse T dto).
Proof.
  unfold create. cbv zeta. preserve_step; [apply normalizeAudience_live|]. destruct (JsString.trim _); [preserve_step|].
  preserve_step; [preserve_step|]. preserve_step.
  { apply (preserves_reads _ _ campaign_tables); [apply progress_same|]. by apply resolveForTenant_reads. }
  destruct (truthy _); [|preserve_step]. preserve_step.
  { apply (preserves_reads _ _ campaign_tables); [apply progress_same|]. unfold Templates.findById, template_find, found. frame_steps. }
  preserve_step; [preserve_step|]. preserve_step; [preserve_step|]. apply campaign_create_live.
Qed.
End draft_proofs.

(** ** A draft for a saved segment *)
Definition vips : ContactSegment.t :=
  {| ContactSegment.tenantId := "t"; ContactSegment.name := "VIPs"; ContactSegment.description := None;
     ContactSegment.definition := definition_json (SegmentDefinition.make None (Some ["vip"%string]) None);
     ContactSegment.active := true; ContactSegment.updatedAt := 0 |}.
Definition segment_example : World (H := gmap_prisma) :=
  campaign_example <| segments := ({[ "s"%string := vips ]} : gmap string ContactSegment.t) |>.
Definition vip_campaign : CreateCampaignDto.t :=
  CreateCampaignDto.make " Renewal " None "p" (CampaignAudienceDto.make None None (Some "s") None None None)%string None None None.
Definition no_dates (text : string) : option Z := None.

Example vip_campaign_created :
  let '(r, w') := @create gmap_prisma (calm 5) no_dates "t" vip_campaign segment_example in
  match r with
  | Ok (_, c) => Campaign.name c = "Renewal"%string /\
      Audience.segmentUpdatedAt <$> option_map (fun r => match r with Ok a => a | _ => segment_audience "" vips (SegmentDefinition.make None None None) end)
        (Some (readAudience (Campaign.audience c))) = Some (Some "1970-01-01T00:00:00.000Z"%string)
  | _ => False
  end.
Proof. vm_compute. auto. Qed.

Lemma segment_example_ok : segments_ok segment_example.
Proof.
  intros k s. change (rows (segments segment_example)) with ({[ "s"%string := vips ]} : gmap string ContactSegment.t).
  intros [<- <-]%lookup_singleton_Some. exists (SegmentDefinition.make None (Some ["vip"%string]) None). split; [done|].
  vm_compute. reflexivity.
Qed.
