(* ===== verification/CampaignProcessor.v ===== *)
(** The campaign processor ([campaigns/campaign-processor.service.ts]): starting scheduled campaigns,
    claiming recipients under a lease and handing each one's message to the message API.

    The timer and the [processing] flag only start [processPending]; the model is entered while the
    flag is [false].  The claim's SQL runs [NOW()] at the database and skips rows others have locked. *)
From stdpp Require Import prelude gmap strings sorting.
From Stdlib Require Import ZArith Lia.
From S2P Require Import Prelude Json Io Prisma Domain Frame LeaseQueue Queue Outbox Contacts Senders Payload Templates Messages Personalization Campaigns CampaignDrafts.
#[local] Open Scope Z_scope.
Import CampaignRecipientStatus.

(** A recipient with its relations. *)
Module RecipientRow.
Record t := make {
  recipient : CampaignRecipient.t;
  contact : Contact.t;
  campaign : Campaign.t;
  sender : Sender.t;
  template : Template.t
}.
End RecipientRow.

Definition personalization_contact (c : Contact.t) : contact_t :=
  CampaignPersonalizationContact.make (Contact.name c) (Contact.phone c) (Contact.language c) (Contact.timezone c) (Contact.metadata c).
Definition renderComponents (components : list json) (contact : Contact.t) : exec js_error (list json) :=
  rendered ← renderCampaignComponents (JArr components) (personalization_contact contact);
  match rendered with
  | JArr l => Ok l
  | _ => Throws (PersonalizationTemplateError "Campaign components must render to an array")
  end.

Definition configurationError (sender : Sender.t) (template : Template.t) : option string :=
  match truthy (Sender.wabaId sender) with
  | Some waba =>
      if negb (Sender.active sender) then Some "Campaign sender is inactive or missing its WABA ID"%string
      else if negb (String.eqb (Template.wabaId template) waba) then
        Some "Campaign template no longer belongs to the sender WABA"%string
      else if negb (String.eqb (JsString.toUpperCase (Template.status template)) "APPROVED") then
        Some ("Campaign template is no longer APPROVED (" +:+ Template.status template +:+ ")")
      else if negb (bool_decide (JsString.toUpperCase <$> Template.category template = Some "MARKETING"%string)) then
        Some "Campaign template is no longer categorized as MARKETING"%string
      else None
  | None => Some "Campaign sender is inactive or missing its WABA ID"%string
  end.

Definition held (claim row : CampaignRecipient.t) : bool :=
  bool_decide (CampaignRecipient.status row = PROCESSING) &&
  bool_decide (CampaignRecipient.processingLeaseUntil row = CampaignRecipient.processingLeaseUntil claim).
Definition claim_data (leaseUntil : Z) (r : CampaignRecipient.t) : CampaignRecipient.t :=
  r <| CampaignRecipient.status := PROCESSING |> <| CampaignRecipient.attemptCount ::= (fun a => a + 1) |>
    <| CampaignRecipient.processingLeaseUntil := Some leaseUntil |>.
Definition oldest_recipient (a b : string * CampaignRecipient.t) : Prop :=
  CampaignRecipient.createdAt a.2 <= CampaignRecipient.createdAt b.2.
#[export] Instance oldest_recipient_dec : RelDecision oldest_recipient.
Proof. intros a b. unfold oldest_recipient. apply _. Defined.

(** [touchedCampaigns] *)
Definition touched_campaigns (l : list (string * CampaignRecipient.t)) : list string :=
  set_of ((fun kr => CampaignRecipient.campaignId kr.2) <$> l).

Section processor.
Context `{Prisma} `{Environment} `{UrlParser}.
Context (setting : string -> number).
(** The carrier of the current trace. *)
Context (trace : option json).
(** A claimed recipient: its id and the row as [RETURNING] gave it. *)
Abbreviation claim_t := (string * CampaignRecipient.t)%type.

Definition promoteScheduledCampaigns : io World unit :=
  now ← now;
  _ ← campaign_updateMany (fun _ c => bool_decide (Campaign.status c = CampaignStatus.SCHEDULED) &&
          match Campaign.scheduledAt c with Some s => s <=? now | None => false end)
        (fun c => c <| Campaign.status := CampaignStatus.RUNNING |> <| Campaign.startedAt := Some now |>);
  mret tt.

Definition claimable (db_now : Z) (w : World) (r : CampaignRecipient.t) : bool :=
  match rows (campaigns w) !! CampaignRecipient.campaignId r with
  | None => false
  | Some c =>
      (bool_decide (CampaignRecipient.status r = PENDING) && (CampaignRecipient.nextAttemptAt r <=? db_now) &&
       match CampaignRecipient.processingLeaseUntil r with None => true | Some l => l <=? db_now end &&
       bool_decide (Campaign.status c = CampaignStatus.RUNNING)) ||
      (bool_decide (CampaignRecipient.status r = PROCESSING) &&
       match CampaignRecipient.processingLeaseUntil r with None => false | Some l => l <=? db_now end)
  end.
Definition claimed_recipients (db_now : Z) (locked : string -> bool) (batchSize : nat) (w : World) : list claim_t :=
  take batchSize (merge_sort oldest_recipient
    (findMany (fun k r => claimable db_now w r && negb (locked k)) (recipients w))).
Definition claimRecipients (db_now : Z) (locked : string -> bool) (batchSize : nat) : io World (list claim_t) :=
  let leaseMs := Z.max 5000 (positiveInteger (setting "CAMPAIGN_PROCESSOR_LEASE_MS") 30000) in
  now ← now;
  let leaseUntil := now + leaseMs in
  db (fun w =>
    let candidates := claimed_recipients db_now locked batchSize w in
    let t := (updateMany (fun k _ => bool_decide (k ∈ candidates.*1)) (claim_data leaseUntil) (recipients w)).2 in
    Some ((fun kr => (kr.1, claim_data leaseUntil kr.2)) <$> candidates, w <| recipients := t |>)).

(** [findUnique] with its [include]s; the foreign keys keep the related rows. *)
Definition recipient_find (id : string) : io World (option RecipientRow.t) :=
  db (fun w =>
    match rows (recipients w) !! id with
    | None => Some (None, w)
    | Some r =>
        contact ← rows (contacts w) !! CampaignRecipient.contactId r;
        campaign ← rows (campaigns w) !! CampaignRecipient.campaignId r;
        sender ← rows (senders w) !! Campaign.senderId campaign;
        template ← rows (templates w) !! Campaign.templateId campaign;
        Some (Some (RecipientRow.make r contact campaign sender template), w)
    end).
Definition findExistingMessageId (tenantId idempotencyKey : string) : io World (option string) :=
  message ← db (fun w => Some (findFirst (has_idempotency_key tenantId idempotencyKey) (messages w), w));
  mret (fst <$> (message : option (string * Message.t))).

(** The write is fenced by the claim's lease. *)
Definition completeClaim (claim : claim_t) (data : CampaignRecipient.t -> CampaignRecipient.t) : io World unit :=
  _ ← recipients_updateMany (fun k r => bool_decide (k = claim.1) && held claim.2 r)
        (fun r => data r <| CampaignRecipient.processingLeaseUntil := None |>);
  mret tt.
Definition completeAsQueued (claim : claim_t) (messageId : string) : io World unit :=
  now ← now;
  completeClaim claim (fun r => r <| CampaignRecipient.status := QUEUED |> <| CampaignRecipient.messageId := Some messageId |>
                                  <| CampaignRecipient.queuedAt := Some now |> <| CampaignRecipient.lastError := None |>).
Definition close_data (status : CampaignRecipientStatus.t) (lastError : string) (r : CampaignRecipient.t) : CampaignRecipient.t :=
  r <| CampaignRecipient.status := status |> <| CampaignRecipient.lastError := Some lastError |>.
Definition pending_data (nextAttemptAt : Z) (lastError : option string) (r : CampaignRecipient.t) : CampaignRecipient.t :=
  r <| CampaignRecipient.status := PENDING |> <| CampaignRecipient.nextAttemptAt := nextAttemptAt |>
    <| CampaignRecipient.lastError := lastError |>.

Definition completeForCampaignState (claim : claim_t) (status : CampaignStatus.t) (failureReason : option string) : io World unit :=
  match status with
  | CampaignStatus.CANCELLED => completeClaim claim (close_data CANCELLED "Campaign cancelled while recipient was in flight")
  | CampaignStatus.FAILED =>
      completeClaim claim (close_data FAILED (default "Campaign failed while recipient was in flight"%string failureReason))
  | CampaignStatus.COMPLETED =>
      completeClaim claim (close_data CANCELLED "Campaign completed before this recipient claim could finish")
  | _ => now ← now; completeClaim claim (pending_data now None)
  end.
Definition completeForCurrentCampaignState (claim : claim_t) (campaignId fallbackReason : string) : io World unit :=
  current ← db (fun w => Some (rows (campaigns w) !! campaignId, w));
  match current with
  | None => mret tt
  | Some c => completeForCampaignState claim (Campaign.status c) (Some (default fallbackReason (Campaign.failureReason c)))
  end.

Definition retryOrFail (claim : claim_t) (error : js_error) : io World unit :=
  let message := error_message string_of error in
  let maxAttempts := positiveInteger (setting "CAMPAIGN_RECIPIENT_MAX_ATTEMPTS") 5 in
  if maxAttempts <=? CampaignRecipient.attemptCount claim.2 then
    completeClaim claim (close_data FAILED (JsString.slice0 2000 message))
  else
    now ← now;
    completeClaim claim (pending_data (now + retryDelayMs (CampaignRecipient.attemptCount claim.2)) (Some (JsString.slice0 2000 message))).

(** What the code does, in three places, with an error that fails the whole campaign. *)
Definition fail_with (claim : claim_t) (campaignId reason : string) : io World unit :=
  transitioned ← failCampaign campaignId reason;
  if transitioned : bool then completeClaim claim (close_data FAILED reason)
  else completeForCurrentCampaignState claim campaignId reason.

Definition recipient_components (row : RecipientRow.t) : exec js_error (option (list json)) :=
  match Campaign.components (RecipientRow.campaign row) with
  | Some (JArr l) =>
      if Campaign.personalizationEnabled (RecipientRow.campaign row)
      then r ← renderComponents l (RecipientRow.contact row); Ok (Some r)
      else Ok (Some l)
  | _ => Ok None
  end.
Definition recipient_message (row : RecipientRow.t) (idempotencyKey : string) (components : option (list json)) : CreateMessageDto.t :=
  {| CreateMessageDto.to := Contact.phone (RecipientRow.contact row);
     CreateMessageDto.type := OutboundMessageType.TEMPLATE;
     CreateMessageDto.senderId := Some (Campaign.senderId (RecipientRow.campaign row));
     CreateMessageDto.payload := JObj ([("name", JStr (Template.name (RecipientRow.template row)));
                                        ("language", JStr (Template.language (RecipientRow.template row)))]%string ++
                                       match components with Some l => [("components"%string, JArr l)] | None => [] end);
     CreateMessageDto.idempotencyKey := Some idempotencyKey |}.

Definition send_to_recipient (claim : claim_t) (row : RecipientRow.t) (idempotencyKey : string) : io World unit :=
  components ← lift (recipient_components row);
  message ← Messages.create (Campaign.tenantId (RecipientRow.campaign row)) (recipient_message row idempotencyKey components) trace;
  completeAsQueued claim message.1.
Definition recipient_failed (claim : claim_t) (campaignId : string) (error : js_error) : io World unit :=
  match error with
  | PersonalizationValueError m => completeClaim claim (close_data SKIPPED (JsString.slice0 2000 m))
  | PersonalizationTemplateError m => fail_with claim campaignId (JsString.slice0 2000 m)
  | ForbiddenException m => completeClaim claim (close_data SKIPPED (JsString.slice0 2000 m))
  | UnprocessableEntityException m => fail_with claim campaignId (JsString.slice0 2000 m)
  | _ => retryOrFail claim error
  end.

(** [processRecipient] once the row is read. *)
Definition process_row (claim : claim_t) (row : RecipientRow.t) : io World unit :=
  let campaign := RecipientRow.campaign row in
  let campaignId := CampaignRecipient.campaignId (RecipientRow.recipient row) in
  let idempotencyKey := recipientIdempotencyKey campaignId (CampaignRecipient.contactId (RecipientRow.recipient row)) in
  existing ← findExistingMessageId (Campaign.tenantId campaign) idempotencyKey;
  match truthy existing with
  | Some messageId => completeAsQueued claim messageId
  | None =>
      if negb (bool_decide (Campaign.status campaign = CampaignStatus.RUNNING)) then
        completeForCampaignState claim (Campaign.status campaign) (Campaign.failureReason campaign)
      else
        match configurationError (RecipientRow.sender row) (RecipientRow.template row) with
        | Some reason => fail_with claim campaignId reason
        | None => try_catch (send_to_recipient claim row idempotencyKey) (recipient_failed claim campaignId)
        end
  end.
Definition processRecipient (claim : claim_t) : io World unit :=
  found ← recipient_find claim.1;
  match found with
  | None => mret tt
  | Some row => process_row claim row
  end.

Definition process_claim (claim : claim_t) : io World unit :=
  try_catch (processRecipient claim) (retryOrFail claim).
Definition processPending (db_now : Z) (locked : string -> bool) : io World unit :=
  try_catch
    (_ ← promoteScheduledCampaigns;
     let batchSize := Z.to_nat (positiveInteger (setting "CAMPAIGN_PROCESSOR_BATCH_SIZE") 100) in
     recipients ← claimRecipients db_now locked batchSize;
     _ ← for_each recipients process_claim;
     for_each (touched_campaigns recipients) refreshStats)
    (fun _ => mret tt).
End processor.

(** ** Rendering always ends *)
Lemma render_total v contact depth : render v contact depth <> OutOfFuel.
Proof.
  revert depth. induction v as [|b|n|x|items IH|fields IH] using json_nested_ind; intros depth; cbn [render];
    destruct (MAX_DEPTH <? depth); try done.
  - unfold render_text. destruct (token_value contact x) as [v|]; [|by destruct (PLACEHOLDER_MARKER x)].
    destruct (requireScalar_cases v x) as [[r ->]| ->]; done.
  - set (go := fix go l := match l with [] => Ok [] | item :: l' => _ end).
    assert (Hgo : go items <> OutOfFuel); [|by destruct (go items)].
    induction IH as [|item l Hi _ IHl]; [done|].
    change (go (item :: l)) with (r ← render item contact (depth + 1); rs ← go l; Ok (r :: rs)).
    specialize (Hi (depth + 1)). destruct (render item contact (depth + 1)); [|done|done]. cbn. by destruct (go l).
  - set (go := fix go l := match l with [] => Ok [] | (key, nested) :: l' => _ end).
    assert (Hgo : go fields <> OutOfFuel); [|by destruct (go fields)].
    induction IH as [|[key item] l Hi _ IHl]; [done|]. cbn [snd] in Hi.
    change (go ((key, item) :: l)) with (r ← render item contact (depth + 1); rs ← go l; Ok ((key, r) :: rs)).
    specialize (Hi (depth + 1)). destruct (render item contact (depth + 1)); [|done|done]. cbn. by destruct (go l).
Qed.
Lemma recipient_components_total row : recipient_components row <> OutOfFuel.
Proof.
  unfold recipient_components. destruct (Campaign.components _) as [[| | | |l|]|]; try done. destruct (Campaign.personalizationEnabled _); [|done].
  unfold renderComponents, renderCampaignComponents. pose proof (render_total (JArr l) (personalization_contact (RecipientRow.contact row)) 0) as Ht.
  destruct (render _ _ _) as [[]|e|]; done.
Qed.

Section processor_proofs.
Context `{Prisma} `{Environment} `{UrlParser}.
Context (setting : string -> number) (trace : option json).
Abbreviation claim_t := (string * CampaignRecipient.t)%type.

(** ** One turn on a claim *)
(** Whoever lost the lease - the row is not held and not waiting either - does not touch the row. *)
Definition fenced (claim : claim_t) (w w' : World) : Prop := forall r,
  rows (recipients w) !! claim.1 = Some r -> held claim.2 r = false -> CampaignRecipient.status r <> PENDING ->
  rows (recipients w') !! claim.1 = Some r.
Definition turn (claim : claim_t) (w w' : World) : Prop := progress w w' /\ fenced claim w w'.
#[export] Instance turn_preorder claim : PreOrder (turn claim).
Proof.
  split; [intros w; split; [done|intros r Hr _ _; done]|]. intros w1 w2 w3 [P1 F1] [P2 F2]. split; [by etrans|].
  intros r Hr Hh Hs. by apply F2; [apply F1|..].
Qed.
Lemma turn_same claim w w' : campaign_tables w' = campaign_tables w -> turn claim w w'.
Proof. intros E. split; [by apply progress_same|]. intros r Hr _ _. injection E as _ E _ _. by rewrite E. Qed.
Lemma turn_tick claim w n : turn claim w (w <| tick := n |>).
Proof. by apply turn_same. Qed.

(** The claim is not held any more. *)
Definition settled (claim : claim_t) (w : World) : Prop := forall r,
  rows (recipients w) !! claim.1 = Some r -> held claim.2 r = false.
(** [m], run where [F] holds, is a turn that settles the claim unless it throws. *)
Definition ends (F : World -> Prop) (claim : claim_t) (m : io World unit) : Prop := forall w, F w ->
  wp m (fun r w' => r <> OutOfFuel /\ turn claim w w' /\ (r = Ok tt -> settled claim w')) w.
(** What stays true along the turn. *)
Definition stable (claim : claim_t) (F : World -> Prop) : Prop := forall w w', turn claim w w' -> F w -> F w'.

Lemma ends_bind {A} F claim (m : io World A) (f : A -> io World unit) :
  stable claim F -> preserves (turn claim) m -> returns m -> (forall a, ends F claim (f a)) -> ends F claim (m ≫= f).
Proof.
  intros Hs Hm Hr Hf w HF. apply wp_bind. unfold wp at 1. specialize (Hm w). specialize (Hr w).
  destruct (m w) as [[a|e|] w']; cbn in *; [|done|done].
  eapply wp_mono; [apply Hf; by eapply Hs|]. intros r w2 (Hn & T2 & S2). split; [done|]. split; [by etrans|done].
Qed.
Lemma ends_try F claim (m : io World unit) (h : js_error -> io World unit) :
  stable claim F -> ends F claim m -> (forall e, ends F claim (h e)) -> ends F claim (try_catch m h).
Proof.
  intros Hs Hm Hh w HF. apply wp_try. eapply wp_mono; [by apply Hm|]. intros [[]|e|] w1 (Hn & T1 & S1); [done| |done].
  eapply wp_mono; [apply Hh; by eapply Hs|]. intros r w2 (Hn2 & T2 & S2). split; [done|]. split; [by etrans|done].
Qed.
Lemma ends_weaken (F G : World -> Prop) claim m : (forall w, G w -> F w) -> ends F claim m -> ends G claim m.
Proof. intros Hfg Hm w HG. by apply Hm, Hfg. Qed.

(** Every way to complete a claim: it lets the row go, and only if it is held. *)
Lemma completeClaim_ends F claim data :
  (forall r, CampaignRecipient.status r = PROCESSING ->
     CampaignRecipient.campaignId (data r) = CampaignRecipient.campaignId r /\
     CampaignRecipient.contactId (data r) = CampaignRecipient.contactId r /\
     CampaignRecipient.attemptCount (data r) = CampaignRecipient.attemptCount r /\
     CampaignRecipient.status (data r) <> PROCESSING) ->
  (forall w r, F w -> rows (recipients w) !! claim.1 = Some r -> CampaignRecipient.status (data r) = QUEUED ->
     exists mid, CampaignRecipient.messageId (data r) = Some mid /\ carries w r mid) ->
  stable claim F -> ends F claim (completeClaim claim data).
Proof.
  intros Hd Hq Hst w HF. set (f := fun r => data r <| CampaignRecipient.processingLeaseUntil := None |>).
  set (p := fun (k : string) r => bool_decide (k = claim.1) && held claim.2 r).
  assert (Hheld : forall k r, p k r = true -> k = claim.1 /\ CampaignRecipient.status r = PROCESSING).
  { intros k r [Hk%bool_decide_eq_true [Hs%bool_decide_eq_true _]%andb_true_iff]%andb_true_iff. done. }
  unfold completeClaim, recipients_updateMany. apply wp_bind, wp_db.
  { intros e. split; [done|]. split; [apply turn_tick|done]. }
  intros n w1 E. fold p f in E. pose proof (recipients_updateMany_step p f (bump w)) as Hp.
  pose proof (updateMany_id (held claim.2) f (recipients (bump w)) claim.1 claim.1) as Hrow. fold p in Hrow.
  destruct (updateMany p f (recipients (bump w))) as [n' tb]. injection E as <- <-. cbn [snd] in *.
  rewrite decide_True in Hrow by done. change (rows (recipients (bump w))) with (rows (recipients w)) in *.
  assert (HT : turn claim w (bump w <| recipients := tb |>)).
  { split.
    - etrans; [apply (progress_tick w (S (tick w)))|]. apply Hp. intros k r Hk Hpr.
      destruct (Hheld k r Hpr) as [-> Hs]. destruct (Hd r Hs) as (D1 & D2 & D3 & D4). split.
      + split; [done|done|cbn; lia|]. by rewrite Hs.
      + intros Hs'. destruct (Hq w r HF Hk Hs') as (mid & Hm & m & c & C1 & C2 & C3 & C4). exists mid. split; [done|].
        exists m, c. cbn. by rewrite D1, D2.
    - intros r Hr Hh _. cbn. rewrite Hrow, Hr. cbn. by rewrite Hh. }
  split; [intros e; split; [done|by split]|]. apply wp_ret. split; [done|]. split; [done|]. intros _ r' Hr'. cbn in Hr'.
  rewrite Hrow in Hr'. destruct (rows (recipients w) !! claim.1) as [r|] eqn:Hr; [|done]. cbn in Hr'.
  destruct (held claim.2 r) eqn:Hh; injection Hr' as <-; [|done].
  unfold held. rewrite bool_decide_false; [done|]. destruct (Hheld claim.1 r) as [_ Hs].
  { unfold p. by rewrite bool_decide_true. } by apply Hd.
Qed.
Lemma stable_true claim : stable claim (fun _ => True).
Proof. done. Qed.
Lemma completeClaim_closes claim data :
  (forall r, CampaignRecipient.campaignId (data r) = CampaignRecipient.campaignId r /\
     CampaignRecipient.contactId (data r) = CampaignRecipient.contactId r /\
     CampaignRecipient.attemptCount (data r) = CampaignRecipient.attemptCount r /\
     CampaignRecipient.status (data r) <> PROCESSING /\ CampaignRecipient.status (data r) <> QUEUED) ->
  ends (fun _ => True) claim (completeClaim claim data).
Proof.
  intros Hd. apply completeClaim_ends; [|intros w r _ _ Hs; by destruct (Hd r) as (_ & _ & _ & _ & ?)|apply stable_true].
  intros r _. by destruct (Hd r) as (? & ? & ? & ? & _).
Qed.

Definition some_campaign (id : string) (w : World) : Prop := is_Some (rows (campaigns w) !! id).
Lemma stable_campaign claim id : stable claim (some_campaign id).
Proof. intros w w' [P _] [c Hc]. destruct (prog_campaigns _ _ P _ _ Hc) as (c' & Hc' & _). by exists c'. Qed.
Lemma ends_true F claim m : ends (fun _ => True) claim m -> ends F claim m.
Proof. apply ends_weaken. done. Qed.
Lemma now_turn claim : preserves (turn claim) now.
Proof. apply preserves_now, turn_tick. Qed.

Lemma completeForCampaignState_ends claim status reason : ends (fun _ => True) claim (completeForCampaignState claim status reason).
Proof.
  assert (Hp : ends (fun _ => True) claim (now ← now; completeClaim claim (pending_data now None))).
  { apply ends_bind; [apply stable_true|apply now_turn|done|]. intros t. by apply completeClaim_closes. }
  destruct status; try exact Hp; by apply completeClaim_closes.
Qed.
Lemma retryOrFail_ends claim e : ends (fun _ => True) claim (retryOrFail setting claim e).
Proof.
  unfold retryOrFail. cbv zeta. destruct (_ <=? _); [by apply completeClaim_closes|].
  apply ends_bind; [apply stable_true|apply now_turn|done|]. intros t. by apply completeClaim_closes.
Qed.
Lemma completeForCurrentCampaignState_ends claim id reason :
  ends (some_campaign id) claim (completeForCurrentCampaignState claim id reason).
Proof.
  intros w [c0 Hc0]. apply wp_bind, wp_db; [intros e; split; [done|]; split; [apply turn_tick|done]|].
  intros o w1 [= <- <-]. split; [intros e; split; [done|]; split; [apply turn_tick|done]|].
  change (campaigns (bump w)) with (campaigns w). rewrite Hc0.
  eapply wp_mono; [by apply completeForCampaignState_ends|]. intros r w2 (Hn & T2 & S2).
  split; [done|]. split; [etrans; [apply (turn_tick claim w (S (tick w)))|exact T2]|done].
Qed.

(** Failing the campaign closes waiting recipients only. *)
#[local] Instance fenced_preorder claim : PreOrder (fenced claim).
Proof.
  split; [intros w r Hr _ _; done|]. intros w1 w2 w3 F1 F2 r Hr Hh Hs. by apply F2; [apply F1|..].
Qed.
Lemma fenced_same claim w w' : recipients w' = recipients w -> fenced claim w w'.
Proof. intros E r Hr _ _. by rewrite E. Qed.
Lemma fenced_tick claim w n : fenced claim w (w <| tick := n |>).
Proof. by apply fenced_same. Qed.
Lemma recipients_updateMany_fenced claim p f :
  (forall k r, p k r = true -> CampaignRecipient.status r = PENDING) -> preserves (fenced claim) (recipients_updateMany p f).
Proof.
  intros Hp. apply preserves_db; [apply _|apply fenced_tick|]. intros w n w' E r Hr _ Hs.
  pose proof (updateMany_rows CampaignRecipient.t p f (recipients w) claim.1) as Hrow.
  destruct (updateMany p f (recipients w)) as [n' tb]. injection E as <- <-. cbn [snd] in Hrow. cbn. rewrite Hrow, Hr. cbn.
  destruct (p claim.1 r) eqn:Ep; [by apply Hp in Ep|done].
Qed.
Lemma campaign_updateMany_fenced claim p f : preserves (fenced claim) (campaign_updateMany p f).
Proof. apply (preserves_reads _ _ recipients); [apply fenced_same|]. unfold campaign_updateMany. frame_steps. Qed.
Lemma failCampaign_turn claim id reason : preserves (turn claim) (failCampaign id reason).
Proof.
  assert (Hf : preserves (fenced claim) (failCampaign id reason)).
  { apply preserves_transaction; [apply _|apply fenced_tick|]. unfold fail_body. preserve_steps; [apply campaign_updateMany_fenced|].
    apply recipients_updateMany_fenced. by intros k r [_ Hs%bool_decide_eq_true]%andb_true_iff. }
  intros w. split; [apply failCampaign_live|apply Hf].
Qed.
Lemma failCampaign_returns id reason : returns (failCampaign id reason).
Proof. unfold failCampaign, fail_body, close_pending, recipients_updateMany, campaign_updateMany. returns_steps. Qed.
Lemma fail_with_ends claim id reason : ends (some_campaign id) claim (fail_with claim id reason).
Proof.
  apply ends_bind; [apply stable_campaign|apply failCampaign_turn|apply failCampaign_returns|].
  intros [|]; [by apply ends_true, completeClaim_closes|apply completeForCurrentCampaignState_ends].
Qed.
Lemma recipient_failed_ends claim id e : ends (some_campaign id) claim (recipient_failed setting claim id e).
Proof.
  unfold recipient_failed. destruct e; try apply fail_with_ends; try apply ends_true, retryOrFail_ends;
    by apply ends_true, completeClaim_closes.
Qed.

(** *** Sending *)
(** The recipient's message is stored. *)
Definition ready (claim : claim_t) (mid : string) (w : World) : Prop :=
  exists r, rows (recipients w) !! claim.1 = Some r /\ carries w r mid.
Lemma stable_ready claim mid : stable claim (ready claim mid).
Proof.
  intros w w' [P _] (r & Hr & Hc). destruct (prog_recipients _ _ P _ _ Hr) as (r' & Hr' & L). exists r'. split; [done|].
  by eapply carries_progress.
Qed.
Lemma completeAsQueued_ends claim mid : ends (ready claim mid) claim (completeAsQueued claim mid).
Proof.
  apply ends_bind; [apply stable_ready|apply now_turn|done|]. intros t. apply completeClaim_ends; [done| |apply stable_ready].
  intros w r (r0 & Hr0 & Hc) Hr _. assert (r0 = r) as -> by congruence. by exists mid.
Qed.

(** What the message API does to the tables of the campaigns: nothing but add a message with its event. *)
Lemma create_frames T dto : frames (fun w => (campaigns w, recipients w)) (Messages.create T dto trace).
Proof.
  unfold Messages.create, find_existing, assertAllowed, Contacts.findByPhone, contact_by_phone, Senders.resolveForTenant, sender_find,
    template_category, assertApproved, template_find, found, create_attempt, create_body, Conversations.recordOutbound,
    Conversations.upsert, Inbound.message_create, outbox_create, find_existing.
  frame_steps.
Qed.
Lemma create_returns T dto : returns (Messages.create T dto trace).
Proof.
  unfold Messages.create, find_existing, assertAllowed, Contacts.findByPhone, contact_by_phone,
    template_category, assertApproved, template_find, found, create_attempt, create_body, Conversations.recordOutbound,
    Conversations.upsert, Inbound.message_create, outbox_create, find_existing.
  returns_steps; try apply resolveForTenant_returns; apply returns_lift;
    first [by apply persisted_payload_total|unfold normalizePhoneNumber, extractTemplateIdentity; returns_lift_tac].
Qed.

Lemma create_progress T dto w :
  wp (Messages.create T dto trace) (fun r w' => progress w w' /\ recipients w' = recipients w /\
    forall mid m, r = Ok (mid, m) -> rows (messages w') !! mid = Some m /\
      forall key, truthy (CreateMessageDto.idempotencyKey dto) = Some key -> has_idempotency_key T key mid m = true) w.
Proof.
  pose proof (create_frames T dto w) as Hfr. pose proof (create_spec T dto trace w) as Hc. unfold wp in *.
  destruct (Messages.create T dto trace w) as [r w']. cbn [fst snd] in *. injection Hfr as Ec Er.
  destruct Hc as [(Em & Eo & Hr)|(id & m & k & to & category & payload & _ & Hadd & Hr)].
  - split; [apply progress_rows; by rewrite ?Ec, ?Er|]. split; [done|]. intros mid m E.
    destruct (Hr mid m E) as (Hm & key' & Hk' & Hhas). rewrite Em. split; [done|]. intros key Hkey. congruence.
  - destruct Hadd as (Hid & Em & Hrow & (ev & e & Hev & Eo & Hreq) & Hu).
    destruct Hrow as (R1 & _ & _ & _ & _ & _ & _ & R2 & _).
    split; [|split; [done|]].
    + apply (progress_of_message w w' id m ev e T (CreateMessageDto.idempotencyKey dto)); try done; by rewrite ?Ec, ?Er.
    + intros mid m' E. injection (Hr _ E) as -> ->. rewrite Em, lookup_insert_eq. split; [done|]. intros key Hkey.
      assert (CreateMessageDto.idempotencyKey dto = Some key) as Ek by (destruct (CreateMessageDto.idempotencyKey dto) as [[|]|]; cbn in Hkey; congruence).
      unfold has_idempotency_key. by rewrite R1, R2, Ek, !bool_decide_true.
Qed.

(** What the processor read stays true: whose recipient it is, and for which campaign of which tenant. *)
Definition seen (claim : claim_t) (row : RecipientRow.t) (w : World) : Prop := exists r c,
  rows (recipients w) !! claim.1 = Some r /\
  CampaignRecipient.campaignId r = CampaignRecipient.campaignId (RecipientRow.recipient row) /\
  CampaignRecipient.contactId r = CampaignRecipient.contactId (RecipientRow.recipient row) /\
  rows (campaigns w) !! CampaignRecipient.campaignId r = Some c /\
  Campaign.tenantId c = Campaign.tenantId (RecipientRow.campaign row).
Lemma stable_seen claim row : stable claim (seen claim row).
Proof.
  intros w w' [P _] (r & c & Hr & E1 & E2 & Hc & ET). destruct (prog_recipients _ _ P _ _ Hr) as (r' & Hr' & [L1 L2 _ _]).
  destruct (prog_campaigns _ _ P _ _ Hc) as (c' & Hc' & Lc). exists r', c'. rewrite L1, L2.
  destruct (life_owner _ _ Lc) as [-> _]. done.
Qed.
Lemma seen_campaign claim row w :
  seen claim row w -> some_campaign (CampaignRecipient.campaignId (RecipientRow.recipient row)) w.
Proof. intros (r & c & _ & <- & _ & Hc & _). by exists c. Qed.
Definition row_key (row : RecipientRow.t) : string :=
  recipientIdempotencyKey (CampaignRecipient.campaignId (RecipientRow.recipient row)) (CampaignRecipient.contactId (RecipientRow.recipient row)).
Lemma seen_ready claim row mid m w :
  seen claim row w -> rows (messages w) !! mid = Some m ->
  Message.tenantId m = Some (Campaign.tenantId (RecipientRow.campaign row)) -> Message.idempotencyKey m = Some (row_key row) ->
  ready claim mid w.
Proof.
  intros (r & c & Hr & E1 & E2 & Hc & ET) Hm HT Hk. exists r. split; [done|]. exists m, c.
  rewrite E1, E2, ET. split; [done|]. split; [by rewrite <- E1|done].
Qed.

(** A step that gives more than it was entered with. *)
Lemma ends_bind_wp {A} F claim (m : io World A) (f : A -> io World unit) :
  (forall w, F w -> wp m (fun r w' => r <> OutOfFuel /\ turn claim w w' /\
     forall a, r = Ok a -> wp (f a) (fun r w2 => r <> OutOfFuel /\ turn claim w' w2 /\ (r = Ok tt -> settled claim w2)) w') w) ->
  ends F claim (m ≫= f).
Proof.
  intros Hm w HF. apply wp_bind. eapply wp_mono; [by apply Hm|]. intros [a|e|] w1 (Hn & T1 & Hf); [|done|done].
  eapply wp_mono; [by apply Hf|]. intros r w2 (Hn2 & T2 & S2). split; [done|]. split; [by etrans|done].
Qed.
Lemma send_to_recipient_ends claim row : ends (seen claim row) claim (send_to_recipient trace claim row (row_key row)).
Proof.
  apply ends_bind; [apply stable_seen|apply preserves_lift, _|apply returns_lift, recipient_components_total|].
  intros components. apply ends_bind_wp. intros w Hseen.
  set (dto := recipient_message row (row_key row) components). set (T := Campaign.tenantId (RecipientRow.campaign row)).
  pose proof (create_progress T dto w) as Hc. pose proof (create_returns T dto w) as Hn. unfold wp in Hc |- *.
  destruct (Messages.create T dto trace w) as [r w1]. cbn [fst snd] in *. destruct Hc as (P & Er & Hm).
  assert (HT : turn claim w w1) by (split; [done|by apply fenced_same]).
  split; [done|]. split; [done|]. intros [mid m] E. destruct (Hm mid m E) as (Hmid & Hk).
  assert (Hne : truthy (CreateMessageDto.idempotencyKey dto) = Some (row_key row)) by done.
  apply Hk in Hne. apply andb_true_iff in Hne as [HTn%bool_decide_eq_true Hkey%bool_decide_eq_true].
  apply completeAsQueued_ends. eapply seen_ready; [by eapply stable_seen|done|done|done].
Qed.

Lemma process_row_ends claim row : ends (seen claim row) claim (process_row setting trace claim row).
Proof.
  apply ends_bind_wp. intros w Hseen. unfold findExistingMessageId. apply wp_bind, wp_db.
  { intros e. split; [done|]. split; [apply turn_tick|done]. }
  intros message w1 [= <- <-]. split; [intros e; split; [done|]; split; [apply turn_tick|done]|].
  apply wp_ret. split; [done|]. split; [apply turn_tick|]. intros existing [= <-].
  assert (Hseen' : seen claim row (bump w)) by (eapply stable_seen; [apply turn_tick|done]).
  change (messages (bump w)) with (messages w).
  destruct (truthy _) as [mid|] eqn:Et.
  { apply completeAsQueued_ends. destruct (findFirst _ _) as [[k m]|] eqn:Ef; [|done].
    assert (k = mid) as -> by (destruct k; cbn in Et; congruence).
    apply findFirst_some in Ef as [Hm [HT%bool_decide_eq_true Hk%bool_decide_eq_true]%andb_true_iff].
    by eapply seen_ready. }
  case_bool_decide; cbn [negb]; [|by apply completeForCampaignState_ends].
  assert (Hcamp : forall m, ends (some_campaign (CampaignRecipient.campaignId (RecipientRow.recipient row))) claim m ->
    ends (seen claim row) claim m) by (intros m; apply ends_weaken, seen_campaign).
  destruct (configurationError _ _) as [reason|]; [by apply (Hcamp _ (fail_with_ends _ _ _))|].
  apply (ends_try (seen claim row)); [apply stable_seen|apply send_to_recipient_ends| |exact Hseen'].
  intros e. apply Hcamp, recipient_failed_ends.
Qed.
Lemma processRecipient_ends claim : ends (fun _ => True) claim (processRecipient setting trace claim).
Proof.
  apply ends_bind_wp. intros w _. unfold recipient_find. apply wp_db.
  { intros e. split; [done|]. split; [apply turn_tick|done]. }
  intros found w1 E. assert (w1 = bump w) as -> by (revert E; frame_db).
  split; [intros e; split; [done|]; split; [apply turn_tick|done]|].
  split; [done|]. split; [apply turn_tick|]. intros o [= <-].
  change (recipients (bump w)) with (recipients w) in E.
  destruct (rows (recipients w) !! claim.1) as [r|] eqn:Hr.
  - apply bind_Some in E as (contact & _ & E). apply bind_Some in E as (c & Hc & E).
    apply bind_Some in E as (s & _ & E). apply bind_Some in E as (t & _ & E). injection E as <-.
    apply process_row_ends. by exists r, c.
  - injection E as <-. split; [done|]. split; [done|]. intros _ x Hx. change (rows (recipients w) !! claim.1 = Some x) in Hx. congruence.
Qed.
Lemma process_claim_ends claim : ends (fun _ => True) claim (process_claim setting trace claim).
Proof. apply ends_try; [apply stable_true|apply processRecipient_ends|]. intros e. apply retryOrFail_ends. Qed.
Lemma process_claim_live claim : preserves progress (process_claim setting trace claim).
Proof. intros w. by destruct (process_claim_ends claim w) as (_ & [P _] & _). Qed.
Lemma process_claim_returns claim : returns (process_claim setting trace claim).
Proof. intros w. by destruct (process_claim_ends claim w) as (Hn & _). Qed.

(** ** The poll *)
Lemma promote_live : preserves progress promoteScheduledCampaigns.
Proof.
  unfold promoteScheduledCampaigns. preserve_steps; [apply preserves_now, progress_tick|]. apply updateMany_live.
  intros k c [Hs%bool_decide_eq_true _]%andb_true_iff. apply lifecycle_status; try done. left. cbn. rewrite Hs. auto.
Qed.
Lemma claimed_open db_now locked n w k r :
  (k, r) ∈ claimed_recipients db_now locked n w -> rows (recipients w) !! k = Some r /\ claimable db_now w r = true /\ locked k = false.
Proof.
  intros Hin. apply (subseteq_take n) in Hin. rewrite (merge_sort_Permutation oldest_recipient) in Hin.
  apply findMany_elem in Hin as [[Hc Hl%negb_true_iff]%andb_true_iff Hk]. done.
Qed.
Lemma claimable_open db_now w r : claimable db_now w r = true -> closed (CampaignRecipient.status r) = false.
Proof.
  unfold claimable. destruct (rows (campaigns w) !! _) as [c|]; [|done]. by destruct (CampaignRecipient.status r).
Qed.
Lemma claimRecipients_live db_now locked n : preserves progress (claimRecipients setting db_now locked n).
Proof.
  apply preserves_bind; [apply _|apply preserves_now, progress_tick|]. intros t. apply preserves_db; [apply _|apply progress_tick|].
  intros w l w' [= _ <-]. apply recipients_updateMany_step. intros k r Hk Hin%bool_decide_eq_true. split; [|done].
  apply list_elem_of_fmap in Hin as ([k' r'] & -> & Hin). apply claimed_open in Hin as (Hr & Hc & _). cbn in Hk.
  assert (r' = r) as -> by congruence. split; [done|done|cbn; lia|]. by rewrite (claimable_open _ _ _ Hc).
Qed.
Lemma processPending_live db_now locked : preserves progress (processPending setting trace db_now locked).
Proof.
  apply preserves_try; [apply _| |intros e; apply preserves_ret, _].
  apply preserves_bind; [apply _|apply promote_live|]. intros _. cbv zeta.
  apply preserves_bind; [apply _|apply claimRecipients_live|]. intros l.
  apply preserves_bind; [apply _|apply preserves_for_each; [apply _|intros x; apply process_claim_live]|]. intros _.
  apply preserves_for_each; [apply _|]. intros id. apply refreshStats_live.
Qed.
Lemma processPending_returns db_now locked : returns (processPending setting trace db_now locked).
Proof.
  unfold processPending, promoteScheduledCampaigns, claimRecipients, refreshStats, campaign_updateMany.
  returns_steps. apply process_claim_returns.
Qed.
Lemma try_catch_ok (m : io World unit) w :
  returns (try_catch m (fun _ => mret tt)) -> (try_catch m (fun _ => mret tt) w).1 = Ok tt.
Proof. intros Hr. specialize (Hr w). unfold try_catch in *. destruct (m w) as [[[]|e|] w']; done. Qed.
Lemma processPending_ends db_now locked w : (processPending setting trace db_now locked w).1 = Ok tt.
Proof. apply try_catch_ok, processPending_returns. Qed.

End processor_proofs.

(** ** Histories *)
Section histories.
Context `{Prisma} `{Environment} `{UrlParser}.
Context (Date_parse : string -> option Z) (setting : string -> number).
(** What happens to campaigns: requests of any tenant, the processor's failures, polls. *)
Inductive operation :=
| Create (tenantId : string) (dto : CreateCampaignDto.t)
| Launch (tenantId id : string)
| Pause (tenantId id : string)
| Resume (tenantId id : string)
| Cancel (tenantId id : string)
| Send (tenantId : string) (dto : CreateMessageDto.t) (trace : option json)
| Poll (trace : option json) (db_now : Z) (locked : string -> bool).
Definition perform (o : operation) (w : World) : World :=
  match o with
  | Create T dto => (CampaignDrafts.create Date_parse T dto w).2
  | Launch T id => (launch setting T id w).2
  | Pause T id => (pause T id w).2
  | Resume T id => (resume T id w).2
  | Cancel T id => (cancel T id w).2
  | Send T dto trace => (Messages.create T dto trace w).2
  | Poll trace db_now locked => (processPending setting trace db_now locked w).2
  end.
Definition history (l : list operation) (w : World) : World := foldl (fun w o => perform o w) w l.
End histories.

Section history_proofs.
Context `{Prisma} `{Environment} `{UrlParser}.
Context (Date_parse : string -> option Z) (setting : string -> number).

Lemma create_live trace T dto : preserves progress (Messages.create T dto trace).
Proof. intros w. by destruct (create_progress trace T dto w). Qed.
Lemma perform_progress o w : progress w (perform Date_parse setting o w).
Proof.
  destruct o; cbn [perform].
  - apply create_draft_live.
  - apply launch_live.
  - apply pause_live.
  - apply resume_live.
  - apply cancel_live.
  - apply create_live.
  - apply processPending_live.
Qed.
Lemma history_progress l w : progress w (history Date_parse setting l w).
Proof.
  unfold history. revert w. induction l as [|o l IH]; intros w; cbn; [reflexivity|]. etrans; [apply perform_progress|apply IH].
Qed.

(** C2: Through any sequence of drafts, launches, pauses, resumptions, cancellations, messages and polls of the
    processor, whatever fails in them, a campaign goes only through the transitions of its life
    and stays completed, cancelled or failed; its recipients are the ones of its one launch, and a
    closed recipient is never reopened or sent to again; no message is lost and each new one comes with its outbox
    event; every recipient marked as queued has a stored message of the campaign's tenant, and the same contact
    never gets two messages from the same campaign. *)
Theorem campaign_history l w (Hk : keys_unique w) (Hl : recipients_launched w) (Hq : queued_carried w) :
  let w' := history Date_parse setting l w in
  progress w w' /\ keys_unique w' /\ recipients_launched w' /\ queued_carried w' /\
  (forall k c, rows (campaigns w) !! k = Some c -> final (Campaign.status c) = true ->
     exists c', rows (campaigns w') !! k = Some c' /\ Campaign.status c' = Campaign.status c) /\
  forall r1 r2 m1 m2, carries w' r1 m1 -> carries w' r2 m2 ->
    CampaignRecipient.campaignId r1 = CampaignRecipient.campaignId r2 ->
    CampaignRecipient.contactId r1 = CampaignRecipient.contactId r2 -> m1 = m2.
Proof.
  intros w'. pose proof (history_progress l w) as P. fold w' in P. pose proof (prog_keys _ _ P Hk) as Hk'.
  split; [done|]. split; [done|]. split; [by apply (prog_launched _ _ P)|]. split; [by apply (prog_queued _ _ P)|]. split.
  - intros k c Hc Hf. destruct (prog_campaigns _ _ P k c Hc) as (c' & Hc' & L). exists c'. split; [done|].
    apply allowed_final; [apply L|done].
  - intros r1 r2 m1 m2 (x1 & c1 & A1 & A2 & A3 & A4) (x2 & c2 & B1 & B2 & B3 & B4) E1 E2.
    rewrite E1 in A2, A4. rewrite E2 in A4. assert (c1 = c2) as -> by congruence.
    eapply Hk'; [exact A1|exact B1| |]; unfold has_idempotency_key; rewrite ?A3, ?A4, ?B3, ?B4, ?bool_decide_true; done.
Qed.

(** Working on a claim always ends.  Unless it throws, the claim is let go: the recipient is queued,
    closed or waiting again.  And it is fenced: when the row is not held under the claim's own lease any more,
    because another worker took it over or it was closed, the row is left as it is. *)
Theorem processRecipient_settles trace claim w :
  let '(r, w') := processRecipient setting trace claim w in
  r <> OutOfFuel /\ progress w w' /\
  (r = Ok tt -> forall row, rows (recipients w') !! claim.1 = Some row -> held claim.2 row = false) /\
  forall row, rows (recipients w) !! claim.1 = Some row -> held claim.2 row = false ->
    CampaignRecipient.status row <> PENDING -> rows (recipients w') !! claim.1 = Some row.
Proof.
  pose proof (processRecipient_ends setting trace claim w I) as Hw. unfold wp in Hw.
  destruct (processRecipient setting trace claim w) as [r w']. by destruct Hw as (Hn & [P F] & S).
Qed.
End history_proofs.

(** ** The draft is launched and its recipient's message queued *)
Definition launch_and_poll : list operation := [Launch "t" "k"; Poll None 6 (fun _ => false)].
Example promo_queued :
  let w' := @history gmap_prisma (calm 5) https_only no_dates no_settings launch_and_poll campaign_example in
  (fun r => (CampaignRecipient.contactId r, CampaignRecipient.status r)) <$> (map_to_list (rows (recipients w'))).*2 =
    [("c"%string, QUEUED)] /\
  (fun c => (Campaign.status c, Campaign.queuedRecipients c)) <$> (map_to_list (rows (campaigns w'))).*2 =
    [(CampaignStatus.COMPLETED, 1)] /\
  Message.idempotencyKey <$> (map_to_list (rows (messages w'))).*2 = [Some "campaign:k:contact:c"%string].
Proof. vm_compute. auto. Qed.

Lemma campaign_history_witness :
  let w' := @history gmap_prisma (calm 5) https_only no_dates no_settings launch_and_poll campaign_example in
  @progress gmap_prisma campaign_example w' /\ @keys_unique gmap_prisma w' /\ @recipients_launched gmap_prisma w' /\
  @queued_carried gmap_prisma w'.
Proof.
  assert (Hk : @keys_unique gmap_prisma campaign_example).
  { intros T key k1 m1 k2 m2 H1. change (rows (messages campaign_example)) with (∅ : gmap string Message.t) in H1.
    by rewrite lookup_empty in H1. }
  assert (Hq : @queued_carried gmap_prisma campaign_example).
  { intros k r Hr. change (rows (recipients campaign_example)) with (∅ : gmap string CampaignRecipient.t) in Hr.
    by rewrite lookup_empty in Hr. }
  intros w'.
  destruct (@campaign_history gmap_prisma (calm 5) https_only no_dates no_settings launch_and_poll campaign_example
    Hk campaign_example_launched Hq) as (P & Hk' & Hl' & Hq' & _).
  exact (conj P (conj Hk' (conj Hl' Hq'))).
Defined.

(** A campaign whose last recipient was finished while it was paused: once resumed, no poll completes it. *)
Definition paused_at_the_end : World (H := gmap_prisma) :=
  campaign_example <| campaigns := ({[ "k"%string := draft <| Campaign.status := CampaignStatus.PAUSED |> <| Campaign.snapshotAt := Some 1 |> ]}
                                      : gmap string Campaign.t) |>
                   <| recipients := ({[ "r"%string := pending_recipient "k" "c" 1 <| CampaignRecipient.status := SKIPPED |> ]}
                                       : gmap string CampaignRecipient.t) |>.
Example resumed_never_completes :
  let poll := Poll None 6 (fun _ => false) in
  let w' := @history gmap_prisma (calm 5) https_only no_dates no_settings [Resume "t" "k"; poll; poll] paused_at_the_end in
  Campaign.status <$> (map_to_list (rows (campaigns w'))).*2 = [CampaignStatus.RUNNING].
Proof. vm_compute. reflexivity. Qed.
