(* ===== verification/Listings.v ===== *)
(** The list endpoints that page by cursor: messages, conversations and what belongs to one, campaigns
    and their recipients, the audit log, canned responses. *)
From stdpp Require Import prelude gmap strings sorting.
From Stdlib Require Import ZArith Lia.
From S2P Require Import Prelude Json Io Prisma Domain Frame Tables AuditTrail Dispatcher Senders Contacts Pages Auth Inbound CannedResponses InboxAgents Inbox Campaigns.
#[local] Open Scope Z_scope.

(** [...(value ? { column: value } : {})] of a string, and of an enum. *)
Definition text_is (value : option string) (column : option string) : bool :=
  match truthy value with None => true | Some _ => bool_decide (column = truthy value) end.
Definition enum_is {T} `{EqDecision T} (value : option T) (column : T) : bool :=
  match value with None => true | Some v => bool_decide (column = v) end.

(** ** The queries *)
Module ListMessagesQueryDto.
Record t := make {
  direction : option MessageDirection.t;
  status : option MessageStatus.t;
  trafficClass : option MessageTrafficClass.t;
  phone : option string;
  senderId : option string;
  cursor : option string;
  limit : Z
}.
Definition at_cursor (q : t) (c : option string) : t := make (direction q) (status q) (trafficClass q) (phone q) (senderId q) c (limit q).
End ListMessagesQueryDto.
Module ListConversationsQueryDto.
Record t := make {
  status : option ConversationStatus.t;
  priority : option ConversationPriority.t;
  assignedAgentId : option string;
  unassigned : bool;
  assignedTeamId : option string;
  unassignedTeam : bool;
  senderId : option string;
  contactId : option string;
  cursor : option string;
  limit : Z
}.
Definition at_cursor (q : t) (c : option string) : t :=
  make (status q) (priority q) (assignedAgentId q) (unassigned q) (assignedTeamId q) (unassignedTeam q) (senderId q) (contactId q) c (limit q).
End ListConversationsQueryDto.
Module ListCampaignsQueryDto.
Record t := make { status : option CampaignStatus.t; cursor : option string; limit : Z }.
End ListCampaignsQueryDto.
Module ListCampaignRecipientsQueryDto.
Record t := make { status : option CampaignRecipientStatus.t; cursor : option string; limit : Z }.
End ListCampaignRecipientsQueryDto.
Module ListAuditLogsQueryDto.
Record t := make { action : option string; entityType : option string; entityId : option string; cursor : option string; limit : Z }.
Definition at_cursor (q : t) (c : option string) : t := make (action q) (entityType q) (entityId q) c (limit q).
End ListAuditLogsQueryDto.

Section listings.
Context `{Prisma} `{Environment}.

(** ** [messages.service.ts] *)
Definition message_matches (tenantId : string) (query : ListMessagesQueryDto.t) (phone : option string) (_ : World) (_ : string)
    (m : Message.t) : bool :=
  bool_decide (Message.tenantId m = Some tenantId) &&
  enum_is (ListMessagesQueryDto.direction query) (Message.direction m) &&
  enum_is (ListMessagesQueryDto.status query) (Message.status m) &&
  enum_is (ListMessagesQueryDto.trafficClass query) (Message.trafficClass m) &&
  text_is (ListMessagesQueryDto.senderId query) (Message.senderId m) &&
  match truthy phone with
  | None => true
  | Some phone => bool_decide (Message.to m = Some phone) || bool_decide (Message.from m = Some phone)
  end.
Definition listMessages (tenantId : string) (query : ListMessagesQueryDto.t) : io World (Page.t Message.t) :=
  let cursor := truthy (ListMessagesQueryDto.cursor query) in
  let limit := ListMessagesQueryDto.limit query in
  _ ← check_cursor (R := Message.t) cursor (fun _ m => bool_decide (Message.tenantId m = Some tenantId))
        "Message cursor is invalid for this tenant";
  phone ← (match truthy (ListMessagesQueryDto.phone query) with
           | Some phone => phone ← lift (normalizePhoneNumber phone); mret (Some phone)
           | None => mret None
           end);
  rows ← page_rows (message_matches tenantId query phone) (newest_first Message.createdAt) cursor limit;
  mret (page_of limit rows).

(** ** [inbox.service.ts] *)
Definition conversation_matches (tenantId : string) (query : ListConversationsQueryDto.t) (w : World) (id : string)
    (c : Conversation.t) : bool :=
  let team := assigned_team id c w in
  bool_decide (Conversation.tenantId c = tenantId) &&
  enum_is (ListConversationsQueryDto.status query) (Conversation.status c) &&
  enum_is (ListConversationsQueryDto.priority query) (Conversation.priority c) &&
  text_is (ListConversationsQueryDto.assignedAgentId query) (Conversation.assignedAgentId c) &&
  (negb (ListConversationsQueryDto.unassigned query) || bool_decide (Conversation.assignedAgentId c = None)) &&
  text_is (ListConversationsQueryDto.assignedTeamId query) team &&
  (negb (ListConversationsQueryDto.unassignedTeam query) || bool_decide (team = None)) &&
  text_is (ListConversationsQueryDto.senderId query) (Some (Conversation.senderId c)) &&
  text_is (ListConversationsQueryDto.contactId query) (Some (Conversation.contactId c)).
Definition listConversations (tenantId : string) (query : ListConversationsQueryDto.t) : io World (Page.t Conversation.t) :=
  if ListConversationsQueryDto.unassigned query && bool_decide (is_Some (truthy (ListConversationsQueryDto.assignedAgentId query))) then
    throw (BadRequestException "assignedAgentId cannot be combined with unassigned=true")
  else if ListConversationsQueryDto.unassignedTeam query && bool_decide (is_Some (truthy (ListConversationsQueryDto.assignedTeamId query))) then
    throw (BadRequestException "assignedTeamId cannot be combined with unassignedTeam=true")
  else
    list_page (conversation_matches tenantId query) (newest_first Conversation.lastMessageAt)
      (fun _ c => bool_decide (Conversation.tenantId c = tenantId)) "Conversation cursor is invalid for this tenant"
      (truthy (ListConversationsQueryDto.cursor query)) (ListConversationsQueryDto.limit query).

Definition assertConversation (tenantId id : string) : io World unit :=
  conversation ← find_row (Tables.of_tenant Conversation.tenantId id tenantId);
  _ ← found (NotFoundException "Conversation not found") conversation;
  mret tt.
Definition in_conversation (tenantId conversationId : string) (m : Message.t) : bool :=
  bool_decide (Message.tenantId m = Some tenantId) && bool_decide (Message.conversationId m = Some conversationId).
Definition listConversationMessages (tenantId conversationId : string) (cursor : option string) (limit : Z) : io World (Page.t Message.t) :=
  _ ← assertConversation tenantId conversationId;
  list_page (fun _ _ => in_conversation tenantId conversationId) (newest_first Message.createdAt)
    (fun _ => in_conversation tenantId conversationId) "Message cursor is invalid for this conversation" (truthy cursor) limit.

(** ** [conversation-notes.service.ts] *)
Definition note_in (tenantId conversationId : string) (n : ConversationNote.t) : bool :=
  bool_decide (ConversationNote.tenantId n = tenantId) && bool_decide (ConversationNote.conversationId n = conversationId).
Definition listNotes (tenantId conversationId : string) (cursor : option string) (limit : Z) : io World (Page.t ConversationNote.t) :=
  if (limit <? 1) || (100 <? limit) then throw (BadRequestException "Note limit must be an integer between 1 and 100")
  else
    _ ← assertConversation tenantId conversationId;
    list_page (fun _ _ => note_in tenantId conversationId) (newest_first ConversationNote.createdAt)
      (fun _ => note_in tenantId conversationId) "Note cursor is invalid for this conversation" cursor limit.

(** ** [campaigns.service.ts] *)
Definition campaign_matches (tenantId : string) (query : ListCampaignsQueryDto.t) (_ : World) (_ : string) (c : Campaign.t) : bool :=
  bool_decide (Campaign.tenantId c = tenantId) && enum_is (ListCampaignsQueryDto.status query) (Campaign.status c).
Definition listCampaigns (tenantId : string) (query : ListCampaignsQueryDto.t) : io World (Page.t Campaign.t) :=
  list_page (campaign_matches tenantId query) (newest_first Campaign.createdAt)
    (fun _ c => bool_decide (Campaign.tenantId c = tenantId)) "Campaign cursor is invalid for this tenant"
    (truthy (ListCampaignsQueryDto.cursor query)) (ListCampaignsQueryDto.limit query).

(** [campaignId, campaign: { tenantId }] *)
Definition recipient_of (tenantId campaignId : string) (w : World) (r : CampaignRecipient.t) : bool :=
  bool_decide (CampaignRecipient.campaignId r = campaignId) &&
  match rows (campaigns w) !! CampaignRecipient.campaignId r with
  | Some c => bool_decide (Campaign.tenantId c = tenantId)
  | None => false
  end.
Definition recipient_matches (tenantId campaignId : string) (query : ListCampaignRecipientsQueryDto.t) (w : World) (_ : string)
    (r : CampaignRecipient.t) : bool :=
  recipient_of tenantId campaignId w r && enum_is (ListCampaignRecipientsQueryDto.status query) (CampaignRecipient.status r).
Definition listRecipients (tenantId campaignId : string) (query : ListCampaignRecipientsQueryDto.t) : io World (Page.t CampaignRecipient.t) :=
  _ ← findById tenantId campaignId;
  list_page (recipient_matches tenantId campaignId query) (oldest_first CampaignRecipient.createdAt)
    (recipient_of tenantId campaignId) "Campaign recipient cursor is invalid for this campaign"
    (truthy (ListCampaignRecipientsQueryDto.cursor query)) (ListCampaignRecipientsQueryDto.limit query).

(** ** [audit.service.ts] *)
Definition audit_matches (tenantId : string) (query : ListAuditLogsQueryDto.t) (_ : World) (_ : string) (a : AuditLog.t) : bool :=
  let a := AuditLog.data a in
  bool_decide (AuditData.tenantId a = tenantId) &&
  text_is (ListAuditLogsQueryDto.action query) (Some (AuditData.action a)) &&
  text_is (ListAuditLogsQueryDto.entityType query) (Some (AuditData.entityType a)) &&
  text_is (ListAuditLogsQueryDto.entityId query) (AuditData.entityId a).
Definition listAuditLogs (tenantId : string) (query : ListAuditLogsQueryDto.t) : io World (Page.t AuditLog.t) :=
  list_page (audit_matches tenantId query) (newest_first AuditLog.createdAt)
    (fun _ a => bool_decide (AuditData.tenantId (AuditLog.data a) = tenantId)) "Audit cursor is invalid for this tenant"
    (truthy (ListAuditLogsQueryDto.cursor query)) (ListAuditLogsQueryDto.limit query).

(** ** Every list is complete *)
(** The database never gives an empty id ([create_named]). *)
Record ids_given (w : World) : Prop := {
  given_messages : row (R := Message.t) "" w = None;
  given_conversations : row (R := Conversation.t) "" w = None;
  given_notes : row (R := ConversationNote.t) "" w = None;
  given_campaigns : row (R := Campaign.t) "" w = None;
  given_recipients : row (R := CampaignRecipient.t) "" w = None;
  given_auditLogs : row (R := AuditLog.t) "" w = None
}.
Lemma truthy_cursor (c : option string) : c <> Some ""%string -> truthy c = c.
Proof. by destruct c as [[]|]. Qed.

(** A list that follows its cursor by the row, after some check. *)
Lemma complete_list {R A} `{!Table R} (p : World -> string -> R -> bool) (le : relation (string * R))
    `{!RelDecision le, !Transitive le, !Total le} (visible : World -> R -> bool) message limit w (pre : io World A) fetch :
  (forall w n, p (w <| tick := n |>) = p w) -> (forall a b, le a b -> le b a -> a.1 = b.1) ->
  (forall w n, visible (w <| tick := n |>) = visible w) -> (forall k r, p w k r = true -> visible w r = true) ->
  row (R := R) "" w = None -> 1 <= limit -> (forall n, wp pre (reads w (fun _ => True)) (w <| tick := n |>)) ->
  (forall cursor, cursor <> Some ""%string -> fetch cursor = (_ ← pre; list_page p le visible message cursor limit)) ->
  shows_all p le fetch w.
Proof. intros. apply (listed_complete p le). by eapply (enumerate_rows p le visible message limit w pre). Qed.

Lemma conversation_there tenantId id (c : Conversation.t) w n :
  row id w = Some c -> Conversation.tenantId c = tenantId ->
  wp (assertConversation tenantId id) (reads w (fun _ => True)) (w <| tick := n |>).
Proof.
  intros Hc Ht. unfold assertConversation. eapply (reads_bind _ _ _ (fun o => o = Some (id, c))).
  - apply (reads_db (fun w => findFirst (Tables.of_tenant Conversation.tenantId id tenantId) (tbl w))); [intros m; by rewrite tbl_tick|].
    apply findFirst_unique; [exact Hc|unfold Tables.of_tenant; by rewrite !bool_decide_true|].
    by intros k' r' _ [?%bool_decide_eq_true _]%andb_true_iff.
  - intros o m ->. eapply (reads_bind _ _ _ (fun _ => True)); [by apply reads_found; eexists|]. intros _ m' _. by apply reads_ret.
Qed.
Lemma campaign_there tenantId id (c : Campaign.t) w n :
  row id w = Some c -> Campaign.tenantId c = tenantId ->
  wp (findById tenantId id) (reads w (fun _ => True)) (w <| tick := n |>).
Proof.
  intros Hc Ht. unfold findById, campaign_find. eapply (reads_bind _ _ _ (fun o => o = Some (id, c))).
  - apply (reads_db (fun w => findFirst (campaign_of tenantId id) (campaigns w))); [done|].
    apply findFirst_unique; [exact Hc|unfold campaign_of; by rewrite !bool_decide_true|].
    by intros k' r' _ [?%bool_decide_eq_true _]%andb_true_iff.
  - intros o m ->. by apply reads_ret.
Qed.

(** The filter keeps what the caller may see, and does not look at the clock. *)
Ltac list_conditions :=
  try done; try apply newest_first_antisym; try (intros ? ? ? ?; by eapply eq_sym, newest_first_antisym).

Lemma messages_complete tenantId query phone w :
  ids_given w -> 1 <= ListMessagesQueryDto.limit query ->
  match truthy (ListMessagesQueryDto.phone query) with
  | Some p => normalizePhoneNumber p = Ok (default "" phone) /\ is_Some phone
  | None => phone = None
  end ->
  shows_all (message_matches tenantId query phone) (newest_first Message.createdAt)
    (fun c => listMessages tenantId (ListMessagesQueryDto.at_cursor query c)) w.
Proof.
  intros Hi Hl Hp. apply (complete_list _ _ (fun _ m => bool_decide (Message.tenantId m = Some tenantId))
    "Message cursor is invalid for this tenant" (ListMessagesQueryDto.limit query) w (mret tt)); list_conditions.
  - intros k m. unfold message_matches. intros Hm. by repeat apply andb_true_iff in Hm as [Hm _].
  - apply Hi.
  - intros n. by apply reads_ret.
  - intros c Hc. unfold listMessages, list_page. cbn. rewrite (truthy_cursor _ Hc).
    destruct (truthy (ListMessagesQueryDto.phone query)); [destruct Hp as [-> [p ->]]|rewrite Hp]; done.
Qed.
Lemma conversations_complete tenantId query w :
  ids_given w -> 1 <= ListConversationsQueryDto.limit query ->
  (ListConversationsQueryDto.unassigned query = true -> truthy (ListConversationsQueryDto.assignedAgentId query) = None) ->
  (ListConversationsQueryDto.unassignedTeam query = true -> truthy (ListConversationsQueryDto.assignedTeamId query) = None) ->
  shows_all (conversation_matches tenantId query) (newest_first Conversation.lastMessageAt)
    (fun c => listConversations tenantId (ListConversationsQueryDto.at_cursor query c)) w.
Proof.
  intros Hi Hl Ha Ht. apply (complete_list _ _ (fun _ c => bool_decide (Conversation.tenantId c = tenantId))
    "Conversation cursor is invalid for this tenant" (ListConversationsQueryDto.limit query) w (mret tt)); list_conditions.
  - intros k m. unfold conversation_matches. cbv zeta. intros Hm. by repeat apply andb_true_iff in Hm as [Hm _].
  - apply Hi.
  - intros n. by apply reads_ret.
  - intros c Hc. unfold listConversations. cbn. rewrite (truthy_cursor _ Hc).
    destruct (ListConversationsQueryDto.unassigned query); [rewrite Ha by done|]; cbn;
      (destruct (ListConversationsQueryDto.unassignedTeam query); [rewrite Ht by done|]; done).
Qed.
Lemma conversation_messages_complete tenantId id (c : Conversation.t) limit w :
  ids_given w -> 1 <= limit -> row id w = Some c -> Conversation.tenantId c = tenantId ->
  shows_all (fun _ _ => in_conversation tenantId id) (newest_first Message.createdAt)
    (fun cursor => listConversationMessages tenantId id cursor limit) w.
Proof.
  intros Hi Hl Hc Ht. apply (complete_list _ _ (fun _ => in_conversation tenantId id)
    "Message cursor is invalid for this conversation" limit w (assertConversation tenantId id)); list_conditions.
  - apply Hi.
  - intros n. by eapply conversation_there.
  - intros cursor Hc0. unfold listConversationMessages. by rewrite (truthy_cursor _ Hc0).
Qed.
Lemma notes_complete tenantId id (c : Conversation.t) limit w :
  ids_given w -> 1 <= limit <= 100 -> row id w = Some c -> Conversation.tenantId c = tenantId ->
  shows_all (fun _ _ => note_in tenantId id) (newest_first ConversationNote.createdAt)
    (fun cursor => listNotes tenantId id cursor limit) w.
Proof.
  intros Hi Hl Hc Ht. apply (complete_list _ _ (fun _ => note_in tenantId id)
    "Note cursor is invalid for this conversation" limit w (assertConversation tenantId id)); list_conditions; [apply Hi|lia| |].
  - intros n. by eapply conversation_there.
  - intros cursor Hc0. unfold listNotes. destruct (Z.ltb_spec limit 1); [lia|]. by destruct (Z.ltb_spec 100 limit); [lia|].
Qed.
Lemma campaigns_complete tenantId status limit w :
  ids_given w -> 1 <= limit ->
  shows_all (campaign_matches tenantId (ListCampaignsQueryDto.make status None limit)) (newest_first Campaign.createdAt)
    (fun c => listCampaigns tenantId (ListCampaignsQueryDto.make status c limit)) w.
Proof.
  intros Hi Hl. apply (complete_list _ _ (fun _ c => bool_decide (Campaign.tenantId c = tenantId))
    "Campaign cursor is invalid for this tenant" limit w (mret tt)); list_conditions.
  - by intros k m [Hm _]%andb_true_iff.
  - apply Hi.
  - intros n. by apply reads_ret.
  - intros c Hc. unfold listCampaigns. cbn. by rewrite (truthy_cursor _ Hc).
Qed.
Lemma recipients_complete tenantId id (c : Campaign.t) status limit w :
  ids_given w -> 1 <= limit -> row id w = Some c -> Campaign.tenantId c = tenantId ->
  shows_all (recipient_matches tenantId id (ListCampaignRecipientsQueryDto.make status None limit)) (oldest_first CampaignRecipient.createdAt)
    (fun cursor => listRecipients tenantId id (ListCampaignRecipientsQueryDto.make status cursor limit)) w.
Proof.
  intros Hi Hl Hc Ht. apply (complete_list _ _ (recipient_of tenantId id)
    "Campaign recipient cursor is invalid for this campaign" limit w (findById tenantId id)); list_conditions.
  - by intros k m [Hm _]%andb_true_iff.
  - apply Hi.
  - intros n. by eapply campaign_there.
  - intros cursor Hc0. unfold listRecipients. cbn. by rewrite (truthy_cursor _ Hc0).
Qed.
Lemma audit_complete tenantId query w :
  ids_given w -> 1 <= ListAuditLogsQueryDto.limit query ->
  shows_all (audit_matches tenantId query) (newest_first AuditLog.createdAt)
    (fun c => listAuditLogs tenantId (ListAuditLogsQueryDto.at_cursor query c)) w.
Proof.
  intros Hi Hl. apply (complete_list _ _ (fun _ a => bool_decide (AuditData.tenantId (AuditLog.data a) = tenantId))
    "Audit cursor is invalid for this tenant" (ListAuditLogsQueryDto.limit query) w (mret tt)); list_conditions.
  - intros k m. unfold audit_matches. cbv zeta. intros Hm. by repeat apply andb_true_iff in Hm as [Hm _].
  - apply Hi.
  - intros n. by apply reads_ret.
  - intros c Hc. unfold listAuditLogs. cbn. by rewrite (truthy_cursor _ Hc).
Qed.

(** *** By key set *)
Lemma after_not_before (a b : string * CannedResponse.t) :
  newest_first CannedResponse.createdAt b a -> after_anchor (Some a) b.1 b.2 = false.
Proof.
  destruct a as [k a], b as [k' b]. unfold after_anchor, newest_first, JsString.le. cbn. intros Hba.
  apply orb_false_iff. rewrite andb_false_iff, Z.ltb_ge, Z.eqb_neq, negb_false_iff.
  destruct Hba as [?|[? Hk]]; split; [lia|left; lia|lia|by right].
Qed.
Lemma before_after (a b : string * CannedResponse.t) :
  newest_first CannedResponse.createdAt a b -> b.1 <> a.1 -> after_anchor (Some a) b.1 b.2 = true.
Proof.
  destruct a as [k a], b as [k' b]. unfold after_anchor, newest_first. cbn. intros Hab Hne.
  apply orb_true_iff. rewrite andb_true_iff, Z.ltb_lt, Z.eqb_eq, negb_true_iff.
  destruct Hab as [?|[? Hk]]; [by left|right]. split; [lia|].
  destruct (String.leb k k') eqn:E; [|done]. by destruct Hne; apply JsString.le_antisym.
Qed.
(** What follows the anchor in the list is what the key set condition selects. *)
Lemma filter_after (l1 : list (string * CannedResponse.t)) a l2 :
  StronglySorted (newest_first CannedResponse.createdAt) (l1 ++ a :: l2) -> NoDup (l1 ++ a :: l2).*1 ->
  filter (fun kr => after_anchor (Some a) kr.1 kr.2 = true) (l1 ++ a :: l2) = l2.
Proof.
  intros Hs Hd. apply StronglySorted_app in Hs as (H12 & _ & H2). apply StronglySorted_inv in H2 as [_ H2].
  rewrite Forall_forall in H2. rewrite fmap_app, fmap_cons in Hd. apply NoDup_app in Hd as (_ & _ & [Hd _]%NoDup_cons).
  rewrite filter_app, filter_cons, (filter_none (fun kr => after_anchor (Some a) kr.1 kr.2)); cbn [app].
  - rewrite decide_False.
    + apply (filter_id_elem (fun kr => after_anchor (Some a) kr.1 kr.2)). intros x Hx. apply before_after; [by apply H2|].
      intros E. apply Hd. rewrite <- E. by apply list_elem_of_fmap_2.
    + rewrite after_not_before; [done|]. by destruct (newest_first_total CannedResponse.createdAt a a).
  - intros x Hx. rewrite after_not_before; [done|]. apply H12; [done|by left].
Qed.

Lemma canned_complete tenantId query shortcut w :
  1 <= ListCannedResponsesQueryDto.limit query <= 100 ->
  ListCannedResponsesQueryDto.status query ∈ ["active"; "inactive"; "all"]%string ->
  match ListCannedResponsesQueryDto.shortcut query with
  | Some s => exists n, normalizeShortcut (Some (JStr s)) = Ok n /\ shortcut = Some n
  | None => shortcut = None
  end ->
  shows_all (fun _ _ => in_list tenantId (ListCannedResponsesQueryDto.status query) shortcut) (newest_first CannedResponse.createdAt)
    (fun c => list_responses tenantId (ListCannedResponsesQueryDto.at_cursor query c)) w.
Proof.
  intros Hl Hst Hsc. set (p := fun (_ : World) (_ : string) => in_list tenantId _ shortcut). set (le := newest_first _).
  assert (Hanti : forall a b, le a b -> le b a -> a.1 = b.1) by apply newest_first_antisym.
  assert (Hstart : forall cursor n Q,
    (forall m, wp (anchor ← find_anchor tenantId cursor;
                   rows ← page_rows (fun _ k r => in_list tenantId (ListCannedResponsesQueryDto.status query) shortcut r && after_anchor anchor k r)
                            le None (ListCannedResponsesQueryDto.limit query);
                   mret (page_of (ListCannedResponsesQueryDto.limit query) rows)) Q (w <| tick := m |>)) ->
    wp (list_responses tenantId (ListCannedResponsesQueryDto.at_cursor query cursor)) Q (w <| tick := n |>)).
  { intros cursor n Q HQ. unfold list_responses, ListCannedResponsesQueryDto.at_cursor.
    cbn [ListCannedResponsesQueryDto.limit ListCannedResponsesQueryDto.status ListCannedResponsesQueryDto.shortcut ListCannedResponsesQueryDto.cursor].
    destruct (Z.ltb_spec (ListCannedResponsesQueryDto.limit query) 1); [lia|].
    destruct (Z.ltb_spec 100 (ListCannedResponsesQueryDto.limit query)); [lia|]. cbn [orb].
    rewrite bool_decide_false by (intros Hn; by apply Hn).
    apply wp_bind. destruct (ListCannedResponsesQueryDto.shortcut query) as [s|].
    - destruct Hsc as (x & Hx & ->). apply wp_try, wp_bind, wp_lift. rewrite Hx. apply HQ.
    - subst shortcut. apply HQ. }
  apply (listed_complete p le). apply (enumerate _ _ (ListCannedResponsesQueryDto.limit query)); [lia|..].
  - intros n. apply Hstart. intros m. eapply reads_bind; [by apply (reads_ret None (eq None))|]. intros _ m' <-.
    eapply reads_bind; [apply reads_page_start; [apply _|apply _|done|exact Hanti]|]. intros rows m'' ->. apply reads_ret. f_equal. f_equal.
    unfold listed. f_equal. unfold findMany. apply list_filter_iff. intros [k r]. unfold p. cbn. by rewrite andb_true_r.
  - intros l1 k r l2 n El. apply Hstart. intros m.
    assert (Hin : in_list tenantId (ListCannedResponsesQueryDto.status query) shortcut r = true /\ row k w = Some r).
    { apply (listed_elem p le). rewrite El. apply elem_of_app. right. by left. }
    destruct Hin as [Hin Hr]. eapply (reads_bind _ _ _ (eq (Some (k, r)))).
    { unfold find_anchor. eapply (reads_bind _ _ _ (fun o => o = Some (k, r))).
      - apply (reads_db (fun w => findFirst (Tables.of_tenant CannedResponse.tenantId k tenantId) (tbl w))); [intros i; by rewrite tbl_tick|].
        apply findFirst_unique; [exact Hr| |by intros k' r' _ [?%bool_decide_eq_true _]%andb_true_iff].
        unfold Tables.of_tenant, in_list in *. rewrite bool_decide_true by done. by do 2 apply andb_true_iff in Hin as [Hin _].
      - intros o i ->. by apply reads_ret. }
    intros _ m' <-. eapply reads_bind; [apply reads_page_start; [apply _|apply _|done|exact Hanti]|]. intros rows m'' ->. apply reads_ret.
    f_equal. f_equal. pose proof (listed_filter p (fun _ => after_anchor (Some (k, r))) le w Hanti) as Hf.
    etrans; [exact Hf|]. rewrite El. apply filter_after; rewrite <- El.
    + apply StronglySorted_merge_sort; apply _.
    + by apply (listed_NoDup p le w).
Qed.

(** C15: Every list endpoint that pages shows everything: following the cursors from the first page gives, for any limit and
    any filter the endpoint accepts, each row that matches the filter exactly once and in the endpoint's order, newest first and
    campaign recipients oldest first; rows with the same time are ordered by id, so none falls between two pages.  Only the
    database can make it fail. *)
Theorem listings_complete tenantId w (Hi : ids_given w) :
  (forall query phone, 1 <= ListMessagesQueryDto.limit query ->
     match truthy (ListMessagesQueryDto.phone query) with
     | Some p => normalizePhoneNumber p = Ok (default "" phone) /\ is_Some phone
     | None => phone = None
     end ->
     shows_all (message_matches tenantId query phone) (newest_first Message.createdAt)
       (fun c => listMessages tenantId (ListMessagesQueryDto.at_cursor query c)) w) /\
  (forall query, 1 <= ListConversationsQueryDto.limit query ->
     (ListConversationsQueryDto.unassigned query = true -> truthy (ListConversationsQueryDto.assignedAgentId query) = None) ->
     (ListConversationsQueryDto.unassignedTeam query = true -> truthy (ListConversationsQueryDto.assignedTeamId query) = None) ->
     shows_all (conversation_matches tenantId query) (newest_first Conversation.lastMessageAt)
       (fun c => listConversations tenantId (ListConversationsQueryDto.at_cursor query c)) w) /\
  (forall id (c : Conversation.t) limit, row id w = Some c -> Conversation.tenantId c = tenantId -> 1 <= limit ->
     shows_all (fun _ _ => in_conversation tenantId id) (newest_first Message.createdAt)
       (fun cursor => listConversationMessages tenantId id cursor limit) w /\
     (limit <= 100 ->
      shows_all (fun _ _ => note_in tenantId id) (newest_first ConversationNote.createdAt)
        (fun cursor => listNotes tenantId id cursor limit) w)) /\
  (forall status limit, 1 <= limit ->
     shows_all (campaign_matches tenantId (ListCampaignsQueryDto.make status None limit)) (newest_first Campaign.createdAt)
       (fun c => listCampaigns tenantId (ListCampaignsQueryDto.make status c limit)) w) /\
  (forall id (c : Campaign.t) status limit, row id w = Some c -> Campaign.tenantId c = tenantId -> 1 <= limit ->
     shows_all (recipient_matches tenantId id (ListCampaignRecipientsQueryDto.make status None limit)) (oldest_first CampaignRecipient.createdAt)
       (fun cursor => listRecipients tenantId id (ListCampaignRecipientsQueryDto.make status cursor limit)) w) /\
  (forall query, 1 <= ListAuditLogsQueryDto.limit query ->
     shows_all (audit_matches tenantId query) (newest_first AuditLog.createdAt)
       (fun c => listAuditLogs tenantId (ListAuditLogsQueryDto.at_cursor query c)) w) /\
  (forall query shortcut, 1 <= ListCannedResponsesQueryDto.limit query <= 100 ->
     ListCannedResponsesQueryDto.status query ∈ ["active"; "inactive"; "all"]%string ->
     match ListCannedResponsesQueryDto.shortcut query with
     | Some s => exists n, normalizeShortcut (Some (JStr s)) = Ok n /\ shortcut = Some n
     | None => shortcut = None
     end ->
     shows_all (fun _ _ => in_list tenantId (ListCannedResponsesQueryDto.status query) shortcut) (newest_first CannedResponse.createdAt)
       (fun c => list_responses tenantId (ListCannedResponsesQueryDto.at_cursor query c)) w).
Proof.
  split; [intros; by apply messages_complete|]. split; [intros; by apply conversations_complete|].
  split; [intros id c limit Hc Ht Hl; split; [by eapply conversation_messages_complete|intros; by eapply notes_complete]|].
  split; [intros; by apply campaigns_complete|]. split; [intros; by eapply recipients_complete|].
  split; [intros; by apply audit_complete|]. intros. by apply canned_complete.
Qed.
End listings.

(** ** Three messages, two at the same time *)
#[local] Open Scope string_scope.
Definition inbound_text (tenantId : string) (at_ : Z) : Message.t :=
  {| Message.tenantId := Some tenantId; Message.senderId := Some "s"; Message.conversationId := None;
     Message.direction := MessageDirection.INBOUND; Message.trafficClass := MessageTrafficClass.TRANSACTIONAL;
     Message.type := MessageType.TEXT; Message.status := MessageStatus.RECEIVED; Message.to := None; Message.from := None;
     Message.providerMessageId := None; Message.providerTimestamp := None; Message.idempotencyKey := None; Message.payload := JNull;
     Message.providerResponse := None; Message.errorCode := None; Message.errorMessage := None; Message.attemptCount := 0;
     Message.lastAttemptAt := None; Message.processingLeaseUntil := None; Message.createdAt := at_; Message.submittedAt := None;
     Message.sentAt := None; Message.deliveredAt := None; Message.readAt := None; Message.failedAt := None |}.
Definition listing_world : World (H := gmap_prisma) :=
  world_with (<["a" := inbound_text "t" 1]> (<["b" := inbound_text "t" 2]> (<["c" := inbound_text "t" 2]> {[ "d" := inbound_text "u" 3 ]}))).
Definition all_messages (limit : Z) : ListMessagesQueryDto.t := ListMessagesQueryDto.make None None None None None None limit.

Lemma listings_witness :
  (match (@follow gmap_prisma Message.t (fun c => @listMessages gmap_prisma (calm 5) "t" (ListMessagesQueryDto.at_cursor (all_messages 1) c)) 4 None listing_world).1
   with Ok l => Some l.*1 | _ => None end) = Some ["c"; "b"; "a"] /\
  @shows_all gmap_prisma (calm 5) Message.t _ (message_matches "t" (all_messages 1) None) (newest_first Message.createdAt)
    (fun c => @listMessages gmap_prisma (calm 5) "t" (ListMessagesQueryDto.at_cursor (all_messages 1) c)) listing_world.
Proof.
  split; [vm_compute; reflexivity|].
  assert (Hi : ids_given listing_world) by (split; vm_compute; reflexivity).
  exact (proj1 (@listings_complete gmap_prisma (calm 5) "t" listing_world Hi) (all_messages 1) None ltac:(cbn; lia) eq_refl).
Defined.
